(* ===== verification/_CoqProject ===== *)
-Q . S2P
Prelude.v
PyStr.v
Validators.v
Models.v
PyExc.v
Logs.v
World.v
Lease.v
LeaseProtocol.v
Schema.v
Trace.v
Migrator.v
MigratorSafety.v
Quiet.v
MigratorRun.v
Hygiene.v
Scheduler.v
SchedulerFacts.v
ResolveCache.v
ResolveCacheFacts.v
Scenario.v
Registry.v
RegistryFacts.v
Throttle.v
ResolveService.v
ResolveServiceFacts.v
Routing.v
RoutingFacts.v
ResolverScenario.v
TaskRun.v
Beat.v
TenantTask.v
Fanout.v
FanoutFacts.v
ProvisionTask.v
FanoutScenario.v
Requests.v
ModelMethods.v
Probes.v
Console.v
Admin.v
LifecycleFacts.v
ConsoleFacts.v
RegistryInvariant.v
ModelFacts.v
LeaseCommand.v
Reconcile.v
ReconcileFacts.v
MigrateCommand.v
MigrateCommandFacts.v
MigrateReport.v
ConsoleScenario.v
Credentials.v
CredentialFacts.v
SettingsChecks.v
SchemaCommands.v
Bootstrap.v
CacheCommands.v
CacheCommandFacts.v
Bench.v
BenchFacts.v
LoadTest.v
Responses.v
ShardCommand.v
LegacyMigrate.v
RegistryPrograms.v
BizDb.v
Orders.v
Routes.v
Accounts.v
Catalog.v
TenantApi.v
ApiFacts.v
ProductTasks.v
Coordinates.v
BizScenario.v
CiGuard.v
Settings.v
Platform.v
