(* ===== verification/Prelude.v ===== *)
(** * Multi-tenant back end: a verification of its core

    The program is a Django back end in which every tenant owns one PostgreSQL
    schema on one of several shards, while the registry (Shard, Tenant, Domain,
    MigrationLease, TaskRun) lives in the public schema of the database alias
    [default].  A request is resolved from its host name to a tenant, routed to
    the tenant's shard and schema, and background work is fanned out per tenant.

    ** Parts of the program and the files that model them

    - Strings and exceptions.  [PyStr]: the Python string operations the code uses,
      on lists of bytes.  [PyExc]: exceptions as heaps of objects linked by
      __cause__ and __context__, and their classification ([_chain],
      [is_conn_error], [is_lock_timeout] of tenants/migrator.py).
    - Validation.  [Validators]: tenants/validators.py, ReservedHostRule and the
      Domain constraint of tenants/models.py, and the seeded rules of
      tenants/migrations/0002_seed_reserved_hosts.py.
    - Registry data.  [Models]: the rows; a [Registry] record is default.public.
      [Requests]: the monad of a process that works on the registry in
      transactions, with row locks and on_commit callbacks.  [ModelMethods],
      [ModelFacts]: save, clean, delete and from_db of tenants/models.py, the
      receivers of tenants/signals.py and what they leave in the resolve cache.
    - Migrator.  [World] is the state of one migrating process: the servers, its
      connections, the cache, a script of events.  Every SQL statement is a round
      trip; before it other clients may change the servers arbitrarily, and it may
      fail before or after taking effect.  [Lease] holds the lease statements, the
      fenced status update and the connection hygiene, [Schema] the catalogue and
      plan queries, [Migrator] [migrate_tenant], [migrate_shared] and [snapshot] with
      every except and finally clause, [Logs] the log files; all of
      tenants/migrator.py.  [LeaseProtocol], [Trace], [MigratorSafety], [Quiet],
      [MigratorRun] and [Hygiene] hold the properties, [Scenario] the instances.
    - migrate_schemas.  [Scheduler], [SchedulerFacts]: pick_next, TenantStage and the
      two loops over an abstract migration.  [MigrateCommand], [MigrateCommandFacts]:
      the options, selection, re-check, settling, and handle around the modelled
      migrator and a worker pool.  [MigrateReport]: the lines, the summary, the JSON
      document, the screen and the files they go to, and the signal handlers.
      [LegacyMigrate]: the superseded command,
      management/commands/migrate_schemas_legacy.py, over the same round trips.
    - Operator commands, all under tenants/management/commands.  [LeaseCommand]:
      migration_lease.py.  [Reconcile], [ReconcileFacts]: reconcile_tenants.py.
      [SchemaCommands]: drop_tenant_schema.py, create_tenant_schema.py,
      sync_shards.py, migrate.py and the mode guard.  [Bootstrap]:
      bootstrap_public.py and bootstrap_tenant.py.  [CacheCommands],
      [CacheCommandFacts]: warm_resolve_cache.py, invalidate_resolve_cache.py, and
      the tasks of tenants/tasks.py that wrap a command.  [ShardCommand]:
      tenant_command.py.
    - Console.  [Probes]: console/probes.py.  [Console]: console/serializers.py and
      views.py.  [Admin]: console/admin.py, the domain pages included, where the checks
      of Django's form are an argument.  [LifecycleFacts] has the rules of the
      monad and the status machine, [ConsoleFacts] the other properties,
      [RegistryInvariant] the invariant of the registry, [RegistryPrograms] its
      preservation by every sequence of requests, posts, tasks and commands that
      write it, [ConsoleScenario] the instances.
    - Credentials.  [Credentials], [CredentialFacts]: users/serializers.py,
      signals.py, permissions.py, tenants/auth and tenants/permissions.py, over a
      signing library given by its laws, and which credential a route of
      tenants_back/urls_tenant.py reads: the REST views a bearer token, the admin
      site a session.
    - Resolution.  [ResolveCache], [ResolveCacheFacts]: tenants/resolver/cache.py,
      snapshot.py, config.py, flags.py, markers.py over an abstract Django cache
      ([Backend]).  [Registry], [RegistryFacts]: the raw client by the documented
      effect of its commands, the monad of a resolving process, resolver/registry.py
      and the Domain signals.  [Throttle]: resolver/throttle.py with single_flight.
      [ResolveService], [ResolveServiceFacts]: resolver/service.py.
      [ResolverScenario]: instances, also of routing.
    - Measuring.  [Bench], [BenchFacts]: scripts/resolve_cache_bench.py, over the
      modelled service, cache and registry.  [LoadTest]:
      deploy/loadtest_rds_proxy.py, the virtual users as functions of the answers
      they get, the statistics as the sink of their notes.
    - Routing.  [Routing], [RoutingFacts]: tenants/context.py, routers.py,
      middleware.py and the key layout of commons/platform/cache_keys.py.
      [Responses]: tenants/errors.py, the texts the middleware passes to it, and
      middleware_diagnostics.py.
    - Background work.  [TaskRun]: the dispatch watermark of tenants/models.py.
      [Beat]: commons/platform/mode.py and beat.py, argsig, and the schedule checks
      of tenants/checks/beat.py.  [TenantTask]: tenants/celery/task.py, app.py,
      cache.py.  [Fanout], [FanoutFacts], [FanoutScenario]: tenants/celery/dispatch.py
      and the target queries of commons/platform/tenancy.py.  [ProvisionTask]:
      provision_tenant of tenants/tasks.py.
    - Settings and platform.  [SettingsChecks]: base.py, gate.py, middleware.py and
      migrate.py of tenants/checks.  [Settings]: tenants_back/settings.py and what
      settings_base.py and settings_multitenant.py compute.  [Platform]: the
      standalone side of commons/platform, the raw client, the operations of
      non-atomic migrations, eager and class-based tasks, the check E005 and the
      choice of the Celery application.
    - CI guards.  [CiGuard]: scripts/ci_guard_ast.py, on syntax trees.
    - Business apps.  [BizDb]: the tables of one tenant and their constraints, with
      the models of users, customers, drivers, cars, products, orders and routes.
      [Orders], [Routes], [Accounts] (drivers and customers), [Catalog] (cars and
      products): serializers and viewsets.  [TenantApi]: the requests of
      tenants_back/urls_tenant.py as one step relation and the invariant of the
      tables.  [ApiFacts]: the other properties.  [ProductTasks]: products/tasks.py
      and seed_products.py.  [Coordinates]: the S3 uploader and the two commands
      under routes.  [BizScenario]: instances.

    ** How the parts interact

    The migrator writes tenant statuses under a lease and invalidates the resolve
    cache after the writes that change what a host resolves to; that promise of the
    cache is the class [Invalidator] of [World].  The console, the admin and the
    commands read the same lease row, call the migrator's own lease and schema
    checks, and defer the invalidation of the cache to commit; for them the cache is
    the class [HostInvalidator] of [Requests], whose instance by the modelled cache
    is in [ModelFacts].  migrate_schemas drives [migrate_tenant], and
    bootstrap_tenant drives the modelled migrate_schemas.  The resolve service reads
    the cache, the host registry (gate) and the throttle.  The middleware resolves
    and then routes with the context functions; a tenant task reads the schema
    snapshot of the same cache and enters the same context.  The fan-out sends tasks
    with the schema in a header; the watermark decides what is due.  The settings give
    the router its lists and the middleware its order; the deploy checks are evaluated
    on them.  The bench drives the modelled resolver, its gauge also measures the load
    test.  A request of a business app runs inside the schema that routing chose,
    so its tables are those of one tenant.

    ** Conventions

    Pure Python functions are functions; effectful ones are programs in a small
    state-and-exception monad per group of components ([M] of the migrator, [RM] of
    the resolver, [FM] of the fan-out, [CM] of console and commands), so that the
    order of the effects is that of the source.  Other processes and failures are
    data: a script of events consumed by the round trips.  A request of a business app
    reads one state of the tables and commits to a later one, which other requests may
    have changed in between within the constraints.  A theorem without a
    hypothesis on the script holds for every interleaving and failure pattern; one
    that asks for an empty script, or [Quiet], describes an undisturbed run.
    Third-party code is a class with its documented laws ([Upstream], [Site],
    [Invalidator], [HostInvalidator], [DomainMixin], [Backend], [RawRedis],
    [TenantBackend], [CronLib], [AuthLib], [S3]) or a section variable; the scenario files
    give instances of each, in which the theorems with hypotheses are applied.

    ** What the theorems show

    - Safety of migrations for every interleaving and failure: the lease excludes,
      a takeover fences the former owner, statuses follow the legal transitions,
      ACTIVE is written only after migrations, connections are left clean.
    - Functional behaviour of a migration on each branch: provisioned, upgraded,
      locked, failed, foreign schema.
    - migrate_schemas: limits, no target twice, every entry settled, termination of
      both loops once the workers are, the report and its JSON read back, whatever is
      raised inside the loops; without a report only a [BaseException] other than
      Ctrl-C ends it.
    - The registry: every sequence of console requests, admin posts, migrations,
      tasks and commands keeps it well-formed, where hostnames are canonical except
      those an operator forces or gives the public tenant; statuses move only along
      the state machine and never over a live lease; the hosts a change concerns are
      invalidated at commit.
    - The commands: a release removes the lease it names, reconcile_tenants --check
      is exact, line by line, a drop removes one schema and nothing else, sync_shards registers
      exactly the configured aliases, an invalidation reaches exactly the hosts
      it was asked for, a warm-up overwrites nothing it was not told to.
    - Credentials: no sequence of logins, refreshes and replays lets a token of one
      tenant act on another; each permission class decides as documented.
    - The resolver: outcomes of [resolve] under any failure, invalidation that stale
      fills cannot undo, reconciliation that makes gate and cache exact, single
      flight, budgets.
    - Routing: contexts restore both axes however the body ends, the router never
      guesses, keys of different tenants, of the cache and manual ones, are
      disjoint, a refusal reaches the client whatever the template does, the identity headers name the shard.
    - Background work: a tick sends one message per due tenant with its own schema,
      the due-check is exact, watermarks converge under interleaving, failed sends
      are not recorded, the deploy checks imply what they are meant to, a task runs
      in the schema it was sent from.
    - Measuring: the three arms of the bench count one query per request, per
      distinct host and per distinct known host, a gated pass costs no query, and
      the checks of verify pass on the modelled system; the report of the load test
      counts exactly what the users saw, in any interleaving, and an order is posted only with ids of its own iteration.
    - Validators: exact acceptance, no break-out of quoting; what the seeded rules
      reserve.  System checks: each fires exactly on the settings it is about.
    - Settings: the value of every name is that of the last layer that binds it, an
      error inside a local file is never swallowed, no two cache aliases write the
      same key, the multi-tenant middleware passes
      its check exactly when both anchors are in the base, and on the settings of the
      repository the router sends every model of every app where it belongs.
    - CI guards: each rule flags exactly the modules it describes, read off the tree;
      for the schema rule the reference is what Python's imports make a name stand
      for, and the ways to reach a connection that it misses are proved to be missed.
    - Business apps: every request, raced by others, keeps the constraints and the
      invariants of the tables; a customer sees and changes only orders that were his when the request read them; open
      routes exclude each other; a product name generator that always returns.  Objects
      in S3: a tenant lists all it uploaded and nothing else, answers that get lost
      included, each body carries its number, and a load test gains the bucket the
      keys it reports and, beyond them, at most the object of an upload that failed.
    - Legacy command: the status writes of a run follow the state machine, the final
      status is the claimed one where others leave the claim alone, and what the work
      on one tenant leaves behind on each branch.
    - The report of migrate_schemas: a dead screen costs no file, and a reader of the
      JSON path finds the old document or the whole new one.
    - Theorems that record where code and comment disagree:
      [conn_error_escapes_migrate_tenant], [shard_alias_not_fixed],
      [dirty_recheck_misses_split_mutation], [domain_check_admits_noncanonical],
      [second_save_misses_move], [clean_accepts_public_in_disguise],
      [destroy_races_maintenance], [release_hits_retaken_lease],
      [advice_fails_for_deleted], [drop_misses_registration],
      [bootstrap_domain_taken], [warm_counts_unwritten], [outage_reported_as_lock],
      [invalidated_hosts_overcounted], [claim_left_pending], [misnamed_left_pending],
      [plates_differ_by_blanks], [normalisation_is_identity], [soft_check_races],
      [account_outlives_driver], [import_django_escapes], [star_import_escapes],
      [same_instant_collides], [limit_zero_yields], [loadtest_prompt_fails],
      [allowlist_is_lowered], [empty_variable_differs], [compare_fails_on_flood],
      [rebuild_fails_beside_tenants], [cleanup_leaves_schema_markers],
      [compare_divides_by_zero], [trimmed_never_orders],
      [refused_login_is_no_signal], [unseed_takes_operator_rule],
      [foreign_session_blocks_api], [boundary_occurrence_lost], [midnight_lost],
      [reassigned_order_taken_back].

    ** Fuel and bounds

    [_chain] runs on the number of heap objects plus one, and [chain_terminates]
    shows that more fuel changes nothing.  The sequential loop takes one iteration
    per target plus one, and its theorem shows that it returns.  The parallel loop is
    structural on the list of turns of the pool; a run that has used them up is still
    waiting, and [parallel_waits] bounds the turns that found every worker finished;
    submission has one unit of fuel per entry plus one, and
    [submit_exhausts] shows that this is enough.  The suffix loop of the product names
    runs on count plus the number of taken names, and [pick_distinct_total] shows that
    it returns within that; the walk over a syntax tree runs on the size of the tree;
    a virtual user runs for a number of turns, which stands for its deadline.
    All other recursion is structural.
    Integers are [Z] as in Python; times are microseconds; floats of the token bucket
    and of graces are rationals; the index of a percentile is rounded exactly, where
    the code rounds a float product.

    ** Not modelled

    Parsing of arguments, json.dumps of reports, prctl, rendering of templates; the
    user tables that the bootstraps and create_admin write (the created user is an
    argument); strftime of the stamps in reports (the number stands for it); constants
    of the settings that nothing computes; the order and the paging of listings of the
    business apps; the field parsing of the serializer library.  Of the measuring
    scripts: clocks, random draws, sockets, threads of a load pass beyond their
    counters, INFO statistics of Redis, the row of the bench shard and the layout of
    what is printed.  Expiry of Redis keys is not timed: a lock or a tombstone that
    expired is an event of the environment.  Text of log lines is modelled for the
    migration log files and the output of the commands only.

    ** Plan

    Next: reconcile interleaved with membership changes by more than one process; the
    tables of a tenant under a migration that runs beside requests; a load pass of the
    bench with threads that interleave inside a resolve. *)
From stdpp Require Export prelude gmap strings list sorting fin_maps.

(** * Prelude: shared notation, automation and generic lemmas *)

Declare Scope tenants_scope.
Delimit Scope tenants_scope with tenants.

Create HintDb tenants.

(** ** Results of fallible Python code

    [Ok a] is a normal return, [Err e] a raised exception described by [e]. *)
Inductive res (E A : Type) : Type :=
| Ok (a : A)
| Err (e : E).
Arguments Ok {E A} a.
Arguments Err {E A} e.

Definition is_ok {E A} (r : res E A) : bool :=
  match r with Ok _ => true | Err _ => false end.

Definition res_bind {E A B} (r : res E A) (k : A → res E B) : res E B :=
  match r with Ok a => k a | Err e => Err e end.

Notation "x <-? r ;; k" := (res_bind r (fun x => k))
  (at level 60, r at next level, right associativity) : tenants_scope.

Lemma res_bind_ok {E A B} (r : res E A) (k : A → res E B) b :
  res_bind r k = Ok b ↔ ∃ a, r = Ok a ∧ k a = Ok b.
Proof. destruct r; simpl; split; naive_solver. Qed.

(** ** Case analysis on the tests of the code *)

(** Destructs the head [if]/[match] scrutinee of the goal or of a hypothesis,
    keeping its equation. *)
Ltac break_match :=
  match goal with
  | |- context [ match ?x with _ => _ end ] => destruct x eqn:?
  | H : context [ match ?x with _ => _ end ] |- _ => destruct x eqn:?
  end.

Ltac break_all := repeat (break_match; simplify_eq/=).

(** Turns boolean tests into the propositions they decide. *)
Ltac bool_props :=
  repeat match goal with
  | H : _ && _ = true |- _ => apply andb_true_iff in H as [? ?]
  | H : _ && _ = false |- _ => apply andb_false_iff in H
  | H : _ || _ = true |- _ => apply orb_true_iff in H
  | H : _ || _ = false |- _ => apply orb_false_iff in H as [? ?]
  | H : negb _ = true |- _ => apply negb_true_iff in H
  | H : negb _ = false |- _ => apply negb_false_iff in H
  | H : bool_decide _ = true |- _ => apply bool_decide_eq_true in H
  | H : bool_decide _ = false |- _ => apply bool_decide_eq_false in H
  | H : (_ =? _)%Z = true |- _ => apply Z.eqb_eq in H
  | H : (_ =? _)%Z = false |- _ => apply Z.eqb_neq in H
  | H : (_ <? _)%Z = true |- _ => apply Z.ltb_lt in H
  | H : (_ <? _)%Z = false |- _ => apply Z.ltb_ge in H
  | H : (_ <=? _)%Z = true |- _ => apply Z.leb_le in H
  | H : (_ <=? _)%Z = false |- _ => apply Z.leb_gt in H
  | H : (_ <=? _)%nat = true |- _ => apply Nat.leb_le in H
  | H : (_ <=? _)%nat = false |- _ => apply Nat.leb_gt in H
  | H : (_ <? _)%nat = true |- _ => apply Nat.ltb_lt in H
  | H : (_ <? _)%nat = false |- _ => apply Nat.ltb_ge in H
  | H : (_ =? _)%nat = true |- _ => apply Nat.eqb_eq in H
  | H : (_ =? _)%nat = false |- _ => apply Nat.eqb_neq in H
  | H : String.eqb _ _ = true |- _ => apply String.eqb_eq in H
  | H : String.eqb _ _ = false |- _ => apply String.eqb_neq in H
  end.

(** Python's [x in collection] on a list, as a test. *)
Definition mem {A} `{EqDecision A} (x : A) (l : list A) : bool :=
  bool_decide (x ∈ l).

Lemma mem_spec {A} `{EqDecision A} (x : A) l : mem x l = true ↔ x ∈ l.
Proof. apply bool_decide_eq_true. Qed.

Lemma mem_false {A} `{EqDecision A} (x : A) l : mem x l = false ↔ x ∉ l.
Proof. apply bool_decide_eq_false. Qed.

(** ** Lists *)

Lemma forallb_Forall {A} (f : A → bool) l :
  forallb f l = true ↔ Forall (λ x, f x = true) l.
Proof. rewrite forallb_forall, Forall_forall. by setoid_rewrite list_elem_of_In. Qed.

Lemma existsb_Exists {A} (f : A → bool) l :
  existsb f l = true ↔ ∃ x, x ∈ l ∧ f x = true.
Proof. rewrite existsb_exists. by setoid_rewrite list_elem_of_In. Qed.

Lemma existsb_false {A} (f : A → bool) l :
  existsb f l = false ↔ ∀ x, x ∈ l → f x = false.
Proof.
  rewrite <- not_true_iff_false, existsb_Exists. split.
  - intros H x Hx. apply not_true_iff_false. eauto.
  - intros H (x & Hx & Hf). by rewrite (H x Hx) in Hf.
Qed.

(** Python's [d.setdefault(k, []).append(v)] grouping, [for x in xs: ...] loops
    and slices are written with [foldl], [take] and [drop]. *)

Lemma foldl_ind {A B} (P : A → Prop) (f : A → B → A) (l : list B) a :
  P a → (∀ a b, b ∈ l → P a → P (f a b)) → P (foldl f a l).
Proof.
  revert a. induction l as [|b l IH]; intros a Ha Hf; simpl; [done|].
  apply IH; [apply Hf; [left|done]|]. intros ????. apply Hf; [by right|done].
Qed.

Lemma filter_all {A} (P : A → Prop) `{!∀ x, Decision (P x)} (l : list A) : (∀ x, x ∈ l → P x) → filter P l = l.
Proof.
  induction l as [|x l IH]; intros Hl; [done|]. rewrite filter_cons_True by (apply Hl; left).
  f_equal. apply IH. intros y Hy. apply Hl. by right.
Qed.

Lemma filter_ext_elem {A} (P Q : A → Prop) `{!∀ x, Decision (P x), !∀ x, Decision (Q x)} (l : list A) :
  (∀ x, x ∈ l → P x ↔ Q x) → filter P l = filter Q l.
Proof.
  induction l as [|x l IH]; intros Hl; [done|].
  assert (P x ↔ Q x) as Hx by (apply Hl; left). rewrite !filter_cons, IH by (intros y Hy; apply Hl; by right).
  do 2 case_decide; tauto || done.
Qed.

Lemma take_drop_length {A} n (l : list A) :
  0 < n → l ≠ [] → length (drop n l) < length l.
Proof. intros Hn Hl. rewrite length_drop. destruct l; simpl in *; [done|lia]. Qed.
