(* ===== verification/PyStr.v ===== *)
(** * Python strings

    The source handles [str] values.  A [str] is modelled by a Rocq [string]
    whose characters are the code points U+0000..U+00FF; on these the methods
    below ([strip], [lower], [rstrip], [startswith], [endswith], [split],
    [join], [replace], [isdigit], [in]) are Python's own.  Code points above
    U+00FF are outside the model. *)
From S2P Require Import Prelude.
From Stdlib Require Import Ascii.
From stdpp Require Export pretty.

Abbreviation chars := String.list_ascii_of_string.
Abbreviation of_chars := String.string_of_list_ascii.

(** ** Characters *)

Definition code (c : ascii) : N := N_of_ascii c.

Definition in_range (lo hi : N) (c : ascii) : bool :=
  ((lo <=? code c) && (code c <=? hi))%N.

(** [str.isspace] on one character: what [strip()] removes. *)
Definition py_space (c : ascii) : bool :=
  in_range 9 13 c || in_range 28 32 c || (code c =? 133)%N || (code c =? 160)%N.

(** [str.lower] on one character. *)
Definition py_lower_char (c : ascii) : ascii :=
  if in_range 65 90 c || (in_range 192 222 c && negb (code c =? 215)%N)
  then ascii_of_N (code c + 32) else c.

(** [str.isdigit] on one character (the superscripts count). *)
Definition py_digit (c : ascii) : bool :=
  in_range 48 57 c || (code c =? 178)%N || (code c =? 179)%N || (code c =? 185)%N.

(** Regex character classes of the source. *)
Definition is_lower (c : ascii) : bool := in_range 97 122 c.
Definition is_09 (c : ascii) : bool := in_range 48 57 c.
Definition is_ctrl (c : ascii) : bool := in_range 0 31 c.

Ltac ascii_cases c := destruct c as [[] [] [] [] [] [] [] []].

Lemma py_lower_char_idem c : py_lower_char (py_lower_char c) = py_lower_char c.
Proof. ascii_cases c; reflexivity. Qed.

Lemma py_space_lower c : py_space (py_lower_char c) = py_space c.
Proof. ascii_cases c; reflexivity. Qed.

(** ** Strings *)

Fixpoint drop_while {A} (f : A → bool) (l : list A) : list A :=
  match l with
  | [] => []
  | x :: l' => if f x then drop_while f l' else l
  end.

Definition rdrop_while {A} (f : A → bool) (l : list A) : list A :=
  rev (drop_while f (rev l)).

Definition py_strip (s : string) : string :=
  of_chars (rdrop_while py_space (drop_while py_space (chars s))).

Definition py_lower (s : string) : string := of_chars (py_lower_char <$> chars s).

Definition py_rstrip_char (c : ascii) (s : string) : string :=
  of_chars (rdrop_while (Ascii.eqb c) (chars s)).

Definition py_replace (a b : ascii) (s : string) : string :=
  of_chars ((λ c, if Ascii.eqb c a then b else c) <$> chars s).

Definition py_startswith (s p : string) : bool := String.prefix p s.

Definition py_endswith (s suf : string) : bool :=
  String.prefix (of_chars (rev (chars suf))) (of_chars (rev (chars s))).

Definition py_isdigit (s : string) : bool :=
  match s with "" => false | _ => forallb py_digit (chars s) end.

(** [s[:-1]] *)
Definition py_drop_last (s : string) : string := of_chars (removelast (chars s)).

(** [s.split(c)] and [s.split(c, n)] on character lists. *)
Fixpoint split_chars (c : ascii) (l : list ascii) : list (list ascii) :=
  match l with
  | [] => [[]]
  | x :: l' =>
      if Ascii.eqb x c then [] :: split_chars c l'
      else match split_chars c l' with
           | [] => [[x]]
           | p :: ps => (x :: p) :: ps
           end
  end.

Fixpoint splitn_chars (n : nat) (c : ascii) (l : list ascii) : list (list ascii) :=
  match n with
  | O => [l]
  | S n' =>
      (fix go (l : list ascii) : list (list ascii) :=
         match l with
         | [] => [[]]
         | x :: l' =>
             if Ascii.eqb x c then [] :: splitn_chars n' c l'
             else match go l' with
                  | [] => [[x]]
                  | p :: ps => (x :: p) :: ps
                  end
         end) l
  end.

Definition py_split (c : ascii) (s : string) : list string :=
  of_chars <$> split_chars c (chars s).

Definition py_splitn (n : nat) (c : ascii) (s : string) : list string :=
  of_chars <$> splitn_chars n c (chars s).

Fixpoint py_join (sep : string) (l : list string) : string :=
  match l with
  | [] => ""
  | [x] => x
  | x :: l' => x +:+ sep +:+ py_join sep l'
  end.

(** The characters of [s] all satisfy [f]. *)
Definition str_forall (f : ascii → bool) (s : string) : bool := forallb f (chars s).

(** [s[:n]] and [s[-n:]] for [n > 0]. *)
Definition py_take (n : nat) (s : string) : string := of_chars (take n (chars s)).
Definition py_last (n : nat) (s : string) : string :=
  of_chars (drop (length (chars s) - n) (chars s)).

(** [str(n)] of an [int]. *)
Definition py_int (n : Z) : string := pretty n.

(** [repr(s)]: double quotes only when the text has a single quote and no
    double one; the quote used, the backslash and the unprintable characters
    are escaped. *)
Definition hex_digit (n : N) : ascii := ascii_of_N (if (n <? 10)%N then n + 48 else n + 87)%N.

Definition repr_char (q c : ascii) : list ascii :=
  let n := code c in
  if Ascii.eqb c q || (n =? 92)%N then [ascii_of_N 92; c]
  else if (n =? 10)%N then chars "\n"
  else if (n =? 13)%N then chars "\r"
  else if (n =? 9)%N then chars "\t"
  else if in_range 0 31 c || in_range 127 160 c || (n =? 173)%N
  then chars "\x" ++ [hex_digit (n / 16)%N; hex_digit (n mod 16)%N]
  else [c].

Definition py_repr (s : string) : string :=
  let sq := ascii_of_N 39 in
  let dq := ascii_of_N 34 in
  let q := if existsb (Ascii.eqb sq) (chars s) && negb (existsb (Ascii.eqb dq) (chars s))
           then dq else sq in
  of_chars ([q] ++ concat (repr_char q <$> chars s) ++ [q]).

(** [s.replace(a, b, 1)]: the first occurrence of the non-empty [a]. *)
Fixpoint replace_first (a b : string) (s : string) : string :=
  if String.prefix a s then b +:+ String.substring (String.length a) (String.length s) s
  else match s with
       | EmptyString => EmptyString
       | String c s' => String c (replace_first a b s')
       end.

(** ** Lemmas *)

Lemma chars_of_chars l : chars (of_chars l) = l.
Proof. apply String.list_ascii_of_string_of_list_ascii. Qed.

Lemma of_chars_chars s : of_chars (chars s) = s.
Proof. apply String.string_of_list_ascii_of_string. Qed.

Global Instance chars_inj : Inj (=) (=) String.list_ascii_of_string.
Proof. intros s t H. by rewrite <- (of_chars_chars s), <- (of_chars_chars t), H. Qed.

Global Instance of_chars_inj : Inj (=) (=) String.string_of_list_ascii.
Proof. intros l k H. by rewrite <- (chars_of_chars l), <- (chars_of_chars k), H. Qed.

Lemma chars_app s t : chars (s +:+ t) = chars s ++ chars t.
Proof. induction s as [|c s IH]; [done|]. simpl. by f_equal. Qed.

Lemma of_chars_app l k : of_chars (l ++ k) = of_chars l +:+ of_chars k.
Proof. apply (inj chars). by rewrite chars_app, !chars_of_chars. Qed.

Lemma str_app_nil (x : string) : x +:+ "" = x.
Proof. apply (inj String.list_ascii_of_string). rewrite chars_app. apply app_nil_r. Qed.

Lemma length_chars s : length (chars s) = String.length s.
Proof. induction s; simpl; auto. Qed.

Lemma chars_nil s : chars s = [] ↔ s = "".
Proof. by destruct s. Qed.

Lemma of_chars_nil l : of_chars l = "" ↔ l = [].
Proof. by destruct l. Qed.


Lemma str_app_inj_r (s t u : string) : s +:+ u = t +:+ u → s = t.
Proof.
  intros H. apply (inj chars). apply (f_equal chars) in H.
  rewrite !chars_app in H. by apply app_inv_tail in H.
Qed.

Lemma str_app_inj_l (x y z : string) : x +:+ y = x +:+ z → y = z.
Proof.
  intros E%(f_equal String.list_ascii_of_string). rewrite !chars_app in E.
  apply (inj String.list_ascii_of_string). by eapply app_inv_head.
Qed.

Lemma str_app_assoc (a b c : string) : a +:+ (b +:+ c) = (a +:+ b) +:+ c.
Proof. apply (inj chars). by rewrite !chars_app, app_assoc. Qed.

Lemma prefix_cons a p b s :
  String.prefix (String a p) (String b s) =
  if ascii_dec a b then String.prefix p s else false.
Proof. reflexivity. Qed.

Lemma prefix_spec p s : String.prefix p s = true ↔ ∃ q, s = p +:+ q.
Proof.
  revert s. induction p as [|a p IH]; intros s.
  - split; [intros _; by exists s|by destruct s].
  - destruct s as [|b s]; [split; [done|by intros [q Hq]]|].
    rewrite prefix_cons. destruct (ascii_dec a b) as [->|Hab].
    + rewrite IH. split; intros [q Hq]; exists q; [by rewrite Hq|by injection Hq].
    + split; [done|]. intros [q Hq]. by injection Hq as -> _.
Qed.

Lemma py_startswith_spec s p : py_startswith s p = true ↔ ∃ q, s = p +:+ q.
Proof. apply prefix_spec. Qed.

Lemma py_endswith_spec s suf : py_endswith s suf = true ↔ ∃ p, s = p +:+ suf.
Proof.
  unfold py_endswith. rewrite prefix_spec. split.
  - intros [q Hq]. apply (f_equal chars) in Hq.
    rewrite chars_app, !chars_of_chars in Hq. apply (f_equal (@rev _)) in Hq.
    rewrite rev_app_distr, !rev_involutive in Hq.
    exists (of_chars (rev (chars q))). apply (inj chars).
    by rewrite chars_app, chars_of_chars.
  - intros [p ->]. exists (of_chars (rev (chars p))).
    by rewrite chars_app, rev_app_distr, of_chars_app.
Qed.

(** *** [strip], [rstrip], [lower] *)

Lemma drop_while_id {A} (f : A → bool) l :
  match l with [] => True | x :: _ => f x = false end → drop_while f l = l.
Proof. destruct l as [|x l]; [done|]. simpl. by intros ->. Qed.

Lemma drop_while_head {A} (f : A → bool) l :
  match drop_while f l with [] => True | x :: _ => f x = false end.
Proof. induction l as [|x l IH]; simpl; [done|]. destruct (f x) eqn:E; done. Qed.

Lemma drop_while_suffix {A} (f : A → bool) l :
  ∃ k, l = k ++ drop_while f l ∧ Forall (λ x, f x = true) k.
Proof.
  induction l as [|x l (k & Hk & Hf)]; simpl; [by exists []|].
  destruct (f x) eqn:E; [|by exists []].
  exists (x :: k). split; [by rewrite Hk at 1|by constructor].
Qed.

Lemma rdrop_while_prefix {A} (f : A → bool) l :
  ∃ k, l = rdrop_while f l ++ k ∧ Forall (λ x, f x = true) k.
Proof.
  unfold rdrop_while. destruct (drop_while_suffix f (rev l)) as (k & Hk & Hf).
  exists (rev k). split; [|by apply Forall_rev].
  apply (f_equal (@rev _)) in Hk. by rewrite rev_involutive, rev_app_distr in Hk.
Qed.

Lemma rdrop_while_id {A} (f : A → bool) l :
  match rev l with [] => True | x :: _ => f x = false end → rdrop_while f l = l.
Proof.
  intros H. unfold rdrop_while. rewrite drop_while_id by done. apply rev_involutive.
Qed.

Lemma rdrop_while_last {A} (f : A → bool) l :
  match rev (rdrop_while f l) with [] => True | x :: _ => f x = false end.
Proof. unfold rdrop_while. rewrite rev_involutive. apply drop_while_head. Qed.

Lemma drop_while_none {A} (f : A → bool) l :
  Forall (λ x, f x = false) l → drop_while f l = l.
Proof. destruct 1 as [|x l Hx _]; [done|]. by apply drop_while_id. Qed.

Lemma rdrop_while_none {A} (f : A → bool) l :
  Forall (λ x, f x = false) l → rdrop_while f l = l.
Proof.
  intros H. unfold rdrop_while. rewrite drop_while_none by (by apply Forall_rev).
  apply rev_involutive.
Qed.

Lemma py_lower_idem s : py_lower (py_lower s) = py_lower s.
Proof.
  unfold py_lower. rewrite chars_of_chars, <- list_fmap_compose. f_equal.
  apply list_fmap_ext. intros ???; simpl. apply py_lower_char_idem.
Qed.

Lemma py_lower_id s :
  Forall (λ c, py_lower_char c = c) (chars s) → py_lower s = s.
Proof.
  intros H. unfold py_lower. rewrite <- (of_chars_chars s) at 2. f_equal.
  induction H as [|c l Hc _ IH]; [done|]. simpl. by f_equal.
Qed.

(** *** [split] and [join] *)

Definition no_char (c : ascii) (s : string) : Prop := c ∉ chars s.

Lemma split_chars_ne c l : split_chars c l ≠ [].
Proof.
  induction l as [|x l IH]; simpl; [done|].
  destruct (Ascii.eqb x c); [done|]. by destruct (split_chars c l).
Qed.

Lemma split_chars_no_char c l : Forall (λ p, c ∉ p) (split_chars c l).
Proof.
  induction l as [|x l IH]; simpl; [repeat constructor; apply not_elem_of_nil|].
  destruct (Ascii.eqb_spec x c) as [->|Hne]; [constructor; [apply not_elem_of_nil|done]|].
  destruct (split_chars c l) as [|p ps]; [by repeat constructor; apply not_elem_of_cons; split; [|apply not_elem_of_nil]|].
  inversion_clear IH. constructor; [|done]. by apply not_elem_of_cons.
Qed.

Lemma split_chars_app c l k :
  c ∉ l → split_chars c (l ++ c :: k) = l :: split_chars c k.
Proof.
  induction l as [|x l IH]; intros Hc; simpl.
  - by rewrite Ascii.eqb_refl.
  - apply not_elem_of_cons in Hc as [Hx Hl].
    destruct (Ascii.eqb_spec x c) as [->|_]; [done|]. by rewrite IH.
Qed.

Lemma split_chars_one c l : c ∉ l → split_chars c l = [l].
Proof.
  induction l as [|x l IH]; intros Hc; simpl; [done|].
  apply not_elem_of_cons in Hc as [Hx Hl].
  destruct (Ascii.eqb_spec x c) as [->|_]; [done|]. by rewrite IH.
Qed.

Lemma splitn_chars_app n c l k :
  c ∉ l → splitn_chars (S n) c (l ++ c :: k) = l :: splitn_chars n c k.
Proof.
  intros Hc. simpl. induction l as [|x l IH]; simpl.
  - by rewrite Ascii.eqb_refl.
  - apply not_elem_of_cons in Hc as [Hx Hl].
    destruct (Ascii.eqb_spec x c) as [->|_]; [done|]. by rewrite (IH Hl).
Qed.

Lemma split_chars_cons c l :
  ∃ p, (split_chars c l = [p] ∧ l = p ∧ c ∉ p)
     ∨ (∃ k, l = p ++ c :: k ∧ split_chars c l = p :: split_chars c k ∧ c ∉ p).
Proof.
  destruct (decide (c ∈ l)) as [Hc|Hc].
  { apply list_elem_of_split_l in Hc as (p & k & -> & Hp).
    exists p. right. exists k. split; [done|]. split; [by apply split_chars_app|done]. }
  exists l. left. by rewrite split_chars_one.
Qed.

Lemma join_split c s : py_join (String c "") (py_split c s) = s.
Proof.
  unfold py_split. remember (length (chars s)) as n eqn:Hn.
  revert s Hn. induction n as [n IH] using lt_wf_ind. intros s ->.
  destruct (split_chars_cons c (chars s)) as (p & [(-> & Hs & _)|(k & Hs & -> & _)]).
  - simpl. by rewrite <- Hs, of_chars_chars.
  - rewrite fmap_cons. specialize (IH (length k)).
    assert (length k < length (chars s)) as Hlt by (rewrite Hs, length_app; simpl; lia).
    specialize (IH Hlt (of_chars k)). rewrite chars_of_chars in IH.
    specialize (IH eq_refl).
    destruct (split_chars c k) as [|q qs] eqn:Hk; [by apply split_chars_ne in Hk|].
    rewrite fmap_cons in IH |- *. simpl in IH |- *. rewrite IH.
    apply (inj String.list_ascii_of_string).
    change (String c "" +:+ of_chars k) with (String c (of_chars k)).
    rewrite chars_app, chars_of_chars, Hs. simpl. by rewrite chars_of_chars.
Qed.

Lemma py_split_no_char c s : Forall (no_char c) (py_split c s).
Proof.
  unfold py_split, no_char. apply Forall_fmap.
  eapply Forall_impl; [apply split_chars_no_char|]. intros p Hp. simpl.
  by rewrite chars_of_chars.
Qed.

(** *** Printed integers *)

(** A digit or the sign. *)
Definition int_char (c : ascii) : bool := is_09 c || Ascii.eqb c "-"%char.

Lemma pretty_N_go_int x s :
  Forall (λ c, int_char c = true) (chars s) → Forall (λ c, int_char c = true) (chars (pretty_N_go x s)).
Proof.
  revert s. induction (N.lt_wf_0 x) as [x _ IH]. intros s Hs. destruct (decide (x = 0)%N) as [->|Hx].
  { by rewrite pretty_N_go_0. }
  rewrite pretty_N_go_step by lia. apply IH; [apply N.div_lt; lia|]. simpl. constructor; [|done].
  unfold pretty_N_char. by repeat case_match.
Qed.

Lemma py_int_chars n : Forall (λ c, int_char c = true) (chars (py_int n)).
Proof.
  assert (∀ x : N, Forall (λ c, int_char c = true) (chars (pretty x))) as Hn.
  { intros x. unfold pretty, pretty_N. case_decide; [by repeat constructor|]. by apply pretty_N_go_int. }
  unfold py_int, pretty, pretty_Z. destruct n as [|p|p]; [by repeat constructor|apply Hn|].
  rewrite chars_app. apply Forall_app. split; [by repeat constructor|apply Hn].
Qed.

Lemma py_int_no_char c n : int_char c = false → no_char c (py_int n).
Proof.
  intros Hc Hin. pose proof (py_int_chars n) as Hf. rewrite Forall_forall in Hf. specialize (Hf c Hin). simpl in Hf. congruence.
Qed.

Lemma py_int_inj n m : py_int n = py_int m → n = m.
Proof. apply (inj pretty). Qed.

(** Text up to the first occurrence of a character. *)
Lemma cut_inj (c : ascii) l1 l2 r1 r2 :
  c ∉ l1 → c ∉ l2 → l1 ++ c :: r1 = l2 ++ c :: r2 → l1 = l2 ∧ r1 = r2.
Proof.
  revert l2. induction l1 as [|x l1 IH]; intros [|y l2] H1 H2 E; simplify_eq/=; try set_solver.
  apply not_elem_of_cons in H1 as [_ H1], H2 as [_ H2]. destruct (IH l2 H1 H2) as [-> ->]; done.
Qed.

(** *** [startswith] *)

Lemma prefix_chars p s : py_startswith s p = true ↔ ∃ r, chars s = chars p ++ r.
Proof.
  unfold py_startswith. revert s. induction p as [|c p IH]; intros s; simpl; [split; [by eexists|by destruct s]|].
  destruct s as [|c' s]; simpl; [split; [done|by intros [? ?]]|]. destruct (ascii_dec c c') as [->|Hne].
  - rewrite IH. split; intros [r E]; exists r; [by rewrite E|by injection E].
  - split; [done|]. intros [r E]. congruence.
Qed.
