(* ===== verification/Validators.v ===== *)
(** * Hostname, reserved-host and schema-name validation

    Models src/tenants/validators.py, the [ReservedHostRule] methods and the
    [Domain] canonical-form constraint of src/tenants/models.py.  A raised
    [ValidationError] is [Err e], [e] naming the [raise] site ([verror]); the ORM reads ([_public_hosts], the active rules) are arguments. *)
From S2P Require Import Prelude PyStr.
From Stdlib Require Import Ascii.

Local Open Scope tenants_scope.

(** ** Characters and quoting *)

Definition dot : ascii := "."%char.
Definition hyphen : ascii := "-"%char.
Definition underscore : ascii := "_"%char.
Definition squote : ascii := "'"%char.
Definition dquote : ascii := ascii_of_nat 34.

(** An f-string that quotes its argument with ['...']. *)
Definition in_quotes (s : string) : string :=
  String squote (s +:+ String squote "").

(** One constructor per [raise] of the validators: the [ValidationError]s (and
    the [ValueError] of [quote_schema]) with the values their text carries. *)
Inductive verror :=
| HostRequired
| HostTooLong
| HostInvalid
| HostNumericTop
| LabelInvalid
| UnknownMatchType (match_type : string)
| SchemaRequired
| SchemaTooLong (len : nat)
| SchemaUnusable (name : string)
| SchemaUnsafe (name : string)
| SchemaReserved (name : string)
| HostPlatform (host : string)
| HostDenied (message : string).

(** ** Hostnames *)

Definition HOSTNAME_MAX : nat := 253.

(** [_LABEL_RE.fullmatch]: one DNS label. *)
Definition label_char (c : ascii) : bool := is_lower c || is_09 c || Ascii.eqb c hyphen.

Definition label_fullmatch (l : string) : bool :=
  (1 <=? String.length l) && (String.length l <=? 63) &&
  str_forall label_char l &&
  negb (bool_decide (head (chars l) = Some hyphen)) &&
  negb (bool_decide (last (chars l) = Some hyphen)).

Definition normalize_host (value : string) : string :=
  py_rstrip_char dot (py_lower (py_strip value)).

Definition validate_hostname (value : string) : res verror string :=
  let host := py_lower (py_strip value) in
  let host := if py_endswith host "." then py_drop_last host else host in
  if String.eqb host "" then Err HostRequired else
  if HOSTNAME_MAX <? String.length host then Err HostTooLong else
  let labels := py_split dot host in
  if negb (forallb label_fullmatch labels) then Err HostInvalid else
  if py_isdigit (default "" (last labels)) then Err HostNumericTop else
  Ok host.

Definition validate_label (value : string) : res verror string :=
  let label := py_lower (py_strip value) in
  if negb (label_fullmatch label) then Err LabelInvalid else Ok label.

(** ** Reserved-host rules (models.ReservedHostRule) *)

Definition EXACT : string := "exact".
Definition SUFFIX : string := "suffix".
Definition LABEL : string := "label".

Record ReservedHostRule := mkRule {
  rule_match_type : string;
  rule_value : string;
  rule_base_domain : string;
  rule_is_active : bool;
}.

(** [ReservedHostRule.normalize]. *)
Definition rule_normalize (match_type value base_domain : string)
    : res verror (string * string) :=
  if String.eqb match_type LABEL then
    value <-? validate_label value ;;
    base_domain <-?
      (if negb (String.eqb (py_strip base_domain) "")
       then validate_hostname base_domain else Ok "") ;;
    Ok (value, base_domain)
  else if mem match_type [EXACT; SUFFIX] then
    value <-? validate_hostname value ;;
    Ok (value, "")
  else Err (UnknownMatchType match_type).

(** [ReservedHostRule.clean]. *)
Definition rule_clean (r : ReservedHostRule) : res verror ReservedHostRule :=
  vb <-? rule_normalize (rule_match_type r) (rule_value r) (rule_base_domain r) ;;
  Ok (mkRule (rule_match_type r) vb.1 vb.2 (rule_is_active r)).

(** [ReservedHostRule.matches]. *)
Definition rule_matches (r : ReservedHostRule) (host : string) : bool :=
  let host := normalize_host host in
  let val := normalize_host (rule_value r) in
  if String.eqb (rule_match_type r) EXACT then String.eqb host val
  else if String.eqb (rule_match_type r) SUFFIX then
    String.eqb host val || py_endswith host ("." +:+ val)
  else if String.eqb (rule_match_type r) LABEL then
    if negb (String.eqb (default "" (head (py_splitn 1 dot host))) val) then false
    else
      let base := normalize_host (rule_base_domain r) in
      String.eqb base "" || String.eqb host base || py_endswith host ("." +:+ base)
  else false.

(** Django [Q] objects over the [domain] column, and the rows they select. *)
Inductive Q :=
| QDomainEq (v : string)
| QDomainEndswith (v : string)
| QDomainStartswith (v : string)
| QOr (a b : Q)
| QNothing.

Fixpoint q_selects (q : Q) (domain : string) : bool :=
  match q with
  | QDomainEq v => String.eqb domain v
  | QDomainEndswith v => py_endswith domain v
  | QDomainStartswith v => py_startswith domain v
  | QOr a b => q_selects a domain || q_selects b domain
  | QNothing => false
  end.

(** [ReservedHostRule.candidate_q]. *)
Definition candidate_q (r : ReservedHostRule) : Q :=
  let val := normalize_host (rule_value r) in
  if String.eqb (rule_match_type r) EXACT then QDomainEq val
  else if String.eqb (rule_match_type r) SUFFIX then
    QOr (QDomainEq val) (QDomainEndswith ("." +:+ val))
  else if String.eqb (rule_match_type r) LABEL then
    QOr (QDomainEq val) (QDomainStartswith (val +:+ "."))
  else QNothing.

(** [ReservedHostRule.denial_message]. *)
Definition denial_message (r : ReservedHostRule) (host : string) : string :=
  if String.eqb (rule_match_type r) LABEL then
    if negb (String.eqb (rule_base_domain r) "") then
      "Subdomain " +:+ in_quotes (rule_value r) +:+ " is reserved under " +:+ rule_base_domain r +:+ "."
    else "Subdomain " +:+ in_quotes (rule_value r) +:+ " is reserved."
  else if String.eqb (rule_match_type r) SUFFIX then
    "Hosts under " +:+ in_quotes (rule_value r) +:+ " are reserved."
  else "Host " +:+ in_quotes (rule_value r) +:+ " is reserved.".

(** ** Registry reads used by the validators

    [domains] is the [Domain] table joined with its tenant: (domain, schema of
    its tenant); [rules] the [ReservedHostRule] table in its [Meta.ordering]. *)

Definition public_hosts (public : string) (domains : list (string * string)) : list string :=
  fst <$> filter (λ d, d.2 = public) domains.

Definition matching_rule (rules : list ReservedHostRule) (host : string)
    : option ReservedHostRule :=
  let host := normalize_host host in
  head (filter (λ r, rule_matches r host = true)
          (filter (λ r, rule_is_active r = true) rules)).

Definition reserved_schema_labels (rules : list ReservedHostRule) : list string :=
  (λ r, normalize_host (rule_value r)) <$>
    filter (λ r, rule_is_active r = true ∧ rule_match_type r = LABEL
                 ∧ rule_base_domain r = "") rules.

(** ** Schema names *)

Definition SCHEMA_NAME_MAX : nat := 63.

Definition schema_first (c : ascii) : bool := is_lower c || is_09 c.
Definition schema_char (c : ascii) : bool := is_lower c || is_09 c || Ascii.eqb c underscore.

(** [SCHEMA_NAME_RE.fullmatch]. *)
Definition schema_name_fullmatch (s : string) : bool :=
  negb (py_startswith s "pg_") &&
  match chars s with
  | [] => false
  | c :: cs => schema_first c && forallb schema_char cs && (length cs <=? 62)
  end.

(** [_UNSAFE_IDENT_RE.search]: some character is a control, a double or a
    single quote. *)
Definition unsafe_ident_char (c : ascii) : bool :=
  is_ctrl c || Ascii.eqb c dquote || Ascii.eqb c squote.

Definition unsafe_ident_search (s : string) : bool := existsb unsafe_ident_char (chars s).

Definition normalize_schema_name (value : string) : string :=
  py_replace hyphen underscore (py_lower (py_strip value)).

Definition validate_schema_name (value : string) : res verror string :=
  let name := normalize_schema_name value in
  if String.eqb name "" then Err SchemaRequired else
  if SCHEMA_NAME_MAX <? String.length name then Err (SchemaTooLong (String.length name)) else
  if negb (schema_name_fullmatch name) then Err (SchemaUnusable name) else
  Ok name.

Definition is_safe_schema_identifier (value : string) : bool :=
  negb (String.eqb value "") &&
  (String.length value <=? SCHEMA_NAME_MAX) &&
  negb (unsafe_ident_search value).

Definition quote_schema (name : string) : res verror string :=
  if negb (is_safe_schema_identifier name)
  then Err (SchemaUnsafe name)
  else Ok (String dquote (name +:+ String dquote "")).

Definition validate_tenant_schema_name (rules : list ReservedHostRule) (value : string)
    : res verror string :=
  let name := py_lower (py_strip value) in
  if mem name (reserved_schema_labels rules)
  then Err (SchemaReserved name)
  else Ok name.

(** ** The entry point for business-tenant domains *)

Definition validate_tenant_domain (public : string) (domains : list (string * string))
    (rules : list ReservedHostRule) (value : string) : res verror string :=
  host <-? validate_hostname value ;;
  if mem host (public_hosts public domains)
  then Err (HostPlatform host)
  else match matching_rule rules host with
       | Some rule => Err (HostDenied (denial_message rule host))
       | None => Ok host
       end.

(** ** The [tenants_domain_canonical] CHECK constraint

    [RTRIM(LOWER(TRIM(domain)), '.') = domain]: SQL's [TRIM] removes spaces
    only, where Python's [strip] removes every whitespace character.  [LOWER]
    is the column's collation; [sql_lower] stands for it. *)
Definition sql_trim (s : string) : string :=
  of_chars (rdrop_while (Ascii.eqb " "%char) (drop_while (Ascii.eqb " "%char) (chars s))).

Definition domain_check (sql_lower : string → string) (domain : string) : bool :=
  String.eqb (py_rstrip_char dot (sql_lower (sql_trim domain))) domain.

(** * Properties *)

(** ** What a valid hostname is, independently of the code *)

Record dns_label (l : string) : Prop := {
  label_nonempty : l ≠ "";
  label_short : String.length l ≤ 63;
  label_chars : Forall (λ c, label_char c = true) (chars l);
  label_no_lead : head (chars l) ≠ Some hyphen;
  label_no_trail : last (chars l) ≠ Some hyphen;
}.

(** A dot-joined, non-empty list of DNS labels, at most 253 characters, whose
    top label is not a number. *)
Definition hostname_spec (h : string) : Prop :=
  ∃ labels, labels ≠ [] ∧ h = py_join "." labels ∧ Forall dns_label labels
    ∧ String.length h ≤ HOSTNAME_MAX
    ∧ ∀ top, last labels = Some top → py_isdigit top = false.

(** The hosts [Domain] rows hold: fixed points of the canonicalizer. *)
Definition canonical (h : string) : Prop := normalize_host h = h.

Lemma label_fullmatch_spec l : label_fullmatch l = true ↔ dns_label l.
Proof.
  unfold label_fullmatch, str_forall. rewrite !andb_true_iff, !negb_true_iff,
    !Nat.leb_le, !bool_decide_eq_false, forallb_Forall. split.
  - intros ((((H1 & H2) & H3) & H4) & H5). split; auto. by destruct l; simpl in *; [lia|].
  - intros []. repeat split; auto. destruct l; simpl; [done|lia].
Qed.

Lemma label_char_plain c :
  label_char c = true → py_lower_char c = c ∧ py_space c = false ∧ c ≠ dot.
Proof. by ascii_cases c. Qed.

Lemma dns_label_no_dot l : dns_label l → no_char dot l.
Proof.
  intros Hl Hd. pose proof (label_chars _ Hl) as Hc.
  rewrite Forall_forall in Hc. by destruct (label_char_plain dot) as (_ & _ & []); [apply Hc|].
Qed.

(** *** Joined labels: split, first and last character *)

Lemma split_chars_join ls :
  ls ≠ [] → Forall (no_char dot) ls →
  split_chars dot (chars (py_join "." ls)) = (λ s, chars s) <$> ls.
Proof.
  intros Hne Hls. induction Hls as [|l ls Hl Hls IH]; [done|].
  destruct ls as [|l' ls]; [by rewrite split_chars_one|].
  change (py_join "." (l :: l' :: ls)) with (l +:+ "." +:+ py_join "." (l' :: ls)).
  rewrite chars_app. change (chars ("." +:+ py_join "." (l' :: ls)))
    with (dot :: chars (py_join "." (l' :: ls))).
  rewrite split_chars_app by done. by rewrite IH.
Qed.

Lemma split_join ls :
  ls ≠ [] → Forall (no_char dot) ls → py_split dot (py_join "." ls) = ls.
Proof.
  intros Hne Hls. unfold py_split. rewrite split_chars_join by done.
  rewrite <- list_fmap_compose. rewrite <- (list_fmap_id ls) at 2.
  apply list_fmap_ext. intros ???; simpl. apply of_chars_chars.
Qed.

Definition host_char (c : ascii) : Prop := label_char c = true ∨ c = dot.

Lemma host_char_plain c : host_char c → py_lower_char c = c ∧ py_space c = false.
Proof. intros [H| ->]; [by apply label_char_plain in H as (?&?&?)|done]. Qed.

Lemma join_host_chars ls :
  Forall dns_label ls → Forall host_char (chars (py_join "." ls)).
Proof.
  induction 1 as [|l ls Hl Hls IH]; [constructor|].
  assert (Forall host_char (chars l)) as Hl'.
  { eapply Forall_impl; [apply Hl|]. by left. }
  destruct ls as [|l' ls]; [done|].
  change (py_join "." (l :: l' :: ls)) with (l +:+ "." +:+ py_join "." (l' :: ls)).
  rewrite chars_app. apply Forall_app; split; [done|].
  constructor; [by right|done].
Qed.

Lemma dns_label_last l : dns_label l → ∃ c, last (chars l) = Some c ∧ label_char c = true.
Proof.
  intros Hl. destruct (last (chars l)) as [c|] eqn:E.
  - exists c. split; [done|]. pose proof (label_chars _ Hl) as Hc.
    rewrite Forall_forall in Hc. apply Hc. by apply last_Some_elem_of.
  - apply last_None in E. by apply chars_nil, label_nonempty in E.
Qed.

Lemma join_last ls :
  ls ≠ [] → Forall dns_label ls →
  ∃ c, last (chars (py_join "." ls)) = Some c ∧ label_char c = true.
Proof.
  intros Hne Hls. induction Hls as [|l ls Hl Hls IH]; [done|].
  destruct ls as [|l' ls]; [by apply dns_label_last|].
  destruct IH as (c & Hc & Hlc); [done|]. exists c. split; [|done].
  change (py_join "." (l :: l' :: ls)) with (l +:+ "." +:+ py_join "." (l' :: ls)).
  rewrite chars_app, last_app. by change (chars ("." +:+ ?x)) with (dot :: chars x);
    rewrite last_cons, Hc.
Qed.

(** *** Strings the normalizers leave alone *)

Lemma py_strip_id s : Forall (λ c, py_space c = false) (chars s) → py_strip s = s.
Proof.
  intros H. unfold py_strip. rewrite drop_while_none, rdrop_while_none by done.
  apply of_chars_chars.
Qed.

Lemma rev_last {A} (l : list A) :
  match rev l with [] => l = [] | x :: _ => last l = Some x end.
Proof.
  destruct l as [|y l] using rev_ind; [done|].
  by rewrite rev_unit, last_snoc.
Qed.

Lemma py_rstrip_char_id c s :
  last (chars s) ≠ Some c → py_rstrip_char c s = s.
Proof.
  intros H. unfold py_rstrip_char. rewrite rdrop_while_id; [apply of_chars_chars|].
  pose proof (rev_last (chars s)) as Hr. destruct (rev (chars s)) as [|x r]; [done|].
  destruct (Ascii.eqb_spec c x) as [->|]; [done|done].
Qed.

Lemma py_endswith_last s c :
  py_endswith s (String c "") = true ↔ last (chars s) = Some c.
Proof.
  rewrite py_endswith_spec. split.
  - intros [p ->]. rewrite chars_app. change (chars (String c "")) with [c]. apply last_snoc.
  - intros (l & Hl)%last_Some. exists (of_chars l). apply (inj String.list_ascii_of_string).
    by rewrite chars_app, chars_of_chars.
Qed.

Lemma hostname_spec_plain h :
  hostname_spec h →
  py_strip h = h ∧ py_lower h = h ∧ py_endswith h "." = false ∧ canonical h ∧ h ≠ "".
Proof.
  intros (ls & Hne & -> & Hls & _).
  pose proof (join_host_chars _ Hls) as Hc. destruct (join_last _ Hne Hls) as (c & Hlast & Hlc).
  assert (last (chars (py_join "." ls)) ≠ Some dot) as Hnd.
  { rewrite Hlast. intros [= ->]. done. }
  assert (py_strip (py_join "." ls) = py_join "." ls) as Hs.
  { apply py_strip_id. eapply Forall_impl; [apply Hc|]. intros x Hx. by apply host_char_plain. }
  assert (py_lower (py_join "." ls) = py_join "." ls) as Hl.
  { apply py_lower_id. eapply Forall_impl; [apply Hc|]. intros x Hx. by apply host_char_plain. }
  split; [done|]. split; [done|]. split; [|split].
  - apply not_true_iff_false. intros He%py_endswith_last. done.
  - unfold canonical, normalize_host. rewrite Hs, Hl. by apply py_rstrip_char_id.
  - intros Hz. by rewrite Hz in Hlast.
Qed.

Lemma hostname_checks h :
  hostname_spec h ↔
  h ≠ "" ∧ String.length h ≤ HOSTNAME_MAX ∧ forallb label_fullmatch (py_split dot h) = true
  ∧ py_isdigit (default "" (last (py_split dot h))) = false.
Proof.
  split.
  - intros Hh. pose proof Hh as (ls & Hne & -> & Hls & Hlen & Htop).
    assert (py_split dot (py_join "." ls) = ls) as Hsp.
    { apply split_join; [done|]. eapply Forall_impl; [done|]. apply dns_label_no_dot. }
    rewrite Hsp. apply hostname_spec_plain in Hh as (_ & _ & _ & _ & ?).
    repeat split; [done|done| |].
    + apply forallb_Forall. eapply Forall_impl; [apply Hls|]. intros l. by rewrite label_fullmatch_spec.
    + destruct (last ls) as [top|] eqn:E; [by apply Htop|]. by apply last_None in E.
  - intros (Hne & Hlen & Hls & Htop). exists (py_split dot h).
    split; [|split; [|split; [|split]]].
    + unfold py_split. intros Hf%fmap_nil_inv. by apply split_chars_ne in Hf.
    + symmetry. apply join_split.
    + apply forallb_Forall in Hls. eapply Forall_impl; [apply Hls|].
      intros l. by rewrite label_fullmatch_spec.
    + done.
    + intros top Ht. by rewrite Ht in Htop.
Qed.

(** What [validate_hostname] inspects: the value stripped, lower-cased and
    without one trailing dot. *)
Definition host_of (v : string) : string :=
  let s := py_lower (py_strip v) in if py_endswith s "." then py_drop_last s else s.

Lemma validate_hostname_ok v h :
  validate_hostname v = Ok h ↔ hostname_spec h ∧ h = host_of v.
Proof.
  change (validate_hostname v) with
    (if String.eqb (host_of v) "" then Err HostRequired else
     if HOSTNAME_MAX <? String.length (host_of v) then Err HostTooLong else
     if negb (forallb label_fullmatch (py_split dot (host_of v))) then Err HostInvalid else
     if py_isdigit (default "" (last (py_split dot (host_of v)))) then Err HostNumericTop else
     Ok (host_of v) : res verror string).
  rewrite hostname_checks. generalize (host_of v). intros s. split.
  - intros H. break_all; bool_props; auto 10.
  - intros [(Hne & Hlen & Hls & Htop) ->].
    apply String.eqb_neq in Hne as ->. apply Nat.ltb_ge in Hlen as ->.
    by rewrite Hls, Htop.
Qed.

Lemma host_of_spec h : hostname_spec h → host_of h = h.
Proof.
  intros (Hs & Hl & He & _)%hostname_spec_plain. unfold host_of. by rewrite Hs, Hl, He.
Qed.

(** A valid value has at most one trailing dot, so both canonicalizers agree. *)
Lemma validated_normal v h : validate_hostname v = Ok h → normalize_host v = h.
Proof.
  intros [Hh ->]%validate_hostname_ok. pose proof (hostname_spec_plain _ Hh) as (_ & _ & He & _).
  unfold normalize_host. unfold host_of in *. set (s := py_lower (py_strip v)) in *.
  destruct (py_endswith s ".") eqn:Es.
  - apply py_endswith_last, last_Some in Es as [l El]. unfold py_drop_last in *. rewrite El, removelast_last in *.
    transitivity (py_rstrip_char dot (of_chars l)).
    + unfold py_rstrip_char, rdrop_while. by rewrite El, chars_of_chars, rev_app_distr.
    + apply py_rstrip_char_id. intros Hl. apply not_true_iff_false in He. apply He. by apply py_endswith_last.
  - apply py_rstrip_char_id. intros Hl. apply not_true_iff_false in He. apply He. by apply py_endswith_last.
Qed.

Lemma validate_hostname_canonical v h : validate_hostname v = Ok h → canonical h.
Proof. intros [Hh _]%validate_hostname_ok. by apply hostname_spec_plain. Qed.

(** [validate_hostname] accepts exactly the values
    whose stripped, lower-cased form (less one trailing root dot) is a dot-joined
    list of DNS labels of at most 253 characters with a non-numeric top label; what
    it returns is that form, is canonical (the column value [Domain.save] would
    store) and is accepted again unchanged. *)
Theorem validate_hostname_correct v :
  (∀ h, validate_hostname v = Ok h →
     hostname_spec h ∧ canonical h ∧ validate_hostname h = Ok h)
  ∧ (is_ok (validate_hostname v) = true ↔ hostname_spec (host_of v)).
Proof.
  split.
  - intros h [Hh _]%validate_hostname_ok. split; [done|]. split; [by apply hostname_spec_plain|].
    apply validate_hostname_ok. split; [done|]. by rewrite host_of_spec.
  - split.
    + destruct (validate_hostname v) as [h|] eqn:E; [|done]. intros _.
      by apply validate_hostname_ok in E as [? ->].
    + intros Hh. assert (validate_hostname v = Ok (host_of v)) as ->; [|done].
      by apply validate_hostname_ok.
Qed.

(** A malformed value is refused wherever the malformation stands: a doubled
    dot at the end is not repaired. *)
Example validate_hostname_samples :
  validate_hostname " Acme.Example.COM. " = Ok "acme.example.com"
  ∧ validate_hostname "a.b.." = Err HostInvalid
  ∧ validate_hostname "a..b" = Err HostInvalid
  ∧ validate_hostname "1.2.3.4" = Err HostNumericTop
  ∧ validate_hostname "-a.b" = Err HostInvalid
  ∧ validate_hostname " . " = Err HostRequired.
Proof. by vm_compute. Qed.

(** ** Schema names *)

Record schema_ident (n : string) : Prop := {
  ident_nonempty : n ≠ "";
  ident_short : String.length n ≤ SCHEMA_NAME_MAX;
  ident_chars : Forall (λ c, schema_char c = true) (chars n);
  ident_first : ∀ c, head (chars n) = Some c → schema_first c = true;
  ident_no_pg : py_startswith n "pg_" = false;
}.

Lemma schema_first_char c : schema_first c = true → schema_char c = true.
Proof. unfold schema_char, schema_first. by intros ->. Qed.

Lemma schema_name_fullmatch_spec n : schema_name_fullmatch n = true ↔ schema_ident n.
Proof.
  unfold schema_name_fullmatch. rewrite andb_true_iff, negb_true_iff. split.
  - intros [Hpg H]. destruct (chars n) as [|c cs] eqn:E; [done|]. bool_props.
    split; rewrite ?E; auto.
    + intros ->. done.
    + rewrite <- length_chars, E. unfold SCHEMA_NAME_MAX. simpl. lia.
    + constructor; [by apply schema_first_char|by apply forallb_Forall].
    + intros c' [= <-]. done.
  - intros [Hne Hlen Hcs Hf Hpg]. split; [done|].
    destruct (chars n) as [|c cs] eqn:E; [by apply chars_nil in E|].
    apply Forall_cons in Hcs as [_ Hcs]. rewrite <- length_chars, E in Hlen.
    unfold SCHEMA_NAME_MAX in Hlen. simpl in Hlen. rewrite !andb_true_iff. split; [split|].
    + by apply Hf.
    + by apply forallb_Forall.
    + apply Nat.leb_le. lia.
Qed.

Lemma schema_char_safe c :
  schema_char c = true →
  py_lower_char c = c ∧ py_space c = false ∧ unsafe_ident_char c = false
  ∧ c ≠ hyphen ∧ c ≠ ":"%char ∧ c ≠ dot ∧ c ≠ "/"%char.
Proof. by ascii_cases c. Qed.

Lemma py_replace_id a b s : no_char a s → py_replace a b s = s.
Proof.
  intros H. unfold py_replace. rewrite <- (of_chars_chars s) at 2. f_equal.
  unfold no_char in H. induction (chars s) as [|c l IH]; [done|]. rewrite fmap_cons.
  apply not_elem_of_cons in H as [Hc Hl]. destruct (Ascii.eqb_spec c a) as [->|_]; [done|].
  f_equal. by apply IH.
Qed.

Lemma schema_ident_normal n : schema_ident n → normalize_schema_name n = n.
Proof.
  intros Hn. pose proof (ident_chars _ Hn) as Hc. unfold normalize_schema_name.
  rewrite py_strip_id by (eapply Forall_impl; [apply Hc|]; intros c ?; by apply schema_char_safe).
  rewrite py_lower_id by (eapply Forall_impl; [apply Hc|]; intros c ?; by apply schema_char_safe).
  apply py_replace_id. intros Hin. rewrite Forall_forall in Hc. by apply Hc in Hin.
Qed.

Lemma schema_ident_safe n : schema_ident n → is_safe_schema_identifier n = true.
Proof.
  intros Hn. unfold is_safe_schema_identifier, unsafe_ident_search.
  rewrite !andb_true_iff, !negb_true_iff. split; [split|].
  - by apply String.eqb_neq, Hn.
  - by apply Nat.leb_le, Hn.
  - apply existsb_false. intros c Hc. pose proof (ident_chars _ Hn) as H.
    rewrite Forall_forall in H. by apply schema_char_safe, H.
Qed.

Lemma validate_schema_name_ok v n :
  validate_schema_name v = Ok n ↔ schema_ident n ∧ n = normalize_schema_name v.
Proof.
  unfold validate_schema_name. rewrite <- schema_name_fullmatch_spec.
  generalize (normalize_schema_name v). intros s. split.
  - intros H. break_all; bool_props; auto.
  - intros [Hs ->]. pose proof Hs as [Hne Hlen _ _ _]%schema_name_fullmatch_spec.
    apply String.eqb_neq in Hne as ->. apply Nat.ltb_ge in Hlen as ->. by rewrite Hs.
Qed.

(** A name [validate_schema_name] returns is the
    folded form of its input, is a fixed point of the validation, and is safe:
    it carries no quote, control character, hyphen, dot, slash or colon, so
    [quote_schema] quotes it verbatim. *)
Theorem validate_schema_name_correct v n :
  validate_schema_name v = Ok n →
  n = normalize_schema_name v ∧ schema_ident n ∧ validate_schema_name n = Ok n
  ∧ no_char ":"%char n ∧ no_char dot n ∧ no_char "/"%char n
  ∧ quote_schema n = Ok (String dquote (n +:+ String dquote "")).
Proof.
  intros [Hn Heq]%validate_schema_name_ok. pose proof (ident_chars _ Hn) as Hc.
  rewrite Forall_forall in Hc.
  assert (∀ c, c ∈ chars n → c ≠ ":"%char ∧ c ≠ dot ∧ c ≠ "/"%char) as Hno.
  { intros c Hin. by apply Hc, schema_char_safe in Hin as (_&_&_&_&?&?&?). }
  split; [done|]. split; [done|]. split.
  { apply validate_schema_name_ok. by rewrite schema_ident_normal. }
  unfold no_char, quote_schema. rewrite schema_ident_safe by done.
  repeat split; try (intros Hin; by apply Hno in Hin as (?&?&?)).
Qed.

Lemma validate_schema_name_correct_witness :
  validate_schema_name " Freedom-First " = Ok "freedom_first"
  ∧ quote_schema "freedom_first"
    = Ok (String dquote ("freedom_first" +:+ String dquote "")).
Proof.
  split; [reflexivity|].
  apply (validate_schema_name_correct " Freedom-First " "freedom_first"). reflexivity.
Defined.

(** C31: [quote_schema] either refuses or returns one
    quoted identifier: a double quote, a body of 1 to 63 characters with no
    quote and no control character, and the closing double quote; it refuses
    exactly the names below the safety floor. *)
Theorem quote_schema_no_breakout n :
  match quote_schema n with
  | Ok q => q = String dquote (n +:+ String dquote "") ∧ n ≠ ""
            ∧ String.length n ≤ SCHEMA_NAME_MAX ∧ no_char dquote n ∧ no_char squote n
            ∧ ∀ c, c ∈ chars n → is_ctrl c = false
  | Err e => e = SchemaUnsafe n ∧
             (n = "" ∨ SCHEMA_NAME_MAX < String.length n
              ∨ ∃ c, c ∈ chars n ∧ (is_ctrl c = true ∨ c = dquote ∨ c = squote))
  end.
Proof.
  unfold quote_schema, is_safe_schema_identifier, unsafe_ident_search.
  destruct (String.eqb n "") eqn:E1; simpl; [bool_props; auto|].
  destruct (String.length n <=? SCHEMA_NAME_MAX) eqn:E2; simpl; [|bool_props; auto].
  destruct (existsb unsafe_ident_char (chars n)) eqn:E3; simpl; bool_props.
  - split; [done|]. right; right. apply existsb_Exists in E3 as (c & Hc & Hu).
    exists c. split; [done|]. unfold unsafe_ident_char in Hu. bool_props.
    destruct Hu as [Hu| ->%Ascii.eqb_eq]; [|by auto]. bool_props.
    destruct Hu as [?| ->%Ascii.eqb_eq]; auto.
  - split; [done|]. split; [done|]. split; [done|]. rewrite existsb_false in E3.
    repeat split.
    + intros Hin. by apply E3 in Hin.
    + intros Hin. by apply E3 in Hin.
    + intros c Hin. apply E3 in Hin. unfold unsafe_ident_char in Hin. by bool_props.
Qed.

(** ** Reserved hosts *)

Lemma head_filter_Some {A} (P : A → Prop) `{∀ x, Decision (P x)} l x :
  head (filter P l) = Some x → x ∈ l ∧ P x.
Proof.
  intros Hh. assert (x ∈ filter P l) as Hx.
  { destruct (filter P l); simplify_eq/=. left. }
  by apply list_elem_of_filter in Hx as [? ?].
Qed.

Lemma head_filter_None {A} (P : A → Prop) `{∀ x, Decision (P x)} l :
  head (filter P l) = None ↔ ∀ x, x ∈ l → ¬ P x.
Proof.
  split.
  - intros Hh x Hx Hp. assert (x ∈ filter P l) as Hin by (by apply list_elem_of_filter).
    destruct (filter P l); [by apply not_elem_of_nil in Hin|done].
  - intros Hn. destruct (filter P l) as [|x k] eqn:E; [done|]. exfalso.
    assert (x ∈ filter P l) as [? ?]%list_elem_of_filter by (rewrite E; left). by eapply Hn.
Qed.

Lemma matching_rule_None rules host :
  matching_rule rules host = None ↔
  ∀ r, r ∈ rules → rule_is_active r = true → rule_matches r (normalize_host host) = false.
Proof.
  unfold matching_rule. rewrite head_filter_None. split.
  - intros H r Hr Ha. apply not_true_iff_false. apply H. by apply list_elem_of_filter.
  - intros H r [Ha Hr]%list_elem_of_filter. by rewrite H.
Qed.

(** A business tenant may claim exactly the
    valid hostnames that are not a host of the public tenant and that no active
    reserved-host rule matches. *)
Theorem validate_tenant_domain_correct public domains rules v h :
  validate_tenant_domain public domains rules v = Ok h ↔
  validate_hostname v = Ok h
  ∧ (h ∉ public_hosts public domains)
  ∧ ∀ r, r ∈ rules → rule_is_active r = true → rule_matches r h = false.
Proof.
  unfold validate_tenant_domain. rewrite res_bind_ok. split.
  - intros (h' & Hv & H). destruct (mem h' (public_hosts public domains)) eqn:Hp; [done|].
    destruct (matching_rule rules h') eqn:Hm; simplify_eq. apply mem_false in Hp.
    split; [done|]. split; [done|].
    apply validate_hostname_canonical in Hv as Hc. rewrite matching_rule_None in Hm.
    unfold canonical in Hc. by rewrite Hc in Hm.
  - intros (Hv & Hp & Hm). exists h. split; [done|]. apply mem_false in Hp as ->.
    apply validate_hostname_canonical in Hv as Hc. unfold canonical in Hc.
    assert (matching_rule rules h = None) as ->; [|done].
    apply matching_rule_None. by rewrite Hc.
Qed.

Lemma eqb_true_eq s t : String.eqb s t = true → s = t.
Proof. apply String.eqb_eq. Qed.

(** The leading label of a host. *)

Lemma splitn1_chars c l :
  c ∉ l → splitn_chars 1 c l = [l].
Proof.
  simpl. induction l as [|x l IH]; intros Hc; [done|].
  apply not_elem_of_cons in Hc as [Hx Hl]. destruct (Ascii.eqb_spec x c) as [->|_]; [done|].
  by rewrite (IH Hl).
Qed.

(** The leading label of a host is its whole text or a prefix up to a dot. *)
Lemma splitn1_head host v :
  default "" (head (py_splitn 1 dot host)) = v → host = v ∨ py_startswith host (v +:+ ".") = true.
Proof.
  intros <-. unfold py_splitn.
  destruct (split_chars_cons dot (chars host)) as (p & [(_ & Hh & Hp)|(k & Hh & _ & Hp)]).
  - left. rewrite splitn1_chars by (by rewrite Hh). simpl. by rewrite of_chars_chars.
  - right. rewrite Hh, splitn_chars_app by done. apply py_startswith_spec.
    exists (of_chars k). apply (inj String.list_ascii_of_string). rewrite Hh.
    cbn [fmap list_fmap head default]. rewrite !chars_app, chars_of_chars.
    unfold default, from_option. simpl. rewrite !chars_of_chars. by rewrite <- app_assoc.
Qed.

Lemma candidate_q_superset r d :
  canonical d → rule_matches r d = true → q_selects (candidate_q r) d = true.
Proof.
  unfold canonical, rule_matches, candidate_q. intros ->.
  destruct (String.eqb (rule_match_type r) EXACT); [done|].
  destruct (String.eqb (rule_match_type r) SUFFIX); [done|].
  destruct (String.eqb (rule_match_type r) LABEL); [|done]. simpl.
  destruct (String.eqb (default "" (head (py_splitn 1 dot d))) (normalize_host (rule_value r)))
    eqn:E; [|done].
  intros _. apply orb_true_iff. apply String.eqb_eq, splitn1_head in E as [->|E]; [left|by right].
  apply String.eqb_refl.
Qed.

(** ** The [conflicts] action (console/views.py)

    [rows] is the [Domain] table with its tenants' schemas, ordered by domain:
    the SQL filter [candidate_q] narrows, [matches] confirms, and at most
    [CONFLICTS_SAMPLE] examples are returned with the exact count. *)
Definition CONFLICTS_SAMPLE : nat := 200.

(** The loop body over (count, sample). *)
Definition confirm_step (rule : ReservedHostRule) (acc : nat * list (string * string))
    (d : string * string) : nat * list (string * string) :=
  if rule_matches rule d.1 then
    (S acc.1, if length acc.2 <? CONFLICTS_SAMPLE then acc.2 ++ [d] else acc.2)
  else acc.

Definition conflicts (public : string) (rule : ReservedHostRule)
    (rows : list (string * string)) : nat * list (string * string) * bool :=
  let qs := filter (λ d, d.2 ≠ public ∧ q_selects (candidate_q rule) d.1 = true) rows in
  let acc := foldl (confirm_step rule) (0, []) qs in
  (acc.1, acc.2, length acc.2 <? acc.1).

Lemma confirm_fold rule qs ms :
  foldl (confirm_step rule) (length ms, take CONFLICTS_SAMPLE ms) qs =
  let all := ms ++ filter (λ d, rule_matches rule d.1 = true) qs in
  (length all, take CONFLICTS_SAMPLE all).
Proof.
  revert ms. induction qs as [|d qs IH]; intros ms; [by rewrite app_nil_r|].
  cbn [foldl]. rewrite filter_cons. unfold confirm_step at 2. cbn [fst snd].
  destruct (rule_matches rule d.1) eqn:E.
  - rewrite decide_True by done. replace (ms ++ d :: filter _ qs) with ((ms ++ [d]) ++ filter (λ d, rule_matches rule d.1 = true) qs)
      by (by rewrite <- app_assoc).
    rewrite <- IH. f_equal. apply pair_equal_spec. split; [by rewrite length_app, Nat.add_comm|].
    rewrite length_take. destruct (Nat.ltb_spec (CONFLICTS_SAMPLE `min` length ms) CONFLICTS_SAMPLE).
    + rewrite (take_ge ms) by lia. rewrite take_ge; [done|]. rewrite length_app; simpl; lia.
    + rewrite take_app_le by lia. done.
  - rewrite decide_False by congruence. apply IH.
Qed.

(** Over canonical rows, narrowing with [candidate_q] in SQL
    loses no match: [conflicts] reports the exact number of non-public domains
    the rule reserves, the first 200 of them, and whether the list is partial. *)
Theorem conflicts_exact public rule rows :
  Forall (λ d, canonical d.1) rows →
  let ms := filter (λ d, d.2 ≠ public ∧ rule_matches rule d.1 = true) rows in
  conflicts public rule rows = (length ms, take 200 ms, 200 <? length ms).
Proof.
  intros Hc ms. unfold conflicts.
  change (0, []) with (length (@nil (string * string)), take CONFLICTS_SAMPLE (@nil (string * string))).
  rewrite confirm_fold. cbn [app]. rewrite list_filter_filter.
  assert (filter (λ d, rule_matches rule d.1 = true ∧ d.2 ≠ public ∧
    q_selects (candidate_q rule) d.1 = true) rows = ms) as ->.
  { subst ms. induction Hc as [|d rows Hd Hc IH]; [done|].
    rewrite !filter_cons, IH. destruct (decide (d.2 ≠ public ∧ rule_matches rule d.1 = true)) as [[Hp Hm]|Hn].
    - rewrite decide_True; [done|]. auto using candidate_q_superset.
    - rewrite decide_False; [done|]. tauto. }
  cbv zeta. cbn [fst snd]. rewrite length_take. unfold CONFLICTS_SAMPLE. f_equal.
  destruct (Nat.ltb_spec 200 (length ms)), (Nat.ltb_spec (200 `min` length ms) (length ms)); lia.
Qed.

Definition sample_rule : ReservedHostRule := mkRule LABEL "www" "" true.
Definition sample_rows : list (string * string) :=
  [("acme.example.com", "acme"); ("www.acme.com", "acme"); ("www.example.com", "public")].

Lemma conflicts_exact_witness :
  conflicts "public" sample_rule sample_rows = (1, [("www.acme.com", "acme")], false).
Proof.
  rewrite (conflicts_exact "public" sample_rule sample_rows); [reflexivity|].
  repeat constructor.
Defined.

(** The comment on the CHECK constraint takes its rows to be exactly the fixed
    points of [normalize_host]; SQL's [TRIM] removes spaces only, so a row with
    a leading tab passes the constraint, [matches] reserves it, and
    [candidate_q] does not select it. *)
Definition tab_www : string := String (ascii_of_nat 9) "www.acme.com".

(** For every collation that leaves the
    tab-prefixed lower-case name alone, the CHECK constraint admits a row that is
    not canonical and on which [candidate_q] misses a true match. *)
Theorem domain_check_admits_noncanonical sql_lower :
  sql_lower tab_www = tab_www →
  domain_check sql_lower tab_www = true
  ∧ ¬ canonical tab_www
  ∧ rule_matches sample_rule tab_www = true
  ∧ q_selects (candidate_q sample_rule) tab_www = false.
Proof.
  intros Hl. unfold domain_check. change (sql_trim tab_www) with tab_www. rewrite Hl.
  repeat split; vm_compute; done.
Qed.

Lemma domain_check_admits_noncanonical_witness :
  domain_check py_lower tab_www = true.
Proof. apply (domain_check_admits_noncanonical py_lower). reflexivity. Defined.

(** ** Rule normalization *)

Lemma validate_label_ok v l : validate_label v = Ok l ↔ dns_label l ∧ l = py_lower (py_strip v).
Proof.
  unfold validate_label. rewrite <- label_fullmatch_spec.
  destruct (label_fullmatch (py_lower (py_strip v))) eqn:E; simpl; split.
  - by intros [= <-].
  - by intros [_ ->].
  - done.
  - intros [Hl ->]. by rewrite E in Hl.
Qed.

Lemma dns_label_plain l : dns_label l → py_lower (py_strip l) = l.
Proof.
  intros Hl. pose proof (label_chars _ Hl) as Hc.
  rewrite py_strip_id by (eapply Forall_impl; [apply Hc|]; intros c ?; by apply label_char_plain).
  apply py_lower_id. eapply Forall_impl; [apply Hc|]. intros c ?; by apply label_char_plain.
Qed.

Lemma validate_label_idem v l : validate_label v = Ok l → validate_label l = Ok l.
Proof. rewrite !validate_label_ok. intros [Hl _]. by rewrite dns_label_plain. Qed.

Lemma validate_hostname_idem v h : validate_hostname v = Ok h → validate_hostname h = Ok h.
Proof.
  rewrite !validate_hostname_ok. intros [Hh _]. by rewrite host_of_spec.
Qed.

Lemma hostname_strip h : hostname_spec h → String.eqb (py_strip h) "" = false.
Proof. intros (-> & _ & _ & _ & ?)%hostname_spec_plain. by apply String.eqb_neq. Qed.

(** Normalizing a rule twice, as the API serializer
    does on a PATCH that repeats the stored values and the admin on every save,
    changes nothing: the normalized pair is a fixed point, its value is a
    canonical host (or one label), and only LABEL rules keep a base domain. *)
Theorem rule_normalize_idempotent match_type value base v b :
  rule_normalize match_type value base = Ok (v, b) →
  rule_normalize match_type v b = Ok (v, b)
  ∧ normalize_host v = v ∧ normalize_host b = b
  ∧ (match_type ≠ LABEL → b = "").
Proof.
  unfold rule_normalize. destruct (String.eqb_spec match_type LABEL) as [->|Hne].
  - rewrite res_bind_ok. intros (v' & Hv & H). rewrite res_bind_ok in H.
    destruct H as (b' & Hb & [= -> ->]). rewrite (validate_label_idem _ _ Hv). simpl.
    assert (dns_label v) as Hd by (by apply validate_label_ok in Hv as [? _]).
    assert (normalize_host v = v) as Hn.
    { unfold normalize_host. rewrite dns_label_plain by done. apply py_rstrip_char_id.
      destruct (dns_label_last _ Hd) as (c & -> & Hc). intros [= ->]. done. }
    destruct (String.eqb (py_strip base) ""); simplify_eq/=; [done|].
    pose proof (validate_hostname_idem _ _ Hb) as Hb'.
    pose proof Hb' as [Hs _]%validate_hostname_ok. rewrite hostname_strip, Hb' by done. simpl.
    apply hostname_spec_plain in Hs as (_ & _ & _ & Hcan & _).
    split; [done|]. split; [done|]. by split.
  - destruct (mem match_type [EXACT; SUFFIX]); [|done]. rewrite res_bind_ok.
    intros (v' & Hv & [= -> <-]). pose proof (validate_hostname_idem _ _ Hv) as Hv'. rewrite Hv'.
    apply validate_hostname_ok in Hv' as [Hs _].
    apply hostname_spec_plain in Hs as (_ & _ & _ & Hcan & _).
    split; [done|]. split; [done|]. by split.
Qed.

Lemma rule_normalize_idempotent_witness :
  rule_normalize LABEL " WWW " "Example.com." = Ok ("www", "example.com")
  ∧ rule_normalize LABEL "www" "example.com" = Ok ("www", "example.com").
Proof.
  split; [reflexivity|].
  apply (rule_normalize_idempotent LABEL " WWW " "Example.com." "www" "example.com"). reflexivity.
Defined.

(** ** The seeded rules

    tenants/migrations/0002_seed_reserved_hosts.py, on the rows of the rule table. *)

Definition GLOBAL_LABELS : list string :=
  ["www"; "api"; "admin"; "mail"; "staging"; "dev"; "test"; "status"; "docs"; "support"].
Definition APEX_DOMAINS : list string := ["routegenie.com"; "isi-technology.com"].

(** The unique key of a rule. *)
Definition rule_key (r : ReservedHostRule) : string * string * string := (rule_match_type r, rule_value r, rule_base_domain r).
Definition get_or_create_rule (rules : list ReservedHostRule) (r : ReservedHostRule) : list ReservedHostRule :=
  if mem (rule_key r) (rule_key <$> rules) then rules else rules ++ [r].

Definition seed_rules : list ReservedHostRule :=
  ((λ label, mkRule LABEL label "" true) <$> GLOBAL_LABELS) ++ ((λ apex, mkRule EXACT apex "" true) <$> APEX_DOMAINS).
Definition seed (rules : list ReservedHostRule) : list ReservedHostRule := foldl get_or_create_rule rules seed_rules.
Definition unseed (rules : list ReservedHostRule) : list ReservedHostRule :=
  filter (λ r, ¬ (rule_match_type r = EXACT ∧ rule_value r ∈ APEX_DOMAINS ∧ rule_base_domain r = ""))
    (filter (λ r, ¬ (rule_match_type r = LABEL ∧ rule_value r ∈ GLOBAL_LABELS ∧ rule_base_domain r = "")) rules).

Lemma seed_elem rules rs r :
  r ∈ foldl get_or_create_rule rules rs → r ∈ rules ∨ r ∈ rs.
Proof.
  revert rules. induction rs as [|x rs IH]; intros rules; simpl; [by left|]. intros [Hr|Hr]%IH; [|by right; right].
  unfold get_or_create_rule in Hr. destruct (mem _ _); [by left|]. set_solver.
Qed.

Lemma seed_keeps rules rs r : r ∈ rules → r ∈ foldl get_or_create_rule rules rs.
Proof.
  revert rules. induction rs as [|x rs IH]; intros rules Hr; simpl; [done|]. apply IH.
  unfold get_or_create_rule. destruct (mem _ _); set_solver.
Qed.

Lemma seed_keys rules rs r : r ∈ rs → rule_key r ∈ rule_key <$> foldl get_or_create_rule rules rs.
Proof.
  revert rules. induction rs as [|x rs IH]; intros rules Hr; [by apply not_elem_of_nil in Hr|]. simpl.
  apply elem_of_cons in Hr as [->|Hr]; [|by apply IH].
  assert (rule_key x ∈ rule_key <$> get_or_create_rule rules x) as Hx.
  { unfold get_or_create_rule. destruct (mem _ _) eqn:E; [by apply mem_spec in E|]. rewrite fmap_app. set_solver. }
  apply list_elem_of_fmap in Hx as (y & -> & Hy). apply list_elem_of_fmap. exists y. split; [done|]. by apply seed_keeps.
Qed.

Lemma seed_present rules rs : (∀ r, r ∈ rs → rule_key r ∈ rule_key <$> rules) → foldl get_or_create_rule rules rs = rules.
Proof.
  induction rs as [|x rs IH]; intros Hk; [done|]. simpl. unfold get_or_create_rule at 2.
  rewrite (proj2 (mem_spec _ _)) by (apply Hk; left). apply IH. intros r Hr. apply Hk. by right.
Qed.

(** Applying the seed again changes nothing. *)
Theorem seed_idempotent rules : seed (seed rules) = seed rules.
Proof. apply seed_present. intros r Hr. by apply seed_keys. Qed.

Lemma seed_rule_matches h r : canonical h → r ∈ seed_rules →
  rule_matches r h = if String.eqb (rule_match_type r) LABEL then String.eqb (default "" (head (py_splitn 1 dot h))) (rule_value r)
                     else String.eqb h (rule_value r).
Proof.
  unfold canonical, rule_matches. intros -> Hr.
  assert (normalize_host (rule_value r) = rule_value r ∧ normalize_host (rule_base_domain r) = ""
          ∧ (rule_match_type r = LABEL ∨ rule_match_type r = EXACT)) as (-> & -> & Ht).
  { unfold seed_rules, GLOBAL_LABELS, APEX_DOMAINS in Hr. simpl in Hr. set_unfold. naive_solver. }
  destruct Ht as [-> | ->]; [|done]. change (String.eqb LABEL EXACT) with false. change (String.eqb LABEL SUFFIX) with false.
  change (String.eqb LABEL LABEL) with true. change (String.eqb "" "") with true. cbn [orb].
  by destruct (String.eqb _ (rule_value r)).
Qed.

Lemma seed_rules_elem r : r ∈ seed_rules ↔
  (∃ l, l ∈ GLOBAL_LABELS ∧ r = mkRule LABEL l "" true) ∨ (∃ a, a ∈ APEX_DOMAINS ∧ r = mkRule EXACT a "" true).
Proof. unfold seed_rules. rewrite elem_of_app, !list_elem_of_fmap. naive_solver. Qed.

(** On a fresh registry a business tenant may claim exactly the valid hosts whose
    leading label is none of the ten, on whatever domain, and that are not an apex
    of the platform; names under an apex stay free. *)
Theorem seed_reserves_exactly public domains v h :
  validate_tenant_domain public domains (seed []) v = Ok h ↔
  validate_hostname v = Ok h ∧ (h ∉ public_hosts public domains)
  ∧ (default "" (head (py_splitn 1 dot h)) ∉ GLOBAL_LABELS) ∧ (h ∉ APEX_DOMAINS).
Proof.
  rewrite validate_tenant_domain_correct. change (seed []) with seed_rules.
  split; intros (Hv & Hp & Hm); (split; [done|]); (split; [done|]); pose proof (validate_hostname_canonical _ _ Hv) as Hc.
  - split; intros Hin.
    + specialize (Hm (mkRule LABEL (default "" (head (py_splitn 1 dot h))) "" true) ltac:(apply seed_rules_elem; left; eauto) eq_refl).
      rewrite seed_rule_matches in Hm by (done || (apply seed_rules_elem; left; eauto)). simpl in Hm. by rewrite String.eqb_refl in Hm.
    + specialize (Hm (mkRule EXACT h "" true) ltac:(apply seed_rules_elem; right; eauto) eq_refl).
      rewrite seed_rule_matches in Hm by (done || (apply seed_rules_elem; right; eauto)). simpl in Hm. by rewrite String.eqb_refl in Hm.
  - destruct Hm as [Hl Ha]. intros r Hr _. rewrite seed_rule_matches by done.
    apply seed_rules_elem in Hr as [(l & Hin & ->)|(a & Hin & ->)]; simpl; apply String.eqb_neq; congruence.
Qed.

(** On rules that already exist: what an operator switched off stays off, everything
    else of the seed becomes active. *)
Theorem seed_respects_operators rules r :
  r ∈ seed rules ↔ r ∈ rules ∨ (r ∈ seed_rules ∧ rule_key r ∉ rule_key <$> rules).
Proof.
  assert (NoDup (rule_key <$> seed_rules)) as Hnd by (apply (bool_decide_unpack _); by vm_compute).
  unfold seed. revert rules. induction seed_rules as [|x rs IH]; intros rules; simpl; [set_solver|].
  inversion Hnd as [|? ? Hx Hnd']; subst. rewrite (IH Hnd'). unfold get_or_create_rule.
  destruct (mem (rule_key x) (rule_key <$> rules)) eqn:E; [apply mem_spec in E|apply mem_false in E].
  - split; [set_solver|]. rewrite elem_of_cons. intros [?|[[->|?] ?]]; [by left|done|by right].
  - rewrite !fmap_app, elem_of_cons. csimpl. split.
    + intros [[?|[->|[]%not_elem_of_nil]%elem_of_cons]%elem_of_app|[? Hk]]; [by left|right; by split; [left|]|right].
      split; [by right|]. intros Hin. apply Hk, elem_of_app. by left.
    + intros [?|[[->|Hr] ?]]; [left; apply elem_of_app; by left|left; apply elem_of_app; right; left|]. right. split; [done|]. intros [?|Hk]%elem_of_app; [done|].
      apply elem_of_cons in Hk as [Hk|[]%not_elem_of_nil]. apply Hx. rewrite <- Hk. by apply list_elem_of_fmap_2.
Qed.

Lemma unseed_elem rules r : r ∈ unseed rules ↔ r ∈ rules ∧ rule_key r ∉ rule_key <$> seed_rules.
Proof.
  unfold unseed. rewrite !list_elem_of_filter.
  assert (rule_key r ∈ rule_key <$> seed_rules ↔
    (rule_match_type r = EXACT ∧ rule_value r ∈ APEX_DOMAINS ∧ rule_base_domain r = "")
    ∨ (rule_match_type r = LABEL ∧ rule_value r ∈ GLOBAL_LABELS ∧ rule_base_domain r = "")) as ->; [|tauto].
  rewrite list_elem_of_fmap. split.
  - intros (y & Hk & Hy). apply seed_rules_elem in Hy as [(l & Hin & ->)|(a & Hin & ->)]; injection Hk as -> -> ->; auto.
  - intros [(H1 & H2 & H3)|(H1 & H2 & H3)].
    + exists (mkRule EXACT (rule_value r) "" true). split; [unfold rule_key; by rewrite H1, H3|]. apply seed_rules_elem. right. eauto.
    + exists (mkRule LABEL (rule_value r) "" true). split; [unfold rule_key; by rewrite H1, H3|]. apply seed_rules_elem. left. eauto.
Qed.

(** Reversing the migration restores a table that had none of its keys. *)
Theorem unseed_restores rules r :
  (∀ r, r ∈ rules → rule_key r ∉ rule_key <$> seed_rules) → r ∈ unseed (seed rules) ↔ r ∈ rules.
Proof.
  intros Hno. rewrite unseed_elem, seed_respects_operators. split; [|naive_solver].
  intros [[?|[Hr _]] Hk]; [done|]. exfalso. by apply Hk, list_elem_of_fmap_2.
Qed.

(** A rule an operator had made and switched off before the migration ran: the seed
    leaves it as it is, and the reverse migration deletes it. *)
Theorem unseed_takes_operator_rule :
  let mine := mkRule LABEL "docs" "" false in
  mine ∈ seed [mine] ∧ mine ∉ unseed (seed [mine]).
Proof.
  split; [apply seed_respects_operators; left; left|]. rewrite unseed_elem. intros [_ Hk]. apply Hk.
  apply (list_elem_of_fmap_2 rule_key seed_rules (mkRule LABEL "docs" "" true)), seed_rules_elem. left. exists "docs". split; [|done].
  apply (bool_decide_unpack _). by vm_compute.
Qed.
