(* ===== verification/Models.v ===== *)
(** * The registry: rows of the public schema

    Data of src/tenants/models.py ([Shard], [Tenant], [Domain], [MigrationLease]
    on [default]) and the pure methods of these models.  Timestamps are [Z]
    (microseconds of the database clock). *)
From S2P Require Import Prelude PyStr Validators.

(** ** Data *)

Inductive Status := NEW | PENDING | ACTIVE | DEACTIVATED | FAILED | MAINTENANCE.

#[global] Instance Status_eq_dec : EqDecision Status.
Proof. solve_decision. Defined.

Definition status_value (s : Status) : string :=
  match s with
  | NEW => "new" | PENDING => "pending" | ACTIVE => "active"
  | DEACTIVATED => "deactivated" | FAILED => "failed" | MAINTENANCE => "maintenance"
  end.

Definition all_statuses : list Status := [NEW; PENDING; ACTIVE; DEACTIVATED; FAILED; MAINTENANCE].

Record Shard := mkShard {
  sh_alias : string;
  sh_name : string;
  sh_is_default : bool;
  sh_is_active : bool;
}.

Record Tenant := mkTenant {
  t_schema_name : string;
  t_company_name : string;
  t_description : string;
  t_shard_id : Z;
  t_status : Status;
  t_previous_status : Status;
  t_status_changed_at : Z;
  t_last_error : string;
  t_timezone : option string;
}.

Record Domain := mkDomain {
  d_id : Z;
  d_tenant_id : Z;
  d_is_primary : bool;
}.

Record MigrationLease := mkLease {
  ls_owner : option string;
  ls_since : option Z;
  ls_until : option Z;
}.

#[global] Instance Shard_eq_dec : EqDecision Shard.
Proof. solve_decision. Defined.
#[global] Instance Tenant_eq_dec : EqDecision Tenant.
Proof. solve_decision. Defined.
#[global] Instance Domain_eq_dec : EqDecision Domain.
Proof. solve_decision. Defined.
#[global] Instance MigrationLease_eq_dec : EqDecision MigrationLease.
Proof. solve_decision. Defined.

(** [default.public]: the tables keyed by primary key ([Domain] by its unique
    hostname), [public.django_migrations] with the time each was applied, and
    the server clock. *)
Record Registry := mkRegistry {
  g_shards : gmap Z Shard;
  g_tenants : gmap Z Tenant;
  g_domains : gmap string Domain;
  g_leases : gmap Z MigrationLease;
  g_applied : list ((string * string) * Z);
  g_now : Z;
}.

Definition set_tenants (f : gmap Z Tenant → gmap Z Tenant) (g : Registry) : Registry :=
  mkRegistry (g_shards g) (f (g_tenants g)) (g_domains g) (g_leases g) (g_applied g) (g_now g).
Definition set_shards (f : gmap Z Shard → gmap Z Shard) (g : Registry) : Registry :=
  mkRegistry (f (g_shards g)) (g_tenants g) (g_domains g) (g_leases g) (g_applied g) (g_now g).
Definition set_domains (f : gmap string Domain → gmap string Domain) (g : Registry) : Registry :=
  mkRegistry (g_shards g) (g_tenants g) (f (g_domains g)) (g_leases g) (g_applied g) (g_now g).
Definition set_leases (f : gmap Z MigrationLease → gmap Z MigrationLease) (g : Registry) : Registry :=
  mkRegistry (g_shards g) (g_tenants g) (g_domains g) (f (g_leases g)) (g_applied g) (g_now g).

(** The fields a status writer sets with [QuerySet.update()]. *)
Definition with_status (new prev : Status) (now : Z) (err : option string) (t : Tenant) : Tenant :=
  mkTenant (t_schema_name t) (t_company_name t) (t_description t) (t_shard_id t) new prev now
    (default (t_last_error t) err) (t_timezone t).

(** A tenant joined with its shard ([select_related("shard")]). *)
Record TenantObj := mkTenantObj {
  o_pk : Z;
  o_tenant : Tenant;
  o_shard : Shard;
}.

Definition o_alias (t : TenantObj) : string := sh_alias (o_shard t).
Definition o_schema (t : TenantObj) : string := t_schema_name (o_tenant t).
Definition o_status (t : TenantObj) : Status := t_status (o_tenant t).

(** [Tenant.objects.select_related("shard").get(pk=pk)]: [None] is [DoesNotExist].
    [shard] is a protected foreign key, so the join finds its row. *)
Definition get_tenant (g : Registry) (pk : Z) : option TenantObj :=
  t ← g_tenants g !! pk; sh ← g_shards g !! t_shard_id t; Some (mkTenantObj pk t sh).

(** ** Status groups (src/tenants/migrator.py) *)

Definition PROVISIONABLE : list Status := [NEW; PENDING].
Definition UPGRADABLE : list Status := [ACTIVE; DEACTIVATED].
Definition OPERATOR_OWNED : list Status := [FAILED; MAINTENANCE].

Lemma status_groups_partition s :
  (mem s PROVISIONABLE = true ∧ mem s UPGRADABLE = false ∧ mem s OPERATOR_OWNED = false)
  ∨ (mem s PROVISIONABLE = false ∧ mem s UPGRADABLE = true ∧ mem s OPERATOR_OWNED = false)
  ∨ (mem s PROVISIONABLE = false ∧ mem s UPGRADABLE = false ∧ mem s OPERATOR_OWNED = true).
Proof. destruct s; vm_compute; auto. Qed.
