(* ===== verification/PyExc.v ===== *)
(** * Exceptions and their classification

    Models [_chain], [_sqlstate], [is_conn_error] and [is_lock_timeout] of
    src/tenants/migrator.py.  Exception objects live in a heap, because
    [__cause__] and [__context__] links may share objects and form cycles:
    an exception value is a heap and the identity of one object in it. *)
From S2P Require Import Prelude PyStr.

Inductive ExcClass :=
| DoesNotExist
| ShardUnavailable
| Incomplete
| DjangoOperationalError | DjangoInterfaceError
| PsycopgOperationalError | PsycopgInterfaceError
| Psycopg2OperationalError | Psycopg2InterfaceError
| RedisError | LockError      (** redis-py: a [LockError] is a [RedisError] *)
| ResolveDeferred | Http404
| BrokerOperationalError      (** [kombu.exceptions.OperationalError] *)
| ZoneError                   (** [ZoneInfoNotFoundError] or [ValueError] *)
| OtherException              (** any other subclass of [Exception] *)
| KeyboardInterrupt | OtherBaseException.   (** [BaseException] only *)

Record ExcObj := mkExcObj {
  eo_class : ExcClass;
  eo_name : string;             (** [type(e).__name__] *)
  eo_str : string;              (** [str(e)] *)
  eo_sqlstate : option string;
  eo_pgcode : option string;
  eo_cause : option nat;
  eo_context : option nat;
}.

Record exn := mkExn { x_heap : gmap nat ExcObj; x_id : nat }.

Definition x_obj (e : exn) : ExcObj :=
  default (mkExcObj OtherException "" "" None None None None) (x_heap e !! x_id e).

(** An exception with no links, as raised by the code itself. *)
Definition simple_exn (cls : ExcClass) (name msg : string) : exn :=
  mkExn {[0%nat := mkExcObj cls name msg None None None None]} 0.

(** [raise cls(msg) from e]: a new object whose [__cause__] is [e]. *)
Definition raise_from (cls : ExcClass) (name msg : string) (e : exn) : exn :=
  let i := fresh (dom (x_heap e)) in
  mkExn (<[i := mkExcObj cls name msg None None (Some (x_id e)) None]> (x_heap e)) i.

#[global] Instance ExcClass_eq_dec : EqDecision ExcClass.
Proof. solve_decision. Defined.
#[global] Instance ExcObj_eq_dec : EqDecision ExcObj.
Proof. solve_decision. Defined.
#[global] Instance exn_eq_dec : EqDecision exn.
Proof. solve_decision. Defined.

(** [isinstance(e, Exception)]: what [except Exception] catches. *)
Definition is_exception (e : exn) : bool :=
  match eo_class (x_obj e) with
  | KeyboardInterrupt | OtherBaseException => false
  | _ => true
  end.

Definition is_class (c : ExcClass) (e : exn) : bool :=
  match c, eo_class (x_obj e) with
  | DoesNotExist, DoesNotExist | ShardUnavailable, ShardUnavailable
  | Incomplete, Incomplete => true
  | _, _ => false
  end.

(** ** The chain *)

(** [e.__cause__ or e.__context__]. *)
Definition next_link (o : ExcObj) : option nat :=
  match eo_cause o with Some c => Some c | None => eo_context o end.

(** The generator's loop; [fuel] bounds the iterations and [chain_fuel_enough]
    shows that one more than the number of objects is always enough. *)
Fixpoint chain_go (fuel : nat) (h : gmap nat ExcObj) (seen : gset nat) (e : option nat) : list nat :=
  match fuel, e with
  | S fuel', Some i =>
      if decide (i ∈ seen) then []
      else match h !! i with
           | None => []
           | Some o => i :: chain_go fuel' h ({[i]} ∪ seen) (next_link o)
           end
  | _, _ => []
  end.

Definition _chain (h : gmap nat ExcObj) (i : nat) : list nat :=
  chain_go (S (size h)) h ∅ (Some i).

(** [getattr(x, "sqlstate", None) or getattr(x, "pgcode", None)]: an empty
    string is falsy. *)
Definition own_code (o : ExcObj) : option string :=
  match eo_sqlstate o with
  | Some s => if String.eqb s "" then eo_pgcode o else Some s
  | None => eo_pgcode o
  end.

(** A code that is truthy. *)
Definition truthy_code (o : ExcObj) : option string :=
  match own_code o with
  | Some s => if String.eqb s "" then None else Some s
  | None => None
  end.

Definition objs (h : gmap nat ExcObj) (l : list nat) : list ExcObj := omap (λ i, h !! i) l.

Definition _sqlstate (h : gmap nat ExcObj) (i : nat) : option string :=
  head (omap truthy_code (objs h (_chain h i))).

Definition CONN_SQLSTATES : list string := ["57P01"; "57P02"; "57P03"; "57P05"; "25P03"].

Definition conn_code (code : string) : bool :=
  py_startswith code "08" || mem code CONN_SQLSTATES.

(** [isinstance(x, _CONN_ERROR_CLASSES)]. *)
Definition conn_class (o : ExcObj) : bool :=
  match eo_class o with
  | DjangoOperationalError | DjangoInterfaceError
  | PsycopgOperationalError | PsycopgInterfaceError
  | Psycopg2OperationalError | Psycopg2InterfaceError => true
  | _ => false
  end.

Definition is_conn_error (e : exn) : bool :=
  existsb (λ i,
    match x_heap e !! i with
    | None => false
    | Some o =>
        match truthy_code o with Some own => conn_code own | None => false end
        || (conn_class o &&
            match _sqlstate (x_heap e) i with None => true | Some code => conn_code code end)
    end) (_chain (x_heap e) (x_id e)).

Definition is_lock_timeout (e : exn) : bool :=
  existsb (λ o, bool_decide (own_code o = Some "55P03"))
    (objs (x_heap e) (_chain (x_heap e) (x_id e))).

(** ** Implicit context

    A new exception raised while [e] is being handled gets [e] as the
    [__context__] of the object that was raised first, the root of its own
    chain (the interpreter sets it; a driver error that Django wraps is that
    root).  The objects of [e] are moved beside those of [e2]; re-raising [e]
    itself adds nothing. *)
Definition shift_obj (k : nat) (o : ExcObj) : ExcObj :=
  mkExcObj (eo_class o) (eo_name o) (eo_str o) (eo_sqlstate o) (eo_pgcode o)
    (Nat.add k <$> eo_cause o) (Nat.add k <$> eo_context o).

Definition shift_heap (k : nat) (h : gmap nat ExcObj) : gmap nat ExcObj :=
  list_to_map ((λ '(i, o), (k + i, shift_obj k o)) <$> map_to_list h).

Definition heap_bound (h : gmap nat ExcObj) : nat :=
  S (foldr (λ '(i, _) m, i `max` m) 0 (map_to_list h)).

Definition set_context (c : nat) (o : ExcObj) : ExcObj :=
  mkExcObj (eo_class o) (eo_name o) (eo_str o) (eo_sqlstate o) (eo_pgcode o)
    (eo_cause o) (Some c).

Definition raised_while_handling (e2 e : exn) : exn :=
  if bool_decide (e2 = e) then e
  else
    let k := heap_bound (x_heap e2) in
    let h := x_heap e2 ∪ shift_heap k (x_heap e) in
    match last (_chain (x_heap e2) (x_id e2)) with
    | Some root =>
        match x_heap e2 !! root with
        | Some o =>
            match next_link o with
            | None => mkExn (<[root := set_context (k + x_id e) o]> h) (x_id e2)
            | Some _ => mkExn h (x_id e2)
            end
        | None => mkExn h (x_id e2)
        end
    | None => mkExn h (x_id e2)
    end.

(** ** Properties *)

(** Ids of the heap not yet seen: what the loop still can visit. *)
Lemma chain_go_fuel f1 f2 h seen e :
  size (dom h ∖ seen) < f1 → size (dom h ∖ seen) < f2 →
  chain_go f1 h seen e = chain_go f2 h seen e.
Proof.
  revert f2 seen e. induction f1 as [|f1 IH]; intros [|f2] seen e H1 H2; [lia..|].
  destruct e as [i|]; [|done]. simpl. case_decide as Hi; [done|].
  destruct (h !! i) as [o|] eqn:Ho; [|done]. f_equal.
  assert (i ∈ dom h ∖ seen) as Hin by (apply elem_of_difference; split; [by apply elem_of_dom_2 in Ho|done]).
  assert (size (dom h ∖ ({[i]} ∪ seen)) < size (dom h ∖ seen)) as Hlt.
  { apply subset_size. split; [set_solver|]. intros Hsub. apply Hsub in Hin. set_solver. }
  apply IH; lia.
Qed.

Lemma chain_go_spec f h seen e :
  NoDup (chain_go f h seen e)
  ∧ (∀ i, i ∈ chain_go f h seen e → (i ∉ seen) ∧ is_Some (h !! i)).
Proof.
  revert seen e. induction f as [|f IH]; intros seen e; [split; [constructor|]; simpl; set_solver|].
  destruct e as [i|]; [|split; [constructor|]; simpl; set_solver]. simpl.
  case_decide as Hi; [split; [constructor|]; set_solver|].
  destruct (h !! i) as [o|] eqn:Ho; [|split; [constructor|]; set_solver].
  destruct (IH ({[i]} ∪ seen) (next_link o)) as [Hnd Hin]. split.
  - constructor; [|done]. intros [Hns _]%Hin. set_solver.
  - intros j [->|Hj]%elem_of_cons; [by rewrite Ho|]. apply Hin in Hj. set_solver.
Qed.

(** Walking the [__cause__]/[__context__] links of any
    exception, cyclic ones included, stops: no amount of further iterations
    changes the list, it visits no object twice, only existing objects, and it
    starts with the exception itself. *)
Theorem chain_terminates h i :
  (∀ fuel, size h < fuel → chain_go fuel h ∅ (Some i) = _chain h i)
  ∧ NoDup (_chain h i)
  ∧ (∀ j, j ∈ _chain h i → is_Some (h !! j))
  ∧ (is_Some (h !! i) → head (_chain h i) = Some i).
Proof.
  unfold _chain. split; [|split; [|split]].
  - intros fuel Hf. apply chain_go_fuel; rewrite difference_empty_L, size_dom; lia.
  - apply chain_go_spec.
  - intros j Hj. by eapply chain_go_spec.
  - intros [o Ho]. simpl. rewrite decide_False by set_solver. by rewrite Ho.
Qed.

(** A lock timeout wrapped by Django is an [OperationalError], yet not a lost
    connection; a driver error without SQLSTATE is one; the server-side session
    timeout 25P03 is one whatever its class. *)
Example classification_samples :
  let wrap cls code := mkExn (<[0%nat := mkExcObj DjangoOperationalError "OperationalError" "" None None (Some 1%nat) None]>
                        {[1%nat := mkExcObj cls "E" "" code None None (Some 0%nat)]}) 0 in
  is_conn_error (wrap PsycopgOperationalError (Some "55P03")) = false
  ∧ is_lock_timeout (wrap PsycopgOperationalError (Some "55P03")) = true
  ∧ is_conn_error (wrap PsycopgOperationalError None) = true
  ∧ is_conn_error (simple_exn OtherException "ProgrammingError" "") = false
  ∧ is_conn_error (wrap OtherException (Some "25P03")) = true.
Proof. by vm_compute. Qed.

(** Django's wrapper around a driver error without SQLSTATE is a lost connection;
    raised while a lock timeout is being handled, the same error is not: the
    SQLSTATE found first along its chain is the one of the error handled. *)
Example context_hides_conn_error :
  let wrap code := mkExn (<[0%nat := mkExcObj DjangoOperationalError "OperationalError" "" None None (Some 1%nat) None]>
                        {[1%nat := mkExcObj PsycopgOperationalError "OperationalError" "" code None None None]}) 0 in
  is_conn_error (wrap None) = true
  ∧ is_conn_error (wrap (Some "55P03")) = false
  ∧ is_conn_error (raised_while_handling (wrap None) (wrap (Some "55P03"))) = false
  ∧ is_conn_error (raised_while_handling (wrap (Some "08006")) (wrap (Some "55P03"))) = true
  ∧ is_conn_error (raised_while_handling (wrap None) (simple_exn Incomplete "Incomplete" "")) = true.
Proof. by vm_compute. Qed.
