(* ===== verification/Logs.v ===== *)
(** * Per-run log folders and per-target log files

    Models [start_run_dir], [tenant_log_name], [_clean], [_Tee] and [_TargetLog]
    of src/tenants/migrator.py: which old run folders are deleted, where a
    target's log goes, and which lines reach it. *)
From S2P Require Import Prelude PyStr Validators.
From Stdlib Require Import Ascii.

Definition NL : ascii := ascii_of_N 10.
Definition ESC : ascii := ascii_of_N 27.

(** ** Cleaning a line *)

Fixpoint take_while {A} (f : A → bool) (l : list A) : list A :=
  match l with
  | [] => []
  | x :: l' => if f x then x :: take_while f l' else []
  end.

(** [_ANSI_RE.sub("", ...)]: after ESC and [[], digits and semicolons up to an
    [m] are removed.  [skip] is the length of the match still to be dropped. *)
Definition ansi_match (l : list ascii) : option nat :=
  match l with
  | e :: b :: rest =>
      if Ascii.eqb e ESC && Ascii.eqb b "[" then
        let body := take_while (λ c, is_09 c || Ascii.eqb c ";") rest in
        match drop (length body) rest with
        | m :: _ => if Ascii.eqb m "m" then Some (length body + 3)%nat else None
        | [] => None
        end
      else None
  | _ => None
  end.

Fixpoint strip_ansi (skip : nat) (l : list ascii) : list ascii :=
  match l with
  | [] => []
  | c :: l' =>
      match skip with
      | S k => strip_ansi k l'
      | O => match ansi_match l with
             | Some n => strip_ansi (n - 1) l'
             | None => c :: strip_ansi 0 l'
             end
      end
  end.

(** One or more characters of a class, greedily: what follows them. *)
Definition eat1 (f : ascii → bool) (l : list ascii) : option (list ascii) :=
  match take_while f l with
  | [] => None
  | p => Some (drop (length p) l)
  end.

Definition eat_str (s : string) (l : list ascii) : option (list ascii) :=
  if String.prefix s (of_chars l) then Some (drop (String.length s) l) else None.

(** The optional progress counter of upstream's prefix. *)
Definition eat_progress (l : list ascii) : option (list ascii) :=
  l ← eat1 is_09 l; l ← eat_str "/" l; l ← eat1 is_09 l; l ← eat_str " (" l;
  l ← eat1 is_09 l; eat_str "%) " l.

Definition eat_target (l : list ascii) : option (list ascii) :=
  l ← eat1 (λ c, negb (py_space c || Ascii.eqb c ":" || Ascii.eqb c "]")) l;
  l ← eat_str ":" l;
  l ← eat1 (λ c, negb (py_space c || Ascii.eqb c "]")) l;
  eat_str "] " l.

(** [_UPSTREAM_PREFIX_RE.sub("", ...)]. *)
Definition strip_prefix (l : list ascii) : list ascii :=
  match eat_str "[" l with
  | None => l
  | Some l1 =>
      match (l2 ← eat_progress l1; eat_target l2) with
      | Some l3 => l3
      | None => match eat_target l1 with Some l3 => l3 | None => l end
      end
  end.

Definition _clean (line : string) : string :=
  of_chars (strip_prefix (strip_ansi 0 (chars line))).

(** ** The tee *)

(** [_Tee.write(s)]: the complete lines go to the log, the rest is kept. *)
Definition tee_write (buf s : string) : list string * string :=
  let parts := py_split NL (buf +:+ s) in
  (removelast parts, default "" (last parts)).

Definition tee_drain (buf : string) : list string :=
  if String.eqb buf "" then [] else [buf].

(** A whole session of writes followed by [drain()]: the lines passed to
    [_TargetLog.line]. *)
Fixpoint tee_run (buf : string) (writes : list string) : list string :=
  match writes with
  | [] => tee_drain buf
  | s :: ws => let '(lines, buf') := tee_write buf s in lines ++ tee_run buf' ws
  end.

(** ** The file of a target *)

Definition RULER : string := of_chars (repeat "-"%char 72).

(** [note(text)]: lines of a text without its trailing newlines. *)
Definition note_lines (text : string) : list string :=
  py_split NL (py_rstrip_char NL text).

Definition header_lines (header : list (string * string)) : list string :=
  ((λ '(k, v), k +:+ ": " +:+ v) <$> header) ++ [RULER].

Definition SHARED_LOG : string := "_shared.log".
Definition SUMMARY_LOG : string := "_summary.log".

Definition tenant_log_name (schema : string) (pk : Z) : string :=
  if schema_name_fullmatch schema then schema +:+ ".log" else "_tenant_" +:+ py_int pk +:+ ".log".

(** ** Run folders *)

Definition KEEP_PREVIOUS_RUNS : nat := 2.

(** [\d{4}-\d\d-\d\dT\d\d-\d\d-\d\dZ_] at the start. *)
Fixpoint match_template (tpl : list ascii) (l : list ascii) : option (list ascii) :=
  match tpl, l with
  | [], _ => Some l
  | p :: tpl', c :: l' =>
      if (if Ascii.eqb p "9" then is_09 c else Ascii.eqb p c) then match_template tpl' l' else None
  | _, [] => None
  end.

(** [.+_\d+$]: the trailing digits (before an optional final newline), an
    underscore, and at least one character before it, none of them a newline. *)
Definition run_suffix (l : list ascii) : bool :=
  let r := match rev l with c :: r' => if Ascii.eqb c NL then r' else c :: r' | [] => [] end in
  match eat1 is_09 r with
  | Some (u :: a) => Ascii.eqb u "_" && negb (bool_decide (a = []))
                     && forallb (λ c, negb (Ascii.eqb c NL)) a
  | _ => false
  end.

Definition RUN_DIR_RE (name : string) : bool :=
  match match_template (chars "9999-99-99T99-99-99Z_") (chars name) with
  | Some rest => run_suffix rest
  | None => false
  end.

Definition str_le (s t : string) : Prop := String.leb s t = true.
#[global] Instance str_le_dec : RelDecision str_le.
Proof. intros s t. unfold str_le. apply _. Defined.

(** [start_run_dir]: the entries of [root] as (name, is_dir); the folders it
    deletes, and the name of the one it creates. *)
Definition previous_runs (entries : list (string * bool)) : list string :=
  merge_sort str_le
    (omap (λ '(name, is_dir), if is_dir && RUN_DIR_RE name then Some name else None) entries).

Definition runs_to_delete (entries : list (string * bool)) : list string :=
  let previous := previous_runs entries in
  take (length previous - KEEP_PREVIOUS_RUNS) previous.

Definition start_run_dir (entries : list (string * bool)) (stamp host : string) (pid : Z) :
    list string * string :=
  (runs_to_delete entries, stamp +:+ "_" +:+ host +:+ "_" +:+ py_int pid).

(** ** Properties *)

Example clean_samples :
  _clean (String ESC "[1;32m[1/9 (11%) standard:acme] Applying x... OK" +:+ String ESC "[0m")
    = "Applying x... OK"
  ∧ _clean "[standard:acme] hi" = "hi"
  ∧ _clean "[standard acme] hi" = "[standard acme] hi"
  ∧ RUN_DIR_RE "2026-10-10T12-00-03Z_app-1_4312" = true
  ∧ RUN_DIR_RE "2026-10-10T12-00-03Z_4312" = false
  ∧ RUN_DIR_RE "notes" = false.
Proof. by vm_compute. Qed.

Lemma split_chars_nonempty c l : split_chars c l ≠ [].
Proof. destruct l as [|x l]; simpl; [done|]. repeat case_match; done. Qed.

(** Splitting a text after a prefix was split: the last piece of the prefix is
    completed by the rest. *)
Lemma split_chars_resume c a b :
  split_chars c (a ++ b)
  = removelast (split_chars c a) ++ split_chars c (default [] (last (split_chars c a)) ++ b).
Proof.
  induction a as [|x a IH]; [done|]. simpl. pose proof (split_chars_nonempty c a) as Hne.
  destruct (Ascii.eqb x c) eqn:Hx.
  - rewrite IH. destruct (split_chars c a) as [|p ps]; done.
  - rewrite IH. destruct (split_chars c a) as [|p [|q ps]]; [done| |].
    + simpl. rewrite Hx. done.
    + done.
Qed.

Definition tee_text (text : string) : list string :=
  removelast (py_split NL text) ++ tee_drain (default "" (last (py_split NL text))).

Lemma default_fmap_last (l : list (list ascii)) :
  default "" (last (of_chars <$> l)) = of_chars (default [] (last l)).
Proof. rewrite fmap_last. by destruct (last l). Qed.

Lemma removelast_fmap {A B} (f : A → B) (l : list A) : removelast (f <$> l) = f <$> removelast l.
Proof. induction l as [|x [|y l] IH]; [done..|]. simpl in *. by rewrite IH. Qed.

Lemma tee_text_resume a b :
  tee_text (a +:+ b)
  = removelast (py_split NL a) ++ tee_text (default "" (last (py_split NL a)) +:+ b).
Proof.
  unfold tee_text, py_split. rewrite default_fmap_last, !removelast_fmap, !default_fmap_last.
  rewrite !chars_app, chars_of_chars, (split_chars_resume NL (chars a) (chars b)).
  set (q := split_chars NL (default [] _ ++ chars b)).
  assert (q ≠ []) as Hq by apply split_chars_nonempty.
  rewrite (removelast_app _ Hq), fmap_app, <- app_assoc. f_equal. f_equal.
  rewrite last_app. destruct (last q) eqn:E; [done|]. by apply last_None in E.
Qed.

Lemma tee_run_text buf s ws :
  tee_run buf (s :: ws) = tee_text (buf +:+ foldr String.append "" (s :: ws)).
Proof.
  revert buf s. induction ws as [|s' ws IH]; intros buf s.
  - simpl. by rewrite str_app_nil.
  - change (foldr String.append "" (s :: s' :: ws)) with (s +:+ foldr String.append "" (s' :: ws)).
    rewrite str_app_assoc, tee_text_resume, <- (IH _ s'). done.
Qed.

(** However the output of a migration is cut into [write] calls,
    the lines that reach the target's log are the same, namely the lines of the
    concatenated text (the last one too when it has no newline). *)
Theorem tee_chunking writes :
  tee_run "" writes = tee_text (foldr String.append "" writes)
  ∧ ∀ writes', foldr String.append "" writes = foldr String.append "" writes' →
      tee_run "" writes = tee_run "" writes'.
Proof.
  assert (∀ ws, tee_run "" ws = tee_text (foldr String.append "" ws)) as H.
  { intros [|s ws]; [done|]. apply tee_run_text. }
  split; [apply H|]. intros writes' E. by rewrite !H, E.
Qed.

(** ** Log names *)

Lemma schema_ok_first s :
  schema_name_fullmatch s = true → ∃ c s', s = String c s' ∧ schema_first c = true.
Proof.
  unfold schema_name_fullmatch. destruct s as [|c s']; [done|].
  simpl chars. cbv iota beta. intros H. bool_props. eauto.
Qed.

Lemma schema_ok_chars s :
  schema_name_fullmatch s = true → Forall (λ c, schema_char c = true) (chars s).
Proof.
  unfold schema_name_fullmatch. intros H. bool_props.
  destruct (chars s) as [|c cs]; [done|]. bool_props. constructor; [|by apply forallb_Forall].
  unfold schema_char, schema_first in *.
  match goal with H : _ || _ = true |- _ => by rewrite H end.
Qed.

(** Two different tenants never write the same log file, and no
    tenant writes a run-level file; a name built from a schema holds no path
    separator. *)
Theorem tenant_log_name_safe s1 pk1 s2 pk2 :
  (s1 ≠ s2 → pk1 ≠ pk2 → tenant_log_name s1 pk1 ≠ tenant_log_name s2 pk2)
  ∧ tenant_log_name s1 pk1 ≠ SHARED_LOG ∧ tenant_log_name s1 pk1 ≠ SUMMARY_LOG
  ∧ (schema_name_fullmatch s1 = true → "/"%char ∉ chars (tenant_log_name s1 pk1)).
Proof.
  unfold tenant_log_name.
  assert (∀ s t, schema_name_fullmatch s = true → s +:+ ".log" ≠ "_" +:+ t) as Hu.
  { intros s t (c & s' & -> & Hc)%schema_ok_first E. injection E as -> _. done. }
  split; [|split; [|split]].
  - intros Hs Hpk. destruct (schema_name_fullmatch s1) eqn:E1, (schema_name_fullmatch s2) eqn:E2.
    + by intros ?%str_app_inj_r.
    + apply (Hu _ ("tenant_" +:+ py_int pk2 +:+ ".log") E1).
    + intros E. apply (Hu _ ("tenant_" +:+ py_int pk1 +:+ ".log") E2). by rewrite <- E.
    + intros E%str_app_inj_l%str_app_inj_r. by apply (inj pretty) in E.
  - case_match; [by apply (Hu _ "shared.log")|]. by intros ?.
  - case_match; [by apply (Hu _ "summary.log")|]. by intros ?.
  - intros E1. rewrite E1, chars_app, elem_of_app. apply schema_ok_chars in E1.
    rewrite Forall_forall in E1. intros [Hin%E1|Hin]; [done|]. vm_compute in Hin. set_solver.
Qed.

(** ** Run folders *)

Lemma str_compare_trans x y z :
  String.compare x y ≠ Gt → String.compare y z ≠ Gt → String.compare x z ≠ Gt.
Proof.
  revert y z. induction x as [|a x IH]; intros [|b y] [|c z] H1 H2; simpl in *; try done.
  unfold Ascii.compare in *.
  destruct (N.compare_spec (N_of_ascii a) (N_of_ascii b)),
    (N.compare_spec (N_of_ascii b) (N_of_ascii c)),
    (N.compare_spec (N_of_ascii a) (N_of_ascii c)); try done; try lia. by eapply IH.
Qed.

Lemma str_le_compare s t : str_le s t ↔ String.compare s t ≠ Gt.
Proof. unfold str_le, String.leb. destruct (String.compare s t); naive_solver. Qed.

#[global] Instance str_le_trans : Transitive str_le.
Proof. intros x y z. rewrite !str_le_compare. apply str_compare_trans. Qed.

#[global] Instance str_le_total : Total str_le.
Proof. intros x y. apply String.leb_total. Qed.

Lemma previous_runs_elem entries name :
  name ∈ previous_runs entries ↔ (name, true) ∈ entries ∧ RUN_DIR_RE name = true.
Proof.
  unfold previous_runs. rewrite merge_sort_Permutation, list_elem_of_omap. split.
  - intros ([n d] & Hin & E). destruct d, (RUN_DIR_RE n) eqn:En; naive_solver.
  - intros [Hin E]. exists (name, true). by rewrite E.
Qed.

(** Starting a run deletes only run folders, keeps at most two of
    them, and every one it deletes sorts before (is at least as old as) every
    one it keeps; nothing else in the root is touched. *)
Theorem start_run_dir_retention entries stamp host pid :
  let deleted := fst (start_run_dir entries stamp host pid) in
  let kept := drop (length deleted) (previous_runs entries) in
  previous_runs entries = deleted ++ kept
  ∧ length kept ≤ KEEP_PREVIOUS_RUNS
  ∧ (∀ d k, d ∈ deleted → k ∈ kept → str_le d k)
  ∧ (∀ d, d ∈ deleted → (d, true) ∈ entries ∧ RUN_DIR_RE d = true).
Proof.
  simpl. unfold runs_to_delete. set (p := previous_runs entries).
  assert (length (take (length p - KEEP_PREVIOUS_RUNS) p) = length p - KEEP_PREVIOUS_RUNS) as Hl
    by (rewrite length_take; lia).
  rewrite Hl. split; [by rewrite take_drop|]. split; [rewrite length_drop; lia|]. split.
  - assert (StronglySorted str_le p) as Hs by apply (StronglySorted_merge_sort _).
    rewrite <- (take_drop (length p - KEEP_PREVIOUS_RUNS) p) in Hs.
    apply StronglySorted_app in Hs as (Hs & _ & _). auto.
  - intros d Hd. apply previous_runs_elem. fold p.
    rewrite <- (take_drop (length p - KEEP_PREVIOUS_RUNS) p). apply elem_of_app. by left.
Qed.
