(* ===== verification/World.v ===== *)
(** * The world the migrator runs in

    State shared with other clients (the registry on [default], the shard
    databases), the state of this process (its connection wrappers, the
    resolve cache it invalidates, its log files), and the monad of the code:
    state passing with Python exceptions.

    Every round trip to a server consumes one [Event] of [w_script]: what other
    clients did since the previous one, and whether this one fails (before or
    after the statement took effect on the server).  An exhausted script is a
    quiet environment.  Theorems quantified over the world therefore cover any
    interleaving with other processes and any failure at any round trip. *)
From S2P Require Import Prelude PyStr Models PyExc.

(** ** The resolve cache as the migrator sees it

    What src/tenants/resolver/cache.py promises to the migrator: a tenant's
    keys are dropped together, and afterwards none of them serves a snapshot. *)
Class Invalidator := {
  inv_cache : Type;
  inv_forget : list string → string → inv_cache → inv_cache;
  inv_host : inv_cache → string → option Status;
  inv_schema : inv_cache → string → option Status;
  inv_forget_host hosts schema c h :
    h ∈ hosts → inv_host (inv_forget hosts schema c) h = None;
  inv_forget_schema hosts schema c :
    inv_schema (inv_forget hosts schema c) schema = None;
}.

(** ** Servers *)

Definition Mig : Type := string * string.   (** (app label, name) *)

Record SchemaState := mkSchema {
  sc_applied : list Mig;            (** rows of its [django_migrations] *)
  sc_relations : nat;               (** rows of [pg_class] *)
  sc_tables : nat;                  (** those of kind r or p *)
  sc_invalid : list string;         (** INVALID indexes, by name *)
}.

(** A backend of another client in [pg_stat_activity]. [b_state] and
    [b_query_start] are [None] when this role may not see them. *)
Record Backend := mkBackend {
  b_pid : Z;
  b_app : string;
  b_state : option string;
  b_query_start : option Z;
  b_query : string;
}.

Record ShardDb := mkShardDb {
  db_schemas : gmap string SchemaState;
  db_sessions : list Backend;
  db_now : Z;
}.

Record Srv := mkSrv {
  v_reg : Registry;
  v_dbs : gmap string ShardDb;
  v_lease_table : bool;            (** public.tenants_migrationlease exists *)
}.

Definition empty_db : ShardDb := mkShardDb ∅ [] 0.
Definition db_of (alias : string) (v : Srv) : ShardDb := default empty_db (v_dbs v !! alias).
Definition set_reg (f : Registry → Registry) (v : Srv) : Srv :=
  mkSrv (f (v_reg v)) (v_dbs v) (v_lease_table v).
Definition set_db (alias : string) (f : ShardDb → ShardDb) (v : Srv) : Srv :=
  mkSrv (v_reg v) (<[alias := f (db_of alias v)]> (v_dbs v)) (v_lease_table v).

(** ** Connections of this process *)

Inductive TxStatus := IDLE | TX_ACTIVE | INTRANS | INERROR | TX_UNKNOWN.

#[global] Instance TxStatus_eq_dec : EqDecision TxStatus.
Proof. solve_decision. Defined.

(** The driver connection; [None] for [raw_tx] when reading its status raises.
    The session settings are [None] at their server defaults. *)
Record Raw := mkRaw {
  raw_tx : option TxStatus;
  raw_autocommit : bool;
  raw_lock_timeout : option string;
  raw_app : option string;
}.

Record Conn := mkConn {
  c_raw : option Raw;
  c_in_atomic : bool;
  c_schema : string;
  c_include_public : bool;
}.

Definition fresh_raw (in_atomic : bool) : Raw :=
  mkRaw (Some (if in_atomic then INTRANS else IDLE)) (negb in_atomic) None None.
Definition raw_clean (r : Raw) : bool :=
  bool_decide (raw_lock_timeout r = None) && bool_decide (raw_app r = None).
Definition with_raw (r : option Raw) (c : Conn) : Conn :=
  mkConn r (c_in_atomic c) (c_schema c) (c_include_public c).
Definition with_schema (s : string) (pub : bool) (c : Conn) : Conn :=
  mkConn (c_raw c) (c_in_atomic c) s pub.
Definition raw_set_tx (tx : option TxStatus) (r : Raw) : Raw :=
  mkRaw tx (raw_autocommit r) (raw_lock_timeout r) (raw_app r).
Definition raw_settings (lt app : option string) (r : Raw) : Raw :=
  mkRaw (raw_tx r) (raw_autocommit r) lt app.
(** Transaction status after a statement that succeeded. *)
Definition tx_after (r : Raw) : option TxStatus :=
  Some (if raw_autocommit r then IDLE else INTRANS).

(** ** Effects worth remembering

    The trace, newest first: the writes of this process that took effect on a
    server, with the registry they were applied to, and the sessions closed. *)
Inductive Action :=
| ACas (pk : Z) (new prev : Status) (before : Registry)
| AAcquire (key : Z) (before : Srv)
| ARelease (key : Z) (owner : string) (before : Registry)
| AForget (pk : Z)
| ACreateSchema (alias schema : string)
| ARun (alias schema : string)
| AClose (alias : string) (raw : Raw)
| AStatus (pk : Z) (new prev : Status) (before : Registry)   (** an unfenced status update *)
| AInsert (pk : Z) (st : Status)
| ADelete (pk : Z) (before : Registry).

Record Event := mkEvent {
  ev_env : Srv → Srv;
  ev_fault : option exn;
  ev_applied : bool;
  ev_tx : option TxStatus;
}.

Definition quiet : Event := mkEvent id None true (Some IDLE).
Definition fault (e : exn) (applied : bool) (tx : option TxStatus) : Event :=
  mkEvent id (Some e) applied tx.

Section world.
Context `{Invalidator}.

Record World := mkWorld {
  w_srv : Srv;
  w_conns : gmap string Conn;
  w_cache : inv_cache;
  w_on_commit : list (list string * string);  (** deferred by an open transaction *)
  w_script : list Event;
  w_trace : list Action;
  w_side : string;               (** local [side] of [_provision]/[_upgrade] *)
  w_claimed : bool;              (** local [claimed] of [_provision] *)
  w_finished : bool;             (** local [finished] of [_migrate_tenant] *)
  w_files : gmap string (list string);
  w_log : option (string * string);  (** [_target_log]: its path, the stdout tee's buffer *)
  w_clock : list Z;              (** readings of [time.monotonic()] to come, in hundredths *)
}.

Definition upd_srv f w := mkWorld (f (w_srv w)) (w_conns w) (w_cache w) (w_on_commit w) (w_script w)
  (w_trace w) (w_side w) (w_claimed w) (w_finished w) (w_files w) (w_log w) (w_clock w).
Definition upd_conns f w := mkWorld (w_srv w) (f (w_conns w)) (w_cache w) (w_on_commit w) (w_script w)
  (w_trace w) (w_side w) (w_claimed w) (w_finished w) (w_files w) (w_log w) (w_clock w).
Definition upd_cache f w := mkWorld (w_srv w) (w_conns w) (f (w_cache w)) (w_on_commit w) (w_script w)
  (w_trace w) (w_side w) (w_claimed w) (w_finished w) (w_files w) (w_log w) (w_clock w).
Definition upd_on_commit f w := mkWorld (w_srv w) (w_conns w) (w_cache w) (f (w_on_commit w)) (w_script w)
  (w_trace w) (w_side w) (w_claimed w) (w_finished w) (w_files w) (w_log w) (w_clock w).
Definition upd_script s w := mkWorld (w_srv w) (w_conns w) (w_cache w) (w_on_commit w) s
  (w_trace w) (w_side w) (w_claimed w) (w_finished w) (w_files w) (w_log w) (w_clock w).
Definition upd_trace f w := mkWorld (w_srv w) (w_conns w) (w_cache w) (w_on_commit w) (w_script w)
  (f (w_trace w)) (w_side w) (w_claimed w) (w_finished w) (w_files w) (w_log w) (w_clock w).
Definition upd_side s w := mkWorld (w_srv w) (w_conns w) (w_cache w) (w_on_commit w) (w_script w)
  (w_trace w) s (w_claimed w) (w_finished w) (w_files w) (w_log w) (w_clock w).
Definition upd_claimed b w := mkWorld (w_srv w) (w_conns w) (w_cache w) (w_on_commit w) (w_script w)
  (w_trace w) (w_side w) b (w_finished w) (w_files w) (w_log w) (w_clock w).
Definition upd_finished b w := mkWorld (w_srv w) (w_conns w) (w_cache w) (w_on_commit w) (w_script w)
  (w_trace w) (w_side w) (w_claimed w) b (w_files w) (w_log w) (w_clock w).
Definition upd_files f w := mkWorld (w_srv w) (w_conns w) (w_cache w) (w_on_commit w) (w_script w)
  (w_trace w) (w_side w) (w_claimed w) (w_finished w) (f (w_files w)) (w_log w) (w_clock w).
Definition upd_log l w := mkWorld (w_srv w) (w_conns w) (w_cache w) (w_on_commit w) (w_script w)
  (w_trace w) (w_side w) (w_claimed w) (w_finished w) (w_files w) l (w_clock w).

Definition upd_clock c w := mkWorld (w_srv w) (w_conns w) (w_cache w) (w_on_commit w) (w_script w)
  (w_trace w) (w_side w) (w_claimed w) (w_finished w) (w_files w) (w_log w) c.

(** ** The monad *)

Definition M (A : Type) : Type := World → res exn A * World.

Definition ret {A} (a : A) : M A := λ w, (Ok a, w).
Definition raise {A} (e : exn) : M A := λ w, (Err e, w).
Definition bind {A B} (m : M A) (k : A → M B) : M B := λ w,
  match m w with (Ok a, w') => k a w' | (Err e, w') => (Err e, w') end.
Definition gets {A} (f : World → A) : M A := λ w, (Ok (f w), w).
Definition modify (f : World → World) : M unit := λ w, (Ok tt, f w).

(** [try: m except Exception as e: h(e)]; [BaseException]s pass. *)
Definition catch {A} (m : M A) (h : exn → M A) : M A := λ w,
  match m w with
  | (Err e, w') =>
      if is_exception e then
        match h e w' with
        | (Err e2, w2) => (Err (raised_while_handling e2 e), w2)
        | ok => ok
        end
      else (Err e, w')
  | ok => ok
  end.

(** [try: m finally: f]. *)
Definition finally {A} (m : M A) (f : M unit) : M A := λ w,
  match m w with
  | (r, w') =>
      match f w' with
      | (Ok _, w2) => (r, w2)
      | (Err e2, w2) =>
          (Err (match r with Err e => raised_while_handling e2 e | Ok _ => e2 end), w2)
      end
  end.

Definition lift {A} (r : res exn A) : M A := λ w, (r, w).

(** [time.monotonic()]. *)
Definition monotonic : M Z := λ w,
  match w_clock w with [] => (Ok 0%Z, w) | t :: c => (Ok t, upd_clock c w) end.

Definition log_action (a : Action) : M unit := modify (upd_trace (cons a)).

(** ** Connections and round trips *)

Definition conn_missing (alias : string) : exn :=
  simple_exn OtherException "ConnectionDoesNotExist"
    ("The connection '" +:+ alias +:+ "' doesn't exist.").

(** [connections[alias]]. *)
Definition connection (alias : string) : M Conn := λ w,
  match w_conns w !! alias with
  | Some c => (Ok c, w)
  | None => (Err (conn_missing alias), w)
  end.

Definition set_conn (alias : string) (f : Conn → Conn) : M unit :=
  modify (upd_conns (alter f alias)).
Definition set_raw (alias : string) (f : Raw → Raw) : M unit :=
  set_conn alias (λ c, with_raw (f <$> c_raw c) c).

(** The next event, with the effect of the other clients applied. *)
Definition next_event : M Event := λ w,
  match w_script w with
  | [] => (Ok quiet, w)
  | ev :: s => (Ok ev, upd_srv (ev_env ev) (upd_script s w))
  end.

(** One round trip on a live driver connection of [alias]: [f] is the
    statement's effect on the servers, its answer (or the error the server
    returns) and the actions it performs. *)
Definition round_trip {A} (alias : string)
    (f : Srv → res exn A * Srv * list Action) : M A :=
  bind next_event (λ ev w,
    let '(r, v, acts) := f (w_srv w) in
    let w_done := upd_trace (app acts) (upd_srv (λ _, v) w) in
    match ev_fault ev with
    | None =>
        match r with
        | Ok a => bind (set_raw alias (λ rw, raw_set_tx (tx_after rw) rw)) (λ _, ret a) w_done
        | Err e => bind (set_raw alias (λ rw,
                     raw_set_tx (Some (if raw_autocommit rw then IDLE else INERROR)) rw))
                     (λ _, raise e) w_done
        end
    | Some e =>
        bind (set_raw alias (raw_set_tx (ev_tx ev))) (λ _, raise e)
          (if ev_applied ev then w_done else w)
    end).

(** [ensure_connection()]: connecting is a round trip too. *)
Definition ensure_connection (alias : string) : M unit :=
  bind (connection alias) (λ c,
    match c_raw c with
    | Some _ => ret tt
    | None => bind next_event (λ ev,
        match ev_fault ev with
        | None => set_conn alias (with_raw (Some (fresh_raw (c_in_atomic c))))
        | Some e => raise e
        end)
    end).

(** [with connections[alias].cursor() as cur: cur.execute(...)]. *)
Definition query {A} (alias : string) (f : Srv → res exn A * Srv * list Action) : M A :=
  bind (ensure_connection alias) (λ _, round_trip alias f).

(** A statement that only reads. *)
Definition select {A} (alias : string) (f : Srv → A) : M A :=
  query alias (λ v, (Ok (f v), v, [])).

(** [c.close()]: the wrapper forgets the driver connection. *)
Definition close (alias : string) : M unit :=
  bind (connection alias) (λ c,
    bind (match c_raw c with Some r => log_action (AClose alias r) | None => ret tt end)
      (λ _, set_conn alias (with_raw None))).

End world.

Arguments World {_}.
Arguments M {_} _.

Notation "x <-! m ;; k" := (bind m (λ x, k))
  (at level 60, m at next level, right associativity) : tenants_scope.
Notation "m ;;; k" := (bind m (λ _, k))
  (at level 60, right associativity) : tenants_scope.
