(* ===== verification/Lease.v ===== *)
(** * The migration lease

    Models the connection helpers, the [MigrationLease] mutex, the fenced
    status CAS and [owner()] of src/tenants/migrator.py.  Each SQL statement is
    a function on the registry ([lease_upsert], [lease_free], [fenced_update],
    ...); the Python functions are monadic programs around them. *)
From S2P Require Import Prelude PyStr Models PyExc World.
Open Scope tenants_scope.

(** ** Identity of this process *)

(** [_owner_cache] and what the process reads about itself. *)
Record Proc := mkProc {
  p_host : string;
  p_pid : Z;
  p_start : string;                        (** [_process_start_utc()] *)
  p_owner_cache : option (Z * string);
}.

Definition owner_now (p : Proc) : string :=
  p_host p +:+ ":" +:+ py_int (p_pid p) +:+ ":" +:+ p_start p.

Definition owner (p : Proc) : string * Proc :=
  match p_owner_cache p with
  | Some (pid, o) =>
      if (pid =? p_pid p)%Z then (o, p)
      else (owner_now p, mkProc (p_host p) (p_pid p) (p_start p) (Some (p_pid p, owner_now p)))
  | None => (owner_now p, mkProc (p_host p) (p_pid p) (p_start p) (Some (p_pid p, owner_now p)))
  end.

(** [os.fork()]: the child inherits the module state and gets its own pid and
    start time. *)
Definition fork (pid : Z) (start : string) (p : Proc) : Proc :=
  mkProc (p_host p) pid start (p_owner_cache p).

(** ** Site constants *)

(** The value of [owner()] in this process, the setting, and [str.format] of a
    timestamp ([%Y-%m-%dT%H:%M:%SZ]). *)
Class Site := {
  me : string;
  DDL_LOCK_TIMEOUT : string;
  fmt_time : Z → string;
  utcnow : string;                  (** the client clock, formatted the same way *)
  format_exception : exn → string;  (** [traceback.format_exception] / [format_exc] *)
}.

Definition LEASE_TTL : Z := 3600 * 1000000.   (** one hour *)

(** The diagnostic [application_name]. *)
Definition tm_label (key : Z) : string := "tm:" +:+ py_int key.

(** ** SQL statements *)

(** [until < now()], where NULL is not true. *)
Definition lease_expired (g : Registry) (l : MigrationLease) : bool :=
  match ls_until l with Some u => (u <? g_now g)%Z | None => false end.

Definition is_none {A} (o : option A) : bool := match o with None => true | Some _ => false end.

Record LeaseHolder := mkHolder {
  lh_owner : string;
  lh_since : option Z;
  lh_until : option Z;
  lh_expired : bool;
}.

Definition holder_row (g : Registry) (l : MigrationLease) : option LeaseHolder :=
  match ls_owner l with
  | Some o => Some (mkHolder o (ls_since l) (ls_until l) (lease_expired g l))
  | None => None
  end.

(** INSERT ... ON CONFLICT DO UPDATE ... WHERE owner IS NULL OR until < now(). *)
Definition lease_upsert (key : Z) (o : string) (g : Registry) : bool * Registry :=
  let taken := set_leases (<[key := mkLease (Some o) (Some (g_now g)) (Some (g_now g + LEASE_TTL)%Z)]>) g in
  match g_leases g !! key with
  | None => (true, taken)
  | Some l => if is_none (ls_owner l) || lease_expired g l then (true, taken) else (false, g)
  end.

(** UPDATE ... SET owner = NULL ... WHERE key = %s AND owner = %s. *)
Definition lease_free (key : Z) (o : string) (g : Registry) : bool * Registry :=
  match g_leases g !! key with
  | Some l =>
      if bool_decide (ls_owner l = Some o)
      then (true, set_leases (<[key := mkLease None None None]>) g)
      else (false, g)
  | None => (false, g)
  end.

(** EXISTS (SELECT ... WHERE key = pk AND owner = me). *)
Definition lease_mine (key : Z) (o : string) (g : Registry) : bool :=
  match g_leases g !! key with
  | Some l => bool_decide (ls_owner l = Some o)
  | None => false
  end.

(** The UPDATE of [_fenced_cas]: rows updated and the registry after it. *)
Definition fenced_update (pk : Z) (expected : list Status) (new prev : Status) (err : string)
    (o : string) (g : Registry) : nat * Registry :=
  match g_tenants g !! pk with
  | Some t =>
      if mem (t_status t) expected && lease_mine pk o g
      then (1, set_tenants (<[pk := with_status new prev (g_now g) (Some err) t]>) g)
      else (0, g)
  | None => (0, g)
  end.

Record ShardSession := mkSession { ss_pid : Z; ss_running : Z; ss_query : string }.

(** [_SESSION_ACTIVE_SQL]: a backend with the label whose state is not
    (visibly) idle; the oldest [query_start], NULLs first. *)
Definition session_busy (key : Z) (b : Backend) : bool :=
  String.eqb (b_app b) (tm_label key) && negb (String.eqb (default "unknown" (b_state b)) "idle").

Definition older (a b : Backend) : bool :=
  match b_query_start a, b_query_start b with
  | None, _ => true
  | Some _, None => false
  | Some x, Some y => (x <=? y)%Z
  end.

Definition first_session (l : list Backend) : option Backend :=
  foldl (λ best b, match best with
                   | None => Some b
                   | Some a => if older a b then Some a else Some b
                   end) None l.

Definition session_active (key : Z) (db : ShardDb) : option ShardSession :=
  b ← first_session (filter (λ b, session_busy key b = true) (db_sessions db));
  Some (mkSession (b_pid b)
          (match b_query_start b with Some q => (db_now db - q)%Z | None => 0%Z end)
          (py_take 80 (b_query b))).

(** ** Connection hygiene *)

Section lease.
Context `{Invalidator} `{Site}.

Definition _fresh : M unit :=
  c <-! connection "default" ;;
  if c_in_atomic c then ret tt else close "default".

Definition _open_shard (alias : string) (key : Z) : M unit :=
  ensure_connection alias ;;;
  query alias (λ v, (Ok tt, v, [])) ;;;
  set_raw alias (raw_settings (Some DDL_LOCK_TIMEOUT) (Some (tm_label key))).

(** [_reset_session(raw)], where [raw] is the driver connection of [alias]. *)
Definition _reset_session (alias : string) (raw : option Raw) : M unit :=
  match raw with
  | None => ret tt
  | Some r =>
      catch
        (status <-! (match raw_tx r with
                     | None => raise (simple_exn OtherException "OperationalError" "the connection is closed")
                     | Some st => ret st
                     end) ;;
         status <-! (if bool_decide (status = INTRANS ∨ status = INERROR) then
                       round_trip alias (λ v, (Ok tt, v, [])) ;;;
                       set_raw alias (raw_set_tx (Some IDLE)) ;;;
                       ret IDLE
                     else ret status) ;;
         if bool_decide (status = IDLE) then
           round_trip alias (λ v, (Ok tt, v, [])) ;;;
           (if raw_autocommit r then ret tt else round_trip alias (λ v, (Ok tt, v, []))) ;;;
           set_raw alias (raw_settings None None)
         else ret tt)
        (λ _, ret tt)
  end.

Definition set_schema_to_public (alias : string) : M unit :=
  set_conn alias (with_schema "public" true).

Definition _close_shard (alias : string) : M unit :=
  c <-! connection alias ;;
  (if c_in_atomic c then
     query alias (λ v, (Ok tt, v, [])) ;;;
     set_raw alias (λ r, raw_settings None (raw_app r) r) ;;;
     query alias (λ v, (Ok tt, v, [])) ;;;
     set_raw alias (λ r, raw_settings (raw_lock_timeout r) None r)
   else
     _reset_session alias (c_raw c) ;;;
     close alias) ;;;
  set_schema_to_public alias.

(** ** The lease operations *)

Definition shard_session_active (alias : string) (key : Z) : M (option ShardSession) :=
  query alias (λ v, (Ok tt, v, [])) ;;;
  select alias (λ v, session_active key (db_of alias v)).

Definition lease_holder (key : Z) : M (option LeaseHolder) :=
  _fresh ;;;
  select "default" (λ v, l ← g_leases (v_reg v) !! key; holder_row (v_reg v) l).

Definition lease_holders : M (gmap Z LeaseHolder) :=
  _fresh ;;;
  select "default" (λ v, omap (holder_row (v_reg v)) (g_leases (v_reg v))).

Definition lease_lock_for_transition (key : Z) : M (option LeaseHolder) :=
  c <-! connection "default" ;;
  if negb (c_in_atomic c) then
    raise (simple_exn OtherException "RuntimeError"
             "lease_lock_for_transition() must run inside transaction.atomic()")
  else
    query "default" (λ v,
      (Ok tt, set_reg (set_leases (λ ls, match ls !! key with
                                         | Some _ => ls
                                         | None => <[key := mkLease None None None]> ls
                                         end)) v, [])) ;;;
    row <-! select "default" (λ v,
              (λ l, (l, lease_expired (v_reg v) l)) <$> (g_leases (v_reg v) !! key)) ;;
    match row with
    | None => ret (None : option LeaseHolder)
    | Some (l, expired) =>
        match ls_owner l with
        | None => ret None
        | Some o => if (expired : bool) then ret None
                    else ret (Some (mkHolder o (ls_since l) (ls_until l) expired))
        end
    end.

Definition free_stmt (key : Z) (o : string) (v : Srv) : res exn bool * Srv * list Action :=
  let '(ok, g) := lease_free key o (v_reg v) in
  (Ok ok, set_reg (λ _, g) v, if ok then [ARelease key o (v_reg v)] else []).

Definition lease_force_release (key : Z) (expected_owner : string) : M bool :=
  _fresh ;;;
  query "default" (free_stmt key expected_owner).

Definition _locked_msg (h : option LeaseHolder) : res exn string :=
  match h with
  | None => Ok "locked (lease changed hands concurrently)"
  | Some h =>
      match lh_since h with
      | Some s => Ok ("locked by " +:+ lh_owner h +:+ " since " +:+ fmt_time s)
      | None => Err (simple_exn OtherException "TypeError"
                       "unsupported format string passed to NoneType.__format__")
      end
  end.

Definition upsert_stmt (key : Z) (v : Srv) : res exn bool * Srv * list Action :=
  let '(won, g) := lease_upsert key me (v_reg v) in
  (Ok won, set_reg (λ _, g) v, if won then [AAcquire key v] else []).

(** [int(busy.running.total_seconds() // 60)]. *)
Definition minutes (us : Z) : Z := (us / 60000000)%Z.

Definition lease_acquire (key : Z) (alias : string) : M (option string) :=
  _fresh ;;;
  busy <-! catch (shard_session_active alias key)
             (λ e, if is_conn_error e
                   then raise (raise_from ShardUnavailable "ShardUnavailable" alias e)
                   else raise e) ;;
  match busy with
  | Some b =>
      h <-! lease_holder key ;;
      match h with
      | Some h' =>
          if negb (lh_expired h') then msg <-! lift (_locked_msg h) ;; ret (Some msg)
          else ret (Some ("locked (lease expired, backend still active: pid " +:+ py_int (ss_pid b)
                          +:+ ", running " +:+ py_int (minutes (ss_running b)) +:+ " min)"))
      | None => ret (Some ("locked (lease free, backend still active: pid " +:+ py_int (ss_pid b)
                          +:+ ", running " +:+ py_int (minutes (ss_running b)) +:+ " min)"))
      end
  | None =>
      _fresh ;;;
      won <-! query "default" (upsert_stmt key) ;;
      if won : bool then ret None
      else h <-! lease_holder key ;; msg <-! lift (_locked_msg h) ;; ret (Some msg)
  end.

Definition lease_release (key : Z) : M bool :=
  _fresh ;;;
  query "default" (free_stmt key me).

Definition cas_stmt (pk : Z) (expected : list Status) (new prev : Status) (err : string) (v : Srv) :
    res exn nat * Srv * list Action :=
  let '(n, g) := fenced_update pk expected new prev err me (v_reg v) in
  (Ok n, set_reg (λ _, g) v, if (n =? 1)%nat then [ACas pk new prev (v_reg v)] else []).

Definition _fenced_cas (pk : Z) (expected : list Status) (new prev : Status) (err : string) : M nat :=
  _fresh ;;;
  query "default" (cas_stmt pk expected new prev err).

End lease.
