(* ===== verification/LeaseProtocol.v ===== *)
(** * The lease as a mutual exclusion protocol

    Any number of migrator processes on one registry: the statements of
    Lease.v as steps of a transition system, and the exclusion they give. *)
From S2P Require Import Prelude PyStr Models PyExc World Lease.

(** A critical section in progress: lease key, owner, end of the lease. *)
Record Section_ := mkSection { cs_key : Z; cs_owner : string; cs_until : Z }.

#[global] Instance Section_eq_dec : EqDecision Section_.
Proof. solve_decision. Defined.

Record PState := mkPState {
  ps_reg : Registry;
  ps_cs : list Section_;
}.

Definition set_now (n : Z) (g : Registry) : Registry :=
  mkRegistry (g_shards g) (g_tenants g) (g_domains g) (g_leases g) (g_applied g) n.

(** What [lease_lock_for_transition] inserts. *)
Definition free_row (key : Z) (g : Registry) : Registry :=
  set_leases (λ ls, match ls !! key with
                    | Some _ => ls
                    | None => <[key := mkLease None None None]> ls
                    end) g.

Inductive pstep : PState → PState → Prop :=
| step_acquire o key g g' cs :
    lease_upsert key o g = (true, g') →
    pstep (mkPState g cs) (mkPState g' (mkSection key o (g_now g + LEASE_TTL) :: cs))
| step_refused o key g g' cs :
    lease_upsert key o g = (false, g') → pstep (mkPState g cs) (mkPState g' cs)
| step_release o key g g' b cs :
    lease_free key o g = (b, g') →
    pstep (mkPState g cs) (mkPState g' (filter (λ c, ¬ (cs_key c = key ∧ cs_owner c = o)) cs))
| step_cas o pk ex new prev err g g' n cs :
    fenced_update pk ex new prev err o g = (n, g') → pstep (mkPState g cs) (mkPState g' cs)
| step_lock key g cs : pstep (mkPState g cs) (mkPState (free_row key g) cs)
| step_tick d g cs : (0 ≤ d)%Z → pstep (mkPState g cs) (mkPState (set_now (g_now g + d) g) cs).

(** A lease that still runs. *)
Definition live (g : Registry) (c : Section_) : Prop := (g_now g ≤ cs_until c)%Z.

(** Its row says so. *)
Definition recorded (g : Registry) (c : Section_) : Prop :=
  ∃ l, g_leases g !! cs_key c = Some l ∧ ls_owner l = Some (cs_owner c) ∧ ls_until l = Some (cs_until c).

Definition pinv (s : PState) : Prop := ∀ c, c ∈ ps_cs s → live (ps_reg s) c → recorded (ps_reg s) c.

(** ** The invariant *)

Lemma live_not_expired g c l :
  live g c → ls_until l = Some (cs_until c) → lease_expired g l = false.
Proof. intros Hl E. unfold lease_expired. rewrite E. apply Z.ltb_ge. apply Hl. Qed.

Lemma upsert_cases key o g b g' :
  lease_upsert key o g = (b, g') →
  (b = false ∧ g' = g) ∨
  (b = true
   ∧ g' = set_leases (<[key := mkLease (Some o) (Some (g_now g)) (Some (g_now g + LEASE_TTL)%Z)]>) g
   ∧ ∀ l, g_leases g !! key = Some l → ls_owner l = None ∨ lease_expired g l = true).
Proof.
  unfold lease_upsert. destruct (g_leases g !! key) as [l|]; [|naive_solver].
  destruct (is_none (ls_owner l) || lease_expired g l) eqn:E; [|naive_solver].
  intros [= <- <-]. right. repeat split. intros l' [= <-]. bool_props.
  destruct E; [left|by right]. by destruct (ls_owner l).
Qed.

Lemma pinv_step s s' : pstep s s' → pinv s → pinv s'.
Proof.
  intros Hs Hi. destruct Hs as [o key g g' cs E|o key g g' cs E|o key g g' b cs E
    |o pk ex new prev err g g' n cs E|key g cs|d g cs Hd]; intros c Hc Hl; simpl in *.
  - apply upsert_cases in E as [[? _]|(_ & -> & Hfree)]; [done|].
    apply elem_of_cons in Hc as [->|Hc]; [eexists; simpl; rewrite lookup_insert_eq; naive_solver|].
    destruct (Hi c Hc Hl) as (l & El & Eo & Eu). exists l. simpl. split; [|done].
    destruct (decide (cs_key c = key)) as [<-|Hne]; [|by rewrite lookup_insert_ne].
    destruct (Hfree l El) as [En|Ex]; [congruence|]. by rewrite (live_not_expired g c l) in Ex.
  - apply upsert_cases in E as [[_ ->]|[? _]]; [by apply Hi|done].
  - apply list_elem_of_filter in Hc as [Hne Hc]. unfold lease_free in E.
    destruct (g_leases g !! key) as [l0|] eqn:E0; [|simplify_eq; by apply Hi].
    case_bool_decide as Eo0; simplify_eq; [|by apply Hi].
    destruct (Hi c Hc Hl) as (l & El & Eo & Eu). exists l. simpl. split; [|done].
    destruct (decide (cs_key c = key)) as [<-|?]; [|by rewrite lookup_insert_ne].
    exfalso. apply Hne. split; [done|]. simpl in El. congruence.
  - unfold fenced_update in E. destruct (g_tenants g !! pk); [|simplify_eq; by apply Hi].
    destruct (mem _ ex && lease_mine pk o g); simplify_eq; by apply Hi.
  - destruct (Hi c Hc Hl) as (l & El & Eo & Eu). simpl in El. exists l. simpl. split; [|done].
    destruct (g_leases g !! key) eqn:Ek; [done|]. rewrite lookup_insert_ne; [done|congruence].
  - apply (Hi c Hc). unfold live in *. simpl in *. lia.
Qed.

Definition start (g : Registry) : PState := mkPState g [].

Lemma pinv_reachable g s : rtc pstep (start g) s → pinv s.
Proof.
  intros Hr. assert (pinv (start g)) as H0 by (intros c Hc; by apply not_elem_of_nil in Hc).
  revert Hr H0. generalize (start g). induction 1 as [|s1 s2 s3 H1 _ IH]; [done|].
  intros. by apply IH, (pinv_step s1).
Qed.

(** C2: in every state reachable by any interleaving of any
    processes taking, releasing and using leases (no operator force-release),
    two critical sections on the same key whose leases have not expired are
    the same one; and while one runs, nobody can take the lease. *)
Theorem lease_mutual_exclusion g s c1 :
  rtc pstep (start g) s → c1 ∈ ps_cs s → live (ps_reg s) c1 →
  (∀ c2, c2 ∈ ps_cs s → live (ps_reg s) c2 → cs_key c2 = cs_key c1 → c2 = c1)
  ∧ ∀ o, (lease_upsert (cs_key c1) o (ps_reg s)).1 = false.
Proof.
  intros Hr Hc1 Hl1. pose proof (pinv_reachable g s Hr) as Hi.
  destruct (Hi c1 Hc1 Hl1) as (l1 & E1 & Eo1 & Eu1). split.
  - intros c2 Hc2 Hl2 Hk. destruct (Hi c2 Hc2 Hl2) as (l2 & E2 & Eo2 & Eu2).
    destruct c1, c2. simpl in *. subst. rewrite E1 in E2. simplify_eq. congruence.
  - intros o. unfold lease_upsert. rewrite E1, Eo1, (live_not_expired _ c1 l1) by done. done.
Qed.

Definition empty_registry : Registry := mkRegistry ∅ ∅ ∅ ∅ [] 0.

Lemma lease_mutual_exclusion_witness :
  ∃ s c1, rtc pstep (start empty_registry) s ∧ c1 ∈ ps_cs s
    ∧ ∀ o, (lease_upsert (cs_key c1) o (ps_reg s)).1 = false.
Proof.
  pose (s := mkPState (lease_upsert 7 "a" empty_registry).2 [mkSection 7 "a" LEASE_TTL]).
  exists s, (mkSection 7 "a" LEASE_TTL).
  assert (rtc pstep (start empty_registry) s) as Hr by (by apply rtc_once, step_acquire).
  split; [done|]. split; [by left|].
  apply (lease_mutual_exclusion empty_registry s (mkSection 7 "a" LEASE_TTL) Hr); [by left|done].
Defined.

(** C12: once another owner has taken over the lease of a tenant, no status
    write of the previous owner has any effect, whatever it expects; and a
    successful write proves that the writer is the owner on record. *)
Theorem takeover_fences pk o g :
  (∀ ex new prev err,
     lease_mine pk o g = false → fenced_update pk ex new prev err o g = (0, g))
  ∧ (∀ ex new prev err g',
       fenced_update pk ex new prev err o g = (1, g') →
       ∃ l t, g_leases g !! pk = Some l ∧ ls_owner l = Some o
         ∧ g_tenants g !! pk = Some t ∧ t_status t ∈ ex
         ∧ g' = set_tenants (<[pk := with_status new prev (g_now g) (Some err) t]>) g)
  ∧ (∀ o' g', lease_upsert pk o' g = (true, g') → o' ≠ o → lease_mine pk o g' = false).
Proof.
  split; [|split].
  - intros ex new prev err Hm. unfold fenced_update. destruct (g_tenants g !! pk); [|done].
    by rewrite Hm, andb_false_r.
  - intros ex new prev err g'. unfold fenced_update, lease_mine.
    destruct (g_tenants g !! pk) as [t|]; [|done]. destruct (g_leases g !! pk) as [l|];
      [|by rewrite andb_false_r]. destruct (mem (t_status t) ex) eqn:Em; [|done].
    case_bool_decide; [|done]. intros [= <-]. exists l, t. by apply mem_spec in Em.
  - intros o' g' E Hne. apply upsert_cases in E as [[? _]|(_ & -> & _)]; [done|].
    unfold lease_mine. simpl. rewrite lookup_insert_eq. apply bool_decide_eq_false. simpl. congruence.
Qed.

(** [owner()] identifies the calling process: the same on every call of
    one process, and recomputed in a forked child, which never presents its
    parent's identity. *)
Theorem owner_per_process p pid start :
  let '(o1, p1) := owner p in
  let '(o2, p2) := owner p1 in
  let '(oc, _) := owner (fork pid start p1) in
  (p_owner_cache p = None → o1 = owner_now p) ∧ o2 = o1 ∧ p2 = p1
  ∧ (pid ≠ p_pid p → oc = p_host p +:+ ":" +:+ py_int pid +:+ ":" +:+ start).
Proof.
  destruct p as [host mypid mystart cache]. unfold owner, fork, owner_now. simpl.
  destruct cache as [[k o]|]; [destruct (Z.eqb_spec k mypid) as [->|Hk]|]; simpl;
    rewrite ?Z.eqb_refl; destruct (Z.eqb_spec mypid pid); naive_solver.
Qed.
