(* ===== verification/Schema.v ===== *)
(** * State of a schema

    Models the read side of src/tenants/migrator.py that looks at the tenant
    and public schemas: [pending_plan], [behind], [public_plan],
    [schema_table_count], [check_reactivation], [schema_has_relations],
    [code_older_than_db] and [invalid_indexes].  Django's migration machinery
    and django-tenants are parameters ([Upstream]). *)
From S2P Require Import Prelude PyStr Models PyExc World Lease.
Open Scope tenants_scope.

(** ** Values of an options dict *)
Inductive PyVal := VNone | VBool (b : bool) | VInt (n : Z) | VStr (s : string).

Definition VOpt (o : option string) : PyVal :=
  match o with Some s => VStr s | None => VNone end.

(** What upstream [run_migrations] did: the exception it raised, the database it
    left, where it left the connection wrapper, and its output. *)
Record RunOut := mkRunOut {
  ro_exc : option exn;
  ro_db : ShardDb;
  ro_schema : string;
  ro_include_public : bool;
  ro_output : string;
}.

(** Django and django-tenants. *)
Class Upstream := {
  (** [schema_exists(schema, alias)] *)
  up_schema_exists : ShardDb → string → bool;
  (** [executor.migration_plan(executor.loader.graph.leaf_nodes())] with the
      connection on that schema: (migration, backwards) *)
  up_plan : ShardDb → string → list (Mig * bool);
  (** [run_migrations([], options, "standard", schema)] *)
  up_run : gmap string PyVal → string → ShardDb → RunOut;
  (** the defaults of the upstream [migrate] parser *)
  up_defaults : gmap string PyVal;
  (** [MigrationLoader(None, ignore_no_migrations=True)]: [disk_migrations]
      with what each replaces, and [migrated_apps] *)
  up_disk : list (Mig * list Mig);
  up_migrated_apps : list string;
}.

(** ** Pure parts *)

(** [[(m.app_label, m.name) for m, backwards in plan if not backwards]]. *)
Definition forward_plan (plan : list (Mig * bool)) : list Mig :=
  omap (λ '(m, backwards), if backwards : bool then None else Some m) plan.

(** [known]: the migrations on disk and those they replace. *)
Definition known_migrations (disk : list (Mig * list Mig)) : list Mig :=
  (fst <$> disk) ++ concat (snd <$> disk).

(** [applied_migrations()]: a dict, the last row of a key wins. *)
Definition applied_dict (rows : list (Mig * Z)) : gmap Mig Z := list_to_map (rev rows).

(** [max(..., default=None)]. *)
Definition max_applied (l : list Z) : option Z :=
  foldl (λ best x, match best with None => Some x | Some b => Some (Z.max b x) end) None l.

Definition older_than_db (disk : list (Mig * list Mig)) (apps : list string) (applied : gmap Mig Z) : bool :=
  let known := known_migrations disk in
  let relevant := filter (λ kr, kr.1.1 ∈ apps) applied in
  let unknown := filter (λ kr, kr.1 ∉ known) relevant in
  if bool_decide (unknown = ∅) then false
  else
    match max_applied (snd <$> map_to_list (filter (λ kr, kr.1 ∈ known) relevant)) with
    | None => true
    | Some latest_known => existsb (λ kr, (latest_known <? kr.2)%Z) (map_to_list unknown)
    end.

(** Reasons [check_reactivation] refuses ([ReactivationBlocked] subclasses), with
    the code and HTTP status of each class. *)
Inductive Blocked :=
| DeployInProgress
| SchemaMissing (schema alias : string)
| SchemaBehind (pending : list string)
| ReactivationUnavailable (what : string).

Definition blocked_code (b : Blocked) : string :=
  match b with
  | DeployInProgress => "deploy_in_progress"
  | SchemaMissing _ _ => "schema_missing"
  | SchemaBehind _ => "schema_behind"
  | ReactivationUnavailable _ => "shard_unreachable"
  end.

Definition blocked_status (b : Blocked) : Z :=
  match b with
  | DeployInProgress | ReactivationUnavailable _ => 503
  | SchemaMissing _ _ | SchemaBehind _ => 409
  end.

Section schema.
Context `{Invalidator} `{Site} `{Upstream}.

(** [connections[alias]] operations of the wrapper itself. *)
Definition set_schema (alias schema : string) (include_public : bool) : M unit :=
  _ <-! connection alias ;; set_conn alias (with_schema schema include_public).

(** [[... for m, backwards in MigrationExecutor(c).migration_plan(...) ...]]:
    reads the migrations recorded in the schema the wrapper points at. *)
Definition executor_plan (alias : string) : M (list Mig) :=
  c <-! connection alias ;;
  plan <-! select alias (λ v, up_plan (db_of alias v) (c_schema c)) ;;
  ret (forward_plan plan).

(** [None] is [MISSING]. *)
Definition pending_plan (t : TenantObj) : M (option (list Mig)) :=
  let alias := o_alias t in
  exists_ <-! select alias (λ v, up_schema_exists (db_of alias v) (o_schema t)) ;;
  if negb exists_ then ret None
  else finally
         (set_schema alias (o_schema t) false ;;;
          plan <-! executor_plan alias ;;
          ret (Some plan))
         (_close_shard alias).

Definition behind (t : TenantObj) : M (option nat) :=
  plan <-! pending_plan t ;; ret (length <$> plan).

Definition public_plan : M (list Mig) :=
  _fresh ;;;
  finally (set_schema_to_public "default" ;;; executor_plan "default") (_close_shard "default").

Definition schema_table_count (alias schema : string) : M (option nat) :=
  select alias (λ v, sc_tables <$> (db_schemas (db_of alias v) !! schema)).

Definition schema_has_relations (alias schema : string) : M bool :=
  select alias (λ v, match db_schemas (db_of alias v) !! schema with
                     | Some s => (0 <? sc_relations s)%nat
                     | None => false
                     end).

Definition code_older_than_db : M bool :=
  _fresh ;;;
  set_schema_to_public "default" ;;;
  applied <-! select "default" (λ v, applied_dict (g_applied (v_reg v))) ;;
  ret (older_than_db up_disk up_migrated_apps applied).

Definition invalid_indexes (alias schema : string) : M (list string) :=
  catch
    (select alias (λ v, match db_schemas (db_of alias v) !! schema with
                        | Some s => sc_invalid s
                        | None => []
                        end))
    (λ _, ret []).

Definition check_reactivation (t : TenantObj) : M (res Blocked unit) :=
  older <-! catch (b <-! code_older_than_db ;; ret (Ok b))
              (λ e, if is_conn_error e
                    then ret (Err (ReactivationUnavailable "default unreachable"))
                    else raise e) ;;
  match older with
  | Err b => ret (Err b)
  | Ok true => ret (Err DeployInProgress)
  | Ok false =>
      let alias := o_alias t in
      plan <-! catch (p <-! pending_plan t ;; ret (Ok p))
                 (λ e, if is_conn_error e
                       then ret (Err (ReactivationUnavailable ("shard " +:+ alias +:+ " unreachable")))
                       else raise e) ;;
      match plan with
      | Err b => ret (Err b)
      | Ok None => ret (Err (SchemaMissing (o_schema t) alias))
      | Ok (Some []) => ret (Ok tt)
      | Ok (Some p) => ret (Err (SchemaBehind ((λ '(a, n), a +:+ "." +:+ n) <$> p)))
      end
  end.

End schema.
