(* ===== verification/Trace.v ===== *)
(** * Reasoning about the trace

    Triples on the trace of effects, for any script: what a program does to the
    servers and in which order, whatever the other clients do and whichever
    round trip fails.  [trip P m Q E]: from a trace with [P], a normal return
    of [a] leaves a trace with [Q a] and an exception one with [E]. *)
From S2P Require Import Prelude PyStr Models PyExc World Lease Schema.
Open Scope tenants_scope.

Create HintDb keeps.

Section trace.
Context `{Invalidator}.

Definition tpred : Type := list Action → Prop.

Definition trip {A} (P : tpred) (m : M A) (Q : A → tpred) (E : tpred) : Prop :=
  ∀ w, P (w_trace w) →
    match m w with
    | (Ok a, w') => Q a (w_trace w')
    | (Err _, w') => E (w_trace w')
    end.

Definition keeps {A} (P : tpred) (m : M A) : Prop := trip P m (λ _, P) P.

(** Closing a session changes nothing the predicate talks about. *)
Class Stable (P : tpred) : Prop :=
  stable alias raw tr : P tr → P (AClose alias raw :: tr).

(** ** Structural rules *)

Lemma trip_conseq {A} (P P' : tpred) (m : M A) (Q Q' : A → tpred) (E E' : tpred) :
  trip P' m Q' E' → (∀ tr, P tr → P' tr) → (∀ a tr, Q' a tr → Q a tr) → (∀ tr, E' tr → E tr) →
  trip P m Q E.
Proof. intros Hm HP HQ HE w Hw. specialize (Hm w (HP _ Hw)). destruct (m w) as [[a|e] w']; auto. Qed.

Lemma trip_ret {A} (a : A) (P : tpred) Q E : (∀ tr, P tr → Q a tr) → trip P (ret a) Q E.
Proof. intros HQ w Hw. by apply HQ. Qed.

Lemma trip_raise {A} e (P : tpred) (Q : A → tpred) (E : tpred) :
  (∀ tr, P tr → E tr) → trip P (raise e) Q E.
Proof. intros HE w Hw. by apply HE. Qed.

Lemma trip_bind {A B} (m : M A) (k : A → M B) (P : tpred) R Q E :
  trip P m R E → (∀ a, trip (R a) (k a) Q E) → trip P (bind m k) Q E.
Proof.
  intros Hm Hk w Hw. unfold bind. specialize (Hm w Hw). destruct (m w) as [[a|e] w']; [|done].
  by apply Hk.
Qed.

Lemma trip_catch {A} (m : M A) h (P : tpred) Q E E1 :
  trip P m Q E1 → (∀ e, trip E1 (h e) Q E) → (∀ tr, E1 tr → E tr) → trip P (catch m h) Q E.
Proof.
  intros Hm Hh HE w Hw. unfold catch. specialize (Hm w Hw). destruct (m w) as [[a|e] w']; [done|].
  destruct (is_exception e); [|by apply HE]. specialize (Hh e w' Hm).
  destruct (h e w') as [[a|e2] w2]; done.
Qed.

Lemma trip_finally {A} (m : M A) f (P : tpred) R E1 Q E :
  trip P m R E1 → (∀ a, trip (R a) f (λ _, Q a) E) → trip E1 f (λ _, E) E → trip P (finally m f) Q E.
Proof.
  intros Hm Hf1 Hf2 w Hw. unfold finally. specialize (Hm w Hw). destruct (m w) as [[a|e] w'].
  - specialize (Hf1 a w' Hm). destruct (f w') as [[?|?] ?]; done.
  - specialize (Hf2 w' Hm). destruct (f w') as [[?|?] ?]; done.
Qed.

(** Steps that do not touch the trace. *)
Lemma keeps_pure {A} (P : tpred) (m : M A) : (∀ w, w_trace (m w).2 = w_trace w) → keeps P m.
Proof.
  intros Hm w Hw. specialize (Hm w). destruct (m w) as [[a|e] w']; simpl in Hm; by rewrite Hm.
Qed.

Lemma keeps_bind {A B} (P : tpred) (m : M A) (k : A → M B) :
  keeps P m → (∀ a, keeps P (k a)) → keeps P (bind m k).
Proof. apply trip_bind. Qed.

Lemma keeps_catch {A} (P : tpred) (m : M A) h :
  keeps P m → (∀ e, keeps P (h e)) → keeps P (catch m h).
Proof. intros ??. by eapply trip_catch. Qed.

Lemma keeps_finally {A} (P : tpred) (m : M A) f : keeps P m → keeps P f → keeps P (finally m f).
Proof. intros Hm Hf. eapply trip_finally; [apply Hm| |]; intros; apply Hf. Qed.

Lemma keeps_ret {A} (P : tpred) (a : A) : keeps P (ret a).
Proof. by apply trip_ret. Qed.

Lemma keeps_raise {A} (P : tpred) e : keeps P (raise e : M A).
Proof. by apply trip_raise. Qed.

Lemma keeps_lift {A} (P : tpred) (r : res exn A) : keeps P (lift r).
Proof. by apply keeps_pure. Qed.

Lemma keeps_gets {A} (P : tpred) (f : World → A) : keeps P (gets f).
Proof. by apply keeps_pure. Qed.

Lemma keeps_connection (P : tpred) alias : keeps P (connection alias).
Proof. apply keeps_pure. intros w. unfold connection. by case_match. Qed.

Lemma keeps_next_event (P : tpred) : keeps P next_event.
Proof. apply keeps_pure. intros w. unfold next_event. by case_match. Qed.

Lemma keeps_set_conn (P : tpred) alias f : keeps P (set_conn alias f).
Proof. by apply keeps_pure. Qed.

Lemma keeps_set_raw (P : tpred) alias f : keeps P (set_raw alias f).
Proof. by apply keeps_pure. Qed.

Lemma keeps_modify (P : tpred) f : (∀ w, w_trace (f w) = w_trace w) → keeps P (modify f).
Proof. intros Hf. by apply keeps_pure. Qed.

(** ** Round trips *)

Lemma trip_round_trip {A} alias (f : Srv → res exn A * Srv * list Action) (P : tpred) Q (E : tpred) :
  (∀ tr, P tr → E tr) →
  (∀ v tr, P tr → E ((f v).2 ++ tr)) →
  (∀ v a tr, P tr → (f v).1.1 = Ok a → Q a ((f v).2 ++ tr)) →
  trip P (round_trip alias f) Q E.
Proof.
  intros HE1 HE2 HQ. apply (trip_bind _ _ _ (λ _, P)).
  { eapply trip_conseq; [apply (keeps_next_event P)|done|done|done]. }
  intros ev w Hw. simpl.
  specialize (HE2 (w_srv w) _ Hw). specialize (HQ (w_srv w)).
  destruct (f (w_srv w)) as [[r v] acts] eqn:Hf. simpl in *.
  destruct (ev_fault ev) as [e|]; [by destruct (ev_applied ev); simpl; auto|].
  destruct r as [a|e]; simpl; auto.
Qed.

Lemma keeps_ensure_connection (P : tpred) alias : keeps P (ensure_connection alias).
Proof.
  apply keeps_bind; [apply keeps_connection|]. intros c. case_match; [apply keeps_ret|].
  apply keeps_bind; [apply keeps_next_event|]. intros ev. case_match; [apply keeps_raise|].
  apply keeps_set_conn.
Qed.

Lemma trip_query {A} alias (f : Srv → res exn A * Srv * list Action) (P : tpred) Q (E : tpred) :
  (∀ tr, P tr → E tr) →
  (∀ v tr, P tr → E ((f v).2 ++ tr)) →
  (∀ v a tr, P tr → (f v).1.1 = Ok a → Q a ((f v).2 ++ tr)) →
  trip P (query alias f) Q E.
Proof.
  intros HE1 HE2 HQ. apply (trip_bind _ _ _ (λ _, P)); [|intros; by apply trip_round_trip].
  eapply trip_conseq; [apply (keeps_ensure_connection P)|done|done|done].
Qed.

Lemma keeps_round_trip {A} alias (f : Srv → res exn A * Srv * list Action) (P : tpred) :
  (∀ v, (f v).2 = []) → keeps P (round_trip alias f).
Proof. intros Hf. apply trip_round_trip; intros; rewrite ?Hf; done. Qed.

Lemma keeps_query {A} alias (f : Srv → res exn A * Srv * list Action) (P : tpred) :
  (∀ v, (f v).2 = []) → keeps P (query alias f).
Proof. intros Hf. apply trip_query; intros; rewrite ?Hf; done. Qed.

Lemma keeps_select {A} alias (f : Srv → A) (P : tpred) : keeps P (select alias f).
Proof. by apply keeps_query. Qed.

Lemma keeps_close (P : tpred) `{!Stable P} alias : keeps P (close alias).
Proof.
  apply keeps_bind; [apply keeps_connection|]. intros c. apply keeps_bind; [|intros; apply keeps_set_conn].
  destruct (c_raw c); [|apply keeps_ret]. intros w Hw. by apply stable.
Qed.

End trace.

#[export] Hint Resolve keeps_ret keeps_raise keeps_lift keeps_gets keeps_connection keeps_next_event
  keeps_set_conn keeps_set_raw keeps_ensure_connection keeps_select keeps_close : keeps.
#[export] Hint Extern 1 (keeps _ (modify _)) => (apply keeps_modify; reflexivity) : keeps.
#[export] Hint Extern 1 (keeps _ (query _ _)) => (apply keeps_query; reflexivity) : keeps.
#[export] Hint Extern 1 (keeps _ (round_trip _ _)) => (apply keeps_round_trip; reflexivity) : keeps.

(** Walks through a program whose steps all keep the predicate. *)
Ltac keeps_step :=
  lazymatch goal with
  | |- keeps _ (bind _ _) => apply keeps_bind; [|intros ?]
  | |- keeps _ (catch _ _) => apply keeps_catch; [|intros ?]
  | |- keeps _ (finally _ _) => apply keeps_finally
  | |- keeps _ (match ?x with _ => _ end) => destruct x
  | |- keeps _ (let '_ := ?x in _) => destruct x
  | |- keeps _ _ => solve [eauto 2 with keeps typeclass_instances]
  end.
Ltac keeps_solve := repeat keeps_step.

(** ** The operations that only close sessions *)

Section ops.
Context `{Invalidator} `{Site} `{Upstream} (P : tpred) `{!Stable P}.

Lemma keeps_fresh : keeps P _fresh.
Proof. unfold _fresh. keeps_solve. Qed.

Lemma keeps_open_shard alias key : keeps P (_open_shard alias key).
Proof. unfold _open_shard. keeps_solve. Qed.

Lemma keeps_reset_session alias raw : keeps P (_reset_session alias raw).
Proof. unfold _reset_session. keeps_solve. Qed.

Lemma keeps_close_shard alias : keeps P (_close_shard alias).
Proof.
  unfold _close_shard, set_schema_to_public. keeps_solve. apply keeps_reset_session.
Qed.

Lemma keeps_session_active alias key : keeps P (shard_session_active alias key).
Proof. unfold shard_session_active. keeps_solve. Qed.

Lemma keeps_lease_holder key : keeps P (lease_holder key).
Proof. unfold lease_holder. keeps_solve. apply keeps_fresh. Qed.

Lemma keeps_pending_plan t : keeps P (pending_plan t).
Proof.
  unfold pending_plan, set_schema, executor_plan. keeps_solve. apply keeps_close_shard.
Qed.

Lemma keeps_code_older : keeps P code_older_than_db.
Proof. unfold code_older_than_db, set_schema_to_public. keeps_solve. apply keeps_fresh. Qed.

Lemma keeps_relations alias schema : keeps P (schema_has_relations alias schema).
Proof. unfold schema_has_relations. keeps_solve. Qed.

Lemma keeps_invalid_indexes alias schema : keeps P (invalid_indexes alias schema).
Proof. unfold invalid_indexes. keeps_solve. Qed.

End ops.

#[export] Hint Resolve keeps_fresh keeps_open_shard keeps_close_shard keeps_session_active
  keeps_lease_holder keeps_pending_plan keeps_code_older keeps_relations keeps_invalid_indexes : keeps.
