(* ===== verification/Migrator.v ===== *)
(** * The migrator

    Models src/tenants/migrator.py from [Reason] on: [migrate_tenant],
    [_provision], [_upgrade], [migrate_shared], [snapshot] and their helpers.
    Locals that an [except] or [finally] clause reads after an exception
    ([side], [claimed], [finished]) live in the world. *)
From S2P Require Import Prelude PyStr Validators Models PyExc Logs World Lease Schema.
Open Scope tenants_scope.

Inductive Reason :=
| APPLIED | RESUMED | TARGETED | UP_TO_DATE | DONE_BY_ANOTHER_RUN | PROVISIONING_ELSEWHERE
| LOCKED | STATUS_FAILED | STATUS_MAINTENANCE | STATUS_CHANGED | LEASE_LOST | TENANT_DELETED
| CODE_OLDER_THAN_DB | SCHEMA_MISSING | SCHEMA_EXISTS | LOCK_TIMEOUT | MIGRATION_ERROR
| INCOMPLETE_AFTER_RUN | CONN_ERROR | DEFAULT_SHARD_ANOMALY | SHARD_UNREACHABLE | STOPPED
| HARD_STOP.

#[global] Instance Reason_eq_dec : EqDecision Reason.
Proof. solve_decision. Defined.

Definition reason_value (r : Reason) : string :=
  match r with
  | APPLIED => "applied" | RESUMED => "resumed" | TARGETED => "targeted"
  | UP_TO_DATE => "up_to_date" | DONE_BY_ANOTHER_RUN => "done_by_another_run"
  | PROVISIONING_ELSEWHERE => "provisioning_elsewhere" | LOCKED => "locked"
  | STATUS_FAILED => "status_failed" | STATUS_MAINTENANCE => "status_maintenance"
  | STATUS_CHANGED => "status_changed" | LEASE_LOST => "lease_lost"
  | TENANT_DELETED => "tenant_deleted" | CODE_OLDER_THAN_DB => "code_older_than_db"
  | SCHEMA_MISSING => "schema_missing" | SCHEMA_EXISTS => "schema_exists"
  | LOCK_TIMEOUT => "lock_timeout" | MIGRATION_ERROR => "migration_error"
  | INCOMPLETE_AFTER_RUN => "incomplete_after_run" | CONN_ERROR => "conn_error"
  | DEFAULT_SHARD_ANOMALY => "default_shard_anomaly" | SHARD_UNREACHABLE => "shard_unreachable"
  | STOPPED => "stopped" | HARD_STOP => "hard_stop"
  end.

Inductive Kind := KOk | KNoop | KFailed | KSkipped.

#[global] Instance Kind_eq_dec : EqDecision Kind.
Proof. solve_decision. Defined.

Definition kind_value (k : Kind) : string :=
  match k with KOk => "ok" | KNoop => "noop" | KFailed => "failed" | KSkipped => "skipped" end.

Record Result := mkResult {
  r_kind : Kind;
  r_schema : string;
  r_shard : string;
  r_reason : Reason;
  r_msg : string;
  r_secs : Z;                          (** hundredths of a second *)
  r_invalid_indexes : list string;
  r_conn_error : option string;
}.

Definition result (k : Kind) (schema shard : string) (reason : Reason) (msg : string) : Result :=
  mkResult k schema shard reason msg 0 [] None.

(** [res._replace(...)]. *)
Definition with_secs (n : Z) (r : Result) : Result :=
  mkResult (r_kind r) (r_schema r) (r_shard r) (r_reason r) (r_msg r) n
    (r_invalid_indexes r) (r_conn_error r).
Definition with_conn (side : string) (r : Result) : Result :=
  mkResult (r_kind r) (r_schema r) (r_shard r) (r_reason r) (r_msg r) (r_secs r)
    (r_invalid_indexes r) (Some side).
Definition with_reason (why : Reason) (r : Result) : Result :=
  mkResult (r_kind r) (r_schema r) (r_shard r) why (r_msg r) (r_secs r)
    (r_invalid_indexes r) (r_conn_error r).
Definition with_details (msg : string) (inv : list string) (r : Result) : Result :=
  mkResult (r_kind r) (r_schema r) (r_shard r) (r_reason r) msg (r_secs r) inv (r_conn_error r).

Record RunOptions := mkRunOptions {
  verbosity : Z;
  fake : bool;
  fake_initial : bool;
  prune : bool;
  run_syncdb : bool;
  app_label : option string;
  migration_name : option string;
  maintenance : bool;
  log_dir : option string;
}.

Definition truthy_str (o : option string) : bool :=
  match o with Some s => negb (String.eqb s "") | None => false end.

Definition targeted (o : RunOptions) : bool :=
  fake o || fake_initial o || prune o || run_syncdb o
  || truthy_str (app_label o) || truthy_str (migration_name o).

(** [f"{type(e).__name__}: {e}"[:500]]. *)
Definition exc_msg (e : exn) : string :=
  py_take 500 (eo_name (x_obj e) +:+ ": " +:+ eo_str (x_obj e)).
Definition exc_str (e : exn) : string := eo_str (x_obj e).

(** [f"{secs:.2f}"] for a number of hundredths. *)
Definition fmt_secs (n : Z) : string :=
  py_int (n / 100) +:+ "." +:+ py_int (n / 10 mod 10) +:+ py_int (n mod 10).

(** [str(e.__cause__)]. *)
Definition cause_str (e : exn) : string :=
  match eo_cause (x_obj e) with
  | Some i => match x_heap e !! i with Some o => eo_str o | None => "None" end
  | None => "None"
  end.

Definition incomplete (n : nat) : exn :=
  simple_exn Incomplete "Incomplete"
    (py_int (Z.of_nat n) +:+ " migration(s) still unapplied after the run").

Section migrator.
Context `{Invalidator} `{Site} `{Upstream}.

(** ** Upstream options *)

Definition _upstream_options (opts : RunOptions) (alias : string) : gmap string PyVal :=
  list_to_map [("database", VStr alias); ("interactive", VBool false); ("skip_checks", VBool true);
               ("plan", VBool false); ("check_unapplied", VBool false);
               ("verbosity", VInt (verbosity opts));
               ("fake", VBool (fake opts)); ("fake_initial", VBool (fake_initial opts));
               ("prune", VBool (prune opts)); ("run_syncdb", VBool (run_syncdb opts));
               ("app_label", VOpt (app_label opts)); ("migration_name", VOpt (migration_name opts))]
  ∪ up_defaults.

(** [run_migrations([], options, "standard", schema)] on [alias]: the statements
    run on [connections[alias]]; the output goes through the tee. *)
Definition tee_output (out : string) : M unit := λ w,
  match w_log w with
  | None => (Ok tt, w)
  | Some (path, buf) =>
      let '(lines, buf') := tee_write buf out in
      (Ok tt, upd_log (Some (path, buf'))
                (upd_files (alter (λ ls, ls ++ (_clean <$> lines)) path) w))
  end.

Definition run_migrations (alias : string) (options : gmap string PyVal) (schema : string) : M unit :=
  out <-! query alias (λ v,
            let out := up_run options schema (db_of alias v) in
            (Ok out, set_db alias (λ _, ro_db out) v, [ARun alias schema])) ;;
  set_conn alias (with_schema (ro_schema out) (ro_include_public out)) ;;;
  tee_output (ro_output out) ;;;
  match ro_exc out with Some e => raise e | None => ret tt end.

(** ** The target's log *)

Definition log_line (text : string) : M unit := λ w,
  match w_log w with
  | None => (Ok tt, w)
  | Some (path, _) => (Ok tt, upd_files (alter (λ ls, ls ++ [_clean text]) path) w)
  end.

Fixpoint each {A} (f : A → M unit) (l : list A) : M unit :=
  match l with [] => ret tt | x :: l' => f x ;;; each f l' end.

Definition _open_log (opts : RunOptions) (name schema alias status : string) : M unit :=
  match log_dir opts with
  | None => ret tt
  | Some dir =>
      let path := dir +:+ "/" +:+ name in
      modify (upd_files (λ fs, <[path := default [] (fs !! path)]> fs)) ;;;
      modify (upd_log (Some (path, ""))) ;;;
      each log_line (header_lines [("schema", schema); ("shard", alias); ("status", status);
                                   ("lease owner", me); ("started", utcnow)])
  end.

Definition _close_log (res : option Result) (secs : Z) : M unit :=
  log <-! gets w_log ;;
  match log with
  | None => ret tt
  | Some (_, buf) =>
      let footer := match res with
        | None => "result: INTERRUPTED after " +:+ fmt_secs secs +:+ "s (see the run summary)"
        | Some r => "result: " +:+ kind_value (r_kind r) +:+ " " +:+ reason_value (r_reason r) +:+ " "
                    +:+ fmt_secs secs +:+ "s — " +:+ r_msg r +:+ "; invalid indexes: "
                    +:+ (match r_invalid_indexes r with [] => "none" | l => py_join ", " l end)
        end in
      each log_line (tee_drain buf) ;;; log_line RULER ;;; log_line footer ;;;
      modify (upd_log None)
  end.

Definition _note_exc (e : exn) : M unit := each log_line (note_lines (format_exception e)).

(** ** Steps of the algorithm *)

Definition _shard_idle (alias : string) : M bool :=
  c <-! connection alias ;;
  ret (match c_raw c with
       | None => true
       | Some r => match raw_tx r with None => true | Some st => negb (bool_decide (st = TX_ACTIVE)) end
       end).

(** The keys [resolve_cache.forget_tenant(t)] drops are read from [default];
    the invalidation itself runs at the end of the current transaction. *)
Definition tenant_hosts (g : Registry) (pk : Z) : list string :=
  fst <$> map_to_list (filter (λ kd, d_tenant_id kd.2 = pk) (g_domains g)).

Definition forget_tenant (t : TenantObj) : M unit :=
  hosts <-! select "default" (λ v, tenant_hosts (v_reg v) (o_pk t)) ;;
  c <-! connection "default" ;;
  (if c_in_atomic c then modify (upd_on_commit (λ l, l ++ [(hosts, o_schema t)]))
   else modify (upd_cache (inv_forget hosts (o_schema t)))) ;;;
  log_action (AForget (o_pk t)).

Definition _forget (t : TenantObj) : M unit := _fresh ;;; forget_tenant t.

Definition does_not_exist : exn :=
  simple_exn DoesNotExist "DoesNotExist" "Tenant matching query does not exist.".

Definition _load (pk : Z) : M TenantObj :=
  _fresh ;;;
  query "default" (λ v,
    (match get_tenant (v_reg v) pk with Some t => Ok t | None => Err does_not_exist end, v, [])).

(** The closure [r] of [_migrate_tenant] is [result k schema alias]. *)
Definition _gate (t : TenantObj) (opts : RunOptions) (r : Kind → Reason → string → Result) : option Result :=
  if bool_decide (o_status t = FAILED)
  then Some (r KSkipped STATUS_FAILED "status_failed: reset via admin FAILED→NEW")
  else if bool_decide (o_status t = MAINTENANCE) && negb (maintenance opts)
  then Some (r KSkipped STATUS_MAINTENANCE
               "status_maintenance: migrate explicitly with -s <schema> --maintenance")
  else None.

Definition _upgradable (t : TenantObj) (opts : RunOptions) : bool :=
  mem (o_status t) UPGRADABLE || (bool_decide (o_status t = MAINTENANCE) && maintenance opts).

Definition _cas_lost (t : TenantObj) (r : Kind → Reason → string → Result) : M Result :=
  _fresh ;;;
  row <-! select "default" (λ v,
            (λ u, (t_status u, lease_mine (o_pk t) me (v_reg v))) <$> (g_tenants (v_reg v) !! o_pk t)) ;;
  match row with
  | None => ret (r KSkipped TENANT_DELETED "tenant deleted during the run")
  | Some (status, mine) =>
      if negb (mine : bool) then
        ret (r KSkipped LEASE_LOST "lease taken over during the run; status not written")
      else ret (r KSkipped STATUS_CHANGED
                  ("status changed concurrently (now " +:+ py_repr (status_value status) +:+ ")"))
  end.

Definition failure_reason (e : exn) : Reason :=
  if is_lock_timeout e then LOCK_TIMEOUT
  else if is_class Incomplete e then INCOMPLETE_AFTER_RUN
  else MIGRATION_ERROR.

Definition _failure (e : exn) (alias schema : string) (r : Kind → Reason → string → Result) : M Result :=
  _close_shard alias ;;;
  inv <-! invalid_indexes alias schema ;;
  ret (with_details (exc_msg e) inv (r KFailed (failure_reason e) (exc_msg e))).

Definition set_side (s : string) : M unit := modify (upd_side s).

(** ** Provisioning: NEW/PENDING → ACTIVE *)

Definition schema_exists_msg (t : TenantObj) : string :=
  "schema_exists: schema " +:+ py_repr (o_schema t) +:+ " on " +:+ py_repr (o_alias t)
  +:+ " already has relations; check whose it is, then admin FAILED→NEW (with confirmation)".

(** [quote_schema(schema)] raises on an unsafe identifier. *)
Definition quote_schema_m (schema : string) : M string :=
  match quote_schema schema with
  | Ok q => ret q
  | Err _ => raise (simple_exn OtherException "ValueError" ("unsafe schema name " +:+ py_repr schema))
  end.

Definition create_schema (alias schema : string) : M unit :=
  _ <-! ensure_connection alias ;;
  _ <-! quote_schema_m schema ;;
  query alias (λ v,
    (Ok tt, set_db alias (λ db, mkShardDb (match db_schemas db !! schema with
                                           | Some _ => db_schemas db
                                           | None => <[schema := mkSchema [] 0 0 []]> (db_schemas db)
                                           end) (db_sessions db) (db_now db)) v,
     [ACreateSchema alias schema])).

(** The end of the [try], from [run_migrations] on. *)
Definition provision_finish (t : TenantObj) (opts : RunOptions)
    (r : Kind → Reason → string → Result) : M Result :=
  let alias := o_alias t in
  let schema := o_schema t in
  let resumed := bool_decide (o_status t = PENDING) in
  run_migrations alias (_upstream_options opts alias) schema ;;;
  plan <-! pending_plan t ;;
  (match plan with
   | None => raise (simple_exn OtherException "RuntimeError"
               ("schema " +:+ py_repr schema +:+ " disappeared from " +:+ py_repr alias
                +:+ " during provisioning"))
   | Some [] => ret tt
   | Some p => raise (incomplete (length p))
   end) ;;;
  set_side "default" ;;;
  older <-! code_older_than_db ;;
  if older : bool then
    ret (r KSkipped CODE_OLDER_THAN_DB
           ("code_older_than_db: a newer release migrated public during "
            +:+ "provisioning; left PENDING for the new code to finish"))
  else
  n <-! _fenced_cas (o_pk t) [PENDING] ACTIVE PENDING "" ;;
  if (n =? 0)%nat then _cas_lost t r
  else
  _forget t ;;;
  ret (if resumed then r KOk RESUMED "provisioned (RESUMED)" else r KOk APPLIED "provisioned").

(** The body of the [try]. *)
Definition provision_body (t : TenantObj) (opts : RunOptions)
    (r : Kind → Reason → string → Result) : M Result :=
  let alias := o_alias t in
  let schema := o_schema t in
  older <-! code_older_than_db ;;
  if older : bool then
    ret (r KSkipped CODE_OLDER_THAN_DB "code_older_than_db: a newer release has already migrated public")
  else
  set_side "shard" ;;;
  foreign <-! (if bool_decide (o_status t = NEW ∧ t_previous_status (o_tenant t) ≠ FAILED)
               then schema_has_relations alias schema else ret false) ;;
  if foreign : bool then
    set_side "default" ;;;
    n <-! _fenced_cas (o_pk t) [NEW] FAILED NEW (schema_exists_msg t) ;;
    if (n =? 0)%nat then _cas_lost t r
    else _forget t ;;; ret (r KFailed SCHEMA_EXISTS (schema_exists_msg t))
  else
  set_side "default" ;;;
  n <-! _fenced_cas (o_pk t) PROVISIONABLE PENDING NEW "" ;;
  if (n =? 0)%nat then _cas_lost t r
  else
  modify (upd_claimed true) ;;;
  set_side "shard" ;;;
  create_schema alias schema ;;;
  _open_shard alias (o_pk t) ;;;
  provision_finish t opts r.

(** The [except Exception as e] clause. *)
Definition provision_except (t : TenantObj) (r : Kind → Reason → string → Result) (e : exn) : M Result :=
  _note_exc e ;;;
  side <-! gets w_side ;;
  if is_conn_error e then
    ret (with_conn side (r KFailed CONN_ERROR (py_take 500 (side +:+ " connection lost: " +:+ exc_str e))))
  else
  res <-! _failure e (o_alias t) (o_schema t) r ;;
  claimed <-! gets w_claimed ;;
  if claimed : bool then
    catch
      (n <-! _fenced_cas (o_pk t) [PENDING] FAILED PENDING (py_last 4000 (format_exception e)) ;;
       if (n =? 0)%nat then
         lost <-! _cas_lost t r ;;
         ret (with_details (r_msg res) (r_invalid_indexes res) lost)
       else _forget t ;;; ret res)
      (λ e2, if is_conn_error (raised_while_handling e2 e)
             then ret (with_conn "default" (with_reason CONN_ERROR res))
             else raise e2)
  else ret res.

Definition _provision (t : TenantObj) (opts : RunOptions) (r : Kind → Reason → string → Result) : M Result :=
  if targeted opts then
    ret (r KSkipped TARGETED "targeted flags are not allowed for provisioning")
  else
    set_side "default" ;;; modify (upd_claimed false) ;;;
    catch (provision_body t opts r) (provision_except t r).

(** ** Upgrading *)

Definition upgrade_body (t : TenantObj) (opts : RunOptions)
    (r : Kind → Reason → string → Result) : M Result :=
  let alias := o_alias t in
  let schema := o_schema t in
  plan <-! pending_plan t ;;
  match plan with
  | None =>
      let msg := "schema " +:+ String (Ascii.ascii_of_N 34) (schema
                 +:+ String (Ascii.ascii_of_N 34) (" missing on " +:+ alias +:+ " during upgrade")) in
      if bool_decide (o_status t = MAINTENANCE) then ret (r KFailed SCHEMA_MISSING msg)
      else
        set_side "default" ;;;
        n <-! _fenced_cas (o_pk t) [o_status t] FAILED (o_status t) msg ;;
        if (n =? 0)%nat then _cas_lost t r
        else _forget t ;;; ret (r KFailed SCHEMA_MISSING msg)
  | Some p =>
      if bool_decide (p = []) && negb (targeted opts) then ret (r KNoop UP_TO_DATE "up to date")
      else
        _open_shard alias (o_pk t) ;;;
        run_migrations alias (_upstream_options opts alias) schema ;;;
        if targeted opts then
          remaining <-! pending_plan t ;;
          ret (r KOk TARGETED ("targeted, remaining=" +:+
                 match remaining with Some l => py_int (Z.of_nat (length l)) | None => "?" end))
        else ret (r KOk APPLIED ("applied " +:+ py_int (Z.of_nat (length p)) +:+ " migration(s)"))
  end.

Definition upgrade_except (t : TenantObj) (r : Kind → Reason → string → Result) (e : exn) : M Result :=
  _note_exc e ;;;
  side <-! gets w_side ;;
  if is_conn_error e then
    ret (with_conn side (r KFailed CONN_ERROR (py_take 500 (side +:+ " connection lost: " +:+ exc_str e))))
  else _failure e (o_alias t) (o_schema t) r.

Definition _upgrade (t : TenantObj) (opts : RunOptions) (r : Kind → Reason → string → Result) : M Result :=
  set_side "shard" ;;;
  catch (upgrade_body t opts r) (upgrade_except t r).

(** ** migrate_tenant *)

(** The [try] of step 4: everything done under the lease. *)
Definition under_lease (pk : Z) (opts : RunOptions) (r : Kind → Reason → string → Result) : M Result :=
  let finish (res : Result) : M Result := modify (upd_finished true) ;;; ret res in
  loaded <-! catch (t <-! _load pk ;; ret (Ok t))
               (λ e,
                  modify (upd_finished true) ;;;
                  if is_class DoesNotExist e then ret (Err (r KSkipped TENANT_DELETED "tenant deleted"))
                  else if is_conn_error e then
                    ret (Err (with_conn "default"
                                (r KFailed CONN_ERROR ("default unreachable: " +:+ exc_str e))))
                  else ret (Err (r KFailed MIGRATION_ERROR (exc_msg e)))) ;;
  match loaded with
  | Err res => ret res
  | Ok t =>
      match _gate t opts r with
      | Some gated => finish gated
      | None =>
          if mem (o_status t) PROVISIONABLE then res <-! _provision t opts r ;; finish res
          else if _upgradable t opts then res <-! _upgrade t opts r ;; finish res
          else finish (r KSkipped STATUS_CHANGED
                         ("status changed concurrently (now " +:+ py_repr (status_value (o_status t)) +:+ ")"))
      end
  end.

(** Its [finally]. *)
Definition after_lease (pk : Z) (alias : string) : M unit :=
  idle <-! _shard_idle alias ;;
  _close_shard alias ;;;
  finished <-! gets w_finished ;;
  if finished || idle then
    catch (_ <-! lease_release pk ;; ret tt) (λ _, ret tt)
  else ret tt.

(** Step 2: the NOOP shortcut, [Some] when it returns. *)
Definition noop_shortcut (t : TenantObj) (opts : RunOptions) (r : Kind → Reason → string → Result) :
    M (option Result) :=
  if _upgradable t opts && negb (targeted opts) then
    catch
      (plan <-! pending_plan t ;;
       ret (if bool_decide (plan = Some []) then Some (r KNoop UP_TO_DATE "up to date") else None))
      (λ e,
         _note_exc e ;;;
         if is_conn_error e then
           ret (Some (with_conn "shard" (r KFailed CONN_ERROR ("shard unreachable: " +:+ exc_str e))))
         else res <-! _failure e (o_alias t) (o_schema t) r ;; ret (Some res))
  else ret None.

(** Step 3: the lease; [Some] when the run ends here. *)
Definition take_lease (t : TenantObj) (r : Kind → Reason → string → Result) : M (option Result) :=
  catch
    (held <-! lease_acquire (o_pk t) (o_alias t) ;;
     ret (match held with Some msg => Some (r KSkipped LOCKED msg) | None => None end))
    (λ e, if is_class ShardUnavailable e then
            ret (Some (with_conn "shard" (r KFailed CONN_ERROR ("shard unreachable: " +:+ cause_str e))))
          else if is_conn_error e then
            ret (Some (with_conn "default" (r KFailed CONN_ERROR ("default unreachable: " +:+ exc_str e))))
          else raise e).

(** Step 0; [Err] when the run ends here. *)
Definition load_target (pk : Z) : M (res Result TenantObj) :=
  let name := "<pk " +:+ py_int pk +:+ ">" in
  catch (t <-! _load pk ;; ret (Ok t))
    (λ e, if is_class DoesNotExist e then ret (Err (result KSkipped name "" TENANT_DELETED "tenant deleted"))
          else if is_conn_error e then
            ret (Err (with_conn "default"
                        (result KFailed name "default" CONN_ERROR ("default unreachable: " +:+ exc_str e))))
          else raise e).

Definition _migrate_tenant (pk : Z) (opts : RunOptions) : M Result :=
  loaded <-! load_target pk ;;
  match loaded with
  | Err res => ret res
  | Ok t =>
      let alias := o_alias t in
      let schema := o_schema t in
      let r := λ kind reason msg, result kind schema alias reason msg in
      _open_log opts (tenant_log_name schema (o_pk t)) schema alias (status_value (o_status t)) ;;;
      if sh_is_default (o_shard t) then
        ret (r KFailed DEFAULT_SHARD_ANOMALY
               ("tenant on the default shard (" +:+ py_repr alias +:+ "): clean()-bypass anomaly, not migrated"))
      else
      match _gate t opts r with
      | Some gated => ret gated
      | None =>
          early <-! noop_shortcut t opts r ;;
          match early with
          | Some res => ret res
          | None =>
              held <-! take_lease t r ;;
              match held with
              | Some res => ret res
              | None =>
                  modify (upd_finished false) ;;;
                  finally (under_lease pk opts r) (after_lease (o_pk t) alias)
              end
          end
      end
  end.

Definition migrate_tenant (pk : Z) (opts : RunOptions) : M Result := λ w,
  (started <-! monotonic ;; λ w,
     match _migrate_tenant pk opts w with
     | (Ok res, w') =>
         (t1 <-! monotonic ;;
          let res := with_secs (t1 - started)%Z res in
          t2 <-! monotonic ;;
          _close_log (Some res) (t2 - started)%Z ;;;
          ret res) w'
     | (Err e, w') =>
         (t2 <-! monotonic ;; _close_log None (t2 - started)%Z ;;; raise e) w'
     end) w.

(** ** migrate_shared *)

Definition _lease_table_exists : M bool := _fresh ;;; select "default" v_lease_table.

(** Taking lease 0: whether it was taken, or the result that ends the stage. *)
Definition shared_lease : M (res Result bool) :=
  let r := λ kind reason msg, result kind "public" "default" reason msg in
  catch
    (leased <-! _lease_table_exists ;;
     if leased : bool then
       held <-! lease_acquire 0 "default" ;;
       match held with
       | Some msg => ret (Err (r KFailed LOCKED
                       ("shared stage busy: " +:+ replace_first "locked by" "held by" msg)))
       | None => ret (Ok true)
       end
     else ret (Ok false))
    (λ e, if is_conn_error e || is_class ShardUnavailable e
          then ret (Err (with_conn "default" (r KFailed CONN_ERROR ("default unreachable: " +:+ exc_str e))))
          else raise e).

Definition shared_run (opts : RunOptions) : M Result :=
  let r := λ kind reason msg, result kind "public" "default" reason msg in
  catch
    (_open_shard "default" 0 ;;;
     run_migrations "default" (_upstream_options opts "default") "public" ;;;
     modify (upd_finished true) ;;;
     ret (r KOk APPLIED "shared migrations applied"))
    (λ e,
       modify (upd_finished true) ;;;
       _note_exc e ;;;
       if is_conn_error e then
         ret (with_conn "default" (r KFailed CONN_ERROR (py_take 500 ("default connection lost: " +:+ exc_str e))))
       else ret (r KFailed (if is_lock_timeout e then LOCK_TIMEOUT else MIGRATION_ERROR) (exc_msg e))).

Definition shared_finally (leased : bool) : M unit :=
  idle <-! _shard_idle "default" ;;
  _close_shard "default" ;;;
  finished <-! gets w_finished ;;
  if leased && (finished || idle) then catch (_ <-! lease_release 0 ;; ret tt) (λ _, ret tt)
  else ret tt.

Definition _migrate_shared (opts : RunOptions) : M Result :=
  lease <-! shared_lease ;;
  match lease with
  | Err res => ret res
  | Ok leased =>
      modify (upd_finished false) ;;;
      finally (shared_run opts) (shared_finally leased)
  end.

Definition migrate_shared (opts : RunOptions) : M Result := λ w,
  (started <-! monotonic ;;
   _open_log opts SHARED_LOG "public" "default" "-" ;;; λ w,
     match _migrate_shared opts w with
     | (Ok res, w') =>
         (t1 <-! monotonic ;;
          let res := with_secs (t1 - started)%Z res in
          t2 <-! monotonic ;;
          _close_log (Some res) (t2 - started)%Z ;;;
          ret res) w'
     | (Err e, w') =>
         (t2 <-! monotonic ;; _close_log None (t2 - started)%Z ;;; raise e) w'
     end) w.

(** ** snapshot *)

Record Snap := mkSnap {
  sn_status : option string;
  sn_behind : option nat;
  sn_lease_owner : option string;
  sn_error : option string;
}.

(** The [except] clauses: the dict filled so far is kept. *)
Definition snap_except (s : Snap) (e : exn) : Snap :=
  if is_class DoesNotExist e then mkSnap (Some "deleted") (sn_behind s) (sn_lease_owner s) None
  else mkSnap (sn_status s) (sn_behind s) (sn_lease_owner s)
         (Some (py_take 300 (eo_name (x_obj e) +:+ ": " +:+ exc_str e))).

Definition snapshot (key : Z) : M Snap :=
  let snap := mkSnap None None None None in
  held <-! catch (h <-! lease_holder key ;; ret (Ok h)) (λ e, ret (Err (snap_except snap e))) ;;
  match held with
  | Err s => ret s
  | Ok h =>
      let snap := mkSnap None None (lh_owner <$> h) None in
      if (key =? 0)%Z then ret snap
      else
        loaded <-! catch (t <-! _load key ;; ret (Ok t)) (λ e, ret (Err (snap_except snap e))) ;;
        match loaded with
        | Err s => ret s
        | Ok t =>
            let snap := mkSnap (Some (status_value (o_status t))) None (sn_lease_owner snap) None in
            catch (b <-! behind t ;; ret (mkSnap (sn_status snap) b (sn_lease_owner snap) None))
              (λ e, ret (snap_except snap e))
        end
  end.

End migrator.
