(* ===== verification/MigratorSafety.v ===== *)
(** * What a migrator run may do to the servers

    For any interleaving with other clients and any failure at any round trip:
    the order and the legality of the writes of [migrate_tenant]. *)
From S2P Require Import Prelude PyStr Models PyExc Logs World Lease Schema Trace Migrator.
Open Scope tenants_scope.

(** ** The policy *)

(** The status writes the migrator may make: [old] is the status of the row it
    overwrites, [prev] what it records as previous. *)
Definition legal_write (old new prev : Status) : bool :=
  match old, new, prev with
  | NEW, PENDING, NEW | PENDING, PENDING, NEW
  | PENDING, ACTIVE, PENDING
  | NEW, FAILED, NEW | PENDING, FAILED, PENDING
  | ACTIVE, FAILED, ACTIVE | DEACTIVATED, FAILED, DEACTIVATED => true
  | _, _, _ => false
  end.

(** The lease of [pk] was taken and not released since. *)
Fixpoint holding (pk : Z) (tr : list Action) : bool :=
  match tr with
  | [] => false
  | AAcquire k _ :: tr' => if (k =? pk)%Z then true else holding pk tr'
  | ARelease k _ _ :: tr' => if (k =? pk)%Z then false else holding pk tr'
  | _ :: tr' => holding pk tr'
  end.

(** Status last written to [pk] since the lease was taken. *)
Fixpoint last_write (pk : Z) (tr : list Action) : option Status :=
  match tr with
  | [] => None
  | ACas k new _ _ :: tr' => if (k =? pk)%Z then Some new else last_write pk tr'
  | AAcquire k _ :: tr' => if (k =? pk)%Z then None else last_write pk tr'
  | _ :: tr' => last_write pk tr'
  end.

(** Migrations were run since the last status write. *)
Fixpoint ran (pk : Z) (tr : list Action) : bool :=
  match tr with
  | [] => false
  | ARun _ _ :: _ => true
  | ACas k _ _ _ :: tr' => if (k =? pk)%Z then false else ran pk tr'
  | AAcquire k _ :: tr' => if (k =? pk)%Z then false else ran pk tr'
  | _ :: tr' => ran pk tr'
  end.

Section safety.
Context `{Invalidator} `{Site} `{Upstream}.

(** [action_ok pk tr a]: action [a], performed after [tr], respects the policy. *)
Definition action_ok (pk : Z) (tr : list Action) (a : Action) : Prop :=
  match a with
  | ACas k new prev g =>
      k = pk ∧ holding pk tr = true ∧ lease_mine pk me g = true
      ∧ (∃ t, g_tenants g !! pk = Some t ∧ legal_write (t_status t) new prev = true)
      ∧ (new = ACTIVE → last_write pk tr = Some PENDING ∧ ran pk tr = true)
  | AAcquire k v =>
      k = pk ∧ match g_leases (v_reg v) !! pk with
               | None => True
               | Some l => ls_owner l = None ∨ lease_expired (v_reg v) l = true
               end
  | ARelease k o g => k = pk ∧ o = me ∧ lease_mine pk me g = true
  | AForget k => k = pk ∧ (last_write pk tr = Some ACTIVE ∨ last_write pk tr = Some FAILED)
  | ACreateSchema _ _ => holding pk tr = true ∧ last_write pk tr = Some PENDING
  | ARun _ _ => holding pk tr = true
  | AClose _ _ => True
  | AStatus _ _ _ _ | AInsert _ _ | ADelete _ _ => False
  end.

Fixpoint trace_ok (pk : Z) (tr : list Action) : Prop :=
  match tr with
  | [] => True
  | a :: tr' => action_ok pk tr' a ∧ trace_ok pk tr'
  end.

Context (pk : Z).

(** ** Invariants between the steps *)

(** Under the lease; under the lease after a given status write; after
    migrations ran on top of that. *)
Definition HO : tpred := λ tr, trace_ok pk tr ∧ holding pk tr = true.
Definition WR (s : Status) : tpred := λ tr, HO tr ∧ last_write pk tr = Some s.
Definition RN : tpred := λ tr, WR PENDING tr ∧ ran pk tr = true.

#[local] Instance OK_stable : Stable (trace_ok pk).
Proof. by intros ????. Qed.
#[local] Instance HO_stable : Stable HO.
Proof. intros ??? [??]. by split. Qed.
#[local] Instance WR_stable s : Stable (WR s).
Proof. intros ??? [[??] ?]. by repeat split. Qed.
#[local] Instance RN_stable : Stable RN.
Proof. intros ??? [[[??]?]?]. by repeat split. Qed.

Lemma HO_OK tr : HO tr → trace_ok pk tr.
Proof. by intros [??]. Qed.
Lemma WR_HO s tr : WR s tr → HO tr.
Proof. by intros [??]. Qed.
Lemma RN_WR tr : RN tr → WR PENDING tr.
Proof. by intros [??]. Qed.

(** Keeping [P] and weakening what is known after a failure. *)
Lemma trip_keeps {A} (P E : tpred) (m : M A) :
  keeps P m → (∀ tr, P tr → E tr) → trip P m (λ _, P) E.
Proof. intros Hm HE. by eapply trip_conseq. Qed.

Lemma trip_of_keeps {A} (P : tpred) (m : M A) w :
  keeps P m → P (w_trace w) →
  match m w with (Ok _, w') => P (w_trace w') | (Err _, w') => P (w_trace w') end.
Proof. intros Hm. apply Hm. Qed.

(** ** The statements with effects *)

Lemma fenced_update_one expected new prev err o g n g' :
  fenced_update pk expected new prev err o g = (n, g') →
  (n = 0 ∧ g' = g) ∨
  (n = 1 ∧ lease_mine pk o g = true ∧ ∃ t, g_tenants g !! pk = Some t ∧ t_status t ∈ expected).
Proof.
  unfold fenced_update. destruct (g_tenants g !! pk) as [t|]; [|naive_solver].
  destruct (mem (t_status t) expected && lease_mine pk o g) eqn:E; [|naive_solver].
  bool_props. apply mem_spec in H2. intros [= <- <-]. right. eauto.
Qed.

Lemma trip_fenced_cas (P : tpred) `{!Stable P} expected new prev err :
  (∀ tr, P tr → HO tr) →
  (new = ACTIVE → ∀ tr, P tr → RN tr) →
  (∀ old, old ∈ expected → legal_write old new prev = true) →
  trip P (_fenced_cas pk expected new prev err) (λ n, if (n =? 0)%nat then P else WR new) HO.
Proof.
  intros HP Hact Hleg. unfold _fenced_cas.
  apply (trip_bind _ _ _ (λ _, P)); [apply trip_keeps; [eauto with keeps|done]|]. intros _.
  assert (∀ v tr, P tr → (cas_stmt pk expected new prev err v).2 = [] ∨
            ((cas_stmt pk expected new prev err v).1.1 = Ok 1 ∧
             WR new ((cas_stmt pk expected new prev err v).2 ++ tr))) as Hstmt.
  { intros v tr Htr. unfold cas_stmt.
    destruct (fenced_update pk expected new prev err me (v_reg v)) as [n g'] eqn:E.
    apply fenced_update_one in E as [[-> ->]|(-> & Hm & t & Ht & Hin)]; [by left|right].
    destruct (HP _ Htr) as [Hok Hh]. split; [done|]. simpl.
    repeat split; simpl; rewrite ?Z.eqb_refl; eauto.
    - apply (Hact H2) in Htr as [[_ ?] _]. done.
    - apply (Hact H2) in Htr as [_ ?]. done. }
  apply trip_query; [auto| |].
  - intros v tr Htr. destruct (Hstmt v tr Htr) as [->|[_ Hwr]]; [auto|by eapply WR_HO].
  - intros v a tr Htr Ha. destruct (Hstmt v tr Htr) as [E|[E Hwr]].
    + rewrite E. unfold cas_stmt in *.
      destruct (fenced_update pk expected new prev err me (v_reg v)) as [n g'] eqn:Ef.
      apply fenced_update_one in Ef as [[-> ->]|(-> & _)]; [|done]. simpl in Ha. by simplify_eq.
    + rewrite E in Ha. by simplify_eq.
Qed.

Lemma trip_lease_acquire alias :
  trip (trace_ok pk) (lease_acquire pk alias)
    (λ held, match held with None => HO | Some _ => trace_ok pk end) (trace_ok pk).
Proof.
  unfold lease_acquire. apply (trip_bind _ _ _ (λ _, trace_ok pk)); [apply keeps_fresh, _|]. intros _.
  apply (trip_bind _ _ _ (λ _, trace_ok pk)).
  { apply keeps_catch; [eauto with keeps typeclass_instances|]. intros e. case_match; eauto with keeps. }
  intros [b|].
  { eapply trip_bind; [apply keeps_lease_holder, _|]. intros [h|]; [|by apply trip_ret].
    case_match; [|by apply trip_ret]. eapply trip_bind; [apply keeps_lift|]. intros. by apply trip_ret. }
  apply (trip_bind _ _ _ (λ _, trace_ok pk)); [apply keeps_fresh, _|]. intros _.
  apply (trip_bind _ _ _ (λ won : bool, if won then HO else trace_ok pk)).
  - assert (∀ v tr, trace_ok pk tr → ((upsert_stmt pk v).1.1 = Ok false ∧ (upsert_stmt pk v).2 = []) ∨
              ((upsert_stmt pk v).1.1 = Ok true ∧ HO ((upsert_stmt pk v).2 ++ tr))) as Hstmt.
    { intros v tr Htr. unfold upsert_stmt, lease_upsert.
      destruct (g_leases (v_reg v) !! pk) as [l|] eqn:El.
      - destruct (is_none (ls_owner l) || lease_expired (v_reg v) l) eqn:Eo; [right|by left].
        split; [done|]. repeat split; simpl; rewrite ?Z.eqb_refl, ?El; auto.
        bool_props. destruct Eo as [Eo|Eo]; [|by right]. left. by destruct (ls_owner l).
      - right. split; [done|]. repeat split; simpl; rewrite ?Z.eqb_refl, ?El; auto. }
    apply trip_query; [done| |].
    + intros v tr Htr. destruct (Hstmt v tr Htr) as [[_ ->]|[_ ?]]; [done|by apply HO_OK].
    + intros v a tr Htr Ha. destruct (Hstmt v tr Htr) as [[E ->]|[E ?]]; rewrite E in Ha; by simplify_eq.
  - intros [|]; [by apply trip_ret|]. eapply trip_bind; [apply keeps_lease_holder, _|]. intros h.
    eapply trip_bind; [apply keeps_lift|]. intros. by apply trip_ret.
Qed.

Lemma keeps_lease_release : keeps (trace_ok pk) (lease_release pk).
Proof.
  unfold lease_release. apply keeps_bind; [apply keeps_fresh, _|]. intros _.
  assert (∀ v tr, trace_ok pk tr → trace_ok pk ((free_stmt pk me v).2 ++ tr)) as Hstmt.
  { intros v tr Htr. unfold free_stmt, lease_free.
    destruct (g_leases (v_reg v) !! pk) as [l|] eqn:El; [|done]. case_bool_decide as Eo; [|done].
    simpl. repeat split; [|done]. unfold lease_mine. by rewrite El, bool_decide_true. }
  apply trip_query; auto.
Qed.

Lemma trip_forget t s :
  o_pk t = pk → s = ACTIVE ∨ s = FAILED → trip (WR s) (_forget t) (λ _, HO) HO.
Proof.
  intros Hpk Hs. unfold _forget, forget_tenant.
  apply (trip_bind _ _ _ (λ _, WR s)); [apply trip_keeps; [eauto with keeps typeclass_instances|apply WR_HO]|]. intros _.
  apply (trip_bind _ _ _ (λ _, WR s)); [apply trip_keeps; [eauto with keeps|apply WR_HO]|]. intros hosts.
  apply (trip_bind _ _ _ (λ _, WR s)); [apply trip_keeps; [eauto with keeps|apply WR_HO]|]. intros c.
  apply (trip_bind _ _ _ (λ _, WR s)).
  { apply trip_keeps; [|apply WR_HO]. destruct (c_in_atomic c); auto with keeps. }
  intros _ w [[Hok Hh] Hl]. simpl. rewrite Hpk. repeat split; auto. simpl.
  destruct Hs as [->| ->]; auto.
Qed.

Lemma keeps_each {A} (P : tpred) (f : A → M unit) l : (∀ x, keeps P (f x)) → keeps P (each f l).
Proof. intros Hf. induction l; simpl; keeps_solve; auto. Qed.

Lemma keeps_log_line (P : tpred) text : keeps P (log_line text).
Proof. apply keeps_pure. intros w. unfold log_line. repeat case_match; done. Qed.

Lemma keeps_note_exc (P : tpred) e : keeps P (_note_exc e).
Proof. apply keeps_each, keeps_log_line. Qed.

Lemma keeps_cas_lost (P : tpred) `{!Stable P} t r : keeps P (_cas_lost t r).
Proof. unfold _cas_lost. keeps_solve. Qed.

Lemma keeps_failure (P : tpred) `{!Stable P} e alias schema r : keeps P (_failure e alias schema r).
Proof. unfold _failure. keeps_solve. Qed.

Lemma trip_run_migrations (P : tpred) alias options schema (Q : tpred) :
  (∀ tr, P tr → HO tr) → (∀ tr, P tr → Q (ARun alias schema :: tr)) → (∀ tr, Q tr → HO tr) →
  trip P (run_migrations alias options schema) (λ _, Q) HO.
Proof.
  intros HP HQ HE. unfold run_migrations. apply (trip_bind _ _ _ (λ _, Q)).
  - apply trip_query; simpl; auto.
  - intros out. apply trip_keeps; [|apply HE].
    keeps_solve. apply keeps_pure. intros w. unfold tee_output. repeat case_match; done.
Qed.

Lemma HO_run alias schema tr : HO tr → HO (ARun alias schema :: tr).
Proof. intros [? Hh]. by repeat split. Qed.

Lemma trip_create_schema alias schema :
  trip (WR PENDING) (create_schema alias schema) (λ _, WR PENDING) HO.
Proof.
  unfold create_schema. apply (trip_bind _ _ _ (λ _, WR PENDING)).
  { apply trip_keeps; [eauto with keeps|apply WR_HO]. }
  intros _. apply (trip_bind _ _ _ (λ _, WR PENDING)).
  { apply trip_keeps; [|apply WR_HO]. unfold quote_schema_m. case_match; eauto with keeps. }
  intros q. apply trip_query; simpl; [apply WR_HO| |]; intros; destruct H2 as [[??]?]; by repeat split.
Qed.

(** ** The programs *)

(** One step of a program that keeps [P]. *)
Ltac step_keep P :=
  apply (trip_bind _ _ _ (λ _, P));
  [apply trip_keeps; [eauto with keeps typeclass_instances|eauto using WR_HO, RN_WR]|intros ?].

Lemma keeps_set_side (P : tpred) s : keeps P (set_side s).
Proof. by apply keeps_modify. Qed.
#[local] Hint Resolve keeps_set_side keeps_cas_lost keeps_failure keeps_note_exc : keeps.

(** A CAS, then either the diagnosis of a lost one or the continuation. *)
Lemma trip_cas_then (P : tpred) `{!Stable P} t expected new prev err r (k : M Result) :
  o_pk t = pk →
  (∀ tr, P tr → HO tr) →
  (new = ACTIVE → ∀ tr, P tr → RN tr) →
  (∀ old, old ∈ expected → legal_write old new prev = true) →
  trip (WR new) k (λ _, HO) HO →
  trip P (n <-! _fenced_cas (o_pk t) expected new prev err ;;
          if (n =? 0)%nat then _cas_lost t r else k) (λ _, HO) HO.
Proof.
  intros Hpk HP Hact Hleg Hk. rewrite Hpk. eapply trip_bind; [by apply trip_fenced_cas|].
  intros n. simpl. destruct (n =? 0)%nat; [|done].
  eapply trip_conseq; [apply (keeps_cas_lost P)|done|simpl; auto|auto].
Qed.

Lemma trip_forget_ret t s (x : Result) :
  o_pk t = pk → s = ACTIVE ∨ s = FAILED → trip (WR s) (_forget t ;;; ret x) (λ _, HO) HO.
Proof. intros ??. eapply trip_bind; [by apply trip_forget|]. intros ?. by apply trip_ret. Qed.

Lemma trip_provision_body t opts r :
  o_pk t = pk → trip HO (provision_body t opts r) (λ _, HO) HO.
Proof.
  intros Hpk. unfold provision_body, provision_finish. step_keep HO. case_match; [by apply trip_ret|].
  step_keep HO. step_keep HO; [case_bool_decide; eauto with keeps typeclass_instances|].
  case_match.
  { step_keep HO. apply trip_cas_then; [apply _|done|done|done| |].
    - intros old ->%list_elem_of_singleton. done.
    - apply trip_forget_ret; auto. }
  step_keep HO. apply trip_cas_then; [apply _|done|done|done| |].
  { intros old Hin. unfold PROVISIONABLE in Hin. set_unfold in Hin. by destruct Hin as [->|[->|[]]]. }
  step_keep (WR PENDING). step_keep (WR PENDING).
  eapply trip_bind; [apply trip_create_schema|]. intros ?. simpl.
  step_keep (WR PENDING).
  apply (trip_bind _ _ _ (λ _, RN)).
  { apply trip_run_migrations; [apply WR_HO| |].
    - intros tr [Hho Hl]. split; [split; [by apply HO_run|done]|done].
    - intros tr Hr. by apply WR_HO with PENDING, RN_WR. }
  intros _. step_keep RN. step_keep RN. { repeat case_match; eauto with keeps. }
  step_keep RN. step_keep RN. case_match; [apply trip_ret; eauto using WR_HO, RN_WR|].
  apply trip_cas_then; [apply _|done|eauto using WR_HO, RN_WR|done| |].
  - intros old ->%list_elem_of_singleton. done.
  - apply trip_forget_ret; auto.
Qed.

Lemma trip_provision_except t r e :
  o_pk t = pk → trip HO (provision_except t r e) (λ _, HO) HO.
Proof.
  intros Hpk. unfold provision_except. step_keep HO. step_keep HO. case_match; [by apply trip_ret|].
  step_keep HO. step_keep HO. case_match; [|by apply trip_ret].
  apply trip_catch with HO; [|intros e2; case_match; [by apply trip_ret|by apply trip_raise]|done].
  rewrite Hpk. eapply trip_bind.
  { apply (trip_fenced_cas HO); [done|done|]. by intros old ->%list_elem_of_singleton. }
  intros n. simpl. destruct (n =? 0)%nat.
  - step_keep HO. by apply trip_ret.
  - by apply trip_forget_ret; auto.
Qed.

Lemma trip_provision t opts r : o_pk t = pk → trip HO (_provision t opts r) (λ _, HO) HO.
Proof.
  intros Hpk. unfold _provision. case_match; [by apply trip_ret|]. step_keep HO. step_keep HO.
  eapply trip_catch; [by apply trip_provision_body|intros e; by apply trip_provision_except|done].
Qed.

Lemma trip_upgrade t opts r :
  o_pk t = pk → _upgradable t opts = true → trip HO (_upgrade t opts r) (λ _, HO) HO.
Proof.
  intros Hpk Hup. unfold _upgrade. step_keep HO. eapply trip_catch with HO; [| |done].
  - unfold upgrade_body. step_keep HO. destruct a0 as [p|].
    + case_match; [by apply trip_ret|]. step_keep HO.
      apply (trip_bind _ _ _ (λ _, HO)); [apply trip_run_migrations; auto using HO_run|].
      intros _. case_match; [|by apply trip_ret]. step_keep HO. by apply trip_ret.
    + case_bool_decide as Hm; [by apply trip_ret|]. step_keep HO.
      apply trip_cas_then; [apply _|done|done|done| |apply trip_forget_ret; auto].
      intros old ->%list_elem_of_singleton. unfold _upgradable in Hup.
      destruct (o_status t); done.
  - intros e. unfold upgrade_except. step_keep HO. step_keep HO. case_match; [by apply trip_ret|].
    by apply keeps_failure, _.
Qed.

Lemma trip_load_pk (P : tpred) `{!Stable P} :
  trip P (_load pk) (λ t tr, P tr ∧ o_pk t = pk) P.
Proof.
  unfold _load. apply (trip_bind _ _ _ (λ _, P)); [by apply keeps_fresh|]. intros _.
  apply trip_query; simpl; auto. intros v t tr Htr E.
  destruct (get_tenant (v_reg v) pk) as [t'|] eqn:Et; simplify_eq. split; [done|].
  unfold get_tenant in Et. destruct (g_tenants (v_reg v) !! pk); simplify_eq/=.
  destruct (g_shards (v_reg v) !! _); by simplify_eq/=.
Qed.

(** A [_load] whose failures are turned into a value. *)
Lemma trip_load_catch (P : tpred) `{!Stable P} {X} (h : exn → M (res X TenantObj)) :
  (∀ e, trip P (h e) (λ x tr, P tr ∧ ∀ t, x = Ok t → o_pk t = pk) P) →
  trip P (catch (t <-! _load pk ;; ret (Ok t)) h) (λ x tr, P tr ∧ ∀ t, x = Ok t → o_pk t = pk) P.
Proof.
  intros Hh. apply trip_catch with P; [|done|done].
  eapply trip_bind; [by apply trip_load_pk|]. intros t. apply trip_ret. intros tr [??]. naive_solver.
Qed.

Lemma trip_under_lease opts r : trip HO (under_lease pk opts r) (λ _, HO) HO.
Proof.
  unfold under_lease. eapply trip_bind.
  { apply (trip_load_catch HO). intros e. step_keep HO. repeat case_match; apply trip_ret; naive_solver. }
  intros [t|res]; simpl; [|apply trip_ret; naive_solver].
  destruct (decide (o_pk t = pk)) as [Hpk|]; [|intros w [_ ?]; naive_solver].
  eapply trip_conseq with (P' := HO) (Q' := λ _, HO) (E' := HO); [|naive_solver..].
  destruct (_gate t opts r); [step_keep HO; by apply trip_ret|].
  case_match.
  { eapply trip_bind; [by apply trip_provision|]. intros x. simpl. step_keep HO. by apply trip_ret. }
  case_match.
  { eapply trip_bind; [by apply trip_upgrade|]. intros x. simpl. step_keep HO. by apply trip_ret. }
  step_keep HO. by apply trip_ret.
Qed.

Lemma keeps_after_lease alias : keeps (trace_ok pk) (after_lease pk alias).
Proof.
  unfold after_lease, _shard_idle. keeps_solve. apply keeps_lease_release.
Qed.

Lemma keeps_open_log (P : tpred) opts name schema alias status :
  keeps P (_open_log opts name schema alias status).
Proof. unfold _open_log. keeps_solve. apply keeps_each, keeps_log_line. Qed.

Lemma keeps_close_log (P : tpred) res secs : keeps P (_close_log res secs).
Proof.
  unfold _close_log. keeps_step; [eauto with keeps|]. destruct a as [[path buf]|]; [|eauto with keeps].
  repeat (apply keeps_bind; [first [apply keeps_log_line|apply keeps_each, keeps_log_line]|intros ?]).
  auto with keeps.
Qed.

Lemma keeps_monotonic (P : tpred) : keeps P monotonic.
Proof. apply keeps_pure. intros w. unfold monotonic. by case_match. Qed.

Lemma keeps_noop t opts r : keeps (trace_ok pk) (noop_shortcut t opts r).
Proof. unfold noop_shortcut. keeps_solve; eauto with keeps typeclass_instances. Qed.

Lemma trip_migrate_tenant_inner opts : keeps (trace_ok pk) (_migrate_tenant pk opts).
Proof.
  unfold _migrate_tenant. eapply trip_bind.
  { apply (trip_load_catch (trace_ok pk)). intros e.
    repeat case_match; [apply trip_ret; naive_solver..|by apply trip_raise]. }
  intros [t|res]; simpl; [|apply trip_ret; naive_solver].
  destruct (decide (o_pk t = pk)) as [Hpk|]; [|intros w [_ ?]; naive_solver].
  eapply trip_conseq with (P' := trace_ok pk) (Q' := λ _, trace_ok pk) (E' := trace_ok pk);
    [|naive_solver..].
  apply keeps_bind; [apply keeps_open_log|]. intros _. case_match; [apply keeps_ret|].
  destruct (_gate _ _ _); [apply keeps_ret|].
  apply keeps_bind; [apply keeps_noop|]. intros [res|]; [apply keeps_ret|].
  apply (trip_bind _ _ _ (λ x, match x with None => HO | Some _ => trace_ok pk end)).
  { unfold take_lease. apply trip_catch with (trace_ok pk); [| |done].
    - rewrite Hpk. eapply trip_bind; [apply trip_lease_acquire|]. intros [msg|]; simpl; by apply trip_ret.
    - intros e. repeat case_match; first [by apply trip_ret|by apply trip_raise]. }
  intros [res|]; [apply keeps_ret|].
  apply (trip_bind _ _ _ (λ _, HO)); [apply trip_keeps; [auto with keeps|apply HO_OK]|]. intros _.
  rewrite Hpk. assert (trip HO (after_lease pk (o_alias t)) (λ _, trace_ok pk) (trace_ok pk)) as Hafter.
  { eapply trip_conseq; [apply keeps_after_lease|apply HO_OK|simpl; auto|done]. }
  by eapply trip_finally; [apply trip_under_lease| |].
Qed.

End safety.


Lemma keeps_migrate_tenant `{Invalidator} `{Site} `{Upstream} (pk : Z) (opts : RunOptions) :
  keeps (trace_ok pk) (migrate_tenant pk opts).
Proof.
  unfold migrate_tenant. apply keeps_bind; [apply keeps_monotonic|]. intros started w1 Hw1.
  pose proof (trip_migrate_tenant_inner pk opts w1 Hw1) as Hin.
  destruct (_migrate_tenant pk opts w1) as [[res|e] w2]; revert Hin; apply trip_of_keeps;
    keeps_solve; first [apply keeps_monotonic|apply keeps_close_log].
Qed.

(** C1: whatever other clients do between its round trips and
    whichever of them fail (before or after taking effect), everything
    [migrate_tenant] does to the servers respects the policy: it takes only a
    lease that is free or expired and releases only its own; it writes a status
    only while it holds the lease of this tenant, only along the migrator's
    transitions (a FAILED or MAINTENANCE row is never overwritten), and ACTIVE
    only after it ran the migrations on top of its own PENDING claim; schemas
    are created and migrations run only under the lease; the resolve cache is
    invalidated only after a write of ACTIVE or FAILED. *)
Theorem migrate_tenant_policy `{Invalidator} `{Site} `{Upstream} (pk : Z) (opts : RunOptions) (w : World) :
  trace_ok pk (w_trace (migrate_tenant pk opts (upd_trace (λ _, []) w)).2).
Proof.
  pose proof (keeps_migrate_tenant pk opts (upd_trace (λ _, []) w) I) as Hk.
  by destruct (migrate_tenant pk opts (upd_trace (λ _, []) w)) as [[?|?] ?].
Qed.

#[export] Hint Resolve keeps_log_line keeps_note_exc keeps_cas_lost keeps_failure
  OK_stable HO_stable WR_stable RN_stable : keeps.
