(* ===== verification/Quiet.v ===== *)
(** * Runs in a quiet environment

    When no other client interferes and no round trip fails, every program of
    the migrator has one outcome, determined by the servers, the resolve cache
    and the locals.  [runs m q r q'] is that big-step judgement; one lemma per
    operation gives its exact effect. *)
From S2P Require Import Prelude PyStr Models PyExc Logs World Lease Schema Migrator.
Open Scope tenants_scope.

Section quiet.
Context `{Invalidator} `{Site} `{Upstream}.

(** What the outcome depends on. *)
Record View := mkView {
  q_srv : Srv;
  q_cache : inv_cache;
  q_claimed : bool;
}.

Definition q_reg (q : View) : Registry := v_reg (q_srv q).
Definition q_set_reg (f : Registry → Registry) (q : View) : View :=
  mkView (set_reg f (q_srv q)) (q_cache q) (q_claimed q).
Definition q_set_srv (v : Srv) (q : View) : View := mkView v (q_cache q) (q_claimed q).

Context (alias : string).

(** The connections: outside transactions, and idle when open. *)
Definition conn_idle (c : Conn) : Prop :=
  c_in_atomic c = false
  ∧ ∀ r, c_raw c = Some r → raw_tx r = Some IDLE ∧ raw_autocommit r = true.

Record St (q : View) (w : World) : Prop := mkSt {
  st_script : w_script w = [];
  st_idle : ∀ a c, w_conns w !! a = Some c → conn_idle c;
  st_default : is_Some (w_conns w !! "default");
  st_alias : is_Some (w_conns w !! alias);
  st_srv : w_srv w = q_srv q;
  st_cache : w_cache w = q_cache q;
  st_claimed : w_claimed w = q_claimed q;
}.

Definition runs {A} (m : M A) (q : View) (r : res exn A) (q' : View) : Prop :=
  ∀ w, St q w → ∃ w', m w = (r, w') ∧ St q' w'.

(** ** Structural rules *)

Lemma runs_ret {A} (a : A) q : runs (ret a) q (Ok a) q.
Proof. intros w Hw. by exists w. Qed.

Lemma runs_raise {A} e q : runs (raise e : M A) q (Err e) q.
Proof. intros w Hw. by exists w. Qed.

Lemma runs_bind {A B} (m : M A) (k : A → M B) q a q1 r q2 :
  runs m q (Ok a) q1 → runs (k a) q1 r q2 → runs (bind m k) q r q2.
Proof.
  intros Hm Hk w Hw. destruct (Hm w Hw) as (w1 & E & Hw1). destruct (Hk w1 Hw1) as (w2 & E2 & Hw2).
  exists w2. unfold bind. by rewrite E.
Qed.

Lemma runs_bind_err {A B} (m : M A) (k : A → M B) q e q1 :
  runs m q (Err e) q1 → runs (bind m k) q (Err e) q1.
Proof. intros Hm w Hw. destruct (Hm w Hw) as (w1 & E & Hw1). exists w1. unfold bind. by rewrite E. Qed.

Lemma runs_catch_ok {A} (m : M A) h q a q1 : runs m q (Ok a) q1 → runs (catch m h) q (Ok a) q1.
Proof. intros Hm w Hw. destruct (Hm w Hw) as (w1 & E & Hw1). exists w1. unfold catch. by rewrite E. Qed.

Lemma runs_catch_err {A} (m : M A) h q e q1 a q2 :
  runs m q (Err e) q1 → is_exception e = true → runs (h e) q1 (Ok a) q2 →
  runs (catch m h) q (Ok a) q2.
Proof.
  intros Hm He Hh w Hw. destruct (Hm w Hw) as (w1 & E & Hw1). destruct (Hh w1 Hw1) as (w2 & E2 & Hw2).
  exists w2. unfold catch. by rewrite E, He, E2.
Qed.

Lemma runs_finally {A} (m : M A) f q r q1 u q2 :
  runs m q r q1 → runs f q1 (Ok u) q2 → runs (finally m f) q r q2.
Proof.
  intros Hm Hf w Hw. destruct (Hm w Hw) as (w1 & E & Hw1). destruct (Hf w1 Hw1) as (w2 & E2 & Hw2).
  exists w2. unfold finally. by rewrite E, E2.
Qed.

(** A change of the world that the view does not see. *)
Lemma runs_silent f q : (∀ w, St q w → St q (f w)) → runs (modify f) q (Ok tt) q.
Proof. intros Hf w Hw. exists (f w). auto. Qed.

Lemma runs_set_side s q : runs (set_side s) q (Ok tt) q.
Proof. apply runs_silent. intros w []. by split. Qed.

Lemma runs_set_finished b q : runs (modify (upd_finished b)) q (Ok tt) q.
Proof. apply runs_silent. intros w []. by split. Qed.

Lemma runs_set_claimed b q : runs (modify (upd_claimed b)) q (Ok tt) (mkView (q_srv q) (q_cache q) b).
Proof. intros w []. eexists. split; [done|]. by split. Qed.

Lemma runs_log_action a q : runs (log_action a) q (Ok tt) q.
Proof. apply runs_silent. intros w []. by split. Qed.

(** ** Connections *)

Lemma st_set_conn q w a f :
  St q w → (∀ c, w_conns w !! a = Some c → conn_idle (f c)) → St q (upd_conns (alter f a) w).
Proof.
  intros [] Hf. split; simpl; try done.
  - intros a' c. destruct (decide (a' = a)) as [->|Hne].
    + rewrite lookup_alter_eq. destruct (w_conns w !! a) eqn:E; intros; simplify_eq/=. by apply Hf.
    + rewrite lookup_alter_ne by done. eauto.
  - destruct (decide (a = "default")) as [->|]; [rewrite lookup_alter_eq|by rewrite lookup_alter_ne].
    destruct st_default0 as [? ->]. by eexists.
  - destruct (decide (a = alias)) as [->|]; [rewrite lookup_alter_eq|by rewrite lookup_alter_ne].
    destruct st_alias0 as [? ->]. by eexists.
Qed.

Definition known (a : string) : Prop := a = "default" ∨ a = alias.

Lemma st_known q w a : St q w → known a → ∃ c, w_conns w !! a = Some c ∧ conn_idle c.
Proof. intros [] [->| ->]; [destruct st_default0 as [c E]|destruct st_alias0 as [c E]]; eauto. Qed.

Lemma runs_connection q a : known a → ∀ w, St q w → ∃ c, connection a w = (Ok c, w) ∧ conn_idle c.
Proof.
  intros Ha w Hw. destruct (st_known _ _ _ Hw Ha) as (c & E & Hc). exists c. unfold connection. by rewrite E.
Qed.

Lemma runs_set_raw q a f :
  (∀ r, raw_tx (f r) = raw_tx r ∨ raw_tx (f r) = Some IDLE) → (∀ r, raw_autocommit (f r) = raw_autocommit r) →
  runs (set_raw a f) q (Ok tt) q.
Proof.
  intros Htx Hac w Hw. eexists. split; [done|]. apply st_set_conn; [done|]. intros c Hc.
  destruct (st_idle _ _ Hw _ _ Hc) as [Hat Hr]. split; [done|]. simpl. intros r' E.
  destruct (c_raw c) as [r|]; simplify_eq/=. destruct (Hr r eq_refl) as [Ht Ha].
  rewrite Hac. split; [|done]. destruct (Htx r) as [-> | ->]; done.
Qed.

Lemma runs_set_schema_raw q a s b : runs (set_conn a (with_schema s b)) q (Ok tt) q.
Proof.
  intros w Hw. eexists. split; [done|]. apply st_set_conn; [done|]. intros c Hc.
  apply (st_idle _ _ Hw _ _ Hc).
Qed.

Lemma st_trace q w f : St q w → St q (upd_trace f w).
Proof. intros []. by split. Qed.

Lemma runs_close q a : known a → runs (close a) q (Ok tt) q.
Proof.
  intros Ha w Hw. destruct (runs_connection q a Ha w Hw) as (c & E & Hc). unfold close, bind. rewrite E.
  assert (∀ w', St q w' → St q (upd_conns (alter (with_raw None) a) w')) as Hset.
  { intros w' Hw'. apply st_set_conn; [done|]. intros c' Hc'. split; [|done].
    by destruct (st_idle _ _ Hw' _ _ Hc'). }
  destruct (c_raw c) as [r|]; simpl; eexists; (split; [done|]); apply Hset; [by apply st_trace|done].
Qed.

(** One round trip and one query: the statement's effect, its answer. *)
Definition effect {A} (f : Srv → res exn A * Srv * list Action) (q : View) : res exn A := (f (q_srv q)).1.1.
Definition after {A} (f : Srv → res exn A * Srv * list Action) (q : View) : View :=
  q_set_srv (f (q_srv q)).1.2 q.

Lemma st_set_tx q w a tx :
  St q w → (∀ r, raw_autocommit r = true → tx r = Some IDLE) →
  St q (upd_conns (alter (λ c, with_raw ((λ r, raw_set_tx (tx r) r) <$> c_raw c) c) a) w).
Proof.
  intros Hw Htx. apply st_set_conn; [done|]. intros c Hc. destruct (st_idle _ _ Hw _ _ Hc) as [Hat Hr].
  split; [done|]. simpl. intros r' E. destruct (c_raw c) as [r|]; simplify_eq/=.
  destruct (Hr r eq_refl) as [Ht Ha]. auto.
Qed.

Lemma runs_round_trip {A} a (f : Srv → res exn A * Srv * list Action) q :
  runs (round_trip a f) q (effect f q) (after f q).
Proof.
  intros w Hw. pose proof Hw as []. unfold round_trip, next_event, bind at 1, effect, after. rewrite st_script0.
  rewrite st_srv0. destruct (f (q_srv q)) as [[r v] acts] eqn:Hf. simpl.
  assert (St (q_set_srv v q) (upd_trace (app acts) (upd_srv (λ _, v) w))) as Hw' by (by split).
  destruct r as [x|e]; (eexists; split; [done|]); apply st_set_tx; auto.
  - intros r Hr. unfold tx_after. by rewrite Hr.
  - intros r Hr. by rewrite Hr.
Qed.

Lemma runs_ensure q a : known a → runs (ensure_connection a) q (Ok tt) q.
Proof.
  intros Ha w Hw. destruct (runs_connection q a Ha w Hw) as (c & E & Hc).
  unfold ensure_connection, bind at 1. rewrite E. destruct (c_raw c) as [r|]; [by exists w|].
  unfold next_event, bind. rewrite (st_script _ _ Hw). eexists. split; [done|].
  apply st_set_conn; [done|]. intros c' Hc'. destruct (st_idle _ _ Hw _ _ Hc') as [Hat _].
  destruct Hc as [Hat' _]. split; [done|]. simpl. intros r' [= <-]. rewrite Hat'. done.
Qed.

Lemma runs_query {A} a (f : Srv → res exn A * Srv * list Action) q :
  known a → runs (query a f) q (effect f q) (after f q).
Proof. intros Ha. eapply runs_bind; [by apply runs_ensure|apply runs_round_trip]. Qed.

Lemma runs_select {A} a (f : Srv → A) q : known a → runs (select a f) q (Ok (f (q_srv q))) q.
Proof. intros Ha. destruct q. by apply (runs_query a (λ v, (Ok (f v), v, []))). Qed.

Lemma runs_nop q a : known a → runs (query a (λ v, (Ok tt, v, []))) q (Ok tt) q.
Proof. intros Ha. destruct q. by apply (runs_query a (λ v, (Ok tt, v, []))). Qed.

Lemma runs_rt_nop q a : runs (round_trip a (λ v, (Ok tt, v, []))) q (Ok tt) q.
Proof. destruct q. apply (runs_round_trip a (λ v, (Ok tt, v, []))). Qed.

Lemma known_default : known "default".
Proof. by left. Qed.
Lemma known_alias : known alias.
Proof. by right. Qed.
#[local] Hint Resolve known_default known_alias : core.

Lemma runs_if_idle q a (m1 m2 : M unit) r q' :
  known a → runs m2 q r q' →
  runs (c <-! connection a ;; if c_in_atomic c then m1 else m2) q r q'.
Proof.
  intros Ha Hm w Hw. destruct (runs_connection q a Ha w Hw) as (c & E & [Hc _]).
  unfold bind. rewrite E, Hc. by apply Hm.
Qed.

Lemma runs_fresh q : runs _fresh q (Ok tt) q.
Proof. apply runs_if_idle; [done|]. by apply runs_close. Qed.

Lemma runs_open_shard q key : runs (_open_shard alias key) q (Ok tt) q.
Proof.
  unfold _open_shard. eapply runs_bind; [by apply runs_ensure|]. eapply runs_bind; [by apply runs_nop|].
  apply runs_set_raw; [by left|done].
Qed.

Lemma runs_close_shard q a : known a → runs (_close_shard a) q (Ok tt) q.
Proof.
  intros Ha w Hw. destruct (runs_connection q a Ha w Hw) as (c & E & [Hc Hr]).
  unfold _close_shard, bind at 1. rewrite E, Hc. revert w Hw E.
  assert (runs ((_reset_session a (c_raw c) ;;; close a) ;;; set_schema_to_public a) q (Ok tt) q) as Hruns.
  { eapply runs_bind; [|apply runs_set_schema_raw]. eapply runs_bind; [|by apply runs_close].
    destruct (c_raw c) as [r|]; [|apply runs_ret]. destruct (Hr r eq_refl) as [Ht Hau].
    unfold _reset_session. rewrite Ht, Hau. apply runs_catch_ok.
    eapply runs_bind; [apply runs_ret|]. eapply runs_bind; [apply runs_ret|].
    rewrite bool_decide_true by done.
    eapply runs_bind; [apply runs_rt_nop|].
    eapply runs_bind; [apply runs_ret|]. apply runs_set_raw; [by left|done]. }
  intros w Hw _. by apply Hruns.
Qed.

Lemma runs_idle q a : known a → runs (_shard_idle a) q (Ok true) q.
Proof.
  intros Ha w Hw. destruct (runs_connection q a Ha w Hw) as (c & E & [Hc Hr]).
  unfold _shard_idle, bind. rewrite E. exists w. split; [|done].
  destruct (c_raw c) as [r|]; [|done]. by destruct (Hr r eq_refl) as [-> _].
Qed.

(** ** Operations *)

Lemma runs_gets_claimed q : runs (gets w_claimed) q (Ok (q_claimed q)) q.
Proof. intros w Hw. exists w. unfold gets. by rewrite (st_claimed _ _ Hw). Qed.

(** Reading a local the view does not have: any continuation that does not
    depend on it. *)
Lemma runs_gets_any {A B} (f : World → A) (k : A → M B) q r q' :
  (∀ a, runs (k a) q r q') → runs (bind (gets f) k) q r q'.
Proof. intros Hk w Hw. unfold bind, gets. by apply Hk. Qed.

Lemma runs_load q pk t :
  get_tenant (q_reg q) pk = Some t → runs (_load pk) q (Ok t) q.
Proof.
  intros Ht. unfold _load. eapply runs_bind; [apply runs_fresh|].
  pose proof (runs_query "default" (λ v,
    (match get_tenant (v_reg v) pk with Some t => Ok t | None => Err does_not_exist end, v, [])) q
    known_default) as Hq. unfold effect, after in Hq. simpl in Hq. unfold q_reg in Ht. rewrite Ht in Hq.
  by destruct q.
Qed.

Lemma runs_load_missing q pk :
  get_tenant (q_reg q) pk = None → runs (_load pk) q (Err does_not_exist) q.
Proof.
  intros Ht. unfold _load. eapply runs_bind; [apply runs_fresh|].
  pose proof (runs_query "default" (λ v,
    (match get_tenant (v_reg v) pk with Some t => Ok t | None => Err does_not_exist end, v, [])) q
    known_default) as Hq. unfold effect, after in Hq. simpl in Hq. unfold q_reg in Ht. rewrite Ht in Hq.
  by destruct q.
Qed.

Lemma runs_fenced_cas q pk expected new prev err :
  let '(n, g) := fenced_update pk expected new prev err me (q_reg q) in
  runs (_fenced_cas pk expected new prev err) q (Ok n) (q_set_reg (λ _, g) q).
Proof.
  pose proof (runs_query "default" (cas_stmt pk expected new prev err) q known_default) as Hq.
  unfold effect, after, cas_stmt, q_reg in *.
  destruct (fenced_update pk expected new prev err me (v_reg (q_srv q))) as [n g].
  eapply runs_bind; [apply runs_fresh|]. apply Hq.
Qed.

Lemma runs_lease_release q pk :
  let '(ok, g) := lease_free pk me (q_reg q) in
  runs (lease_release pk) q (Ok ok) (q_set_reg (λ _, g) q).
Proof.
  pose proof (runs_query "default" (free_stmt pk me) q known_default) as Hq.
  unfold effect, after, free_stmt, q_reg in *.
  destruct (lease_free pk me (v_reg (q_srv q))) as [n g].
  eapply runs_bind; [apply runs_fresh|]. apply Hq.
Qed.

Lemma runs_session_active q a key :
  known a → runs (shard_session_active a key) q (Ok (session_active key (db_of a (q_srv q)))) q.
Proof. intros Ha. eapply runs_bind; [by apply runs_nop|]. by apply (runs_select a). Qed.

Lemma runs_lease_holder q key :
  runs (lease_holder key) q (Ok (l ← g_leases (q_reg q) !! key; holder_row (q_reg q) l)) q.
Proof. eapply runs_bind; [apply runs_fresh|]. by apply (runs_select "default"). Qed.

(** A free or expired lease is taken. *)
Lemma runs_lease_acquire_won q key :
  session_active key (db_of alias (q_srv q)) = None →
  (lease_upsert key me (q_reg q)).1 = true →
  runs (lease_acquire key alias) q (Ok None) (q_set_reg (λ _, (lease_upsert key me (q_reg q)).2) q).
Proof.
  intros Hs Hw. unfold lease_acquire. eapply runs_bind; [apply runs_fresh|].
  eapply runs_bind; [apply runs_catch_ok, runs_session_active; done|]. rewrite Hs.
  eapply runs_bind; [apply runs_fresh|].
  pose proof (runs_query "default" (upsert_stmt key) q known_default) as Hq.
  unfold effect, after, upsert_stmt, q_reg in *.
  destruct (lease_upsert key me (v_reg (q_srv q))) as [won g]. simpl in Hw; subst won.
  eapply runs_bind; [apply Hq|]. apply runs_ret.
Qed.

(** A live lease is not. *)
Lemma runs_lease_acquire_lost q key l o since :
  session_active key (db_of alias (q_srv q)) = None →
  g_leases (q_reg q) !! key = Some l → ls_owner l = Some o → ls_since l = Some since →
  lease_expired (q_reg q) l = false →
  runs (lease_acquire key alias) q (Ok (Some ("locked by " +:+ o +:+ " since " +:+ fmt_time since))) q.
Proof.
  intros Hs Hl Ho Hsi He. unfold lease_acquire. eapply runs_bind; [apply runs_fresh|].
  eapply runs_bind; [apply runs_catch_ok, runs_session_active; done|]. rewrite Hs.
  eapply runs_bind; [apply runs_fresh|].
  assert (runs (query "default" (upsert_stmt key)) q (Ok false) q) as Hq.
  { pose proof (runs_query "default" (upsert_stmt key) q known_default) as Hq.
    unfold effect, after, upsert_stmt, lease_upsert, q_reg in *. rewrite Hl, Ho, He in Hq. simpl in Hq.
    destruct q as [[] ? ?]. apply Hq. }
  eapply runs_bind; [apply Hq|]. eapply runs_bind; [apply runs_lease_holder|]. rewrite Hl. simpl.
  unfold holder_row. rewrite Ho. simpl. rewrite Hsi. eapply runs_bind; apply runs_ret.
Qed.

Lemma runs_code_older q :
  runs code_older_than_db q
    (Ok (older_than_db up_disk up_migrated_apps (applied_dict (g_applied (q_reg q))))) q.
Proof.
  eapply runs_bind; [apply runs_fresh|]. eapply runs_bind; [apply runs_set_schema_raw|].
  eapply runs_bind; [by apply (runs_select "default")|]. apply runs_ret.
Qed.

Lemma runs_relations q schema :
  runs (schema_has_relations alias schema) q
    (Ok (match db_schemas (db_of alias (q_srv q)) !! schema with
         | Some s => (0 <? sc_relations s)%nat | None => false end)) q.
Proof. by apply (runs_select alias). Qed.

Lemma runs_invalid_indexes q schema :
  runs (invalid_indexes alias schema) q
    (Ok (match db_schemas (db_of alias (q_srv q)) !! schema with
         | Some s => sc_invalid s | None => [] end)) q.
Proof. apply runs_catch_ok. by apply (runs_select alias). Qed.

(** The plan as the servers determine it. *)
Definition plan_of (db : ShardDb) (schema : string) : option (list Mig) :=
  if up_schema_exists db schema then Some (forward_plan (up_plan db schema)) else None.

Lemma runs_set_schema_plan q schema :
  runs (set_schema alias schema false ;;; executor_plan alias) q
    (Ok (forward_plan (up_plan (db_of alias (q_srv q)) schema))) q.
Proof.
  intros w Hw. destruct (runs_connection q alias known_alias w Hw) as (c & E & Hc).
  unfold set_schema, bind at 1 2. rewrite E. simpl.
  destruct (runs_set_schema_raw q alias schema false w Hw) as (w1 & E1 & Hw1).
  unfold set_conn, modify in E1. injection E1 as <-.
  unfold executor_plan, bind at 1, connection. simpl. rewrite lookup_alter_eq.
  unfold connection in E. destruct (w_conns w !! alias) as [c'|] eqn:Ec; [|done]. simpl.
  set (sel := select alias _). pose proof (runs_select alias (λ v, up_plan (db_of alias v) schema) q known_alias) as Hs.
  destruct (Hs _ Hw1) as (w2 & E2 & Hw2). unfold bind. subst sel. simpl. rewrite E2. by exists w2.
Qed.

Lemma runs_pending_plan q t :
  o_alias t = alias →
  runs (pending_plan t) q (Ok (plan_of (db_of alias (q_srv q)) (o_schema t))) q.
Proof.
  intros Ha. unfold pending_plan, plan_of. rewrite Ha. eapply runs_bind; [by apply (runs_select alias)|].
  simpl. destruct (up_schema_exists _ _); simpl; [|apply runs_ret].
  eapply runs_finally; [|by apply runs_close_shard].
  intros w Hw. destruct (runs_set_schema_plan q (o_schema t) w Hw) as (w' & E & Hw'). exists w'.
  split; [|done]. unfold bind in *. by repeat case_match; simplify_eq/=.
Qed.

Lemma runs_each {A} (f : A → M unit) l q : (∀ x, runs (f x) q (Ok tt) q) → runs (each f l) q (Ok tt) q.
Proof. intros Hf. induction l; simpl; [apply runs_ret|]. by eapply runs_bind. Qed.

Lemma runs_log_line q text : runs (log_line text) q (Ok tt) q.
Proof.
  intros w Hw. unfold log_line. destruct (w_log w) as [[path buf]|]; eexists; (split; [done|]); [|done].
  destruct Hw. by split.
Qed.

Lemma runs_open_log q opts name schema a status : runs (_open_log opts name schema a status) q (Ok tt) q.
Proof.
  unfold _open_log. destruct (log_dir opts); [|apply runs_ret].
  eapply runs_bind; [apply runs_silent; intros w []; by split|].
  eapply runs_bind; [apply runs_silent; intros w []; by split|]. apply runs_each, runs_log_line.
Qed.

Lemma runs_close_log q res secs : runs (_close_log res secs) q (Ok tt) q.
Proof.
  apply runs_gets_any. intros [[path buf]|]; [|apply runs_ret].
  eapply runs_bind; [apply runs_each, runs_log_line|]. eapply runs_bind; [apply runs_log_line|].
  eapply runs_bind; [apply runs_log_line|]. apply runs_silent; intros w []; by split.
Qed.

Lemma runs_note_exc q e : runs (_note_exc e) q (Ok tt) q.
Proof. apply runs_each, runs_log_line. Qed.

Lemma runs_monotonic q : ∀ w, St q w → ∃ t w', monotonic w = (Ok t, w') ∧ St q w'.
Proof.
  intros w Hw. unfold monotonic. destruct (w_clock w) as [|t c]; eexists _, _; (split; [done|]); [done|].
  destruct Hw. by split.
Qed.

(** The servers after [CREATE SCHEMA IF NOT EXISTS]. *)
Definition created (schema : string) (v : Srv) : Srv :=
  set_db alias (λ db, mkShardDb (match db_schemas db !! schema with
                                 | Some _ => db_schemas db
                                 | None => <[schema := mkSchema [] 0 0 []]> (db_schemas db)
                                 end) (db_sessions db) (db_now db)) v.

Lemma runs_create_schema q schema x :
  Validators.quote_schema schema = Ok x →
  runs (create_schema alias schema) q (Ok tt) (q_set_srv (created schema (q_srv q)) q).
Proof.
  intros Hx. eapply runs_bind; [by apply runs_ensure|]. eapply runs_bind.
  { unfold quote_schema_m. rewrite Hx. apply runs_ret. }
  eapply (runs_query alias (λ v, (Ok tt, created schema v, [ACreateSchema alias schema]))). done.
Qed.

Definition migrated (options : gmap string PyVal) (schema : string) (v : Srv) : Srv :=
  set_db alias (λ _, ro_db (up_run options schema (db_of alias v))) v.

Definition run_result (o : RunOut) : res exn unit :=
  match ro_exc o with Some e => Err e | None => Ok tt end.

Lemma runs_run_migrations q options schema :
  runs (run_migrations alias options schema) q
    (run_result (up_run options schema (db_of alias (q_srv q))))
    (q_set_srv (migrated options schema (q_srv q)) q).
Proof.
  unfold run_migrations, run_result, migrated.
  eapply runs_bind.
  { eapply (runs_query alias (λ v, (Ok (up_run options schema (db_of alias v)),
      set_db alias (λ _, ro_db (up_run options schema (db_of alias v))) v, [ARun alias schema]))). done. }
  simpl. eapply runs_bind; [apply runs_set_schema_raw|]. eapply runs_bind.
  { intros w Hw. unfold tee_output. destruct (w_log w) as [[path buf]|]; [|by exists w].
    destruct (tee_write buf _). eexists. split; [done|]. destruct Hw. by split. }
  destruct (ro_exc _); [apply runs_raise|apply runs_ret].
Qed.

(** The cache after [_forget t]. *)
Definition forgotten (t : TenantObj) (q : View) : View :=
  mkView (q_srv q) (inv_forget (tenant_hosts (q_reg q) (o_pk t)) (o_schema t) (q_cache q)) (q_claimed q).

Lemma runs_forget_tenant q t : runs (forget_tenant t) q (Ok tt) (forgotten t q).
Proof.
  unfold forget_tenant. eapply runs_bind; [by apply (runs_select "default")|]. intros w Hw.
  destruct (runs_connection q "default" known_default w Hw) as (c & E & [Hc _]).
  unfold bind at 1. rewrite E, Hc. eexists. split; [done|]. destruct Hw. split; simpl; try done.
  by rewrite st_cache0.
Qed.

Lemma runs_forget q t : runs (_forget t) q (Ok tt) (forgotten t q).
Proof. eapply runs_bind; [apply runs_fresh|apply runs_forget_tenant]. Qed.

Lemma runs_failure q e schema r :
  runs (_failure e alias schema r) q
    (Ok (with_details (exc_msg e)
           (match db_schemas (db_of alias (q_srv q)) !! schema with Some s => sc_invalid s | None => [] end)
           (r KFailed (failure_reason e) (exc_msg e)))) q.
Proof.
  eapply runs_bind; [by apply runs_close_shard|]. eapply runs_bind; [apply runs_invalid_indexes|].
  apply runs_ret.
Qed.

(** The lease step and the release around a body. *)
Lemma runs_after_lease q pk :
  runs (after_lease pk alias) q (Ok tt) (q_set_reg (λ _, (lease_free pk me (q_reg q)).2) q).
Proof.
  unfold after_lease. eapply runs_bind; [by apply runs_idle|]. eapply runs_bind; [by apply runs_close_shard|].
  apply runs_gets_any. intros fin. rewrite orb_true_r. apply runs_catch_ok.
  pose proof (runs_lease_release q pk) as Hr. destruct (lease_free pk me (q_reg q)) as [ok g].
  eapply runs_bind; [apply Hr|]. apply runs_ret.
Qed.

(** The wrapper only adds the duration. *)
Lemma migrate_tenant_runs pk opts q res q' :
  runs (_migrate_tenant pk opts) q (Ok res) q' →
  ∀ w, St q w → ∃ secs w', migrate_tenant pk opts w = (Ok (with_secs secs res), w') ∧ St q' w'.
Proof.
  intros Hm w Hw. destruct (runs_monotonic q w Hw) as (t0 & w0 & E0 & Hw0).
  destruct (Hm w0 Hw0) as (w1 & E1 & Hw1). destruct (runs_monotonic q' w1 Hw1) as (t1 & w2 & E2 & Hw2).
  destruct (runs_monotonic q' w2 Hw2) as (t2 & w3 & E3 & Hw3).
  destruct (runs_close_log q' (Some (with_secs (t1 - t0) res)) (t2 - t0)%Z w3 Hw3) as (w4 & E4 & Hw4).
  exists (t1 - t0)%Z, w4. split; [|done].
  unfold migrate_tenant, bind. by rewrite E0, E1, E2, E3, E4.
Qed.

End quiet.
