(* ===== verification/MigratorRun.v ===== *)
(** * What a migrator run achieves

    The outcome of [migrate_tenant] in a quiet environment, branch by branch:
    provisioning, a failing migration, a foreign schema, upgrades, a missing
    schema, a busy lease. *)
From S2P Require Import Prelude PyStr Validators Models PyExc Logs World Lease Schema Migrator Quiet.
Open Scope tenants_scope.

Section run.
Context `{Invalidator} `{Site} `{Upstream}.

(** [mk t] is the closure [r] of [_migrate_tenant]. *)
Definition mk (t : TenantObj) (k : Kind) (reason : Reason) (msg : string) : Result :=
  result k (o_schema t) (o_alias t) reason msg.

(** The registry with the lease of [pk] taken by this process. *)
Definition leased (pk : Z) (g : Registry) : Registry :=
  set_leases (<[pk := mkLease (Some me) (Some (g_now g)) (Some (g_now g + LEASE_TTL)%Z)]>) g.

(** The lease can be taken: no busy backend, and it is free or expired. *)
Definition available (pk : Z) (alias : string) (v : Srv) : Prop :=
  session_active pk (db_of alias v) = None
  ∧ match g_leases (v_reg v) !! pk with
    | None => True
    | Some l => ls_owner l = None ∨ lease_expired (v_reg v) l = true
    end.

Lemma available_upsert pk alias v :
  available pk alias v → lease_upsert pk me (v_reg v) = (true, leased pk (v_reg v)).
Proof.
  intros [_ Hl]. unfold lease_upsert. destruct (g_leases (v_reg v) !! pk) as [l|]; [|done].
  destruct Hl as [-> | ->]; simpl; [done|]. by rewrite orb_true_r.
Qed.

Lemma leased_mine pk g : lease_mine pk me (leased pk g) = true.
Proof. unfold lease_mine, leased. simpl. rewrite lookup_insert_eq. by rewrite bool_decide_true. Qed.

Lemma get_tenant_pk g pk t : get_tenant g pk = Some t → o_pk t = pk ∧ g_tenants g !! pk = Some (o_tenant t).
Proof.
  unfold get_tenant. destruct (g_tenants g !! pk) as [u|] eqn:E; simpl; [|done].
  destruct (g_shards g !! t_shard_id u); simpl; [|done]. by intros [= <-].
Qed.

(** A fenced CAS that matches. *)
Definition wrote (pk : Z) (new prev : Status) (err : string) (g : Registry) : Registry :=
  set_tenants (alter (with_status new prev (g_now g) (Some err)) pk) g.

Lemma fenced_update_hit pk expected new prev err g t :
  g_tenants g !! pk = Some t → t_status t ∈ expected → lease_mine pk me g = true →
  fenced_update pk expected new prev err me g = (1, wrote pk new prev err g).
Proof.
  intros Ht Hin Hm. unfold fenced_update, wrote. rewrite Ht, Hm, (proj2 (mem_spec _ _) Hin). simpl.
  f_equal. unfold set_tenants. f_equal. apply map_eq. intros k. destruct (decide (k = pk)) as [->|Hne].
  - by rewrite lookup_insert_eq, lookup_alter_eq, Ht.
  - by rewrite lookup_insert_ne, lookup_alter_ne.
Qed.

Lemma runs_cas_hit alias q pk expected new prev err t :
  g_tenants (q_reg q) !! pk = Some t → t_status t ∈ expected → lease_mine pk me (q_reg q) = true →
  runs alias (_fenced_cas pk expected new prev err) q (Ok 1) (q_set_reg (wrote pk new prev err) q).
Proof.
  intros Ht Hin Hm. pose proof (runs_fenced_cas alias q pk expected new prev err) as Hr.
  by rewrite (fenced_update_hit _ _ _ _ _ _ _ Ht Hin Hm) in Hr.
Qed.

Lemma wrote_lookup pk new prev err g t :
  g_tenants g !! pk = Some t →
  g_tenants (wrote pk new prev err g) !! pk = Some (with_status new prev (g_now g) (Some err) t).
Proof. intros Ht. simpl. by rewrite lookup_alter_eq, Ht. Qed.

(** ** Up to the lease *)

Lemma runs_to_lease pk opts q t res q2 :
  let alias := o_alias t in
  get_tenant (q_reg q) pk = Some t →
  sh_is_default (o_shard t) = false →
  _gate t opts (mk t) = None →
  (_upgradable t opts && negb (targeted opts) = true →
     plan_of (db_of alias (q_srv q)) (o_schema t) ≠ Some []) →
  available pk alias (q_srv q) →
  runs alias (under_lease pk opts (mk t)) (q_set_reg (leased pk) q) (Ok res) q2 →
  runs alias (_migrate_tenant pk opts) q (Ok res) (q_set_reg (λ g, (lease_free pk me g).2) q2).
Proof.
  intros alias Ht Hd Hg Hn Hav Hu. destruct (get_tenant_pk _ _ _ Ht) as [Hpk _].
  unfold _migrate_tenant. eapply runs_bind.
  { apply runs_catch_ok. eapply runs_bind; [by apply runs_load|apply runs_ret]. }
  simpl. eapply runs_bind; [apply runs_open_log|]. rewrite Hd. fold alias. change (λ k r m, result k _ _ r m) with (mk t).
  rewrite Hg. eapply runs_bind with (a := None) (q1 := q).
  { unfold noop_shortcut. destruct (_upgradable t opts && negb (targeted opts)); [|apply runs_ret].
    apply runs_catch_ok. eapply runs_bind; [by apply runs_pending_plan|].
    rewrite bool_decide_false by auto. apply runs_ret. }
  destruct Hav as [Hidle Hfree].
  pose proof (available_upsert pk alias (q_srv q) (conj Hidle Hfree)) as Hup.
  eapply runs_bind.
  { apply runs_catch_ok. rewrite Hpk. eapply runs_bind; [|apply runs_ret].
    pose proof (runs_lease_acquire_won alias q pk Hidle) as Hw. unfold q_reg in Hw. rewrite Hup in Hw.
    by apply Hw. }
  eapply runs_bind; [apply runs_set_finished|]. rewrite Hpk.
  eapply runs_finally; [apply Hu|]. apply runs_after_lease.
Qed.

Lemma runs_under_load alias pk opts q t r res q2 :
  get_tenant (q_reg q) pk = Some t → _gate t opts r = None →
  (mem (o_status t) PROVISIONABLE = true → runs alias (_provision t opts r) q (Ok res) q2) →
  (mem (o_status t) PROVISIONABLE = false → _upgradable t opts = true ∧ runs alias (_upgrade t opts r) q (Ok res) q2) →
  runs alias (under_lease pk opts r) q (Ok res) q2.
Proof.
  intros Ht Hg Hp Hu. unfold under_lease. eapply runs_bind.
  { apply runs_catch_ok. eapply runs_bind; [by apply runs_load|apply runs_ret]. }
  simpl. rewrite Hg. destruct (mem (o_status t) PROVISIONABLE).
  - eapply runs_bind; [by apply Hp|]. eapply runs_bind; [apply runs_set_finished|apply runs_ret].
  - destruct (Hu eq_refl) as [-> Hr]. eapply runs_bind; [apply Hr|].
    eapply runs_bind; [apply runs_set_finished|apply runs_ret].
Qed.

(** ** Provisioning *)

(** The servers when the migrations start: the tenant is claimed and its schema
    exists. *)
Definition claimed_srv (pk : Z) (t : TenantObj) (v : Srv) : Srv :=
  created (o_alias t) (o_schema t) (set_reg (wrote pk PENDING NEW "") v).

(** This code is not older than the one that migrated [public]. *)
Definition code_current (g : Registry) : Prop :=
  older_than_db up_disk up_migrated_apps (applied_dict (g_applied g)) = false.

Lemma runs_code_current alias q :
  code_current (q_reg q) → runs alias code_older_than_db q (Ok false) q.
Proof. intros Hc. pose proof (runs_code_older alias q) as Hr. by rewrite Hc in Hr. Qed.

(** M4: a NEW tenant (not reset from FAILED by an operator) has no relations. *)
Definition not_foreign (t : TenantObj) (v : Srv) : Prop :=
  o_status t = NEW → t_previous_status (o_tenant t) ≠ FAILED →
  match db_schemas (db_of (o_alias t) v) !! o_schema t with
  | Some s => sc_relations s = 0 | None => True end.

Lemma runs_provision_body q t opts r x q4 :
  let alias := o_alias t in
  g_tenants (q_reg q) !! o_pk t = Some (o_tenant t) →
  o_status t ∈ PROVISIONABLE →
  lease_mine (o_pk t) me (q_reg q) = true →
  code_current (q_reg q) → not_foreign t (q_srv q) → is_ok (quote_schema (o_schema t)) = true →
  runs alias (provision_finish t opts r) (mkView (claimed_srv (o_pk t) t (q_srv q)) (q_cache q) true) x q4 →
  runs alias (provision_body t opts r) q x q4.
Proof.
  intros alias Ht Hst Hm Hcode Hfor Hq Hfin. unfold provision_body.
  eapply runs_bind; [by apply runs_code_current|].
  eapply runs_bind; [apply runs_set_side|].
  eapply runs_bind with (a := false) (q1 := q).
  { case_bool_decide as Hn; [|apply runs_ret]. destruct Hn as [Hn Hp]. specialize (Hfor Hn Hp).
    pose proof (runs_relations alias q (o_schema t)) as Hr. fold alias in Hfor |- *.
    destruct (db_schemas _ !! _) as [s|]; [|done]. by rewrite Hfor in Hr. }
  eapply runs_bind; [apply runs_set_side|].
  eapply runs_bind; [by eapply runs_cas_hit|]. simpl.
  eapply runs_bind; [apply runs_set_claimed|]. eapply runs_bind; [apply runs_set_side|].
  destruct (quote_schema (o_schema t)) as [sql|] eqn:Eq; [|done].
  eapply runs_bind; [by eapply runs_create_schema|].
  eapply runs_bind; [apply runs_open_shard|]. apply Hfin.
Qed.

Lemma db_of_set_db alias f v : db_of alias (set_db alias f v) = f (db_of alias v).
Proof. unfold db_of, set_db. simpl. by rewrite lookup_insert_eq. Qed.

Lemma with_status_twice n1 p1 e1 n2 p2 e2 now t :
  with_status n2 p2 now (Some e2) (with_status n1 p1 now (Some e1) t) = with_status n2 p2 now (Some e2) t.
Proof. done. Qed.

(** The outcome of upstream's run from the claimed state. *)
Definition provision_out (pk : Z) (t : TenantObj) (opts : RunOptions) (v : Srv) : RunOut :=
  up_run (_upstream_options opts (o_alias t)) (o_schema t) (db_of (o_alias t) (claimed_srv pk t v)).

Lemma runs_finish_ok q t opts r :
  let alias := o_alias t in
  let v3 := claimed_srv (o_pk t) t (q_srv q) in
  let out := provision_out (o_pk t) t opts (q_srv q) in
  let q4 := mkView (migrated alias (_upstream_options opts alias) (o_schema t) v3) (q_cache q) true in
  g_tenants (q_reg q) !! o_pk t = Some (o_tenant t) →
  lease_mine (o_pk t) me (q_reg q) = true → code_current (q_reg q) →
  ro_exc out = None → plan_of (ro_db out) (o_schema t) = Some [] →
  runs alias (provision_finish t opts r) (mkView v3 (q_cache q) true)
    (Ok (if bool_decide (o_status t = PENDING) then r KOk RESUMED "provisioned (RESUMED)"
         else r KOk APPLIED "provisioned"))
    (forgotten t (q_set_reg (wrote (o_pk t) ACTIVE PENDING "") q4)).
Proof.
  intros alias v3 out q4 Ht Hm Hcode Hexc Hplan. unfold provision_finish.
  eapply runs_bind with (a := ()) (q1 := q4).
  { pose proof (runs_run_migrations alias (mkView v3 (q_cache q) true) (_upstream_options opts alias) (o_schema t)) as Hr.
    unfold run_result in Hr. change (up_run _ _ _) with out in Hr. rewrite Hexc in Hr. apply Hr. }
  eapply runs_bind; [by apply runs_pending_plan|]. simpl. unfold migrated. rewrite db_of_set_db.
  change (up_run _ _ _) with out. rewrite Hplan.
  eapply runs_bind; [apply runs_ret|]. eapply runs_bind; [apply runs_set_side|].
  eapply runs_bind; [by apply runs_code_current|]. unfold q_reg in *.
  eapply runs_bind; [eapply runs_cas_hit|].
  - simpl. by rewrite lookup_alter_eq, Ht.
  - apply list_elem_of_singleton. done.
  - done.
  - simpl. eapply runs_bind; [apply runs_forget|]. apply runs_ret.
Qed.

Lemma free_mine pk g :
  lease_mine pk me g = true → (lease_free pk me g).2 = set_leases (<[pk := mkLease None None None]>) g.
Proof. unfold lease_mine, lease_free. destruct (g_leases g !! pk); [|done]. by intros ->. Qed.

(** What must hold for a tenant to be provisioned. *)
Record Provisionable (pk : Z) (opts : RunOptions) (t : TenantObj) (v : Srv) : Prop := {
  pv_row : get_tenant (v_reg v) pk = Some t;
  pv_shard : sh_is_default (o_shard t) = false;
  pv_status : o_status t ∈ PROVISIONABLE;
  pv_untargeted : targeted opts = false;
  pv_lease : available pk (o_alias t) v;
  pv_code : code_current (v_reg v);
  pv_foreign : not_foreign t v;
  pv_name : is_ok (quote_schema (o_schema t)) = true;
}.

Lemma provisionable_gate opts t : o_status t ∈ PROVISIONABLE → _gate t opts (mk t) = None.
Proof. unfold PROVISIONABLE, _gate. intros Hin. set_unfold in Hin. by destruct Hin as [->|[->|[]]]. Qed.

Lemma runs_provision_case pk opts t q res q2 :
  Provisionable pk opts t (q_srv q) →
  runs (o_alias t) (_provision t opts (mk t)) (q_set_reg (leased pk) q) (Ok res) q2 →
  runs (o_alias t) (_migrate_tenant pk opts) q (Ok res) (q_set_reg (λ g, (lease_free pk me g).2) q2).
Proof.
  intros [] Hp. eapply runs_to_lease; [done|done|by apply provisionable_gate| |done|].
  - intros Hu. exfalso. revert pv_status0 Hu. unfold PROVISIONABLE, _upgradable. intros Hin.
    set_unfold in Hin. by destruct Hin as [->|[->|[]]].
  - eapply runs_under_load; [done|by apply provisionable_gate|done|].
    intros Hn. apply mem_false in Hn. done.
Qed.

(** ** Outcomes

    [Quiet alias w]: no events to come, and the connections to [default] and
    [alias] outside transactions, idle when open. *)
Definition view_of (w : World) : View := mkView (w_srv w) (w_cache w) (w_claimed w).
Definition Quiet (alias : string) (w : World) : Prop := St alias (view_of w) w.

(** The tenant no longer resolves from the cache to a stale snapshot. *)
Definition invalidated (pk : Z) (schema : string) (g : Registry) (c : inv_cache) : Prop :=
  (∀ h, h ∈ tenant_hosts g pk → inv_host c h = None) ∧ inv_schema c schema = None.

Lemma migrate_tenant_quiet pk opts alias w res q' :
  Quiet alias w → runs alias (_migrate_tenant pk opts) (view_of w) (Ok res) q' →
  ∃ secs w', migrate_tenant pk opts w = (Ok (with_secs secs res), w')
    ∧ w_srv w' = q_srv q' ∧ w_cache w' = q_cache q'.
Proof.
  intros Hw Hr. destruct (migrate_tenant_runs alias pk opts _ _ _ Hr w Hw) as (secs & w' & E & []).
  by exists secs, w'.
Qed.

(** C6: in a quiet environment, when the lease is available, the code is
    current, the schema is not somebody else's and upstream's run applies
    everything, [migrate_tenant] makes a NEW or PENDING tenant ACTIVE: it
    reports ok (RESUMED for a PENDING one), exactly the row of this tenant
    changes, the lease ends free, the shard holds what the run produced, and
    the resolve cache no longer serves the tenant's hosts or schema. *)
Theorem migrate_tenant_provisions pk opts t w :
  let v := w_srv w in
  let out := provision_out pk t opts v in
  Quiet (o_alias t) w →
  Provisionable pk opts t v →
  ro_exc out = None → plan_of (ro_db out) (o_schema t) = Some [] →
  ∃ secs w', migrate_tenant pk opts w
      = (Ok (with_secs secs (if bool_decide (o_status t = PENDING)
                             then mk t KOk RESUMED "provisioned (RESUMED)"
                             else mk t KOk APPLIED "provisioned")), w')
    ∧ g_tenants (v_reg (w_srv w')) =
        <[pk := with_status ACTIVE PENDING (g_now (v_reg v)) (Some "") (o_tenant t)]> (g_tenants (v_reg v))
    ∧ g_leases (v_reg (w_srv w')) = <[pk := mkLease None None None]> (g_leases (v_reg v))
    ∧ db_of (o_alias t) (w_srv w') = ro_db out
    ∧ invalidated pk (o_schema t) (v_reg v) (w_cache w').
Proof.
  intros v out Hw Hp Hexc Hplan. pose proof Hp as [].
  destruct (get_tenant_pk _ _ _ pv_row0) as [Hpk Hrow].
  edestruct (migrate_tenant_quiet pk opts (o_alias t) w) as (secs & w' & E & Hsrv & Hc); [done| |].
  { apply (runs_provision_case _ _ t (view_of w)); [done|]. unfold _provision. rewrite pv_untargeted0.
    eapply runs_bind; [apply runs_set_side|]. eapply runs_bind; [apply runs_set_claimed|].
    apply runs_catch_ok. apply runs_provision_body; rewrite ?Hpk; try done.
    - apply leased_mine.
    - rewrite <- Hpk. apply runs_finish_ok; rewrite ?Hpk; try done. apply leased_mine. }
  exists secs, w'. split; [apply E|]. rewrite Hsrv, Hc. split; [|split; [|split]].
  - unfold q_set_reg. simpl. rewrite Hpk, free_mine by apply leased_mine. simpl.
    apply map_eq. intros k. destruct (decide (k = pk)) as [->|Hne].
    + rewrite !lookup_alter_eq, lookup_insert_eq. fold v. by rewrite Hrow.
    + by rewrite !lookup_alter_ne, lookup_insert_ne.
  - simpl. rewrite Hpk, free_mine by apply leased_mine. simpl. by rewrite insert_insert_eq.
  - apply db_of_set_db.
  - split; [intros h Hh; apply inv_forget_host; by rewrite Hpk|apply inv_forget_schema].
Qed.

(** The row of [pk] after the writes of a run, and the lease given back. *)
Definition settled (pk : Z) (t : TenantObj) (new prev : Status) (err : string) (g g' : Registry) : Prop :=
  g_tenants g' = <[pk := with_status new prev (g_now g) (Some err) (o_tenant t)]> (g_tenants g)
  ∧ g_leases g' = <[pk := mkLease None None None]> (g_leases g).

Lemma settled_intro pk t new prev err g g1 :
  g_tenants g !! pk = Some (o_tenant t) →
  g1 = leased pk g ∨ g1 = wrote pk PENDING NEW "" (leased pk g) →
  settled pk t new prev err g (lease_free pk me (wrote pk new prev err g1)).2.
Proof.
  intros Ht Hg1. assert (lease_mine pk me (wrote pk new prev err g1) = true) as Hm
    by (destruct Hg1 as [->| ->]; apply leased_mine).
  rewrite free_mine by done. destruct Hg1 as [->| ->]; (split; simpl; [|by rewrite insert_insert_eq]);
    apply map_eq; intros k; (destruct (decide (k = pk)) as [->|Hne];
      [by rewrite !lookup_alter_eq, lookup_insert_eq, Ht|by rewrite !lookup_alter_ne, lookup_insert_ne]).
Qed.

(** C13: in a quiet environment, when upstream's run on a claimed
    tenant raises something other than a lost connection, the run reports
    failed with the classified reason and the INVALID indexes, the tenant ends
    FAILED with the tail of the traceback recorded, the lease ends free and the
    resolve cache is invalidated. *)
Theorem migrate_tenant_records_failure pk opts t w e :
  let v := w_srv w in
  let out := provision_out pk t opts v in
  Quiet (o_alias t) w →
  Provisionable pk opts t v →
  ro_exc out = Some e → is_exception e = true → is_conn_error e = false →
  ∃ secs w', migrate_tenant pk opts w
      = (Ok (with_secs secs (with_details (exc_msg e)
           (match db_schemas (ro_db out) !! o_schema t with Some s => sc_invalid s | None => [] end)
           (mk t KFailed (failure_reason e) (exc_msg e)))), w')
    ∧ settled pk t FAILED PENDING (py_last 4000 (format_exception e)) (v_reg v) (v_reg (w_srv w'))
    ∧ invalidated pk (o_schema t) (v_reg v) (w_cache w').
Proof.
  intros v out Hw Hp Hexc He Hce. pose proof Hp as [].
  destruct (get_tenant_pk _ _ _ pv_row0) as [Hpk Hrow].
  set (q1 := mkView (set_reg (leased pk) v) (w_cache w) false).
  set (q3 := mkView (claimed_srv pk t (q_srv q1)) (w_cache w) true).
  set (q4 := q_set_srv (migrated (o_alias t) (_upstream_options opts (o_alias t)) (o_schema t) (q_srv q3)) q3).
  set (q5 := forgotten t (q_set_reg (wrote pk FAILED PENDING (py_last 4000 (format_exception e))) q4)).
  edestruct (migrate_tenant_quiet pk opts (o_alias t) w) as (secs & w' & E & Hsrv & Hc);
    [done|apply (runs_provision_case _ _ t (view_of w)) with (q2 := q5); [done|]|].
  { unfold _provision. rewrite pv_untargeted0.
    eapply runs_bind; [apply runs_set_side|]. eapply runs_bind; [apply runs_set_claimed|].
    eapply runs_catch_err with (e := e) (q1 := q4).
    - apply runs_provision_body; rewrite ?Hpk; try done; [apply leased_mine|].
      apply runs_bind_err. pose proof (runs_run_migrations (o_alias t) q3 (_upstream_options opts (o_alias t)) (o_schema t)) as Hr.
      unfold run_result in Hr. change (up_run _ _ _) with out in Hr. rewrite Hexc in Hr. apply Hr.
    - done.
    - unfold provision_except. eapply runs_bind; [apply runs_note_exc|]. apply runs_gets_any. intros side.
      rewrite Hce. eapply runs_bind; [apply runs_failure|]. eapply runs_bind; [apply runs_gets_claimed|]. simpl.
      apply runs_catch_ok. eapply runs_bind.
      { rewrite Hpk. eapply runs_cas_hit.
        - change (q_reg q4) with (wrote pk PENDING NEW "" (leased pk (v_reg v))). by apply wrote_lookup.
        - by apply list_elem_of_singleton.
        - change (q_reg q4) with (wrote pk PENDING NEW "" (leased pk (v_reg v))). apply leased_mine. }
      simpl. eapply runs_bind; [apply runs_forget|]. apply runs_ret. }
  exists secs, w'. split; [|rewrite Hsrv, Hc; split].
  - rewrite E. unfold q4, migrated. simpl. by rewrite db_of_set_db.
  - apply settled_intro; auto.
  - split; [intros h Hh; apply inv_forget_host; by rewrite Hpk|apply inv_forget_schema].
Qed.

(** A NEW tenant whose schema already has relations on the
    shard (and which no operator reset from FAILED) is never adopted: in a
    quiet environment the run reports failed/schema_exists, the tenant ends
    FAILED, no statement touched the shard, the lease ends free and the cache
    is invalidated. *)
Theorem migrate_tenant_foreign_schema pk opts t w s :
  let v := w_srv w in
  Quiet (o_alias t) w →
  get_tenant (v_reg v) pk = Some t → sh_is_default (o_shard t) = false →
  o_status t = NEW → t_previous_status (o_tenant t) ≠ FAILED → targeted opts = false →
  available pk (o_alias t) v → code_current (v_reg v) →
  db_schemas (db_of (o_alias t) v) !! o_schema t = Some s → 0 < sc_relations s →
  ∃ secs w', migrate_tenant pk opts w
      = (Ok (with_secs secs (mk t KFailed SCHEMA_EXISTS (schema_exists_msg t))), w')
    ∧ settled pk t FAILED NEW (schema_exists_msg t) (v_reg v) (v_reg (w_srv w'))
    ∧ v_dbs (w_srv w') = v_dbs v
    ∧ invalidated pk (o_schema t) (v_reg v) (w_cache w').
Proof.
  intros v Hw Hrow Hd Hst Hprev Htg Hav Hcode Hs Hrel.
  destruct (get_tenant_pk _ _ _ Hrow) as [Hpk Hrow'].
  assert (o_status t ∈ PROVISIONABLE) as Hin by (rewrite Hst; by left).
  edestruct (migrate_tenant_quiet pk opts (o_alias t) w) as (secs & w' & E & Hsrv & Hc); [done| |].
  { apply (runs_to_lease _ _ (view_of w)); [done|done|by apply provisionable_gate| |done|].
    { unfold _upgradable. by rewrite Hst. }
    eapply runs_under_load; [done|by apply provisionable_gate| |].
    2: { intros Hn%mem_false. done. }
    intros _. unfold _provision. rewrite Htg.
    eapply runs_bind; [apply runs_set_side|]. eapply runs_bind; [apply runs_set_claimed|].
    apply runs_catch_ok. unfold provision_body. eapply runs_bind; [by apply runs_code_current|].
    eapply runs_bind; [apply runs_set_side|]. rewrite bool_decide_true by done.
    eapply runs_bind; [apply runs_relations|]. simpl. change (db_of _ (set_reg _ _)) with (db_of (o_alias t) v).
    rewrite Hs, (proj2 (Nat.ltb_lt _ _) Hrel).
    eapply runs_bind; [apply runs_set_side|]. rewrite Hpk. eapply runs_bind.
    { eapply runs_cas_hit; [done| |apply leased_mine]. fold (o_status t). rewrite Hst. by left. }
    simpl. eapply runs_bind; [apply runs_forget|]. apply runs_ret. }
  exists secs, w'. split; [done|]. rewrite Hsrv, Hc. split; [apply settled_intro; auto|]. split; [done|].
  split; [intros h Hh; apply inv_forget_host; by rewrite Hpk|apply inv_forget_schema].
Qed.

(** ** Upgrades *)

(** What must hold for an upgrade to get as far as the lease. *)
Record Upgradable (pk : Z) (opts : RunOptions) (t : TenantObj) (v : Srv) : Prop := {
  ug_row : get_tenant (v_reg v) pk = Some t;
  ug_shard : sh_is_default (o_shard t) = false;
  ug_status : _upgradable t opts = true;
  ug_lease : available pk (o_alias t) v;
}.

Lemma upgradable_gate opts t : _upgradable t opts = true → _gate t opts (mk t) = None.
Proof. unfold _upgradable, _gate. destruct (o_status t), (maintenance opts); done. Qed.

Lemma upgradable_not_provisionable opts t :
  _upgradable t opts = true → mem (o_status t) PROVISIONABLE = false.
Proof. unfold _upgradable. destruct (o_status t); done. Qed.

Lemma runs_upgrade_case pk opts t q res q2 :
  Upgradable pk opts t (q_srv q) →
  (targeted opts = false → plan_of (db_of (o_alias t) (q_srv q)) (o_schema t) ≠ Some []) →
  runs (o_alias t) (upgrade_body t opts (mk t)) (q_set_reg (leased pk) q) (Ok res) q2 →
  runs (o_alias t) (_migrate_tenant pk opts) q (Ok res) (q_set_reg (λ g, (lease_free pk me g).2) q2).
Proof.
  intros [] Hplan Hu. eapply runs_to_lease; [done|done|by apply upgradable_gate| |done|].
  - intros Hb. bool_props. auto.
  - eapply runs_under_load; [done|by apply upgradable_gate| |].
    + intros Hm. by rewrite (upgradable_not_provisionable opts t) in Hm.
    + intros _. split; [done|]. eapply runs_bind; [apply runs_set_side|]. by apply runs_catch_ok.
Qed.

(** Only the lease was taken and given back. *)
Lemma lease_cycle pk g :
  set_reg (λ g, (lease_free pk me g).2) (set_reg (leased pk) g)
  = set_reg (set_leases (<[pk := mkLease None None None]>)) g.
Proof.
  destruct g as [g dbs lt]. unfold set_reg. simpl. rewrite free_mine by apply leased_mine.
  destruct g. unfold set_leases. simpl. by rewrite insert_insert_eq.
Qed.

(** In a quiet environment, upgrading a tenant that is behind runs the
    migrations on its shard and changes nothing in the registry but the lease,
    which ends free: no status is written. *)
Theorem migrate_tenant_upgrades pk opts t w plan :
  let v := w_srv w in
  let options := _upstream_options opts (o_alias t) in
  let out := up_run options (o_schema t) (db_of (o_alias t) v) in
  Quiet (o_alias t) w →
  Upgradable pk opts t v → targeted opts = false →
  plan_of (db_of (o_alias t) v) (o_schema t) = Some plan → plan ≠ [] → ro_exc out = None →
  ∃ secs w', migrate_tenant pk opts w
      = (Ok (with_secs secs (mk t KOk APPLIED ("applied " +:+ py_int (Z.of_nat (length plan)) +:+ " migration(s)"))), w')
    ∧ w_srv w' = set_reg (set_leases (<[pk := mkLease None None None]>)) (migrated (o_alias t) options (o_schema t) v)
    ∧ w_cache w' = w_cache w.
Proof.
  intros v options out Hw Hug Htg Hplan Hne Hexc. destruct (get_tenant_pk _ _ _ (ug_row _ _ _ _ Hug)) as [Hpk _].
  edestruct (migrate_tenant_quiet pk opts (o_alias t) w) as (secs & w' & E & Hsrv & Hc); [done| |].
  { apply (runs_upgrade_case _ _ t (view_of w)); [done|intros _; simpl; fold v; rewrite Hplan; congruence|]. unfold upgrade_body.
    eapply runs_bind; [by apply runs_pending_plan|]. simpl.
    change (db_of _ (set_reg _ _)) with (db_of (o_alias t) v). rewrite Hplan, bool_decide_false by done. simpl.
    eapply runs_bind; [apply runs_open_shard|]. eapply runs_bind with (a := ()).
    { pose proof (runs_run_migrations (o_alias t) (q_set_reg (leased pk) (view_of w)) options (o_schema t)) as Hr.
      unfold run_result in Hr. change (up_run _ _ _) with out in Hr. rewrite Hexc in Hr. apply Hr. }
    rewrite Htg. apply runs_ret. }
  exists secs, w'. split; [done|]. rewrite Hsrv, Hc. split; [|done].
  apply (lease_cycle pk (migrated (o_alias t) options (o_schema t) v)).
Qed.

(** An ACTIVE, DEACTIVATED or (with [--maintenance]) MAINTENANCE tenant that
    is up to date is reported noop without touching anything: no lease is
    taken, no row and no schema changes. *)
Theorem migrate_tenant_noop pk opts t w :
  let v := w_srv w in
  Quiet (o_alias t) w →
  get_tenant (v_reg v) pk = Some t → sh_is_default (o_shard t) = false →
  _upgradable t opts = true → targeted opts = false →
  plan_of (db_of (o_alias t) v) (o_schema t) = Some [] →
  ∃ secs w', migrate_tenant pk opts w = (Ok (with_secs secs (mk t KNoop UP_TO_DATE "up to date")), w')
    ∧ w_srv w' = v ∧ w_cache w' = w_cache w.
Proof.
  intros v Hw Hrow Hd Hup Htg Hplan.
  apply (migrate_tenant_quiet pk opts (o_alias t) w _ (view_of w)); [done|].
  unfold _migrate_tenant. eapply runs_bind.
  { apply runs_catch_ok. eapply runs_bind; [by apply runs_load|apply runs_ret]. }
  simpl. eapply runs_bind; [apply runs_open_log|]. rewrite Hd. change (λ k r m, result k _ _ r m) with (mk t).
  rewrite upgradable_gate by done.
  apply (runs_bind _ _ _ _ (Some (mk t KNoop UP_TO_DATE "up to date")) (view_of w)); [|apply runs_ret].
  unfold noop_shortcut. rewrite Hup, Htg. apply runs_catch_ok.
  eapply runs_bind; [by apply runs_pending_plan|]. simpl. fold v. rewrite Hplan. apply runs_ret.
Qed.

(** Upgrading an ACTIVE or DEACTIVATED tenant whose schema is gone
    from its shard reports failed/schema_missing and writes FAILED with the
    status it had as previous; the shard is not touched, the lease ends free
    and the cache is invalidated. *)
Theorem migrate_tenant_schema_missing pk opts t w :
  let v := w_srv w in
  let msg := "schema " +:+ String (Ascii.ascii_of_N 34) (o_schema t
             +:+ String (Ascii.ascii_of_N 34) (" missing on " +:+ o_alias t +:+ " during upgrade")) in
  Quiet (o_alias t) w →
  Upgradable pk opts t v → o_status t ≠ MAINTENANCE →
  plan_of (db_of (o_alias t) v) (o_schema t) = None →
  ∃ secs w', migrate_tenant pk opts w = (Ok (with_secs secs (mk t KFailed SCHEMA_MISSING msg)), w')
    ∧ settled pk t FAILED (o_status t) msg (v_reg v) (v_reg (w_srv w'))
    ∧ v_dbs (w_srv w') = v_dbs v
    ∧ invalidated pk (o_schema t) (v_reg v) (w_cache w').
Proof.
  intros v msg Hw Hug Hnm Hplan. destruct (get_tenant_pk _ _ _ (ug_row _ _ _ _ Hug)) as [Hpk Hrow].
  edestruct (migrate_tenant_quiet pk opts (o_alias t) w) as (secs & w' & E & Hsrv & Hc); [done| |].
  { apply (runs_upgrade_case _ _ t (view_of w)); [done|simpl; fold v; by rewrite Hplan|]. unfold upgrade_body.
    eapply runs_bind; [by apply runs_pending_plan|]. simpl.
    change (db_of _ (set_reg _ _)) with (db_of (o_alias t) v). rewrite Hplan, bool_decide_false by done.
    eapply runs_bind; [apply runs_set_side|]. rewrite Hpk. eapply runs_bind.
    { eapply runs_cas_hit; [done| |apply leased_mine]. by left. }
    simpl. eapply runs_bind; [apply runs_forget|]. apply runs_ret. }
  exists secs, w'. split; [done|]. rewrite Hsrv, Hc. split; [apply settled_intro; auto|]. split; [done|].
  split; [intros h Hh; apply inv_forget_host; by rewrite Hpk|apply inv_forget_schema].
Qed.

(** While another owner holds a lease that has not expired,
    [migrate_tenant] reports skipped/locked naming that owner and changes
    nothing, whatever the tenant needs. *)
Theorem migrate_tenant_locked pk opts t w l o since :
  let v := w_srv w in
  Quiet (o_alias t) w →
  get_tenant (v_reg v) pk = Some t → sh_is_default (o_shard t) = false →
  _gate t opts (mk t) = None →
  (_upgradable t opts && negb (targeted opts) = true → plan_of (db_of (o_alias t) v) (o_schema t) ≠ Some []) →
  session_active pk (db_of (o_alias t) v) = None →
  g_leases (v_reg v) !! pk = Some l → ls_owner l = Some o → ls_since l = Some since →
  lease_expired (v_reg v) l = false →
  ∃ secs w', migrate_tenant pk opts w
      = (Ok (with_secs secs (mk t KSkipped LOCKED ("locked by " +:+ o +:+ " since " +:+ fmt_time since))), w')
    ∧ w_srv w' = v ∧ w_cache w' = w_cache w.
Proof.
  intros v Hw Hrow Hd Hg Hn Hs Hl Ho Hsi He. destruct (get_tenant_pk _ _ _ Hrow) as [Hpk _].
  apply (migrate_tenant_quiet pk opts (o_alias t) w _ (view_of w)); [done|].
  unfold _migrate_tenant. eapply runs_bind.
  { apply runs_catch_ok. eapply runs_bind; [by apply runs_load|apply runs_ret]. }
  simpl. eapply runs_bind; [apply runs_open_log|]. rewrite Hd. change (λ k r m, result k _ _ r m) with (mk t).
  rewrite Hg. eapply runs_bind with (a := None) (q1 := view_of w).
  { unfold noop_shortcut. destruct (_upgradable t opts && negb (targeted opts)); [|apply runs_ret].
    apply runs_catch_ok. eapply runs_bind; [by apply runs_pending_plan|].
    rewrite bool_decide_false by auto. apply runs_ret. }
  eapply runs_bind.
  { apply runs_catch_ok. rewrite Hpk. eapply runs_bind; [by eapply runs_lease_acquire_lost|]. apply runs_ret. }
  apply runs_ret.
Qed.

End run.
