(* ===== verification/Hygiene.v ===== *)
(** * Connection hygiene

    A migrator run leaves no connection wrapper of the process armed with the
    migrator's [lock_timeout] or [tm:<key>] label, nor pointing at a tenant
    schema, whatever fails. *)
From S2P Require Import Prelude PyStr Models PyExc Logs World Lease Schema Migrator.
Open Scope tenants_scope.

Create HintDb hygiene.

Section hygiene.
Context `{Invalidator} `{Site} `{Upstream}.

(** ** Triples on the world *)

Definition wpred : Type := World → Prop.

Definition wtrip {A} (P : wpred) (m : M A) (Q E : wpred) : Prop :=
  ∀ w, P w → match m w with (Ok _, w') => Q w' | (Err _, w') => E w' end.
Definition wkeeps {A} (P : wpred) (m : M A) : Prop := wtrip P m P P.

Lemma wtrip_conseq {A} (P P' Q Q' E E' : wpred) (m : M A) :
  wtrip P' m Q' E' → (∀ w, P w → P' w) → (∀ w, Q' w → Q w) → (∀ w, E' w → E w) → wtrip P m Q E.
Proof. intros Hm HP HQ HE w Hw. specialize (Hm w (HP w Hw)). destruct (m w) as [[?|?] ?]; auto. Qed.

Lemma wtrip_bind {A B} (P R Q E : wpred) (m : M A) (k : A → M B) :
  wtrip P m R E → (∀ a, wtrip R (k a) Q E) → wtrip P (bind m k) Q E.
Proof. intros Hm Hk w Hw. specialize (Hm w Hw). unfold bind. destruct (m w) as [[a|e] w']; [by apply Hk|done]. Qed.

Lemma wtrip_catch {A} (P Q E1 E : wpred) (m : M A) h :
  wtrip P m Q E1 → (∀ e, wtrip E1 (h e) Q E) → (∀ w, E1 w → E w) → wtrip P (catch m h) Q E.
Proof.
  intros Hm Hh HE w Hw. specialize (Hm w Hw). unfold catch. destruct (m w) as [[a|e] w']; [done|].
  destruct (is_exception e); [|auto]. specialize (Hh e w' Hm). by destruct (h e w') as [[?|?] ?].
Qed.

Lemma wtrip_finally {A} (P R E1 Q : wpred) (m : M A) f :
  wtrip P m R E1 → wtrip R f Q Q → wtrip E1 f Q Q → wtrip P (finally m f) Q Q.
Proof.
  intros Hm H2 H3 w Hw. specialize (Hm w Hw). unfold finally. destruct (m w) as [[a|e] w'].
  - specialize (H2 w' Hm). by destruct (f w') as [[?|?] ?].
  - specialize (H3 w' Hm). by destruct (f w') as [[?|?] ?].
Qed.

Lemma wkeeps_ret {A} (P : wpred) (a : A) : wkeeps P (ret a).
Proof. by intros w Hw. Qed.
Lemma wkeeps_raise {A} (P : wpred) e : wkeeps P (raise e : M A).
Proof. by intros w Hw. Qed.
Lemma wkeeps_lift {A} (P : wpred) (r : res exn A) : wkeeps P (lift r).
Proof. intros w Hw. unfold lift. by destruct r. Qed.
Lemma wkeeps_gets {A} (P : wpred) (f : World → A) : wkeeps P (gets f).
Proof. by intros w Hw. Qed.
Lemma wkeeps_bind {A B} (P : wpred) (m : M A) (k : A → M B) :
  wkeeps P m → (∀ a, wkeeps P (k a)) → wkeeps P (bind m k).
Proof. apply wtrip_bind. Qed.
Lemma wkeeps_catch {A} (P : wpred) (m : M A) h : wkeeps P m → (∀ e, wkeeps P (h e)) → wkeeps P (catch m h).
Proof. intros Hm Hh. by apply (wtrip_catch P P P P). Qed.
Lemma wkeeps_finally {A} (P : wpred) (m : M A) f : wkeeps P m → wkeeps P f → wkeeps P (finally m f).
Proof. intros Hm Hf. by apply (wtrip_finally P P P P). Qed.
Lemma wkeeps_connection (P : wpred) a : wkeeps P (connection a).
Proof. intros w Hw. unfold connection. by destruct (w_conns w !! a). Qed.

(** ** The invariant *)

Context (pk : Z) (alias : string).

(** The tenant lives on [alias]. *)
Definition fixed (v : Srv) : Prop := ∀ t, get_tenant (v_reg v) pk = Some t → o_alias t = alias.

(** No [BaseException] interrupts a round trip, and nobody moves the tenant to
    another shard. *)
Definition calm (s : list Event) : Prop :=
  Forall (λ ev, (∀ e, ev_fault ev = Some e → is_exception e = true)
                ∧ ∀ v, fixed v → fixed (ev_env ev v)) s.

Definition raw_ok (o : option Raw) : Prop := ∀ r, o = Some r → raw_clean r = true.

(** Outside transactions, on [public], with default session settings. *)
Definition conn_clean (c : Conn) : Prop :=
  c_in_atomic c = false ∧ c_schema c = "public" ∧ c_include_public c = true ∧ raw_ok (c_raw c).

(** Every wrapper is clean, but for the one in [dirty]. *)
Record Hyg (dirty : option string) (w : World) : Prop := {
  hy_calm : calm (w_script w);
  hy_fixed : fixed (w_srv w);
  hy_atomic : ∀ a c, w_conns w !! a = Some c → c_in_atomic c = false;
  hy_clean : ∀ a c, w_conns w !! a = Some c → dirty ≠ Some a → conn_clean c;
}.

Lemma Hyg_weaken d w : Hyg None w → Hyg d w.
Proof. intros []. split; [done..|]. intros. by eapply hy_clean0. Qed.

Lemma Hyg_missing a w : Hyg (Some a) w → w_conns w !! a = None → Hyg None w.
Proof. intros [] Hm. split; [done..|]. intros a' c Hc _. eapply hy_clean0; [done|]. congruence. Qed.

(** A change of a world that keeps its connections and script. *)
Lemma Hyg_frame d w w' :
  Hyg d w → w_conns w' = w_conns w → w_script w' = w_script w → fixed (w_srv w') → Hyg d w'.
Proof. intros [] Ec Es Ef. split; rewrite ?Ec, ?Es; done. Qed.

Definition same_conns (w w' : World) : Prop :=
  w_conns w' = w_conns w ∧ w_script w' = w_script w ∧ w_srv w' = w_srv w.

Lemma wkeeps_frame {A} d (m : M A) : (∀ w, same_conns w (m w).2) → wkeeps (Hyg d) m.
Proof.
  intros Hm w Hw. destruct (Hm w) as (Ec & Es & Ev).
  destruct (m w) as [[?|?] w']; simpl in *; eapply Hyg_frame; try done; rewrite Ev; apply Hw.
Qed.

(** Updating a wrapper in a way that does not make it dirty. *)
Lemma Hyg_set_conn d w a f :
  Hyg d w → (∀ c, c_in_atomic c = false → c_in_atomic (f c) = false) →
  (∀ c, conn_clean c → conn_clean (f c)) → Hyg d (upd_conns (alter f a) w).
Proof.
  intros [] Hat Hcl. split; simpl; [done|done| |].
  - intros a' c. rewrite lookup_alter_Some. intros [(-> & c0 & ? & ->)|[??]]; eauto.
  - intros a' c. rewrite lookup_alter_Some. intros [(-> & c0 & ? & ->)|[??]]; eauto.
Qed.

Lemma wkeeps_set_conn d a f :
  (∀ c, c_in_atomic c = false → c_in_atomic (f c) = false) →
  (∀ c, conn_clean c → conn_clean (f c)) → wkeeps (Hyg d) (set_conn a f).
Proof. intros ?? w Hw. by apply Hyg_set_conn. Qed.

(** Dirtying the wrapper that is allowed to be dirty. *)
Lemma wtrip_dirty a f :
  (∀ c, c_in_atomic (f c) = c_in_atomic c) → wkeeps (Hyg (Some a)) (set_conn a f).
Proof.
  intros Hat w []. split; simpl; [done|done| |].
  - intros a' c. rewrite lookup_alter_Some. intros [(-> & c0 & ? & ->)|[??]]; rewrite ?Hat; eauto.
  - intros a' c. rewrite lookup_alter_Some. intros [(-> & c0 & ? & ->)|[??]]; [done|]. eauto.
Qed.

Lemma clean_set_raw f c :
  (∀ r, raw_clean r = true → raw_clean (f r) = true) → conn_clean c → conn_clean (with_raw (f <$> c_raw c) c).
Proof.
  intros Hf (? & ? & ? & Hr). repeat split; simpl; try done. intros r E.
  destruct (c_raw c) as [r0|]; simplify_eq/=. apply Hf, Hr. done.
Qed.

Lemma wkeeps_set_tx d a tx : wkeeps (Hyg d) (set_raw a (λ r, raw_set_tx (tx r) r)).
Proof. apply wkeeps_set_conn; [done|]. intros c. by apply clean_set_raw. Qed.

Lemma wkeeps_next_event d : wkeeps (Hyg d) next_event.
Proof.
  intros w Hw. unfold next_event. destruct (w_script w) as [|ev s] eqn:E; [done|].
  destruct Hw. rewrite E in hy_calm0. apply Forall_cons in hy_calm0 as [[_ Henv] Hs]. split; simpl; auto.
Qed.

(** A statement that does not move the tenant. *)
Definition stays {A} (f : Srv → res exn A * Srv * list Action) : Prop :=
  ∀ v, fixed v → fixed (f v).1.2.

Lemma wkeeps_round_trip {A} d a (f : Srv → res exn A * Srv * list Action) :
  stays f → wkeeps (Hyg d) (round_trip a f).
Proof.
  intros Hf. apply wkeeps_bind; [apply wkeeps_next_event|]. intros ev w Hw. specialize (Hf (w_srv w)).
  destruct (f (w_srv w)) as [[r v] acts].
  assert (Hyg d (upd_trace (app acts) (upd_srv (λ _, v) w))) as Hw'
    by (eapply Hyg_frame; try done; apply Hf, Hw).
  destruct (ev_fault ev) as [e|].
  - destruct (ev_applied ev); apply (wkeeps_bind (Hyg d)); try done;
      first [apply (wkeeps_set_tx d a (λ _, ev_tx ev))|intros; apply wkeeps_raise].
  - destruct r as [x|e]; apply (wkeeps_bind (Hyg d)); try done;
      first [apply wkeeps_set_tx|intros; apply wkeeps_ret|intros; apply wkeeps_raise].
Qed.

Lemma wkeeps_ensure d a : wkeeps (Hyg d) (ensure_connection a).
Proof.
  apply wkeeps_bind; [apply wkeeps_connection|]. intros c. case_match; [apply wkeeps_ret|].
  apply wkeeps_bind; [apply wkeeps_next_event|]. intros ev. case_match; [apply wkeeps_raise|].
  apply wkeeps_set_conn; [done|]. intros c' (? & ? & ? & _). repeat split; try done.
  by intros r [= <-].
Qed.

Lemma wkeeps_query {A} d a (f : Srv → res exn A * Srv * list Action) :
  stays f → wkeeps (Hyg d) (query a f).
Proof. intros. apply wkeeps_bind; [apply wkeeps_ensure|]. intros. by apply wkeeps_round_trip. Qed.

Lemma wkeeps_select {A} d a (f : Srv → A) : wkeeps (Hyg d) (select a f).
Proof. apply wkeeps_query. by intros v. Qed.

Lemma stays_upsert key : stays (upsert_stmt key).
Proof.
  intros v. unfold upsert_stmt, lease_upsert. destruct (g_leases (v_reg v) !! key) as [l|]; [|done].
  by destruct (is_none (ls_owner l) || lease_expired (v_reg v) l).
Qed.

Lemma stays_free key o : stays (free_stmt key o).
Proof.
  intros v. unfold free_stmt, lease_free. destruct (g_leases (v_reg v) !! key) as [l|]; [|done].
  by destruct (bool_decide (ls_owner l = Some o)).
Qed.

Lemma stays_cas k ex n p err : stays (cas_stmt k ex n p err).
Proof.
  intros v Hv. unfold cas_stmt, fenced_update. destruct (g_tenants (v_reg v) !! k) as [u|] eqn:Eu; [|done].
  destruct (mem (t_status u) ex && lease_mine k me (v_reg v)); [|done]. simpl.
  intros t. unfold get_tenant. simpl. destruct (decide (pk = k)) as [<-|Hne].
  - rewrite lookup_insert_eq. simpl. unfold fixed, get_tenant in Hv. rewrite Eu in Hv. simpl in Hv.
    destruct (g_shards (v_reg v) !! t_shard_id u) as [sh|]; simpl; [|done]. intros [= <-].
    by apply (Hv (mkTenantObj pk u sh)).
  - rewrite lookup_insert_ne by done. apply Hv.
Qed.

Lemma wkeeps_close d a : wkeeps (Hyg d) (close a).
Proof.
  apply wkeeps_bind; [apply wkeeps_connection|]. intros c. apply wkeeps_bind.
  - destruct (c_raw c); [by apply wkeeps_frame|apply wkeeps_ret].
  - intros _. apply wkeeps_set_conn; [done|]. intros c' (? & ? & ? & _). by repeat split.
Qed.

Lemma wkeeps_to_public d a : wkeeps (Hyg d) (set_schema_to_public a).
Proof. apply wkeeps_set_conn; [done|]. intros c (? & ? & ? & ?). by repeat split. Qed.

Lemma wkeeps_modify d f : (∀ w, same_conns w (f w)) → wkeeps (Hyg d) (modify f).
Proof. intros. by apply wkeeps_frame. Qed.

Lemma wkeeps_fresh d : wkeeps (Hyg d) _fresh.
Proof.
  apply wkeeps_bind; [apply wkeeps_connection|]. intros c. case_match; [apply wkeeps_ret|apply wkeeps_close].
Qed.

End hygiene.

#[export] Hint Resolve wkeeps_ret wkeeps_raise wkeeps_lift wkeeps_gets wkeeps_connection
  wkeeps_ensure wkeeps_select wkeeps_close stays_upsert stays_free stays_cas wkeeps_to_public wkeeps_fresh : hygiene.
#[export] Hint Extern 1 (wkeeps _ (query _ _)) =>
  (apply wkeeps_query; first [by intros ?|auto with hygiene]) : hygiene.
#[export] Hint Extern 1 (wkeeps _ (modify _)) => by apply wkeeps_modify : hygiene.
#[export] Hint Extern 1 (wkeeps _ (log_action _)) => by apply wkeeps_modify : hygiene.

(** Walks through a program whose steps all keep the invariant. *)
Ltac hyg_step :=
  lazymatch goal with
  | |- wkeeps _ (bind _ _) => apply wkeeps_bind; [|intros ?]
  | |- wkeeps _ (catch _ _) => apply wkeeps_catch; [|intros ?]
  | |- wkeeps _ (finally _ _) => apply wkeeps_finally
  | |- wkeeps _ (match ?x with _ => _ end) => destruct x
  | |- wkeeps _ (let '_ := ?x in _) => destruct x
  | |- wkeeps _ _ => solve [eauto 2 with hygiene]
  end.
Ltac hyg_solve := repeat hyg_step.

Section programs.
Context `{Invalidator} `{Site} `{Upstream} (pk : Z) (alias : string).

Abbreviation Hyg := (Hyg pk alias).

(** ** Closing a shard *)

(** A program that keeps the invariant and raises only [Exception]s. *)
Definition wexc {A} (d : option string) (m : M A) : Prop :=
  wkeeps (Hyg d) m ∧ ∀ w e w', Hyg d w → m w = (Err e, w') → is_exception e = true.

Lemma wexc_ret {A} d (a : A) : wexc d (ret a).
Proof. split; [apply wkeeps_ret|]. by intros. Qed.

Lemma wexc_bind {A B} d (m : M A) (k : A → M B) : wexc d m → (∀ a, wexc d (k a)) → wexc d (bind m k).
Proof.
  intros [Hm1 Hm2] Hk. split; [apply wkeeps_bind; [done|intros; apply Hk]|].
  intros w e w' Hw. unfold bind. specialize (Hm1 w Hw). specialize (Hm2 w).
  destruct (m w) as [[a|e1] w1]; [by apply (Hk a)|]. intros [= -> ->]. eauto.
Qed.

Lemma wexc_nop d a : wexc d (round_trip a (λ v, (Ok tt, v, []))).
Proof.
  split; [apply wkeeps_round_trip; by intros v|]. intros w e w' [Hcalm _ _ _]. unfold round_trip, bind at 1, next_event.
  destruct (w_script w) as [|ev s]; [done|]. simpl.
  apply Forall_cons in Hcalm as [[Hev _] _]. destruct (ev_fault ev) as [e'|]; [|done].
  destruct (ev_applied ev); simpl; intros [= <- <-]; by apply Hev.
Qed.

Lemma wexc_set_raw a f : (∀ r, raw_clean r = true → raw_clean (f r) = true) → wexc (Some a) (set_raw a f).
Proof. intros Hf. split; [|done]. apply wkeeps_set_conn; [done|]. intros c. by apply clean_set_raw. Qed.

Lemma reset_session_total a raw w :
  Hyg (Some a) w → ∃ w', _reset_session a raw w = (Ok tt, w') ∧ Hyg (Some a) w'.
Proof.
  intros Hw. unfold _reset_session. destruct raw as [r|]; [|by exists w].
  match goal with |- ∃ w', catch ?m _ _ = _ ∧ _ => assert (wexc (Some a) m) as [Hk He] end.
  { apply wexc_bind.
    - destruct (raw_tx r); [apply wexc_ret|]. split; [apply wkeeps_raise|]. by intros w0 e w' _ [= <- _].
    - intros st. apply wexc_bind.
      + case_bool_decide; [|apply wexc_ret]. apply wexc_bind; [apply wexc_nop|]. intros _.
        apply wexc_bind; [by apply wexc_set_raw|]. intros _. apply wexc_ret.
      + intros st'. case_bool_decide; [|apply wexc_ret]. apply wexc_bind; [apply wexc_nop|]. intros _.
        apply wexc_bind; [|intros _; by apply wexc_set_raw].
        destruct (raw_autocommit r); [apply wexc_ret|apply wexc_nop]. }
  specialize (Hk w Hw). specialize (He w). unfold catch.
  match goal with |- ∃ w', match ?m w with _ => _ end = _ ∧ _ => destruct (m w) as [[[]|e] w'] end.
  - by exists w'.
  - rewrite (He e w') by done. by exists w'.
Qed.

(** [_close_shard] repairs the wrapper it is given, also when it raises. *)
Lemma wtrip_close_shard a : wtrip (Hyg (Some a)) (_close_shard a) (Hyg None) (Hyg None).
Proof.
  intros w Hw. unfold _close_shard, bind at 1, connection.
  destruct (w_conns w !! a) as [c|] eqn:Ec; [|by eapply Hyg_missing].
  rewrite (hy_atomic _ _ _ _ Hw _ _ Ec). unfold bind at 1 2.
  destruct (reset_session_total a (c_raw c) w Hw) as (w1 & -> & Hw1).
  unfold close, bind at 1, connection. destruct (w_conns w1 !! a) as [c1|] eqn:Ec1; [|by eapply Hyg_missing].
  assert (∀ w2, Hyg (Some a) w2 → Hyg None (upd_conns (alter (with_schema "public" true) a)
                                      (upd_conns (alter (with_raw None) a) w2))) as Hfin.
  { intros w2 []. split; simpl; [done|done| |].
    - intros a' c' Hc'. destruct (decide (a' = a)) as [->|Hne].
      + rewrite !lookup_alter_eq in Hc'. destruct (w_conns w2 !! a) as [c2|] eqn:E2; simplify_eq/=.
        by eapply hy_atomic0.
      + rewrite !lookup_alter_ne in Hc' by done. by eapply hy_atomic0.
    - intros a' c' Hc' _. destruct (decide (a' = a)) as [->|Hne].
      + rewrite !lookup_alter_eq in Hc'. destruct (w_conns w2 !! a) as [c2|] eqn:E2; simplify_eq/=.
        repeat split; simpl; [|done]. by eapply hy_atomic0.
      + rewrite !lookup_alter_ne in Hc' by done. eapply hy_clean0; [done|congruence]. }
  destruct (c_raw c1); simpl; apply Hfin; [|done]. eapply Hyg_frame; try done. apply Hw1.
Qed.

Lemma wkeeps_close_shard_dirty a : wkeeps (Hyg (Some a)) (_close_shard a).
Proof. eapply wtrip_conseq; [apply wtrip_close_shard|done|..]; intros; by apply Hyg_weaken. Qed.

Lemma wkeeps_close_shard_clean a : wkeeps (Hyg None) (_close_shard a).
Proof. eapply wtrip_conseq; [apply wtrip_close_shard|..]; [|done|done]. intros. by apply Hyg_weaken. Qed.

#[local] Hint Resolve wkeeps_close_shard_dirty wkeeps_close_shard_clean : hygiene.

(** ** Programs that may run with the shard's wrapper dirty *)

Lemma wkeeps_open_shard a key : wkeeps (Hyg (Some a)) (_open_shard a key).
Proof. unfold _open_shard. hyg_solve. by apply wtrip_dirty. Qed.

Lemma wkeeps_pending_plan t : wkeeps (Hyg (Some (o_alias t))) (pending_plan t).
Proof. unfold pending_plan, set_schema, executor_plan. hyg_solve. by apply wtrip_dirty. Qed.

(** Before the lease nothing is dirty, and [pending_plan] cleans up after itself. *)
Lemma wkeeps_pending_plan_clean t : wkeeps (Hyg None) (pending_plan t).
Proof.
  unfold pending_plan. apply wkeeps_bind; [apply wkeeps_select|]. intros b.
  destruct (negb b); [apply wkeeps_ret|].
  eapply wtrip_finally; [|apply wtrip_close_shard..].
  apply (wtrip_conseq _ (Hyg (Some (o_alias t))) _ (Hyg (Some (o_alias t))) _ (Hyg (Some (o_alias t))));
    [|intros; by apply Hyg_weaken|done|done].
  match goal with |- wtrip ?P ?m _ _ => change (wkeeps P m) end. unfold set_schema, executor_plan. hyg_solve. by apply wtrip_dirty.
Qed.

Lemma wkeeps_code_older d : wkeeps (Hyg d) code_older_than_db.
Proof. unfold code_older_than_db. hyg_solve. Qed.

Lemma wkeeps_invalid_indexes d a s : wkeeps (Hyg d) (invalid_indexes a s).
Proof. unfold invalid_indexes. hyg_solve. Qed.

Lemma wkeeps_failure d e a s r :
  wkeeps (Hyg d) (_close_shard a) → wkeeps (Hyg d) (_failure e a s r).
Proof. intros. unfold _failure. hyg_solve. apply wkeeps_invalid_indexes. Qed.

Lemma wkeeps_fenced_cas d k ex n p err : wkeeps (Hyg d) (_fenced_cas k ex n p err).
Proof. unfold _fenced_cas. hyg_solve. Qed.

Lemma wkeeps_cas_lost d t r : wkeeps (Hyg d) (_cas_lost t r).
Proof. unfold _cas_lost. hyg_solve. Qed.

Lemma wkeeps_forget d t : wkeeps (Hyg d) (_forget t).
Proof. unfold _forget, forget_tenant. hyg_solve. Qed.

Lemma wkeeps_set_side d s : wkeeps (Hyg d) (set_side s).
Proof. by apply wkeeps_modify. Qed.

Lemma wkeeps_log_line d text : wkeeps (Hyg d) (log_line text).
Proof. apply wkeeps_frame. intros w. unfold log_line. destruct (w_log w) as [[??]|]; done. Qed.

Lemma wkeeps_each {A} (P : wpred) (f : A → M unit) l : (∀ x, wkeeps P (f x)) → wkeeps P (each f l).
Proof. intros Hf. induction l; simpl; [apply wkeeps_ret|]. by apply wkeeps_bind. Qed.

Lemma wkeeps_note_exc d e : wkeeps (Hyg d) (_note_exc e).
Proof. apply wkeeps_each, wkeeps_log_line. Qed.

Lemma wkeeps_run a options schema : wkeeps (Hyg (Some a)) (run_migrations a options schema).
Proof.
  unfold run_migrations. hyg_solve; [by apply wtrip_dirty|].
  apply wkeeps_frame. intros w. unfold tee_output. destruct (w_log w) as [[??]|]; [|done].
  by destruct (tee_write _ _).
Qed.

Lemma wkeeps_create d a s : wkeeps (Hyg d) (create_schema a s).
Proof. unfold create_schema, quote_schema_m. hyg_solve. Qed.

Lemma wkeeps_relations d a s : wkeeps (Hyg d) (schema_has_relations a s).
Proof. apply wkeeps_select. Qed.

Lemma wkeeps_holder d key : wkeeps (Hyg d) (lease_holder key).
Proof. unfold lease_holder. hyg_solve. Qed.

Lemma wkeeps_acquire d key a : wkeeps (Hyg d) (lease_acquire key a).
Proof.
  unfold lease_acquire, shard_session_active. hyg_solve; apply wkeeps_holder.
Qed.

Lemma wkeeps_release d key : wkeeps (Hyg d) (lease_release key).
Proof. unfold lease_release. hyg_solve. Qed.

Lemma wkeeps_load d k : wkeeps (Hyg d) (_load k).
Proof. unfold _load. hyg_solve. Qed.

#[local] Hint Resolve wkeeps_open_shard wkeeps_pending_plan wkeeps_pending_plan_clean wkeeps_code_older
  wkeeps_failure wkeeps_fenced_cas wkeeps_cas_lost wkeeps_forget wkeeps_set_side wkeeps_note_exc
  wkeeps_run wkeeps_create wkeeps_relations wkeeps_acquire wkeeps_release wkeeps_load
  wkeeps_log_line : hygiene.

Lemma wkeeps_provision t opts r : wkeeps (Hyg (Some (o_alias t))) (_provision t opts r).
Proof. unfold _provision, provision_body, provision_except, provision_finish. hyg_solve. Qed.

Lemma wkeeps_upgrade t opts r : wkeeps (Hyg (Some (o_alias t))) (_upgrade t opts r).
Proof. unfold _upgrade, upgrade_body, upgrade_except. hyg_solve. Qed.

(** ** The whole run *)

Lemma load_fixed d w t w' : Hyg d w → _load pk w = (Ok t, w') → o_alias t = alias.
Proof.
  intros Hw. unfold _load, query, round_trip, bind at 1. pose proof (wkeeps_fresh pk alias d w Hw) as H1'.
  destruct (_fresh w) as [[[]|e] w1]; [|done]. unfold bind at 1.
  pose proof (wkeeps_ensure pk alias d "default" w1 H1') as H2'.
  destruct (ensure_connection "default" w1) as [[[]|e] w2]; [|done]. unfold bind at 1.
  pose proof (wkeeps_next_event pk alias d w2 H2') as H3'.
  destruct (next_event w2) as [[ev|e] w3]; [|done]. simpl.
  destruct (get_tenant (v_reg (w_srv w3)) pk) as [t'|] eqn:Et.
  - destruct (ev_fault ev), (ev_applied ev); simpl; try done; intros [= <- _]; by apply (hy_fixed _ _ _ _ H3').
  - destruct (ev_fault ev), (ev_applied ev); done.
Qed.

(** Continuing with a freshly loaded tenant, on its one alias. *)
Lemma wkeeps_load_catch {X B} d (h : exn → M (res X TenantObj)) (k : res X TenantObj → M B) :
  (∀ e, wkeeps (Hyg d) (h e)) →
  (∀ e w x w', h e w = (Ok x, w') → ∃ y, x = Err y) →
  (∀ y, wkeeps (Hyg d) (k (Err y))) →
  (∀ t, o_alias t = alias → wkeeps (Hyg d) (k (Ok t))) →
  wkeeps (Hyg d) (bind (catch (t <-! _load pk ;; ret (Ok t)) h) k).
Proof.
  intros Hh Herr Hk1 Hk2 w Hw. unfold bind at 1, catch, bind at 1.
  pose proof (wkeeps_load d pk w Hw) as Hl. pose proof (load_fixed d w) as Hf.
  destruct (_load pk w) as [[t|e] w1]; simpl; [apply Hk2; [by eapply Hf|done]|].
  destruct (is_exception e); [|done]. specialize (Hh e w1 Hl). specialize (Herr e w1).
  destruct (h e w1) as [[x|e2] w2]; [|done]. destruct (Herr x w2) as [y ->]; [done|]. by apply Hk1.
Qed.

Lemma wkeeps_under_lease opts r : wkeeps (Hyg (Some alias)) (under_lease pk opts r).
Proof.
  unfold under_lease. apply wkeeps_load_catch.
  - intros e. hyg_solve.
  - intros e w x w'. unfold bind, modify. repeat case_match; intros [= <- _]; eauto.
  - intros y. apply wkeeps_ret.
  - intros t Ha. destruct (_gate t opts r); [hyg_solve|].
    destruct (mem _ _); [|destruct (_upgradable t opts)]; hyg_solve.
    + pose proof (wkeeps_provision t opts r) as Hp. by rewrite Ha in Hp.
    + pose proof (wkeeps_upgrade t opts r) as Hp. by rewrite Ha in Hp.
Qed.

Lemma wtrip_after_lease k : wtrip (Hyg (Some alias)) (after_lease k alias) (Hyg None) (Hyg None).
Proof.
  unfold after_lease. intros w Hw. unfold _shard_idle, bind at 1 2, connection.
  destruct (w_conns w !! alias) as [c|] eqn:Ec; [|by eapply Hyg_missing]. simpl.
  revert w Hw Ec. intros w Hw _. revert w Hw. apply (wtrip_bind _ (Hyg None)); [apply wtrip_close_shard|].
  intros _. match goal with |- wtrip ?P ?m _ _ => change (wkeeps P m) end. hyg_solve.
Qed.

Lemma wkeeps_migrate_inner opts : wkeeps (Hyg None) (_migrate_tenant pk opts).
Proof.
  unfold _migrate_tenant. unfold load_target. apply wkeeps_load_catch.
  - intros e. hyg_solve.
  - intros e w x w'. repeat case_match; intros [= <- _]; eauto.
  - intros y. apply wkeeps_ret.
  - intros t Ha. apply wkeeps_bind.
    { unfold _open_log. hyg_solve. apply wkeeps_each, wkeeps_log_line. }
    intros _. case_match; [apply wkeeps_ret|]. destruct (_gate _ _ _); [apply wkeeps_ret|].
    apply wkeeps_bind; [unfold noop_shortcut; hyg_solve|]. intros [res|]; [apply wkeeps_ret|].
    apply wkeeps_bind; [unfold take_lease; hyg_solve|]. intros [res|]; [apply wkeeps_ret|].
    apply wkeeps_bind; [auto with hygiene|]. intros _. rewrite Ha.
    eapply wtrip_finally; [|apply wtrip_after_lease..].
    eapply wtrip_conseq; [apply wkeeps_under_lease|intros; by apply Hyg_weaken|done|done].
Qed.

Lemma wkeeps_monotonic d : wkeeps (Hyg d) monotonic.
Proof. apply wkeeps_frame. intros w. unfold monotonic. by destruct (w_clock w). Qed.

Lemma wkeeps_close_log d res secs : wkeeps (Hyg d) (_close_log res secs).
Proof.
  unfold _close_log. hyg_step; [auto with hygiene|]. destruct a as [[path buf]|]; [|auto with hygiene].
  repeat (apply wkeeps_bind; [first [apply wkeeps_log_line|apply wkeeps_each, wkeeps_log_line]|intros ?]).
  auto with hygiene.
Qed.

End programs.

(** C14: if every connection wrapper of the process starts clean (outside
    transactions, on [public], without the migrator's [lock_timeout] and
    [application_name]), then every wrapper is clean after [migrate_tenant],
    whatever it returns or raises and whichever round trips fail, as long as
    the failures are [Exception]s and nobody moves the tenant to another shard
    meanwhile. *)
Theorem migrate_tenant_hygiene `{Invalidator} `{Site} `{Upstream} pk alias opts w :
  Hyg pk alias None w →
  ∀ a c, w_conns (migrate_tenant pk opts w).2 !! a = Some c → conn_clean c.
Proof.
  intros Hw. assert (wkeeps (Hyg pk alias None) (migrate_tenant pk opts)) as Hk.
  { unfold migrate_tenant. apply wkeeps_bind; [apply wkeeps_monotonic|]. intros started w1 Hw1.
    pose proof (wkeeps_migrate_inner pk alias opts w1 Hw1) as Hin.
    destruct (_migrate_tenant pk opts w1) as [[res|e] w2]; revert w2 Hin;
      match goal with |- ∀ w2, _ → match ?m w2 with _ => _ end => change (wkeeps (Hyg pk alias None) m) end;
      hyg_solve; first [apply wkeeps_monotonic|apply wkeeps_close_log]. }
  specialize (Hk w Hw). intros a c Hc.
  destruct (migrate_tenant pk opts w) as [[?|?] w']; by apply (hy_clean _ _ _ _ Hk a c).
Qed.
