(* ===== verification/Scheduler.v ===== *)
(** * The scheduler of migrate_schemas

    Models src/tenants/management/commands/migrate_schemas.py: [pick_next],
    [Target], [Entry], [Stop], [TenantStage], [exit_code], [_settle],
    [_run_sequential], [_run_parallel], [_collect], [_select_targets] and
    [_recheck_locked].  Summary entries are shared mutable objects: they live in
    a store (the command's list of entries) and the queues hold their indices. *)
From S2P Require Import Prelude PyStr Models PyExc Logs World Lease Schema Migrator.
Open Scope tenants_scope.

(** ** pick_next *)

Definition sum_values (m : gmap string Z) : Z := map_fold (λ _ n s, (n + s)%Z) 0%Z m.

Definition count (m : gmap string Z) (k : string) : Z := default 0%Z (m !! k).

(** [sorted(queues)], rotated to start after the shard served last. *)
Definition sorted_keys {A} (queues : gmap string A) : list string :=
  merge_sort str_le (fst <$> map_to_list queues).

Definition rotate (after : option string) (order : list string) : list string :=
  match after with
  | Some a => match list_find (a =.) order with
              | Some (i, _) => drop (S i) order ++ take (S i) order
              | None => order
              end
  | None => order
  end.

Definition eligible {A} (queues : gmap string (list A)) (inflight : gmap string Z) (per_shard : Z)
    (shard : string) : bool :=
  match queues !! shard with
  | Some (_ :: _) => (count inflight shard <? per_shard)%Z
  | _ => false
  end.

Definition pick_next {A} (queues : gmap string (list A)) (inflight : gmap string Z)
    (jobs per_shard : Z) (after : option string) : option string :=
  if (jobs <=? sum_values inflight)%Z then None
  else snd <$> list_find (λ s, eligible queues inflight per_shard s = true)
                 (rotate after (sorted_keys queues)).

(** ** Targets, entries, the stop flag *)

Record Target := mkTarget {
  tg_stage : string;
  tg_schema : string;
  tg_shard : string;
  tg_tenant_id : option Z;
  tg_status_before : option Status;
}.

Inductive EKind := EOk | ENoop | EFailed | ESkipped | ENotRun | EInterrupted | ERunning.

#[global] Instance EKind_eq_dec : EqDecision EKind.
Proof. solve_decision. Defined.

Definition ekind (k : Kind) : EKind :=
  match k with KOk => EOk | KNoop => ENoop | KFailed => EFailed | KSkipped => ESkipped end.

Record Entry := mkEntry {
  e_target : Target;
  e_kind : EKind;
  e_reason : option Reason;            (** [None] is the empty string *)
  e_msg : string;
  e_secs : Z;
  e_invalid_indexes : list string;
  e_conn_error : option string;
  e_rechecked : bool;
  e_snapshot : option Snap;
}.

Definition new_entry (t : Target) : Entry := mkEntry t ENotRun None "" 0 [] None false None.

(** [e.take(res)]. *)
Definition take_result (r : Result) (e : Entry) : Entry :=
  mkEntry (e_target e) (ekind (r_kind r)) (Some (r_reason r)) (r_msg r) (r_secs r)
    (r_invalid_indexes r) (r_conn_error r) (e_rechecked e) (e_snapshot e).

(** [e.kind, e.reason, e.msg = ...] and [e.kind = "running"]. *)
Definition mark (k : EKind) (why : option Reason) (msg : string) (e : Entry) : Entry :=
  mkEntry (e_target e) k why msg (e_secs e) (e_invalid_indexes e) (e_conn_error e)
    (e_rechecked e) (e_snapshot e).
Definition set_kind (k : EKind) (e : Entry) : Entry := mark k (e_reason e) (e_msg e) e.

Inductive StopReason :=
| fail_fast | max_failures_reached | default_unreachable | shared_failed | by_signal | hard_stop | broken_pool.

Record Stop := mkStop { stop_reason : StopReason; stop_shard : option string }.

Definition stop_reason_value (r : StopReason) : string :=
  match r with
  | fail_fast => "fail_fast" | max_failures_reached => "max_failures"
  | default_unreachable => "default_unreachable" | shared_failed => "shared_failed"
  | by_signal => "signal" | hard_stop => "hard_stop" | broken_pool => "broken_pool"
  end.

Definition stop_str (s : Stop) : string :=
  match stop_shard s with
  | Some sh => if String.eqb sh "" then stop_reason_value (stop_reason s)
               else stop_reason_value (stop_reason s) +:+ ":" +:+ sh
  | None => stop_reason_value (stop_reason s)
  end.

(** ** TenantStage *)

Record TenantStage := mkStage {
  st_keep_going : bool;
  st_max_failures : Z;
  st_queues : gmap string (list nat);
  st_inflight : gmap string Z;
  st_consecutive : gmap string Z;
  st_stop : option Stop;
  st_last : option string;
}.

(** The stage and the entries it refers to. *)
Record SState := mkSState {
  s_entries : list Entry;
  s_stage : TenantStage;
}.

Definition upd_stage (f : TenantStage → TenantStage) (s : SState) : SState :=
  mkSState (s_entries s) (f (s_stage s)).
Definition upd_entries (f : list Entry → list Entry) (s : SState) : SState :=
  mkSState (f (s_entries s)) (s_stage s).
Definition set_queues f (st : TenantStage) := mkStage (st_keep_going st) (st_max_failures st)
  (f (st_queues st)) (st_inflight st) (st_consecutive st) (st_stop st) (st_last st).
Definition set_inflight f (st : TenantStage) := mkStage (st_keep_going st) (st_max_failures st)
  (st_queues st) (f (st_inflight st)) (st_consecutive st) (st_stop st) (st_last st).
Definition set_consecutive f (st : TenantStage) := mkStage (st_keep_going st) (st_max_failures st)
  (st_queues st) (st_inflight st) (f (st_consecutive st)) (st_stop st) (st_last st).
Definition set_stop x (st : TenantStage) := mkStage (st_keep_going st) (st_max_failures st)
  (st_queues st) (st_inflight st) (st_consecutive st) x (st_last st).
Definition set_last x (st : TenantStage) := mkStage (st_keep_going st) (st_max_failures st)
  (st_queues st) (st_inflight st) (st_consecutive st) (st_stop st) x.

(** [queues.setdefault(shard, deque()).append(e)]. *)
Definition enqueue (shard : string) (i : nat) (q : gmap string (list nat)) : gmap string (list nat) :=
  <[shard := default [] (q !! shard) ++ [i]]> q.

Definition shard_of (es : list Entry) (i : nat) : string :=
  match es !! i with Some e => tg_shard (e_target e) | None => "" end.

(** [TenantStage.of(entries[base:], ...)]: the entries from [base] on. *)
Definition stage_of (es : list Entry) (base : nat) (keep_going : bool) (max_failures : Z) : TenantStage :=
  mkStage keep_going max_failures
    (foldl (λ q i, enqueue (shard_of es i) i q) ∅ (seq base (length es - base)))
    ∅ ∅ None None.

Definition remaining (st : TenantStage) : bool :=
  existsb (λ q, match q with [] => false | _ => true end) (snd <$> map_to_list (st_queues st)).

(** All queued indices. *)
Definition queued (st : TenantStage) : list nat := concat (snd <$> map_to_list (st_queues st)).

Definition mark_all (is_ : list nat) (f : Entry → Entry) (es : list Entry) : list Entry :=
  foldl (λ es i, alter f i es) es is_.

Definition halt (stop : Stop) (override : bool) (s : SState) : SState :=
  let st := s_stage s in
  let now := match st_stop st with
             | None => stop
             | Some old => if override then stop else old
             end in
  mkSState
    (mark_all (queued st) (mark ENotRun (Some STOPPED) ("not run (Stop: " +:+ stop_str now +:+ ")")) (s_entries s))
    (set_queues (fmap (λ _, [])) (set_stop (Some now) st)).

Definition next (jobs per_shard : Z) (s : SState) : option nat * SState :=
  let st := s_stage s in
  match st_stop st with
  | Some _ => (None, s)
  | None =>
      match pick_next (st_queues st) (st_inflight st) jobs per_shard (st_last st) with
      | None => (None, s)
      | Some shard =>
          match st_queues st !! shard with
          | Some (i :: rest) =>
              (Some i, mkSState (s_entries s)
                 (set_queues (<[shard := rest]>)
                   (set_inflight (λ m, <[shard := (count m shard + 1)%Z]> m)
                     (set_last (Some shard) st))))
          | _ => (None, s)            (* pick_next returns only non-empty queues *)
          end
      end
  end.

(** [stage.done(e)] for the entry with index [i]. *)
Definition done_ (i : nat) (s : SState) : SState :=
  match s_entries s !! i with
  | None => s
  | Some e =>
      let shard := tg_shard (e_target e) in
      let s := upd_stage (set_inflight (λ m, <[shard := (count m shard - 1)%Z]> m)) s in
      if bool_decide (e_conn_error e = Some "default") then halt (mkStop default_unreachable None) false s
      else
        let s :=
          if bool_decide (e_conn_error e = Some "shard") then
            let q := default [] (st_queues (s_stage s) !! shard) in
            mkSState (mark_all q (mark ENotRun (Some SHARD_UNREACHABLE) "shard unreachable") (s_entries s))
                     (set_queues (<[shard := []]>) (s_stage s))
          else if bool_decide (e_kind e = EFailed) then
            upd_stage (set_consecutive (λ m, <[shard := (count m shard + 1)%Z]> m)) s
          else if bool_decide (e_kind e = EOk ∨ e_kind e = ENoop) then
            upd_stage (set_consecutive (<[shard := 0%Z]>)) s
          else s in
        if negb (bool_decide (e_kind e = EFailed)) || negb (bool_decide (st_stop (s_stage s) = None)) then s
        else if negb (st_keep_going (s_stage s)) then
          if remaining (s_stage s) then halt (mkStop fail_fast None) false s else s
        else if (st_max_failures (s_stage s) <=? count (st_consecutive (s_stage s)) shard)%Z
        then halt (mkStop max_failures_reached (Some shard)) false s
        else s
  end.

Definition exit_code (entries : list Entry) (stop : option Stop) : Z :=
  if bool_decide (stop = None)
     && forallb (λ e, bool_decide (e_kind e = EOk ∨ e_kind e = ENoop)) entries
  then 0%Z else 1%Z.

(** [_settle]: the entries and the indices that were running. *)
Definition settle_entry (stop : option Stop) (kind : EKind) (reason : Reason) (msg : string) (e : Entry) : Entry :=
  if bool_decide (e_kind e = ERunning) then mark kind (Some reason) msg e
  else if bool_decide (e_kind e = ENotRun) && bool_decide (e_reason e = None)
  then mark ENotRun (Some STOPPED)
         ("not run (Stop: " +:+ match stop with Some s => stop_str s | None => "error" end +:+ ")") e
  else e.

Definition _settle (stop : option Stop) (kind : EKind) (reason : Reason) (msg : string) (es : list Entry) :
    list Entry * list nat :=
  (settle_entry stop kind reason msg <$> es,
   filter (λ i, (e_kind <$> es !! i) = Some ERunning) (seq 0 (length es))).

(** ** The sequential loop

    [drain n] tells whether a signal was seen before iteration [n], [work n i]
    is what [migrate_tenant] returns (or raises) for the entry it runs then. *)
Fixpoint run_sequential (fuel n : nat) (drain : nat → bool) (work : nat → nat → res exn Result) (s : SState) :
    option (res exn unit * SState) :=
  match fuel with
  | O => None
  | S fuel' =>
      let s := if drain n then halt (mkStop by_signal None) false s else s in
      match next 1 1 s with
      | (None, s) => Some (Ok tt, s)
      | (Some i, s) =>
          let s := upd_entries (alter (set_kind ERunning) i) s in
          match work n i with
          | Err e => Some (Err e, s)
          | Ok r =>
              run_sequential fuel' (S n) drain work (done_ i (upd_entries (alter (take_result r) i) s))
          end
      end
  end.

(** ** The parallel loop as a transition system

    The parent's state: the scheduler's and the running futures.  A worker's
    answer is its result or the exception [migrate_tenant] raised there. *)
Definition collect (f : res exn Result) (e : Entry) : Entry :=
  match f with
  | Ok r => take_result r e
  | Err x => mark EFailed (Some MIGRATION_ERROR) (exc_msg x) e
  end.

Record Pool := mkPool { po_state : SState; po_running : list nat }.

Definition remove_one (i : nat) (l : list nat) : list nat := filter (λ j, j ≠ i) l.

Definition cut_msg (hard : bool) : string :=
  if hard then "interrupted (hard stop)" else "interrupted: a pool worker died (BrokenProcessPool)".

Inductive pool_step (jobs per_shard : Z) : Pool → Pool → Prop :=
| pool_drain s run :
    pool_step jobs per_shard (mkPool s run) (mkPool (halt (mkStop by_signal None) false s) run)
| pool_submit s run i s' :
    next jobs per_shard s = (Some i, s') →
    pool_step jobs per_shard (mkPool s run)
      (mkPool (upd_entries (alter (set_kind ERunning) i) s') (run ++ [i]))
| pool_complete s run i f :
    i ∈ run →
    pool_step jobs per_shard (mkPool s run)
      (mkPool (done_ i (upd_entries (alter (collect f) i) s)) (remove_one i run))
| pool_broken s run (hard : bool) :
    run ≠ [] →
    pool_step jobs per_shard (mkPool s run)
      (mkPool (upd_entries (mark_all run (mark EInterrupted (Some HARD_STOP) (cut_msg hard)))
                 (halt (mkStop (if hard then hard_stop else broken_pool) None) true s)) []).

(** [if not running: return] after [next] gave nothing. *)
Definition pool_finished (jobs per_shard : Z) (p : Pool) : Prop :=
  po_running p = [] ∧ (next jobs per_shard (po_state p)).1 = None.

(** ** Selecting targets *)

Definition target_of (t : TenantObj) : Target :=
  mkTarget "tenant" (o_schema t) (o_alias t) (Some (o_pk t)) (Some (o_status t)).

(** [-s X] gives that tenant; otherwise the provisionable and upgradable tenants
    of the active non-default shards (of [database] only, when given), ordered
    by [order] if the site configures one, else by primary key. *)
Definition selectable (database : option string) (t : TenantObj) : bool :=
  mem (o_status t) (PROVISIONABLE ++ UPGRADABLE)
  && negb (sh_is_default (o_shard t)) && sh_is_active (o_shard t)
  && negb (String.eqb (o_schema t) "public")
  && match database with
     | Some d => String.eqb d "" || String.eqb (o_alias t) d
     | None => true
     end.

Definition all_tenants (g : Registry) : list TenantObj :=
  omap (get_tenant g) (merge_sort Z.le (fst <$> map_to_list (g_tenants g))).

Definition _select_targets (g : Registry) (tenant : option TenantObj) (database : option string)
    (order : option (list TenantObj → list TenantObj)) : list Target :=
  match tenant with
  | Some t => [target_of t]
  | None =>
      let qs := filter (λ t, selectable database t = true) (all_tenants g) in
      target_of <$> (match order with Some f => f qs | None => qs end)
  end.

(** ** Re-checking locked skips *)

Section recheck.
Context `{Invalidator} `{Site} `{Upstream}.

Definition _recheck (reason : Reason) (msg : string) (e : Entry) : Entry :=
  mkEntry (e_target e) EOk (Some reason) msg (e_secs e) (e_invalid_indexes e) (e_conn_error e)
    true (e_snapshot e).

(** [Tenant.objects.select_related("shard").get(pk=...)] without [_fresh]. *)
Definition get_by_pk (pk : option Z) : M TenantObj :=
  query "default" (λ v,
    (match (pk ≫= get_tenant (v_reg v)) with Some t => Ok t | None => Err does_not_exist end, v, [])).

Definition recheck_entry (e : Entry) : M Entry :=
  if negb (bool_decide (e_kind e = ESkipped) && bool_decide (e_reason e = Some LOCKED)) then ret e
  else
    catch
      (t <-! get_by_pk (tg_tenant_id (e_target e)) ;;
       if mem (o_status t) UPGRADABLE then
         plan <-! pending_plan t ;;
         ret (if bool_decide (plan = Some []) then
                if match tg_status_before (e_target e) with
                   | Some s => mem s PROVISIONABLE | None => false end
                then _recheck DONE_BY_ANOTHER_RUN "provisioned by another run" e
                else _recheck DONE_BY_ANOTHER_RUN "done by another run" e
              else e)
       else if bool_decide (o_status t = PENDING) then
         h <-! lease_holder (o_pk t) ;;
         ret (match h with
              | Some h => if negb (lh_expired h)
                          then _recheck PROVISIONING_ELSEWHERE
                                 ("provisioning in progress elsewhere (" +:+ lh_owner h +:+ ")") e
                          else e
              | None => e
              end)
       else ret e)
      (λ _, ret e).

Fixpoint _recheck_locked (es : list Entry) : M (list Entry) :=
  match es with
  | [] => ret []
  | e :: es' => e' <-! recheck_entry e ;; es'' <-! _recheck_locked es' ;; ret (e' :: es'')
  end.

End recheck.
