(* ===== verification/SchedulerFacts.v ===== *)
(** * Properties of the scheduler

    Fairness of [pick_next]; the limits and the bookkeeping of the tenant stage
    under any order of completions; termination and outcome of the sequential
    loop; the exit code. *)
From S2P Require Import Prelude PyStr Models PyExc Logs World Lease Schema Migrator Scheduler.

(** ** Counters *)

Lemma sum_values_insert_new m k n : m !! k = None → sum_values (<[k := n]> m) = (n + sum_values m)%Z.
Proof.
  intros Hk. unfold sum_values. rewrite map_fold_insert_L; [done| |done]. intros. lia.
Qed.

Lemma sum_values_add m k d : sum_values (<[k := (count m k + d)%Z]> m) = (sum_values m + d)%Z.
Proof.
  unfold count. destruct (m !! k) as [n|] eqn:Hk; simpl.
  - assert (sum_values m = (n + sum_values (delete k m))%Z) as ->.
    { rewrite <- (insert_delete_id m k n Hk) at 1. apply sum_values_insert_new, lookup_delete_eq. }
    rewrite <- insert_delete_eq, sum_values_insert_new by apply lookup_delete_eq. lia.
  - rewrite sum_values_insert_new by done. lia.
Qed.

Lemma count_insert m k n k' : count (<[k := n]> m) k' = if decide (k = k') then n else count m k'.
Proof. unfold count. case_decide as E; [by subst; rewrite lookup_insert_eq|by rewrite lookup_insert_ne]. Qed.

(** ** pick_next *)

Lemma rotate_perm after order : rotate after order ≡ₚ order.
Proof.
  unfold rotate. destruct after as [a|]; [|done]. destruct (list_find _ _) as [[i x]|]; [|done].
  rewrite Permutation_app_comm. by rewrite take_drop.
Qed.

Lemma sorted_keys_elem {A} (q : gmap string A) s : s ∈ sorted_keys q ↔ is_Some (q !! s).
Proof.
  unfold sorted_keys. rewrite merge_sort_Permutation, list_elem_of_fmap. split.
  - intros ([k v] & -> & Hin). apply elem_of_map_to_list in Hin. by exists v.
  - intros [v Hv]. exists (s, v). split; [done|]. by apply elem_of_map_to_list.
Qed.

Lemma sorted_keys_NoDup {A} (q : gmap string A) : NoDup (sorted_keys q).
Proof. unfold sorted_keys. rewrite merge_sort_Permutation. apply NoDup_fst_map_to_list. Qed.

Lemma eligible_key {A} (q : gmap string (list A)) infl n s : eligible q infl n s = true → is_Some (q !! s).
Proof. unfold eligible. destruct (q !! s); [by eexists|done]. Qed.

Lemma pick_next_some {A} (q : gmap string (list A)) infl jobs n after s :
  pick_next q infl jobs n after = Some s →
  (sum_values infl < jobs)%Z ∧ eligible q infl n s = true.
Proof.
  unfold pick_next. case_match eqn:E; [done|]. bool_props.
  destruct (list_find _ _) as [[i x]|] eqn:Ef; [|done]. apply list_find_Some in Ef as (_ & He & _).
  simpl. intros [= <-]. done.
Qed.

Lemma pick_next_none {A} (q : gmap string (list A)) infl jobs n after :
  pick_next q infl jobs n after = None →
  (jobs ≤ sum_values infl)%Z ∨ ∀ s, eligible q infl n s = false.
Proof.
  unfold pick_next. case_match eqn:E; [bool_props; auto|].
  destruct (list_find _ _) as [[i x]|] eqn:Ef; [done|]. intros _. right. intros s.
  apply list_find_None in Ef. rewrite Forall_forall in Ef. destruct (eligible q infl n s) eqn:He; [|done].
  exfalso. apply (Ef s); [|done]. rewrite rotate_perm. apply sorted_keys_elem. by eapply eligible_key.
Qed.

(** The shard served last comes last. *)
Lemma rotate_last a order :
  NoDup order → a ∈ order → ∃ l, rotate (Some a) order = l ++ [a].
Proof.
  intros Hnd Hin. unfold rotate. destruct (list_find (a =.) order) as [[i x]|] eqn:Ef.
  - apply list_find_Some in Ef as (Hi & <- & _). exists (drop (S i) order ++ take i order).
    rewrite (take_S_r _ _ a) by done. by rewrite app_assoc.
  - apply list_find_None in Ef. rewrite Forall_forall in Ef. by destruct (Ef a Hin).
Qed.

(** [pick_next] respects both limits and picks a shard with work; it
    returns nothing only when the global limit is reached or no shard has work
    and room; and it is fair: the shard served last is picked again only when
    no other shard has work and room. *)
Theorem pick_next_correct {A} (q : gmap string (list A)) infl jobs per_shard after :
  (∀ s, pick_next q infl jobs per_shard after = Some s →
     (sum_values infl < jobs)%Z ∧ (count infl s < per_shard)%Z ∧ ∃ x rest, q !! s = Some (x :: rest))
  ∧ (pick_next q infl jobs per_shard after = None →
     (jobs ≤ sum_values infl)%Z
     ∨ ∀ s x rest, q !! s = Some (x :: rest) → (per_shard ≤ count infl s)%Z)
  ∧ (∀ s s' x rest, after = Some s → pick_next q infl jobs per_shard after = Some s →
     q !! s' = Some (x :: rest) → (count infl s' < per_shard)%Z → s' = s).
Proof.
  split; [|split].
  - intros s [Hj He]%pick_next_some. unfold eligible in He.
    destruct (q !! s) as [[|x rest]|] eqn:Eq; try done. bool_props. eauto.
  - intros [?|Hn]%pick_next_none; [by left|right]. intros s x rest Hq. specialize (Hn s).
    unfold eligible in Hn. rewrite Hq in Hn. by bool_props.
  - intros s s' x rest -> Hp Hq Hc.
    assert (eligible q infl per_shard s' = true) as He'
      by (unfold eligible; rewrite Hq; by apply Z.ltb_lt).
    pose proof (pick_next_some _ _ _ _ _ _ Hp) as [_ He]. unfold pick_next in Hp.
    case_match; [done|]. destruct (list_find _ _) as [[i y]|] eqn:Ef; [|done]. injection Hp as ->.
    apply list_find_Some in Ef as (Hi & _ & Hfirst).
    destruct (rotate_last s (sorted_keys q)) as [l El];
      [apply sorted_keys_NoDup|apply sorted_keys_elem; by eapply eligible_key|].
    rewrite El in Hi, Hfirst. destruct (decide (s' = s)) as [|Hne]; [done|exfalso].
    assert (s' ∈ l ++ [s]) as Hin.
    { rewrite <- El, rotate_perm. apply sorted_keys_elem. by eexists. }
    apply elem_of_app in Hin as [Hin|Hin%list_elem_of_singleton]; [|done].
    apply list_elem_of_lookup in Hin as [j Hj]. pose proof (lookup_lt_Some _ _ _ Hj) as Hlt.
    assert (NoDup (l ++ [s])) as Hnd by (rewrite <- El, rotate_perm; apply sorted_keys_NoDup).
    assert (i = length l) as ->.
    { eapply NoDup_lookup; [done|done|]. rewrite lookup_app_r by lia. by rewrite Nat.sub_diag. }
    apply (Hfirst j s'); [by apply lookup_app_l_Some|lia|done].
Qed.

(** ** The store of entries *)

Lemma mark_twice k r m e : mark k r m (mark k r m e) = mark k r m e.
Proof. done. Qed.

Lemma mark_all_lookup l k r m es i :
  mark_all l (mark k r m) es !! i = (if decide (i ∈ l) then mark k r m <$> es !! i else es !! i).
Proof.
  revert es. induction l as [|j l IH]; intros es; simpl; [done|]. rewrite IH.
  destruct (decide (i = j)) as [->|Hne].
  - rewrite list_lookup_alter_eq, (decide_True (P := j ∈ j :: l)) by (by left).
    case_decide; [|done]. by destruct (es !! j).
  - rewrite list_lookup_alter_ne by done. case_decide; case_decide; set_solver.
Qed.

(** Updates that keep the target of every entry. *)
Definition same_targets (es es' : list Entry) : Prop := ∀ i, e_target <$> es' !! i = e_target <$> es !! i.

Lemma same_targets_shard es es' i : same_targets es es' → shard_of es' i = shard_of es i.
Proof.
  intros Hs. specialize (Hs i). unfold shard_of. destruct (es !! i), (es' !! i); simpl in *; congruence.
Qed.

Lemma same_targets_mark_all l k r m es : same_targets es (mark_all l (mark k r m) es).
Proof. intros i. rewrite mark_all_lookup. case_decide; [|done]. by destruct (es !! i). Qed.

Lemma same_targets_alter f i es : (∀ e, e_target (f e) = e_target e) → same_targets es (alter f i es).
Proof.
  intros Hf j. destruct (decide (i = j)) as [->|Hne];
    [rewrite list_lookup_alter_eq; destruct (es !! j); simpl; by rewrite ?Hf|by rewrite list_lookup_alter_ne].
Qed.

Lemma queued_elem st i : i ∈ queued st ↔ ∃ s q, st_queues st !! s = Some q ∧ i ∈ q.
Proof.
  unfold queued. rewrite list_elem_of_In, in_concat. setoid_rewrite <- list_elem_of_In. split.
  - intros (q & Hq & Hi). apply list_elem_of_fmap in Hq as ([s q'] & -> & Hq).
    apply elem_of_map_to_list in Hq. eauto.
  - intros (s & q & Hq & Hi). exists q. split; [|done]. apply list_elem_of_fmap. exists (s, q).
    split; [done|]. by apply elem_of_map_to_list.
Qed.

(** ** The invariant of the stage with its running entries *)

(** Final for the summary: not running, and explained when not run. *)
Definition settled_entry (e : Entry) : Prop :=
  e_kind e ≠ ERunning ∧ (e_kind e = ENotRun → e_reason e ≠ None).

Definition running_on (es : list Entry) (run : list nat) (s : string) : Z :=
  Z.of_nat (length (filter (λ i, shard_of es i = s) run)).

Record StageInv (jobs per_shard : Z) (s : SState) (run : list nat) : Prop := {
  (** queues hold distinct entries of their shard, none of them running *)
  si_queue : ∀ sh q, st_queues (s_stage s) !! sh = Some q →
     NoDup q ∧ ∀ i, i ∈ q → i < length (s_entries s) ∧ shard_of (s_entries s) i = sh ∧ (i ∉ run);
  si_run : NoDup run ∧ ∀ i, i ∈ run → i < length (s_entries s);
  (** the counters count *)
  si_count : ∀ sh, count (st_inflight (s_stage s)) sh = running_on (s_entries s) run sh;
  si_sum : sum_values (st_inflight (s_stage s)) = Z.of_nat (length run);
  (** the limits *)
  si_jobs : (Z.of_nat (length run) ≤ jobs)%Z;
  si_per_shard : ∀ sh, (running_on (s_entries s) run sh ≤ per_shard)%Z;
  (** no entry is lost *)
  si_entries : ∀ i e, s_entries s !! i = Some e →
     (i ∈ queued (s_stage s) ∧ e_kind e = ENotRun) ∨ (i ∈ run ∧ e_kind e = ERunning)
     ∨ ((i ∉ queued (s_stage s)) ∧ (i ∉ run) ∧ settled_entry e);
  si_stop : st_stop (s_stage s) ≠ None → queued (s_stage s) = [];
}.

Lemma running_on_same es es' run sh :
  same_targets es es' → running_on es' run sh = running_on es run sh.
Proof.
  intros Hs. unfold running_on. do 2 f_equal. apply list_filter_iff. intros i.
  by rewrite (same_targets_shard es es').
Qed.

Lemma mark_all_length l f es : length (mark_all l f es) = length es.
Proof. revert es. induction l as [|i l IH]; intros es; simpl; [done|]. by rewrite IH, length_alter. Qed.

Lemma queued_cleared st q : queued (set_queues (fmap (λ _, [])) (set_stop q st)) = [].
Proof.
  destruct (queued _) as [|i l] eqn:E; [done|]. assert (i ∈ i :: l) as Hi by left.
  rewrite <- E in Hi. apply queued_elem in Hi as (s & x & Hx & Hi). simpl in Hx.
  rewrite lookup_fmap in Hx. destruct (st_queues st !! s); simplify_eq/=. by apply not_elem_of_nil in Hi.
Qed.

Lemma inv_halt jobs per_shard stop ov s run :
  StageInv jobs per_shard s run → StageInv jobs per_shard (halt stop ov s) run.
Proof.
  intros []. unfold halt. set (now := match st_stop (s_stage s) with None => stop | Some old => if ov then stop else old end).
  set (es' := mark_all _ _ _).
  assert (same_targets (s_entries s) es') as Hsame by apply same_targets_mark_all.
  split; cbn -[queued]; rewrite ?queued_cleared.
  - intros sh q. rewrite lookup_fmap. destruct (st_queues (s_stage s) !! sh); [|done]. intros [= <-].
    split; [constructor|]. intros i Hi. by apply not_elem_of_nil in Hi.
  - unfold es'. rewrite mark_all_length. done.
  - intros sh. by rewrite (running_on_same (s_entries s)).
  - done.
  - done.
  - intros sh. rewrite (running_on_same (s_entries s)) by done. done.
  - intros i e. unfold es'. rewrite mark_all_lookup. case_decide as Hq.
    + intros Hi. destruct (s_entries s !! i) as [e0|] eqn:E0; simplify_eq/=. right. right.
      apply queued_elem in Hq as (sh & q & Hq & Hin). destruct (si_queue0 _ _ Hq) as [_ Hqi].
      repeat split; [apply not_elem_of_nil|by apply Hqi|done|done].
    + intros Hi. destruct (si_entries0 i e Hi) as [[? _]|[?|(? & ? & ?)]]; [done|auto|].
      right. right. repeat split; auto using not_elem_of_nil; apply H1.
  - done.
Qed.

Lemma inv_consecutive jobs per_shard f s run :
  StageInv jobs per_shard s run → StageInv jobs per_shard (upd_stage (set_consecutive f) s) run.
Proof. intros []. by split. Qed.

(** Clearing one queue, its entries marked as not run. *)
Lemma inv_clear jobs per_shard sh why msg s run :
  StageInv jobs per_shard s run →
  StageInv jobs per_shard
    (mkSState (mark_all (default [] (st_queues (s_stage s) !! sh)) (mark ENotRun (Some why) msg) (s_entries s))
              (set_queues (<[sh := []]>) (s_stage s))) run.
Proof.
  intros []. set (q0 := default [] _). set (es' := mark_all _ _ _).
  assert (same_targets (s_entries s) es') as Hsame by apply same_targets_mark_all.
  assert (∀ i, i ∈ queued (set_queues (<[sh := []]>) (s_stage s)) ↔ i ∈ queued (s_stage s) ∧ i ∉ q0) as Hq.
  { intros i. rewrite !queued_elem. simpl. split.
    - intros (sh' & q & Hq & Hi). destruct (decide (sh = sh')) as [->|Hne].
      + rewrite lookup_insert_eq in Hq. simplify_eq. by apply not_elem_of_nil in Hi.
      + rewrite lookup_insert_ne in Hq by done. split; [eauto|]. intros Hi0. unfold q0 in Hi0.
        destruct (st_queues (s_stage s) !! sh) as [q1|] eqn:E1; [|by apply not_elem_of_nil in Hi0].
        destruct (si_queue0 _ _ E1) as [_ H1]. destruct (si_queue0 _ _ Hq) as [_ H2].
        destruct (H1 i Hi0) as (_ & <- & _). by destruct (H2 i Hi) as (_ & ? & _).
    - intros [(sh' & q & Hq & Hi) Hni]. exists sh', q. split; [|done].
      destruct (decide (sh = sh')) as [->|Hne]; [|by rewrite lookup_insert_ne].
      unfold q0 in Hni. by rewrite Hq in Hni. }
  split; cbn -[queued].
  - intros sh' q. destruct (decide (sh = sh')) as [->|Hne].
    + rewrite lookup_insert_eq. intros [= <-]. split; [constructor|]. intros i Hi. by apply not_elem_of_nil in Hi.
    + rewrite lookup_insert_ne by done. intros Hq'. destruct (si_queue0 _ _ Hq') as [? Hqi].
      unfold es'. rewrite mark_all_length. split; [done|]. intros i Hi.
      by rewrite (same_targets_shard (s_entries s)) by done; apply Hqi.
  - unfold es'. by rewrite mark_all_length.
  - intros sh'. by rewrite (running_on_same (s_entries s)).
  - done.
  - done.
  - intros sh'. by rewrite (running_on_same (s_entries s)) by done.
  - intros i e. unfold es'. rewrite mark_all_lookup, Hq. case_decide as Hi0.
    + intros Hi. destruct (s_entries s !! i) as [e0|] eqn:E0; simplify_eq/=. right. right.
      unfold q0 in Hi0. destruct (st_queues (s_stage s) !! sh) as [q1|] eqn:E1; [|by apply not_elem_of_nil in Hi0].
      destruct (si_queue0 _ _ E1) as [_ H1]. repeat split; [tauto|by apply H1|done|done].
    + intros Hi. destruct (si_entries0 i e Hi) as [[? ?]|[?|(? & ? & ?)]]; [auto|auto|]. right. right.
      split; [tauto|done].
  - intros Hs. destruct (queued (set_queues (<[sh := []]>) (s_stage s))) as [|i l] eqn:E; [done|]. assert (i ∈ i :: l) as Hi by left.
    apply Hq in Hi as [Hi _]. rewrite si_stop0 in Hi by done. by apply not_elem_of_nil in Hi.
Qed.

Lemma next_some jobs per_shard s i s' :
  next jobs per_shard s = (Some i, s') →
  ∃ sh rest, st_stop (s_stage s) = None ∧ st_queues (s_stage s) !! sh = Some (i :: rest)
    ∧ (sum_values (st_inflight (s_stage s)) < jobs)%Z
    ∧ (count (st_inflight (s_stage s)) sh < per_shard)%Z
    ∧ s' = mkSState (s_entries s)
             (set_queues (<[sh := rest]>)
               (set_inflight (λ m, <[sh := (count m sh + 1)%Z]> m) (set_last (Some sh) (s_stage s)))).
Proof.
  unfold next. destruct (st_stop (s_stage s)); [done|].
  destruct (pick_next _ _ _ _ _) as [sh|] eqn:Ep; [|done]. apply pick_next_some in Ep as [Hj He].
  destruct (st_queues (s_stage s) !! sh) as [[|j rest]|] eqn:Eq; [done| |done]. intros [= -> <-].
  unfold eligible in He. rewrite Eq in He. bool_props. eauto 10.
Qed.

Lemma running_on_app es run run' sh :
  running_on es (run ++ run') sh = (running_on es run sh + running_on es run' sh)%Z.
Proof. unfold running_on. rewrite filter_app, length_app. lia. Qed.

Lemma running_on_one es i sh : running_on es [i] sh = if decide (shard_of es i = sh) then 1%Z else 0%Z.
Proof. unfold running_on. cbn [filter list_filter]. by case_decide. Qed.

(** Taking the head of one queue takes that index off the queued ones. *)
Lemma queued_pop jobs per_shard s run sh i rest :
  StageInv jobs per_shard s run → st_queues (s_stage s) !! sh = Some (i :: rest) →
  ∀ j, j ∈ queued (set_queues (<[sh := rest]>) (s_stage s)) ↔ j ∈ queued (s_stage s) ∧ j ≠ i.
Proof.
  intros [] Hsh j. destruct (si_queue0 _ _ Hsh) as [Hnd Hqi]. apply NoDup_cons in Hnd as [Hnr Hnd].
  destruct (Hqi i ltac:(left)) as (Hlt & Hshard & Hnrun). rewrite !queued_elem. simpl. split.
  - intros (sh' & q & Hq & Hj). destruct (decide (sh = sh')) as [->|Hne].
    + rewrite lookup_insert_eq in Hq. simplify_eq. split; [|by intros ->].
      eexists _, _. split; [done|]. by right.
    + rewrite lookup_insert_ne in Hq by done. split; [eauto|]. intros ->.
      destruct (si_queue0 _ _ Hq) as [_ H2]. by destruct (H2 i Hj) as (_ & ? & _); congruence.
  - intros [(sh' & q & Hq & Hj) Hne]. destruct (decide (sh = sh')) as [->|Hns].
    + exists sh', rest. rewrite lookup_insert_eq. split; [done|]. rewrite Hsh in Hq. simplify_eq.
      by apply elem_of_cons in Hj as [?|?].
    + exists sh', q. by rewrite lookup_insert_ne.
Qed.

Lemma inv_submit jobs per_shard s run i s' :
  StageInv jobs per_shard s run → next jobs per_shard s = (Some i, s') →
  StageInv jobs per_shard (upd_entries (alter (set_kind ERunning) i) s') (run ++ [i]).
Proof.
  intros Hinv (sh & rest & Hstop & Hsh & Hsum & Hcnt & ->)%next_some.
  pose proof (queued_pop _ _ _ _ _ _ _ Hinv Hsh) as Hq. destruct Hinv.
  destruct (si_queue0 _ _ Hsh) as [Hnd Hqi]. apply NoDup_cons in Hnd as [Hnr Hnd].
  destruct (Hqi i ltac:(left)) as (Hlt & Hshard & Hnrun).
  set (es' := alter (set_kind ERunning) i (s_entries s)).
  assert (same_targets (s_entries s) es') as Hsame by (by apply same_targets_alter).
  split; cbn -[queued].
  - intros sh' q. unfold es'. rewrite length_alter. fold es'. destruct (decide (sh = sh')) as [->|Hne].
    + rewrite lookup_insert_eq. intros [= <-]. split; [done|]. intros j Hj.
      destruct (Hqi j ltac:(by right)) as (? & ? & ?). rewrite (same_targets_shard (s_entries s)) by done.
      split; [done|]. split; [done|]. rewrite elem_of_app, list_elem_of_singleton. intros [?| ->]; done.
    + rewrite lookup_insert_ne by done. intros Hq'. destruct (si_queue0 _ _ Hq') as [? H2].
      split; [done|]. intros j Hj. destruct (H2 j Hj) as (? & ? & ?).
      rewrite (same_targets_shard (s_entries s)) by done. split; [done|]. split; [done|].
      rewrite elem_of_app, list_elem_of_singleton. intros [?| ->]; [done|congruence].
  - unfold es'. rewrite length_alter. split.
    + apply NoDup_app. split; [apply si_run0|]. split; [|apply NoDup_singleton].
      intros j Hj ->%list_elem_of_singleton. done.
    + intros j. rewrite elem_of_app, list_elem_of_singleton. intros [?| ->]; [by apply si_run0|done].
  - intros sh'. rewrite count_insert, (running_on_same (s_entries s)), running_on_app, running_on_one, Hshard by done.
    rewrite <- si_count0. case_decide as E; [by subst|lia].
  - rewrite sum_values_add, length_app. simpl. lia.
  - rewrite length_app. simpl. lia.
  - intros sh'. rewrite (running_on_same (s_entries s)), running_on_app, running_on_one, Hshard by done.
    specialize (si_per_shard0 sh'). case_decide as E; [|lia]. subst sh'. rewrite <- si_count0. lia.
  - intros j e. change (queued _) with (queued (set_queues (<[sh := rest]>) (s_stage s))). rewrite Hq.
    rewrite elem_of_app, list_elem_of_singleton. unfold es'. destruct (decide (i = j)) as [->|Hne].
    + rewrite list_lookup_alter_eq. intros Hj. destruct (s_entries s !! j); simplify_eq/=. auto.
    + rewrite list_lookup_alter_ne by done. intros Hj.
      destruct (si_entries0 j e Hj) as [[? ?]|[[? ?]|(? & ? & ?)]]; [auto|auto|]. right. right.
      split; [tauto|]. split; [|done]. intros [?|?]; [done|congruence].
  - by rewrite Hstop.
Qed.

(** ** Completions *)

(** What a finished target's entry looks like. *)
Definition outcome_fn (f : Entry → Entry) : Prop :=
  ∀ e, e_target (f e) = e_target e
       ∧ (e_kind (f e) = EOk ∨ e_kind (f e) = ENoop ∨ e_kind (f e) = EFailed ∨ e_kind (f e) = ESkipped).

Lemma outcome_take r : outcome_fn (take_result r).
Proof. intros e. split; [done|]. simpl. destruct (r_kind r); simpl; auto. Qed.

Lemma outcome_collect f : outcome_fn (collect f).
Proof. destruct f as [r|x]; [apply outcome_take|]. intros e. simpl. auto. Qed.

Lemma outcome_settled f e : outcome_fn f → settled_entry (f e).
Proof. intros Hf. destruct (Hf e) as [_ Hk]. split; intros E; rewrite E in Hk; naive_solver. Qed.

Lemma remove_one_running es i run sh :
  NoDup run → i ∈ run →
  running_on es (remove_one i run) sh = (running_on es run sh - running_on es [i] sh)%Z
  ∧ S (length (remove_one i run)) = length run.
Proof.
  intros Hnd Hi. apply list_elem_of_split in Hi as (l1 & l2 & ->).
  assert (remove_one i (l1 ++ i :: l2) = l1 ++ l2) as ->.
  { apply NoDup_app in Hnd as (H1 & H2 & H3). apply NoDup_cons in H3 as [H3 _]. unfold remove_one.
    rewrite filter_app, filter_cons_False by (by intros ?).
    f_equal; apply filter_all; intros j Hj ->; [|done].
    apply (H2 i Hj). by left. }
  split; [|rewrite !length_app; simpl; lia].
  change (i :: l2) with ([i] ++ l2). rewrite !running_on_app. lia.
Qed.

(** The entry leaves the running ones with its outcome. *)
Lemma inv_leave jobs per_shard f s run i :
  outcome_fn f → StageInv jobs per_shard s run → i ∈ run →
  let sh := shard_of (s_entries s) i in
  StageInv jobs per_shard
    (upd_stage (set_inflight (λ m, <[sh := (count m sh - 1)%Z]> m)) (upd_entries (alter f i) s))
    (remove_one i run).
Proof.
  intros Hf [] Hi sh. set (es' := alter f i (s_entries s)).
  assert (same_targets (s_entries s) es') as Hsame by (apply same_targets_alter; apply Hf).
  destruct si_run0 as [Hnd Hlt].
  assert (∀ j, j ∈ remove_one i run ↔ j ∈ run ∧ j ≠ i) as Hrem.
  { intros j. unfold remove_one. rewrite list_elem_of_filter. tauto. }
  assert (∀ sh', running_on es' (remove_one i run) sh'
            = (running_on (s_entries s) run sh' - if decide (sh = sh') then 1 else 0)%Z) as Hrun.
  { intros sh'. rewrite (running_on_same (s_entries s)) by done.
    destruct (remove_one_running (s_entries s) i run sh' Hnd Hi) as [-> _]. by rewrite running_on_one. }
  destruct (remove_one_running (s_entries s) i run sh Hnd Hi) as [_ Hlen].
  split; cbn -[queued]; fold es'.
  - intros sh' q Hq. destruct (si_queue0 _ _ Hq) as [? H2]. split; [done|]. intros j Hj.
    destruct (H2 j Hj) as (? & ? & ?). rewrite (same_targets_shard (s_entries s)) by done.
    unfold es'. rewrite length_alter, Hrem. tauto.
  - unfold es'. rewrite length_alter. split; [by apply NoDup_filter|]. intros j [? _]%Hrem. auto.
  - intros sh'. rewrite count_insert, Hrun, <- !si_count0. case_decide as E; [by subst|lia].
  - replace (count _ sh - 1)%Z with (count (st_inflight (s_stage s)) sh + -1)%Z by lia.
    rewrite sum_values_add. lia.
  - lia.
  - intros sh'. rewrite Hrun. specialize (si_per_shard0 sh'). case_decide; lia.
  - intros j e. change (queued _) with (queued (s_stage s)). rewrite Hrem. unfold es'.
    destruct (decide (i = j)) as [->|Hne].
    + rewrite list_lookup_alter_eq. intros Hj. destruct (s_entries s !! j) as [e0|] eqn:E0; simplify_eq/=.
      right. right. split; [|split; [tauto|by apply outcome_settled]].
      intros (sh' & q & Hq & Hin)%queued_elem. by destruct (si_queue0 _ _ Hq) as [_ H2]; destruct (H2 j Hin) as (_ & _ & ?).
    + rewrite list_lookup_alter_ne by done. intros Hj.
      destruct (si_entries0 j e Hj) as [?|[[? ?]|(? & ? & ?)]]; [auto| |]; [right; left|right; right];
        repeat split; try done; try tauto; apply H1.
  - done.
Qed.

Lemma inv_done jobs per_shard f s run i :
  outcome_fn f → StageInv jobs per_shard s run → i ∈ run →
  StageInv jobs per_shard (done_ i (upd_entries (alter f i) s)) (remove_one i run).
Proof.
  intros Hf Hinv Hi. unfold done_. simpl. rewrite list_lookup_alter_eq.
  destruct (s_entries s !! i) as [e|] eqn:Ee; simpl.
  2: { destruct Hinv. apply lookup_ge_None in Ee. apply si_run0 in Hi. lia. }
  pose proof (inv_leave jobs per_shard f s run i Hf Hinv Hi) as Hl.
  unfold shard_of in Hl. rewrite Ee in Hl. destruct (Hf e) as [-> _]. simpl in Hl.
  set (s1 := upd_stage _ _) in Hl |- *.
  case_bool_decide; [by apply inv_halt|].
  match goal with |- context [negb _ || negb (bool_decide (st_stop (s_stage ?s2) = None))] =>
    assert (StageInv jobs per_shard s2 (remove_one i run)) as H2 end.
  { case_bool_decide;
      [by apply (inv_clear _ _ (tg_shard (e_target e)) SHARD_UNREACHABLE "shard unreachable" s1)|].
    repeat case_bool_decide; auto using inv_consecutive. }
  revert H2. match goal with |- StageInv _ _ ?s2 _ → _ => generalize s2 end. intros s2 H2.
  repeat case_match; auto using inv_halt.
Qed.

Lemma inv_broken jobs per_shard s run stop msg :
  StageInv jobs per_shard s run →
  ∀ i e, s_entries (upd_entries (mark_all run (mark EInterrupted (Some HARD_STOP) msg)) (halt stop true s)) !! i
           = Some e → settled_entry e.
Proof.
  intros Hinv i e. apply (inv_halt _ _ stop true) in Hinv as [].
  change (s_entries (upd_entries ?f ?x)) with (f (s_entries x)). cbv beta. rewrite mark_all_lookup.
  case_decide as Hi.
  - destruct (s_entries (halt stop true s) !! i); [|done]. simpl. intros [= <-]. done.
  - intros He. destruct (si_entries0 i e He) as [[Hq _]|[[? _]|(_ & _ & ?)]]; [|done|done].
    rewrite si_stop0 in Hq by done. by apply not_elem_of_nil in Hq.
Qed.

(** ** The start *)

(** The entries before [base] are settled, the others new. *)
Definition fresh_from (base : nat) (es : list Entry) : Prop :=
  base ≤ length es ∧
  ∀ i e, es !! i = Some e → if decide (i < base) then settled_entry e else e = new_entry (e_target e).

Definition start_state (es : list Entry) (base : nat) (keep_going : bool) (max_failures : Z) : SState :=
  mkSState es (stage_of es base keep_going max_failures).

Lemma enqueue_all es l q sh :
  (foldl (λ q i, enqueue (shard_of es i) i q) q l !! sh)
  = match filter (λ i, shard_of es i = sh) l with
    | [] => q !! sh
    | l' => Some (default [] (q !! sh) ++ l')
    end.
Proof.
  revert q. induction l as [|i l IH]; intros q; [done|]. cbn [foldl]. rewrite IH.
  destruct (decide (shard_of es i = sh)) as [E|E].
  - rewrite (filter_cons_True (λ i, shard_of es i = sh)) by done. unfold enqueue. rewrite E, lookup_insert_eq. simpl.
    destruct (filter _ l); [done|]. by rewrite <- app_assoc.
  - rewrite (filter_cons_False (λ i, shard_of es i = sh)) by done. unfold enqueue. by rewrite lookup_insert_ne.
Qed.

Lemma start_queue es base kg mf sh q :
  st_queues (stage_of es base kg mf) !! sh = Some q →
  q = filter (λ i, shard_of es i = sh) (seq base (length es - base)).
Proof. simpl. rewrite enqueue_all, lookup_empty. destruct (filter _ _); [done|]. by intros [= <-]. Qed.

Lemma start_queued es base kg mf i :
  base ≤ length es → i ∈ queued (stage_of es base kg mf) ↔ base ≤ i < length es.
Proof.
  intros Hb. rewrite queued_elem. split.
  - intros (sh & q & Hq & Hi). apply start_queue in Hq as ->. apply list_elem_of_filter in Hi as [_ Hi].
    apply elem_of_seq in Hi. lia.
  - intros Hi. assert (i ∈ filter (λ j, shard_of es j = shard_of es i) (seq base (length es - base))) as Hin.
    { apply list_elem_of_filter. split; [done|]. apply elem_of_seq. lia. }
    exists (shard_of es i), (filter (λ j, shard_of es j = shard_of es i) (seq base (length es - base))).
    split; [|done]. simpl. rewrite enqueue_all, lookup_empty. destruct (filter _ _); [|done].
    by apply not_elem_of_nil in Hin.
Qed.

Lemma inv_start jobs per_shard es base kg mf :
  (1 ≤ jobs)%Z → (1 ≤ per_shard)%Z → fresh_from base es →
  StageInv jobs per_shard (start_state es base kg mf) [].
Proof.
  intros Hj Hp [Hb Hf]. split; cbn -[queued stage_of].
  - intros sh q Hq. apply start_queue in Hq as ->. split; [apply NoDup_filter, NoDup_seq|].
    intros i [? Hi]%list_elem_of_filter. apply elem_of_seq in Hi.
    repeat split; [lia|done|apply not_elem_of_nil].
  - split; [constructor|]. intros i Hi. by apply not_elem_of_nil in Hi.
  - done.
  - done.
  - lia.
  - intros sh. unfold running_on. simpl. lia.
  - intros i e Hi. specialize (Hf i e Hi). pose proof (lookup_lt_Some _ _ _ Hi) as Hlt.
    rewrite start_queued by done. case_decide.
    + right. right. split; [lia|]. split; [apply not_elem_of_nil|done].
    + left. split; [lia|]. by rewrite Hf.
  - done.
Qed.

(** ** Parallel runs *)

(** The stage is consistent, or the pool broke and everything is settled. *)
Definition PoolInv (jobs per_shard : Z) (p : Pool) : Prop :=
  StageInv jobs per_shard (po_state p) (po_running p)
  ∨ (po_running p = [] ∧ st_stop (s_stage (po_state p)) ≠ None
     ∧ (∀ e, e ∈ s_entries (po_state p) → settled_entry e) ∧ queued (s_stage (po_state p)) = []).

Lemma pool_inv_step jobs per_shard p p' :
  pool_step jobs per_shard p p' → PoolInv jobs per_shard p → PoolInv jobs per_shard p'.
Proof.
  intros Hs [Hinv|(Hrun & Hstop & Hset & Hq)].
  - destruct Hs as [s run|s run i s' Hn|s run i f Hi|s run hard Hne]; simpl in *.
    + left. by apply inv_halt.
    + left. by apply inv_submit with s.
    + left. apply inv_done; [apply outcome_collect|done|done].
    + right. split; [done|]. split; [done|]. split; [|apply queued_cleared].
      intros e [i Hi]%list_elem_of_lookup. by eapply inv_broken.
  - destruct Hs as [s run|s run i s' Hn|s run i f Hi|s run hard Hne]; cbn [po_state po_running] in *; subst.
    + right. split; [done|]. split; [done|]. split; [|apply queued_cleared].
      unfold halt. cbn [s_entries]. by rewrite Hq.
    + apply next_some in Hn as (? & ? & ? & _). done.
    + by apply not_elem_of_nil in Hi.
    + done.
Qed.

Lemma pool_inv_reachable jobs per_shard es base kg mf p :
  (1 ≤ jobs)%Z → (1 ≤ per_shard)%Z → fresh_from base es →
  rtc (pool_step jobs per_shard) (mkPool (start_state es base kg mf) []) p → PoolInv jobs per_shard p.
Proof.
  intros Hj Hp Hf Hr. assert (PoolInv jobs per_shard (mkPool (start_state es base kg mf) [])) as H0
    by (left; by apply inv_start).
  revert Hr H0. generalize (mkPool (start_state es base kg mf) []).
  induction 1 as [|p1 p2 p3 H1 _ IH]; [done|]. intros. by eapply IH, pool_inv_step.
Qed.

Lemma settled_when_done jobs per_shard s :
  StageInv jobs per_shard s [] → queued (s_stage s) = [] → ∀ e, e ∈ s_entries s → settled_entry e.
Proof.
  intros [] Hq e [i Hi]%list_elem_of_lookup. rewrite Hq in si_entries0.
  destruct (si_entries0 i e Hi) as [[H1 _]|[[H1 _]|(_ & _ & ?)]]; [by apply not_elem_of_nil in H1..|done].
Qed.

Lemma next_none_idle jobs per_shard s :
  (1 ≤ jobs)%Z → (1 ≤ per_shard)%Z → StageInv jobs per_shard s [] →
  (next jobs per_shard s).1 = None → queued (s_stage s) = [].
Proof.
  intros Hj Hp [] Hn. destruct (queued (s_stage s)) as [|i l] eqn:E; [done|exfalso].
  assert (i ∈ queued (s_stage s)) as (sh & q & Hq & Hi)%queued_elem by (rewrite E; by left).
  unfold next in Hn. destruct (st_stop (s_stage s)) eqn:Est; [by discriminate (si_stop0 ltac:(done))|].
  destruct (pick_next _ _ _ _ _) as [sh'|] eqn:Ep.
  - apply pick_next_some in Ep as [_ He]. unfold eligible in He.
    destruct (st_queues (s_stage s) !! sh') as [[|]|]; done.
  - apply pick_next_none in Ep as [Hs|Hel]; [rewrite si_sum0 in Hs; simpl in Hs; lia|].
    specialize (Hel sh). unfold eligible in Hel. rewrite Hq in Hel. destruct q; [by apply not_elem_of_nil in Hi|].
    apply Z.ltb_ge in Hel. rewrite si_count0 in Hel. unfold running_on in Hel. simpl in Hel. lia.
Qed.

(** C7: in every state a parallel run can reach, whatever the order of the
    workers' answers, signals and a breaking pool: at most [jobs] targets run,
    at most [jobs_per_shard] on one shard, no target runs twice at once; and
    when the loop ends, every entry of the summary is settled, that is, none is
    left running, and a target that was not run says why. *)
Theorem parallel_run_correct jobs per_shard es base kg mf p :
  (1 ≤ jobs)%Z → (1 ≤ per_shard)%Z → fresh_from base es →
  rtc (pool_step jobs per_shard) (mkPool (start_state es base kg mf) []) p →
  (Z.of_nat (length (po_running p)) ≤ jobs)%Z
  ∧ (∀ sh, (running_on (s_entries (po_state p)) (po_running p) sh ≤ per_shard)%Z)
  ∧ NoDup (po_running p)
  ∧ (pool_finished jobs per_shard p → ∀ e, e ∈ s_entries (po_state p) → settled_entry e).
Proof.
  intros Hj Hp Hf Hr. destruct (pool_inv_reachable _ _ _ _ _ _ _ Hj Hp Hf Hr) as [Hinv|(-> & _ & Hs & _)].
  - pose proof Hinv as []. split; [done|]. split; [done|]. split; [apply si_run0|].
    intros [Hrun Hn]. rewrite Hrun in Hinv.
    eapply settled_when_done; [exact Hinv|]. by apply (next_none_idle jobs per_shard).
  - split; [simpl; lia|]. split; [intros; unfold running_on; simpl; lia|]. split; [constructor|]. auto.
Qed.

(** A run with two tenants on one shard, both submitted. *)
Definition tgt (sh : string) (pk : Z) : Target := mkTarget "tenant" "acme" sh (Some pk) (Some NEW).
Definition two : list Entry := [new_entry (tgt "shard1" 1); new_entry (tgt "shard2" 2)].

Lemma two_fresh : fresh_from 0 two.
Proof.
  split; [simpl; lia|]. intros i e Hi. rewrite decide_False by lia.
  apply list_elem_of_lookup_2 in Hi. unfold two in Hi. set_unfold in Hi. by destruct Hi as [->|[->|[]]].
Qed.

Lemma parallel_run_correct_witness :
  ∃ p, rtc (pool_step 2 1) (mkPool (start_state two 0 false 3) []) p
    ∧ po_running p = [0; 1] ∧ (Z.of_nat (length (po_running p)) ≤ 2)%Z.
Proof.
  assert (∃ p, rtc (pool_step 2 1) (mkPool (start_state two 0 false 3) []) p ∧ po_running p = [0; 1])
    as (p & Hr & Hp).
  { eexists. split.
    - eapply rtc_l; [apply pool_submit; vm_compute; reflexivity|].
      apply rtc_once. apply pool_submit. vm_compute. reflexivity.
    - reflexivity. }
  exists p. split; [exact Hr|]. split; [exact Hp|].
  exact (proj1 (parallel_run_correct 2 1 two 0 false 3 p ltac:(lia) ltac:(lia) two_fresh Hr)).
Defined.

(** ** Sequential runs *)

Definition todo (s : SState) : gset nat := list_to_set (queued (s_stage s)).

Lemma halt_todo stop ov s : todo (halt stop ov s) ⊆ todo s.
Proof. unfold todo, halt. cbn [s_stage]. rewrite queued_cleared. set_solver. Qed.

(** [done_] only takes from the queues. *)
Lemma done_todo i s : todo (done_ i s) ⊆ todo s.
Proof.
  unfold done_. destruct (s_entries s !! i) as [e|]; [|done].
  set (s1 := upd_stage _ s). change (todo s) with (todo s1).
  case_bool_decide; [apply halt_todo|].
  match goal with |- context [negb _ || negb (bool_decide (st_stop (s_stage ?s2) = None))] =>
    assert (todo s2 ⊆ todo s1) as H2 end.
  { repeat case_bool_decide; try done. intros j. unfold todo. rewrite !elem_of_list_to_set, !queued_elem. simpl.
    intros (sh & q & Hq & Hj). destruct (decide (tg_shard (e_target e) = sh)) as [<-|Hne].
    - rewrite lookup_insert_eq in Hq. simplify_eq. by apply not_elem_of_nil in Hj.
    - rewrite lookup_insert_ne in Hq by done. eauto. }
  revert H2. match goal with |- todo ?s2 ⊆ _ → _ => generalize s2 end. intros s2 H2.
  repeat case_match; first [done|etrans; [apply halt_todo|done]].
Qed.

Lemma next_todo jobs per_shard s run i s' :
  StageInv jobs per_shard s run → next jobs per_shard s = (Some i, s') → todo s' ⊂ todo s.
Proof.
  intros Hinv Hn. pose proof (inv_submit _ _ _ _ _ _ Hinv Hn) as [].
  apply next_some in Hn as (sh & rest & _ & Hsh & _ & _ & ->). destruct Hinv as [Hqueue _ _ _ _ _ _ _].
  assert (i ∈ todo s) as Hi.
  { unfold todo. rewrite elem_of_list_to_set, queued_elem. exists sh, (i :: rest). split; [done|]. by left. }
  split.
  - intros j. unfold todo. rewrite !elem_of_list_to_set, !queued_elem. simpl. intros (sh' & q & Hq & Hj).
    destruct (decide (sh = sh')) as [->|Hne].
    + rewrite lookup_insert_eq in Hq. simplify_eq. eexists _, _. split; [done|]. by right.
    + rewrite lookup_insert_ne in Hq by done. eauto.
  - intros Hsub. apply Hsub in Hi. unfold todo in Hi. rewrite elem_of_list_to_set, queued_elem in Hi.
    destruct Hi as (sh' & q & Hq & Hj). destruct (si_queue0 sh' q Hq) as [_ Hni].
    destruct (Hni i Hj) as (_ & _ & Hno). apply Hno. apply elem_of_app. right. by apply list_elem_of_singleton.
Qed.

(** The loop ends within as many iterations as there are queued entries, and
    leaves the stage consistent: with nothing running when it returns, with the
    entry of the raising target running when it raises. *)
Lemma run_sequential_total fuel n drain work s :
  size (todo s) < fuel → StageInv 1 1 s [] →
  ∃ r s', run_sequential fuel n drain work s = Some (r, s')
    ∧ match r with
      | Ok _ => StageInv 1 1 s' [] ∧ queued (s_stage s') = []
      | Err _ => ∃ i, StageInv 1 1 s' [i]
      end.
Proof.
  revert n s. induction fuel as [|fuel IH]; intros n s Hf Hinv; [lia|]. simpl.
  set (s0 := if drain n then halt _ false s else s).
  assert (StageInv 1 1 s0 []) as Hinv0 by (unfold s0; destruct (drain n); [by apply inv_halt|done]).
  assert (todo s0 ⊆ todo s) as Hsub0 by (unfold s0; destruct (drain n); [apply halt_todo|done]).
  destruct (next 1 1 s0) as [[i|] s1] eqn:En.
  - pose proof (inv_submit _ _ _ _ _ _ Hinv0 En) as Hinv1. simpl in Hinv1.
    destruct (work n i) as [r|e]; [|eexists (Err e), _; split; [done|by exists i]].
    apply IH.
    + assert (size (todo s1) < size (todo s0)) as Hlt by (apply subset_size; by eapply next_todo).
      apply subseteq_size in Hsub0.
      set (s2 := upd_entries (alter (take_result r) i) _).
      pose proof (subseteq_size _ _ (done_todo i s2)) as Hd. change (todo s2) with (todo s1) in Hd. lia.
    + assert (remove_one i [i] = []) as Hrm by (unfold remove_one; rewrite filter_cons_False; [done|by intros ?]).
      rewrite <- Hrm. apply inv_done; [apply outcome_take|done|by left].
  - exists (Ok tt), s1. split; [done|].
    assert (s1 = s0) as ->.
    { unfold next in En. repeat case_match; by simplify_eq. }
    split; [done|]. apply (next_none_idle 1 1); [lia|lia|done|by rewrite En].
Qed.

Lemma start_todo es base kg mf : fresh_from base es → size (todo (start_state es base kg mf)) < S (length es).
Proof.
  intros Hf. assert (todo (start_state es base kg mf) ⊆ list_to_set (seq 0 (length es))) as Hsub.
  { intros i. unfold todo. rewrite !elem_of_list_to_set. cbn [s_stage start_state].
    rewrite start_queued by apply Hf. rewrite elem_of_seq. lia. }
  apply subseteq_size in Hsub. rewrite size_list_to_set, length_seq in Hsub by apply NoDup_seq. lia.
Qed.

Lemma settle_settles stop kind reason msg es e :
  kind ≠ ERunning → kind ≠ ENotRun → e ∈ (_settle stop kind reason msg es).1 → settled_entry e.
Proof.
  intros Hk Hk2 (e0 & -> & _)%list_elem_of_fmap. unfold settle_entry.
  case_bool_decide as E1; [by split|]. case_bool_decide as E2; simpl; [|by split].
  case_bool_decide as E3; by split.
Qed.

(** C21: the sequential loop always ends, within one iteration per queued
    target; when it returns, no target is queued or running and every entry is
    settled; when a target raises, [_settle] leaves every entry settled too.
    Signals may arrive before any iteration and every target may end anyhow. *)
Theorem run_sequential_settles es base kg mf drain work :
  fresh_from base es →
  ∃ r s', run_sequential (S (length es)) 0 drain work (start_state es base kg mf) = Some (r, s')
    ∧ match r with
      | Ok _ => ∀ e, e ∈ s_entries s' → settled_entry e
      | Err x => ∀ e, e ∈ (_settle (st_stop (s_stage s')) EFailed MIGRATION_ERROR (exc_msg x) (s_entries s')).1 →
                   settled_entry e
      end.
Proof.
  intros Hf. destruct (run_sequential_total (S (length es)) 0 drain work (start_state es base kg mf))
    as (r & s' & E & Hr); [|by apply inv_start|].
  - by apply start_todo.
  - exists r, s'. split; [done|]. destruct r as [[]|x].
    + destruct Hr as [Hinv Hq]. by eapply settled_when_done.
    + intros e. by apply settle_settles.
Qed.

Lemma run_sequential_settles_witness :
  ∃ r s', run_sequential 3 0 (λ _, false) (λ _ _, Err (simple_exn OtherException "E" "")) (start_state two 0 false 3)
            = Some (r, s').
Proof.
  destruct (run_sequential_settles two 0 false 3 (λ _, false) (λ _ _, Err (simple_exn OtherException "E" "")) two_fresh)
    as (r & s' & E & _). exists r, s'. exact E.
Defined.

(** ** Stopping rules *)

Lemma done_shape i s :
  st_stop (s_stage s) = None →
  st_stop (s_stage (done_ i s)) = None ∨ ∃ stop s0, done_ i s = halt stop false s0.
Proof.
  intros Hs. unfold done_. destruct (s_entries s !! i) as [e|]; [|by left].
  case_bool_decide; [eauto|].
  match goal with |- context [negb _ || negb (bool_decide (st_stop (s_stage ?s2) = None))] =>
    assert (st_stop (s_stage s2) = None) as H2 end.
  { by repeat case_bool_decide. }
  revert H2. match goal with |- st_stop (s_stage ?s2) = None → _ => generalize s2 end. intros s2 H2.
  repeat case_match; eauto.
Qed.

(** After a completed target, [done] stops the run exactly when it
    must: a lost [default] connection stops it; a failure stops it without
    [--keep-going] when targets remain, and with it when the shard's failures
    in a row reach the limit; a lost shard connection empties that shard's
    queue without counting; once stopped, nothing is queued and no target is
    handed out. *)
Theorem done_stops s i e :
  s_entries s !! i = Some e → st_stop (s_stage s) = None →
  let s' := done_ i s in
  let sh := tg_shard (e_target e) in
  let failed := bool_decide (e_kind e = EFailed) in
  (e_conn_error e = Some "default" → st_stop (s_stage s') = Some (mkStop default_unreachable None))
  ∧ (e_conn_error e = None → failed = true → st_keep_going (s_stage s) = false →
       st_stop (s_stage s') = if remaining (s_stage s) then Some (mkStop fail_fast None) else None)
  ∧ (e_conn_error e = None → failed = true → st_keep_going (s_stage s) = true →
       st_stop (s_stage s')
       = if (st_max_failures (s_stage s) <=? count (st_consecutive (s_stage s)) sh + 1)%Z
         then Some (mkStop max_failures_reached (Some sh)) else None)
  ∧ (e_conn_error e = Some "shard" → failed = false →
       st_stop (s_stage s') = None ∧ st_queues (s_stage s') !! sh = Some []
       ∧ st_consecutive (s_stage s') = st_consecutive (s_stage s))
  ∧ (e_conn_error e = None → failed = false → st_stop (s_stage s') = None)
  ∧ (st_stop (s_stage s') ≠ None → queued (s_stage s') = [] ∧ ∀ j p, (next j p s').1 = None).
Proof.
  intros He Hs s' sh failed.
  assert (∀ stop s0, st_stop (s_stage s0) = None → st_stop (s_stage (halt stop false s0)) = Some stop) as Hh.
  { intros stop s0 H0. unfold halt. simpl. by rewrite H0. }
  unfold s', done_. rewrite He. fold sh. unfold failed. clear s' failed.
  split; [|split; [|split; [|split; [|split]]]].
  - intros ->. by apply Hh.
  - intros -> Hk Hkg. rewrite Hk. simpl. rewrite Hs, Hkg. simpl.
    change (remaining _) with (remaining (s_stage s)). destruct (remaining (s_stage s)); [by apply Hh|done].
  - intros -> Hk Hkg. rewrite Hk. simpl. rewrite Hs, Hkg, count_insert, decide_True by done. simpl.
    case_match; [by apply Hh|done].
  - intros -> Hk. rewrite Hk. simpl. by rewrite lookup_insert_eq.
  - intros -> Hk. rewrite Hk. simpl.
    destruct (bool_decide (e_kind e = EOk ∨ e_kind e = ENoop)); exact Hs.
  - match goal with |- st_stop (s_stage ?x) ≠ None → _ => generalize (done_shape i s Hs); unfold done_;
      rewrite He; fold sh end. intros [Hn|(stop & s0 & ->)]; [done|]. intros _.
    split; [apply queued_cleared|]. intros j p. unfold next, halt. cbn [s_stage].
    simpl. by destruct (st_stop (s_stage s0)).
Qed.

Lemma done_stops_witness :
  st_stop (s_stage (done_ 0 (upd_entries (alter (take_result (result KFailed "acme" "shard1" MIGRATION_ERROR "")) 0)
                              (start_state two 0 false 3)))) = Some (mkStop fail_fast None).
Proof.
  set (s := upd_entries _ _).
  destruct (done_stops s 0 (take_result (result KFailed "acme" "shard1" MIGRATION_ERROR "") (new_entry (tgt "shard1" 1))))
    as (_ & H & _); [reflexivity|reflexivity|]. rewrite H; [by vm_compute|reflexivity..].
Defined.

(** The exit code is 0 exactly when the run was not stopped and every
    target ended ok or noop; it is 1 otherwise. *)
Theorem exit_code_correct entries stop :
  (exit_code entries stop = 0%Z ↔ stop = None ∧ ∀ e, e ∈ entries → e_kind e = EOk ∨ e_kind e = ENoop)
  ∧ (exit_code entries stop = 0%Z ∨ exit_code entries stop = 1%Z).
Proof.
  unfold exit_code. destruct (bool_decide (stop = None) && _) eqn:E.
  - split; [|by left]. split; [|done]. intros _. apply andb_true_iff in E as [E1 E2].
    apply bool_decide_eq_true in E1. rewrite forallb_Forall, Forall_forall in E2. split; [done|].
    intros e He. by apply E2, bool_decide_eq_true in He.
  - split; [|by right]. split; [done|]. intros [-> Hall]. rewrite bool_decide_true in E by done. simpl in E.
    apply not_true_iff_false in E. exfalso. apply E. apply forallb_Forall, Forall_forall. intros e He.
    apply bool_decide_eq_true. auto.
Qed.
