(* ===== verification/ResolveCache.v ===== *)
(** * The tenant-resolution cache

    Models src/tenants/resolver/cache.py, snapshot.py, markers.py, config.py and
    flags.py: the routing snapshot, its serialization, the read and fill
    primitives, the tombstone protocol, invalidation, orphan sweep and warm-up.
    The Django cache backed by Redis is an interface ([Backend]); this component
    discharges the [Invalidator] interface the migrator relies on. *)
From S2P Require Import Prelude PyStr Models PyExc World.
Open Scope tenants_scope.

(** ** Cached values and the backend *)

Inductive CVal := CNone | CInt (n : Z) | CStr (s : string) | CDict (kvs : list (string * CVal)).

Definition ttl_ok (ttl : option Z) : bool := match ttl with Some n => (0 <? n)%Z | None => true end.

(** What the code relies on of CACHES["tenant_resolve"]: reads are masked to a
    miss and writes do nothing while Redis is down. *)
Class Backend := {
  C : Type;
  c_alive : C → bool;
  c_get : C → string → option CVal;
  c_set : string → CVal → option Z → C → C;
  c_delete : string → C → C;
  c_keys : C → list string;
  c_alive_set k v ttl c : c_alive (c_set k v ttl c) = c_alive c;
  c_alive_delete k c : c_alive (c_delete k c) = c_alive c;
  c_get_down c k : c_alive c = false → c_get c k = None;
  c_get_set k v ttl c k' : c_alive c = true → ttl_ok ttl = true →
    c_get (c_set k v ttl c) k' = if decide (k = k') then Some v else c_get c k';
  c_get_delete k c k' : c_get (c_delete k c) k' = if decide (k = k') then None else c_get c k';
  c_keys_spec c k : k ∈ c_keys c ↔ is_Some (c_get c k);
  c_keys_nodup c : NoDup (c_keys c);
}.

(** ** Settings (config.py, flags.py) *)

Record Cfg := mkCfg {
  POSITIVE_CACHE_SECONDS : Z;
  MISS_CACHE_SECONDS : Z;
  HOLD_SECONDS : Z;
  WARM_TTL_BY_STATUS : gmap string (option Z);
  FILLCAP_PER_SEC : Z;
  FILLCAP_LOCAL_PER_SEC : Z;
  WARM_ENABLED : bool;
  GATE_ENABLED : bool;
  HOSTS_ARM_SECONDS : Z;
  WARM_LOCK_SECONDS : Z;
  WARM_PENDING_SECONDS : Z;
}.

(** RESOLVE_DEFAULTS and REGISTRY_DEFAULTS. *)
Definition RESOLVE_DEFAULTS : Cfg :=
  mkCfg 3600 60 5
    (list_to_map [("active", None); ("deactivated", Some 3600%Z); ("failed", Some 1800%Z); ("new", Some 120%Z);
                  ("pending", Some 120%Z); ("maintenance", Some 1800%Z)])
    20 5 false false 300 120 10.

Definition warm_enabled (cfg : Cfg) : bool := WARM_ENABLED cfg.
Definition gate_enabled (cfg : Cfg) : bool := GATE_ENABLED cfg && warm_enabled cfg.

(** [_Namespace.__getattr__]: a key of the user's dict wins over the default. *)
Definition ns_getattr {A} (user : option (gmap string A)) (defaults : gmap string A) (name : string) :
    res string A :=
  if py_startswith name "_" then Err name
  else match defaults !! name with
       | None => Err name
       | Some d => Ok (default d ((default ∅ user : gmap string A) !! name))
       end.

(** [ttl_for_status], [enabled]. *)
Definition ttl_for_status (cfg : Cfg) (status : string) : option Z :=
  match WARM_TTL_BY_STATUS cfg !! status with
  | Some ttl => ttl
  | None => Some (POSITIVE_CACHE_SECONDS cfg)
  end.

Definition truthy (n : Z) : bool := negb (n =? 0)%Z.

Definition enabled (cfg : Cfg) : bool :=
  warm_enabled cfg || truthy (POSITIVE_CACHE_SECONDS cfg) || truthy (MISS_CACHE_SECONDS cfg).

(** ** Markers *)

Definition NUL : string := String (Ascii.ascii_of_N 0) "".
Definition NEGATIVE : string := NUL +:+ "no-tenant" +:+ NUL.
Definition TOMBSTONE : string := NUL +:+ "hold" +:+ NUL.

(** ** The routing snapshot (snapshot.py) *)

Record ShardSnapshot := mkShardSnapshot { hs_id : Z; hs_alias : string }.

Record TenantSnapshot := mkTenantSnapshot {
  ts_id : Z;
  ts_schema_name : string;
  ts_status : string;
  ts_shard : ShardSnapshot;
  ts_domain_url : option string;
}.

(** A row or a snapshot: what [capture] and [dump] accept. *)
Inductive Capturable := ARow (t : TenantObj) | ASnap (s : TenantSnapshot).

Definition capture (x : Capturable) : TenantSnapshot :=
  match x with
  | ASnap s => s
  | ARow t => mkTenantSnapshot (o_pk t) (o_schema t) (status_value (o_status t))
                (mkShardSnapshot (t_shard_id (o_tenant t)) (o_alias t)) None
  end.

Definition c_status (x : Capturable) : string :=
  match x with ARow t => status_value (o_status t) | ASnap s => ts_status s end.
Definition c_schema_name (x : Capturable) : string :=
  match x with ARow t => o_schema t | ASnap s => ts_schema_name s end.

(** ** Serialization *)

Definition dump (x : Capturable) : CVal :=
  let snap := capture x in
  CDict [("tenant", CDict [("id", CInt (ts_id snap)); ("schema_name", CStr (ts_schema_name snap));
                           ("status", CStr (ts_status snap))]);
         ("shard", CDict [("id", CInt (hs_id (ts_shard snap))); ("alias", CStr (hs_alias (ts_shard snap)))])].

(** [d[k]]. *)
Fixpoint assoc {A} (k : string) (l : list (string * A)) : option A :=
  match l with
  | [] => None
  | (k', v) :: l' => if String.eqb k k' then Some v else assoc k l'
  end.

Definition key_error (k : string) : exn := simple_exn OtherException "KeyError" k.

Definition getitem (v : CVal) (k : string) : res exn CVal :=
  match v with
  | CDict l => match assoc k l with Some x => Ok x | None => Err (key_error k) end
  | _ => Err (simple_exn OtherException "TypeError" "not subscriptable")
  end.

(** A cached field as the dataclass holds it. Values of an unexpected type are
    outside the model of a snapshot and count as a malformed payload. *)
Definition as_int (v : CVal) : res exn Z :=
  match v with CInt n => Ok n | _ => Err (simple_exn OtherException "TypeError" "int expected") end.
Definition as_str (v : CVal) : res exn string :=
  match v with CStr s => Ok s | _ => Err (simple_exn OtherException "TypeError" "str expected") end.

Definition load (data : CVal) : res exn TenantSnapshot :=
  t <-? getitem data "tenant" ;; s <-? getitem data "shard" ;;
  id <-? res_bind (getitem t "id") as_int ;;
  name <-? res_bind (getitem t "schema_name") as_str ;;
  status <-? res_bind (getitem t "status") as_str ;;
  sid <-? res_bind (getitem s "id") as_int ;;
  alias <-? res_bind (getitem s "alias") as_str ;;
  Ok (mkTenantSnapshot id name status (mkShardSnapshot sid alias) None).

(** ** Keys *)

Definition SNAP_PREFIX : string := "host-snap:".
Definition SCHEMA_PREFIX : string := "schema-snap:".
Definition _snap_key (host : string) : string := SNAP_PREFIX +:+ host.
Definition _schema_snap_key (schema : string) : string := SCHEMA_PREFIX +:+ schema.

(** [_keys_for]: the hosts are the tenant's domains. *)
Definition _keys_for (hosts : list string) (schema : string) : list string :=
  (_snap_key <$> hosts) ++ [_schema_snap_key schema].

(** ** Classification *)

Inductive CKind := POSITIVE | NEG | HOLD | MISS | UNKNOWN.

#[global] Instance CKind_eq_dec : EqDecision CKind.
Proof. solve_decision. Defined.

Definition _classify (cached : option CVal) : CKind :=
  match cached with
  | None | Some CNone => MISS
  | Some (CStr s) => if String.eqb s TOMBSTONE then HOLD else if String.eqb s NEGATIVE then NEG else UNKNOWN
  | Some (CDict l) => match assoc "tenant" l, assoc "shard" l with
                      | Some _, Some _ => POSITIVE
                      | _, _ => UNKNOWN
                      end
  | Some (CInt _) => UNKNOWN
  end.

Section cache.
Context `{Backend} (cfg : Cfg).

Definition get_many (keys : list string) (c : C) : list (string * CVal) :=
  omap (λ k, (k,.) <$> c_get c k) keys.
Definition set_many (kvs : list (string * CVal)) (ttl : option Z) (c : C) : C :=
  foldl (λ c kv, c_set kv.1 kv.2 ttl c) c kvs.
Definition delete_many (keys : list string) (c : C) : C := foldl (λ c k, c_delete k c) c keys.
(** [cache.set(k, v, ttl, nx=True)]. *)
Definition set_nx (k : string) (v : CVal) (ttl : option Z) (c : C) : bool * C :=
  match c_get c k with
  | Some _ => (false, c)
  | None => (c_alive c, c_set k v ttl c)
  end.

(** ** Reads *)

(** The sentinels [MISS], [NEG], [HOLD] or a snapshot. *)
Inductive Lookup := LMiss | LNeg | LHold | LSnap (s : TenantSnapshot).

Definition get_snapshot (hostname : string) (c : C) : res exn Lookup :=
  let cached := c_get c (_snap_key hostname) in
  match _classify cached with
  | POSITIVE => s <-? load (default CNone cached) ;; Ok (LSnap s)
  | NEG => Ok LNeg
  | _ => Ok LMiss
  end.

Definition get_schema_snapshot (schema : string) (c : C) : res exn Lookup :=
  let cached := c_get c (_schema_snap_key schema) in
  match _classify cached with
  | POSITIVE => s <-? load (default CNone cached) ;; Ok (LSnap s)
  | HOLD => Ok LHold
  | _ => Ok LMiss
  end.

(** ** Fills *)

Definition _ttl_for (x : Capturable) : option Z :=
  if warm_enabled cfg then ttl_for_status cfg (c_status x) else Some (POSITIVE_CACHE_SECONDS cfg).

Definition positive_off : bool := negb (warm_enabled cfg) && negb (truthy (POSITIVE_CACHE_SECONDS cfg)).

Definition put (hostname : string) (x : Capturable) (c : C) : bool * C :=
  if positive_off then (false, c)
  else
    let ttl := _ttl_for x in
    let payload := dump x in
    let '(filled, c) := set_nx (_snap_key hostname) payload ttl c in
    let '(_, c) := set_nx (_schema_snap_key (c_schema_name x)) payload ttl c in
    (filled, c).

(** [by_ttl.setdefault(ttl, {})[key] = payload]: groups in insertion order of
    their TTL; a dict keeps the first position and the last value of a key. *)
Fixpoint dict_set {A} (k : string) (v : A) (d : list (string * A)) : list (string * A) :=
  match d with
  | [] => [(k, v)]
  | (k', v') :: d' => if String.eqb k k' then (k, v) :: d' else (k', v') :: dict_set k v d'
  end.

Fixpoint group_set (ttl : option Z) (k : string) (v : CVal)
    (g : list (option Z * list (string * CVal))) : list (option Z * list (string * CVal)) :=
  match g with
  | [] => [(ttl, [(k, v)])]
  | (ttl', d) :: g' => if bool_decide (ttl = ttl') then (ttl, dict_set k v d) :: g'
                       else (ttl', d) :: group_set ttl k v g'
  end.

Definition _put_many_by_ttl (keyed : list (string * Capturable)) (c : C) : nat * C :=
  if positive_off then (0, c)
  else
    let by_ttl := foldl (λ g '(k, x), group_set (_ttl_for x) k (dump x) g) [] keyed in
    (list_sum (length ∘ snd <$> by_ttl), foldl (λ c '(ttl, batch), set_many batch ttl c) c by_ttl).

Definition put_many (items : list (string * Capturable)) (c : C) : nat * C :=
  _put_many_by_ttl ((λ '(h, x), (_snap_key h, x)) <$> items) c.

Definition put_schema_many (tenants : list Capturable) (c : C) : nat * C :=
  _put_many_by_ttl ((λ x, (_schema_snap_key (c_schema_name x), x)) <$> tenants) c.

Definition store_miss (hostname : string) (c : C) : C :=
  if truthy (MISS_CACHE_SECONDS cfg)
  then (set_nx (_snap_key hostname) (CStr NEGATIVE) (Some (MISS_CACHE_SECONDS cfg)) c).2 else c.

(** ** Invalidation

    [_tombstone_keys] registers [_invalidate] to run when the transaction
    commits (at once outside one): the result is the number of keys and the
    deferred write. *)
Definition _invalidate (keys : list string) (c : C) : C :=
  if truthy (HOLD_SECONDS cfg)
  then set_many ((λ k, (k, CStr TOMBSTONE)) <$> keys) (Some (HOLD_SECONDS cfg)) c
  else delete_many keys c.

Definition _tombstone_keys (keys : list string) : nat * (C → C) :=
  let keys := filter (λ k, k ≠ "") keys in
  match keys with [] => (0, id) | _ => (length keys, _invalidate keys) end.

Definition cache_unavailable : exn :=
  simple_exn OtherException "CacheUnavailable" "tenant_resolve Redis is not reachable".

Definition _ensure_alive (raise_on_error : bool) (c : C) : res exn unit :=
  if raise_on_error && negb (c_alive c) then Err cache_unavailable else Ok tt.

(** The schema a positive host snapshot names. *)
Definition schema_of_value (v : CVal) : res exn (list string) :=
  match _classify (Some v) with
  | POSITIVE => t <-? getitem v "tenant" ;; n <-? res_bind (getitem t "schema_name") as_str ;; Ok [n]
  | _ => Ok []
  end.

Fixpoint derive_schemas (vs : list CVal) : res exn (list string) :=
  match vs with
  | [] => Ok []
  | v :: vs' => a <-? schema_of_value v ;; b <-? derive_schemas vs' ;; Ok (a ++ b)
  end.

(** [schemas] is a set: duplicates collapse. *)
Definition forget_hosts (hostnames schemas : list string) (raise_on_error : bool) (c : C) :
    res exn (nat * (C → C)) :=
  _ <-? _ensure_alive raise_on_error c ;;
  let hostnames := filter (λ h, h ≠ "") hostnames in
  let schemas := filter (λ s, s ≠ "") schemas in
  let host_keys := _snap_key <$> hostnames in
  derived <-? derive_schemas (snd <$> get_many host_keys c) ;;
  Ok (_tombstone_keys (host_keys ++ (_schema_snap_key <$> remove_dups (schemas ++ derived)))).

Definition forget_tenant (hosts : list string) (schema : string) (raise_on_error : bool) (c : C) :
    res exn (nat * (C → C)) :=
  _ <-? _ensure_alive raise_on_error c ;;
  Ok (_tombstone_keys (_keys_for hosts schema)).

Definition forget_host (hostname : string) (raise_on_error : bool) (c : C) : res exn (nat * (C → C)) :=
  forget_hosts [hostname] [] raise_on_error c.

(** The callers that name tenants look the hosts up in the Domain table, here a
    list of hosts with their tenants. *)
Definition hosts_where (p : TenantObj → bool) (domains : list (string * TenantObj)) : list string :=
  fst <$> filter (λ d, p d.2 = true) domains.

Definition forget_tenants (domains : list (string * TenantObj)) (tenants : list TenantObj)
    (raise_on_error : bool) (c : C) : res exn (nat * (C → C)) :=
  forget_hosts (hosts_where (λ t, mem (o_pk t) (o_pk <$> tenants)) domains) (o_schema <$> tenants) raise_on_error c.

Definition forget_ids (domains : list (string * TenantObj)) (all : list TenantObj) (ids : list Z)
    (raise_on_error : bool) (c : C) : res exn (nat * (C → C)) :=
  forget_hosts (hosts_where (λ t, mem (o_pk t) ids) domains)
    (o_schema <$> filter (λ t, o_pk t ∈ ids) all) raise_on_error c.

Definition forget_schemas (domains : list (string * TenantObj)) (schemas : list string)
    (raise_on_error : bool) (c : C) : res exn (nat * (C → C)) :=
  forget_hosts (hosts_where (λ t, mem (o_schema t) schemas) domains) schemas raise_on_error c.

(** [delete_pattern(prefix + "*")]. *)
Definition delete_prefix (prefix : string) (c : C) : nat * C :=
  let ks := filter (λ k, py_startswith k prefix = true) (c_keys c) in (length ks, delete_many ks c).

Definition forget_all (raise_on_error : bool) (c : C) : res exn (nat * C) :=
  _ <-? _ensure_alive raise_on_error c ;;
  let '(n1, c1) := delete_prefix SNAP_PREFIX c in
  let '(n2, c2) := delete_prefix SCHEMA_PREFIX c1 in
  Ok ((n1 + n2)%nat, c2).

(** ** Orphan sweep *)

(** [iter_snapshot_hosts] / [iter_snapshot_schemas]: the logical names under a prefix. *)
Definition iter_names (prefix : string) (c : C) : list string :=
  omap (λ k, if py_startswith k prefix
             then Some (String.substring (String.length prefix) (String.length k) k) else None) (c_keys c).

Definition SWEEP_BATCH : nat := 500.

Definition _sweep_batch (names : list string) (key_fn : string → string) (c : C) : nat * C :=
  match names with
  | [] => (0, c)
  | _ =>
      let orphans := fst <$> filter (λ kv, _classify (Some kv.2) = POSITIVE) (get_many (key_fn <$> names) c) in
      (length orphans, delete_many orphans c)
  end.

Fixpoint sweep_loop (size : nat) (key_fn : string → string) (valid : string → bool)
    (names batch : list string) (swept : nat) (c : C) : nat * C :=
  match names with
  | [] => let '(n, c) := _sweep_batch batch key_fn c in ((swept + n)%nat, c)
  | name :: names' =>
      if valid name then sweep_loop size key_fn valid names' batch swept c
      else
        let batch := batch ++ [name] in
        if size <=? length batch then
          let '(n, c) := _sweep_batch batch key_fn c in
          sweep_loop size key_fn valid names' [] (swept + n)%nat c
        else sweep_loop size key_fn valid names' batch swept c
  end.

Definition _sweep_namespace (names : list string) (valid : string → bool) (key_fn : string → string) (c : C) :
    nat * C := sweep_loop SWEEP_BATCH key_fn valid names [] 0 c.

Definition sweep_orphans (valid_hosts valid_schemas : string → bool) (c : C) : nat * C :=
  let '(n1, c1) := _sweep_namespace (iter_names SNAP_PREFIX c) valid_hosts _snap_key c in
  let '(n2, c2) := _sweep_namespace (iter_names SCHEMA_PREFIX c1) valid_schemas _schema_snap_key c1 in
  ((n1 + n2)%nat, c2).

(** ** Warm-up *)

Fixpoint iter_chunks_go {A} (size : nat) (batch l : list A) : list (list A) :=
  match l with
  | [] => match batch with [] => [] | _ => [batch] end
  | x :: l' =>
      let batch := batch ++ [x] in
      if size <=? length batch then batch :: iter_chunks_go size [] l' else iter_chunks_go size batch l'
  end.
Definition _iter_chunks {A} (l : list A) (size : nat) : list (list A) := iter_chunks_go size [] l.

Definition _fill_absent (rows : list (string * TenantObj)) (by_schema : list (string * TenantObj)) (c : C) :
    nat * C :=
  let ttl := Some (POSITIVE_CACHE_SECONDS cfg) in
  let '(filled, c) := foldl (λ '(n, c) '(h, t),
      let '(ok, c) := set_nx (_snap_key h) (dump (ARow t)) ttl c in
      ((if ok then S n else n), c)) (0, c) rows in
  (filled, foldl (λ c '(s, t), (set_nx (_schema_snap_key s) (dump (ARow t)) ttl c).2) c by_schema).

Definition legacy_warm_refused : exn := simple_exn OtherException "LegacyWarmRefused" "".

(** [{d.tenant.schema_name: d.tenant for d in batch}]. *)
Definition by_schema_of (batch : list (string * TenantObj)) : list (string * TenantObj) :=
  foldl (λ d '(_, t), dict_set (o_schema t) t d) [] batch.

Definition warm_batch (force : bool) (batch : list (string * TenantObj)) (c : C) : nat * C :=
  let by_schema := by_schema_of batch in
  if force then
    let '(n, c) := put_many ((λ '(h, t), (h, ARow t)) <$> batch) c in
    (n, (put_schema_many (ARow ∘ snd <$> by_schema) c).2)
  else _fill_absent batch by_schema c.

Definition warm (rows : list (string * TenantObj)) (force : bool) (chunk : nat) (raise_on_error : bool) (c : C) :
    res exn (nat * C) :=
  if warm_enabled cfg then Err legacy_warm_refused
  else if negb (truthy (POSITIVE_CACHE_SECONDS cfg)) then Ok (0, c)
  else
    _ <-? _ensure_alive raise_on_error c ;;
    Ok (foldl (λ '(n, c) batch, let '(k, c) := warm_batch force batch c in ((n + k)%nat, c)) (0, c)
          (_iter_chunks rows chunk)).

End cache.
