(* ===== verification/ResolveCacheFacts.v ===== *)
(** * Properties of the tenant-resolution cache *)
From S2P Require Import Prelude PyStr Models PyExc World ResolveCache.
Open Scope tenants_scope.

(** ** Keys *)

Lemma snap_key_inj h h' : _snap_key h = _snap_key h' → h = h'.
Proof. unfold _snap_key, SNAP_PREFIX. intros E. by simplify_eq/=. Qed.

Lemma schema_key_inj s s' : _schema_snap_key s = _schema_snap_key s' → s = s'.
Proof. unfold _schema_snap_key, SCHEMA_PREFIX. intros E. by simplify_eq/=. Qed.

Lemma keys_disjoint h s : _snap_key h ≠ _schema_snap_key s.
Proof. done. Qed.

(** ** Serialization *)

(** [domain_url] is per request and never cached. *)
Definition no_url (s : TenantSnapshot) : TenantSnapshot :=
  mkTenantSnapshot (ts_id s) (ts_schema_name s) (ts_status s) (ts_shard s) None.

Lemma load_dump_url x : load (dump x) = Ok (no_url (capture x)).
Proof. by destruct x as [t|[? ? ? [] ?]]. Qed.

Lemma dump_positive x : _classify (Some (dump x)) = POSITIVE.
Proof. done. Qed.

Section facts.
Context `{Backend} (cfg : Cfg).

(** ** Reading back writes *)

Lemma alive_set_many kvs ttl c : c_alive (set_many kvs ttl c) = c_alive c.
Proof. unfold set_many. revert c. induction kvs as [|kv kvs IH]; intros c; simpl; [done|]. by rewrite IH, c_alive_set. Qed.

Lemma alive_delete_many ks c : c_alive (delete_many ks c) = c_alive c.
Proof. unfold delete_many. revert c. induction ks as [|k ks IH]; intros c; simpl; [done|]. by rewrite IH, c_alive_delete. Qed.

(** The value a batch leaves under a key: the last one written. *)
Fixpoint last_value (k : string) (kvs : list (string * CVal)) : option CVal :=
  match kvs with
  | [] => None
  | (k', v) :: kvs' => match last_value k kvs' with
                       | Some x => Some x
                       | None => if decide (k' = k) then Some v else None
                       end
  end.

Lemma get_set_many kvs ttl c k :
  c_alive c = true → ttl_ok ttl = true →
  c_get (set_many kvs ttl c) k = match last_value k kvs with Some v => Some v | None => c_get c k end.
Proof.
  intros Ha Ht. unfold set_many. revert c Ha. induction kvs as [|[k' v] kvs IH]; intros c Ha; simpl; [done|].
  rewrite IH by (by rewrite c_alive_set). destruct (last_value k kvs); [done|].
  rewrite c_get_set by done. by case_decide.
Qed.

Lemma get_delete_many ks c k :
  c_get (delete_many ks c) k = if decide (k ∈ ks) then None else c_get c k.
Proof.
  unfold delete_many. revert c. induction ks as [|k' ks IH]; intros c.
  - by rewrite decide_False by apply not_elem_of_nil.
  - cbn [foldl]. rewrite IH, c_get_delete. repeat case_decide; set_solver.
Qed.

Lemma alive_set_nx k v ttl c : c_alive (set_nx k v ttl c).2 = c_alive c.
Proof. unfold set_nx. destruct (c_get c k); simpl; [done|apply c_alive_set]. Qed.

Lemma get_set_nx k v ttl c k' :
  c_alive c = true → ttl_ok ttl = true →
  c_get (set_nx k v ttl c).2 k' =
    if decide (k = k') then Some (default v (c_get c k')) else c_get c k'.
Proof.
  intros Ha Ht. unfold set_nx. destruct (c_get c k) eqn:E; simpl.
  - case_decide; [|done]. subst. by rewrite E.
  - rewrite c_get_set by done. case_decide; [|done]. subst. by rewrite E.
Qed.

Lemma set_nx_held k v ttl c x : c_get c k = Some x → set_nx k v ttl c = (false, c).
Proof. unfold set_nx. by intros ->. Qed.

(** ** Fill and hit *)

Lemma put_fresh hostname x c :
  c_alive c = true → positive_off cfg = false → ttl_ok (_ttl_for cfg x) = true →
  c_get c (_snap_key hostname) = None → c_get c (_schema_snap_key (c_schema_name x)) = None →
  let '(filled, c') := put cfg hostname x c in
  filled = true
  ∧ get_snapshot hostname c' = Ok (LSnap (no_url (capture x)))
  ∧ get_schema_snapshot (c_schema_name x) c' = Ok (LSnap (no_url (capture x)))
  ∧ ∀ k, k ≠ _snap_key hostname → k ≠ _schema_snap_key (c_schema_name x) → c_get c' k = c_get c k.
Proof.
  intros Ha Hoff Ht Hh Hs. unfold put. rewrite Hoff.
  assert (set_nx (_snap_key hostname) (dump x) (_ttl_for cfg x) c
          = (true, c_set (_snap_key hostname) (dump x) (_ttl_for cfg x) c)) as -> by (unfold set_nx; by rewrite Hh, Ha).
  set (c1 := c_set _ _ _ c). assert (c_alive c1 = true) as Ha1 by (unfold c1; by rewrite c_alive_set).
  pose proof (get_set_nx (_schema_snap_key (c_schema_name x)) (dump x) (_ttl_for cfg x) c1) as Hg.
  destruct (set_nx _ _ _ c1) as [b c2]. simpl in Hg.
  assert (c_get c2 (_snap_key hostname) = Some (dump x)) as E1.
  { rewrite Hg by done. rewrite decide_False by done. unfold c1. by rewrite c_get_set, decide_True. }
  assert (c_get c2 (_schema_snap_key (c_schema_name x)) = Some (dump x)) as E2.
  { rewrite Hg by done. rewrite decide_True by done. unfold c1. rewrite c_get_set, decide_False by done. by rewrite Hs. }
  split; [done|]. split; [|split].
  - unfold get_snapshot. rewrite E1, dump_positive. change (default CNone (Some (dump x))) with (dump x).
    by rewrite load_dump_url.
  - unfold get_schema_snapshot. rewrite E2, dump_positive. change (default CNone (Some (dump x))) with (dump x).
    by rewrite load_dump_url.
  - intros k Hk1 Hk2. rewrite Hg, decide_False by done. unfold c1. by rewrite c_get_set, decide_False.
Qed.

(** ** The tombstone protocol *)

(** What the resolve path may write. *)
Inductive Fill := FPut (hostname : string) (x : Capturable) | FMiss (hostname : string).

Definition run_fill (c : C) (f : Fill) : C :=
  match f with
  | FPut h x => (put cfg h x c).2
  | FMiss h => store_miss cfg h c
  end.

Definition held (k : string) (c : C) : Prop := c_get c k = Some (CStr TOMBSTONE).

Lemma held_set_nx k k' v ttl c : ttl_ok ttl = true → held k c → held k (set_nx k' v ttl c).2.
Proof.
  intros Ht Hk. unfold held in *. destruct (c_alive c) eqn:Ha; [|by rewrite c_get_down in Hk].
  rewrite get_set_nx by done. case_decide; [|done]. by rewrite Hk.
Qed.

Lemma held_put k h x c : ttl_ok (_ttl_for cfg x) = true → held k c → held k (put cfg h x c).2.
Proof.
  intros Ht Hk. unfold put. destruct (positive_off cfg); [done|].
  pose proof (held_set_nx k (_snap_key h) (dump x) (_ttl_for cfg x) c Ht Hk) as H1.
  destruct (set_nx (_snap_key h) _ _ c) as [b c1]. simpl in H1.
  pose proof (held_set_nx k (_schema_snap_key (c_schema_name x)) (dump x) (_ttl_for cfg x) c1 Ht H1) as H2.
  by destruct (set_nx _ _ _ c1).
Qed.

Definition fill_ok (f : Fill) : Prop :=
  match f with FPut _ x => ttl_ok (_ttl_for cfg x) = true | FMiss _ => True end.

Lemma held_fills k fills c :
  Forall fill_ok fills → (0 ≤ MISS_CACHE_SECONDS cfg)%Z → held k c → held k (foldl run_fill c fills).
Proof.
  intros Hf Hm. revert c. induction Hf as [|f fills Hf1 _ IH]; intros c Hk; [done|]. simpl. apply IH.
  destruct f as [h x|h]; simpl; [by apply held_put|]. unfold store_miss, truthy.
  destruct (MISS_CACHE_SECONDS cfg =? 0)%Z eqn:E; [done|]. bool_props. apply held_set_nx; [|done].
  apply Z.ltb_lt. lia.
Qed.

Lemma last_value_const keys k v :
  last_value k ((λ k, (k, v)) <$> keys) = if decide (k ∈ keys) then Some v else None.
Proof.
  induction keys as [|k' keys IH]; [by rewrite decide_False by apply not_elem_of_nil|].
  rewrite fmap_cons. cbn [last_value]. rewrite IH. repeat case_decide; set_solver.
Qed.

Lemma invalidate_held keys k c :
  c_alive c = true → (0 < HOLD_SECONDS cfg)%Z → k ∈ keys → held k (_invalidate cfg keys c).
Proof.
  intros Ha Hh Hk. unfold held, _invalidate, truthy.
  destruct (HOLD_SECONDS cfg =? 0)%Z eqn:E; [bool_props; lia|]. simpl.
  rewrite get_set_many; [|done|by apply Z.ltb_lt]. by rewrite last_value_const, decide_True.
Qed.

Lemma keys_for_nonempty hosts schema : filter (λ k, k ≠ "") (_keys_for hosts schema) = _keys_for hosts schema.
Proof.
  unfold _keys_for. rewrite filter_app. f_equal.
  induction hosts as [|h hosts IH]; [done|]. rewrite fmap_cons, filter_cons_True by done. by rewrite IH.
Qed.

Lemma forget_tenant_action hosts schema c :
  forget_tenant cfg hosts schema false c
  = Ok (length (_keys_for hosts schema), _invalidate cfg (_keys_for hosts schema)).
Proof.
  unfold forget_tenant, _tombstone_keys. simpl. rewrite keys_for_nonempty.
  destruct (_keys_for hosts schema) as [|k ks] eqn:E; [by destruct hosts|done].
Qed.

(** C11: once a tenant's invalidation has committed, no concurrent
    resolver can resurrect a stale snapshot: whatever fills the resolve path
    attempts afterwards, in any number and order, every host of the tenant
    still reads as a miss and its schema as on hold, while the tombstones last. *)
Theorem tombstone_blocks_fills hosts schema c fills :
  c_alive c = true → (0 < HOLD_SECONDS cfg)%Z → (0 ≤ MISS_CACHE_SECONDS cfg)%Z → Forall fill_ok fills →
  match forget_tenant cfg hosts schema false c with
  | Err _ => False
  | Ok (n, act) =>
      let c' := foldl run_fill (act c) fills in
      n = S (length hosts)
      ∧ (∀ h, h ∈ hosts → get_snapshot h c' = Ok LMiss)
      ∧ get_schema_snapshot schema c' = Ok LHold
  end.
Proof.
  intros Ha Hh Hm Hf. rewrite forget_tenant_action. split; [unfold _keys_for; rewrite length_app, length_fmap; simpl; lia|].
  assert (∀ k, k ∈ _keys_for hosts schema → held k (foldl run_fill (_invalidate cfg (_keys_for hosts schema) c) fills)) as Hk.
  { intros k Hin. apply held_fills; [done|done|]. by apply invalidate_held. }
  split.
  - intros h Hin. unfold get_snapshot. rewrite (Hk (_snap_key h)); [done|].
    unfold _keys_for. apply elem_of_app. left. by apply list_elem_of_fmap_2.
  - unfold get_schema_snapshot. rewrite (Hk (_schema_snap_key schema)); [done|].
    unfold _keys_for. apply elem_of_app. right. by apply list_elem_of_singleton.
Qed.

(** ** The promise to the migrator *)

(** The status a resolve would serve from the cache. *)
Definition served (r : res exn Lookup) : option string :=
  match r with Ok (LSnap s) => Some (ts_status s) | _ => None end.

Lemma invalidate_gone keys k c :
  (0 ≤ HOLD_SECONDS cfg)%Z → k ∈ keys →
  c_get (_invalidate cfg keys c) k = None ∨ c_get (_invalidate cfg keys c) k = Some (CStr TOMBSTONE).
Proof.
  intros Hh Hk. destruct (c_alive c) eqn:Ha.
  - destruct (decide (HOLD_SECONDS cfg = 0%Z)) as [E|E].
    + left. unfold _invalidate, truthy. rewrite E. simpl. by rewrite get_delete_many, decide_True.
    + right. apply invalidate_held; [done|lia|done].
  - left. apply c_get_down. unfold _invalidate. case_match; [rewrite alive_set_many|rewrite alive_delete_many]; done.
Qed.

Lemma forget_not_served hosts schema c h :
  (0 ≤ HOLD_SECONDS cfg)%Z →
  (h ∈ hosts → served (get_snapshot h (_invalidate cfg (_keys_for hosts schema) c)) = None)
  ∧ served (get_schema_snapshot schema (_invalidate cfg (_keys_for hosts schema) c)) = None.
Proof.
  intros Hh. split.
  - intros Hin. unfold get_snapshot.
    destruct (invalidate_gone (_keys_for hosts schema) (_snap_key h) c Hh) as [-> | ->]; [|done|done].
    unfold _keys_for. apply elem_of_app. left. by apply list_elem_of_fmap_2.
  - unfold get_schema_snapshot.
    destruct (invalidate_gone (_keys_for hosts schema) (_schema_snap_key schema) c Hh) as [-> | ->]; [|done|done].
    unfold _keys_for. apply elem_of_app. right. by apply list_elem_of_singleton.
Qed.

End facts.

(** Reading a status back from the string the snapshot carries. *)
Definition status_of_value (s : string) : option Status :=
  head (filter (λ st, status_value st = s) all_statuses).

(** The cache with its configuration implements the interface the migrator's
    theorems are stated against. *)
#[refine] Instance cache_invalidator `{Backend} (cfg : Cfg) (Hold : (0 ≤ HOLD_SECONDS cfg)%Z) : Invalidator := {
  inv_cache := C;
  inv_forget hosts schema c := _invalidate cfg (_keys_for hosts schema) c;
  inv_host c h := served (get_snapshot h c) ≫= status_of_value;
  inv_schema c s := served (get_schema_snapshot s c) ≫= status_of_value;
}.
Proof.
  - intros hosts schema c h Hin. by rewrite (proj1 (forget_not_served cfg hosts schema c h Hold) Hin).
  - intros hosts schema c. by rewrite (proj2 (forget_not_served cfg hosts schema c "" Hold)).
Defined.

Section batches.
Context `{Backend} (cfg : Cfg).

(** ** Batched writes *)

Lemma last_value_app k l1 l2 :
  last_value k (l1 ++ l2) = match last_value k l2 with Some v => Some v | None => last_value k l1 end.
Proof.
  induction l1 as [|[k' v] l1 IH]; simpl; [by destruct (last_value k l2)|]. rewrite IH.
  by destruct (last_value k l2).
Qed.

Lemma last_value_elem k l v : last_value k l = Some v → (k, v) ∈ l.
Proof.
  induction l as [|[k' v'] l IH]; simpl; [done|]. destruct (last_value k l) as [x|].
  - intros [= ->]. right. auto.
  - case_decide; [|done]. subst. intros [= ->]. by left.
Qed.

Lemma last_value_none k l : last_value k l = None → k ∉ l.*1.
Proof.
  induction l as [|[k' v'] l IH]; simpl; [intros _; apply not_elem_of_nil|].
  destruct (last_value k l) as [x|]; [done|]. case_decide; [done|].
  intros _ [->|Hin]%elem_of_cons; [done|]. by apply IH.
Qed.

Lemma last_value_nodup k v l : NoDup l.*1 → (k, v) ∈ l → last_value k l = Some v.
Proof.
  intros Hnd Hin. destruct (last_value k l) as [v'|] eqn:E.
  - apply last_value_elem in E. f_equal.
    apply list_elem_of_lookup in Hin as [i Hi]. apply list_elem_of_lookup in E as [j Hj].
    assert (i = j) as ->.
    { eapply NoDup_lookup; [exact Hnd|rewrite list_lookup_fmap, Hi; done|by rewrite list_lookup_fmap, Hj]. }
    rewrite Hi in Hj. by simplify_eq.
  - apply last_value_none in E. exfalso. apply E. apply list_elem_of_fmap. by exists (k, v).
Qed.

Lemma dict_set_fresh {A} k (v : A) d : k ∉ d.*1 → dict_set k v d = d ++ [(k, v)].
Proof.
  induction d as [|[k' v'] d IH]; simpl; [done|]. intros Hk. apply not_elem_of_cons in Hk as [Hne Hk].
  destruct (String.eqb_spec k k'); [done|]. by rewrite IH.
Qed.

Definition flat (g : list (option Z * list (string * CVal))) : list (string * CVal) := concat (snd <$> g).

Lemma group_set_flat ttl k v g :
  k ∉ (flat g).*1 → flat (group_set ttl k v g) ≡ₚ (k, v) :: flat g.
Proof.
  unfold flat. induction g as [|[ttl' d] g IH]; simpl; [done|]. rewrite fmap_app, not_elem_of_app. intros [Hd Hg].
  case_bool_decide; simpl.
  - rewrite dict_set_fresh by done. rewrite <- app_assoc. simpl. by rewrite <- Permutation_middle.
  - rewrite (IH Hg). by rewrite Permutation_middle.
Qed.

Lemma group_set_ttls ttl k v g :
  ttl_ok ttl = true → Forall (λ x, ttl_ok x.1 = true) g → Forall (λ x, ttl_ok x.1 = true) (group_set ttl k v g).
Proof.
  intros Ht. induction 1 as [|[ttl' d] g Hx Hg IH]; simpl; [by repeat constructor|].
  case_bool_decide; by constructor.
Qed.

Lemma groups_flat keyed g :
  NoDup (keyed.*1 ++ (flat g).*1) →
  flat (foldl (λ g '(k, x), group_set (_ttl_for cfg x) k (dump x) g) g keyed)
  ≡ₚ ((λ kx : string * Capturable, (kx.1, dump kx.2)) <$> keyed) ++ flat g.
Proof.
  revert g. induction keyed as [|[k x] keyed IH]; intros g Hnd; [done|]. cbn [foldl].
  rewrite fmap_cons in Hnd. simpl in Hnd. apply NoDup_cons in Hnd as [Hk Hnd].
  apply not_elem_of_app in Hk as [Hk1 Hk2].
  rewrite IH; [rewrite (group_set_flat _ k (dump x) g Hk2); simpl; by rewrite Permutation_middle|].
  rewrite (group_set_flat _ k (dump x) g Hk2). simpl. rewrite <- Permutation_middle. constructor; [|done].
  by apply not_elem_of_app.
Qed.

Lemma groups_ttls keyed g :
  Forall (λ kx : string * Capturable, ttl_ok (_ttl_for cfg kx.2) = true) keyed → Forall (λ x, ttl_ok x.1 = true) g →
  Forall (λ x, ttl_ok x.1 = true) (foldl (λ g '(k, x), group_set (_ttl_for cfg x) k (dump x) g) g keyed).
Proof.
  intros Hk. revert g. induction Hk as [|[k x] keyed Hx _ IH]; intros g Hg; [done|]. simpl. apply IH.
  by apply group_set_ttls.
Qed.

Lemma get_groups g c k :
  c_alive c = true → Forall (λ x, ttl_ok x.1 = true) g →
  c_get (foldl (λ c '(ttl, batch), set_many batch ttl c) c g) k
  = match last_value k (flat g) with Some v => Some v | None => c_get c k end.
Proof.
  intros Ha Hg. revert c Ha. induction Hg as [|[ttl d] g Hx _ IH]; intros c Ha; [done|]. simpl.
  rewrite IH by (by rewrite alive_set_many). unfold flat. simpl. rewrite last_value_app.
  destruct (last_value k (concat _)); [done|]. by apply get_set_many.
Qed.

Lemma flat_length g : list_sum (length ∘ snd <$> g) = length (flat g).
Proof.
  induction g as [|x g IH]; [done|].
  change (list_sum (length ∘ snd <$> x :: g)) with (length x.2 + list_sum (length ∘ snd <$> g))%nat.
  change (flat (x :: g)) with (x.2 ++ flat g). by rewrite length_app, IH.
Qed.

Lemma put_many_spec keyed c :
  c_alive c = true → positive_off cfg = false → NoDup keyed.*1 →
  Forall (λ kx : string * Capturable, ttl_ok (_ttl_for cfg kx.2) = true) keyed →
  let '(n, c') := _put_many_by_ttl cfg keyed c in
  n = length keyed
  ∧ (∀ k x, (k, x) ∈ keyed → c_get c' k = Some (dump x))
  ∧ (∀ k, k ∉ keyed.*1 → c_get c' k = c_get c k).
Proof.
  intros Ha Hoff Hnd Ht. unfold _put_many_by_ttl. rewrite Hoff.
  set (g := foldl _ [] keyed).
  assert (flat g ≡ₚ (λ kx : string * Capturable, (kx.1, dump kx.2)) <$> keyed) as Hflat.
  { unfold g. rewrite groups_flat; [by rewrite app_nil_r|]. by rewrite app_nil_r. }
  assert ((flat g).*1 ≡ₚ keyed.*1) as Hkeys.
  { rewrite Hflat, <- list_fmap_compose. by apply Permutation_refl'; apply list_fmap_ext; intros ? []. }
  assert (Forall (λ x, ttl_ok x.1 = true) g) as Hg by (unfold g; by apply groups_ttls).
  split; [rewrite flat_length, Hflat; by rewrite length_fmap|]. split.
  - intros k x Hin. rewrite get_groups by done. rewrite (last_value_nodup k (dump x)); [done| |].
    + by rewrite Hkeys.
    + rewrite Hflat. apply list_elem_of_fmap. by exists (k, x).
  - intros k Hk. rewrite get_groups by done. destruct (last_value k (flat g)) as [v|] eqn:E; [|done].
    exfalso. apply Hk. rewrite <- Hkeys. apply last_value_elem in E. apply list_elem_of_fmap. by exists (k, v).
Qed.

(** ** Orphan sweep *)

Definition positive_at (c : C) (k : string) : bool := bool_decide (_classify (c_get c k) = POSITIVE).

Lemma sweep_batch_spec names key_fn c :
  let '(_, c') := _sweep_batch names key_fn c in
  ∀ k, c_get c' k = if bool_decide (k ∈ key_fn <$> names) && positive_at c k then None else c_get c k.
Proof.
  unfold _sweep_batch. destruct names as [|n names]; [intros k; by rewrite bool_decide_false by apply not_elem_of_nil|].
  set (ks := key_fn <$> n :: names). intros k. rewrite get_delete_many.
  set (orphans := fst <$> _).
  assert (k ∈ orphans ↔ k ∈ ks ∧ _classify (c_get c k) = POSITIVE) as Ho.
  { unfold orphans, get_many. rewrite list_elem_of_fmap. setoid_rewrite list_elem_of_filter.
    setoid_rewrite list_elem_of_omap. split.
    - intros ([k' v] & -> & Hp & (k0 & Hin & E)). simpl in *. destruct (c_get c k0) as [v0|] eqn:E0; simplify_eq/=.
      by rewrite E0.
    - intros [Hin Hp]. destruct (c_get c k) as [v|] eqn:E0; [|done]. exists (k, v). split; [done|]. split; [done|].
      exists k. by rewrite E0. }
  unfold positive_at. case_decide as Hin.
  - apply Ho in Hin as [? ?]. by rewrite !bool_decide_true.
  - destruct (bool_decide (k ∈ ks) && bool_decide (_classify (c_get c k) = POSITIVE)) eqn:E; [|done].
    bool_props. exfalso. apply Hin, Ho. tauto.
Qed.

Lemma sweep_loop_spec size key_fn valid names batch swept c :
  let '(_, c') := sweep_loop size key_fn valid names batch swept c in
  ∀ k, c_get c' k =
    if bool_decide (k ∈ key_fn <$> (batch ++ filter (λ n, valid n = false) names)) && positive_at c k
    then None else c_get c k.
Proof.
  revert batch swept c. induction names as [|n names IH]; intros batch swept c; simpl.
  - pose proof (sweep_batch_spec batch key_fn c) as Hb. destruct (_sweep_batch batch key_fn c) as [m c'].
    by rewrite app_nil_r.
  - destruct (valid n) eqn:Ev.
    { specialize (IH batch swept c). destruct (sweep_loop _ _ _ names batch swept c) as [m c'].
      by rewrite filter_cons_False by (by rewrite Ev). }
    rewrite filter_cons_True by done. destruct (size <=? length (batch ++ [n])).
    + pose proof (sweep_batch_spec (batch ++ [n]) key_fn c) as Hb.
      destruct (_sweep_batch (batch ++ [n]) key_fn c) as [m c1]. specialize (IH [] (swept + m) c1).
      destruct (sweep_loop _ _ _ names [] (swept + m) c1) as [m' c']. intros k. rewrite IH. simpl.
      unfold positive_at in *. specialize (Hb k). rewrite cons_middle, app_assoc, (fmap_app key_fn (batch ++ [n])).
      destruct (bool_decide (k ∈ key_fn <$> batch ++ [n])) eqn:E1; simpl in Hb.
      * rewrite (bool_decide_true (k ∈ _ ++ _)) by (bool_props; apply elem_of_app; by left).
        destruct (bool_decide (_classify (c_get c k) = POSITIVE)) eqn:E2; rewrite Hb; simpl.
        -- by rewrite andb_false_r.
        -- by rewrite E2, andb_false_r.
      * rewrite Hb. erewrite (bool_decide_ext (k ∈ _ ++ _)); [done|]. bool_props. rewrite elem_of_app. tauto.
    + specialize (IH (batch ++ [n]) swept c). destruct (sweep_loop _ _ _ names (batch ++ [n]) swept c) as [m c'].
      by rewrite cons_middle, app_assoc.
Qed.

Lemma substring_all n m : String.length n ≤ m → String.substring 0 m n = n.
Proof.
  revert m. induction n as [|a n IH]; intros [|m] Hm; simpl in *; try done; [lia|]. f_equal. apply IH. lia.
Qed.

Lemma substring_after p n m :
  String.length n ≤ m → String.substring (String.length p) m (p +:+ n) = n.
Proof. intros Hm. induction p as [|a p IH]; [by apply substring_all|]. simpl. apply IH. Qed.

Lemma length_str_app p n : String.length (p +:+ n) = (String.length p + String.length n)%nat.
Proof. rewrite <- !length_chars, chars_app. apply length_app. Qed.

Lemma iter_names_spec prefix c name : name ∈ iter_names prefix c ↔ is_Some (c_get c (prefix +:+ name)).
Proof.
  unfold iter_names. rewrite list_elem_of_omap. split.
  - intros (k & Hk & E). destruct (py_startswith k prefix) eqn:Ep; [|done].
    apply py_startswith_spec in Ep as [q ->]. rewrite substring_after in E by (rewrite length_str_app; lia).
    simplify_eq. by apply c_keys_spec.
  - intros Hn. exists (prefix +:+ name). split; [by apply c_keys_spec|].
    rewrite (proj2 (py_startswith_spec (prefix +:+ name) prefix)) by eauto.
    rewrite substring_after; [done|]. rewrite length_str_app. lia.
Qed.

Lemma sweep_namespace_spec prefix valid c :
  let '(_, c') := _sweep_namespace (iter_names prefix c) valid (λ n, prefix +:+ n) c in
  (∀ n, c_get c' (prefix +:+ n) =
     if negb (valid n) && positive_at c (prefix +:+ n) then None else c_get c (prefix +:+ n))
  ∧ (∀ k, py_startswith k prefix = false → c_get c' k = c_get c k).
Proof.
  unfold _sweep_namespace. pose proof (sweep_loop_spec SWEEP_BATCH (λ n, prefix +:+ n) valid (iter_names prefix c) [] 0 c) as Hs.
  destruct (sweep_loop _ _ _ _ _ _ c) as [m c']. simpl in Hs. split.
  - intros n. rewrite Hs. destruct (positive_at c (prefix +:+ n)) eqn:Ep; [|by rewrite !andb_false_r].
    rewrite !andb_true_r. destruct (valid n) eqn:Ev; simpl.
    + rewrite bool_decide_false; [done|]. intros (n' & E & Hin)%list_elem_of_fmap.
      apply list_elem_of_filter in Hin as [Hv _]. apply str_app_inj_l in E. congruence.
    + rewrite bool_decide_true; [done|]. apply list_elem_of_fmap. exists n. split; [done|].
      apply list_elem_of_filter. split; [done|]. apply iter_names_spec. unfold positive_at in Ep. bool_props.
      by destruct (c_get c (prefix +:+ n)).
  - intros k Hk. rewrite Hs, bool_decide_false; [done|]. intros (n' & -> & _)%list_elem_of_fmap.
    rewrite (proj2 (py_startswith_spec (prefix +:+ n') prefix)) in Hk by eauto. done.
Qed.

Lemma sweep_orphans_spec valid_hosts valid_schemas c :
  let '(_, c') := sweep_orphans valid_hosts valid_schemas c in
  (∀ h, c_get c' (_snap_key h) =
     if negb (valid_hosts h) && positive_at c (_snap_key h) then None else c_get c (_snap_key h))
  ∧ (∀ s, c_get c' (_schema_snap_key s) =
     if negb (valid_schemas s) && positive_at c (_schema_snap_key s) then None else c_get c (_schema_snap_key s))
  ∧ (∀ k, py_startswith k SNAP_PREFIX = false → py_startswith k SCHEMA_PREFIX = false → c_get c' k = c_get c k).
Proof.
  unfold sweep_orphans. pose proof (sweep_namespace_spec SNAP_PREFIX valid_hosts c) as H1.
  change (λ n, SNAP_PREFIX +:+ n) with _snap_key in H1. destruct (_sweep_namespace _ valid_hosts _ c) as [n1 c1].
  destruct H1 as [H1a H1b]. pose proof (sweep_namespace_spec SCHEMA_PREFIX valid_schemas c1) as H2.
  change (λ n, SCHEMA_PREFIX +:+ n) with _schema_snap_key in H2.
  destruct (_sweep_namespace _ valid_schemas _ c1) as [n2 c2]. destruct H2 as [H2a H2b].
  split; [|split].
  - intros h. rewrite H2b by done. apply H1a.
  - intros s. unfold _schema_snap_key. rewrite H2a. unfold positive_at. by rewrite !(H1b (SCHEMA_PREFIX +:+ s)).
  - intros k Hk1 Hk2. rewrite H2b by done. by apply H1b.
Qed.

(** A sweep deletes exactly the orphan positives: a host snapshot that is
    positive and whose host is not valid, a schema snapshot that is positive
    and whose schema is not valid; every other entry, negatives, tombstones and
    keys outside the two namespaces included, keeps its value, whatever the
    batch boundaries. *)
Theorem sweep_orphans_exact valid_hosts valid_schemas c :
  let '(_, c') := sweep_orphans valid_hosts valid_schemas c in
  (∀ h, c_get c' (_snap_key h) =
     if negb (valid_hosts h) && positive_at c (_snap_key h) then None else c_get c (_snap_key h))
  ∧ (∀ s, c_get c' (_schema_snap_key s) =
     if negb (valid_schemas s) && positive_at c (_schema_snap_key s) then None else c_get c (_schema_snap_key s))
  ∧ (∀ k, py_startswith k SNAP_PREFIX = false → py_startswith k SCHEMA_PREFIX = false → c_get c' k = c_get c k).
Proof. apply sweep_orphans_spec. Qed.

(** ** Chunks and mass invalidation *)

Lemma iter_chunks_go_spec {A} size (batch l : list A) :
  0 < size → length batch < size →
  concat (iter_chunks_go size batch l) = batch ++ l
  ∧ Forall (λ b, 0 < length b ≤ size) (iter_chunks_go size batch l).
Proof.
  intros Hs. revert batch. induction l as [|x l IH]; intros batch Hb; cbn [iter_chunks_go].
  - destruct batch as [|y b]; simpl in *; [by split|]. rewrite app_nil_r. split; [done|]. apply Forall_singleton. simpl. lia.
  - destruct (size <=? length (batch ++ [x])) eqn:E; bool_props; rewrite length_app in E; simpl in E.
    + destruct (IH []) as [H1 H2]; [simpl; lia|]. split.
      * cbn [concat]. rewrite H1. by rewrite <- app_assoc.
      * constructor; [rewrite length_app; simpl; lia|done].
    + destruct (IH (batch ++ [x])) as [H1 H2]; [rewrite length_app; simpl; lia|]. split; [|done].
      by rewrite H1, <- app_assoc.
Qed.

(** [_iter_chunks] yields the rows in order, in non-empty chunks of at
    most the given size: nothing is dropped, repeated or oversized. *)
Theorem iter_chunks_correct {A} (l : list A) size :
  0 < size →
  concat (_iter_chunks l size) = l ∧ Forall (λ b, 0 < length b ≤ size) (_iter_chunks l size).
Proof. intros Hs. apply iter_chunks_go_spec; [done|]. simpl. lia. Qed.

Lemma delete_prefix_spec prefix c k :
  c_get (delete_prefix prefix c).2 k = if py_startswith k prefix then None else c_get c k.
Proof.
  unfold delete_prefix. cbn [snd]. rewrite get_delete_many. case_decide as Hin.
  - apply list_elem_of_filter in Hin as [-> _]. done.
  - destruct (py_startswith k prefix) eqn:E; [|done]. destruct (c_get c k) eqn:Eg; [|done].
    exfalso. apply Hin. apply list_elem_of_filter. split; [done|]. apply c_keys_spec. by rewrite Eg.
Qed.

(** Mass invalidation removes every host and schema snapshot and
    nothing else: keys of other namespaces survive. *)
Theorem forget_all_exact c :
  match forget_all false c with
  | Err _ => False
  | Ok (_, c') => ∀ k, c_get c' k =
      if py_startswith k SNAP_PREFIX || py_startswith k SCHEMA_PREFIX then None else c_get c k
  end.
Proof.
  unfold forget_all. cbn -[delete_prefix py_startswith]. pose proof (delete_prefix_spec SNAP_PREFIX c) as H1.
  destruct (delete_prefix SNAP_PREFIX c) as [n1 c1]. pose proof (delete_prefix_spec SCHEMA_PREFIX c1) as H2.
  destruct (delete_prefix SCHEMA_PREFIX c1) as [n2 c2]. cbn [snd] in *. intros k. rewrite H2, H1.
  by destruct (py_startswith k SNAP_PREFIX), (py_startswith k SCHEMA_PREFIX).
Qed.

End batches.
