(* ===== verification/Scenario.v ===== *)
(** * Concrete scenarios

    Instances of the parameters (a resolve cache, a site, an upstream with two
    migrations on disk) and worlds in which the theorems on the migrator apply,
    and runs of the migrator evaluated on them. *)
From S2P Require Import Prelude PyStr Validators Models PyExc Logs World Lease Schema Trace Migrator.
From S2P Require Import MigratorSafety Quiet MigratorRun Hygiene.
Open Scope tenants_scope.

(** ** Parameters *)

(** A cache that maps hosts and schemas to the status they resolve to. *)
#[refine] Instance toy_cache : Invalidator := {
  inv_cache := gmap string Status * gmap string Status;
  inv_forget hosts schema c := (foldr delete c.1 hosts, delete schema c.2);
  inv_host c h := c.1 !! h;
  inv_schema c s := c.2 !! s;
}.
Proof.
  - intros hosts schema c h Hin. simpl. induction hosts as [|h' hosts IH]; [by apply not_elem_of_nil in Hin|].
    simpl. destruct (decide (h = h')) as [->|Hne]; [apply lookup_delete_eq|].
    rewrite lookup_delete_ne by done. apply IH. by apply elem_of_cons in Hin as [?|?].
  - intros. apply lookup_delete_eq.
Defined.

Instance toy_site : Site := {
  me := "app-1:4312:2026-10-10T12:00:03Z";
  DDL_LOCK_TIMEOUT := "5s";
  fmt_time n := py_int n;
  utcnow := "2026-10-10T12:00:04Z";
  format_exception e := "Traceback: " +:+ eo_str (x_obj e);
}.

Definition disk : list Mig := [("users", "0001"); ("orders", "0001")].

(** A database error: Django's wrapper around the driver's, with its SQLSTATE. *)
Definition db_error (code : option string) (msg : string) : exn :=
  mkExn (<[0 := mkExcObj DjangoOperationalError "OperationalError" msg None None (Some 1) None]>
         {[1 := mkExcObj PsycopgOperationalError "OperationalError" msg code None None None]}) 0.

Definition lock_timeout : exn := db_error (Some "55P03") "canceling statement due to lock timeout".
Definition conn_lost : exn := db_error None "connection failed".

(** Upstream applies what is missing, or raises [broken] when [fail]. *)
Definition toy_upstream (broken : option exn) : Upstream := {|
  up_schema_exists db s := bool_decide (is_Some (db_schemas db !! s));
  up_plan db s :=
    (λ m, (m, false)) <$> filter (λ m, m ∉ default [] (sc_applied <$> (db_schemas db !! s))) disk;
  up_run _ s db := mkRunOut broken
    (if broken is None then mkShardDb (alter (λ _, mkSchema disk 5 2 []) s (db_schemas db)) (db_sessions db) (db_now db)
     else db) "public" true "";
  up_defaults := ∅;
  up_disk := (λ m, (m, [])) <$> disk;
  up_migrated_apps := ["users"; "orders"];
|}.

Definition plain : RunOptions := mkRunOptions 1 false false false false None None false None.

(** ** Worlds: a default and one shard, one tenant with pk 1 *)

Definition tenant (st : Status) : Tenant := mkTenant "acme" "Acme" "" 2 st NEW 0 "" None.
Definition shards : gmap Z Shard :=
  <[1%Z := mkShard "default" "default" true true]> {[2%Z := mkShard "shard1" "shard1" false true]}.
Definition registry (st : Status) (leases : gmap Z MigrationLease) : Registry :=
  mkRegistry shards {[1%Z := tenant st]} {["acme.example.com" := mkDomain 1 1 true]} leases
    [(("users", "0001"), 10%Z); (("orders", "0001"), 20%Z)] 1000.
Definition idle_conn : Conn := mkConn None false "public" true.
Definition world (st : Status) (leases : gmap Z MigrationLease) (schemas : gmap string SchemaState)
    (script : list Event) : World :=
  mkWorld (mkSrv (registry st leases) {["shard1" := mkShardDb schemas [] 1000]} true)
    (<["default" := idle_conn]> {["shard1" := idle_conn]})
    ({["acme.example.com" := NEW]}, {["acme" := NEW]}) [] script [] "" false false ∅ None [].

Definition acme (st : Status) : TenantObj := mkTenantObj 1 (tenant st) (mkShard "shard1" "shard1" false true).

Lemma world_conns st leases schemas script a c :
  w_conns (world st leases schemas script) !! a = Some c → c = idle_conn.
Proof.
  simpl. intros Hc. apply lookup_insert_Some in Hc as [[_ <-]|[_ Hc]]; [done|].
  by apply lookup_singleton_Some in Hc as [_ <-].
Qed.

Lemma quiet_world st leases schemas : Quiet "shard1" (world st leases schemas []).
Proof.
  split; try done. intros a c Hc. apply (world_conns st leases schemas []) in Hc as ->. by split.
Qed.

(** ** The theorems apply *)

(** Hypotheses at a concrete world, by evaluation. *)
Ltac ground := first [by vm_compute|split; by vm_compute|vm_compute; lia].

Section fine.
#[local] Instance upstream_ok : Upstream := toy_upstream None.

Lemma acme_available st schemas : available 1 "shard1" (w_srv (world st ∅ schemas [])).
Proof. done. Qed.

Lemma acme_provisionable st :
  st = NEW ∨ st = PENDING → Provisionable 1 plain (acme st) (w_srv (world st ∅ ∅ [])).
Proof. intros [->| ->]; split; vm_compute; try done; set_solver. Qed.

Lemma migrate_tenant_provisions_witness :
  ∃ secs w', migrate_tenant 1 plain (world NEW ∅ ∅ [])
      = (Ok (with_secs secs (mk (acme NEW) KOk APPLIED "provisioned")), w')
    ∧ (t_status <$> g_tenants (v_reg (w_srv w')) !! 1%Z) = Some ACTIVE.
Proof.
  destruct (migrate_tenant_provisions 1 plain (acme NEW) (world NEW ∅ ∅ [])) as (secs & w' & E & Ht & _).
  - apply quiet_world.
  - apply acme_provisionable. by left.
  - done.
  - by vm_compute.
  - exists secs, w'. split; [apply E|]. by rewrite Ht.
Defined.

Lemma migrate_tenant_foreign_schema_witness :
  ∃ secs w', migrate_tenant 1 plain (world NEW ∅ {["acme" := mkSchema [] 3 1 []]} [])
      = (Ok (with_secs secs (mk (acme NEW) KFailed SCHEMA_EXISTS (schema_exists_msg (acme NEW)))), w').
Proof.
  destruct (migrate_tenant_foreign_schema 1 plain (acme NEW)
              (world NEW ∅ {["acme" := mkSchema [] 3 1 []]} []) (mkSchema [] 3 1 [])) as (secs & w' & E & _);
    [apply quiet_world|ground..|exists secs, w'; apply E].
Defined.

(** A schema that has the first migration only. *)
Definition half : gmap string SchemaState := {["acme" := mkSchema [("users", "0001")] 3 1 []]}.

Lemma migrate_tenant_upgrades_witness :
  ∃ secs w', migrate_tenant 1 plain (world ACTIVE ∅ half [])
      = (Ok (with_secs secs (mk (acme ACTIVE) KOk APPLIED "applied 1 migration(s)")), w').
Proof.
  destruct (migrate_tenant_upgrades 1 plain (acme ACTIVE) (world ACTIVE ∅ half []) [("orders", "0001")])
    as (secs & w' & E & _); [apply quiet_world|ground..|exists secs, w'; apply E].
Defined.

Lemma migrate_tenant_noop_witness :
  ∃ secs w', migrate_tenant 1 plain (world DEACTIVATED ∅ {["acme" := mkSchema disk 5 2 []]} [])
      = (Ok (with_secs secs (mk (acme DEACTIVATED) KNoop UP_TO_DATE "up to date")), w').
Proof.
  destruct (migrate_tenant_noop 1 plain (acme DEACTIVATED)
              (world DEACTIVATED ∅ {["acme" := mkSchema disk 5 2 []]} []))
    as (secs & w' & E & _); [apply quiet_world|ground..|exists secs, w'; apply E].
Defined.

Lemma migrate_tenant_schema_missing_witness :
  ∃ secs w' msg, migrate_tenant 1 plain (world ACTIVE ∅ ∅ [])
      = (Ok (with_secs secs (mk (acme ACTIVE) KFailed SCHEMA_MISSING msg)), w').
Proof.
  destruct (migrate_tenant_schema_missing 1 plain (acme ACTIVE) (world ACTIVE ∅ ∅ []))
    as (secs & w' & E & _); [apply quiet_world|ground..|eexists secs, w', _; apply E].
Defined.

(** Held by another process until 5000. *)
Definition held : gmap Z MigrationLease := {[1%Z := mkLease (Some "app-2:7:x") (Some 900%Z) (Some 5000%Z)]}.

Lemma migrate_tenant_locked_witness :
  ∃ secs w', migrate_tenant 1 plain (world NEW held ∅ [])
      = (Ok (with_secs secs (mk (acme NEW) KSkipped LOCKED "locked by app-2:7:x since 900")), w').
Proof.
  destruct (migrate_tenant_locked 1 plain (acme NEW) (world NEW held ∅ [])
              (mkLease (Some "app-2:7:x") (Some 900%Z) (Some 5000%Z)) "app-2:7:x" 900)
    as (secs & w' & E & _); [apply quiet_world|ground..|exists secs, w'; apply E].
Defined.
End fine.

Section broken.
#[local] Instance upstream_broken : Upstream := toy_upstream (Some lock_timeout).

Lemma migrate_tenant_records_failure_witness :
  ∃ secs w', migrate_tenant 1 plain (world NEW ∅ ∅ [])
      = (Ok (with_secs secs (with_details (exc_msg lock_timeout) []
               (mk (acme NEW) KFailed LOCK_TIMEOUT (exc_msg lock_timeout)))), w')
    ∧ (t_status <$> g_tenants (v_reg (w_srv w')) !! 1%Z) = Some FAILED.
Proof.
  destruct (migrate_tenant_records_failure 1 plain (acme NEW) (world NEW ∅ ∅ []) lock_timeout)
    as (secs & w' & E & [Ht _] & _); [apply quiet_world| |done|done|done|].
  - split; vm_compute; try done; set_solver.
  - exists secs, w'. split; [apply E|]. by rewrite Ht.
Defined.

(** A failing migration with a lost connection on top leaves all wrappers clean. *)
Lemma migrate_tenant_hygiene_witness :
  let w := world NEW ∅ ∅ (repeat quiet 16 ++ [fault conn_lost true (Some TX_ACTIVE)]) in
  ∃ c, w_conns (migrate_tenant 1 plain w).2 !! "shard1" = Some c ∧ conn_clean c.
Proof.
  intros w. destruct (w_conns (migrate_tenant 1 plain w).2 !! "shard1") as [c|] eqn:E;
    [|vm_compute in E; discriminate E].
  exists c. split; [reflexivity|]. revert E. apply (migrate_tenant_hygiene 1 "shard1"). split.
  - repeat apply Forall_cons_2; try (split; [by intros e [=]|done]); [|constructor].
    split; [intros e [= <-]; by vm_compute|done].
  - intros t Ht. vm_compute in Ht. by injection Ht as <-.
  - by intros a x ->%world_conns.
  - by intros a x ->%world_conns _.
Defined.

(** A lost connection to [default] while the failure of a migration is
    being recorded escapes [migrate_tenant] as an exception.  The migration
    failed with a lock timeout; the driver error of the lost connection carries
    no SQLSTATE and is a connection error by itself, but it is raised while the
    lock timeout is handled, so the SQLSTATE first found along its chain is
    55P03 and [is_conn_error] denies it.  The run should have returned a Result
    with [conn_error="default"]; the tenant is left PENDING. *)
Theorem conn_error_escapes_migrate_tenant :
  let r := migrate_tenant 1 plain (world NEW ∅ ∅ (repeat quiet 20 ++ [fault conn_lost false None])) in
  is_conn_error conn_lost = true
  ∧ (∃ e, r.1 = Err e ∧ is_exception e = true ∧ is_conn_error e = false ∧ exc_str e = exc_str conn_lost)
  ∧ (t_status <$> g_tenants (v_reg (w_srv r.2)) !! 1%Z) = Some PENDING.
Proof.
  intros r. split; [by vm_compute|]. split; [|by vm_compute].
  destruct r as [[a|e] w'] eqn:E; subst r.
  - exfalso. apply (f_equal (λ x, is_ok x.1)) in E. by vm_compute in E.
  - exists e. simpl. split; [done|].
    assert (∀ (P : exn → bool), (match (migrate_tenant 1 plain (world NEW ∅ ∅ (repeat quiet 20 ++ [fault conn_lost false None]))).1
      with Err x => P x | Ok _ => false end) = true → P e = true) as HP by (intros P; by rewrite E).
    split; [by apply (HP is_exception); vm_compute|]. split.
    + apply negb_true_iff. by apply (HP (λ x, negb (is_conn_error x))); vm_compute.
    + apply String.eqb_eq. by apply (HP (λ x, String.eqb (exc_str x) (exc_str conn_lost))); vm_compute.
Qed.

(** A second shard, on which a migration of the tenant is running. *)
Definition busy : Backend := mkBackend 77 "tm:1" (Some "active") (Some 5%Z) "ALTER TABLE".
Definition two_shards (n : nat) : World :=
  let move v := set_reg (set_tenants (alter (λ t, mkTenant (t_schema_name t) (t_company_name t) (t_description t) 3 (t_status t)
                  (t_previous_status t) (t_status_changed_at t) (t_last_error t) (t_timezone t)) 1%Z)) v in
  let w := world ACTIVE ∅ half (repeat quiet n ++ [mkEvent move None true None]) in
  upd_conns (<["shard2" := idle_conn]>)
    (upd_srv (λ v, mkSrv (set_shards (<[3%Z := mkShard "shard2" "shard2" false true]>) (v_reg v))
                     (<["shard2" := mkShardDb half [busy] 1000]> (v_dbs v)) true) w).

(** Where migrations ran, and whether the shard they ran on was busy when the
    lease was taken. *)
Definition runs_of (tr : list Action) : list string :=
  omap (λ a, match a with ARun alias _ => Some alias | _ => None end) tr.
Definition busy_at_acquire (alias : string) (tr : list Action) : bool :=
  existsb (λ a, match a with
                | AAcquire k v => bool_decide (session_active k (db_of alias v) ≠ None)
                | _ => false end) tr.

(** The shard alias is not fixed when the tenant is first loaded.  The
    lease step looks for a running migration on the shard read first, but the
    migrations run on the shard read again under the lease: when the tenant is
    moved in between, they run on a shard where a backend labelled with this
    tenant's key was still busy when the lease was taken. *)
Theorem shard_alias_not_fixed :
  let tr := w_trace (migrate_tenant 1 plain (two_shards 12)).2 in
  runs_of tr = ["shard2"] ∧ busy_at_acquire "shard2" tr = true ∧ busy_at_acquire "shard1" tr = false.
Proof. by vm_compute. Qed.
End broken.
