(* ===== verification/Registry.v ===== *)
(** * The raw Redis client and the state of a resolving process

    src/tenants/resolver/ reaches Redis in two ways: through the Django cache
    (ResolveCache.v) and through [resolve_cache.get_redis_raw_client()], whose
    errors propagate.  This file states what the code relies on of the second
    ([RawRedis]) and the monad in which the registry, the throttle and the
    resolve service are written: other processes act, and a command may fail,
    before and at every round trip. *)
From S2P Require Import Prelude PyStr Models PyExc World ResolveCache.
From Stdlib Require Import QArith.
Open Scope tenants_scope.

(** ** Commands *)

Inductive RVal := RSet (s : gset string) | RInt (n : Z) | RStr (s : string).

#[global] Instance RVal_eq_dec : EqDecision RVal.
Proof. solve_decision. Defined.

Inductive Cmd :=
| EXISTS (k : string)
| SISMEMBER (k m : string)
| SADD (k : string) (ms : list string)
| SREM (k m : string)
| INCR (k : string)
| EXPIRE (k : string) (ttl : Z) (nx : bool)
| GET (k : string)
| DEL (k : string)
| RENAME (k k' : string)
| SETNX (k v : string) (ttl : Z)      (** [SET k v NX EX ttl] *)
| UNLOCK (k token : string)           (** the release script of redis-py's [Lock] *)
| PING.

Inductive Reply := PBool (b : bool) | PNum (n : Z) | PVal (v : option RVal).

(** The documented effect of a command on the keys that exist; [None] is an
    error reply, which changes nothing.  [EXPIRE ... NX] is only issued with a
    positive TTL. *)
Definition redis_doc (c : Cmd) (m : gmap string RVal) : option (Reply * gmap string RVal) :=
  match c with
  | EXISTS k => Some (PBool (bool_decide (is_Some (m !! k))), m)
  | SISMEMBER k x =>
      match m !! k with
      | None => Some (PBool false, m)
      | Some (RSet s) => Some (PBool (bool_decide (x ∈ s)), m)
      | Some _ => None
      end
  | SADD k ms =>
      match m !! k with
      | None => Some (PNum (Z.of_nat (size (list_to_set ms : gset string))), <[k := RSet (list_to_set ms)]> m)
      | Some (RSet s) => Some (PNum (Z.of_nat (size ((list_to_set ms : gset string) ∖ s))),
                               <[k := RSet (s ∪ list_to_set ms)]> m)
      | Some _ => None
      end
  | SREM k x =>
      match m !! k with
      | None => Some (PNum 0, m)
      | Some (RSet s) =>
          let s' := s ∖ {[x]} in
          Some (PNum (if bool_decide (x ∈ s) then 1 else 0),
                if bool_decide (s' = ∅) then delete k m else <[k := RSet s']> m)
      | Some _ => None
      end
  | INCR k =>
      match m !! k with
      | None => Some (PNum 1, <[k := RInt 1]> m)
      | Some (RInt n) => Some (PNum (n + 1), <[k := RInt (n + 1)]> m)
      | Some _ => None
      end
  | EXPIRE k ttl nx =>
      Some (PBool (bool_decide (is_Some (m !! k))), if (0 <? ttl)%Z || nx then m else delete k m)
  | GET k => match m !! k with Some (RSet _) => None | v => Some (PVal v, m) end
  | DEL k => Some (PNum (if bool_decide (is_Some (m !! k)) then 1 else 0), delete k m)
  | RENAME k k' => match m !! k with
                   | None => None
                   | Some v => Some (PBool true, <[k' := v]> (delete k m))
                   end
  | SETNX k v ttl => match m !! k with
                     | Some _ => Some (PBool false, m)
                     | None => Some (PBool true, <[k := RStr v]> m)
                     end
  | UNLOCK k token => if bool_decide (m !! k = Some (RStr token)) then Some (PBool true, delete k m)
                      else Some (PBool false, m)
  | PING => Some (PBool true, m)
  end.

(** What the code relies on: a server whose commands have the documented effect
    on the keys that exist ([r_keys]); expiry times are its own. *)
Class RawRedis := {
  R : Type;
  r_keys : R → gmap string RVal;
  r_exec : Cmd → R → option Reply * R;
  r_exec_ok c r rep m : redis_doc c (r_keys r) = Some (rep, m) →
    (r_exec c r).1 = Some rep ∧ r_keys (r_exec c r).2 = m;
  r_exec_err c r : redis_doc c (r_keys r) = None →
    (r_exec c r).1 = None ∧ r_keys (r_exec c r).2 = r_keys r;
}.

Definition redis_error (msg : string) : exn := simple_exn RedisError "ResponseError" msg.

(** [except RedisError]. *)
Definition is_redis_error (e : exn) : bool :=
  match eo_class (x_obj e) with RedisError | LockError => true | _ => false end.

Section process.
Context `{Backend} `{RawRedis}.

(** ** What processes share, and what one process holds *)

Record Shared := mkShared {
  sh_cache : C;
  sh_redis : R;
  sh_domains : list (string * TenantObj);   (** the Domain table with each tenant and shard *)
  sh_tenants : list TenantObj;              (** the Tenant table, with each shard *)
}.

(** [Tenant.objects.values_list("schema_name", flat=True)]. *)
Definition sh_schemas (h : Shared) : list string := o_schema <$> sh_tenants h.

(** One round trip: what others did before it, whether it fails, and whether a
    failing one took effect nevertheless. *)
Record REvent := mkREvent {
  re_env : Shared → Shared;
  re_fault : option exn;
  re_applied : bool;
}.

Definition calm : REvent := mkREvent id None true.

(** How this thread enters [single_flight]: it leads, it gets what the leader
    of the same key obtained, or it resolves by itself (the leader was too slow
    or was aborted). *)
Inductive Role := Leader | Shares (r : res exn TenantSnapshot) | ByItself.

Record RS := mkRS {
  rs_shared : Shared;
  rs_script : list REvent;
  rs_tokens : Q;              (** [_LocalBucket._tokens] *)
  rs_ts : Q;                  (** [_LocalBucket._ts] *)
  rs_mono : list Q;           (** readings of [time.monotonic()] to come *)
  rs_time : list Z;           (** readings of [int(time.time())] to come *)
  rs_roles : list Role;
  rs_db_calls : nat;          (** calls of the DB resolver so far *)
  rs_delayed : nat;           (** reconcile tasks enqueued so far *)
}.

Definition upd_shared f s := mkRS (f (rs_shared s)) (rs_script s) (rs_tokens s) (rs_ts s) (rs_mono s)
  (rs_time s) (rs_roles s) (rs_db_calls s) (rs_delayed s).
Definition set_script x s := mkRS (rs_shared s) x (rs_tokens s) (rs_ts s) (rs_mono s)
  (rs_time s) (rs_roles s) (rs_db_calls s) (rs_delayed s).
Definition set_bucket tokens ts s := mkRS (rs_shared s) (rs_script s) tokens ts (rs_mono s)
  (rs_time s) (rs_roles s) (rs_db_calls s) (rs_delayed s).
Definition set_mono x s := mkRS (rs_shared s) (rs_script s) (rs_tokens s) (rs_ts s) x
  (rs_time s) (rs_roles s) (rs_db_calls s) (rs_delayed s).
Definition set_time x s := mkRS (rs_shared s) (rs_script s) (rs_tokens s) (rs_ts s) (rs_mono s)
  x (rs_roles s) (rs_db_calls s) (rs_delayed s).
Definition set_roles x s := mkRS (rs_shared s) (rs_script s) (rs_tokens s) (rs_ts s) (rs_mono s)
  (rs_time s) x (rs_db_calls s) (rs_delayed s).
Definition inc_db s := mkRS (rs_shared s) (rs_script s) (rs_tokens s) (rs_ts s) (rs_mono s)
  (rs_time s) (rs_roles s) (S (rs_db_calls s)) (rs_delayed s).
Definition inc_delayed s := mkRS (rs_shared s) (rs_script s) (rs_tokens s) (rs_ts s) (rs_mono s)
  (rs_time s) (rs_roles s) (rs_db_calls s) (S (rs_delayed s)).
Definition with_cache f (h : Shared) := mkShared (f (sh_cache h)) (sh_redis h) (sh_domains h) (sh_tenants h).
Definition with_redis f (h : Shared) := mkShared (sh_cache h) (f (sh_redis h)) (sh_domains h) (sh_tenants h).

(** ** The monad *)

Definition RM (A : Type) : Type := RS → res exn A * RS.

Definition rret {A} (a : A) : RM A := λ s, (Ok a, s).
Definition rraise {A} (e : exn) : RM A := λ s, (Err e, s).
Definition rbind {A B} (m : RM A) (k : A → RM B) : RM B := λ s,
  match m s with (Ok a, s') => k a s' | (Err e, s') => (Err e, s') end.
Definition rgets {A} (f : RS → A) : RM A := λ s, (Ok (f s), s).
Definition rmodify (f : RS → RS) : RM unit := λ s, (Ok tt, f s).

(** [try: m except <those [p] accepts>: h(e)]. *)
Definition rcatch {A} (p : exn → bool) (m : RM A) (h : exn → RM A) : RM A := λ s,
  match m s with
  | (Err e, s') => if p e then h e s' else (Err e, s')
  | ok => ok
  end.

(** [try: m finally: f]. *)
Definition rfinally {A} (m : RM A) (f : RM unit) : RM A := λ s,
  match m s with
  | (r, s') => match f s' with (Ok _, s2) => (r, s2) | (Err e2, s2) => (Err e2, s2) end
  end.

(** ** Round trips *)

Definition next_revent : RM REvent := λ s,
  match rs_script s with
  | [] => (Ok calm, s)
  | ev :: l => (Ok ev, upd_shared (re_env ev) (set_script l s))
  end.

(** A round trip whose effect on the shared state is [f]. *)
Definition rtrip {A} (f : Shared → res exn A * Shared) : RM A :=
  rbind next_revent (λ ev s,
    let '(r, h) := f (rs_shared s) in
    match re_fault ev with
    | None => (r, upd_shared (λ _, h) s)
    | Some e => (Err e, if re_applied ev then upd_shared (λ _, h) s else s)
    end).

Fixpoint exec_all (cs : list Cmd) (r : R) : option (list Reply) * R :=
  match cs with
  | [] => (Some [], r)
  | c :: cs' =>
      let '(rep, r1) := r_exec c r in
      let '(reps, r2) := exec_all cs' r1 in
      (match rep, reps with Some x, Some l => Some (x :: l) | _, _ => None end, r2)
  end.

(** [pipe.execute()]: the commands run as one transaction. *)
Definition pipeline (cs : list Cmd) : RM (list Reply) :=
  rtrip (λ h,
    let '(reps, r) := exec_all cs (sh_redis h) in
    (match reps with Some l => Ok l | None => Err (redis_error "WRONGTYPE or no such key") end,
     with_redis (λ _, r) h)).

(** One command. *)
Definition raw (c : Cmd) : RM Reply :=
  rbind (pipeline [c]) (λ l, rret (default (PBool false) (head l))).

Definition reply_true (p : Reply) : bool :=
  match p with PBool b => b | PNum n => negb (n =? 0)%Z | PVal v => bool_decide (is_Some v) end.

(** A call of the Django cache: errors are masked by the wrapper, so only other
    processes' actions precede it. *)
Definition cached {A} (f : C → A * C) : RM A :=
  rbind next_revent (λ _ s,
    let '(a, c) := f (sh_cache (rs_shared s)) in (Ok a, upd_shared (with_cache (λ _, c)) s)).

(** A query on the registry database. *)
Definition db_read {A} (f : Shared → A) : RM A := rtrip (λ h, (Ok (f h), h)).

(** [resolve_cache.redis_alive()]. *)
Definition redis_alive : RM bool :=
  rcatch is_exception (rbind (raw PING) (λ p, rret (reply_true p))) (λ _, rret false).

Definition mono_now : RM Q := λ s,
  match rs_mono s with [] => (Ok 0%Q, s) | t :: l => (Ok t, set_mono l s) end.
Definition time_now : RM Z := λ s,
  match rs_time s with [] => (Ok 0%Z, s) | t :: l => (Ok t, set_time l s) end.
Definition next_role : RM Role := λ s,
  match rs_roles s with [] => (Ok Leader, s) | x :: l => (Ok x, set_roles l s) end.

End process.

Arguments RM {_ _} _.

Notation "x <~ m ;; k" := (rbind m (λ x, k))
  (at level 60, m at next level, right associativity) : tenants_scope.
Notation "m ~;; k" := (rbind m (λ _, k))
  (at level 60, right associativity) : tenants_scope.

(** * The host registry

    Models src/tenants/resolver/registry.py: the Redis SET of valid hosts, whose
    existence is the consistency flag of the gate, its incremental maintenance
    by the Domain signals (src/tenants/signals.py), the dead-man switch, the
    warm trigger and the reconcile. *)

Local Open Scope nat_scope.

Definition HOSTS_KEY : string := "treg:hosts".
Definition HOSTS_NEW_KEY : string := "treg:hosts:new".
Definition DIRTY_KEY : string := "treg:hosts:dirty".
Definition WARM_LOCK_KEY : string := "treg:warming".
Definition WARM_PENDING_KEY : string := "treg:warm_pending".
Definition _DIRTY_TTL_SECONDS : Z := 3600.

Inductive Verdict := MEMBER | NONMEMBER | UNKNOWN_HOST.

#[global] Instance Verdict_eq_dec : EqDecision Verdict.
Proof. solve_decision. Defined.

Section registry.
Context `{Backend} `{RawRedis} (cfg : Cfg).

(** ** Gate *)

Definition check (hostname : string) : RM Verdict :=
  rcatch is_redis_error
    (reps <~ pipeline [EXISTS HOSTS_KEY; SISMEMBER HOSTS_KEY hostname] ;;
     rret (match reps with
           | [ex; member] => if negb (reply_true ex) then UNKNOWN_HOST
                             else if reply_true member then MEMBER else NONMEMBER
           | _ => UNKNOWN_HOST
           end))
    (λ _, rret UNKNOWN_HOST).

(** ** Incremental maintenance *)

Inductive MembershipOp := Sadd | Srem.

Definition dirty_bump : RM unit :=
  pipeline [INCR DIRTY_KEY; EXPIRE DIRTY_KEY _DIRTY_TTL_SECONDS true] ~;; rret tt.

Definition _apply_membership (op : MembershipOp) (hostname : string) : RM unit :=
  (match op with
   | Sadd =>
       ex <~ raw (EXISTS HOSTS_KEY) ;;
       if reply_true ex then raw (SADD HOSTS_KEY [hostname]) ~;; rret tt else rret tt
   | Srem => raw (SREM HOSTS_KEY hostname) ~;; rret tt
   end) ~;;
  dirty_bump.

Definition add (hostname : string) : RM unit :=
  if negb (warm_enabled cfg) then rret tt
  else rcatch is_redis_error (_apply_membership Sadd hostname) (λ _, rret tt).

Definition remove (hostname : string) : RM unit :=
  if negb (warm_enabled cfg) then rret tt
  else rcatch is_redis_error (_apply_membership Srem hostname) (λ _, rret tt).

Definition arm : RM unit :=
  if negb (warm_enabled cfg) then rret tt
  else rcatch is_redis_error (raw (EXPIRE HOSTS_KEY (HOSTS_ARM_SECONDS cfg) false) ~;; rret tt) (λ _, rret tt).

(** [reconcile_host_registry_task.delay()]: a publish to the broker. *)
Definition delay : RM unit := rtrip (λ h, (Ok tt, h)) ~;; rmodify inc_delayed.

Definition trigger_warm : RM unit :=
  if negb (warm_enabled cfg) then rret tt
  else
    rcatch is_exception
      (set <~ raw (SETNX WARM_PENDING_KEY "1" (WARM_PENDING_SECONDS cfg)) ;;
       if reply_true set then delay else rret tt)
      (λ _, rret tt).

(** The [on_commit] callbacks of the Domain signals. *)
Definition domain_saved (domain : string) : RM unit := add domain ~;; arm ~;; trigger_warm.
Definition domain_deleted (domain : string) : RM unit := remove domain ~;; arm ~;; trigger_warm.

(** ** Reconcile *)

Definition _REBUILD_CHUNK : nat := 2000.

(** [flush()]: [n] is the running count of positives written. *)
Definition flush (n : nat) (batch : list (string * TenantObj)) : RM nat :=
  match batch with
  | [] => rret n
  | _ =>
      raw (SADD HOSTS_NEW_KEY (fst <$> batch)) ~;;
      k <~ cached (put_many cfg ((λ '(h, t), (h, ARow t)) <$> batch)) ;;
      cached (put_schema_many cfg (ARow ∘ snd <$> by_schema_of batch)) ~;;
      rret (n + k)%nat
  end.

(** [for d in Domain.objects...iterator(...)], then the last [flush()]. *)
Fixpoint rebuild_loop (chunk n : nat) (batch rows : list (string * TenantObj)) : RM nat :=
  match rows with
  | [] => flush n batch
  | d :: rows' =>
      let batch := batch ++ [d] in
      if chunk <=? length batch then n <~ flush n batch ;; rebuild_loop chunk n [] rows'
      else rebuild_loop chunk n batch rows'
  end.

Definition _rebuild_once : RM (nat * list string) :=
  raw (DEL HOSTS_NEW_KEY) ~;;
  rows <~ db_read sh_domains ;;
  n <~ rebuild_loop _REBUILD_CHUNK 0 [] rows ;;
  ex <~ raw (EXISTS HOSTS_NEW_KEY) ;;
  (if reply_true ex then raw (RENAME HOSTS_NEW_KEY HOSTS_KEY) else raw (DEL HOSTS_KEY)) ~;;
  rret (n, fst <$> rows).

Definition reply_val (p : Reply) : option RVal := match p with PVal v => v | _ => None end.

(** [for _ in range(3)]; [k] iterations are left and [last] is what the variables
    hold. *)
Fixpoint reconcile_loop (k : nat) (last : nat * list string) : RM (nat * list string) :=
  match k with
  | O => rret last
  | S k' =>
      before <~ raw (GET DIRTY_KEY) ;;
      built <~ _rebuild_once ;;
      after <~ raw (GET DIRTY_KEY) ;;
      if bool_decide (reply_val after = reply_val before) then rret built else reconcile_loop k' built
  end.

Definition reconcile : RM nat :=
  if negb (warm_enabled cfg) then rret 0
  else
    alive <~ redis_alive ;;
    if negb (alive : bool) then rret 0
    else
      built <~ reconcile_loop 3 (0, []) ;;
      schemas <~ db_read sh_schemas ;;
      rtrip (λ h, let '(n, c) := sweep_orphans (λ h, mem h built.2) (λ s, mem s schemas) (sh_cache h) in
                  (Ok n, with_cache (λ _, c) h)) ~;;     (* the SCAN may raise *)
      rret built.1.

Definition lock_error : exn := simple_exn LockError "LockNotOwnedError" "".

(** [run_locked]; [token] is the value the [Lock] object draws. *)
Definition run_locked (token : string) : RM (option nat) :=
  if negb (warm_enabled cfg) then rret None
  else
    alive <~ redis_alive ;;
    if negb (alive : bool) then rret None
    else
      got <~ raw (SETNX WARM_LOCK_KEY token (WARM_LOCK_SECONDS cfg)) ;;
      if negb (reply_true got) then rret None
      else
        rfinally (n <~ reconcile ;; rret (Some n))
          (rcatch (λ e, match eo_class (x_obj e) with LockError => true | _ => false end)
             (ok <~ raw (UNLOCK WARM_LOCK_KEY token) ;;
              if reply_true ok then rret tt else rraise lock_error)
             (λ _, rret tt)).

End registry.
