(* ===== verification/RegistryFacts.v ===== *)
(** * Properties of the host registry *)
From S2P Require Import Prelude PyStr Models PyExc World ResolveCache ResolveCacheFacts Registry.
Open Scope tenants_scope.

Section facts.
Context `{Backend} `{RawRedis} (cfg : Cfg).

Definition keys (s : RS) : gmap string RVal := r_keys (sh_redis (rs_shared s)).
Definition cache (s : RS) : C := sh_cache (rs_shared s).
Definition domains (s : RS) : list (string * TenantObj) := sh_domains (rs_shared s).

(** What a calm run of the registry leaves alone. *)
Definition frame (s s' : RS) : Prop :=
  rs_script s' = [] ∧ domains s' = domains s ∧ sh_tenants (rs_shared s') = sh_tenants (rs_shared s)
  ∧ rs_delayed s' = rs_delayed s ∧ rs_db_calls s' = rs_db_calls s.

#[export] Instance frame_trans : Transitive frame.
Proof. unfold frame. intros s1 s2 s3. intuition congruence. Qed.

(** ** Calm round trips *)

Lemma pipeline_one c s rep m :
  rs_script s = [] → redis_doc c (keys s) = Some (rep, m) →
  ∃ s', raw c s = (Ok rep, s') ∧ keys s' = m ∧ cache s' = cache s ∧ frame s s'.
Proof.
  intros Hs Hd. unfold raw, pipeline, rtrip, rbind, next_revent. rewrite Hs. simpl.
  destruct (r_exec_ok c (sh_redis (rs_shared s)) rep m Hd) as [Hr Hk].
  destruct (r_exec c _) as [rep' r1]. simpl in *. subst. simpl. eexists. split; [reflexivity|]. by repeat split.
Qed.

Lemma pipeline_two c1 c2 s rep1 rep2 m1 m2 :
  rs_script s = [] → redis_doc c1 (keys s) = Some (rep1, m1) → redis_doc c2 m1 = Some (rep2, m2) →
  ∃ s', pipeline [c1; c2] s = (Ok [rep1; rep2], s') ∧ keys s' = m2 ∧ cache s' = cache s ∧ frame s s'.
Proof.
  intros Hs Hd1 Hd2. unfold pipeline, rtrip, rbind, next_revent. rewrite Hs. simpl.
  destruct (r_exec_ok c1 (sh_redis (rs_shared s)) rep1 m1 Hd1) as [Hr1 Hk1].
  destruct (r_exec c1 _) as [rep1' r1]. simpl in *. subst.
  destruct (r_exec_ok c2 r1 rep2 m2 Hd2) as [Hr2 Hk2].
  destruct (r_exec c2 _) as [rep2' r2]. simpl in *. subst. eexists. split; [reflexivity|]. by repeat split.
Qed.

Lemma cached_calm {A} (f : C → A * C) s :
  rs_script s = [] →
  ∃ s', cached f s = (Ok (f (cache s)).1, s') ∧ keys s' = keys s ∧ cache s' = (f (cache s)).2 ∧ frame s s'.
Proof.
  intros Hs. unfold cached, rbind, next_revent. rewrite Hs. unfold cache.
  destruct (f (sh_cache (rs_shared s))) as [a c]. eexists. split; [reflexivity|]. by repeat split.
Qed.

Lemma db_read_calm {A} (f : Shared → A) s : rs_script s = [] → db_read f s = (Ok (f (rs_shared s)), s).
Proof. intros Hs. unfold db_read, rtrip, rbind, next_revent. rewrite Hs. by destruct s. Qed.

Lemma rbind_ok {A B} (m : RM A) (k : A → RM B) s a s' : m s = (Ok a, s') → rbind m k s = k a s'.
Proof. unfold rbind. by intros ->. Qed.

(** ** Gate *)

(** What the server holds when the gate's pipeline runs. *)
Definition seen_keys (s : RS) : gmap string RVal :=
  match rs_script s with [] => keys s | ev :: _ => r_keys (sh_redis (re_env ev (rs_shared s))) end.

Definition faulty (s : RS) : bool :=
  match rs_script s with [] => false | ev :: _ => bool_decide (re_fault ev ≠ None) end.

Definition redis_faults (s : RS) : Prop :=
  match rs_script s with
  | [] => True
  | ev :: _ => match re_fault ev with Some e => is_redis_error e = true | None => True end
  end.

Lemma redis_error_is msg : is_redis_error (redis_error msg) = true.
Proof. reflexivity. Qed.

Definition verdict_of (v : option RVal) (hostname : string) : Verdict :=
  match v with
  | Some (RSet hosts) => if bool_decide (hostname ∈ hosts) then MEMBER else NONMEMBER
  | _ => UNKNOWN_HOST
  end.

Lemma exec_gate h r :
  match (r_keys r) !! HOSTS_KEY with
  | None => (exec_all [EXISTS HOSTS_KEY; SISMEMBER HOSTS_KEY h] r).1 = Some [PBool false; PBool false]
  | Some (RSet hs) => (exec_all [EXISTS HOSTS_KEY; SISMEMBER HOSTS_KEY h] r).1
                      = Some [PBool true; PBool (bool_decide (h ∈ hs))]
  | Some _ => (exec_all [EXISTS HOSTS_KEY; SISMEMBER HOSTS_KEY h] r).1 = None
  end.
Proof.
  simpl. destruct (r_exec_ok (EXISTS HOSTS_KEY) r _ _ eq_refl) as [H1 H2].
  destruct (r_exec (EXISTS HOSTS_KEY) r) as [rep1 r1]. simpl in H1, H2. subst rep1. rewrite <- H2.
  destruct (redis_doc (SISMEMBER HOSTS_KEY h) (r_keys r1)) as [[rep m]|] eqn:E.
  - destruct (r_exec_ok _ _ _ _ E) as [H3 _]. destruct (r_exec (SISMEMBER HOSTS_KEY h) r1) as [rep2 r2].
    simpl in H3. subst rep2. simpl in E. destruct (r_keys r1 !! HOSTS_KEY) as [[hs| |]|]; by simplify_eq/=.
  - destruct (r_exec_err _ _ E) as [H3 _]. destruct (r_exec (SISMEMBER HOSTS_KEY h) r1) as [rep2 r2].
    simpl in H3. subst rep2. simpl in E. by destruct (r_keys r1 !! HOSTS_KEY) as [[hs| |]|].
Qed.

Lemma check_spec hostname s :
  redis_faults s →
  (check hostname s).1 =
    Ok (if faulty s then UNKNOWN_HOST else verdict_of (seen_keys s !! HOSTS_KEY) hostname).
Proof.
  intros Hf. unfold check, rcatch, pipeline, rtrip, rbind, next_revent, faulty, seen_keys, redis_faults in *.
  destruct (rs_script s) as [|ev l]; cbn -[exec_all redis_error].
  - pose proof (exec_gate hostname (sh_redis (rs_shared s))) as Hg. unfold keys.
    destruct (exec_all _ _) as [reps r']. simpl in Hg.
    destruct (r_keys (sh_redis (rs_shared s)) !! HOSTS_KEY) as [[hs| |]|]; subst; simpl;
      rewrite ?redis_error_is; [by case_bool_decide|done..].
  - pose proof (exec_gate hostname (sh_redis (re_env ev (rs_shared s)))) as Hg.
    destruct (exec_all _ _) as [reps r']. simpl in Hg. destruct (re_fault ev) as [e|].
    + rewrite Hf. done.
    + rewrite bool_decide_false by (intros []; done).
      destruct (r_keys (sh_redis (re_env ev (rs_shared s))) !! HOSTS_KEY) as [[hs| |]|]; subst; simpl;
        rewrite ?redis_error_is; [by case_bool_decide|done..].
Qed.

(** The gate's verdict, whatever happens on the wire: a host is a member
    or a non-member only when the SET existed and did or did not hold it at
    that instant; an absent SET and any Redis error give the fail-open verdict,
    and the gate itself raises nothing. *)
Theorem check_correct hostname s :
  redis_faults s →
  (check hostname s).1 =
    Ok (if faulty s then UNKNOWN_HOST else verdict_of (seen_keys s !! HOSTS_KEY) hostname).
Proof. apply check_spec. Qed.

(** ** The snapshots a rebuild writes *)

(** Rows of the Domain table: hosts are unique, a schema names one tenant, and
    the configured TTLs are usable. *)
Definition rows_ok (rows : list (string * TenantObj)) : Prop :=
  NoDup rows.*1
  ∧ (∀ d d', d ∈ rows → d' ∈ rows → o_schema d.2 = o_schema d'.2 → d.2 = d'.2)
  ∧ (∀ d, d ∈ rows → ttl_ok (_ttl_for cfg (ARow d.2)) = true).

(** [c'] is [c] with fresh snapshots for [rows]. *)
Definition filled (rows : list (string * TenantObj)) (c c' : C) : Prop :=
  (∀ d, d ∈ rows → c_get c' (_snap_key d.1) = Some (dump (ARow d.2)))
  ∧ (∀ d, d ∈ rows → c_get c' (_schema_snap_key (o_schema d.2)) = Some (dump (ARow d.2)))
  ∧ (∀ h, h ∉ rows.*1 → c_get c' (_snap_key h) = c_get c (_snap_key h))
  ∧ (∀ x, (∀ d, d ∈ rows → o_schema d.2 ≠ x) → c_get c' (_schema_snap_key x) = c_get c (_schema_snap_key x))
  ∧ (∀ k, py_startswith k SNAP_PREFIX = false → py_startswith k SCHEMA_PREFIX = false → c_get c' k = c_get c k)
  ∧ c_alive c' = c_alive c.

Lemma rows_ok_app l1 l2 : rows_ok (l1 ++ l2) → rows_ok l1 ∧ rows_ok l2.
Proof.
  intros (Hn & Hc & Ht). rewrite fmap_app in Hn. apply NoDup_app in Hn as (Hn1 & _ & Hn2).
  split; (split; [done|]); split; intros; try apply Hc; try apply Ht; set_solver.
Qed.

Lemma filled_app l1 l2 c c1 c2 :
  rows_ok (l1 ++ l2) → filled l1 c c1 → filled l2 c1 c2 → filled (l1 ++ l2) c c2.
Proof.
  intros (Hn & Hc & _) (A1 & A2 & A3 & A4 & A5 & A6) (B1 & B2 & B3 & B4 & B5 & B6).
  rewrite fmap_app in Hn. apply NoDup_app in Hn as (_ & Hdis & _).
  split; [|split; [|split; [|split; [|split]]]].
  - intros d [Hd|Hd]%elem_of_app; [|by apply B1]. rewrite B3; [by apply A1|].
    apply Hdis. apply list_elem_of_fmap. by exists d.
  - intros d [Hd|Hd]%elem_of_app; [|by apply B2].
    destruct (decide (Exists (λ d', o_schema d'.2 = o_schema d.2) l2)) as [He|He].
    + apply Exists_exists in He as (d' & Hd' & E). rewrite <- E, (B2 d' Hd'). do 2 f_equal.
      f_equal. apply Hc; [set_solver|set_solver|done].
    + rewrite B4; [by apply A2|]. intros d' Hd' E. apply He, Exists_exists. by exists d'.
  - intros h Hh. rewrite fmap_app in Hh. apply not_elem_of_app in Hh as [? ?]. by rewrite B3, A3.
  - intros x Hx. rewrite B4, A4; [done|..]; intros d Hd; apply Hx; set_solver.
  - intros k Hk1 Hk2. by rewrite B5, A5.
  - congruence.
Qed.

Lemma alive_put_many keyed c : c_alive (_put_many_by_ttl cfg keyed c).2 = c_alive c.
Proof.
  unfold _put_many_by_ttl. destruct (positive_off cfg); [done|]. simpl.
  match goal with |- c_alive (foldl _ _ ?g) = _ => generalize g end. intros g. revert c.
  induction g as [|[ttl b] g IH]; intros c; simpl; [done|]. by rewrite IH, alive_set_many.
Qed.

Lemma dict_set_keys {A} k (v : A) d x : x ∈ (dict_set k v d).*1 ↔ x = k ∨ x ∈ d.*1.
Proof.
  induction d as [|[k' v'] d IH]; simpl; [set_solver|]. destruct (String.eqb_spec k k'); simpl; set_solver.
Qed.

Lemma dict_set_nodup {A} k (v : A) d : NoDup d.*1 → NoDup (dict_set k v d).*1.
Proof.
  induction d as [|[k' v'] d IH]; simpl; [intros _; apply NoDup_singleton|]. intros [Hk Hn]%NoDup_cons.
  destruct (String.eqb_spec k k') as [->|Hne]; simpl; constructor; try done; [|by apply IH].
  rewrite dict_set_keys. by intros [->|?].
Qed.

Lemma dict_set_elem {A} k (v : A) d x : x ∈ dict_set k v d → x = (k, v) ∨ x ∈ d.
Proof.
  induction d as [|[k' v'] d IH]; simpl; [set_solver|]. destruct (String.eqb_spec k k'); set_solver.
Qed.

Lemma by_schema_spec batch :
  NoDup (by_schema_of batch).*1
  ∧ (∀ x, x ∈ by_schema_of batch → x.1 = o_schema x.2 ∧ x.2 ∈ batch.*2)
  ∧ (∀ d, d ∈ batch → o_schema d.2 ∈ (by_schema_of batch).*1).
Proof.
  unfold by_schema_of. induction batch as [|[h t] batch IH] using rev_ind.
  - split; [constructor|]. split; intros ? ?%not_elem_of_nil; done.
  - rewrite foldl_app. cbn [foldl]. destruct IH as (Hn & He & Hk). split; [by apply dict_set_nodup|]. split.
    + intros x [->|Hx]%dict_set_elem; rewrite fmap_app, elem_of_app; simpl.
      * split; [done|]. right. by left.
      * destruct (He x Hx) as [? ?]. auto.
    + intros d [Hd| ->%list_elem_of_singleton]%elem_of_app; apply dict_set_keys; [right; by apply Hk|by left].
Qed.

Lemma snap_prefixed h : py_startswith (_snap_key h) SNAP_PREFIX = true.
Proof. apply py_startswith_spec. by exists h. Qed.
Lemma schema_prefixed x : py_startswith (_schema_snap_key x) SCHEMA_PREFIX = true.
Proof. apply py_startswith_spec. by exists x. Qed.

(** The host half and the schema half of a flush. *)
Lemma hosts_written batch c :
  rows_ok batch → c_alive c = true → positive_off cfg = false →
  let '(n, c1) := put_many cfg ((λ '(h, t), (h, ARow t)) <$> batch) c in
  n = length batch ∧ c_alive c1 = true
  ∧ (∀ d, d ∈ batch → c_get c1 (_snap_key d.1) = Some (dump (ARow d.2)))
  ∧ (∀ k, k ∉ _snap_key <$> batch.*1 → c_get c1 k = c_get c k).
Proof.
  intros (Hn & _ & Ht) Ha Hoff. unfold put_many. set (k1 := _ <$> (_ <$> batch)).
  assert (k1 = (λ d : string * TenantObj, (_snap_key d.1, ARow d.2)) <$> batch) as E1.
  { unfold k1. rewrite <- list_fmap_compose. apply list_fmap_ext. by intros ? [? ?]. }
  assert (k1.*1 = _snap_key <$> batch.*1) as K1.
  { rewrite E1, <- !list_fmap_compose. by apply list_fmap_ext; intros ? []. }
  pose proof (put_many_spec cfg k1 c Ha Hoff) as P. rewrite K1 in P.
  pose proof (alive_put_many k1 c) as Hal.
  destruct (_put_many_by_ttl cfg k1 c) as [n1 c1]. simpl in Hal. destruct P as (-> & P & P').
  { apply NoDup_fmap_2; [intros ?? E; by apply snap_key_inj|done]. }
  { rewrite E1. apply Forall_fmap, Forall_forall. intros d Hd. by apply Ht. }
  split; [rewrite E1; apply length_fmap|]. split; [by rewrite Hal|]. split; [|done].
  intros d Hd. apply P. rewrite E1. apply list_elem_of_fmap. by exists d.
Qed.

Lemma schemas_written batch c :
  rows_ok batch → c_alive c = true → positive_off cfg = false →
  let c2 := (put_schema_many cfg (ARow ∘ snd <$> by_schema_of batch) c).2 in
  c_alive c2 = true
  ∧ (∀ d, d ∈ batch → c_get c2 (_schema_snap_key (o_schema d.2)) = Some (dump (ARow d.2)))
  ∧ (∀ k, k ∉ (λ d, _schema_snap_key (o_schema d.2)) <$> batch → c_get c2 k = c_get c k).
Proof.
  intros (_ & Hc & Ht) Ha Hoff. cbn zeta. unfold put_schema_many. set (k2 := _ <$> (_ <$> by_schema_of batch)).
  destruct (by_schema_spec batch) as (Bn & Be & Bk).
  assert (k2 = (λ x : string * TenantObj, (_schema_snap_key (o_schema x.2), ARow x.2)) <$> by_schema_of batch) as E2.
  { unfold k2. rewrite <- list_fmap_compose. apply list_fmap_ext. by intros ? [? ?]. }
  assert (k2.*1 = _schema_snap_key <$> (by_schema_of batch).*1) as K2.
  { rewrite E2, <- !list_fmap_compose. apply list_fmap_ext. intros i x Hx. simpl. f_equal. symmetry.
    apply Be. by eapply list_elem_of_lookup_2. }
  pose proof (put_many_spec cfg k2 c Ha Hoff) as P. rewrite K2 in P.
  pose proof (alive_put_many k2 c) as Hal.
  destruct (_put_many_by_ttl cfg k2 c) as [n2 c2]. simpl in *. destruct P as (_ & P & P').
  { apply NoDup_fmap_2; [intros ?? E; by apply schema_key_inj|done]. }
  { rewrite E2. apply Forall_fmap, Forall_forall. intros x Hx. destruct (Be x Hx) as [_ Hb].
    simpl. apply list_elem_of_fmap in Hb as (d & -> & Hd). by apply Ht. }
  split; [by rewrite Hal|]. split.
  - intros d Hd. apply P. rewrite E2. apply list_elem_of_fmap.
    pose proof (Bk d Hd) as Hk. apply list_elem_of_fmap in Hk as (x & Hs & Hx). exists x.
    destruct (Be x Hx) as [E Hb]. apply list_elem_of_fmap in Hb as (d' & Ed' & Hd').
    assert (d.2 = x.2) as -> by (rewrite Ed'; apply Hc; [done|done|]; by rewrite <- Ed', <- E). done.
  - intros k Hk. apply P'. intros (x & -> & Hx)%list_elem_of_fmap. apply Hk.
    apply list_elem_of_fmap in Hx as (y & -> & Hy). destruct (Be y Hy) as [E Hb].
    apply list_elem_of_fmap in Hb as (d & Ed & Hd). apply list_elem_of_fmap. exists d. by rewrite E, Ed.
Qed.

Lemma batch_filled batch c :
  rows_ok batch → c_alive c = true → positive_off cfg = false →
  let c1 := put_many cfg ((λ '(h, t), (h, ARow t)) <$> batch) c in
  let c2 := put_schema_many cfg (ARow ∘ snd <$> by_schema_of batch) c1.2 in
  c1.1 = length batch ∧ filled batch c c2.2.
Proof.
  intros Hr Ha Hoff. cbn zeta. pose proof (hosts_written batch c Hr Ha Hoff) as P1.
  destruct (put_many cfg _ c) as [n1 c1]. destruct P1 as (-> & Ha1 & P1 & P1'). simpl.
  destruct (schemas_written batch c1 Hr Ha1 Hoff) as (Ha2 & P2 & P2').
  destruct (put_schema_many cfg _ c1) as [n2 c2]. simpl in *.
  assert (∀ h, _snap_key h ∉ (λ d : string * TenantObj, _schema_snap_key (o_schema d.2)) <$> batch) as Hd1.
  { intros h (x & E & _)%list_elem_of_fmap. by apply keys_disjoint in E. }
  assert (∀ x, _schema_snap_key x ∉ _snap_key <$> batch.*1) as Hd2.
  { intros x (h & E & _)%list_elem_of_fmap. symmetry in E. by apply keys_disjoint in E. }
  split; [done|]. split; [|split; [|split; [|split; [|split]]]].
  - intros d Hd. rewrite P2' by done. by apply P1.
  - done.
  - intros h Hh. rewrite P2' by done. apply P1'. intros (h' & E & Hin)%list_elem_of_fmap.
    apply snap_key_inj in E. by subst.
  - intros x Hx. rewrite P2'; [by apply P1'|]. intros (d & E & Hd)%list_elem_of_fmap.
    apply schema_key_inj in E. by apply (Hx d Hd).
  - intros k Hk1 Hk2. rewrite P2', P1'; [done|..].
    + intros (h & -> & _)%list_elem_of_fmap. by rewrite snap_prefixed in Hk1.
    + intros (d & -> & _)%list_elem_of_fmap. by rewrite schema_prefixed in Hk2.
  - congruence.
Qed.

(** ** The rebuild *)

(** The SET under the build key, empty when there is none. *)
Definition building (s : RS) : gset string :=
  match keys s !! HOSTS_NEW_KEY with Some (RSet x) => x | _ => ∅ end.

Definition build_ok (s : RS) : Prop :=
  match keys s !! HOSTS_NEW_KEY with Some (RSet _) | None => True | _ => False end.

(** [s'] is [s] after [rows] were added to the SET under construction and their
    snapshots written. *)
Definition built (rows : list (string * TenantObj)) (s s' : RS) : Prop :=
  keys s' = (if bool_decide (rows = []) then keys s
             else <[HOSTS_NEW_KEY := RSet (building s ∪ list_to_set rows.*1)]> (keys s))
  ∧ filled rows (cache s) (cache s') ∧ frame s s'.

Lemma frame_refl s : rs_script s = [] → frame s s.
Proof. by repeat split. Qed.

Lemma filled_nil c : filled [] c c.
Proof. repeat split; intros; (done || by apply not_elem_of_nil in H1). Qed.

Lemma built_nil s : rs_script s = [] → built [] s s.
Proof. intros Hs. split; [done|]. split; [apply filled_nil|by apply frame_refl]. Qed.

Lemma built_ok rows s s' : built rows s s' → build_ok s → build_ok s'.
Proof.
  intros (Hk & _) Hb. unfold build_ok in *. rewrite Hk. case_bool_decide; [done|]. by rewrite lookup_insert_eq.
Qed.

Lemma built_app l1 l2 s s1 s2 :
  rows_ok (l1 ++ l2) → built l1 s s1 → built l2 s1 s2 → built (l1 ++ l2) s s2.
Proof.
  intros Hr (A1 & A2 & A3) (B1 & B2 & B3). split; [|split; [by eapply filled_app|by etrans]].
  rewrite B1. destruct l2 as [|d2 l2]; [by rewrite app_nil_r|]. rewrite bool_decide_false by done.
  rewrite (bool_decide_false (l1 ++ d2 :: l2 = [])) by (by destruct l1). unfold building. rewrite A1.
  destruct l1 as [|d1 l1]; [done|]. rewrite bool_decide_false by done. rewrite lookup_insert_eq, insert_insert_eq.
  f_equal. f_equal. rewrite fmap_app, list_to_set_app_L. set_solver.
Qed.

Lemma flush_calm n batch s :
  rs_script s = [] → build_ok s → rows_ok batch → c_alive (cache s) = true → positive_off cfg = false →
  ∃ s', flush cfg n batch s = (Ok (n + length batch)%nat, s') ∧ built batch s s'.
Proof.
  intros Hs Hb Hr Ha Hoff. destruct batch as [|d batch].
  { exists s. split; [by rewrite Nat.add_0_r|by apply built_nil]. }
  unfold flush. set (b := d :: batch) in *.
  destruct (pipeline_one (SADD HOSTS_NEW_KEY (fst <$> b)) s
    (PNum (Z.of_nat (size ((list_to_set b.*1 : gset string) ∖ building s))))
    (<[HOSTS_NEW_KEY := RSet (building s ∪ list_to_set b.*1)]> (keys s)) Hs) as (s1 & E1 & K1 & C1 & F1).
  { unfold build_ok, building, redis_doc in *. destruct (keys s !! HOSTS_NEW_KEY) as [[x| |]|]; try done.
    by rewrite union_empty_l_L, difference_empty_L. }
  rewrite (rbind_ok _ _ _ _ _ E1).
  destruct (cached_calm (put_many cfg ((λ '(h, t), (h, ARow t)) <$> b)) s1 (proj1 F1)) as (s2 & E2 & K2 & C2 & F2).
  rewrite (rbind_ok _ _ _ _ _ E2).
  destruct (cached_calm (put_schema_many cfg (ARow ∘ snd <$> by_schema_of b)) s2 (proj1 F2)) as (s3 & E3 & K3 & C3 & F3).
  rewrite (rbind_ok _ _ _ _ _ E3). rewrite C1 in *. rewrite C2 in C3.
  destruct (batch_filled b (cache s) Hr Ha Hoff) as [Hn Hf].
  exists s3. split; [unfold rret; by rewrite Hn|]. split; [by rewrite K3, K2, K1|]. split; [|by do 2 (etrans; [eassumption|])].
  by rewrite C3.
Qed.

Lemma rebuild_loop_calm chunk rows n batch s :
  0 < chunk → rs_script s = [] → build_ok s → rows_ok (batch ++ rows) → c_alive (cache s) = true →
  positive_off cfg = false → length batch < chunk →
  ∃ s', rebuild_loop cfg chunk n batch rows s = (Ok (n + length (batch ++ rows))%nat, s') ∧ built (batch ++ rows) s s'.
Proof.
  intros Hc. revert n batch s. induction rows as [|d rows IH]; intros n batch s Hs Hb Hr Ha Hoff Hl.
  - rewrite app_nil_r in *. by apply flush_calm.
  - cbn [rebuild_loop]. replace (batch ++ d :: rows) with ((batch ++ [d]) ++ rows) in * by (by rewrite <- app_assoc). destruct (chunk <=? length (batch ++ [d])) eqn:E.
    + pose proof (rows_ok_app _ _ Hr) as [Hr1 Hr2].
      destruct (flush_calm n (batch ++ [d]) s Hs Hb Hr1 Ha Hoff) as (s1 & E1 & B1).
      rewrite (rbind_ok _ _ _ _ _ E1). pose proof B1 as (_ & (_ & _ & _ & _ & _ & Ha1) & F1 & _).
      destruct (IH (n + length (batch ++ [d]))%nat [] s1) as (s2 & E2 & B2); try done.
      { by eapply built_ok. } { by rewrite Ha1. }
      exists s2. rewrite E2. split; [|by eapply built_app]. f_equal. f_equal. rewrite (length_app (batch ++ [d])). simpl. lia.
    + bool_props. by apply IH.
Qed.

(** What the registry's SET must be for a list of hosts. *)
Definition host_set (hosts : list string) : option RVal :=
  match hosts with [] => None | _ => Some (RSet (list_to_set hosts)) end.

(** A full rebuild against a calm server: the SET is exactly the hosts of the
    Domain table, nothing else among the raw keys moves. *)
Lemma rebuild_calm s :
  rs_script s = [] → rows_ok (domains s) → c_alive (cache s) = true → positive_off cfg = false →
  ∃ s', _rebuild_once cfg s = (Ok (length (domains s), (domains s).*1), s')
    ∧ keys s' = partial_alter (λ _, host_set (domains s).*1) HOSTS_KEY (delete HOSTS_NEW_KEY (keys s))
    ∧ filled (domains s) (cache s) (cache s') ∧ frame s s'.
Proof.
  intros Hs Hr Ha Hoff. unfold _rebuild_once.
  destruct (pipeline_one (DEL HOSTS_NEW_KEY) s _ _ Hs eq_refl) as (s1 & E1 & K1 & C1 & F1).
  rewrite (rbind_ok _ _ _ _ _ E1).
  assert (db_read sh_domains s1 = (Ok (domains s1), s1)) as E2.
  { unfold db_read, rtrip, rbind, next_revent. rewrite (proj1 F1). unfold domains.
    by destruct s1. }
  rewrite (rbind_ok _ _ _ _ _ E2). assert (domains s1 = domains s) as Hd by apply F1. rewrite Hd.
  destruct (rebuild_loop_calm _REBUILD_CHUNK (domains s) 0 [] s1) as (s3 & E3 & K3 & C3 & F3);
    [unfold _REBUILD_CHUNK; lia|apply F1|unfold build_ok; by rewrite K1, lookup_delete_eq|done|by rewrite C1|done
    |unfold _REBUILD_CHUNK; simpl; lia|].
  rewrite (rbind_ok _ _ _ _ _ E3). simpl app in *. rewrite C1 in C3.
  assert (building s1 = ∅) as Hb by (unfold building; by rewrite K1, lookup_delete_eq). rewrite Hb, union_empty_l_L in K3.
  destruct (pipeline_one (EXISTS HOSTS_NEW_KEY) s3 _ _ (proj1 F3) eq_refl) as (s4 & E4 & K4 & C4 & F4).
  rewrite (rbind_ok _ _ _ _ _ E4). simpl reply_true.
  destruct (domains s) as [|d rows] eqn:Erows.
  - simpl in K3. assert (keys s3 !! HOSTS_NEW_KEY = None) as Hn by (by rewrite K3, K1, lookup_delete_eq).
    rewrite bool_decide_false by (rewrite Hn; by intros []).
    destruct (pipeline_one (DEL HOSTS_KEY) s4 _ _ (proj1 F4) eq_refl) as (s5 & E5 & K5 & C5 & F5).
    rewrite (rbind_ok _ _ _ _ _ E5). exists s5. split; [done|]. rewrite C5, C4, K5, K4, K3, K1.
    split; [done|]. split; [done|]. do 3 (etrans; [eassumption|]); done.
  - rewrite bool_decide_false in K3 by done.
    assert (keys s3 !! HOSTS_NEW_KEY = Some (RSet (list_to_set (d :: rows).*1))) as Hn by (by rewrite K3, lookup_insert_eq).
    rewrite bool_decide_true by (by rewrite Hn).
    destruct (pipeline_one (RENAME HOSTS_NEW_KEY HOSTS_KEY) s4 (PBool true)
      (<[HOSTS_KEY := RSet (list_to_set (d :: rows).*1)]> (delete HOSTS_NEW_KEY (keys s)))) as (s5 & E5 & K5 & C5 & F5).
    { apply F4. } { simpl. rewrite K4, Hn, K3, delete_insert_eq, K1. by rewrite delete_delete_eq. }
    rewrite (rbind_ok _ _ _ _ _ E5). exists s5. split; [done|]. rewrite C5, C4, K5. split; [done|]. split; [done|].
    do 3 (etrans; [eassumption|]); done.
Qed.

(** ** Reconcile *)

Lemma redis_alive_calm s :
  rs_script s = [] → ∃ s', redis_alive s = (Ok true, s') ∧ keys s' = keys s ∧ cache s' = cache s ∧ frame s s'.
Proof.
  intros Hs. unfold redis_alive, rcatch.
  destruct (pipeline_one PING s _ _ Hs eq_refl) as (s1 & E1 & K1 & C1 & F1).
  rewrite (rbind_ok _ _ _ _ _ E1). by exists s1.
Qed.

Definition dirty_ok (s : RS) : Prop := ∀ x, keys s !! DIRTY_KEY ≠ Some (RSet x).

Lemma get_calm k s :
  rs_script s = [] → (∀ x, keys s !! k ≠ Some (RSet x)) →
  ∃ s', raw (GET k) s = (Ok (PVal (keys s !! k)), s') ∧ keys s' = keys s ∧ cache s' = cache s ∧ frame s s'.
Proof.
  intros Hs Hk. apply pipeline_one; [done|]. simpl. destruct (keys s !! k) as [[x| |]|] eqn:E; try done.
  by destruct (Hk x).
Qed.

(** Nothing else writes: one pass of the loop settles. *)
Lemma reconcile_loop_calm k last s :
  rs_script s = [] → rows_ok (domains s) → c_alive (cache s) = true → positive_off cfg = false → dirty_ok s →
  ∃ s', reconcile_loop cfg (S k) last s = (Ok (length (domains s), (domains s).*1), s')
    ∧ keys s' = partial_alter (λ _, host_set (domains s).*1) HOSTS_KEY (delete HOSTS_NEW_KEY (keys s))
    ∧ filled (domains s) (cache s) (cache s') ∧ frame s s'.
Proof.
  intros Hs Hr Ha Hoff Hd. cbn [reconcile_loop].
  destruct (get_calm DIRTY_KEY s Hs Hd) as (s1 & E1 & K1 & C1 & F1). rewrite (rbind_ok _ _ _ _ _ E1).
  assert (domains s1 = domains s) as Hd1 by apply F1.
  destruct (rebuild_calm s1) as (s2 & E2 & K2 & C2 & F2); [apply F1|by rewrite Hd1|by rewrite C1|done|].
  rewrite (rbind_ok _ _ _ _ _ E2). rewrite Hd1, C1, K1 in *.
  assert (keys s2 !! DIRTY_KEY = keys s !! DIRTY_KEY) as Hk.
  { rewrite K2, lookup_partial_alter_ne, lookup_delete_ne by done. done. }
  destruct (get_calm DIRTY_KEY s2) as (s3 & E3 & K3 & C3 & F3); [apply F2|intros x; rewrite Hk; apply Hd|].
  rewrite (rbind_ok _ _ _ _ _ E3). simpl reply_val. rewrite bool_decide_true by done.
  exists s3. rewrite K3, C3. split; [done|]. split; [done|]. split; [done|].
  do 2 (etrans; [eassumption|]); done.
Qed.

Lemma not_positive_not_snap h c x :
  positive_at c (_snap_key h) = false → get_snapshot h c ≠ Ok (LSnap x).
Proof.
  unfold positive_at, get_snapshot. intros Hp. bool_props. destruct (_classify (c_get c (_snap_key h))); done.
Qed.

Lemma stored_positive c k x : c_get c k = Some (dump x) → positive_at c k = true.
Proof. unfold positive_at. intros ->. by rewrite dump_positive, bool_decide_true. Qed.

Lemma get_snapshot_stored h x c :
  c_get c (_snap_key h) = Some (dump x) → get_snapshot h c = Ok (LSnap (no_url (capture x))).
Proof.
  unfold get_snapshot. intros ->. rewrite dump_positive. change (default CNone (Some (dump x))) with (dump x).
  by rewrite load_dump_url.
Qed.

(** The cache after the rebuild and the sweep. *)
Definition reconciled (rows : list (string * TenantObj)) (c : C) : Prop :=
  (∀ d, d ∈ rows → get_snapshot d.1 c = Ok (LSnap (no_url (capture (ARow d.2)))))
  ∧ (∀ h x, h ∉ rows.*1 → get_snapshot h c ≠ Ok (LSnap x)).

(** A host outside the table that had no entry has none afterwards. *)
Definition no_new_hosts (rows : list (string * TenantObj)) (c c' : C) : Prop :=
  ∀ h, h ∉ rows.*1 → c_get c (_snap_key h) = None → c_get c' (_snap_key h) = None.

Lemma filled_swept rows schemas c c1 :
  filled rows c c1 →
  let c2 := (sweep_orphans (λ h, mem h rows.*1) (λ s, mem s schemas) c1).2 in reconciled rows c2 ∧ no_new_hosts rows c c2.
Proof.
  intros (Hf & _ & Ho & _). pose proof (sweep_orphans_spec (λ h, mem h rows.*1) (λ s, mem s schemas) c1) as Hs.
  destruct (sweep_orphans _ _ c1) as [n c2]. destruct Hs as (Hh & _). simpl. split; [split|].
  - intros d Hd. apply get_snapshot_stored. rewrite Hh.
    rewrite (proj2 (mem_spec d.1 rows.*1)) by (apply list_elem_of_fmap; by exists d). simpl. by apply Hf.
  - intros h x Hn. apply not_positive_not_snap. unfold positive_at. rewrite Hh.
    rewrite (proj2 (mem_false h rows.*1)) by done. simpl.
    destruct (positive_at c1 (_snap_key h)) eqn:E; [by apply bool_decide_false|done].
  - intros h Hn Hc. rewrite Hh, Ho, Hc by done. by destruct (_ && _).
Qed.

(** What a host's verdict is once the SET holds exactly the Domain table. *)
Definition exact_verdict (rows : list (string * TenantObj)) (h : string) : Verdict :=
  match rows with
  | [] => UNKNOWN_HOST
  | _ => if bool_decide (h ∈ rows.*1) then MEMBER else NONMEMBER
  end.

Lemma exact_check rows h s :
  rs_script s = [] → keys s !! HOSTS_KEY = host_set rows.*1 → (check h s).1 = Ok (exact_verdict rows h).
Proof.
  intros Hs Hk. rewrite check_spec by (unfold redis_faults; by rewrite Hs).
  unfold faulty, seen_keys, exact_verdict. rewrite Hs, Hk.
  destruct rows as [|d rows]; [done|]. unfold host_set, verdict_of. simpl fmap.
  erewrite bool_decide_ext; [done|]. by rewrite elem_of_list_to_set.
Qed.

Lemma reconcile_calm s :
  rs_script s = [] → warm_enabled cfg = true → c_alive (cache s) = true → rows_ok (domains s) → dirty_ok s →
  ∃ s', reconcile cfg s = (Ok (length (domains s)), s')
    ∧ keys s' = partial_alter (λ _, host_set (domains s).*1) HOSTS_KEY (delete HOSTS_NEW_KEY (keys s))
    ∧ (reconciled (domains s) (cache s') ∧ no_new_hosts (domains s) (cache s) (cache s'))
    ∧ frame s s'.
Proof.
  intros Hs Hw Ha Hr Hd. unfold reconcile. rewrite Hw. cbn [negb].
  assert (positive_off cfg = false) as Hoff by (unfold positive_off; by rewrite Hw).
  destruct (redis_alive_calm s Hs) as (s1 & E1 & K1 & C1 & F1). rewrite (rbind_ok _ _ _ _ _ E1).
  cbn [negb]. assert (domains s1 = domains s) as Hd1 by apply F1.
  destruct (reconcile_loop_calm 2 (0, []) s1) as (s2 & E2 & K2 & C2 & F2);
    [apply F1|by rewrite Hd1|by rewrite C1|done|unfold dirty_ok; by rewrite K1|].
  rewrite (rbind_ok _ _ _ _ _ E2). rewrite Hd1, C1, K1 in *.
  rewrite (rbind_ok _ _ _ _ _ (db_read_calm sh_schemas s2 (proj1 F2))).
  unfold rbind at 1, rtrip, rbind at 1, next_revent. rewrite (proj1 F2). simpl.
  pose proof (filled_swept (domains s) (sh_schemas (rs_shared s2)) _ _ C2) as Hrec. unfold cache in Hrec.
  destruct (sweep_orphans _ _ (sh_cache (rs_shared s2))) as [n c2].
  eexists. split; [reflexivity|]. split; [exact K2|]. split; [exact Hrec|].
  do 2 (etrans; [eassumption|]). split; [apply F2|]. by repeat split.
Qed.

(** C16: a reconcile no other process disturbs makes the gate exact: it
    writes one positive per domain; afterwards a host is admitted exactly when
    it is in the Domain table (with no domain at all the flag is absent and the
    gate fails open); every domain resolves from the cache to its own tenant and
    no other host resolves from it; no other registry key moves but the build key. *)
Theorem reconcile_exact s :
  rs_script s = [] → warm_enabled cfg = true → c_alive (cache s) = true → rows_ok (domains s) → dirty_ok s →
  ∃ s', reconcile cfg s = (Ok (length (domains s)), s')
    ∧ (∀ h, (check h s').1 = Ok (exact_verdict (domains s) h))
    ∧ reconciled (domains s) (cache s')
    ∧ (∀ k, k ≠ HOSTS_KEY → k ≠ HOSTS_NEW_KEY → keys s' !! k = keys s !! k)
    ∧ frame s s'.
Proof.
  intros Hs Hw Ha Hr Hd. destruct (reconcile_calm s Hs Hw Ha Hr Hd) as (s' & E & K & (C' & _) & F).
  exists s'. split; [done|]. split; [|split; [done|split; [|done]]].
  - intros h. apply exact_check; [apply F|]. by rewrite K, lookup_partial_alter_eq.
  - intros k H1 H2. by rewrite K, lookup_partial_alter_ne, lookup_delete_ne.
Qed.

(** ** Incremental maintenance *)

Definition set_or_absent (v : option RVal) : Prop := match v with Some (RSet _) | None => True | _ => False end.
Definition int_or_absent (v : option RVal) : Prop := match v with Some (RInt _) | None => True | _ => False end.

Definition counter (v : option RVal) : Z := match v with Some (RInt n) => n | _ => 0 end.

Definition add_member (h : string) (v : option RVal) : option RVal :=
  match v with Some (RSet x) => Some (RSet (x ∪ {[h]})) | _ => None end.
Definition remove_member (h : string) (v : option RVal) : option RVal :=
  match v with
  | Some (RSet x) => if bool_decide (x ∖ {[h]} = ∅) then None else Some (RSet (x ∖ {[h]}))
  | _ => None
  end.

Lemma dirty_bump_calm s :
  rs_script s = [] → int_or_absent (keys s !! DIRTY_KEY) →
  ∃ s', dirty_bump s = (Ok tt, s') ∧ keys s' = <[DIRTY_KEY := RInt (counter (keys s !! DIRTY_KEY) + 1)]> (keys s)
    ∧ cache s' = cache s ∧ frame s s'.
Proof.
  intros Hs Hi. unfold dirty_bump.
  destruct (pipeline_two (INCR DIRTY_KEY) (EXPIRE DIRTY_KEY _DIRTY_TTL_SECONDS true) s
    (PNum (counter (keys s !! DIRTY_KEY) + 1)) (PBool true)
    (<[DIRTY_KEY := RInt (counter (keys s !! DIRTY_KEY) + 1)]> (keys s))
    (<[DIRTY_KEY := RInt (counter (keys s !! DIRTY_KEY) + 1)]> (keys s)) Hs) as (s1 & E1 & K1 & C1 & F1).
  - unfold int_or_absent in Hi. simpl. by destruct (keys s !! DIRTY_KEY) as [[]|].
  - simpl. by rewrite bool_decide_true by (by rewrite lookup_insert_eq).
  - rewrite (rbind_ok _ _ _ _ _ E1). by exists s1.
Qed.

(** A key update written as the source's command and as a function of the old value. *)
Lemma alter_const f k (m : gmap string RVal) v : f (m !! k) = v → partial_alter f k m = partial_alter (λ _, v) k m.
Proof. intros <-. apply partial_alter_ext. by intros ? ->. Qed.

Lemma sadd_calm h s :
  rs_script s = [] → set_or_absent (keys s !! HOSTS_KEY) →
  ∃ s', (ex <~ raw (EXISTS HOSTS_KEY) ;;
         if reply_true ex then raw (SADD HOSTS_KEY [h]) ~;; rret tt else rret tt) s = (Ok tt, s')
    ∧ keys s' = partial_alter (add_member h) HOSTS_KEY (keys s) ∧ cache s' = cache s ∧ frame s s'.
Proof.
  intros Hs Hh. destruct (pipeline_one (EXISTS HOSTS_KEY) s _ _ Hs eq_refl) as (s1 & E1 & K1 & C1 & F1).
  rewrite (rbind_ok _ _ _ _ _ E1). destruct (keys s !! HOSTS_KEY) as [[x| |]|] eqn:Eh; try done.
  - rewrite bool_decide_true by done. cbn [reply_true].
    destruct (pipeline_one (SADD HOSTS_KEY [h]) s1 (PNum (Z.of_nat (size ((list_to_set [h] : gset string) ∖ x))))
      (<[HOSTS_KEY := RSet (x ∪ list_to_set [h])]> (keys s))) as (s2 & E2 & K2 & C2 & F2);
      [apply F1|simpl; by rewrite K1, Eh|].
    rewrite (rbind_ok _ _ _ _ _ E2). exists s2. split; [done|]. split; [|by rewrite C2, C1; split; [|etrans]].
    rewrite K2. symmetry. apply alter_const. rewrite Eh. simpl. by rewrite union_empty_r_L.
  - rewrite bool_decide_false by (by intros []). exists s1. split; [done|]. split; [|done].
    rewrite K1. symmetry. rewrite (alter_const _ _ _ (keys s !! HOSTS_KEY)) by (by rewrite Eh). apply partial_alter_self.
Qed.

Lemma srem_calm h s :
  rs_script s = [] → set_or_absent (keys s !! HOSTS_KEY) →
  ∃ s', (raw (SREM HOSTS_KEY h) ~;; rret tt) s = (Ok tt, s')
    ∧ keys s' = partial_alter (remove_member h) HOSTS_KEY (keys s) ∧ cache s' = cache s ∧ frame s s'.
Proof.
  intros Hs Hh. destruct (keys s !! HOSTS_KEY) as [[x| |]|] eqn:Eh; try done.
  - destruct (pipeline_one (SREM HOSTS_KEY h) s (PNum (if bool_decide (h ∈ x) then 1 else 0))
      (if bool_decide (x ∖ {[h]} = ∅) then delete HOSTS_KEY (keys s) else <[HOSTS_KEY := RSet (x ∖ {[h]})]> (keys s)) Hs)
      as (s1 & E1 & K1 & C1 & F1); [simpl; by rewrite Eh|].
    rewrite (rbind_ok _ _ _ _ _ E1). exists s1. split; [done|]. split; [|done]. rewrite K1.
    rewrite (alter_const _ _ _ _ eq_refl), Eh. simpl. by case_bool_decide.
  - destruct (pipeline_one (SREM HOSTS_KEY h) s (PNum 0) (keys s) Hs) as (s1 & E1 & K1 & C1 & F1);
      [simpl; by rewrite Eh|].
    rewrite (rbind_ok _ _ _ _ _ E1). exists s1. split; [done|]. split; [|done]. rewrite K1. symmetry.
    rewrite (alter_const _ _ _ (keys s !! HOSTS_KEY)) by (by rewrite Eh). apply partial_alter_self.
Qed.

(** The Domain signals keep the SET in step with the table when it
    exists and never create it: a saved host is added only to an existing SET, a
    deleted one is removed (the SET vanishes with its last host), and every
    change bumps the dirty counter; nothing else moves. *)
Theorem membership_maintained h s :
  rs_script s = [] → warm_enabled cfg = true →
  set_or_absent (keys s !! HOSTS_KEY) → int_or_absent (keys s !! DIRTY_KEY) →
  let bump m := <[DIRTY_KEY := RInt (counter (keys s !! DIRTY_KEY) + 1)]> m in
  (∃ s', add cfg h s = (Ok tt, s')
     ∧ keys s' = bump (partial_alter (add_member h) HOSTS_KEY (keys s)) ∧ cache s' = cache s ∧ frame s s')
  ∧ (∃ s', remove cfg h s = (Ok tt, s')
     ∧ keys s' = bump (partial_alter (remove_member h) HOSTS_KEY (keys s)) ∧ cache s' = cache s ∧ frame s s').
Proof.
  intros Hs Hw Hh Hi. cbn zeta. unfold add, remove. rewrite Hw. cbn [negb]. unfold rcatch, _apply_membership.
  assert (∀ f (m : RM unit), (∃ s1, m s = (Ok tt, s1) ∧ keys s1 = partial_alter f HOSTS_KEY (keys s)
      ∧ cache s1 = cache s ∧ frame s s1) →
    ∃ s', (m ~;; dirty_bump) s = (Ok tt, s')
      ∧ keys s' = <[DIRTY_KEY := RInt (counter (keys s !! DIRTY_KEY) + 1)]> (partial_alter f HOSTS_KEY (keys s))
      ∧ cache s' = cache s ∧ frame s s') as Hb.
  { intros f m (s1 & E1 & K1 & C1 & F1). rewrite (rbind_ok _ _ _ _ _ E1).
    assert (keys s1 !! DIRTY_KEY = keys s !! DIRTY_KEY) as Hk by (by rewrite K1, lookup_partial_alter_ne).
    destruct (dirty_bump_calm s1) as (s2 & E2 & K2 & C2 & F2); [apply F1|by rewrite Hk|].
    exists s2. rewrite K2, Hk, K1, C2, C1. split; [done|]. split; [done|]. split; [done|]. by etrans. }
  split.
  - destruct (Hb _ _ (sadd_calm h s Hs Hh)) as (s' & E & R'). exists s'. by rewrite E.
  - destruct (Hb _ _ (srem_calm h s Hs Hh)) as (s' & E & R'). exists s'. by rewrite E.
Qed.

End facts.
