(* ===== verification/Throttle.v ===== *)
(** * Single flight

    Models [single_flight] of src/tenants/resolver/throttle.py: threads of one
    process that resolve the same key coalesce.  The first one leads and runs
    the resolver, the others wait for its slot and share its result or its
    [Exception]; a follower that waits too long, or whose leader was aborted by
    a control-flow exception, resolves by itself.  Threads interleave at every
    lock, event and resolver call. *)
From S2P Require Import Prelude PyStr PyExc Models World ResolveCache Registry ResolveCacheFacts RegistryFacts.
From Stdlib Require Import QArith Qminmax Lqa.
Open Scope tenants_scope.

Section flight.
Context {V : Type}.

(** A slot: its event, and what the leader left in it. *)
Record Slot := mkSlot { sl_event : bool; sl_result : option V; sl_exc : option exn }.

(** Where a thread is in the function, for its key; [own] marks a resolver call
    outside the leader's branch. *)
Inductive PC :=
| Enter                                   (** before [with _inflight_lock] *)
| Lead (slot : nat)                       (** the leader runs [resolver()] *)
| Pop (slot : nat) (fly : option exn)     (** its [finally]: before [_inflight.pop] *)
| Wake (slot : nat) (fly : option exn)    (** before [slot["event"].set()] *)
| Wait (slot : nat)                       (** a follower in [event.wait] *)
| Read (slot : nat) (lead : bool)         (** at [if slot["exc"] is not None] *)
| Own                                     (** in [return resolver()] *)
| Done (r : res exn V).

Record Thread := mkThread { th_key : string; th_pc : PC }.

Record FState := mkFState {
  f_inflight : gmap string nat;
  f_slots : gmap nat Slot;
  f_threads : gmap nat Thread;
  f_runs : list (string * nat * res exn V);   (** resolver calls that ended: key, thread, outcome *)
}.

Definition set_pc (i : nat) (key : string) (pc : PC) (s : FState) : FState :=
  mkFState (f_inflight s) (f_slots s) (<[i := mkThread key pc]> (f_threads s)) (f_runs s).
Definition set_slot (n : nat) (sl : Slot) (s : FState) : FState :=
  mkFState (f_inflight s) (<[n := sl]> (f_slots s)) (f_threads s) (f_runs s).
Definition record_run (key : string) (i : nat) (r : res exn V) (s : FState) : FState :=
  mkFState (f_inflight s) (f_slots s) (f_threads s) ((key, i, r) :: f_runs s).

Definition at_pc (s : FState) (i : nat) (key : string) (pc : PC) : Prop :=
  f_threads s !! i = Some (mkThread key pc).

(** What the leader's [try/except Exception] leaves in the slot, and the
    control-flow exception that flies on. *)
Definition leader_slot (r : res exn V) : Slot * option exn :=
  match r with
  | Ok v => (mkSlot false (Some v) None, None)
  | Err e => if is_exception e then (mkSlot false None (Some e), None) else (mkSlot false None None, Some e)
  end.

Inductive fstep : FState → FState → Prop :=
| f_call s i key :                         (* a new caller *)
    f_threads s !! i = None →
    fstep s (set_pc i key Enter s)
| f_lead s i key n :
    at_pc s i key Enter → f_inflight s !! key = None → f_slots s !! n = None →
    fstep s (set_pc i key (Lead n) (set_slot n (mkSlot false None None)
      (mkFState (<[key := n]> (f_inflight s)) (f_slots s) (f_threads s) (f_runs s))))
| f_follow s i key n :
    at_pc s i key Enter → f_inflight s !! key = Some n →
    fstep s (set_pc i key (Wait n) s)
| f_resolved s i key n r :
    at_pc s i key (Lead n) →
    fstep s (set_pc i key (Pop n (leader_slot r).2) (set_slot n (leader_slot r).1 (record_run key i r s)))
| f_pop s i key n fly :
    at_pc s i key (Pop n fly) →
    fstep s (set_pc i key (Wake n fly)
      (mkFState (delete key (f_inflight s)) (f_slots s) (f_threads s) (f_runs s)))
| f_wake s i key n fly sl :
    at_pc s i key (Wake n fly) → f_slots s !! n = Some sl →
    fstep s (set_pc i key (match fly with Some e => Done (Err e) | None => Read n true end)
      (set_slot n (mkSlot true (sl_result sl) (sl_exc sl)) s))
| f_woken s i key n sl :
    at_pc s i key (Wait n) → f_slots s !! n = Some sl → sl_event sl = true →
    fstep s (set_pc i key (Read n false) s)
| f_timeout s i key n :
    at_pc s i key (Wait n) →
    fstep s (set_pc i key Own s)
| f_read s i key n lead sl :
    at_pc s i key (Read n lead) → f_slots s !! n = Some sl →
    fstep s (set_pc i key
      (match sl_exc sl, sl_result sl with
       | Some e, _ => Done (Err e)
       | None, Some v => Done (Ok v)
       | None, None => Own
       end) s)
| f_own s i key r :
    at_pc s i key Own →
    fstep s (set_pc i key (Done r) (record_run key i r s)).

Definition fstart : FState := mkFState ∅ ∅ ∅ [].

Inductive freach : FState → Prop :=
| freach_start : freach fstart
| freach_step s s' : freach s → fstep s s' → freach s'.

(** ** Invariant *)

(** The slot a thread leads: registered under its key. *)
Definition leads (pc : PC) : option nat :=
  match pc with Lead n | Pop n _ => Some n | _ => None end.
(** The slot whose event the thread will set. *)
Definition pends (pc : PC) : option nat :=
  match pc with Lead n | Pop n _ | Wake n _ => Some n | _ => None end.
(** The slot the thread created. *)
Definition owns (pc : PC) : option nat :=
  match pc with Lead n | Pop n _ | Wake n _ | Read n true => Some n | _ => None end.
Definition uses (pc : PC) : option nat :=
  match pc with Lead n | Pop n _ | Wake n _ | Wait n | Read n _ => Some n | _ => None end.
(** The leader is past its resolver call and no exception flies. *)
Definition filled_by (pc : PC) : option nat :=
  match pc with Pop n None | Wake n None | Read n true => Some n | _ => None end.
Definition flying (pc : PC) : option exn :=
  match pc with Pop _ fly | Wake _ fly => fly | _ => None end.

(** A resolver call for [key] ended with [r]. *)
Definition ran (s : FState) (key : string) (r : res exn V) : Prop := ∃ j, (key, j, r) ∈ f_runs s.

(** What a slot holds comes from a resolver call for its key, and is never a
    control-flow exception. *)
Definition slot_ok (s : FState) (key : string) (sl : Slot) : Prop :=
  (∀ v, sl_result sl = Some v → ran s key (Ok v))
  ∧ (∀ e, sl_exc sl = Some e → is_exception e = true ∧ ran s key (Err e)).

(** A caller's outcome: some call for its key produced it, and a control-flow
    exception only its own. *)
Definition outcome_ok (s : FState) (key : string) (i : nat) (r : res exn V) : Prop :=
  ran s key r ∧ ∀ e, r = Err e → is_exception e = false → (key, i, r) ∈ f_runs s.

Record finv (s : FState) : Prop := mkFinv {
  fi_lead i key pc n : at_pc s i key pc → leads pc = Some n → f_inflight s !! key = Some n;
  fi_infl key n : f_inflight s !! key = Some n → ∃ i pc, at_pc s i key pc ∧ leads pc = Some n;
  fi_own i j key key' pc pc' n : at_pc s i key pc → at_pc s j key' pc' → owns pc = Some n → owns pc' = Some n → i = j;
  fi_key i j key key' pc pc' n : at_pc s i key pc → at_pc s j key' pc' → uses pc = Some n → uses pc' = Some n → key = key';
  fi_slot i key pc n : at_pc s i key pc → uses pc = Some n → ∃ sl, f_slots s !! n = Some sl ∧ slot_ok s key sl;
  fi_full i key pc n sl : at_pc s i key pc → filled_by pc = Some n → f_slots s !! n = Some sl →
    sl_result sl ≠ None ∨ sl_exc sl ≠ None;
  fi_fly i key pc e : at_pc s i key pc → flying pc = Some e → is_exception e = false ∧ (key, i, Err e) ∈ f_runs s;
  fi_wait i key n sl : at_pc s i key (Wait n) → f_slots s !! n = Some sl →
    sl_event sl = true ∨ ∃ j pc, at_pc s j key pc ∧ pends pc = Some n;
  fi_done i key r : at_pc s i key (Done r) → outcome_ok s key i r;
}.

Lemma at_set i key pc s j key' pc' :
  at_pc (set_pc i key pc s) j key' pc' ↔ (j = i ∧ key' = key ∧ pc' = pc) ∨ (j ≠ i ∧ at_pc s j key' pc').
Proof.
  unfold at_pc, set_pc. simpl. destruct (decide (j = i)) as [->|Hne].
  - rewrite lookup_insert_eq. naive_solver.
  - rewrite lookup_insert_ne by done. naive_solver.
Qed.

Lemma at_fun s i key key' pc pc' : at_pc s i key pc → at_pc s i key' pc' → key = key' ∧ pc = pc'.
Proof. unfold at_pc. intros E1 E2. rewrite E1 in E2. by simplify_eq. Qed.

Lemma ran_mono s s' key r : f_runs s ⊆ f_runs s' → ran s key r → ran s' key r.
Proof. intros Hs [j Hj]. exists j. by apply Hs. Qed.

Lemma slot_ok_mono s s' key sl : f_runs s ⊆ f_runs s' → slot_ok s key sl → slot_ok s' key sl.
Proof.
  intros Hs [H1 H2]. split.
  - intros v Hv. eapply ran_mono; eauto.
  - intros e He. destruct (H2 e He). eauto using ran_mono.
Qed.

Lemma outcome_ok_mono s s' key i r : f_runs s ⊆ f_runs s' → outcome_ok s key i r → outcome_ok s' key i r.
Proof. intros Hs [H1 H2]. split; [by eapply ran_mono|]. eauto. Qed.

Lemma leads_pends pc n : leads pc = Some n → pends pc = Some n.
Proof. by destruct pc. Qed.
Lemma leads_uses pc n : leads pc = Some n → uses pc = Some n.
Proof. by destruct pc. Qed.
Lemma leads_owns pc n : leads pc = Some n → owns pc = Some n.
Proof. by destruct pc. Qed.
Lemma owns_uses pc n : owns pc = Some n → uses pc = Some n.
Proof. by destruct pc as [| | | | |? []| |]. Qed.
Lemma pends_owns pc n : pends pc = Some n → owns pc = Some n.
Proof. by destruct pc. Qed.
Lemma filled_owns pc n : filled_by pc = Some n → owns pc = Some n.
Proof. by destruct pc as [| |? []|? []| |? []| |]. Qed.

(** Steps that move one thread and perhaps end a resolver call of its own. *)
Lemma finv_pc s i key pc0 pc runs :
  finv s →
  (f_threads s !! i = None ∨ at_pc s i key pc0 ∧ pends pc0 = None) →
  f_runs s ⊆ runs → owns pc = None → flying pc = None →
  (∀ n, uses pc = Some n → f_inflight s !! key = Some n ∨ at_pc s i key pc0 ∧ uses pc0 = Some n) →
  (∀ n, pc = Wait n → f_inflight s !! key = Some n) →
  (∀ r, pc = Done r → outcome_ok (mkFState (f_inflight s) (f_slots s) (f_threads s) runs) key i r) →
  finv (set_pc i key pc (mkFState (f_inflight s) (f_slots s) (f_threads s) runs)).
Proof.
  intros [L I O K S F Y W D] Hold Hr Ho Hf Hu Hw Hd.
  assert (∀ j key' pc', at_pc s j key' pc' → pends pc' ≠ None → j ≠ i) as Hne.
  { intros j key' pc' Hj Hp ->. destruct Hold as [Hn|[H0 Hp0]]; [unfold at_pc in Hj; congruence|].
    destruct (at_fun _ _ _ _ _ _ Hj H0) as [_ ->]. done. }
  assert (leads pc = None) as Hl by (destruct pc; done). assert (filled_by pc = None) as Hfl by (by destruct pc as [| |? []|? []| |? []| |]).
  assert (∀ n, uses pc = Some n → ∃ j pc', at_pc s j key pc' ∧ uses pc' = Some n) as Huse.
  { intros n Hn. destruct (Hu n Hn) as [Hi|[H0 Hn0]]; [|eauto]. destruct (I _ _ Hi) as (j & pc' & Hj & Hlj). eauto using leads_uses. }
  split.
  - intros j key' pc' n [(-> & -> & ->)|[_ Hj]]%at_set Hn; [congruence|]. by eapply L.
  - intros key' n Hin. destruct (I _ _ Hin) as (j & pc' & Hj & Hlj). exists j, pc'. split; [|done].
    apply at_set. right. split; [|done]. eapply Hne; [done|]. by rewrite (leads_pends _ _ Hlj).
  - intros j j' k k' p p' n [(-> & -> & ->)|[_ Hj]]%at_set [(-> & -> & ->)|[_ Hj']]%at_set Hn Hn'; try congruence. by eapply O.
  - intros j j' k k' p p' n [(-> & -> & ->)|[_ Hj]]%at_set [(-> & -> & ->)|[_ Hj']]%at_set Hn Hn'; try congruence.
    + destruct (Huse _ Hn) as (j2 & p2 & H2 & Hn2). by eapply K.
    + destruct (Huse _ Hn') as (j2 & p2 & H2 & Hn2). by eapply K.
    + by eapply K.
  - intros j k p n [(-> & -> & ->)|[_ Hj]]%at_set Hn.
    + destruct (Huse _ Hn) as (j2 & p2 & H2 & Hn2). destruct (S _ _ _ _ H2 Hn2) as (sl & E & Hs). exists sl.
      split; [done|]. by eapply slot_ok_mono.
    + destruct (S _ _ _ _ Hj Hn) as (sl & E & Hs). exists sl. split; [done|]. by eapply slot_ok_mono.
  - intros j k p n sl [(-> & -> & ->)|[_ Hj]]%at_set Hn E; [congruence|]. by eapply F.
  - intros j k p e [(-> & -> & ->)|[_ Hj]]%at_set He; [congruence|]. destruct (Y _ _ _ _ Hj He). auto.
  - intros j k n sl [(-> & -> & E)|[_ Hj]]%at_set Hn.
    + right. destruct (I key n) as (j2 & p2 & H2 & Hn2); [by apply Hw|]. exists j2, p2.
      split; [|by apply leads_pends]. apply at_set. right. split; [|done]. eapply Hne; [done|]. by rewrite (leads_pends _ _ Hn2).
    + destruct (W _ _ _ _ Hj Hn) as [?|(j2 & p2 & H2 & Hn2)]; [by left|]. right. exists j2, p2. split; [|done].
      apply at_set. right. split; [|done]. eapply Hne; [done|]. by rewrite Hn2.
  - intros j k r [(-> & -> & E)|[_ Hj]]%at_set; [by apply Hd|]. eapply outcome_ok_mono; [|by apply D]. done.
Qed.

(** A caller becomes the leader with a fresh slot. *)
Lemma finv_lead s i key n :
  finv s → at_pc s i key Enter → f_inflight s !! key = None → f_slots s !! n = None →
  finv (set_pc i key (Lead n) (set_slot n (mkSlot false None None)
    (mkFState (<[key := n]> (f_inflight s)) (f_slots s) (f_threads s) (f_runs s)))).
Proof.
  intros [L I O K S F Y W D] H0 Hk Hfresh.
  assert (∀ j k p m, at_pc s j k p → uses p = Some m → m ≠ n) as Hn.
  { intros j k p m Hj Hu ->. destruct (S _ _ _ _ Hj Hu) as (sl & E & _). congruence. }
  assert (∀ m sl, m ≠ n → <[n := mkSlot false None None]> (f_slots s) !! m = Some sl → f_slots s !! m = Some sl) as Hsl.
  { intros m sl Hm. by rewrite lookup_insert_ne. }
  split.
  - intros j k p m [(-> & -> & ->)|[Hj0 Hj]]%at_set Hm; simpl in *.
    + simplify_eq. apply lookup_insert_eq.
    + rewrite lookup_insert_ne; [by eapply L|]. intros ->. pose proof (L _ _ _ _ Hj Hm). congruence.
  - intros k m Hm. simpl in Hm. apply lookup_insert_Some in Hm as [[<- <-]|[Hne Hm]].
    + exists i, (Lead n). split; [apply at_set; by left|done].
    + destruct (I _ _ Hm) as (j & p & Hj & Hlj). exists j, p. split; [|done]. apply at_set. right. split; [|done].
      intros ->. destruct (at_fun _ _ _ _ _ _ Hj H0) as [_ ->]. done.
  - intros j j' k k' p p' m [(-> & -> & ->)|[_ Hj]]%at_set [(-> & -> & ->)|[_ Hj']]%at_set Hm Hm'; simpl in *; simplify_eq; try done.
    + by destruct (Hn _ _ _ _ Hj' (owns_uses _ _ Hm')).
    + by destruct (Hn _ _ _ _ Hj (owns_uses _ _ Hm)).
    + by eapply O.
  - intros j j' k k' p p' m [(-> & -> & ->)|[_ Hj]]%at_set [(-> & -> & ->)|[_ Hj']]%at_set Hm Hm'; simpl in *; simplify_eq; try done.
    + by destruct (Hn _ _ _ _ Hj' Hm').
    + by destruct (Hn _ _ _ _ Hj Hm).
    + by eapply K.
  - intros j k p m [(-> & -> & ->)|[_ Hj]]%at_set Hm; simpl in *.
    + simplify_eq. exists (mkSlot false None None). rewrite lookup_insert_eq. by repeat split.
    + rewrite lookup_insert_ne by (symmetry; by eapply Hn). by eapply S.
  - intros j k p m sl [(-> & -> & ->)|[_ Hj]]%at_set Hm E; simpl in *; [done|].
    eapply F; [done..|]. apply Hsl; [|done]. eapply Hn; [done|]. by apply owns_uses, filled_owns.
  - intros j k p e [(-> & -> & ->)|[_ Hj]]%at_set He; simpl in *; [done|]. by eapply Y.
  - intros j k m sl [(-> & -> & E)|[_ Hj]]%at_set Hm; simpl in *; [done|].
    destruct (W _ _ _ sl Hj) as [?|(j2 & p2 & H2 & Hn2)]; [apply Hsl; [by eapply Hn|done]|by left|].
    right. exists j2, p2. split; [|done]. apply at_set. right. split; [|done]. intros ->.
    destruct (at_fun _ _ _ _ _ _ H2 H0) as [_ ->]. done.
  - intros j k r [(-> & -> & E)|[_ Hj]]%at_set; [done|]. by apply D.
Qed.

(** The owner of a slot moves on, writing the slot; the slot's registration
    stays, or goes with a pop. *)
Lemma finv_owner s i key pc0 pc n sl0 sl infl runs :
  finv s → at_pc s i key pc0 → pends pc0 = Some n → f_slots s !! n = Some sl0 →
  f_runs s ⊆ runs →
  (infl = f_inflight s ∧ leads pc0 = leads pc ∨ infl = delete key (f_inflight s) ∧ leads pc0 = Some n ∧ leads pc = None) →
  (owns pc = Some n ∨ owns pc = None) → (uses pc = Some n ∨ uses pc = None) → (∀ m, pc ≠ Wait m) →
  slot_ok (mkFState infl (f_slots s) (f_threads s) runs) key sl →
  (filled_by pc = Some n → sl_result sl ≠ None ∨ sl_exc sl ≠ None) →
  (∀ e, flying pc = Some e → is_exception e = false ∧ (key, i, Err e) ∈ runs) →
  (pends pc = Some n ∨ sl_event sl = true) →
  (∀ r, pc = Done r → outcome_ok (mkFState infl (f_slots s) (f_threads s) runs) key i r) →
  finv (set_pc i key pc (mkFState infl (<[n := sl]> (f_slots s)) (f_threads s) runs)).
Proof.
  intros [L I O K S F Y W D] H0 Hp0 Hsl0 Hr Hinfl Hown Huses Hnw Hslot Hfull Hfly Hpend Hdone.
  pose proof (pends_owns _ _ Hp0) as Ho0. pose proof (owns_uses _ _ Ho0) as Hu0.
  assert (∀ j k p, j ≠ i → at_pc s j k p → owns p ≠ Some n) as Hother.
  { intros j k p Hne Hj Ho. destruct (O j i k key p pc0 n Hj H0 Ho Ho0). done. }
  assert (∀ k m, infl !! k = Some m → f_inflight s !! k = Some m) as Hsub.
  { intros k m. destruct Hinfl as [[-> _]|[-> _]]; [done|]. intros [_ ?]%lookup_delete_Some. done. }
  split.
  - intros j k p m [(-> & -> & ->)|[Hne Hj]]%at_set Hm; simpl.
    + destruct Hinfl as [[-> E]|(-> & _ & E)]; [|congruence]. eapply L; [exact H0|congruence].
    + destruct Hinfl as [[-> _]|(-> & E & _)]; [by eapply L|]. apply lookup_delete_Some. split; [|by eapply L].
      intros <-. pose proof (L _ _ _ _ Hj Hm) as E1. pose proof (L _ _ _ _ H0 E) as E2. rewrite E1 in E2. simplify_eq.
      by destruct (Hother _ _ _ Hne Hj (leads_owns _ _ Hm)).
  - intros k m Hm. simpl in Hm. destruct (I _ _ (Hsub _ _ Hm)) as (j & p & Hj & Hlj). destruct (decide (j = i)) as [->|Hne].
    + destruct (at_fun _ _ _ _ _ _ Hj H0) as [-> ->]. destruct Hinfl as [[-> E]|(-> & _ & _)].
      * exists i, pc. split; [apply at_set; by left|congruence].
      * by rewrite lookup_delete_eq in Hm.
    + exists j, p. split; [|done]. apply at_set. by right.
  - intros j j' k k' p p' m [(-> & -> & ->)|[Hne Hj]]%at_set [(-> & -> & ->)|[Hne' Hj']]%at_set Hm Hm'; try done.
    + destruct Hown as [E|E]; rewrite E in Hm; simplify_eq. by destruct (Hother _ _ _ Hne' Hj').
    + destruct Hown as [E|E]; rewrite E in Hm'; simplify_eq. by destruct (Hother _ _ _ Hne Hj).
    + by eapply O.
  - intros j j' k k' p p' m [(-> & -> & ->)|[Hne Hj]]%at_set [(-> & -> & ->)|[Hne' Hj']]%at_set Hm Hm'; try done.
    + destruct Huses as [E|E]; rewrite E in Hm; simplify_eq. eapply K; [exact H0|exact Hj'|exact Hu0|exact Hm'].
    + destruct Huses as [E|E]; rewrite E in Hm'; simplify_eq. eapply K; [exact Hj|exact H0|exact Hm|exact Hu0].
    + by eapply K.
  - intros j k p m [(-> & -> & ->)|[Hne Hj]]%at_set Hm; simpl.
    + destruct Huses as [E|E]; rewrite E in Hm; simplify_eq. exists sl. by rewrite lookup_insert_eq.
    + destruct (decide (m = n)) as [->|Hmn].
      * assert (k = key) as -> by (eapply K; [exact Hj|exact H0|exact Hm|exact Hu0]). exists sl. by rewrite lookup_insert_eq.
      * rewrite lookup_insert_ne by done. destruct (S _ _ _ _ Hj Hm) as (sl' & E & Hs). exists sl'. split; [done|].
        by eapply slot_ok_mono.
  - intros j k p m sl' [(-> & -> & ->)|[Hne Hj]]%at_set Hm E; simpl in E.
    + destruct Hown as [E1|E1]; pose proof (filled_owns _ _ Hm) as E2; rewrite E1 in E2; simplify_eq.
      rewrite lookup_insert_eq in E. simplify_eq. auto.
    + rewrite lookup_insert_ne in E; [by eapply F|]. intros <-. by destruct (Hother _ _ _ Hne Hj (filled_owns _ _ Hm)).
  - intros j k p e [(-> & -> & ->)|[Hne Hj]]%at_set He; [auto|]. destruct (Y _ _ _ _ Hj He). auto.
  - intros j k m sl' [(-> & -> & E)|[Hne Hj]]%at_set Hm; [by destruct (Hnw m)|]. simpl in Hm.
    destruct (decide (m = n)) as [->|Hmn].
    + rewrite lookup_insert_eq in Hm. simplify_eq. destruct Hpend as [Hpend|?]; [|by left].
      right. exists i, pc. assert (k = key) as -> by (eapply K; [exact Hj|exact H0|done|exact Hu0]).
      split; [apply at_set; by left|done].
    + rewrite lookup_insert_ne in Hm by done. destruct (W _ _ _ _ Hj Hm) as [?|(j2 & p2 & H2 & Hn2)]; [by left|].
      right. exists j2, p2. split; [|done]. apply at_set. right. split; [|done]. intros ->.
      destruct (at_fun _ _ _ _ _ _ H2 H0) as [-> ->]. congruence.
  - intros j k r [(-> & -> & E)|[Hne Hj]]%at_set; [by apply Hdone|]. eapply outcome_ok_mono; [|by apply D]. done.
Qed.

Lemma leader_slot_ok s key i r :
  slot_ok (record_run key i r s) key (leader_slot r).1
  ∧ ((leader_slot r).2 = None → sl_result (leader_slot r).1 ≠ None ∨ sl_exc (leader_slot r).1 ≠ None)
  ∧ (∀ e, (leader_slot r).2 = Some e → is_exception e = false ∧ r = Err e).
Proof.
  assert (ran (record_run key i r s) key r) as Hr by (exists i; left).
  destruct r as [v|e]; simpl; [|destruct (is_exception e) eqn:E]; simpl;
    (split; [split; intros; simplify_eq/=; auto|]); (split; [intros; simplify_eq/=; auto|]); intros; simplify_eq/=; auto.
Qed.

Lemma finv_step s s' : finv s → fstep s s' → finv s'.
Proof.
  intros Hi Hstep. pose proof Hi as [_ _ _ _ S F Y _ _]. destruct Hstep.
  - destruct s as [a b c d]. apply (finv_pc _ i key Enter Enter d Hi); auto; naive_solver.
  - by apply finv_lead.
  - destruct s as [a b c d]. apply (finv_pc _ i key Enter (Wait n) d Hi); auto; naive_solver.
  - destruct (S _ _ _ n H eq_refl) as (sl0 & E0 & _). destruct (leader_slot_ok s key i r) as (H1 & H2 & H3).
    apply (finv_owner s i key (Lead n) (Pop n (leader_slot r).2) n sl0); auto; [set_solver|..|done].
    + simpl. destruct (leader_slot r).2; naive_solver.
    + intros e He. destruct (H3 e He) as [? ->]. split; [done|left].
  - destruct (S _ _ _ n H eq_refl) as (sl0 & E0 & H0). rewrite <- (insert_id _ _ _ E0).
    apply (finv_owner s i key (Pop n fly) (Wake n fly) n sl0); auto; [..|done].
    + destruct fly; [done|]. intros _. by eapply (F i key (Pop n None)).
    + intros e He. by apply (Y i key (Pop n fly)).
  - destruct (S _ _ _ n H eq_refl) as (sl0 & E0 & H1). rewrite H0 in E0. simplify_eq.
    apply (finv_owner s i key (Wake n fly) _ n sl0); auto; destruct fly as [e|]; simpl; auto; try done.
    + intros _. by eapply (F i key (Wake n None)).
    + intros r [= <-]. destruct (Y i key (Wake n (Some e)) e H eq_refl) as [Hx Hin]. split; [by exists i|]. by intros ? [= <-] _.
  - destruct s as [a b c d]. apply (finv_pc _ i key (Wait n) (Read n false) d Hi); auto; naive_solver.
  - destruct s as [a b c d]. apply (finv_pc _ i key (Wait n) Own d Hi); auto; naive_solver.
  - destruct (S _ _ _ n H eq_refl) as (sl0 & E0 & H1 & H2). rewrite H0 in E0. simplify_eq. destruct s as [a b c d].
    apply (finv_pc _ i key (Read n lead) _ d Hi); auto; destruct (sl_exc sl0) as [e|], (sl_result sl0) as [v|]; try done;
      intros ? [= <-]; try (destruct (H2 _ eq_refl)); split; auto; intros; simplify_eq; congruence.
  - destruct s as [a b c d]. apply (finv_pc _ i key Own (Done r) ((key, i, r) :: d) Hi); auto; [set_solver|naive_solver..|].
    intros ? [= <-]. split; [exists i; left|]. intros. left.
Qed.

Lemma finv_reach s : freach s → finv s.
Proof.
  induction 1; [|by eapply finv_step]. split; intros *; unfold at_pc, fstart; simpl; rewrite ?lookup_empty; done.
Qed.

(** C15: among any number of threads and interleavings, at most one
    thread per key is inside the leader's resolver call; every caller returns
    (or raises) the outcome of a resolver call made for its own key; a
    control-flow exception such as a shutdown signal reaches only the thread
    whose own call raised it; and a leader that got through never resolves twice. *)
Theorem single_flight_coalesces s :
  freach s →
  (∀ i j key n m, at_pc s i key (Lead n) → at_pc s j key (Lead m) → i = j)
  ∧ (∀ i key r, at_pc s i key (Done r) → outcome_ok s key i r)
  ∧ (∀ i key n sl, at_pc s i key (Read n true) → f_slots s !! n = Some sl → sl_result sl ≠ None ∨ sl_exc sl ≠ None).
Proof.
  intros [L _ O _ _ F _ _ D]%finv_reach. split; [|split].
  - intros i j key n m Hi Hj. pose proof (L _ _ _ _ Hi eq_refl) as E1. pose proof (L _ _ _ _ Hj eq_refl) as E2.
    rewrite E1 in E2. simplify_eq. by eapply (O i j key key (Lead m) (Lead m)).
  - intros i key r. apply D.
  - intros i key n sl Hi. by apply (F i key (Read n true)).
Qed.

(** No follower is forgotten: the event a waiting thread waits for is
    set already, or the leader that will set it is still on its way; and every
    thread that has not returned can take a step. *)
Theorem single_flight_progress s :
  freach s →
  (∀ i key n, at_pc s i key (Wait n) → ∃ sl, f_slots s !! n = Some sl
     ∧ (sl_event sl = true ∨ ∃ j pc, at_pc s j key pc ∧ pends pc = Some n))
  ∧ (∀ i key pc, at_pc s i key pc → (∀ r, pc ≠ Done r) → ∃ pc' s', fstep s s' ∧ at_pc s' i key pc' ∧ pc' ≠ pc).
Proof.
  intros [_ _ _ _ S _ _ W _]%finv_reach. split.
  - intros i key n Hi. destruct (S _ _ _ n Hi eq_refl) as (sl & E & _). exists sl. split; [done|]. by eapply W.
  - intros i key pc Hi Hd.
    assert (∀ pc' t, fstep s (set_pc i key pc' t) → pc' ≠ pc →
      ∃ pc' s', fstep s s' ∧ at_pc s' i key pc' ∧ pc' ≠ pc) as Hgo.
    { intros pc' t Hs Hne. exists pc', (set_pc i key pc' t). split; [done|]. split; [apply at_set; by left|done]. }
    destruct pc as [|n|n fly|n fly|n|n lead| |r].
    + destruct (f_inflight s !! key) as [n|] eqn:E.
      * eapply Hgo; [by eapply f_follow|done].
      * eapply Hgo; [eapply (f_lead _ _ _ (fresh (dom (f_slots s)))); [done|done|]|done].
        apply not_elem_of_dom, is_fresh.
    + eapply Hgo; [by eapply (f_resolved _ _ _ _ (Err (simple_exn OtherException "" "")))|done].
    + eapply Hgo; [by eapply f_pop|done].
    + destruct (S _ _ _ n Hi eq_refl) as (sl & E & _). eapply Hgo; [by eapply f_wake|by destruct fly].
    + eapply Hgo; [by eapply f_timeout|done].
    + destruct (S _ _ _ n Hi eq_refl) as (sl & E & _). eapply Hgo; [by eapply f_read|].
      by destruct (sl_exc sl), (sl_result sl).
    + eapply Hgo; [by eapply (f_own _ _ _ (Err (simple_exn OtherException "" "")))|done].
    + by destruct (Hd r).
Qed.

End flight.

(** * Throttling of flag-absent DB resolves

    Models [_LocalBucket] and [FillCap] of src/tenants/resolver/throttle.py: the
    cluster-wide fixed-window counter, and the per-process token bucket it falls
    back to when Redis does not answer.  Python floats are modelled as rationals. *)

(** [_LocalBucket.allow(rate)] at [now], on [(_tokens, _ts)]. *)
Definition bucket_allow (rate now : Q) (b : Q * Q) : bool * (Q * Q) :=
  let cap := Qmax 1 rate in
  let tokens := Qmin cap (b.1 + (now - b.2) * rate)%Q in
  if Qle_bool 1 tokens then (true, ((tokens - 1)%Q, now)) else (false, (tokens, now)).

Section throttle.
Context `{Backend} `{RawRedis} (cfg : Cfg).

Definition local_allow (rate : Z) : RM bool :=
  now <~ mono_now ;;
  λ s, let '(ok, b) := bucket_allow (inject_Z rate) now (rs_tokens s, rs_ts s) in
       (Ok ok, set_bucket b.1 b.2 s).

Definition probe_key (second : Z) : string := "treg:probe:" +:+ py_int second.

Definition reply_num (p : Reply) : Z := match p with PNum n => n | _ => 0 end.

(** [fill_cap.allow()]. *)
Definition allow : RM bool :=
  rcatch is_redis_error
    (second <~ time_now ;;
     n <~ raw (INCR (probe_key second)) ;;
     raw (EXPIRE (probe_key second) 2 true) ~;;
     rret (reply_num n <=? FILLCAP_PER_SEC cfg)%Z)
    (λ _, local_allow (FILLCAP_LOCAL_PER_SEC cfg)).

(** ** The local bucket *)

(** The answers to calls at the given instants, and the bucket after them. *)
Fixpoint bucket_run (rate : Q) (times : list Q) (b : Q * Q) : list bool * (Q * Q) :=
  match times with
  | [] => ([], b)
  | t :: times' => let '(ok, b1) := bucket_allow rate t b in
                   let '(oks, b2) := bucket_run rate times' b1 in (ok :: oks, b2)
  end.

Fixpoint ascending (t0 : Q) (times : list Q) : Prop :=
  match times with [] => True | t :: times' => (t0 <= t)%Q ∧ ascending t times' end.

Definition granted (oks : list bool) : nat := length (filter (λ b, b = true) oks).

Definition bucket_inv (rate : Q) (b : Q * Q) : Prop := (0 <= b.1)%Q ∧ (b.1 <= Qmax 1 rate)%Q.

Lemma bucket_step rate t b :
  (0 <= rate)%Q → (b.2 <= t)%Q → bucket_inv rate b →
  let '(ok, b') := bucket_allow rate t b in
  bucket_inv rate b' ∧ b'.2 = t ∧ (b'.1 + (if ok then 1 else 0) <= b.1 + (t - b.2) * rate)%Q.
Proof.
  intros Hr Ht [Hb1 Hb2]. unfold bucket_allow, bucket_inv. set (cap := Qmax 1 rate) in *.
  assert (1 <= cap)%Q as Hc by apply Q.le_max_l.
  assert (0 <= (t - b.2) * rate)%Q as Hg by (apply Qmult_le_0_compat; lra).
  set (v := Qmin cap (b.1 + (t - b.2) * rate)).
  assert (v <= b.1 + (t - b.2) * rate)%Q as Hv1 by apply Q.le_min_r.
  assert (v <= cap)%Q as Hv2 by apply Q.le_min_l.
  assert (0 <= v)%Q as Hv3 by (apply Q.min_glb; lra).
  destruct (Qle_bool 1 v) eqn:E; simpl.
  - apply Qle_bool_iff in E. repeat split; lra.
  - repeat split; lra.
Qed.

Lemma granted_cons ok oks :
  (inject_Z (Z.of_nat (granted (ok :: oks))) == (if ok then 1 else 0) + inject_Z (Z.of_nat (granted oks)))%Q.
Proof.
  unfold granted. destruct ok.
  - rewrite filter_cons_True by done. cbn [length]. rewrite Nat2Z.inj_succ, <- Z.add_1_l, inject_Z_plus. reflexivity.
  - rewrite filter_cons_False by done. lra.
Qed.

Lemma bucket_run_spent rate times b :
  (0 <= rate)%Q → ascending b.2 times → bucket_inv rate b →
  bucket_inv rate (bucket_run rate times b).2
  ∧ ((bucket_run rate times b).2.1 + inject_Z (Z.of_nat (granted (bucket_run rate times b).1))
     <= b.1 + ((bucket_run rate times b).2.2 - b.2) * rate)%Q.
Proof.
  intros Hr. revert b. induction times as [|t times IH]; intros b Ha Hi; simpl in *.
  - split; [done|]. change (inject_Z (Z.of_nat (granted []))) with 0%Q. nra.
  - destruct Ha as [Ht Ha]. pose proof (bucket_step rate t b Hr Ht Hi) as Hs.
    destruct (bucket_allow rate t b) as [ok b1]. destruct Hs as (Hi1 & Ht1 & Hs).
    destruct (IH b1) as [Hi2 Hs2]; [by rewrite Ht1|done|].
    destruct (bucket_run rate times b1) as [oks b2]. simpl in *. split; [done|].
    rewrite granted_cons, Ht1 in *. lra.
Qed.

(** C40: while Redis is down one process lets through at most the bucket's
    capacity plus the rate times the elapsed time, over any sequence of calls,
    and the bucket never leaves [0, capacity]. *)
Theorem local_bucket_bound rate times b :
  (0 <= rate)%Q → ascending b.2 times → bucket_inv rate b →
  let '(oks, b') := bucket_run rate times b in
  bucket_inv rate b' ∧ (inject_Z (Z.of_nat (granted oks)) <= Qmax 1 rate + (b'.2 - b.2) * rate)%Q.
Proof.
  intros Hr Ha Hi. destruct (bucket_run_spent rate times b Hr Ha Hi) as [Hi' Hs].
  destruct (bucket_run rate times b) as [oks b']. simpl in *. split; [done|].
  destruct Hi as [_ Hc], Hi' as [Hpos _]. lra.
Qed.

(** ** The fixed window *)

Lemma allow_calm t l s :
  rs_script s = [] → rs_time s = t :: l → int_or_absent (keys s !! probe_key t) →
  ∃ s', allow s = (Ok (counter (keys s !! probe_key t) + 1 <=? FILLCAP_PER_SEC cfg)%Z, s')
    ∧ keys s' = <[probe_key t := RInt (counter (keys s !! probe_key t) + 1)]> (keys s)
    ∧ rs_time s' = l ∧ rs_script s' = [] ∧ cache s' = cache s.
Proof.
  intros Hs Ht Hi. unfold allow, rcatch, time_now.
  unfold rbind at 1. rewrite Ht. set (s0 := set_time l s).
  destruct (pipeline_one (INCR (probe_key t)) s0 (PNum (counter (keys s !! probe_key t) + 1))
    (<[probe_key t := RInt (counter (keys s !! probe_key t) + 1)]> (keys s))) as (s1 & E1 & K1 & C1 & F1).
  { done. }
  { unfold int_or_absent in Hi. simpl. change (keys s0) with (keys s). by destruct (keys s !! probe_key t) as [[]|]. }
  rewrite (rbind_ok _ _ _ _ _ E1).
  destruct (pipeline_one (EXPIRE (probe_key t) 2 true) s1 _ _ (proj1 F1) eq_refl) as (s2 & E2 & K2 & C2 & F2).
  rewrite (rbind_ok _ _ _ _ _ E2). exists s2. split; [done|]. rewrite K2, K1. split; [done|].
  assert (rs_time s1 = l) as T1.
  { revert E1. unfold raw, pipeline, rtrip, rbind, next_revent. change (rs_script s0) with (rs_script s). rewrite Hs.
    cbn. destruct (r_exec _ _) as [[] ?]; cbn; intros [= _ <-]; done. }
  split; [|split; [apply F2|by rewrite C2, C1]]. revert E2. unfold raw, pipeline, rtrip, rbind, next_revent. rewrite (proj1 F1).
  cbn. destruct (r_exec _ _) as [[] ?]; cbn; intros [= _ <-]; done.
Qed.

(** [n] calls in a row. *)
Fixpoint allow_many (n : nat) : RM (list bool) :=
  match n with
  | O => rret []
  | S n' => ok <~ allow ;; oks <~ allow_many n' ;; rret (ok :: oks)
  end.

Lemma allow_many_calm n t l s :
  rs_script s = [] → rs_time s = replicate n t ++ l → int_or_absent (keys s !! probe_key t) →
  ∃ oks s', allow_many n s = (Ok oks, s')
    ∧ Z.of_nat (granted oks) = (Z.max 0 (Z.min (Z.of_nat n) (FILLCAP_PER_SEC cfg - counter (keys s !! probe_key t))))%Z.
Proof.
  revert s. induction n as [|n IH]; intros s Hs Ht Hi.
  - exists [], s. split; [done|]. unfold granted. simpl. lia.
  - cbn [allow_many]. destruct (allow_calm t (replicate n t ++ l) s Hs Ht Hi) as (s1 & E1 & K1 & T1 & Hs1 & _).
    rewrite (rbind_ok _ _ _ _ _ E1). destruct (IH s1 Hs1 T1) as (oks & s2 & E2 & G); [by rewrite K1, lookup_insert_eq|].
    rewrite (rbind_ok _ _ _ _ _ E2). eexists _, s2. split; [reflexivity|].
    rewrite K1, lookup_insert_eq in G. simpl counter in G. unfold granted in *.
    set (v := counter (keys s !! probe_key t)) in *. destruct (v + 1 <=? FILLCAP_PER_SEC cfg)%Z eqn:E; bool_props.
    + rewrite filter_cons_True by done. cbn [length]. lia.
    + rewrite filter_cons_False by done. lia.
Qed.

(** Within one calendar second the whole cluster lets through exactly
    what is left of the budget: of [n] calls, as many as the limit minus what
    was already counted in that second allows. *)
Theorem fill_cap_window n t l s :
  rs_script s = [] → rs_time s = replicate n t ++ l → int_or_absent (keys s !! probe_key t) →
  ∃ oks s', allow_many n s = (Ok oks, s')
    ∧ Z.of_nat (granted oks) = (Z.max 0 (Z.min (Z.of_nat n) (FILLCAP_PER_SEC cfg - counter (keys s !! probe_key t))))%Z.
Proof. apply allow_many_calm. Qed.

End throttle.
