(* ===== verification/ResolveService.v ===== *)
(** * The resolve service

    Models src/tenants/resolver/service.py: [resolve], [_via_cache] and [_fill],
    the one entry point of the middleware, over the cache, the gate, the
    throttle and the coalescing of concurrent resolves, and the rate-limited log. *)
From Stdlib Require Import QArith.
From S2P Require Import Prelude PyStr Models PyExc World ResolveCache Registry Throttle.
Open Scope tenants_scope.

(** ** The rate-limited log *)

Definition _LOG_EVERY : Q := 30.

Record ThrottledLog := mkThrottledLog { tl_last : Q; tl_suppressed : nat }.

(** [__call__] at [now]: the number of suppressed lines the emitted line reports,
    or nothing. *)
Definition throttled_log (now : Q) (l : ThrottledLog) : option nat * ThrottledLog :=
  if negb (Qle_bool _LOG_EVERY (now - tl_last l))
  then (None, mkThrottledLog (tl_last l) (S (tl_suppressed l)))
  else (Some (tl_suppressed l), mkThrottledLog now 0).

Section service.
Context `{Backend} `{RawRedis} (cfg : Cfg).

(** The caller's closure: what the [n]-th lookup of the Domain table gives, and
    the class of its "not found". *)
Context (db : nat → res exn TenantSnapshot) (not_found : ExcClass).

Definition db_resolver : RM TenantSnapshot :=
  next_revent ~;; (λ s, (db (rs_db_calls s), inc_db s)).

Definition is_not_found (e : exn) : bool := bool_decide (eo_class (x_obj e) = not_found).
Definition not_found_exn (hostname : string) : exn := simple_exn not_found "DoesNotExist" hostname.
Definition is_deferred (e : exn) : bool := bool_decide (eo_class (x_obj e) = ResolveDeferred).
Definition deferred (hostname : string) : exn := simple_exn ResolveDeferred "ResolveDeferred" hostname.
Definition is_operational (e : exn) : bool := bool_decide (eo_class (x_obj e) = DjangoOperationalError).

(** [single_flight] seen by one thread. *)
Definition single_flight (resolver : RM TenantSnapshot) : RM TenantSnapshot :=
  role <~ next_role ;;
  match role with
  | Leader | ByItself => resolver
  | Shares (Ok v) => rret v
  | Shares (Err e) => rraise e
  end.

Definition _fill (hostname : string) : RM TenantSnapshot :=
  tenant <~ rcatch is_not_found db_resolver
              (λ e, cached (λ c, (tt, store_miss cfg hostname c)) ~;; rraise e) ;;
  cached (put cfg hostname (ASnap tenant)) ~;;
  rret tenant.

Definition lookup_snapshot (hostname : string) : RM Lookup :=
  r <~ cached (λ c, (get_snapshot hostname c, c)) ;;
  match r with Ok l => rret l | Err e => rraise e end.

(** The gate: returns when the host may be resolved. *)
Definition pass_gate (hostname : string) : RM unit :=
  if gate_enabled cfg then
    verdict <~ check hostname ;;
    match verdict with
    | MEMBER => rret tt
    | NONMEMBER => rraise (not_found_exn hostname)
    | UNKNOWN_HOST =>
        trigger_warm cfg ~;;
        ok <~ allow cfg ;;
        if ok : bool then rret tt else rraise (deferred hostname)
    end
  else rret tt.

Definition _via_cache (hostname : string) : RM TenantSnapshot :=
  snap <~ lookup_snapshot hostname ;;
  match snap with
  | LNeg => rraise (not_found_exn hostname)
  | LSnap s => rret s
  | LMiss | LHold =>                        (* [get_snapshot] never returns HOLD *)
      pass_gate hostname ~;;
      single_flight (_fill hostname)
  end.

Definition resolve (hostname : string) : RM TenantSnapshot :=
  if negb (enabled cfg) && negb (gate_enabled cfg) then db_resolver
  else
    rcatch (λ e, is_exception e && negb (is_not_found e) && negb (is_deferred e) && negb (is_operational e))
      (_via_cache hostname)
      (λ _, db_resolver).

End service.
