(* ===== verification/ResolveServiceFacts.v ===== *)
(** * Properties of the resolve service *)
From Stdlib Require Import QArith Lqa.
From S2P Require Import Prelude PyStr Models PyExc World ResolveCache ResolveCacheFacts Registry.
From S2P Require Import RegistryFacts Throttle ResolveService.
Open Scope tenants_scope.

Section facts.
Context `{Backend} `{RawRedis} (cfg : Cfg) (db : nat → res exn TenantSnapshot) (not_found : ExcClass).

(** ** Steps that never reach the database *)

Definition no_db {A} (m : RM A) : Prop :=
  ∀ s, rs_db_calls (m s).2 = rs_db_calls s ∧ rs_roles (m s).2 = rs_roles s.

Lemma no_db_ret {A} (a : A) : no_db (rret a).
Proof. done. Qed.
Lemma no_db_raise {A} (e : exn) : no_db (rraise e : RM A).
Proof. done. Qed.

Lemma no_db_bind {A B} (m : RM A) (k : A → RM B) : no_db m → (∀ a, no_db (k a)) → no_db (rbind m k).
Proof.
  intros Hm Hk s. unfold rbind. destruct (Hm s) as [E1 E2]. destruct (m s) as [[a|e] s1]; simpl in *; [|done].
  destruct (Hk a s1). split; congruence.
Qed.

Lemma no_db_catch {A} p (m : RM A) h : no_db m → (∀ e, no_db (h e)) → no_db (rcatch p m h).
Proof.
  intros Hm Hh s. unfold rcatch. destruct (Hm s) as [E1 E2]. destruct (m s) as [[a|e] s1]; simpl in *; [done|].
  destruct (p e); [|done]. destruct (Hh e s1). split; congruence.
Qed.

Lemma no_db_rtrip {A} (f : Shared → res exn A * Shared) : no_db (rtrip f).
Proof.
  intros s. unfold rtrip, rbind, next_revent. destruct (rs_script s) as [|ev l]; simpl.
  - by destruct (f _).
  - destruct (f _), (re_fault ev); [by destruct (re_applied ev)|done].
Qed.

Lemma no_db_cached {A} (f : C → A * C) : no_db (cached f).
Proof.
  intros s. unfold cached, rbind, next_revent. destruct (rs_script s); simpl; by destruct (f _).
Qed.

Lemma no_db_raw c : no_db (raw c).
Proof. apply no_db_bind; [apply no_db_rtrip|done]. Qed.

Create HintDb nodb.
#[local] Hint Resolve no_db_ret no_db_raise no_db_bind no_db_catch no_db_rtrip no_db_cached no_db_raw : nodb.

Lemma no_db_check h : no_db (check h).
Proof. unfold check, pipeline. auto with nodb. Qed.

Lemma no_db_trigger : no_db (trigger_warm cfg).
Proof.
  unfold trigger_warm, delay. destruct (negb _); [auto with nodb|]. apply no_db_catch; [|auto with nodb].
  apply no_db_bind; [auto with nodb|]. intros a. destruct (reply_true a); [|auto with nodb].
  apply no_db_bind; [auto with nodb|]. done.
Qed.

Lemma no_db_allow : no_db (allow cfg).
Proof.
  unfold allow. apply no_db_catch; [apply no_db_bind; [|auto with nodb]|].
  - intros s. unfold time_now. by destruct (rs_time s).
  - intros _. unfold local_allow. apply no_db_bind.
    + intros s. unfold mono_now. by destruct (rs_mono s).
    + intros a s. by destruct (bucket_allow _ _ _) as [? []].
Qed.

Lemma no_db_lookup h : no_db (lookup_snapshot h).
Proof. unfold lookup_snapshot. apply no_db_bind; [auto with nodb|]. intros [?|?]; auto with nodb. Qed.

#[local] Hint Resolve no_db_check no_db_trigger no_db_allow no_db_lookup : nodb.

Lemma no_db_gate h : no_db (pass_gate cfg not_found h).
Proof.
  unfold pass_gate. destruct (gate_enabled cfg); [|auto with nodb]. apply no_db_bind; [auto with nodb|].
  intros []; auto with nodb. apply no_db_bind; [auto with nodb|]. intros _.
  apply no_db_bind; [auto with nodb|]. intros []; auto with nodb.
Qed.

(** ** Where answers come from *)

(** The cache when the first read of [resolve] reaches it. *)
Definition seen_cache (s : RS) : C :=
  match rs_script s with [] => cache s | ev :: _ => sh_cache (re_env ev (rs_shared s)) end.

Definition from_db (s s' : RS) (r : res exn TenantSnapshot) : Prop :=
  ∃ n, rs_db_calls s ≤ n < rs_db_calls s' ∧ db n = r.

Lemma db_resolver_spec s :
  (db_resolver db s).1 = db (rs_db_calls s) ∧ rs_db_calls (db_resolver db s).2 = S (rs_db_calls s).
Proof. unfold db_resolver, rbind, next_revent. by destruct (rs_script s). Qed.

Lemma lookup_value h s :
  (lookup_snapshot h s).1 = get_snapshot h (seen_cache s).
Proof.
  unfold lookup_snapshot, cached, rbind, next_revent, seen_cache.
  destruct (rs_script s); simpl; by destruct (get_snapshot _ _).
Qed.

(** ** What a step may raise *)

(** Under a script whose faults satisfy [P], [m] raises only what satisfies [P],
    and uses up a part of the script. *)
Definition raises {A} (P : exn → Prop) (m : RM A) : Prop :=
  ∀ s, (∀ ev e, ev ∈ rs_script s → re_fault ev = Some e → P e) →
    (match (m s).1 with Err e => P e | Ok _ => True end)
    ∧ (∀ ev, ev ∈ rs_script (m s).2 → ev ∈ rs_script s).

Section raising.
Context (P : exn → Prop) (HP : ∀ msg, P (redis_error msg)).

Lemma raises_ret {A} (a : A) : raises P (rret a).
Proof. done. Qed.
Lemma raises_raise {A} e : P e → raises P (rraise e : RM A).
Proof. done. Qed.

Lemma raises_bind {A B} (m : RM A) (k : A → RM B) : raises P m → (∀ a, raises P (k a)) → raises P (rbind m k).
Proof.
  intros Hm Hk s Hs. unfold rbind. destruct (Hm s Hs) as [H1 H2]. destruct (m s) as [[a|e] s1]; simpl in *; [|done].
  destruct (Hk a s1) as [H3 H4]; [eauto|]. eauto.
Qed.

Lemma raises_catch {A} p (m : RM A) h : raises P m → (∀ e, raises P (h e)) → raises P (rcatch p m h).
Proof.
  intros Hm Hh s Hs. unfold rcatch. destruct (Hm s Hs) as [H1 H2]. destruct (m s) as [[a|e] s1]; simpl in *; [done|].
  destruct (p e); [|done]. destruct (Hh e s1) as [H3 H4]; [eauto|]. eauto.
Qed.

Lemma raises_rtrip {A} (f : Shared → res exn A * Shared) :
  (∀ h e, (f h).1 = Err e → P e) → raises P (rtrip f).
Proof.
  intros Hf s Hs. unfold rtrip, rbind, next_revent. destruct (rs_script s) as [|ev l] eqn:E; simpl.
  - specialize (Hf (rs_shared s)). destruct (f _) as [[a|e] h]; simpl in *; rewrite E; (split; [auto|done]).
  - specialize (Hf (re_env ev (rs_shared s))). destruct (f _) as [[a|e] h], (re_fault ev) as [x|] eqn:Ef; simpl in *;
      repeat split; try (destruct (re_applied ev)); simpl; intros; eauto; try (by right); eapply Hs; eauto; by left.
Qed.

Lemma raises_pipeline cs : raises P (pipeline cs).
Proof.
  apply raises_rtrip. intros h e. destruct (exec_all _ _) as [[l|] r]; simpl; [done|]. by intros [= <-].
Qed.

Lemma raises_raw c : raises P (raw c).
Proof. apply raises_bind; [apply raises_pipeline|done]. Qed.

End raising.

Create HintDb raising.
#[local] Hint Resolve raises_ret raises_raise raises_bind raises_catch raises_pipeline raises_raw : raising.

Lemma raises_gate (P : exn → Prop) h :
  (∀ msg, P (redis_error msg)) → P (not_found_exn not_found h) → P (deferred h) →
  raises P (pass_gate cfg not_found h).
Proof.
  intros H1 H2 H3. unfold pass_gate. destruct (gate_enabled cfg); [|auto with raising].
  apply raises_bind; [unfold check; auto with raising|]. intros []; auto with raising.
  apply raises_bind; [|intros _; apply raises_bind; [|intros []; auto with raising]].
  - unfold trigger_warm, delay. destruct (negb _); [auto with raising|]. apply raises_catch; [|auto with raising].
    apply raises_bind; [auto with raising|]. intros a. destruct (reply_true a); [|auto with raising].
    apply raises_bind; [by apply raises_rtrip|done].
  - unfold allow. apply raises_catch.
    + apply raises_bind; [|auto with raising]. intros s Hs. unfold time_now. by destruct (rs_time s).
    + intros _. unfold local_allow. apply raises_bind.
      * intros s Hs. unfold mono_now. by destruct (rs_mono s).
      * intros a s Hs. by destruct (bucket_allow _ _ _) as [? []].
Qed.

(** ** The fill *)

Lemma fill_spec h s :
  let '(r, s') := _fill cfg db not_found h s in
  rs_db_calls s' = S (rs_db_calls s) ∧ rs_roles s' = rs_roles s ∧ r = db (rs_db_calls s).
Proof.
  unfold _fill, rbind, rcatch. destruct (db_resolver_spec s) as [E1 E2].
  assert (rs_roles (db_resolver db s).2 = rs_roles s) as E3.
  { unfold db_resolver, rbind, next_revent. by destruct (rs_script s). }
  destruct (db_resolver db s) as [r s1]. simpl in *. subst r. destruct (db (rs_db_calls s)) as [t|e].
  - pose proof (no_db_cached (put cfg h (ASnap t)) s1) as [H1 H2].
    assert ((cached (put cfg h (ASnap t)) s1).1 = Ok (put cfg h (ASnap t) (seen_cache s1)).1) as H3.
    { unfold cached, rbind, next_revent, seen_cache. destruct (rs_script s1); simpl; by destruct (put _ _ _ _). }
    destruct (cached _ s1) as [[b|] s2]; [|done]. simpl in *. split; [congruence|]. split; [congruence|done].
  - destruct (is_not_found not_found e); [|done].
    pose proof (no_db_cached (λ c, (tt, store_miss cfg h c)) s1) as [H1 H2].
    assert ((cached (λ c, (tt, store_miss cfg h c)) s1).1 = Ok tt) as H3.
    { unfold cached, rbind, next_revent. by destruct (rs_script s1). }
    destruct (cached _ s1) as [[b|] s2]; [|done]. simpl in *. split; [congruence|]. split; [congruence|done].
Qed.

Lemma flight_spec h s :
  let '(r, s') := single_flight (_fill cfg db not_found h) s in
  (rs_db_calls s' = S (rs_db_calls s) ∧ r = db (rs_db_calls s))
  ∨ (rs_db_calls s' = rs_db_calls s ∧ Shares r ∈ rs_roles s).
Proof.
  unfold single_flight, next_role. unfold rbind at 1. destruct (rs_roles s) as [|x l] eqn:Er.
  - pose proof (fill_spec h s) as Hf. destruct (_fill _ _ _ h s) as [r s']. left. tauto.
  - assert (∀ s0, rs_db_calls s0 = rs_db_calls s →
      let '(r, s') := _fill cfg db not_found h s0 in
      rs_db_calls s' = S (rs_db_calls s) ∧ r = db (rs_db_calls s)) as Hf.
    { intros s0 E. pose proof (fill_spec h s0) as Hf. destruct (_fill _ _ _ h s0) as [r s']. rewrite <- E. tauto. }
    destruct x as [|[v|e]|]; simpl.
    + specialize (Hf (set_roles l s) eq_refl). destruct (_fill _ _ _ h _) as [r s']. by left.
    + right. split; [done|by left].
    + right. split; [done|by left].
    + specialize (Hf (set_roles l s) eq_refl). destruct (_fill _ _ _ h _) as [r s']. by left.
Qed.

(** ** Outcomes *)

(** A failure of a raw Redis command during the call. *)
Definition wire (s : RS) (e : exn) : Prop :=
  (∃ ev, ev ∈ rs_script s ∧ re_fault ev = Some e) ∨ ∃ msg, e = redis_error msg.

(** What the [except] clauses of [resolve] let through. *)
Definition surfaces (e : exn) : bool :=
  negb (is_exception e && negb (is_not_found not_found e) && negb (is_deferred e) && negb (is_operational e)).

Definition explained (h : string) (s s' : RS) (r : res exn TenantSnapshot) : Prop :=
  from_db s s' r
  ∨ Shares r ∈ rs_roles s
  ∨ (rs_db_calls s' = rs_db_calls s
     ∧ match r with
       | Ok x => get_snapshot h (seen_cache s) = Ok (LSnap x)
       | Err e =>
           e = not_found_exn not_found h ∧ (get_snapshot h (seen_cache s) = Ok LNeg ∨ gate_enabled cfg = true)
           ∨ e = deferred h ∧ gate_enabled cfg = true
           ∨ wire s e ∨ get_snapshot h (seen_cache s) = Err e
       end).

Lemma gate_spec h s :
  let '(r, s') := pass_gate cfg not_found h s in
  rs_db_calls s' = rs_db_calls s ∧ rs_roles s' = rs_roles s
  ∧ match r with
    | Ok _ => True
    | Err e => gate_enabled cfg = true ∧ (e = not_found_exn not_found h ∨ e = deferred h ∨ wire s e)
    end.
Proof.
  destruct (no_db_gate h s) as [H1 H2].
  destruct (raises_gate (λ e, e = not_found_exn not_found h ∨ e = deferred h ∨ wire s e) h) with (s := s) as [H3 _].
  { intros msg. right. right. right. by exists msg. } { by left. } { right. by left. }
  { intros ev e Hin He. right. right. left. by exists ev. }
  assert (gate_enabled cfg = false → (pass_gate cfg not_found h s).1 = Ok tt) as Hg.
  { unfold pass_gate. by intros ->. }
  destruct (pass_gate cfg not_found h s) as [[u|e] s']; simpl in *; [done|]. repeat split; try done.
  destruct (gate_enabled cfg); [done|]. by specialize (Hg eq_refl).
Qed.

Lemma wire_after {A} (m : RM A) s e :
  raises (λ _, True) m → wire (m s).2 e → wire s e.
Proof.
  intros Hm [(ev & Hin & He)|Hm']; [|by right]. left. exists ev. split; [|done]. by apply (Hm s).
Qed.

Lemma via_cache_explained h s :
  let '(r, s') := _via_cache cfg db not_found h s in
  explained h s s' r ∧ rs_db_calls s ≤ rs_db_calls s' ≤ S (rs_db_calls s).
Proof.
  unfold _via_cache. unfold rbind at 1. pose proof (lookup_value h s) as Hv. pose proof (no_db_lookup h s) as [L1 L2].
  assert (∀ e, wire (lookup_snapshot h s).2 e → wire s e) as Hw.
  { intros e. apply wire_after. unfold lookup_snapshot. apply raises_bind; [|by intros []].
    intros s0 Hs0. unfold cached, rbind, next_revent. destruct (rs_script s0) eqn:E; simpl; [by rewrite E|].
    split; [done|]. intros. by right. }
  destruct (lookup_snapshot h s) as [[l|e] s1]; simpl in *; [|split; [right; right; split; [done|]; auto|lia]].
  assert (let '(r, s') := (pass_gate cfg not_found h ~;; single_flight (_fill cfg db not_found h)) s1 in
          explained h s s' r ∧ rs_db_calls s ≤ rs_db_calls s' ≤ S (rs_db_calls s)) as Hmiss.
  { unfold rbind. pose proof (gate_spec h s1) as Hg. destruct (pass_gate cfg not_found h s1) as [[u|e] s2].
    - destruct Hg as (G1 & G2 & _). pose proof (flight_spec h s2) as Hf. destruct (single_flight _ s2) as [r s'].
      destruct Hf as [[F1 F2]|[F1 F2]]; (split; [|lia]).
      + left. exists (rs_db_calls s2). rewrite F2. split; [lia|done].
      + right. left. by rewrite <- L2, <- G2.
    - destruct Hg as (G1 & G2 & Hon & Hg). split; [|lia]. right. right. split; [lia|].
      destruct Hg as [->|[->|Hg]]; eauto 6. }
  destruct l as [| | |x]; [exact Hmiss| |exact Hmiss|].
  - split; [|simpl; lia]. right. right. split; [done|]. left. auto.
  - split; [|simpl; lia]. right. right. done.
Qed.

(** C10: the cache layer can only help. Whatever Redis, the cache
    content and concurrent processes do, [resolve] answers with a positive hit,
    the database's own answer (at most two lookups), or a concurrent caller's;
    an exception reaches the caller only if the database raised it, or it is a
    cached or gated "not found", a load-shed of the enabled gate (both without a
    lookup), or of a class the code deliberately lets through. *)
Theorem resolve_outcomes h s :
  let '(r, s') := resolve cfg db not_found h s in
  rs_db_calls s' ≤ rs_db_calls s + 2
  ∧ (from_db s s' r
     ∨ explained h s s' r ∧ match r with Ok _ => True | Err e => surfaces e = true end).
Proof.
  unfold resolve. destruct (negb (enabled cfg) && negb (gate_enabled cfg)).
  { destruct (db_resolver_spec s) as [E1 E2]. destruct (db_resolver db s) as [r s']. simpl in *. subst r.
    split; [lia|]. left. exists (rs_db_calls s). split; [lia|done]. }
  unfold rcatch. pose proof (via_cache_explained h s) as Hv. destruct (_via_cache cfg db not_found h s) as [[x|e] s1].
  { destruct Hv as [Hv Hn]. split; [lia|]. auto. }
  destruct Hv as [Hv Hn].
  destruct (is_exception e && negb (is_not_found not_found e) && negb (is_deferred e) && negb (is_operational e)) eqn:E.
  - destruct (db_resolver_spec s1) as [E1 E2]. destruct (db_resolver db s1) as [r s']. simpl in *. subst r.
    split; [lia|]. left. exists (rs_db_calls s1). split; [lia|done].
  - split; [lia|]. right. split; [done|]. unfold surfaces. by rewrite E.
Qed.

(** ** Undisturbed resolves *)

Lemma lookup_calm h s :
  rs_script s = [] →
  ∃ s', lookup_snapshot h s = (get_snapshot h (cache s), s') ∧ keys s' = keys s ∧ cache s' = cache s
    ∧ frame s s' ∧ rs_roles s' = rs_roles s.
Proof.
  intros Hs. unfold lookup_snapshot.
  destruct (cached_calm (λ c, (get_snapshot h c, c)) s Hs) as (s1 & E1 & K1 & C1 & F1).
  rewrite (rbind_ok _ _ _ _ _ E1). exists s1. simpl.
  assert (rs_roles s1 = rs_roles s) as Hr.
  { pose proof (no_db_cached (λ c, (get_snapshot h c, c)) s) as [_ Hr]. by rewrite E1 in Hr. }
  by destruct (get_snapshot h (cache s)).
Qed.

(** A cache hit or a cached miss needs nothing else. *)
Lemma resolve_cached h s x :
  rs_script s = [] → enabled cfg = true → get_snapshot h (cache s) = Ok x → x ≠ LMiss → x ≠ LHold →
  ∃ s', resolve cfg db not_found h s
        = (match x with LSnap t => Ok t | _ => Err (not_found_exn not_found h) end, s')
    ∧ rs_db_calls s' = rs_db_calls s.
Proof.
  intros Hs Hen Hg Hx1 Hx2. unfold resolve. rewrite Hen. simpl. unfold rcatch, _via_cache.
  destruct (lookup_calm h s Hs) as (s1 & E1 & _ & _ & F1 & _). rewrite Hg in E1. rewrite (rbind_ok _ _ _ _ _ E1).
  exists s1. split; [|apply F1]. destruct x; try done. simpl.
  assert (is_not_found not_found (not_found_exn not_found h) = true) as Hn by (by apply bool_decide_true).
  by rewrite Hn, andb_false_r.
Qed.

(** The gate is off, or knows the host. *)
Definition admitted (h : string) (s : RS) : Prop :=
  gate_enabled cfg = false ∨ ∃ hs, keys s !! HOSTS_KEY = Some (RSet hs) ∧ h ∈ hs.

Lemma check_calm h s :
  rs_script s = [] → set_or_absent (keys s !! HOSTS_KEY) →
  ∃ s', check h s = (Ok (verdict_of (keys s !! HOSTS_KEY) h), s') ∧ keys s' = keys s ∧ cache s' = cache s
    ∧ frame s s' ∧ rs_roles s' = rs_roles s ∧ rs_time s' = rs_time s.
Proof.
  intros Hs Hh. unfold check, rcatch.
  destruct (pipeline_two (EXISTS HOSTS_KEY) (SISMEMBER HOSTS_KEY h) s
    (PBool (bool_decide (is_Some (keys s !! HOSTS_KEY))))
    (PBool (match keys s !! HOSTS_KEY with Some (RSet hs) => bool_decide (h ∈ hs) | _ => false end))
    (keys s) (keys s) Hs) as (s1 & E1 & K1 & C1 & F1); [done| |].
  { simpl. by destruct (keys s !! HOSTS_KEY) as [[]|]. }
  rewrite (rbind_ok _ _ _ _ _ E1). exists s1.
  assert (rs_roles s1 = rs_roles s ∧ rs_time s1 = rs_time s) as [? ?].
  { revert E1. unfold pipeline, rtrip, rbind, next_revent. rewrite Hs. destruct (exec_all _ _) as [[] ?];
      intros [= _ <-]; done. }
  split; [|done]. unfold rret. simpl. by destruct (keys s !! HOSTS_KEY) as [[hs| |]|].
Qed.

Lemma gate_admits h s :
  rs_script s = [] → admitted h s →
  ∃ s', pass_gate cfg not_found h s = (Ok tt, s') ∧ keys s' = keys s ∧ cache s' = cache s ∧ frame s s'
    ∧ rs_roles s' = rs_roles s.
Proof.
  intros Hs [Hoff|(hs & Hk & Hin)]; unfold pass_gate.
  - rewrite Hoff. exists s. repeat split; done.
  - destruct (gate_enabled cfg); [|exists s; repeat split; done].
    destruct (check_calm h s Hs) as (s1 & E1 & K1 & C1 & F1 & R1 & _); [by rewrite Hk|].
    rewrite (rbind_ok _ _ _ _ _ E1), Hk. simpl. rewrite bool_decide_true by done. by exists s1.
Qed.

(** An admitted miss runs the fill. *)
Lemma resolve_miss h s :
  rs_script s = [] → enabled cfg = true → rs_roles s = [] → get_snapshot h (cache s) = Ok LMiss → admitted h s →
  ∃ s', _via_cache cfg db not_found h s = _fill cfg db not_found h s' ∧ cache s' = cache s ∧ frame s s'.
Proof.
  intros Hs Hen Hr Hg Ha. unfold _via_cache.
  destruct (lookup_calm h s Hs) as (s1 & E1 & K1 & C1 & F1 & R1). rewrite Hg in E1. rewrite (rbind_ok _ _ _ _ _ E1).
  destruct (gate_admits h s1) as (s2 & E2 & K2 & C2 & F2 & R2); [apply F1| |].
  { destruct Ha as [Ha|Ha]; [by left|right; by rewrite K1]. }
  rewrite (rbind_ok _ _ _ _ _ E2). exists s2. split; [|split; [by rewrite C2, C1|by etrans]].
  unfold single_flight, rbind, next_role. by rewrite R2, R1, Hr.
Qed.

Lemma db_resolver_calm s :
  rs_script s = [] → db_resolver db s = (db (rs_db_calls s), inc_db s).
Proof. intros Hs. unfold db_resolver, rbind, next_revent. by rewrite Hs. Qed.

Lemma positive_on_enabled : positive_off cfg = false → enabled cfg = true.
Proof. unfold positive_off, enabled. by destruct (warm_enabled cfg), (truthy _). Qed.

(** A cold resolve of an admitted host returns the database's
    answer with one lookup, and the next one returns the very same snapshot with
    none. *)
Theorem resolve_hit_equals_miss h x s :
  rs_script s = [] → rs_roles s = [] → c_alive (cache s) = true → positive_off cfg = false →
  ttl_ok (_ttl_for cfg (ASnap x)) = true →
  c_get (cache s) (_snap_key h) = None → c_get (cache s) (_schema_snap_key (ts_schema_name x)) = None →
  admitted h s → ts_domain_url x = None → db (rs_db_calls s) = Ok x →
  ∃ s1 s2, resolve cfg db not_found h s = (Ok x, s1) ∧ rs_db_calls s1 = S (rs_db_calls s)
    ∧ resolve cfg db not_found h s1 = (Ok x, s2) ∧ rs_db_calls s2 = rs_db_calls s1.
Proof.
  intros Hs Hr Ha Hoff Ht Hh Hsc Hadm Hu Hdb. pose proof (positive_on_enabled Hoff) as Hen.
  destruct (resolve_miss h s Hs Hen Hr) as (s0 & E0 & C0 & F0); [unfold get_snapshot; by rewrite Hh|done|].
  assert (db_resolver db s0 = (Ok x, inc_db s0)) as Edb.
  { rewrite db_resolver_calm by apply F0. by rewrite (proj2 (proj2 (proj2 (proj2 F0)))), Hdb. }
  destruct (cached_calm (put cfg h (ASnap x)) (inc_db s0)) as (s1 & E1 & _ & C1 & F1); [apply F0|].
  assert (_fill cfg db not_found h s0 = (Ok x, s1)) as Ef.
  { unfold _fill. rewrite (rbind_ok _ _ _ x (inc_db s0)) by (unfold rcatch; by rewrite Edb).
    by rewrite (rbind_ok _ _ _ _ _ E1). }
  change (cache (inc_db s0)) with (cache s0) in C1. rewrite C0 in C1.
  pose proof (put_fresh cfg h (ASnap x) (cache s) Ha Hoff Ht Hh Hsc) as Hp.
  destruct (put cfg h (ASnap x) (cache s)) as [b c']. destruct Hp as (_ & Hg & _). simpl in C1.
  destruct (resolve_cached h s1 (LSnap x)) as (s2 & E2 & N2); [apply F1|done| |done|done|].
  { rewrite C1, Hg. destruct x as [? ? ? ? u]. simpl in Hu. by subst u. }
  exists s1, s2. split.
  - unfold resolve. rewrite Hen. simpl. unfold rcatch. by rewrite E0, Ef.
  - split; [|done]. rewrite (proj2 (proj2 (proj2 (proj2 F1)))). simpl. by rewrite (proj2 (proj2 (proj2 (proj2 F0)))).
Qed.

(** An unknown host costs one lookup: the answer is remembered and the
    next resolve raises "not found" without the database. *)
Theorem resolve_miss_remembered h e s :
  rs_script s = [] → rs_roles s = [] → c_alive (cache s) = true → (0 < MISS_CACHE_SECONDS cfg)%Z →
  c_get (cache s) (_snap_key h) = None → admitted h s →
  db (rs_db_calls s) = Err e → is_not_found not_found e = true →
  ∃ s1 s2, resolve cfg db not_found h s = (Err e, s1) ∧ rs_db_calls s1 = S (rs_db_calls s)
    ∧ resolve cfg db not_found h s1 = (Err (not_found_exn not_found h), s2) ∧ rs_db_calls s2 = rs_db_calls s1.
Proof.
  intros Hs Hr Ha Hm Hh Hadm Hdb Hnf.
  assert (truthy (MISS_CACHE_SECONDS cfg) = true) as Htr by (unfold truthy; destruct (Z.eqb_spec (MISS_CACHE_SECONDS cfg) 0); [lia|done]).
  assert (enabled cfg = true) as Hen by (unfold enabled; by rewrite Htr, !orb_true_r).
  destruct (resolve_miss h s Hs Hen Hr) as (s0 & E0 & C0 & F0); [unfold get_snapshot; by rewrite Hh|done|].
  assert (db_resolver db s0 = (Err e, inc_db s0)) as Edb.
  { rewrite db_resolver_calm by apply F0. by rewrite (proj2 (proj2 (proj2 (proj2 F0)))), Hdb. }
  destruct (cached_calm (λ c, (tt, store_miss cfg h c)) (inc_db s0)) as (s1 & E1 & _ & C1 & F1); [apply F0|].
  assert (_fill cfg db not_found h s0 = (Err e, s1)) as Ef.
  { unfold _fill, rcatch. unfold rbind at 1. rewrite Edb, Hnf. by rewrite (rbind_ok _ _ _ _ _ E1). }
  change (cache (inc_db s0)) with (cache s0) in C1. rewrite C0 in C1. simpl in C1.
  destruct (resolve_cached h s1 LNeg) as (s2 & E2 & N2); [apply F1|done| |done|done|].
  { unfold get_snapshot. rewrite C1. unfold store_miss. rewrite Htr, get_set_nx by (done || by apply Z.ltb_lt).
    rewrite decide_True, Hh by done. done. }
  exists s1, s2. split.
  - unfold resolve. rewrite Hen. simpl. unfold rcatch. by rewrite E0, Ef, Hnf, andb_false_r.
  - split; [|done]. rewrite (proj2 (proj2 (proj2 (proj2 F1)))). simpl. by rewrite (proj2 (proj2 (proj2 (proj2 F0)))).
Qed.

(** ** The gate's refusals *)

Lemma raw_local c s :
  rs_script s = [] → rs_time (raw c s).2 = rs_time s.
Proof.
  intros Hs. unfold raw, pipeline, rtrip, rbind, next_revent. rewrite Hs. cbn.
  destruct (r_exec _ _) as [[] ?]; done.
Qed.

Lemma trigger_calm s :
  rs_script s = [] → warm_enabled cfg = true →
  ∃ s', trigger_warm cfg s = (Ok tt, s') ∧ cache s' = cache s ∧ rs_script s' = [] ∧ rs_time s' = rs_time s
    ∧ rs_db_calls s' = rs_db_calls s ∧ (∀ k, k ≠ WARM_PENDING_KEY → keys s' !! k = keys s !! k)
    ∧ rs_delayed s' = (if bool_decide (is_Some (keys s !! WARM_PENDING_KEY)) then rs_delayed s else S (rs_delayed s)).
Proof.
  intros Hs Hw. unfold trigger_warm. rewrite Hw. cbn [negb]. unfold rcatch.
  pose proof (raw_local (SETNX WARM_PENDING_KEY "1" (WARM_PENDING_SECONDS cfg)) s Hs) as Ht.
  destruct (keys s !! WARM_PENDING_KEY) as [v|] eqn:E.
  - destruct (pipeline_one (SETNX WARM_PENDING_KEY "1" (WARM_PENDING_SECONDS cfg)) s (PBool false) (keys s) Hs)
      as (s1 & E1 & K1 & C1 & F1 & _ & _ & D1 & B1); [simpl; by rewrite E|].
    rewrite (rbind_ok _ _ _ _ _ E1). cbn [reply_true]. rewrite E1 in Ht. exists s1.
    rewrite bool_decide_true by done. by rewrite K1.
  - destruct (pipeline_one (SETNX WARM_PENDING_KEY "1" (WARM_PENDING_SECONDS cfg)) s (PBool true)
      (<[WARM_PENDING_KEY := RStr "1"]> (keys s)) Hs) as (s1 & E1 & K1 & C1 & F1 & _ & _ & D1 & B1); [simpl; by rewrite E|].
    rewrite (rbind_ok _ _ _ _ _ E1). cbn [reply_true]. rewrite E1 in Ht. rewrite bool_decide_false by (by intros []).
    unfold delay, rmodify, rtrip, rbind, next_revent. rewrite F1. cbn. eexists. split; [reflexivity|].
    split; [exact C1|]. repeat split; try done; simpl; [|by rewrite D1].
    intros k Hk. change (keys s1 !! k = keys s !! k). by rewrite K1, lookup_insert_ne.
Qed.

(** With the gate on and no cached answer, a host the registry does not
    know is refused as "not found" and, when the registry is absent and this
    second's budget is spent, the request is shed as [ResolveDeferred], never as
    "not found"; neither touches the database nor writes any cache entry. *)
Theorem gate_refuses h s :
  rs_script s = [] → gate_enabled cfg = true → get_snapshot h (cache s) = Ok LMiss →
  (∀ hs, keys s !! HOSTS_KEY = Some (RSet hs) → h ∉ hs →
     ∃ s', resolve cfg db not_found h s = (Err (not_found_exn not_found h), s')
       ∧ rs_db_calls s' = rs_db_calls s ∧ cache s' = cache s)
  ∧ (∀ t l, keys s !! HOSTS_KEY = None → rs_time s = t :: l → int_or_absent (keys s !! probe_key t) →
     (FILLCAP_PER_SEC cfg ≤ counter (keys s !! probe_key t))%Z →
     ∃ s', resolve cfg db not_found h s = (Err (deferred h), s')
       ∧ rs_db_calls s' = rs_db_calls s ∧ cache s' = cache s).
Proof.
  intros Hs Hgate Hg.
  assert (warm_enabled cfg = true) as Hw by (unfold gate_enabled in Hgate; by bool_props).
  assert (enabled cfg = true) as Hen by (unfold enabled; by rewrite Hw).
  destruct (lookup_calm h s Hs) as (s1 & E1 & K1 & C1 & F1 & R1). rewrite Hg in E1.
  assert (rs_time s1 = rs_time s) as T1.
  { revert E1. unfold lookup_snapshot, cached, rbind, next_revent. rewrite Hs. simpl.
    unfold cache in Hg. rewrite Hg. by intros [= <-]. }
  assert (∀ e s', pass_gate cfg not_found h s1 = (Err e, s') → surfaces e = true →
    resolve cfg db not_found h s = (Err e, s')) as Hrun.
  { intros e s' Ep Hsf. unfold resolve. rewrite Hen. simpl. unfold rcatch, _via_cache.
    rewrite (rbind_ok _ _ _ _ _ E1). unfold rbind. rewrite Ep. unfold surfaces in Hsf. apply negb_true_iff in Hsf. by rewrite Hsf. }
  split.
  - intros hs Hk Hn. destruct (check_calm h s1) as (s2 & E2 & K2 & C2 & F2 & _); [apply F1|by rewrite K1, Hk|].
    rewrite K1, Hk in E2. simpl in E2. rewrite bool_decide_false in E2 by done.
    exists s2. split; [|split; [by rewrite (proj2 (proj2 (proj2 (proj2 F2)))); apply F1|congruence]].
    apply Hrun; [unfold pass_gate; rewrite Hgate; by rewrite (rbind_ok _ _ _ _ _ E2)|].
    unfold surfaces. assert (is_not_found not_found (not_found_exn not_found h) = true) as -> by (by apply bool_decide_true).
    by rewrite andb_false_r.
  - intros t l Hk Ht Hi Hfull.
    destruct (check_calm h s1) as (s2 & E2 & K2 & C2 & F2 & _ & T2); [apply F1|by rewrite K1, Hk|].
    rewrite K1, Hk in E2. simpl in E2.
    destruct (trigger_calm s2) as (s3 & E3 & C3 & Hs3 & T3 & B3 & K3 & _); [apply F2|done|].
    assert (keys s3 !! probe_key t = keys s !! probe_key t) as Hp by (rewrite K3 by done; by rewrite K2, K1).
    destruct (allow_calm cfg t l s3) as (s4 & E4 & _ & _ & _ & C4); [done|congruence|by rewrite Hp|].
    rewrite Hp in E4. replace (counter (keys s !! probe_key t) + 1 <=? FILLCAP_PER_SEC cfg)%Z with false in E4
      by (symmetry; apply Z.leb_gt; lia).
    exists s4. split; [apply Hrun|].
    + unfold pass_gate. rewrite Hgate, (rbind_ok _ _ _ _ _ E2), (rbind_ok _ _ _ _ _ E3). by rewrite (rbind_ok _ _ _ _ _ E4).
    + unfold surfaces. assert (is_deferred (deferred h) = true) as -> by (by apply bool_decide_true). by rewrite !andb_false_r.
    + pose proof (no_db_allow s3) as [Ha _]. rewrite E4 in Ha. simpl in Ha. split.
      * rewrite Ha, B3, (proj2 (proj2 (proj2 (proj2 F2)))). apply F1.
      * congruence.
Qed.

End facts.

(** ** The rate-limited log *)

(** Calls at the given instants: the lines emitted, with the number of
    suppressed lines each reports. *)
Fixpoint log_run (times : list Q) (l : ThrottledLog) : list (Q * nat) * ThrottledLog :=
  match times with
  | [] => ([], l)
  | t :: times' =>
      let '(out, l1) := throttled_log t l in
      let '(lines, l2) := log_run times' l1 in
      (match out with Some n => (t, n) :: lines | None => lines end, l2)
  end.

(** Each line comes at least [_LOG_EVERY] after the one before it. *)
Fixpoint spaced (t0 : Q) (lines : list (Q * nat)) : Prop :=
  match lines with [] => True | (t, _) :: lines' => (_LOG_EVERY <= t - t0)%Q ∧ spaced t lines' end.

(** The log never emits two lines within the interval and loses no call:
    every call is either a line or counted in a later line's "suppressed"
    number or in the pending count. *)
Theorem throttled_log_accounts times l :
  let '(lines, l') := log_run times l in
  spaced (tl_last l) lines
  ∧ (length lines + list_sum (snd <$> lines) + tl_suppressed l' = length times + tl_suppressed l)%nat.
Proof.
  revert l. induction times as [|t times IH]; intros l; simpl; [split; [done|lia]|]. unfold throttled_log.
  destruct (Qle_bool _LOG_EVERY (t - tl_last l)) eqn:E; simpl.
  - specialize (IH (mkThrottledLog t 0)). destruct (log_run times _) as [lines l']. simpl in *.
    apply Qle_bool_iff in E. destruct IH as [IH1 IH2]. split; [done|].
    change (list_fmap (Q * nat)%type nat snd lines) with lines.*2. lia.
  - specialize (IH (mkThrottledLog (tl_last l) (S (tl_suppressed l)))). destruct (log_run times _) as [lines l']. simpl in *.
    destruct IH as [IH1 IH2]. split; [done|]. lia.
Qed.
