(* ===== verification/Routing.v ===== *)
(** * Routing: the two axes, the router, the middlewares and the cache keys

    Models src/tenants/context.py ([current_db], [use_alias], [_switch],
    [tenant_context], [schema_context], [current_schema_name]),
    src/tenants/routers.py, src/tenants/middleware.py and the multi-tenant
    branch of src/commons/platform/cache_keys.py.  A request or a task runs in
    one context: the bound alias and the connections of its thread. *)
From S2P Require Import Prelude PyStr Models PyExc World ResolveCache.
Open Scope tenants_scope.

(** ** Connections *)

(** What a connection may hold as its tenant: a routing snapshot or upstream's
    [FakeTenant] of a bare schema. *)
Inductive TRef := RealTenant (s : TenantSnapshot) | FakeTenant (schema : string).
Definition tref_schema (t : TRef) : string :=
  match t with RealTenant s => ts_schema_name s | FakeTenant n => n end.

Definition PUBLIC : string := "public".

(** What the code relies on of the django-tenants connection wrapper. *)
Class TenantBackend := {
  TC : Type;
  tc_tenant : TC → option TRef;
  tc_schema : TC → string;
  tc_set_tenant : TRef → TC → TC;
  tc_set_schema : string → TC → TC;
  tc_set_public : TC → TC;
  tc_schema_set_tenant t c : tc_schema (tc_set_tenant t c) = tref_schema t;
  tc_tenant_set_tenant t c : tc_tenant (tc_set_tenant t c) = Some t;
  tc_schema_set_schema n c : tc_schema (tc_set_schema n c) = n;
  tc_schema_set_public c : tc_schema (tc_set_public c) = PUBLIC;
}.

(** [from tenants.models import Tenant]: the alias a registered schema lives on. *)
Definition SchemaIndex : Type := gmap string string.

Section routing.
Context `{TenantBackend}.

Record Ctx := mkCtx {
  cx_current : option string;         (** [current_db]; [None]: no routing context *)
  cx_conns : gmap string TC;          (** [connections] *)
}.

Definition bind_db (x : option string) (s : Ctx) : Ctx := mkCtx x (cx_conns s).
Definition on_conn (alias : string) (f : TC → TC) (s : Ctx) : Ctx := mkCtx (cx_current s) (alter f alias (cx_conns s)).

(** A [with] block's body. *)
Definition Body (A : Type) : Type := Ctx → res exn A * Ctx.

Definition no_connection (alias : string) : exn :=
  simple_exn OtherException "ConnectionDoesNotExist" ("The connection '" +:+ alias +:+ "' doesn't exist.").

(** ** context.py *)

Definition active_alias (s : Ctx) : string :=
  match cx_current s with
  | Some a => if String.eqb a "" then "default" else a
  | None => "default"
  end.
Definition bound_alias (s : Ctx) : option string := cx_current s.

Definition current_schema_name (s : Ctx) : res exn string :=
  match bound_alias s with
  | None => Ok PUBLIC
  | Some alias =>
      match cx_conns s !! alias with
      | None => Err (no_connection alias)
      | Some c => Ok (if String.eqb (tc_schema c) "" then PUBLIC else tc_schema c)
      end
  end.

Definition use_alias {A} (alias : string) (body : Body A) : Body A := λ s,
  let '(r, s1) := body (bind_db (Some alias) s) in (r, bind_db (cx_current s) s1).

Definition _switch {A} (database : string) (apply_to : TC → res exn TC) (body : Body A) : Body A := λ s,
  match cx_conns s !! database with
  | None => (Err (no_connection database), s)
  | Some c =>
      let prev_tenant := tc_tenant c in
      let s1 := bind_db (Some database) s in
      let '(r, s2) :=
        match apply_to c with
        | Err e => (Err e, s1)
        | Ok c' => body (on_conn database (λ _, c') s1)
        end in
      let s3 := on_conn database (match prev_tenant with
                                  | None => tc_set_public
                                  | Some t => tc_set_tenant t
                                  end) s2 in
      (r, bind_db (cx_current s) s3)
  end.

(** [database or ...]. *)
Definition given (database : option string) : option string :=
  match database with Some d => if String.eqb d "" then None else Some d | None => None end.

Definition tenant_context {A} (tenant : TenantSnapshot) (database : option string) (body : Body A) : Body A :=
  _switch (default (hs_alias (ts_shard tenant)) (given database)) (λ c, Ok (tc_set_tenant (RealTenant tenant) c)) body.

Definition _resolve_database (index : SchemaIndex) (schema_name : string) (database : option string) : res exn string :=
  match given database with
  | Some d => Ok d
  | None =>
      if String.eqb schema_name PUBLIC then Ok "default"
      else match index !! schema_name with
           | Some alias => Ok alias
           | None => Err (simple_exn DoesNotExist "DoesNotExist"
                       ("schema_context(" +:+ py_repr schema_name +:+ "): no Tenant with this schema_name. "
                        +:+ "Pass database=<alias> explicitly for non-registered schemas (DBA/restore flows)."))
           end
  end.

Definition schema_context {A} (index : SchemaIndex) (schema_name : string) (database : option string) (body : Body A) :
    Body A := λ s,
  match _resolve_database index schema_name database with
  | Err e => (Err e, s)
  | Ok d => _switch d (λ c, Ok (tc_set_schema schema_name c)) body s
  end.

(** ** routers.py *)

Record AppConfig := mkAppConfig { ac_name : string; ac_label : string; ac_class : string }.

Record ModelMeta := mkModelMeta { mm_app_label : string; mm_label : string; mm_label_lower : string }.

Record RouterCfg := mkRouterCfg {
  SHARED_APPS : list string;
  TENANT_APPS : list string;
  app_configs : list AppConfig;
  TENANT_STRICT_ROUTE_APPS : list string;
  PUBLIC_MODEL_GUARD : string;
  PUBLIC_MODEL_ALLOWLIST : list string;
  tenant_types : option (gmap string (list string));   (** [Some] when multi-type *)
}.

(** Upstream's [TenantSyncRouter.app_in_list] and [tenant.get_tenant_type()]. *)
Context (app_in_list : string → list string → bool) (tenant_type : option TRef → string).
Context (rc : RouterCfg).

(** [by_entry]: later configs overwrite earlier ones. *)
Definition by_entry : gmap string string :=
  foldl (λ m c, <[ac_class c := ac_label c]> (<[ac_label c := ac_label c]> (<[ac_name c := ac_label c]> m)))
    ∅ (app_configs rc).

Definition improperly (msg : string) : exn := simple_exn OtherException "ImproperlyConfigured" msg.

Fixpoint resolve_entries (entries : list string) : res exn (list string) :=
  match entries with
  | [] => Ok []
  | e :: entries' =>
      match by_entry !! e with
      | None => Err (improperly ("TENANT_STRICT_ROUTE_APPS entry " +:+ py_repr e +:+ " names no installed app."))
      | Some l => ls <-? resolve_entries entries' ;; Ok (l :: ls)
      end
  end.

Definition strict_route_labels : res exn (list string) := resolve_entries (TENANT_STRICT_ROUTE_APPS rc).

Definition public_denied (msg : string) : exn := simple_exn OtherException "PublicSchemaModelDenied" msg.

Definition _guard_public (m : ModelMeta) (alias : string) (s : Ctx) : res exn unit :=
  if String.eqb (PUBLIC_MODEL_GUARD rc) "off" then Ok tt
  else match cx_conns s !! alias with
       | None => Ok tt
       | Some c =>
           if negb (String.eqb (tc_schema c) PUBLIC) then Ok tt
           else
             labels <-? strict_route_labels ;;
             if negb (mem (mm_app_label m) labels) then Ok tt
             else if mem (mm_label_lower m) (PUBLIC_MODEL_ALLOWLIST rc) then Ok tt
             else if String.eqb (PUBLIC_MODEL_GUARD rc) "warn" then Ok tt
             else Err (public_denied (mm_label m +:+ ": tenant-model query on the PUBLIC schema (alias "
                         +:+ py_repr alias +:+ ")."))
       end.

Definition shared_only (label : string) : bool :=
  app_in_list label (SHARED_APPS rc) && negb (app_in_list label (TENANT_APPS rc)).

Definition no_context (m : ModelMeta) : exn :=
  simple_exn OtherException "RuntimeError" (mm_label m +:+ ": tenant-model query with NO routing context").

Definition db_for_read (m : ModelMeta) (s : Ctx) : res exn string :=
  let label := mm_app_label m in
  if shared_only label then Ok "default"
  else
    let alias := bound_alias s in
    let target := match alias with Some a => if String.eqb a "" then "default" else a | None => "default" end in
    _ <-? _guard_public m target s ;;
    match alias with
    | None =>
        labels <-? strict_route_labels ;;
        if mem label labels then Err (no_context m) else Ok "default"
    | Some a => Ok a
    end.

Definition db_for_write (m : ModelMeta) (s : Ctx) : res exn string := db_for_read m s.

(** [model_name] is [None] for RunPython/RunSQL. *)
Definition allow_migrate (db app_label : string) (model_name : option string) (s : Ctx) : res exn bool :=
  match cx_conns s !! db with
  | None => Err (no_connection db)
  | Some c =>
      let public := String.eqb (tc_schema c) PUBLIC in
      data_on_public <-?
        (if bool_decide (model_name = None) && public
         then labels <-? strict_route_labels ;; Ok (mem app_label labels) else Ok false) ;;
      if data_on_public : bool then Ok false
      else
        installed <-?
          match tenant_types rc with
          | Some types =>
              let t := if public then PUBLIC else tenant_type (tc_tenant c) in
              match types !! t with
              | Some apps => Ok apps
              | None => Err (simple_exn OtherException "KeyError" t)
              end
          | None => Ok (if public then SHARED_APPS rc else TENANT_APPS rc)
          end ;;
        if negb (app_in_list app_label installed) then Ok false
        else if public then Ok (String.eqb db "default")
        else Ok (negb (String.eqb db "default"))
  end.

(** ** cache_keys.py *)

Definition colon : Ascii.ascii := Ascii.ascii_of_N 58.
Definition TENANT_NAMESPACE : string := "tenant".

Definition tenant_token (s : Ctx) : res exn string :=
  schema <-? current_schema_name s ;;
  if String.eqb schema PUBLIC
  then Err (improperly "tenant_key() called outside a tenant context (schema is public).")
  else Ok schema.

Definition make_key (key key_prefix : string) (version : Z) (s : Ctx) : res exn string :=
  schema <-? current_schema_name s ;;
  Ok (TENANT_NAMESPACE +:+ ":" +:+ schema +:+ ":" +:+ key_prefix +:+ ":" +:+ py_int version +:+ ":" +:+ key).

(** [key.split(":", 4)[4]]. *)
Definition reverse_key (key : string) : res exn string :=
  match py_splitn 4 colon key !! 4 with
  | Some k => Ok k
  | None => Err (simple_exn OtherException "IndexError" "list index out of range")
  end.

Definition tenant_key (parts : list string) (s : Ctx) : res exn string :=
  token <-? tenant_token s ;; Ok (py_join ":" (TENANT_NAMESPACE :: token :: parts)).

(** ** middleware.py *)

Record Response := mkResponse {
  rp_status : Z;
  rp_code : string;
  rp_retry_after : option Z;
}.

Definition HEALTH_PATHS : list string := ["/api/health/"].

(** The answer to a status that may not be served; [None] lets the request through. *)
Definition status_gate (path : string) (tenant : option TenantSnapshot) : option Response :=
  match tenant with
  | None => None
  | Some t =>
      if String.eqb (ts_schema_name t) PUBLIC then None
      else
        let st := ts_status t in
        if String.eqb st (status_value DEACTIVATED) then Some (mkResponse 403 "tenant_deactivated" None)
        else if negb (String.eqb st (status_value ACTIVE)) then
          let is_admin := String.eqb path "/admin" || py_startswith path "/admin/" in
          let operator_owned := mem st [status_value FAILED; status_value MAINTENANCE] in
          if operator_owned && is_admin then None
          else if String.eqb st (status_value MAINTENANCE) then Some (mkResponse 503 "tenant_maintenance" (Some 600%Z))
          else Some (mkResponse 503 "tenant_not_ready" (Some 300%Z))
        else None
  end.

(** [except (OperationalError, InterfaceError, psycopg....)]. *)
Definition is_db_error (e : exn) : bool :=
  match eo_class (x_obj e) with
  | DjangoOperationalError | DjangoInterfaceError | PsycopgOperationalError | PsycopgInterfaceError => true
  | _ => false
  end.

(** [process_request]; [upstream] is what [super().process_request] does: it
    raises, answers, or sets [request.tenant]. *)
Definition process_request (path : string)
    (upstream : res exn (option Response * option TenantSnapshot)) : res exn (option Response) :=
  if mem path HEALTH_PATHS then Ok (Some (mkResponse 200 "" None))
  else match upstream with
       | Err e =>
           match eo_class (x_obj e) with
           | Http404 => Ok (Some (mkResponse 404 "tenant_not_found" None))
           | ResolveDeferred => Ok (Some (mkResponse 503 "tenant_resolve_deferred" (Some 5%Z)))
           | _ => if is_db_error e then Ok (Some (mkResponse 500 "database_error" None)) else Err e
           end
       | Ok (Some response, _) => Ok (Some response)
       | Ok (None, tenant) => Ok (status_gate path tenant)
       end.

(** [_resolve_tenant]: [row] is the outcome of the query on the Domain table. *)
Definition _resolve_tenant (row : res exn TenantObj) : res exn TenantSnapshot :=
  match row with
  | Ok t => Ok (capture (ARow t))
  | Err e =>
      match eo_class (x_obj e) with
      | PsycopgOperationalError | PsycopgInterfaceError =>
          Err (raise_from DjangoOperationalError "OperationalError" (eo_str (x_obj e)) e)
      | _ => Err e
      end
  end.

(** [TenantShardRoutingMiddleware.__call__]. *)
Definition routing_call {A} (tenant : option TenantSnapshot) (get_response : Body A) : Body A := λ s,
  match tenant with
  | None => use_alias "default" get_response s
  | Some t =>
      let alias := hs_alias (ts_shard t) in
      if String.eqb alias "default" then use_alias "default" get_response s
      else
        match cx_conns s !! alias with
        | None => (Err (no_connection alias), s)
        | Some _ =>
            let '(r, s1) := tenant_context t None get_response s in
            (r, on_conn alias tc_set_public s1)
        end
  end.

End routing.
