(* ===== verification/RoutingFacts.v ===== *)
(** * Properties of routing *)
From stdpp Require Import pretty.
From S2P Require Import Prelude PyStr Validators Models PyExc World ResolveCache Routing.
Open Scope tenants_scope.

Section facts.
Context `{TenantBackend}.

(** ** Contexts *)

(** The state a body leaves on other connections is what the block leaves. *)
Lemma switch_out {A} database apply_to (body : Body A) s c :
  cx_conns s !! database = Some c →
  let out := match apply_to c with
             | Err e => (Err e, bind_db (Some database) s)
             | Ok c' => body (on_conn database (λ _, c') (bind_db (Some database) s))
             end in
  _switch database apply_to body s =
    (out.1, mkCtx (cx_current s)
       (alter (match tc_tenant c with None => tc_set_public | Some t => tc_set_tenant t end)
          database (cx_conns out.2))).
Proof. intros Hc. cbn zeta. unfold _switch. rewrite Hc. destruct (apply_to c); [|done]. by destruct (body _). Qed.

(** The schema the target connection is left on. *)
Definition restored_schema (c : TC) : string :=
  match tc_tenant c with None => PUBLIC | Some t => tref_schema t end.

(** C20: whatever the body does to either axis and however it ends, and also
    when setting the schema fails, a context block puts the routing alias back,
    puts the target connection back on the tenant it had (or on public if it had
    none), adds nothing to the other connections, and lets the body's result
    through; a missing connection raises before anything is touched. *)
Theorem switch_restores {A} database apply_to (body : Body A) s :
  match cx_conns s !! database with
  | None => _switch database apply_to body s = (Err (no_connection database), s)
  | Some c =>
      let out := match apply_to c with
                 | Err e => (Err e, bind_db (Some database) s)
                 | Ok c' => body (on_conn database (λ _, c') (bind_db (Some database) s))
                 end in
      let '(r, s') := _switch database apply_to body s in
      r = out.1 ∧ cx_current s' = cx_current s
      ∧ (∀ a, a ≠ database → cx_conns s' !! a = cx_conns out.2 !! a)
      ∧ (∀ c', cx_conns s' !! database = Some c' →
           tc_schema c' = restored_schema c ∧ (tc_tenant c ≠ None → tc_tenant c' = tc_tenant c))
  end.
Proof.
  destruct (cx_conns s !! database) as [c|] eqn:Hc; [|unfold _switch; by rewrite Hc]. cbn zeta.
  rewrite (switch_out _ _ _ _ _ Hc). cbn zeta. split; [done|]. split; [done|]. cbn [cx_conns]. split.
  - intros a Ha. by rewrite lookup_alter_ne.
  - intros c'. rewrite lookup_alter_eq, fmap_Some. intros (c1 & _ & ->). unfold restored_schema.
    destruct (tc_tenant c); [by rewrite tc_schema_set_tenant, tc_tenant_set_tenant|by rewrite tc_schema_set_public].
Qed.

End facts.

(** ** The router *)

Section router.
Context `{TenantBackend} (app_in_list : string → list string → bool) (tenant_type : option TRef → string) (rc : RouterCfg).

Notation read m s := (db_for_read app_in_list rc m s).

(** Models of the strict apps that are not shared-only. *)
Definition strict_model (m : ModelMeta) : Prop :=
  shared_only app_in_list rc (mm_app_label m) = false
  ∧ ∃ labels, strict_route_labels rc = Ok labels ∧ mm_app_label m ∈ labels.

(** C19: in "raise" mode a query on a tenant model is routed only to the alias
    the context explicitly bound, and only if that connection is on a tenant's
    schema (or the model is allowed on public, or the alias has no connection, so
    that the query fails anyway): never to the default database by omission,
    never to the empty tables of public. *)
Theorem router_never_guesses m s alias :
  strict_model m → PUBLIC_MODEL_GUARD rc = "raise" → read m s = Ok alias →
  bound_alias s = Some alias
  ∧ (mm_label_lower m ∈ PUBLIC_MODEL_ALLOWLIST rc
     ∨ ∀ c, cx_conns s !! (if String.eqb alias "" then "default" else alias) = Some c → tc_schema c ≠ PUBLIC).
Proof.
  intros (Hsh & labels & Hl & Hin) Hg. unfold db_for_read. rewrite Hsh. rewrite res_bind_ok. intros ([] & Hp & Hr).
  destruct (bound_alias s) as [a|] eqn:Eb.
  - simplify_eq. split; [done|]. destruct (decide (mm_label_lower m ∈ PUBLIC_MODEL_ALLOWLIST rc)) as [?|Hna]; [by left|].
    right. intros c Hc Hpub. unfold _guard_public in Hp. rewrite Hg, Hc, Hpub, Hl in Hp. simpl in Hp.
    rewrite (proj2 (mem_spec _ _) Hin), (proj2 (mem_false _ _) Hna) in Hp. done.
  - rewrite Hl in Hr. simpl in Hr. by rewrite (proj2 (mem_spec _ _) Hin) in Hr.
Qed.

(** Inside a tenant context the router and the connection agree on the tenant. *)
Definition observe (m : ModelMeta) (alias : string) : Body (res exn string * option string) := λ s,
  (Ok (read m s, tc_schema <$> cx_conns s !! alias), s).

(** Inside [tenant_context t] every tenant-model query goes to the
    tenant's shard, on a connection whose schema is the tenant's. *)
Theorem tenant_context_routes t m s :
  shared_only app_in_list rc (mm_app_label m) = false → is_Some (cx_conns s !! hs_alias (ts_shard t)) →
  ts_schema_name t ≠ PUBLIC → hs_alias (ts_shard t) ≠ "" →
  (tenant_context t None (observe m (hs_alias (ts_shard t))) s).1
  = Ok (Ok (hs_alias (ts_shard t)), Some (ts_schema_name t)).
Proof.
  intros Hsh [c Hc] Hp Ha. unfold tenant_context. simpl. rewrite (switch_out _ _ _ _ _ Hc). simpl.
  rewrite lookup_alter_eq, Hc. simpl. rewrite tc_schema_set_tenant. simpl.
  unfold db_for_read. rewrite Hsh. simpl. destruct (String.eqb_spec (hs_alias (ts_shard t)) ""); [done|].
  unfold _guard_public. simpl. rewrite lookup_alter_eq, Hc. simpl. rewrite tc_schema_set_tenant. simpl.
  destruct (String.eqb_spec (ts_schema_name t) PUBLIC); [done|]. by destruct (String.eqb (PUBLIC_MODEL_GUARD rc) "off").
Qed.

(** The multi-database guard: whatever the app lists say, a
    migration is allowed only on [default] for the public schema and only off
    [default] for a tenant's, and a data migration of a strict app never on public. *)
Theorem allow_migrate_split db app model s c :
  cx_conns s !! db = Some c → allow_migrate app_in_list tenant_type rc db app model s = Ok true →
  (tc_schema c = PUBLIC ↔ db = "default")
  ∧ (model = None → tc_schema c = PUBLIC → ∀ labels, strict_route_labels rc = Ok labels → app ∉ labels).
Proof.
  intros Hc. unfold allow_migrate. rewrite Hc. rewrite res_bind_ok. intros (b & Hb & Hr).
  destruct b; [done|]. rewrite res_bind_ok in Hr. destruct Hr as (apps & Ha & Hr).
  destruct (app_in_list app apps); [|done]. simpl in Hr. split.
  - destruct (String.eqb_spec (tc_schema c) PUBLIC) as [E|E]; simplify_eq; bool_props; done.
  - intros -> E labels Hl Hin. rewrite E in Hb. simpl in Hb. rewrite Hl in Hb. simpl in Hb.
    by rewrite (proj2 (mem_spec _ _) Hin) in Hb.
Qed.

End router.

Section requests.
Context `{TenantBackend}.

(** ** The middlewares *)

(** After a request of a tenant on a shard, however the view
    ended, the shard's connection is on public and the routing alias is back to
    what it was; an alias without a connection raises with nothing entered. *)
Theorem routing_middleware_leaves_public {A} t (view : Body A) s :
  hs_alias (ts_shard t) ≠ "default" →
  match cx_conns s !! hs_alias (ts_shard t) with
  | None => routing_call (Some t) view s = (Err (no_connection (hs_alias (ts_shard t))), s)
  | Some _ =>
      let s' := (routing_call (Some t) view s).2 in
      cx_current s' = cx_current s
      ∧ ∀ c', cx_conns s' !! hs_alias (ts_shard t) = Some c' → tc_schema c' = PUBLIC
  end.
Proof.
  intros Ha. unfold routing_call. destruct (String.eqb_spec (hs_alias (ts_shard t)) "default"); [done|].
  destruct (cx_conns s !! hs_alias (ts_shard t)) as [c|] eqn:Hc; [|done]. cbn zeta.
  unfold tenant_context. simpl default. rewrite (switch_out _ _ _ _ _ Hc). cbn zeta. simpl. split; [done|].
  intros c'. rewrite lookup_alter_eq, fmap_Some. intros (c1 & _ & ->). apply tc_schema_set_public.
Qed.

(** Which requests of a business tenant get through: those of an
    ACTIVE tenant, and the admin of a FAILED or MAINTENANCE one; a DEACTIVATED
    tenant always gets 403, every other refusal is a retryable 503. *)
Theorem status_gate_exact path t st :
  ts_schema_name t ≠ PUBLIC → ts_status t = status_value st →
  let admin := path = "/admin" ∨ ∃ q, path = "/admin/" +:+ q in
  (status_gate path (Some t) = None ↔ st = ACTIVE ∨ (st = FAILED ∨ st = MAINTENANCE) ∧ admin)
  ∧ (∀ r, status_gate path (Some t) = Some r →
       (rp_status r = 403%Z ∧ st = DEACTIVATED) ∨ (rp_status r = 503%Z ∧ rp_retry_after r ≠ None ∧ st ≠ DEACTIVATED)).
Proof.
  intros Hp Hst admin.
  assert (String.eqb path "/admin" || py_startswith path "/admin/" = true ↔ admin) as Hadm.
  { unfold admin. by rewrite orb_true_iff, String.eqb_eq, py_startswith_spec. }
  unfold status_gate. destruct (String.eqb_spec (ts_schema_name t) PUBLIC); [done|]. rewrite Hst.
  destruct (String.eqb path "/admin" || py_startswith path "/admin/") eqn:E.
  - assert admin by (by apply Hadm). destruct st; simpl; split; naive_solver.
  - assert (¬ admin) by (intros ?%Hadm; congruence). destruct st; simpl; split; naive_solver.
Qed.

(** Resolution failures as the client sees them: an unknown host is 404,
    a shed request is a 503 to retry and never a 404, a database outage is 500,
    and any other exception propagates. *)
Theorem process_request_errors path e :
  path ∉ HEALTH_PATHS →
  process_request path (Err e) =
    match eo_class (x_obj e) with
    | Http404 => Ok (Some (mkResponse 404 "tenant_not_found" None))
    | ResolveDeferred => Ok (Some (mkResponse 503 "tenant_resolve_deferred" (Some 5%Z)))
    | DjangoOperationalError | DjangoInterfaceError | PsycopgOperationalError | PsycopgInterfaceError =>
        Ok (Some (mkResponse 500 "database_error" None))
    | _ => Err e
    end.
Proof.
  intros Hp. unfold process_request. rewrite (proj2 (mem_false _ _) Hp). unfold is_db_error.
  by destruct (eo_class (x_obj e)).
Qed.

(** ** Cache keys *)

Lemma no_colon_splitn n a b : no_char colon a → py_splitn (S n) colon (a +:+ ":" +:+ b) = a :: py_splitn n colon b.
Proof.
  intros Ha. unfold py_splitn. rewrite !chars_app. change (chars ":" ++ chars b) with (colon :: chars b).
  rewrite splitn_chars_app by done. rewrite fmap_cons. by rewrite of_chars_chars.
Qed.

(** The bound connection's schema, when a tenant is bound. *)
Definition bound_to (schema : string) (s : Ctx) : Prop := current_schema_name s = Ok schema.

Lemma schema_no_colon n : schema_ident n → no_char colon n.
Proof.
  intros Hn Hin. pose proof (ident_chars _ Hn) as Hc. rewrite Forall_forall in Hc.
  destruct (schema_char_safe _ (Hc _ Hin)) as (_ & _ & _ & _ & Hcol & _). by apply Hcol.
Qed.

Lemma py_int_no_colon n : no_char colon (py_int n).
Proof. by apply py_int_no_char. Qed.

Lemma schemas_differ a b x y :
  no_char colon a → no_char colon b → a ≠ b → a +:+ ":" +:+ x ≠ b +:+ ":" +:+ y.
Proof.
  intros Ha Hb Hne E. apply (f_equal (py_splitn 1 colon)) in E. rewrite !no_colon_splitn in E by done. by simplify_eq.
Qed.

(** The keys a request may use: what the cache API builds, and the manual ones. *)
Definition key_of (s : Ctx) (k : string) : Prop :=
  (∃ key prefix version, make_key key prefix version s = Ok k) ∨ ∃ parts, tenant_key parts s = Ok k.

(** Every key of a bound tenant is the namespace and the schema, alone or followed
    by a colon. *)
Lemma key_of_shape schema s k : bound_to schema s → key_of s k →
  k = "tenant:" +:+ schema ∨ ∃ x, k = "tenant:" +:+ schema +:+ ":" +:+ x.
Proof.
  unfold bound_to. intros Hb [(key & prefix & version & E)|[parts E]].
  - unfold make_key in E. rewrite Hb in E. cbn [res_bind] in E. injection E as <-. right. eexists. reflexivity.
  - unfold tenant_key, tenant_token in E. rewrite Hb in E. cbn [res_bind] in E. destruct (String.eqb schema PUBLIC); [done|].
    cbn [res_bind] in E. injection E as <-. destruct parts as [|p parts]; [by left|]. right. eexists. reflexivity.
Qed.

Lemma schema_shape_inj a b x y : no_char colon a → no_char colon b →
  (x = a ∨ ∃ r, x = a +:+ ":" +:+ r) → (y = b ∨ ∃ r, y = b +:+ ":" +:+ r) → x = y → a = b.
Proof.
  intros Ha Hb [->|[r ->]] [->|[r' ->]] E; [done| | |].
  - exfalso. apply Ha. rewrite E, chars_app. apply elem_of_app. right. by left.
  - exfalso. apply Hb. rewrite <- E, chars_app. apply elem_of_app. right. by left.
  - destruct (decide (a = b)) as [|Hne]; [done|]. by destruct (schemas_differ a b r r' Ha Hb Hne).
Qed.

(** C30: the key layout is unambiguous: on a bound tenant, [reverse_key] gives back
    the logical key of every physical key [make_key] built (with any key, colons
    included, and a prefix without colons); and of two tenants with valid, different
    schema names no key of one, made by the cache API or by [tenant_key], is a key of
    the other, made by either. *)
Theorem cache_keys_isolate s s' schema schema' :
  schema_ident schema → schema_ident schema' → bound_to schema s → bound_to schema' s' →
  (∀ key prefix version k, no_char colon prefix → make_key key prefix version s = Ok k → reverse_key k = Ok key)
  ∧ (schema ≠ schema' → ∀ k, key_of s k → ¬ key_of s' k).
Proof.
  intros Hs%schema_no_colon Hs'%schema_no_colon Hb Hb'. split.
  - intros key prefix version k Hp. unfold make_key. rewrite Hb. cbn [res_bind]. intros [= <-].
    unfold reverse_key. rewrite no_colon_splitn by (vm_compute; set_solver).
    rewrite !no_colon_splitn by (done || apply py_int_no_colon). cbn.
    unfold py_splitn. simpl. by rewrite of_chars_chars.
  - intros Hne k Hk Hk'. apply (key_of_shape _ _ _ Hb) in Hk. apply (key_of_shape _ _ _ Hb') in Hk'. apply Hne.
    assert (∀ z, (k = "tenant:" +:+ z ∨ ∃ x, k = "tenant:" +:+ z +:+ ":" +:+ x) →
      ∃ y, k = "tenant:" +:+ y ∧ (y = z ∨ ∃ x, y = z +:+ ":" +:+ x)) as Hshape by (intros z [->|[x ->]]; eauto).
    apply Hshape in Hk as (x & -> & Hx), Hk' as (y & E & Hy). by apply (schema_shape_inj _ _ x y Hs Hs' Hx Hy), (inj (String.append "tenant:")).
Qed.

End requests.
