(* ===== verification/ResolverScenario.v ===== *)
(** * Concrete scenarios for routing and resolving

    Instances of the connection wrapper, of the cache and of Redis, in which the
    theorems on routing and on resolving apply. *)
From S2P Require Import Prelude PyStr Validators Models PyExc World ResolveCache Routing RoutingFacts ResolveCacheFacts Registry RegistryFacts Throttle.
From S2P Require Import ResolveService ResolveServiceFacts.
From Stdlib Require Import QArith.
Local Open Scope nat_scope.
Open Scope tenants_scope.

#[refine] Instance toy_conn : TenantBackend := {
  TC := option TRef * string;
  tc_tenant c := c.1;
  tc_schema c := c.2;
  tc_set_tenant t c := (Some t, tref_schema t);
  tc_set_schema n c := (Some (FakeTenant n), n);
  tc_set_public c := (Some (FakeTenant PUBLIC), PUBLIC);
}.
Proof. all: done. Defined.

(** Upstream's membership test on plain app names, and one tenant type. *)
Definition in_list (label : string) (apps : list string) : bool := mem label apps.
Definition one_type (_ : option TRef) : string := "type".

Definition rc : RouterCfg :=
  mkRouterCfg ["tenants"; "users"; "orders"] ["users"; "orders"; "auth"]
    [mkAppConfig "users" "users" "users.apps.UsersConfig"; mkAppConfig "orders" "orders" "orders.apps.OrdersConfig"]
    ["users"; "orders.apps.OrdersConfig"] "raise" ["users.user"] None.

Definition order : ModelMeta := mkModelMeta "orders" "orders.Order" "orders.order".

Definition acme : TenantSnapshot := mkTenantSnapshot 1 "acme" "active" (mkShardSnapshot 2 "shard1") None.

(** Between requests: nothing bound, both connections on public. *)
Definition between : Ctx :=
  mkCtx None (<["default" := (None, PUBLIC)]> {["shard1" := (Some (FakeTenant PUBLIC), PUBLIC)]}).
(** In a request of [acme]. *)
Definition serving : Ctx :=
  mkCtx (Some "shard1") (<["default" := (None, PUBLIC)]> {["shard1" := (Some (RealTenant acme), "acme")]}).

Lemma order_strict : strict_model in_list rc order.
Proof. split; [reflexivity|]. exists ["users"; "orders"]. split; [reflexivity|]. right. left. Qed.

Lemma router_never_guesses_witness :
  db_for_read in_list rc order serving = Ok "shard1" ∧ bound_alias serving = Some "shard1"
  ∧ is_ok (db_for_read in_list rc order between) = false.
Proof.
  split; [reflexivity|]. split; [|reflexivity].
  apply (router_never_guesses in_list rc order serving "shard1"); [apply order_strict|reflexivity|reflexivity].
Defined.

Lemma tenant_context_routes_witness :
  (tenant_context acme None (observe in_list rc order "shard1") between).1 = Ok (Ok "shard1", Some "acme").
Proof.
  apply (tenant_context_routes in_list rc acme order between); [reflexivity|by eexists|discriminate|discriminate].
Defined.

Lemma allow_migrate_split_witness :
  allow_migrate in_list one_type rc "shard1" "orders" (Some "order") serving = Ok true
  ∧ (tc_schema (Some (RealTenant acme), "acme") = PUBLIC ↔ "shard1" = "default").
Proof.
  split; [reflexivity|].
  apply (allow_migrate_split in_list one_type rc "shard1" "orders" (Some "order") serving); reflexivity.
Defined.

(** A view that raises while the schema is elsewhere. *)
Definition bad_view : Body nat := λ s,
  (Err (simple_exn OtherException "ValueError" ""), on_conn "shard1" (tc_set_schema "other") (bind_db (Some "default") s)).

Lemma routing_middleware_leaves_public_witness :
  cx_current (routing_call (Some acme) bad_view between).2 = None.
Proof. apply (routing_middleware_leaves_public acme bad_view between). discriminate. Defined.

Lemma status_gate_exact_witness :
  status_gate "/api/orders/" (Some acme) = None ↔ ACTIVE = ACTIVE ∨ (ACTIVE = FAILED ∨ ACTIVE = MAINTENANCE) ∧ ("/api/orders/" = "/admin" ∨ ∃ q, "/api/orders/" = "/admin/" +:+ q).
Proof. apply (status_gate_exact "/api/orders/" acme ACTIVE); [discriminate|reflexivity]. Defined.

Lemma process_request_errors_witness :
  process_request "/api/orders/" (Err (simple_exn ResolveDeferred "ResolveDeferred" "a.example.com"))
  = Ok (Some (mkResponse 503 "tenant_resolve_deferred" (Some 5%Z))).
Proof.
  apply (process_request_errors "/api/orders/" (simple_exn ResolveDeferred "ResolveDeferred" "a.example.com")).
  apply mem_false. reflexivity.
Defined.

Lemma acme_ident : schema_ident "acme".
Proof. by apply schema_name_fullmatch_spec. Qed.

Lemma beta_ident : schema_ident "beta".
Proof. by apply schema_name_fullmatch_spec. Qed.

Definition serving_beta : Ctx := mkCtx (Some "shard1") {["shard1" := (Some (FakeTenant "beta"), "beta")]}.

Lemma cache_keys_isolate_witness :
  make_key "orders:open" "app" 1 serving = Ok "tenant:acme:app:1:orders:open"
  ∧ reverse_key "tenant:acme:app:1:orders:open" = Ok "orders:open"
  ∧ key_of serving "tenant:acme:positions" ∧ ¬ key_of serving_beta "tenant:acme:positions".
Proof.
  destruct (cache_keys_isolate serving serving_beta "acme" "beta") as [Hr Hd];
    [apply acme_ident|apply beta_ident|reflexivity|reflexivity|].
  assert (key_of serving "tenant:acme:positions") as Hk by (right; exists ["positions"]; reflexivity).
  split; [reflexivity|]. split; [|split; [exact Hk|by apply Hd]].
  by apply (Hr "orders:open" "app" 1%Z); [vm_compute; set_solver|].
Defined.

(** * Concrete scenarios for the tenant resolver

    An instance of the cache backend and inputs on which the theorems of the
    resolver apply. *)

(** ** A backend: a finite map and whether Redis answers *)

#[refine] Instance toy_backend : Backend := {
  C := gmap string CVal * bool;
  c_alive c := c.2;
  c_get c k := if c.2 then c.1 !! k else None;
  c_set k v ttl c := (if c.2 then (if ttl_ok ttl then <[k := v]> c.1 else delete k c.1) else c.1, c.2);
  c_delete k c := (if c.2 then delete k c.1 else c.1, c.2);
  c_keys c := if c.2 then (map_to_list c.1).*1 else [];
}.
Proof.
  - done.
  - done.
  - by intros [m b] k; simpl; intros ->.
  - intros k v ttl [m b] k'; simpl; intros -> ->. apply lookup_insert.
  - intros k [m []] k'; simpl; [apply lookup_delete|by case_decide].
  - intros [m []] k; simpl; [|split; [by intros ?%not_elem_of_nil|by intros []]].
    rewrite list_elem_of_fmap. split.
    + intros ([k' v] & -> & Hin%elem_of_map_to_list). by exists v.
    + intros [v Hv]. exists (k, v). split; [done|]. by apply elem_of_map_to_list.
  - intros [m []]; simpl; [apply NoDup_fst_map_to_list|constructor].
Defined.

Definition empty_cache : @C toy_backend := (∅, true).

(** 60 s positives, 5 s holds, 30 s negatives, the registry warm and gating. *)
Definition cfg : Cfg := mkCfg 60 30 5 {[ "active" := None ]} 20 2 true true 300 120 10.

Definition acme_snap (status : string) : TenantSnapshot :=
  mkTenantSnapshot 1 "acme" status (mkShardSnapshot 2 "shard1") None.

(** A resolver that read the row before a deactivation loses the race. *)
Lemma tombstone_blocks_fills_witness :
  match forget_tenant cfg ["acme.example.com"] "acme" false empty_cache with
  | Ok (n, act) =>
      n = 2 ∧ get_schema_snapshot "acme"
        (run_fill cfg (act empty_cache) (FPut "acme.example.com" (ASnap (acme_snap "active")))) = Ok LHold
  | Err _ => False
  end.
Proof.
  pose proof (tombstone_blocks_fills cfg ["acme.example.com"] "acme" empty_cache
    [FPut "acme.example.com" (ASnap (acme_snap "active"))]) as H.
  destruct (forget_tenant cfg ["acme.example.com"] "acme" false empty_cache) as [[n act]|e].
  - destruct H as (Hn & _ & Hs); [reflexivity|reflexivity|discriminate|by constructor|].
    split; [exact Hn|exact Hs].
  - apply H; [reflexivity|reflexivity|discriminate|by constructor].
Defined.

Lemma iter_chunks_correct_witness :
  concat (_iter_chunks [1; 2; 3; 4; 5] 2) = [1; 2; 3; 4; 5]
  ∧ _iter_chunks [1; 2; 3; 4; 5] 2 = [[1; 2]; [3; 4]; [5]].
Proof. split; [apply (iter_chunks_correct [1; 2; 3; 4; 5] 2); lia|reflexivity]. Defined.

(** ** A Redis server: its keys, without expiry *)

#[refine] Instance toy_redis : RawRedis := {
  R := gmap string RVal;
  r_keys m := m;
  r_exec c m := match redis_doc c m with Some (rep, m') => (Some rep, m') | None => (None, m) end;
}.
Proof.
  - intros c r rep m. simpl. by intros ->.
  - intros c r. simpl. by intros ->.
Defined.

Definition acme_row : TenantObj :=
  mkTenantObj 1 (mkTenant "acme" "Acme" "" 2 ACTIVE PENDING 0 "" None) (mkShard "shard1" "shard1" false true).
Definition beta_row : TenantObj :=
  mkTenantObj 2 (mkTenant "beta" "Beta" "" 2 ACTIVE PENDING 0 "" None) (mkShard "shard1" "shard1" false true).
Definition rows : list (string * TenantObj) := [("a.example.com", acme_row); ("b.example.com", beta_row)].

(** A process whose Redis holds [m], with the Domain table [d]. *)
Definition proc (m : gmap string RVal) (d : list (string * TenantObj)) (script : list REvent) : RS :=
  mkRS (mkShared empty_cache m d [acme_row; beta_row]) script 0 0 [] [7%Z; 7%Z; 7%Z] [] 0 0.

Definition hosts (l : list string) : gmap string RVal := {[HOSTS_KEY := RSet (list_to_set l)]}.

Lemma rows_are_ok : rows_ok cfg rows.
Proof.
  split; [|split].
  - repeat constructor; set_solver.
  - intros d d' Hd Hd'. unfold rows in *. set_unfold. intros E. destruct Hd as [->|[->|[]]], Hd' as [->|[->|[]]]; done.
  - intros d Hd. unfold rows in *. set_unfold. by destruct Hd as [->|[->|[]]].
Qed.

(** The connection breaks: the gate fails open. *)
Definition broken_wire : RS :=
  proc (hosts ["a.example.com"]) rows [mkREvent id (Some (redis_error "Timeout")) false].

Lemma check_correct_witness : (check "a.example.com" broken_wire).1 = Ok UNKNOWN_HOST.
Proof. rewrite (check_correct "a.example.com" broken_wire); reflexivity. Defined.

Lemma reconcile_exact_witness :
  ∃ s', reconcile cfg (proc (hosts ["gone.example.com"]) rows []) = (Ok 2, s')
    ∧ (check "gone.example.com" s').1 = Ok NONMEMBER ∧ (check "b.example.com" s').1 = Ok MEMBER.
Proof.
  destruct (reconcile_exact cfg (proc (hosts ["gone.example.com"]) rows [])) as (s' & E & Hc & _);
    [reflexivity|reflexivity|reflexivity|apply rows_are_ok|by intros x|].
  exists s'. split; [exact E|]. split; rewrite Hc; reflexivity.
Defined.

Lemma membership_maintained_witness :
  ∃ s', add cfg "b.example.com" (proc (hosts ["a.example.com"]) rows []) = (Ok tt, s')
    ∧ keys s' !! HOSTS_KEY = Some (RSet {["a.example.com"; "b.example.com"]}).
Proof.
  destruct (membership_maintained cfg "b.example.com" (proc (hosts ["a.example.com"]) rows [])) as [(s' & E & K & _) _];
    [reflexivity|reflexivity|exact I|exact I|].
  exists s'. split; [exact E|]. rewrite K. vm_compute. reflexivity.
Defined.

Lemma local_bucket_bound_witness :
  (inject_Z (Z.of_nat (granted (bucket_run 2 [1; 1; 1; 1; (3#2)]%Q (0, 0)%Q).1)) <= 2 + (3#2) * 2)%Q.
Proof.
  pose proof (local_bucket_bound 2 [1; 1; 1; 1; (3#2)]%Q (0, 0)%Q) as Hb.
  destruct (bucket_run 2 [1; 1; 1; 1; (3#2)]%Q (0, 0)%Q) as [oks b'] eqn:E.
  assert (b'.2 = (3#2)%Q) as Eb by (change b' with (oks, b').2; by rewrite <- E).
  destruct Hb as [_ Hb]; [discriminate|repeat split; discriminate|split; discriminate|].
  rewrite Eb in Hb. exact Hb.
Defined.

Lemma fill_cap_window_witness :
  ∃ oks s', allow_many cfg 3 (proc {[probe_key 7 := RInt 18]} rows []) = (Ok oks, s') ∧ Z.of_nat (granted oks) = 2%Z.
Proof.
  destruct (fill_cap_window cfg 3 7 [] (proc {[probe_key 7 := RInt 18]} rows [])) as (oks & s' & E & G);
    [reflexivity|reflexivity|exact I|]. exists oks, s'. split; [exact E|exact G].
Defined.

(** The database: [acme] owns a.example.com. *)
Definition db_acme (n : nat) : res exn TenantSnapshot := Ok (acme_snap "active").
Definition db_none (n : nat) : res exn TenantSnapshot := Err (simple_exn DoesNotExist "DoesNotExist" "").

Lemma resolve_hit_equals_miss_witness :
  ∃ s1 s2, resolve cfg db_acme DoesNotExist "a.example.com" (proc (hosts ["a.example.com"]) rows []) = (Ok (acme_snap "active"), s1)
    ∧ resolve cfg db_acme DoesNotExist "a.example.com" s1 = (Ok (acme_snap "active"), s2) ∧ rs_db_calls s2 = 1.
Proof.
  destruct (resolve_hit_equals_miss cfg db_acme DoesNotExist "a.example.com" (acme_snap "active")
    (proc (hosts ["a.example.com"]) rows [])) as (s1 & s2 & E1 & N1 & E2 & N2); try reflexivity.
  - right. exists {["a.example.com"]}. split; [reflexivity|set_solver].
  - exists s1, s2. split; [exact E1|]. split; [exact E2|]. by rewrite N2, N1.
Defined.

Lemma resolve_miss_remembered_witness :
  ∃ s1 s2, (resolve cfg db_none DoesNotExist "x.example.com" (proc (hosts ["x.example.com"]) rows [])).2 = s1
    ∧ resolve cfg db_none DoesNotExist "x.example.com" s1 = (Err (not_found_exn DoesNotExist "x.example.com"), s2)
    ∧ rs_db_calls s2 = 1.
Proof.
  destruct (resolve_miss_remembered cfg db_none DoesNotExist "x.example.com" (simple_exn DoesNotExist "DoesNotExist" "")
    (proc (hosts ["x.example.com"]) rows [])) as (s1 & s2 & E1 & N1 & E2 & N2); try reflexivity.
  - right. exists {["x.example.com"]}. split; [reflexivity|set_solver].
  - exists s1, s2. rewrite E1. split; [reflexivity|]. split; [exact E2|]. by rewrite N2, N1.
Defined.

Lemma gate_refuses_witness :
  (∃ s', resolve cfg db_acme DoesNotExist "evil.example.com" (proc (hosts ["a.example.com"]) rows [])
         = (Err (not_found_exn DoesNotExist "evil.example.com"), s') ∧ rs_db_calls s' = 0)
  ∧ (∃ s', resolve cfg db_acme DoesNotExist "a.example.com" (proc {[probe_key 7 := RInt 20]} rows [])
         = (Err (deferred "a.example.com"), s') ∧ rs_db_calls s' = 0).
Proof.
  split.
  - destruct (gate_refuses cfg db_acme DoesNotExist "evil.example.com" (proc (hosts ["a.example.com"]) rows []))
      as [H _]; [reflexivity|reflexivity|reflexivity|].
    destruct (H {["a.example.com"]}) as (s' & E & N & _); [reflexivity|set_solver|]. by exists s'.
  - destruct (gate_refuses cfg db_acme DoesNotExist "a.example.com" (proc {[probe_key 7 := RInt 20]} rows []))
      as [_ H]; [reflexivity|reflexivity|reflexivity|].
    destruct (H 7%Z [7%Z; 7%Z]) as (s' & E & N & _); [reflexivity|reflexivity|exact I|discriminate|]. by exists s'.
Defined.

(** ** Two threads, one resolver call *)

Definition led : FState (V := nat) :=
  mkFState ∅ {[0 := mkSlot true (Some 42) None]}
    (<[0 := mkThread "h" (Done (Ok 42))]> {[1 := mkThread "h" (Done (Ok 42))]}) [("h", 0, Ok 42)].

(** Thread 0 leads, thread 1 follows and shares the result. *)
Lemma led_reachable : freach led.
Proof.
  unshelve epose proof (freach_step (V := nat) _ _ freach_start (f_call fstart 0 "h" _)) as R1; [reflexivity..|].
  unshelve epose proof (freach_step _ _ R1 (f_lead _ 0 "h" 0 _ _ _)) as R2; [reflexivity..|].
  unshelve epose proof (freach_step _ _ R2 (f_call _ 1 "h" _)) as R3; [reflexivity..|].
  unshelve epose proof (freach_step _ _ R3 (f_follow _ 1 "h" 0 _ _)) as R4; [reflexivity..|].
  unshelve epose proof (freach_step _ _ R4 (f_resolved _ 0 "h" 0 (Ok 42) _)) as R5; [reflexivity..|].
  unshelve epose proof (freach_step _ _ R5 (f_pop _ 0 "h" 0 None _)) as R6; [reflexivity..|].
  unshelve epose proof (freach_step _ _ R6 (f_wake _ 0 "h" 0 None (mkSlot false (Some 42) None) _ _)) as R7; [reflexivity..|].
  unshelve epose proof (freach_step _ _ R7 (f_woken _ 1 "h" 0 (mkSlot true (Some 42) None) _ _ _)) as R8; [reflexivity..|].
  unshelve epose proof (freach_step _ _ R8 (f_read _ 0 "h" 0 true (mkSlot true (Some 42) None) _ _)) as R9; [reflexivity..|].
  unshelve epose proof (freach_step _ _ R9 (f_read _ 1 "h" 0 false (mkSlot true (Some 42) None) _ _)) as R10; [reflexivity..|].
  clear -R10. match type of R10 with freach ?s => assert (s = led) as <-; [|exact R10] end.
  vm_compute. reflexivity.
Qed.

Lemma single_flight_coalesces_witness : outcome_ok led "h" 1 (Ok 42).
Proof. apply (single_flight_coalesces led led_reachable). reflexivity. Defined.

(** Thread 0 leads and thread 1 waits for it. *)
Definition waiting : FState (V := nat) :=
  mkFState {["h" := 0]} {[0 := mkSlot false None None]}
    (<[0 := mkThread "h" (Lead 0)]> {[1 := mkThread "h" (Wait 0)]}) [].

Lemma waiting_reachable : freach waiting.
Proof.
  unshelve epose proof (freach_step (V := nat) _ _ freach_start (f_call fstart 0 "h" _)) as R1; [reflexivity..|].
  unshelve epose proof (freach_step _ _ R1 (f_lead _ 0 "h" 0 _ _ _)) as R2; [reflexivity..|].
  unshelve epose proof (freach_step _ _ R2 (f_call _ 1 "h" _)) as R3; [reflexivity..|].
  unshelve epose proof (freach_step _ _ R3 (f_follow _ 1 "h" 0 _ _)) as R4; [reflexivity..|].
  clear -R4. match type of R4 with freach ?s => assert (s = waiting) as <-; [|exact R4] end.
  vm_compute. reflexivity.
Qed.

Lemma single_flight_progress_witness :
  ∃ sl, f_slots waiting !! 0 = Some sl ∧ (sl_event sl = true ∨ ∃ j pc, at_pc waiting j "h" pc ∧ pends pc = Some 0).
Proof. apply (single_flight_progress waiting waiting_reachable) with (i := 1). reflexivity. Defined.

(** ** A mutation split around the end of a reconcile *)

Definition gamma_row : TenantObj :=
  mkTenantObj 3 (mkTenant "gamma" "Gamma" "" 2 ACTIVE PENDING 0 "" None) (mkShard "shard1" "shard1" false true).

(** What another process does: its transaction commits the domain and its
    [add] has seen EXISTS and done the SADD ... *)
Definition commit_and_sadd (h : Shared) : Shared :=
  mkShared (sh_cache h) (r_exec (SADD HOSTS_KEY ["c.example.com"]) (sh_redis h)).2
    (sh_domains h ++ [("c.example.com", gamma_row)]) (sh_tenants h ++ [gamma_row]).
(** ... and, later, its dirty bump. *)
Definition bump (h : Shared) : Shared := with_redis (λ r, (r_exec (INCR DIRTY_KEY) r).2) h.

(** The first falls between the reconcile's read of the Domain table and its
    RENAME, the second after its last look at the counter. *)
Definition split_script : list REvent :=
  replicate 4 calm ++ [mkREvent commit_and_sadd None true] ++ replicate 5 calm ++ [mkREvent bump None true].

(** A reconcile was triggered less than WARM_PENDING_SECONDS ago. *)
Definition before_race : RS :=
  proc (<[WARM_PENDING_KEY := RStr "1"]> (hosts ["a.example.com"; "b.example.com"])) rows split_script.

(** The dirty re-check does not catch every concurrent mutation: a domain
    committed and added after the rebuild read the table, whose dirty bump lands
    after the re-check, is dropped by the RENAME. Once the signal's remaining
    steps have run, the domain is in the table, the gate rejects it as unknown,
    and no further reconcile was enqueued. *)
Theorem dirty_recheck_misses_split_mutation :
  let '(r, s1) := reconcile cfg before_race in
  let s2 := ((arm cfg ~;; trigger_warm cfg) s1).2 in
  r = Ok 2
  ∧ (domains s2).*1 = ["a.example.com"; "b.example.com"; "c.example.com"]
  ∧ (check "c.example.com" s2).1 = Ok NONMEMBER
  ∧ rs_delayed s2 = rs_delayed before_race.
Proof. vm_compute. repeat split. Qed.
