(* ===== verification/TaskRun.v ===== *)
(** * The dispatch watermark of calendar tasks

    Models [TaskRun] of src/tenants/models.py: one row per (schema, task,
    args_sig), read once per tick by [load_map] and written by the two SQL
    statements of [mark_ran], which other workers may interleave with theirs. *)
From S2P Require Import Prelude PyStr Models.

(** ** The table *)

(** The columns of [tenants_taskrun_unique]. *)
Record RunKey := mkRunKey { rk_schema : string; rk_task : string; rk_sig : string }.

#[global] Instance RunKey_eq_dec : EqDecision RunKey.
Proof. solve_decision. Defined.
#[global] Instance RunKey_countable : Countable RunKey.
Proof.
  refine (inj_countable' (λ k, (rk_schema k, rk_task k, rk_sig k)) (λ '(s, t, g), mkRunKey s t g) _).
  by intros [].
Defined.

(** The rows by their unique columns; the value is [last_run_at]. *)
Notation TaskRun := (gmap RunKey Z).

Definition of_entry (task args_sig : string) (k : RunKey) : bool :=
  String.eqb (rk_task k) task && String.eqb (rk_sig k) args_sig.

Definition load_map (task args_sig : string) (t : TaskRun) : gmap string Z :=
  list_to_map (prod_map rk_schema id <$> filter (λ kv, of_entry task args_sig kv.1 = true) (map_to_list t)).

(** ** Writing *)

(** One call of [mark_ran]. *)
Record Wave := mkWave { w_task : string; w_sig : string; w_schemas : list string; w_ts : Z }.

(** [bulk_create(..., ignore_conflicts=True)]. *)
Definition bulk_create (w : Wave) (t : TaskRun) : TaskRun :=
  foldl (λ t s, let k := mkRunKey s (w_task w) (w_sig w) in
                match t !! k with Some _ => t | None => <[k := w_ts w]> t end) t (w_schemas w).

Definition covers (w : Wave) (k : RunKey) : bool :=
  of_entry (w_task w) (w_sig w) k && mem (rk_schema k) (w_schemas w).

(** [filter(..., last_run_at__lt=run_ts).update(last_run_at=run_ts)]. *)
Definition advance (w : Wave) (t : TaskRun) : TaskRun :=
  map_imap (λ k last, Some (if covers w k && (last <? w_ts w)%Z then w_ts w else last)) t.

(** A statement a wave sends to the database. *)
Inductive Stmt := BulkCreate (w : Wave) | Advance (w : Wave).

Definition run_stmt (t : TaskRun) (st : Stmt) : TaskRun :=
  match st with BulkCreate w => bulk_create w t | Advance w => advance w t end.

Definition mark_ran (w : Wave) : list Stmt :=
  match w_schemas w with [] => [] | _ => [BulkCreate w; Advance w] end.

(** Sequences of statements of several workers, in every order that keeps each
    worker's own. *)
Inductive interleaved : list (list Stmt) → list Stmt → Prop :=
| il_done ps : Forall (λ p, p = []) ps → interleaved ps []
| il_step ps1 st p ps2 l :
    interleaved (ps1 ++ p :: ps2) l → interleaved (ps1 ++ (st :: p) :: ps2) (st :: l).

(** ** Reading *)

Lemma load_map_lookup task args_sig t s :
  load_map task args_sig t !! s = t !! mkRunKey s task args_sig.
Proof.
  apply option_eq. intros ts. unfold load_map. rewrite <- elem_of_list_to_map.
  - rewrite list_elem_of_fmap. unfold of_entry. split.
    + intros ([[s' t' g'] ts'] & Heq & [Hk Hl%elem_of_map_to_list]%list_elem_of_filter).
      simpl in *. bool_props. by simplify_eq/=.
    + intros Hl. exists (mkRunKey s task args_sig, ts). split; [done|]. apply list_elem_of_filter. simpl.
      rewrite !String.eqb_refl. split; [done|]. by apply elem_of_map_to_list.
  - rewrite <- list_fmap_compose.
    rewrite (list_fmap_ext _ (rk_schema ∘ fst)) by by intros ? [].
    apply (NoDup_fmap_2_strong (rk_schema ∘ fst)).
    + intros [[s1 t1 g1] v1] [[s2 t2 g2] v2] [Hk1 Hl1]%list_elem_of_filter [Hk2 Hl2]%list_elem_of_filter.
      unfold of_entry in *. simpl in *. bool_props. intros ->. subst.
      apply elem_of_map_to_list in Hl1, Hl2. by simplify_map_eq.
    + apply NoDup_filter, NoDup_map_to_list.
Qed.

(** ** One statement at one row *)

Lemma bulk_create_lookup w t k :
  bulk_create w t !! k = if covers w k then Some (default (w_ts w) (t !! k)) else t !! k.
Proof.
  unfold bulk_create, covers. revert t. induction (w_schemas w) as [|s l IH]; intros t; simpl.
  - by rewrite andb_false_r.
  - rewrite IH. clear IH. unfold of_entry.
    destruct (decide (k = mkRunKey s (w_task w) (w_sig w))) as [->|Hne]; simpl.
    + rewrite !String.eqb_refl. simpl. rewrite (proj2 (mem_spec s (s :: l))) by left.
      destruct (t !! mkRunKey s (w_task w) (w_sig w)) as [ts|] eqn:Ht; rewrite ?lookup_insert_eq, ?Ht; simpl;
        repeat case_match; simplify_eq; done.
    + assert ((match t !! mkRunKey s (w_task w) (w_sig w) with
               | Some _ => t | None => <[mkRunKey s (w_task w) (w_sig w) := w_ts w]> t end) !! k = t !! k) as ->
        by (destruct (t !! mkRunKey s _ _); [done|by apply lookup_insert_ne]).
      destruct (String.eqb (rk_task k) (w_task w) && String.eqb (rk_sig k) (w_sig w)) eqn:He; [|done]. simpl.
      assert (mem (rk_schema k) (s :: l) = mem (rk_schema k) l) as ->; [|done].
      apply bool_decide_ext. rewrite elem_of_cons. split; [|by right].
      intros [Hs|]; [|done]. bool_props. destruct k; simpl in *. congruence.
Qed.

Lemma advance_lookup w t k :
  advance w t !! k = if covers w k then Z.max (w_ts w) <$> t !! k else t !! k.
Proof.
  unfold advance. rewrite map_lookup_imap. destruct (t !! k) as [x|]; simpl; [|by case_match].
  destruct (covers w k); simpl; [|done]. destruct (x <? w_ts w)%Z eqn:E; bool_props; f_equal; lia.
Qed.

(** ** Any interleaving *)

(** The later of two watermarks; no row is older than every row. *)
Definition later (a b : option Z) : option Z :=
  match a, b with
  | Some x, Some y => Some (Z.max x y)
  | Some x, None => Some x
  | None, b => b
  end.

#[global] Instance later_comm : Comm (=) later.
Proof. intros [x|] [y|]; simpl; try done; f_equal; lia. Qed.
#[global] Instance later_assoc : Assoc (=) later.
Proof. intros [x|] [y|] [z|]; simpl; try done; f_equal; lia. Qed.
Lemma later_idem a : later a a = a.
Proof. destruct a; simpl; [f_equal; lia|done]. Qed.
Lemma later_none a : later a None = a.
Proof. by destruct a. Qed.

(** The watermark a wave asks for at a row. *)
Definition asked (k : RunKey) (w : Wave) : option Z := if covers w k then Some (w_ts w) else None.

(** What the statements a worker has still to send will add at [k]. *)
Definition pending_at (k : RunKey) (p : list Stmt) : option Z :=
  match p with BulkCreate w :: _ | Advance w :: _ => asked k w | [] => None end.

Definition latest (o : option Z) (l : list (option Z)) : option Z := foldr later o l.

Lemma latest_app o l1 c l2 : latest o (l1 ++ c :: l2) = later c (latest o (l1 ++ l2)).
Proof.
  induction l1 as [|x l1 IH]; simpl; [done|]. rewrite IH.
  rewrite !(assoc_L later). f_equal. apply later_comm.
Qed.

Lemma latest_base o c l : latest (later c o) l = later c (latest o l).
Proof.
  induction l as [|x l IH]; simpl; [done|]. rewrite IH, !(assoc_L later). f_equal. apply later_comm.
Qed.

Lemma latest_none o l : Forall (λ x, x = None) l → latest o l = o.
Proof. by induction 1 as [|x l -> _ IH]. Qed.

(** A worker's remaining statements: all, the second, or none. *)
Inductive worker_rest : list Stmt → Prop :=
| rest_all w : worker_rest [BulkCreate w; Advance w]
| rest_advance w : worker_rest [Advance w]
| rest_none : worker_rest [].

(** A worker past its insert left a row behind. *)
Definition inserted_at (k : RunKey) (o : option Z) (p : list Stmt) : Prop :=
  match p with [Advance w] => covers w k = true → is_Some o | _ => True end.

Lemma interleaved_latest k ps l t :
  interleaved ps l → Forall worker_rest ps → Forall (inserted_at k (t !! k)) ps →
  foldl run_stmt t l !! k = latest (t !! k) (pending_at k <$> ps).
Proof.
  intros Hil. revert t. induction Hil as [ps Hps|ps1 st p ps2 l Hil IH]; intros t Hw Hi; simpl.
  - rewrite latest_none; [done|]. rewrite Forall_fmap.
    eapply Forall_impl; [exact Hps|]. by intros ? ->.
  - apply Forall_app in Hw as [Hw1 [Hw Hw2]%Forall_cons]. apply Forall_app in Hi as [Hi1 [Hi Hi2]%Forall_cons].
    assert (∀ o' p', (is_Some (t !! k) → is_Some o') → inserted_at k (t !! k) p' → inserted_at k o' p') as Hmono
      by (intros o' [|[w|w] [|??]] Ho Hp; simpl in *; auto).
    rewrite fmap_app, fmap_cons, latest_app.
    inversion Hw; subst.
    + rewrite IH.
      * rewrite fmap_app, fmap_cons, latest_app. simpl. rewrite bulk_create_lookup. unfold asked.
        destruct (covers w k); [|done]. destruct (t !! k) as [x|]; [done|].
        rewrite <- !latest_base. simpl. by rewrite Z.max_id.
      * apply Forall_app; split; [done|]. constructor; [constructor|done].
      * simpl. rewrite bulk_create_lookup.
        assert (∀ p', inserted_at k (t !! k) p' →
          inserted_at k (if covers w k then Some (default (w_ts w) (t !! k)) else t !! k) p') as Hm.
        { intros p'. apply Hmono. case_match; [eauto|done]. }
        apply Forall_app; split; [by eapply Forall_impl|]. constructor; [|by eapply Forall_impl].
        simpl. intros ->. eauto.
    + rewrite IH.
      * rewrite fmap_app, fmap_cons, latest_app. simpl. rewrite advance_lookup. unfold asked.
        simpl in Hi. destruct (covers w k); [|done]. destruct Hi as [x Hx]; [done|]. rewrite Hx.
        by rewrite <- (latest_base _ (Some (w_ts w))).
      * apply Forall_app; split; [done|]. constructor; [constructor|done].
      * simpl. rewrite advance_lookup.
        assert (∀ p', inserted_at k (t !! k) p' →
          inserted_at k (if covers w k then Z.max (w_ts w) <$> t !! k else t !! k) p') as Hm.
        { intros p'. apply Hmono. case_match; [|done]. intros [x ->]. simpl. eauto. }
        apply Forall_app; split; [by eapply Forall_impl|]. constructor; [done|by eapply Forall_impl].
Qed.

Lemma mark_ran_rest w : worker_rest (mark_ran w).
Proof. unfold mark_ran. case_match; constructor. Qed.

Lemma mark_ran_pending k w : pending_at k (mark_ran w) = asked k w.
Proof.
  unfold mark_ran. destruct (w_schemas w) eqn:E; [|done].
  unfold asked, covers. by rewrite E, andb_false_r.
Qed.

(** C25: however the statements of any number of [mark_ran]
    calls are interleaved, every watermark ends at the latest of its old value
    and the timestamps of the calls that cover it: it never moves backward, no
    call is lost, rows no call covers are untouched. *)
Theorem mark_ran_converges ws l t k :
  interleaved (mark_ran <$> ws) l →
  foldl run_stmt t l !! k = latest (t !! k) (asked k <$> ws).
Proof.
  intros Hil. rewrite (interleaved_latest k _ _ _ Hil).
  - rewrite <- list_fmap_compose. f_equal. apply list_fmap_ext. intros _ w _. apply mark_ran_pending.
  - apply Forall_fmap, Forall_forall. intros w _. apply mark_ran_rest.
  - apply Forall_fmap, Forall_forall. intros w _. simpl. unfold mark_ran. by destruct (w_schemas w).
Qed.

(** One call on its own. *)
Lemma mark_ran_lookup w t k :
  foldl run_stmt t (mark_ran w) !! k = later (asked k w) (t !! k).
Proof.
  unfold mark_ran, asked. destruct (w_schemas w) eqn:E; simpl.
  - unfold covers. rewrite E. by rewrite andb_false_r.
  - rewrite advance_lookup, bulk_create_lookup. destruct (covers w k); [|done].
    by destruct (t !! k); simpl; f_equal; lia.
Qed.

(** An earlier wave that lands last, between the statements of a later one. *)
Lemma mark_ran_converges_witness :
  let old := mkWave "x.report" "" ["acme"; "beta"] 100 in
  let new := mkWave "x.report" "" ["acme"] 200 in
  foldl run_stmt ∅ [BulkCreate old; BulkCreate new; Advance new; Advance old] !! mkRunKey "acme" "x.report" ""
  = Some 200%Z.
Proof.
  intros old new. rewrite (mark_ran_converges [old; new]); [reflexivity|].
  apply (il_step [] _ _ [mark_ran new]), (il_step [[Advance old]] _ _ []),
    (il_step [[Advance old]] _ _ []), (il_step [] _ _ [[]]), il_done. repeat constructor.
Defined.
