(* ===== verification/Beat.v ===== *)
(** * The beat schedule: run mode, schedule entries and their deploy checks

    Models src/commons/platform/mode.py, src/commons/platform/beat.py, [argsig]
    of src/tenants/celery/dispatch.py and the checks tenants.E002, E003, E006 and
    E009 of src/tenants/checks/beat.py. *)
From Stdlib Require Import QArith.
From S2P Require Import Prelude PyStr PyExc.
Open Scope tenants_scope.

(** ** JSON values, as a message carries them *)

Inductive JVal :=
| JNull | JBool (b : bool) | JInt (n : Z) | JStr (s : string)
| JList (l : list JVal) | JDict (l : list (string * JVal)).

Notation Dict := (list (string * JVal)).

Definition jtruthy (v : JVal) : bool :=
  match v with
  | JNull => false
  | JBool b => b
  | JInt n => negb (n =? 0)%Z
  | JStr s => negb (String.eqb s "")
  | JList l => match l with [] => false | _ => true end
  | JDict l => match l with [] => false | _ => true end
  end.

Fixpoint dget (k : string) (d : Dict) : option JVal :=
  match d with
  | [] => None
  | (k', v) :: d' => if String.eqb k k' then Some v else dget k d'
  end.

(** [d[k] = v], and [{**d, k: v}] on a copy: a present key keeps its place. *)
Fixpoint dset (k : string) (v : JVal) (d : Dict) : Dict :=
  match d with
  | [] => [(k, v)]
  | (k', v') :: d' => if String.eqb k k' then (k, v) :: d' else (k', v') :: dset k v d'
  end.

Definition dpop (k : string) (d : Dict) : Dict := filter (λ kv, String.eqb k kv.1 = false) d.

Lemma dget_dset k v d k' : dget k' (dset k v d) = if String.eqb k' k then Some v else dget k' d.
Proof.
  induction d as [|[k0 v0] d IH]; simpl; [done|].
  destruct (String.eqb k k0) eqn:E; simpl.
  - apply String.eqb_eq in E as <-. by destruct (String.eqb k' k).
  - destruct (String.eqb k' k0) eqn:E0; [|done]. apply String.eqb_eq in E0 as ->.
    by rewrite String.eqb_sym, E.
Qed.

(** ** mode.py *)

Definition improperly (msg : string) : exn := simple_exn OtherException "ImproperlyConfigured" msg.

Definition _TRUE : list string := ["1"; "true"; "yes"; "on"].
Definition _FALSE : list string := ["0"; "false"; "no"; "off"].

Definition _parse_bool (value origin : string) : res exn bool :=
  let token := py_lower (py_strip value) in
  if mem token _TRUE then Ok true
  else if mem token _FALSE then Ok false
  else Err (improperly (origin +:+ " is " +:+ py_repr value +:+ ", which is not a boolean. Use one of "
              +:+ "['1', 'on', 'true', 'yes'] / ['0', 'false', 'no', 'off'] (case-insensitive).")).

(** [USE_MULTITENANT] in the optional settings_mode.py: text, or a value with a
    truth value. *)
Inductive ModeValue := ModeStr (s : string) | ModeOther (truth : bool).

(** [env]: the variable; [file]: [None] when settings_mode.py has no such name. *)
Definition use_multitenant (env : option string) (file : option ModeValue) : res exn bool :=
  let from_file := match file with
                   | None => Ok false
                   | Some (ModeStr s) => _parse_bool s "settings_mode.USE_MULTITENANT"
                   | Some (ModeOther b) => Ok b
                   end in
  match env with
  | Some raw => if String.eqb (py_strip raw) "" then from_file else _parse_bool raw "env USE_MULTITENANT"
  | None => from_file
  end.

(** ** beat.py *)

Definition FANOUT_TASK_NAME : string := "tenants.tasks.fanout_dispatch".

Definition BEAT_DEFAULTS : gmap string Z :=
  {[ "TZ_GRACE_SECONDS" := 300%Z; "BATCH_SIZE" := 100%Z; "LOCK_SECONDS" := 60%Z ]}.

(** [tb]: settings.TENANT_BEAT, empty when not set. *)
Definition beat_conf (tb : gmap string Z) (key : string) : res exn Z :=
  match BEAT_DEFAULTS !! key with
  | None => Err (simple_exn OtherException "KeyError" (py_repr key))
  | Some d => Ok (default d (tb !! key))
  end.

(** The unparsed fields of a celery crontab, as [str.format] prints them. *)
Record Crontab := mkCrontab {
  c_minute : string; c_hour : string; c_day_of_month : string; c_month_of_year : string; c_day_of_week : string;
}.

Inductive Sched :=
| SNumber (q : Q)
| STimedelta (us : Z)
| SInterval (us : Z)                (** [celery.schedules.schedule] *)
| SCrontab (c : Crontab)
| SOther (type_name : string).

Definition _crontab_to_cronspec (c : Crontab) : string :=
  c_minute c +:+ " " +:+ c_hour c +:+ " " +:+ c_day_of_month c +:+ " " +:+ c_month_of_year c +:+ " " +:+ c_day_of_week c.

Inductive Kind := Interval | Calendar.

Definition _classify_schedule (sched : Sched) : res exn (Kind * Sched * option string) :=
  match sched with
  | SNumber _ | STimedelta _ | SInterval _ => Ok (Interval, sched, None)
  | SCrontab c => Ok (Calendar, sched, Some (_crontab_to_cronspec c))
  | SOther ty => Err (improperly ("scoped_schedule: unsupported schedule " +:+ ty))
  end.

(** A beat entry as the host project writes it. *)
Record Entry := mkEntry {
  e_task : option string;
  e_schedule : option Sched;
  e_args : option (list JVal);
  e_kwargs : option Dict;
  e_options : option Dict;
}.

(** The [kwargs] of a wrapped entry: the call of [fanout_dispatch]. *)
Record Disp := mkDisp {
  dp_task_name : string;
  dp_scope : string;
  dp_task_args : list JVal;
  dp_task_kwargs : Dict;
  dp_task_options : Dict;
  dp_cron : option string;
  dp_grace : option Z;
}.

(** An entry of CELERY_BEAT_SCHEDULE: [se_scope] is the attribute, [None] on a
    plain dict. *)
Inductive SchedBody := Plain (e : Entry) | Fanout (schedule : Sched) (kwargs : Disp).
Record SchedEntry := mkSchedEntry { se_scope : option string; se_body : SchedBody }.

Definition scope_of (entry : SchedEntry) : option string := se_scope entry.

Definition need {A} (key : string) (o : option A) : res exn A :=
  match o with Some a => Ok a | None => Err (simple_exn OtherException "KeyError" (py_repr key)) end.

Definition scoped_schedule (mt : res exn bool) (period_default : Q) (entry : Entry) (scope : string)
    (fanout_period : option Q) (grace : option Z) : res exn SchedEntry :=
  if negb (mem scope ["public"; "tenants"])
  then Err (improperly ("scoped_schedule: scope must be 'public' or 'tenants', got " +:+ py_repr scope))
  else
    multitenant <-? mt ;;
    if negb multitenant || String.eqb scope "public" then Ok (mkSchedEntry (Some scope) (Plain entry))
    else
      schedule <-? need "schedule" (e_schedule entry) ;;
      classified <-? _classify_schedule schedule ;;
      task <-? need "task" (e_task entry) ;;
      let '(kind, sched, cron) := classified in
      let disp := mkDisp task scope (default [] (e_args entry)) (default [] (e_kwargs entry))
                    (default [] (e_options entry)) in
      match kind with
      | Calendar => Ok (mkSchedEntry (Some scope)
                          (Fanout (SNumber (default period_default fanout_period)) (disp cron grace)))
      | Interval => Ok (mkSchedEntry (Some scope) (Fanout sched (disp None None)))
      end.

Definition task_queue (multitenant : bool) (name : string) : option string :=
  if multitenant then Some name else None.

(** ** The identity of a schedule entry *)

Section checks.

(** [hashlib.md5(json.dumps(args, sort_keys=True, default=str).encode()).hexdigest()[:12]]
    of a non-empty argument list. *)
Context (digest : list JVal → string).

Definition argsig (task_args : option (list JVal)) : string :=
  match task_args with
  | None | Some [] => ""
  | Some args => digest args
  end.

Definition lock_key (task_name args_sig : string) : string := "beat:fanout:" +:+ task_name +:+ ":" +:+ args_sig.

(** ** checks/beat.py: each check returns the names of the entries it reports *)

Definition float_of (s : Sched) : option Q := match s with SNumber q => Some q | _ => None end.

(** tenants.E002. *)
Definition beat_grace_ge_fanout_period (tb : gmap string Z) (schedule : list (string * SchedEntry)) :
    res exn (list string) :=
  default_grace <-? beat_conf tb "TZ_GRACE_SECONDS" ;;
  Ok (omap (λ '(name, entry),
        match se_body entry with
        | Fanout period kw =>
            match dp_cron kw, float_of period with
            | Some cron, Some p =>
                if String.eqb cron "" then None
                else if Qle_bool p (inject_Z (default default_grace (dp_grace kw))) then None else Some name
            | _, _ => None
            end
        | Plain _ => None
        end) schedule).

(** tenants.E003. *)
Definition beat_entries_wrapped (schedule : list (string * SchedEntry)) : list string :=
  omap (λ '(name, entry), match scope_of entry with None => Some name | Some _ => None end) schedule.

Definition _SEND_TASK_RESERVED : list string := ["args"; "kwargs"; "name"].

(** tenants.E009. *)
Definition fanout_options_do_not_collide (schedule : list (string * SchedEntry)) : list string :=
  omap (λ '(name, entry),
    if bool_decide (scope_of entry = Some "tenants")
    then match se_body entry with
         | Fanout _ kw => if existsb (λ kv, mem kv.1 _SEND_TASK_RESERVED) (dp_task_options kw) then Some name else None
         | Plain _ => None
         end
    else None) schedule.

(** tenants.E006: the groups of names that share a task and a signature. *)
Definition group_key (kw : Disp) : string * string := (dp_task_name kw, argsig (Some (dp_task_args kw))).

Definition add_to_group (g : gmap (string * string) (list string)) (item : string * SchedEntry) :
    gmap (string * string) (list string) :=
  match se_body item.2 with
  | Fanout _ kw => <[group_key kw := default [] (g !! group_key kw) ++ [item.1]]> g
  | Plain _ => g
  end.

Definition groups (schedule : list (string * SchedEntry)) : gmap (string * string) (list string) :=
  foldl add_to_group ∅ schedule.

Definition fanout_entries_are_unique (schedule : list (string * SchedEntry)) : list (list string) :=
  filter (λ names, 2 ≤ length names) (snd <$> map_to_list (groups schedule)).

(** ** Properties *)

Definition group_names (schedule : list (string * SchedEntry)) (k : string * string) : list string :=
  omap (λ '(name, entry), match se_body entry with
                          | Fanout _ kw => if bool_decide (group_key kw = k) then Some name else None
                          | Plain _ => None
                          end) schedule.

Lemma add_to_group_lookup schedule g k :
  default [] (foldl add_to_group g schedule !! k) = default [] (g !! k) ++ group_names schedule k.
Proof.
  revert g. induction schedule as [|[name [sc body]] l IH]; intros g; simpl; [by rewrite app_nil_r|].
  rewrite IH. unfold add_to_group. destruct body as [e|p kw]; simpl; [done|].
  case_bool_decide as Hk; [subst; rewrite lookup_insert_eq; simpl; by rewrite <- app_assoc|by rewrite lookup_insert_ne].
Qed.

Lemma groups_lookup schedule k : default [] (groups schedule !! k) = group_names schedule k.
Proof. unfold groups. by rewrite add_to_group_lookup, lookup_empty. Qed.

(** A schedule tenants.E006 accepts has at most one entry per group. *)
Lemma unique_group schedule k :
  fanout_entries_are_unique schedule = [] → length (group_names schedule k) ≤ 1.
Proof.
  intros Hu. rewrite <- groups_lookup. destruct (groups schedule !! k) as [names|] eqn:Hk; simpl; [|lia].
  destruct (decide (2 ≤ length names)) as [Hl|]; [|lia]. exfalso.
  apply (not_elem_of_nil names). rewrite <- Hu. apply list_elem_of_filter. split; [done|].
  apply list_elem_of_fmap. exists (k, names). split; [done|]. by apply elem_of_map_to_list.
Qed.

(** Two entries of the same group are the same position of the schedule. *)
Lemma group_position schedule k i j ni nj ei ej pi pj kwi kwj :
  fanout_entries_are_unique schedule = [] →
  schedule !! i = Some (ni, ei) → se_body ei = Fanout pi kwi → group_key kwi = k →
  schedule !! j = Some (nj, ej) → se_body ej = Fanout pj kwj → group_key kwj = k →
  i = j.
Proof.
  intros Hu Hi Hbi Hki Hj Hbj Hkj. pose proof (unique_group schedule k Hu) as Hlen.
  destruct (decide (i = j)) as [|Hne]; [done|exfalso].
  assert (∀ a b na nb ea eb pa pb kwa kwb, a < b →
    schedule !! a = Some (na, ea) → se_body ea = Fanout pa kwa → group_key kwa = k →
    schedule !! b = Some (nb, eb) → se_body eb = Fanout pb kwb → group_key kwb = k → False) as Hlt.
  { clear -Hlen. intros a b na nb ea eb pa pb kwa kwb Hab Ha Hba Hka Hb Hbb Hkb.
    rewrite <- (take_drop_middle schedule a _ Ha) in Hlen. unfold group_names in Hlen.
    rewrite omap_app, length_app in Hlen. simpl in Hlen. rewrite Hba, bool_decide_true in Hlen by done.
    assert (drop (S a) schedule !! (b - S a) = Some (nb, eb)) as Hd
      by (rewrite lookup_drop; by replace (S a + (b - S a)) with b by lia).
    rewrite <- (take_drop_middle _ _ _ Hd) in Hlen. simpl in Hlen.
    rewrite omap_app, length_app in Hlen. simpl in Hlen. rewrite Hbb, bool_decide_true in Hlen by done.
    simpl in Hlen. lia. }
  destruct (decide (i < j)); [eapply (Hlt i j); eauto|eapply (Hlt j i); eauto; lia].
Qed.

End checks.
