(* ===== verification/TenantTask.v ===== *)
(** * Tenant tasks: the schema a message carries and the context it runs in

    Models src/tenants/celery/task.py ([headers_with_schema],
    [_schema_from_request], [TenantTask]), [CeleryApp.send_task] and the pool
    guard of src/tenants/celery/app.py, and the worker-local cache of
    src/tenants/celery/cache.py.  Times are microseconds. *)
From S2P Require Import Prelude PyStr Models PyExc World ResolveCache Routing RoutingFacts Beat.
Open Scope tenants_scope.

(** ** cache.py *)

Record _CacheEntry := mkCacheEntry { ce_value : TenantSnapshot; ce_expires_at : Z }.
Notation L1 := (gmap string _CacheEntry).

Definition _PURGE_AT : nat := 1024.

(** [SimpleCache.get]; [now] is read when the entry exists. *)
Definition l1_get (now : Z) (key : string) (m : L1) : option TenantSnapshot * L1 :=
  match m !! key with
  | None => (None, m)
  | Some item => if (ce_expires_at item <? now)%Z then (None, delete key m) else (Some (ce_value item), m)
  end.

(** [SimpleCache.set]: [now] for the purge, [now'] for the new entry. *)
Definition l1_set (now now' : Z) (key : string) (value : TenantSnapshot) (expire_us : Z) (m : L1) : L1 :=
  let items := if _PURGE_AT <=? size m
               then filter (λ kv, ¬ (ce_expires_at kv.2 < now)%Z) m else m in
  <[key := mkCacheEntry value (now' + expire_us)]> items.

(** ** app.py *)

Definition _UNSAFE_POOLS : list string := ["gevent"; "eventlet"].

(** [(options or {}).get("pool") or getattr(conf, "worker_pool", None) or "prefork"]. *)
Definition truthy_str (o : option string) : option string :=
  match o with Some s => if String.eqb s "" then None else Some s | None => None end.

Definition _guard_worker_pool (options_pool conf_pool : option string) : res exn unit :=
  let pool := default (default "prefork" (truthy_str conf_pool)) (truthy_str options_pool) in
  if mem pool _UNSAFE_POOLS
  then Err (improperly ("Celery worker pool " +:+ py_repr pool +:+ " is unsafe for this project"))
  else Ok tt.

Section task.
Context `{Backend} `{TenantBackend} (cfg : Cfg).

(** ** Headers *)

Definition SCHEMA_HEADER : string := "_schema_name".

Definition headers_with_schema (headers : option Dict) (s : Ctx) : res exn Dict :=
  let d := default [] headers in
  match dget SCHEMA_HEADER d with
  | Some _ => Ok d
  | None => name <-? current_schema_name s ;; Ok (dset SCHEMA_HEADER (JStr name) d)
  end.

(** The request of a task: its message headers and the merged request; names
    are strings or null. *)
Record Request := mkRequest { rq_headers : option Dict; rq_schema_name : option string }.

Definition as_name (v : JVal) : option string := match v with JStr s => Some s | _ => None end.

Definition _schema_from_request (rq : Request) : option string :=
  match rq_headers rq with
  | Some d => match dget SCHEMA_HEADER d with Some v => as_name v | None => rq_schema_name rq end
  | None => rq_schema_name rq
  end.

(** ** Resolving the schema on the worker *)

(** [rows]: what the query on default.public returns, or how it fails. *)
Definition _db_get (rows : res exn (list TenantObj)) (schema_name : string) : res exn TenantSnapshot :=
  l <-? rows ;;
  match filter (λ t, o_schema t = schema_name) l with
  | t :: _ => Ok (capture (ARow t))
  | [] => Err (simple_exn DoesNotExist "DoesNotExist" "Tenant matching query does not exist.")
  end.

(** [clk]: the clock readings of [get], of the purge and of [set]. *)
Definition get_tenant_for_schema (c : C) (rows : res exn (list TenantObj)) (l1_us : Z) (clk : Z * Z * Z)
    (schema_name : string) (m : L1) : res exn TenantSnapshot * L1 :=
  let fallback :=
    let '(hit, m) := l1_get clk.1.1 schema_name m in
    match hit with
    | Some t => (Ok t, m)
    | None =>
        match _db_get rows schema_name with
        | Err e => (Err e, m)
        | Ok t => (Ok t, l1_set clk.1.2 clk.2 schema_name t l1_us m)
        end
    end in
  if enabled cfg then
    match get_schema_snapshot schema_name c with
    | Err e => (Err e, m)
    | Ok LHold => (_db_get rows schema_name, m)
    | Ok (LSnap s) => (Ok s, m)
    | Ok _ => fallback
    end
  else fallback.

(** [int(app.conf.task_tenant_cache_seconds or 0)] unless the class sets its own. *)
Definition _l1_seconds (tenant_cache_seconds : option Z) (conf_seconds : option Z) : Z :=
  match tenant_cache_seconds with Some s => s | None => default 0%Z conf_seconds end.

(** ** TenantTask.__call__ *)

Record Worker := mkWorker { wk_ctx : Ctx; wk_l1 : L1 }.

Definition in_ctx {A} (body : Body A) (w : Worker) : res exn A * Worker :=
  let '(r, s) := body (wk_ctx w) in (r, mkWorker s (wk_l1 w)).

Definition task_call {A} (c : C) (rows : res exn (list TenantObj)) (l1_us : Z) (clk : Z * Z * Z)
    (rq : Request) (run : Body A) (w : Worker) : res exn A * Worker :=
  match truthy_str (_schema_from_request rq) with
  | None => in_ctx run w
  | Some schema =>
      if String.eqb schema PUBLIC then in_ctx (use_alias "default" run) w
      else
        let '(t, m) := get_tenant_for_schema c rows l1_us clk schema (wk_l1 w) in
        let w := mkWorker (wk_ctx w) m in
        match t with
        | Err e => (Err e, w)
        | Ok tenant => in_ctx (tenant_context tenant None run) w
        end
  end.

(** ** The worker-local cache *)

(** An entry set at [now'] for [ttl] is returned until
    [now' + ttl] and gone afterwards, whatever the purge did; setting one key
    loses no other live entry. *)
Theorem l1_cache_correct now now' key v ttl m t k :
  (l1_get t key (l1_set now now' key v ttl m)).1 = (if (now' + ttl <? t)%Z then None else Some v)
  ∧ (k ≠ key → (now ≤ t)%Z → (l1_get t k (l1_set now now' key v ttl m)).1 = (l1_get t k m).1).
Proof.
  unfold l1_get, l1_set. split.
  - rewrite lookup_insert_eq. simpl. by case_match.
  - intros Hk Ht. rewrite lookup_insert_ne by done. destruct (_PURGE_AT <=? size m); [|by repeat case_match].
    rewrite map_lookup_filter. destruct (m !! k) as [e|]; simpl; [|done].
    case_guard as Hl; simpl; [by case_match|]. destruct (ce_expires_at e <? t)%Z eqn:E; [done|]. bool_props. lia.
Qed.

(** ** Resolution *)

Definition cache_honest (c : C) (n : string) : Prop :=
  ∀ s, get_schema_snapshot n c = Ok (LSnap s) → ts_schema_name s = n.
Definition l1_honest (m : L1) : Prop := map_Forall (λ n e, ts_schema_name (ce_value e) = n) m.

Lemma db_get_schema rows n t : _db_get rows n = Ok t → ts_schema_name t = n.
Proof.
  unfold _db_get. rewrite res_bind_ok. intros (l & _ & Hf).
  destruct (filter (λ t, o_schema t = n) l) as [|x l'] eqn:E; [done|]. simplify_eq/=.
  assert (x ∈ filter (λ t, o_schema t = n) l) as [Hx _]%list_elem_of_filter by (rewrite E; left). done.
Qed.

Lemma l1_get_honest now n m : l1_honest m →
  l1_honest (l1_get now n m).2 ∧ ∀ t, (l1_get now n m).1 = Some t → ts_schema_name t = n.
Proof.
  intros Hm. unfold l1_get. destruct (m !! n) as [e|] eqn:E; [|done].
  case_match; simpl; [split; [by apply map_Forall_delete|done]|].
  split; [done|]. intros t [= <-]. by apply (Hm n e).
Qed.

Lemma l1_set_honest now now' n t us m : l1_honest m → ts_schema_name t = n → l1_honest (l1_set now now' n t us m).
Proof.
  intros Hm Ht. unfold l1_set. apply map_Forall_insert_2; [done|].
  case_match; [|done]. intros k e [Hk _]%map_lookup_filter_Some. by apply Hm.
Qed.

(** Every tier answers with a tenant of the schema asked for. *)
Lemma get_tenant_for_schema_honest c rows us clk n m :
  cache_honest c n → l1_honest m →
  l1_honest (get_tenant_for_schema c rows us clk n m).2
  ∧ ∀ t, (get_tenant_for_schema c rows us clk n m).1 = Ok t → ts_schema_name t = n.
Proof.
  intros Hc Hm. unfold get_tenant_for_schema.
  destruct (l1_get_honest clk.1.1 n m Hm) as [Hm' Hhit].
  set (fallback := let '(hit, m0) := l1_get clk.1.1 n m in _).
  assert (l1_honest fallback.2 ∧ ∀ t, fallback.1 = Ok t → ts_schema_name t = n) as Hfb.
  { unfold fallback. destruct (l1_get clk.1.1 n m) as [[t0|] m0]; simpl in *.
    - split; [done|]. intros t [= <-]. by apply Hhit.
    - destruct (_db_get rows n) as [t0|e] eqn:E; simpl; [|done].
      split; [apply l1_set_honest; [done|by eapply db_get_schema]|]. intros t [= <-]. by eapply db_get_schema. }
  destruct (enabled cfg); [|done].
  destruct (get_schema_snapshot n c) as [[]|e] eqn:E; simpl; try done; (split; [done|]); intros t.
  - apply db_get_schema.
  - intros [= <-]. by apply Hc.
Qed.

(** While the shared cache is up the worker routes on it:
    a positive entry is the answer, an invalidated one sends the worker to the
    database, and in both cases the local cache is neither read nor written; only
    a missing entry falls back to a local entry that has not expired and then to
    the database, whose answer is kept locally. *)
Theorem task_tenant_tiers c rows us clk n m look :
  enabled cfg = true → get_schema_snapshot n c = Ok look →
  match look with
  | LSnap s => get_tenant_for_schema c rows us clk n m = (Ok s, m)
  | LHold => get_tenant_for_schema c rows us clk n m = (_db_get rows n, m)
  | _ =>
      let '(r, m') := get_tenant_for_schema c rows us clk n m in
      match m !! n with
      | Some e => if (ce_expires_at e <? clk.1.1)%Z then r = _db_get rows n else r = Ok (ce_value e) ∧ m' = m
      | None => r = _db_get rows n
      end
      ∧ (∀ t, r = Ok t → ce_value <$> m' !! n = Some t)
  end.
Proof.
  intros He Hl. unfold get_tenant_for_schema. rewrite He, Hl.
  destruct look; try done; unfold l1_get;
    (destruct (m !! n) as [e|] eqn:Hm; simpl; [destruct (ce_expires_at e <? clk.1.1)%Z|];
     [destruct (_db_get rows n) as [t|]; simpl; split; try done; intros ? [= <-]; unfold l1_set; by rewrite lookup_insert_eq
     |split; [done|]; intros t [= <-]; by rewrite Hm
     |destruct (_db_get rows n) as [t|]; simpl; split; try done; intros ? [= <-]; unfold l1_set; by rewrite lookup_insert_eq]).
Qed.

(** ** Sent here, run there *)

Lemma stamped_header headers s d :
  headers_with_schema headers s = Ok d →
  match dget SCHEMA_HEADER (default [] headers) with
  | Some v => d = default [] headers
  | None => ∃ n, current_schema_name s = Ok n ∧ dget SCHEMA_HEADER d = Some (JStr n)
            ∧ ∀ k, k ≠ SCHEMA_HEADER → dget k d = dget k (default [] headers)
  end.
Proof.
  unfold headers_with_schema. destruct (dget SCHEMA_HEADER (default [] headers)) as [v|]; [by intros [= <-]|].
  rewrite res_bind_ok. intros (n & Hn & [= <-]). exists n. split; [done|]. split.
  - by rewrite dget_dset, String.eqb_refl.
  - intros k Hk. rewrite dget_dset. by apply String.eqb_neq in Hk as ->.
Qed.

(** C27: a task sent from a tenant's context, with no schema
    of its own in its headers, runs on the worker in that tenant's schema, on the
    connection of the shard the worker resolved, and the worker's own context is
    what it was afterwards however the task ended; if the schema cannot be
    resolved the task does not run. *)
Theorem task_runs_where_sent {A} c rows us clk headers sender d (n : string) (run : Body A) w :
  dget SCHEMA_HEADER (default [] headers) = None →
  headers_with_schema headers sender = Ok d →
  current_schema_name sender = Ok n → n ≠ PUBLIC → n ≠ "" →
  cache_honest c n → l1_honest (wk_l1 w) →
  let '(r, w') := task_call c rows us clk (mkRequest (Some d) None) run w in
  match (get_tenant_for_schema c rows us clk n (wk_l1 w)).1 with
  | Err e => r = Err e ∧ wk_ctx w' = wk_ctx w
  | Ok t =>
      let alias := hs_alias (ts_shard t) in
      match cx_conns (wk_ctx w) !! alias with
      | None => r = Err (no_connection alias) ∧ wk_ctx w' = wk_ctx w
      | Some conn =>
          ∃ s1, current_schema_name s1 = Ok n ∧ bound_alias s1 = Some alias ∧ r = (run s1).1
            ∧ cx_current (wk_ctx w') = cx_current (wk_ctx w)
            ∧ ∀ conn', cx_conns (wk_ctx w') !! alias = Some conn' → tc_schema conn' = restored_schema conn
      end
  end
  ∧ l1_honest (wk_l1 w').
Proof.
  intros Hno Hd Hn Hpub Hne Hc Hm. pose proof (stamped_header _ _ _ Hd) as Hst. rewrite Hno in Hst.
  destruct Hst as (n' & Hn' & Hget & _). rewrite Hn in Hn'. injection Hn' as <-.
  destruct (get_tenant_for_schema_honest c rows us clk n (wk_l1 w) Hc Hm) as [Hm' Ht].
  unfold task_call, _schema_from_request. simpl. rewrite Hget. simpl.
  apply String.eqb_neq in Hne. rewrite Hne. apply String.eqb_neq in Hpub as ->.
  destruct (get_tenant_for_schema c rows us clk n (wk_l1 w)) as [[t|e] m']; simpl in *; [|done].
  specialize (Ht t eq_refl). unfold in_ctx, tenant_context. simpl.
  destruct (cx_conns (wk_ctx w) !! hs_alias (ts_shard t)) as [conn|] eqn:Hconn.
  - rewrite (switch_out _ _ _ _ _ Hconn). cbn zeta. simpl. split; [|done].
    eexists. split; [|split; [|split; [reflexivity|split; [done|]]]]; [|done|].
    + unfold current_schema_name. simpl. rewrite lookup_alter_eq, Hconn. simpl.
      rewrite tc_schema_set_tenant. simpl. by rewrite Ht, Hne.
    + intros conn'. rewrite lookup_alter_eq, fmap_Some. intros (c1 & _ & ->). unfold restored_schema.
      destruct (tc_tenant conn); [apply tc_schema_set_tenant|apply tc_schema_set_public].
  - unfold _switch. rewrite Hconn. done.
Qed.

End task.
