(* ===== verification/Fanout.v ===== *)
(** * Fan-out: one beat tick becomes one task per due tenant

    Models src/tenants/celery/dispatch.py ([_wave_lock], [_due_by_tenant_tz],
    [fanout_dispatch], [_fan_out], [sub_dispatch]) and the tenant queries of
    src/commons/platform/tenancy.py.  Every call that leaves the process (lock,
    database, broker) is a round trip that others may precede and that may fail. *)
From Stdlib Require Import QArith.
From S2P Require Import Prelude PyStr Models PyExc World ResolveCache Registry Routing TaskRun Beat.
From S2P Require Import TenantTask.
Open Scope tenants_scope.

(** What the code relies on of [zoneinfo] and [croniter]: [get_prev] is the
    latest occurrence strictly before the given instant. *)
Class CronLib := {
  TZ : Type;
  zone_info : string → res exn TZ;
  occurs : string → TZ → Z → Prop;
  get_prev : string → TZ → Z → res exn Z;
  get_prev_latest cron tz now t : get_prev cron tz now = Ok t →
    occurs cron tz t ∧ (t < now)%Z ∧ ∀ u, occurs cron tz u → (u < now)%Z → (u ≤ t)%Z;
}.

(** ** Messages *)

(** A [sub_dispatch] message on the [fanout] queue. *)
Record SubMsg := mkSubMsg {
  sm_task_name : string;
  sm_schemas : list string;
  sm_task_args : option (list JVal);
  sm_task_kwargs : option Dict;
  sm_task_options : option Dict;
  sm_run_ts : option Z;
  sm_args_sig : option string;
}.

(** A task message as the worker receives it. *)
Record TaskMsg := mkTaskMsg {
  tm_name : string;
  tm_args : list JVal;
  tm_kwargs : Dict;
  tm_headers : Dict;
  tm_options : Dict;
}.

(** The call beat makes. *)
Record Call := mkCall {
  cl_task_name : string;
  cl_scope : string;
  cl_cron : option string;
  cl_grace : option Q;
  cl_task_args : option (list JVal);
  cl_task_kwargs : option Dict;
  cl_task_options : option Dict;
  cl_batch_size : option Z;
}.

(** [fanout_dispatch( **disp)]. *)
Definition call_of (kw : Disp) : Call :=
  mkCall (dp_task_name kw) (dp_scope kw) (dp_cron kw) (inject_Z <$> dp_grace kw)
    (Some (dp_task_args kw)) (Some (dp_task_kwargs kw)) (Some (dp_task_options kw)) None.

Inductive LogLine :=
| LogInvalidTz (schema : string) | LogDropped (schemas : list string) | LogOverlap
| LogWave (tenants : nat) (batches : Z) | LogLockExpired | LogReleaseFailed
| LogSendFailed (schema : string) | LogNotRetryable.

Section fanout.
Context `{RawRedis} `{TenantBackend} `{CronLib}.
Context (digest : list JVal → string) (tb : gmap string Z) (cx : Ctx).

(** ** State and round trips *)

Record FShared := mkFShared {
  fh_redis : R;                 (** the [beat_lock] Redis *)
  fh_tenants : list Tenant;     (** the Tenant table of default.public *)
  fh_runs : TaskRun;
  fh_queue : list SubMsg;
  fh_sent : list TaskMsg;
}.

Record FEvent := mkFEvent { fe_env : FShared → FShared; fe_fault : option exn; fe_applied : bool }.

Record FS := mkFS {
  fs_shared : FShared;
  fs_script : list FEvent;
  fs_clock : list Z;            (** readings of [timezone.now()] to come *)
  fs_log : list LogLine;
}.

Definition fupd (f : FShared → FShared) (s : FS) : FS :=
  mkFS (f (fs_shared s)) (fs_script s) (fs_clock s) (fs_log s).

Definition set_redis r h := mkFShared r (fh_tenants h) (fh_runs h) (fh_queue h) (fh_sent h).
Definition set_runs f h := mkFShared (fh_redis h) (fh_tenants h) (f (fh_runs h)) (fh_queue h) (fh_sent h).
Definition set_queue f h := mkFShared (fh_redis h) (fh_tenants h) (fh_runs h) (f (fh_queue h)) (fh_sent h).
Definition add_sent m h := mkFShared (fh_redis h) (fh_tenants h) (fh_runs h) (fh_queue h) (fh_sent h ++ [m]).

Definition FM (A : Type) : Type := FS → res exn A * FS.
Definition fret {A} (a : A) : FM A := λ s, (Ok a, s).
Definition fraise {A} (e : exn) : FM A := λ s, (Err e, s).
Definition flift {A} (r : res exn A) : FM A := λ s, (r, s).
Definition fbind {A B} (m : FM A) (k : A → FM B) : FM B := λ s,
  match m s with (Ok a, s') => k a s' | (Err e, s') => (Err e, s') end.
Definition fcatch {A} (p : exn → bool) (m : FM A) (h : exn → FM A) : FM A := λ s,
  match m s with (Err e, s') => if p e then h e s' else (Err e, s') | ok => ok end.
Definition ffinally {A} (m : FM A) (f : FM unit) : FM A := λ s,
  match m s with
  | (r, s') => match f s' with (Ok _, s2) => (r, s2) | (Err e2, s2) => (Err e2, s2) end
  end.
Definition flog (l : LogLine) : FM unit := λ s, (Ok tt, mkFS (fs_shared s) (fs_script s) (fs_clock s) (fs_log s ++ [l])).

Definition ftrip {A} (f : FShared → res exn A * FShared) : FM A := λ s,
  match fs_script s with
  | [] => let '(r, h) := f (fs_shared s) in (r, fupd (λ _, h) s)
  | ev :: l =>
      let s := mkFS (fe_env ev (fs_shared s)) l (fs_clock s) (fs_log s) in
      let '(r, h) := f (fs_shared s) in
      match fe_fault ev with
      | None => (r, fupd (λ _, h) s)
      | Some e => (Err e, if fe_applied ev then fupd (λ _, h) s else s)
      end
  end.

Definition now_ : FM Z := λ s,
  match fs_clock s with
  | [] => (Ok 0%Z, s)
  | t :: l => (Ok t, mkFS (fs_shared s) (fs_script s) l (fs_log s))
  end.

Definition redis_cmd (c : Cmd) : FM Reply := ftrip (λ h,
  let '(rep, r) := r_exec c (fh_redis h) in
  (match rep with Some p => Ok p | None => Err (redis_error "WRONGTYPE or no such key") end, set_redis r h)).

End fanout.

Notation "x <-@ m ;; k" := (fbind m (λ x, k))
  (at level 60, m at next level, right associativity) : tenants_scope.
Notation "m @;; k" := (fbind m (λ _, k))
  (at level 60, right associativity) : tenants_scope.

Section dispatch.
Context `{RawRedis} `{TenantBackend} `{CronLib}.
Context (digest : list JVal → string) (tb : gmap string Z) (cx : Ctx).

(** ** Target tenants (tenancy.py) *)

Definition targetable (t : Tenant) : bool :=
  bool_decide (t_status t = ACTIVE) && negb (String.eqb (t_schema_name t) PUBLIC).

Definition active_target_schemas (l : list Tenant) : list string :=
  t_schema_name <$> filter (λ t, targetable t = true) l.

Definition active_tenants_with_tz (l : list Tenant) : list (string * string) :=
  omap (λ t, if targetable t then (t_schema_name t,.) <$> t_timezone t else None) l.

(** ** The due-check *)

Inductive Occurrence := BadZone | AlreadyRun | IsDue | IsDropped | TooLate.

Definition within (now t_fire : Z) (bound : Q) : bool :=
  Qle_bool (inject_Z (now - t_fire)) (bound * 1000000).

Definition is_zone_error (e : exn) : bool :=
  match eo_class (x_obj e) with ZoneError => true | _ => false end.

(** One iteration of the loop of [_due_by_tenant_tz]. *)
Definition occurrence (cron : string) (now : Z) (grace : Q) (last : gmap string Z) (schema tzname : string) :
    res exn Occurrence :=
  match zone_info tzname with
  | Err e => if is_zone_error e then Ok BadZone else Err e
  | Ok tz =>
      t_fire <-? get_prev cron tz now ;;
      let already := match last !! schema with Some last_run => (t_fire <=? last_run)%Z | None => false end in
      if already then Ok AlreadyRun
      else if within now t_fire grace then Ok IsDue
      else if bool_decide (is_Some (last !! schema)) && within now t_fire (2 * grace) then Ok IsDropped
      else Ok TooLate
  end.

Fixpoint due_loop (cron : string) (now : Z) (grace : Q) (last : gmap string Z) (rows : list (string * string))
    (due dropped : list string) : FM (list string * list string) :=
  match rows with
  | [] => fret (due, dropped)
  | (schema, tzname) :: rows' =>
      o <-@ flift (occurrence cron now grace last schema tzname) ;;
      match o with
      | BadZone => flog (LogInvalidTz schema) @;; due_loop cron now grace last rows' due dropped
      | IsDue => due_loop cron now grace last rows' (due ++ [schema]) dropped
      | IsDropped => due_loop cron now grace last rows' due (dropped ++ [schema])
      | AlreadyRun | TooLate => due_loop cron now grace last rows' due dropped
      end
  end.

Definition _due_by_tenant_tz (task_name args_sig cron : string) (now : Z) (grace : Q) : FM (list string) :=
  last <-@ ftrip (λ h, (Ok (load_map task_name args_sig (fh_runs h)), h)) ;;
  rows <-@ ftrip (λ h, (Ok (active_tenants_with_tz (fh_tenants h)), h)) ;;
  out <-@ due_loop cron now grace last rows [] [] ;;
  (match out.2 with [] => fret tt | dropped => flog (LogDropped dropped) end) @;;
  fret out.1.

(** ** The wave *)

(** [range(0, n, step)]. *)
Definition py_range (n : nat) (step : Z) : res exn (list nat) :=
  if (step =? 0)%Z then Err (simple_exn OtherException "ValueError" "range() arg 3 must not be zero")
  else if (step <? 0)%Z then Ok []
  else let k := Z.to_nat step in Ok ((λ i, i * k) <$> seq 0 ((n + k - 1) / k)).

(** [sub_dispatch.delay(...)]. *)
Definition delay_sub (m : SubMsg) : FM unit := ftrip (λ h, (Ok tt, set_queue (λ q, q ++ [m]) h)).

Fixpoint delay_batches (mk : list string → SubMsg) (due : list string) (size : nat) (starts : list nat) : FM unit :=
  match starts with
  | [] => fret tt
  | i :: starts' => delay_sub (mk (take size (drop i due))) @;; delay_batches mk due size starts'
  end.

(** The batch size in force: [batch_size or beat_conf("BATCH_SIZE")]. *)
Definition batch_size_of (c : Call) : res exn Z :=
  match cl_batch_size c with
  | Some n => if (n =? 0)%Z then beat_conf tb "BATCH_SIZE" else Ok n
  | None => beat_conf tb "BATCH_SIZE"
  end.

Definition grace_of (c : Call) : res exn Q :=
  match cl_grace c with
  | Some g => Ok g
  | None => g <-? beat_conf tb "TZ_GRACE_SECONDS" ;; Ok (inject_Z g)
  end.

Definition sub_msg (c : Call) (args_sig : string) (run_ts : option Z) (schemas : list string) : SubMsg :=
  mkSubMsg (cl_task_name c) schemas (cl_task_args c) (cl_task_kwargs c) (cl_task_options c) run_ts (Some args_sig).

Definition _fan_out (c : Call) (args_sig : string) : FM nat :=
  batch_size <-@ flift (batch_size_of c) ;;
  targets <-@
    match truthy_str (cl_cron c) with
    | Some cron =>
        now <-@ now_ ;;
        grace <-@ flift (grace_of c) ;;
        due <-@ _due_by_tenant_tz (cl_task_name c) args_sig cron now grace ;;
        fret (due, Some now)
    | None =>
        due <-@ ftrip (λ h, (Ok (active_target_schemas (fh_tenants h)), h)) ;;
        fret (due, None)
    end ;;
  let '(due, run_ts) := targets in
  starts <-@ flift (py_range (length due) batch_size) ;;
  delay_batches (sub_msg c args_sig run_ts) due (Z.to_nat batch_size) starts @;;
  flog (LogWave (length due) ((Z.of_nat (length due) + batch_size - 1) / batch_size)%Z) @;;
  fret (length due).

(** [lock.release()]: [LockError] when the token is not ours any more. *)
Definition release (key token : string) : FM unit :=
  ok <-@ redis_cmd (UNLOCK key token) ;;
  if reply_true ok then fret tt else fraise lock_error.

Definition is_lock_error (e : exn) : bool :=
  match eo_class (x_obj e) with LockError => true | _ => false end.

Inductive WaveResult := Overlapping | FannedOut (n : nat).

(** [token]: the value the lock object draws when it acquires. *)
Definition fanout_dispatch (c : Call) (token : string) : FM WaveResult :=
  let args_sig := argsig digest (cl_task_args c) in
  let key := lock_key (cl_task_name c) args_sig in
  ttl <-@ flift (beat_conf tb "LOCK_SECONDS") ;;
  got <-@ redis_cmd (SETNX key token ttl) ;;
  if negb (reply_true got) then flog LogOverlap @;; fret Overlapping
  else
    ffinally (n <-@ _fan_out c args_sig ;; fret (FannedOut n))
      (fcatch is_redis_error
         (fcatch is_lock_error (release key token) (λ _, flog LogLockExpired))
         (λ _, flog LogReleaseFailed)).

(** ** sub_dispatch *)

Definition type_error (msg : string) : exn := simple_exn OtherException "TypeError" msg.

(** The names [send_task(name, args=, kwargs=, headers=, **options)] binds. *)
Definition SEND_TASK_PARAMS : list string := ["self"; "name"; "args"; "kwargs"; "headers"].

(** [CeleryApp.send_task]. *)
Definition send_task (name : string) (args : list JVal) (kwargs headers options : Dict) : FM unit :=
  stamped <-@ flift (headers_with_schema (Some headers) cx) ;;
  ftrip (λ h, (Ok tt, add_sent (mkTaskMsg name args kwargs stamped options) h)).

(** [options.pop("headers", None) or {}]. *)
Definition caller_headers (options : Dict) : JVal :=
  match dget "headers" options with
  | Some v => if jtruthy v then v else JDict []
  | None => JDict []
  end.

Definition send_one (m : SubMsg) (schema : string) : FM unit :=
  let options := default [] (sm_task_options m) in
  headers <-@
    match caller_headers options with
    | JDict d => fret (dset SCHEMA_HEADER (JStr schema) d)
    | _ => fraise (type_error "object is not a mapping")
    end ;;
  if existsb (λ kv, mem kv.1 SEND_TASK_PARAMS) (dpop "headers" options)
  then fraise (type_error "send_task() got multiple values for keyword argument")
  else send_task (sm_task_name m) (default [] (sm_task_args m)) (default [] (sm_task_kwargs m)) headers
         (dpop "headers" options).

Definition is_broker_error (e : exn) : bool :=
  match eo_class (x_obj e) with BrokerOperationalError => true | _ => false end.

Fixpoint send_loop (m : SubMsg) (schemas sent : list string) : FM (list string) :=
  match schemas with
  | [] => fret sent
  | schema :: schemas' =>
      ok <-@ fcatch is_exception
               (fcatch is_broker_error (send_one m schema @;; fret true)
                  (λ _, flog (LogSendFailed schema) @;; fret false))
               (λ e, flog LogNotRetryable @;; fraise e) ;;
      send_loop m schemas' (if ok : bool then sent ++ [schema] else sent)
  end.

(** The statements of [TaskRun.mark_ran], one round trip each. *)
Fixpoint run_stmts (l : list Stmt) : FM unit :=
  match l with
  | [] => fret tt
  | st :: l' => ftrip (λ h, (Ok tt, set_runs (λ t, run_stmt t st) h)) @;; run_stmts l'
  end.

Definition sig_of (m : SubMsg) : string := default (argsig digest (sm_task_args m)) (sm_args_sig m).

(** The number sent and the number requested. *)
Definition sub_dispatch (m : SubMsg) : FM (nat * nat) :=
  sent <-@ send_loop m (sm_schemas m) [] ;;
  (match sm_run_ts m, sent with
   | Some run_ts, _ :: _ => run_stmts (mark_ran (mkWave (sm_task_name m) (sig_of m) sent run_ts))
   | _, _ => fret tt
   end) @;;
  fret (length sent, length (sm_schemas m)).

(** Workers empty the [fanout] queue. *)
Fixpoint run_subs (l : list SubMsg) : FM unit :=
  match l with
  | [] => fret tt
  | m :: l' => sub_dispatch m @;; run_subs l'
  end.

Definition drain : FM unit := λ s,
  run_subs (fh_queue (fs_shared s)) (fupd (set_queue (λ _, [])) s).

End dispatch.
