(* ===== verification/FanoutFacts.v ===== *)
(** * Properties of the fan-out *)
From S2P Require Import Prelude PyStr Models PyExc World ResolveCache Registry Routing TaskRun Beat TenantTask Fanout.
From Stdlib Require Import QArith.
From Stdlib Require Import QArith Qround Lqa.
Local Open Scope nat_scope.
Open Scope tenants_scope.

Section facts.
Context `{RawRedis} `{TenantBackend} `{CronLib}.
Context (digest : list JVal → string) (tb : gmap string Z) (cx : Ctx).

Notation runs s := (fh_runs (fs_shared s)).
Notation sent s := (fh_sent (fs_shared s)).
Notation queue s := (fh_queue (fs_shared s)).
Notation keys s := (r_keys (fh_redis (fs_shared s))).

(** ** The monad *)

Lemma fbind_ok {A B} (m : FM A) (k : A → FM B) s a s' : m s = (Ok a, s') → fbind m k s = k a s'.
Proof. unfold fbind. by intros ->. Qed.

Lemma fbind_inv {A B} (m : FM A) (k : A → FM B) s b s' :
  fbind m k s = (Ok b, s') → ∃ a s1, m s = (Ok a, s1) ∧ k a s1 = (Ok b, s').
Proof. unfold fbind. destruct (m s) as [[a|e] s1]; [eauto|done]. Qed.

(** A state in which nobody interferes. *)
Lemma ftrip_calm {A} (f : FShared → res exn A * FShared) s :
  fs_script s = [] → ftrip f s = ((f (fs_shared s)).1, fupd (λ _, (f (fs_shared s)).2) s).
Proof. unfold ftrip. intros ->. by destruct (f (fs_shared s)). Qed.

(** [s'] differs from [s] in the log and the clock only. *)
Definition quiet (s s' : FS) : Prop := fs_shared s' = fs_shared s ∧ fs_script s' = fs_script s.

#[local] Instance quiet_preorder : PreOrder quiet.
Proof. split; [done|]. intros ??? [] []. split; congruence. Qed.

(** ** The due-check *)

(** The schemas of the rows whose occurrence is classified [o]. *)
Definition classed (cron : string) (now : Z) (grace : Q) (last : gmap string Z) (p : Occurrence → bool)
    (rows : list (string * string)) : list string :=
  omap (λ row, match occurrence cron now grace last row.1 row.2 with
               | Ok o => if p o then Some row.1 else None
               | Err _ => None
               end) rows.

Definition is_due (o : Occurrence) : bool := match o with IsDue => true | _ => false end.
Definition is_dropped (o : Occurrence) : bool := match o with IsDropped => true | _ => false end.

Lemma due_loop_spec cron now grace last rows due dropped s :
  Forall (λ row, is_ok (occurrence cron now grace last row.1 row.2) = true) rows →
  ∃ s', due_loop cron now grace last rows due dropped s
    = (Ok (due ++ classed cron now grace last is_due rows, dropped ++ classed cron now grace last is_dropped rows), s')
    ∧ quiet s s'.
Proof.
  intros Hok. revert due dropped s. induction Hok as [|[schema tzname] rows Ho Hok IH]; intros due dropped s; simpl in *.
  - exists s. by rewrite !app_nil_r.
  - unfold fbind at 1, flift. destruct (occurrence cron now grace last schema tzname) as [o|e]; [|done].
    destruct o; simpl; try (by apply IH).
    + edestruct (IH due dropped) as (s2 & E2 & Q2). exists s2. split; [exact E2|]. by etrans; [|exact Q2].
    + destruct (IH (due ++ [schema]) dropped s) as (s2 & E2 & Q2). exists s2. by rewrite <- app_assoc in E2.
    + destruct (IH due (dropped ++ [schema]) s) as (s2 & E2 & Q2). exists s2. by rewrite <- app_assoc in E2.
Qed.

(** What the libraries do on the names and cron fields in use: unknown zones
    raise what the code catches, and every cron has an earlier occurrence. *)
Definition lib_ok (cron : string) (now : Z) : Prop :=
  (∀ name e, zone_info name = Err e → is_zone_error e = true)
  ∧ (∀ tz, is_ok (get_prev cron tz now) = true).

Lemma occurrence_ok cron now grace last schema tzname :
  lib_ok cron now → is_ok (occurrence cron now grace last schema tzname) = true.
Proof.
  intros [Hz Hp]. unfold occurrence. destruct (zone_info tzname) as [tz|e] eqn:E; [|by rewrite (Hz _ _ E)].
  specialize (Hp tz). destruct (get_prev cron tz now) as [t|e]; [|done]. simpl. by repeat case_match.
Qed.

Definition due_of (task args_sig cron : string) (now : Z) (grace : Q) (h : FShared) : list string :=
  classed cron now grace (load_map task args_sig (fh_runs h)) is_due (active_tenants_with_tz (fh_tenants h)).

Lemma due_calm task args_sig cron now grace s :
  fs_script s = [] → lib_ok cron now →
  ∃ s', _due_by_tenant_tz task args_sig cron now grace s = (Ok (due_of task args_sig cron now grace (fs_shared s)), s')
    ∧ quiet s s'.
Proof.
  intros Hs Hl. unfold _due_by_tenant_tz.
  erewrite fbind_ok by by rewrite ftrip_calm. cbn [fst snd].
  erewrite fbind_ok by (rewrite ftrip_calm; done). cbn [fst snd].
  set (s1 := fupd _ _). set (last := load_map task args_sig (runs s)).
  destruct (due_loop_spec cron now grace last (active_tenants_with_tz (fh_tenants (fs_shared s))) [] [] s1)
    as (s2 & E2 & Q2); [apply Forall_forall; intros; by apply occurrence_ok|].
  change (fs_shared (fupd (λ _, fs_shared s) s)) with (fs_shared s).
  rewrite (fbind_ok _ _ _ _ _ E2). simpl. fold (due_of task args_sig cron now grace (fs_shared s)).
  assert (quiet s s2) as Q by (destruct Q2 as [Q21 Q22]; split; [by rewrite Q21|by rewrite Q22]).
  destruct (classed _ _ _ _ is_dropped _) as [|d dr]; eexists; (split; [reflexivity|]); by destruct Q.
Qed.

(** [t] is the latest occurrence before [now]. *)
Definition latest_before (cron : string) (tz : TZ) (now t : Z) : Prop :=
  occurs cron tz t ∧ (t < now)%Z ∧ ∀ u, occurs cron tz u → (u < now)%Z → (u ≤ t)%Z.

Lemma get_prev_iff cron tz now t :
  is_ok (get_prev cron tz now) = true → get_prev cron tz now = Ok t ↔ latest_before cron tz now t.
Proof.
  intros Hok. split; [apply get_prev_latest|]. intros (Ho & Hlt & Hmax).
  destruct (get_prev cron tz now) as [t'|e] eqn:E; [|done]. apply get_prev_latest in E as (Ho' & Hlt' & Hmax').
  f_equal. specialize (Hmax t' Ho' Hlt'). specialize (Hmax' t Ho Hlt). lia.
Qed.

Lemma is_due_iff cron now grace last schema tzname :
  lib_ok cron now →
  occurrence cron now grace last schema tzname = Ok IsDue ↔
  ∃ tz t, zone_info tzname = Ok tz ∧ latest_before cron tz now t
    ∧ (∀ r, last !! schema = Some r → (r < t)%Z) ∧ within now t grace = true.
Proof.
  intros [Hz Hp]. unfold occurrence. destruct (zone_info tzname) as [tz|e] eqn:E.
  2: { rewrite (Hz _ _ E). split; [done|]. by intros (? & ? & ? & _). }
  specialize (Hp tz). rewrite res_bind_ok. split.
  - intros (t & Hg & Hr). exists tz, t. split; [done|]. split; [by apply get_prev_iff in Hg|].
    destruct (last !! schema) as [r|] eqn:El; [destruct (t <=? r)%Z eqn:Er; [done|]|];
      (destruct (within now t grace) eqn:Ew; [|by case_match]); (split; [|done]); [|done].
    intros ? [= <-]. bool_props. lia.
  - intros (tz' & t & [= <-] & Hlb & Hlast & Hw). exists t. split; [by apply get_prev_iff|]. rewrite Hw.
    destruct (last !! schema) as [r|] eqn:El; [|done].
    destruct (t <=? r)%Z eqn:Er; [|done]. bool_props. specialize (Hlast r eq_refl). lia.
Qed.

Lemma elem_of_tz_tenants l schema tzname :
  (schema, tzname) ∈ active_tenants_with_tz l ↔
  ∃ t, t ∈ l ∧ t_schema_name t = schema ∧ t_status t = ACTIVE ∧ schema ≠ PUBLIC ∧ t_timezone t = Some tzname.
Proof.
  unfold active_tenants_with_tz, targetable. rewrite list_elem_of_omap. split.
  - intros (t & Ht & Hx). destruct (bool_decide (t_status t = ACTIVE) && _) eqn:E; [|done]. bool_props.
    apply fmap_Some in Hx as (tz & Htz & [= -> ->]). by exists t.
  - intros (t & Ht & <- & Hst & Hp & Htz). exists t. split; [done|].
    rewrite bool_decide_true by done. apply String.eqb_neq in Hp as ->. simpl. by rewrite Htz.
Qed.

(** With nobody interfering the due-check returns exactly the
    schemas of ACTIVE non-public tenants with a known time zone whose latest
    occurrence before [now] is newer than their watermark and no older than the
    grace, and it changes nothing. *)
Theorem due_exact task args_sig cron now grace s :
  fs_script s = [] → lib_ok cron now →
  ∃ due s', _due_by_tenant_tz task args_sig cron now grace s = (Ok due, s')
    ∧ fs_shared s' = fs_shared s
    ∧ ∀ schema, schema ∈ due ↔
        ∃ t tzname tz u, t ∈ fh_tenants (fs_shared s) ∧ t_schema_name t = schema ∧ t_status t = ACTIVE
          ∧ schema ≠ PUBLIC ∧ t_timezone t = Some tzname ∧ zone_info tzname = Ok tz ∧ latest_before cron tz now u
          ∧ (∀ r, runs s !! mkRunKey schema task args_sig = Some r → (r < u)%Z) ∧ within now u grace = true.
Proof.
  intros Hs Hl. destruct (due_calm task args_sig cron now grace s Hs Hl) as (s' & E & Q & _).
  eexists _, s'. split; [exact E|]. split; [done|]. intros schema. unfold due_of, classed.
  rewrite list_elem_of_omap. split.
  - intros ([sc tzname] & Hin & Hx). simpl in Hx.
    destruct (occurrence _ _ _ _ sc tzname) as [[]|] eqn:Ho; simplify_eq/=.
    apply (is_due_iff _ _ _ _ _ _ Hl) in Ho as (tz & u & Hz & Hlb & Hlast & Hw).
    apply elem_of_tz_tenants in Hin as (t & ? & ? & ? & ? & ?). exists t, tzname, tz, u.
    rewrite load_map_lookup in Hlast. done.
  - intros (t & tzname & tz & u & Hin & Hn & Hst & Hp & Htz & Hz & Hlb & Hlast & Hw).
    exists (schema, tzname). split; [apply elem_of_tz_tenants; eauto 6|]. simpl.
    rewrite (proj2 (is_due_iff cron now grace _ schema tzname Hl)); [done|].
    exists tz, u. by rewrite load_map_lookup.
Qed.

(** ** Batches *)

Lemma slices_concat {A} k m (l : list A) :
  length l ≤ m * k → concat ((λ i, take k (drop (i * k) l)) <$> seq 0 m) = l.
Proof.
  revert l. induction m as [|m IH]; intros l Hl; [by destruct l; simpl in *; [|lia]|].
  rewrite <- cons_seq, fmap_cons. simpl. rewrite <- fmap_S_seq, <- list_fmap_compose.
  rewrite drop_0. etrans; [|apply (take_drop k l)]. f_equal. etrans; [|apply IH].
  - f_equal. apply list_fmap_ext. intros _ i _. simpl. by rewrite drop_drop.
  - rewrite length_drop. simpl in Hl. lia.
Qed.

(** The batches of a wave. *)
Definition batches (size : nat) (due : list string) : list (list string) :=
  (λ i, take size (drop i due)) <$> ((λ i, i * size) <$> seq 0 ((length due + size - 1) / size)).

Lemma batches_concat size due : 0 < size → concat (batches size due) = due.
Proof.
  intros Hs. unfold batches. rewrite <- list_fmap_compose. apply slices_concat.
  pose proof (Nat.div_mod (length due + size - 1) size ltac:(lia)) as Hd.
  pose proof (Nat.mod_upper_bound (length due + size - 1) size ltac:(lia)). nia.
Qed.

Lemma batches_size size due : Forall (λ b, length b ≤ size) (batches size due).
Proof. unfold batches. apply Forall_fmap, Forall_forall. intros i _. simpl. rewrite length_take. lia. Qed.

Lemma delay_batches_calm mk due size starts s :
  fs_script s = [] →
  delay_batches mk due size starts s
  = (Ok tt, fupd (set_queue (λ q, q ++ ((λ i, mk (take size (drop i due))) <$> starts))) s).
Proof.
  revert s. induction starts as [|i starts IH]; intros s Hs; simpl.
  - destruct s as [[] ? ? ?]. unfold fupd, set_queue. simpl. by rewrite app_nil_r.
  - unfold delay_sub. erewrite fbind_ok by by rewrite ftrip_calm. rewrite IH by done.
    unfold fupd, set_queue. simpl. by rewrite <- app_assoc.
Qed.

(** ** sub_dispatch *)

Definition headers_of (m : SubMsg) : option Dict :=
  match caller_headers (default [] (sm_task_options m)) with JDict d => Some d | _ => None end.

(** The options name no parameter of [send_task] and their headers are a dict. *)
Definition deliverable (m : SubMsg) : Prop :=
  existsb (λ kv, mem kv.1 SEND_TASK_PARAMS) (dpop "headers" (default [] (sm_task_options m))) = false
  ∧ is_Some (headers_of m).

Definition task_msg (m : SubMsg) (schema : string) : TaskMsg :=
  mkTaskMsg (sm_task_name m) (default [] (sm_task_args m)) (default [] (sm_task_kwargs m))
    (dset SCHEMA_HEADER (JStr schema) (default [] (headers_of m)))
    (dpop "headers" (default [] (sm_task_options m))).

Lemma send_one_eq m schema :
  deliverable m →
  send_one cx m schema = ftrip (λ h, (Ok tt, add_sent (task_msg m schema) h)).
Proof.
  intros [Ho [d Hd]]. unfold send_one, headers_of, task_msg, headers_of in *.
  destruct (caller_headers _); simplify_eq. unfold fbind at 1, fret. rewrite Ho.
  unfold send_task, headers_with_schema. simpl. by rewrite dget_dset, String.eqb_refl.
Qed.

Definition set_sent f (h : FShared) := mkFShared (fh_redis h) (fh_tenants h) (fh_runs h) (fh_queue h) (f (fh_sent h)).

Lemma send_loop_calm m schemas acc s :
  fs_script s = [] → deliverable m →
  send_loop cx m schemas acc s = (Ok (acc ++ schemas), fupd (set_sent (λ l, l ++ (task_msg m <$> schemas))) s).
Proof.
  intros Hs Hm. revert acc s Hs. induction schemas as [|schema schemas IH]; intros acc s Hs; simpl.
  - destruct s as [[] ? ? ?]. unfold fupd, set_sent. simpl. by rewrite !app_nil_r.
  - erewrite fbind_ok.
    2: { unfold fcatch, fbind. rewrite send_one_eq by done. rewrite ftrip_calm by done. reflexivity. }
    rewrite IH by done. unfold fupd, set_sent, add_sent. simpl. by rewrite <- !app_assoc.
Qed.

Lemma run_stmts_calm l s :
  fs_script s = [] → run_stmts l s = (Ok tt, fupd (set_runs (λ t, foldl run_stmt t l)) s).
Proof.
  revert s. induction l as [|st l IH]; intros s Hs; simpl; [by destruct s as [[] ? ? ?]|].
  erewrite fbind_ok by by rewrite ftrip_calm. by rewrite IH.
Qed.

(** The watermark statements a message leads to when everything is sent. *)
Definition marks (m : SubMsg) : list Stmt :=
  match sm_run_ts m with
  | Some ts => mark_ran (mkWave (sm_task_name m) (sig_of digest m) (sm_schemas m) ts)
  | None => []
  end.

Lemma sub_dispatch_calm m s :
  fs_script s = [] → deliverable m →
  ∃ n, sub_dispatch digest cx m s =
    (Ok n, fupd (λ h, set_runs (λ t, foldl run_stmt t (marks m)) (set_sent (λ l, l ++ (task_msg m <$> sm_schemas m)) h)) s).
Proof.
  intros Hs Hm. unfold sub_dispatch, marks.
  erewrite fbind_ok by by apply send_loop_calm. rewrite app_nil_l.
  destruct (sm_run_ts m) as [ts|]; [destruct (sm_schemas m) eqn:E|]; try (eexists; by destruct s as [[] ? ? ?]).
  erewrite fbind_ok by by apply run_stmts_calm. eexists. by destruct s as [[] ? ? ?].
Qed.

Lemma run_subs_calm l s :
  fs_script s = [] → Forall deliverable l →
  ∃ s', run_subs digest cx l s = (Ok tt, s') ∧ fs_script s' = []
    ∧ fs_shared s' = set_runs (λ t, foldl run_stmt t (concat (marks <$> l)))
        (set_sent (λ x, x ++ concat ((λ m, task_msg m <$> sm_schemas m) <$> l)) (fs_shared s)).
Proof.
  intros Hs Hl. revert s Hs. induction Hl as [|m l Hm Hl IH]; intros s Hs; simpl.
  - exists s. split; [done|]. split; [done|]. destruct s as [[] ? ? ?]. unfold set_runs, set_sent. simpl. by rewrite app_nil_r.
  - destruct (sub_dispatch_calm m s Hs Hm) as (n & E). rewrite (fbind_ok _ _ _ _ _ E).
    destruct (IH (fupd (λ h, set_runs (λ t, foldl run_stmt t (marks m))
      (set_sent (λ l0, l0 ++ (task_msg m <$> sm_schemas m)) h)) s)) as (s' & E' & Hs' & Hh); [done|].
    exists s'. split; [done|]. split; [done|]. rewrite Hh. unfold set_runs, set_sent. simpl.
    by rewrite foldl_app, <- app_assoc.
Qed.

(** ** A whole tick *)

(** Whom a wave serves and the watermark it stamps. *)
Definition plan (c : Call) (s : FS) (due : list string) (run_ts : option Z) : Prop :=
  match truthy_str (cl_cron c) with
  | Some cron =>
      ∃ now clk grace, fs_clock s = now :: clk ∧ lib_ok cron now ∧ grace_of tb c = Ok grace ∧ run_ts = Some now
        ∧ due = due_of (cl_task_name c) (argsig digest (cl_task_args c)) cron now grace (fs_shared s)
  | None => run_ts = None ∧ due = active_target_schemas (fh_tenants (fs_shared s))
  end.

Lemma py_range_pos n step :
  (0 < step)%Z →
  py_range n step = Ok ((λ i, i * Z.to_nat step) <$> seq 0 ((n + Z.to_nat step - 1) / Z.to_nat step)).
Proof.
  intros Hs. unfold py_range. destruct (step =? 0)%Z eqn:E; bool_props; [lia|].
  destruct (step <? 0)%Z eqn:E'; bool_props; [lia|done].
Qed.

Lemma fan_out_calm c s due run_ts bs :
  fs_script s = [] → plan c s due run_ts → batch_size_of tb c = Ok bs → (0 < bs)%Z →
  let sig := argsig digest (cl_task_args c) in
  ∃ s', _fan_out tb c sig s = (Ok (length due), s') ∧ fs_script s' = []
    ∧ fs_shared s' = set_queue (λ q, q ++ (sub_msg c sig run_ts <$> batches (Z.to_nat bs) due)) (fs_shared s).
Proof.
  intros Hs Hp Hb Hpos sig. unfold _fan_out, plan in *. unfold flift at 1. erewrite fbind_ok by by rewrite Hb.
  assert (∃ s1, (match truthy_str (cl_cron c) with
          | Some cron =>
              now <-@ now_ ;; grace <-@ flift (grace_of tb c) ;;
              due <-@ _due_by_tenant_tz (cl_task_name c) sig cron now grace ;; fret (due, Some now)
          | None => due <-@ ftrip (λ h, (Ok (active_target_schemas (fh_tenants h)), h)) ;; fret (due, None)
          end) s = (Ok (due, run_ts), s1) ∧ fs_shared s1 = fs_shared s ∧ fs_script s1 = []) as (s1 & E1 & Hh1 & Hs1).
  { destruct (truthy_str (cl_cron c)) as [cron|].
    - destruct Hp as (now & clk & grace & Hc & Hl & Hg & -> & ->).
      erewrite fbind_ok by (unfold now_; by rewrite Hc). unfold flift. erewrite fbind_ok by by rewrite Hg.
      set (s0 := mkFS _ _ _ _).
      destruct (due_calm (cl_task_name c) sig cron now grace s0 Hs Hl) as (s1 & E & [Q1 Q2]).
      exists s1. rewrite (fbind_ok _ _ _ _ _ E). split; [done|]. split; [by rewrite Q1|by rewrite Q2].
    - destruct Hp as [-> ->]. exists s. erewrite fbind_ok by by rewrite ftrip_calm.
      split; [|done]. by destruct s. }
  rewrite (fbind_ok _ _ _ _ _ E1). unfold flift. rewrite py_range_pos by done. erewrite fbind_ok by done.
  erewrite fbind_ok by by apply delay_batches_calm.
  eexists. split; [reflexivity|]. split; [done|]. simpl. rewrite Hh1. unfold batches.
  unfold set_queue. f_equal. f_equal. by rewrite <- !list_fmap_compose.
Qed.

Lemma redis_cmd_calm cmd s rep m :
  fs_script s = [] → redis_doc cmd (keys s) = Some (rep, m) →
  ∃ r, redis_cmd cmd s = (Ok rep, fupd (set_redis r) s) ∧ r_keys r = m.
Proof.
  intros Hs Hd. apply r_exec_ok in Hd as [Hrep Hkeys]. unfold redis_cmd. rewrite ftrip_calm by done.
  destruct (r_exec cmd (fh_redis (fs_shared s))) as [rep' r]. simpl in *. subst rep'. by exists r.
Qed.

Lemma fanout_dispatch_calm c token s due run_ts bs :
  fs_script s = [] → plan c s due run_ts → batch_size_of tb c = Ok bs → (0 < bs)%Z →
  let sig := argsig digest (cl_task_args c) in
  keys s !! lock_key (cl_task_name c) sig = None →
  ∃ s', fanout_dispatch digest tb c token s = (Ok (FannedOut (length due)), s') ∧ fs_script s' = []
    ∧ keys s' = keys s
    ∧ fs_shared s' = set_redis (fh_redis (fs_shared s'))
        (set_queue (λ q, q ++ (sub_msg c sig run_ts <$> batches (Z.to_nat bs) due)) (fs_shared s)).
Proof.
  intros Hs Hp Hb Hpos sig Hk. unfold fanout_dispatch. fold sig.
  assert (∃ ttl, beat_conf tb "LOCK_SECONDS" = Ok ttl) as [ttl Httl] by (eexists; reflexivity).
  unfold flift at 1. erewrite fbind_ok by by rewrite Httl.
  destruct (redis_cmd_calm (SETNX (lock_key (cl_task_name c) sig) token ttl) s (PBool true)
              (<[lock_key (cl_task_name c) sig := RStr token]> (keys s)) Hs)
    as (r1 & E1 & K1); [simpl; by rewrite Hk|].
  rewrite (fbind_ok _ _ _ _ _ E1). simpl.
  destruct (fan_out_calm c (fupd (set_redis r1) s) due run_ts bs Hs Hp Hb Hpos) as (s2 & E2 & Hs2 & Hh2).
  unfold ffinally. rewrite (fbind_ok _ _ _ _ _ E2). simpl.
  assert (keys s2 = <[lock_key (cl_task_name c) sig := RStr token]> (keys s)) as K2 by by rewrite Hh2.
  destruct (redis_cmd_calm (UNLOCK (lock_key (cl_task_name c) sig) token) s2 (PBool true) (keys s) Hs2)
    as (r3 & E3 & K3).
  { simpl. rewrite K2, lookup_insert_eq, bool_decide_true by done. by rewrite delete_insert_id. }
  unfold fcatch, release. rewrite (fbind_ok _ _ _ _ _ E3). simpl.
  eexists. split; [reflexivity|]. split; [done|]. split; [done|]. simpl. by rewrite Hh2.
Qed.

Lemma sub_msgs_sent c sig run_ts l :
  concat ((λ m, task_msg m <$> sm_schemas m) <$> (sub_msg c sig run_ts <$> l))
  = task_msg (sub_msg c sig run_ts []) <$> concat l.
Proof.
  induction l as [|b l IH]; [done|]. simpl. by rewrite fmap_app, <- IH.
Qed.

(** Watermarks after the statements of all batches of a wave. *)
Lemma sub_msgs_marked c sig run_ts l t k :
  foldl run_stmt t (concat (marks <$> (sub_msg c sig run_ts <$> l))) !! k
  = match run_ts with
    | Some ts => if of_entry (cl_task_name c) sig k && mem (rk_schema k) (concat l)
                 then later (Some ts) (t !! k) else t !! k
    | None => t !! k
    end.
Proof.
  revert t. induction l as [|b l IH]; intros t; simpl; [destruct run_ts; by rewrite ?andb_false_r|].
  rewrite foldl_app, IH. destruct run_ts as [ts|]; [|done]. unfold marks. cbn [sm_run_ts sub_msg].
  rewrite mark_ran_lookup. unfold asked, covers, sig_of. cbn.
  destruct (of_entry (cl_task_name c) sig k); cbn [andb]; [|done].
  assert (mem (rk_schema k) (b ++ concat l) = mem (rk_schema k) b || mem (rk_schema k) (concat l)) as ->.
  { apply eq_bool_prop_intro. unfold mem. rewrite <- bool_decide_or. by rewrite !bool_decide_spec, elem_of_app. }
  destruct (mem (rk_schema k) b), (mem (rk_schema k) (concat l)); try done.
  by destruct (t !! k); simpl; f_equal; lia.
Qed.

(** The whole tick, without interference. *)
Lemma tick_calm c token s due run_ts bs :
  fs_script s = [] → queue s = [] → plan c s due run_ts → batch_size_of tb c = Ok bs → (0 < bs)%Z →
  let sig := argsig digest (cl_task_args c) in
  keys s !! lock_key (cl_task_name c) sig = None → deliverable (sub_msg c sig run_ts []) →
  ∃ s1 s2 new,
    fanout_dispatch digest tb c token s = (Ok (FannedOut (length due)), s1) ∧ drain digest cx s1 = (Ok tt, s2)
    ∧ Forall (λ m, length (sm_schemas m) ≤ Z.to_nat bs) (queue s1)
    ∧ sent s2 = sent s ++ new
    ∧ Forall2 (λ schema m, tm_name m = cl_task_name c ∧ tm_args m = default [] (cl_task_args c)
                 ∧ dget SCHEMA_HEADER (tm_headers m) = Some (JStr schema)) due new
    ∧ (∀ k, runs s2 !! k = match run_ts with
                           | Some ts => if of_entry (cl_task_name c) sig k && mem (rk_schema k) due
                                        then later (Some ts) (runs s !! k) else runs s !! k
                           | None => runs s !! k
                           end)
    ∧ queue s2 = [] ∧ keys s2 = keys s.
Proof.
  intros Hs Hq Hp Hb Hpos sig Hk Hd.
  destruct (fanout_dispatch_calm c token s due run_ts bs Hs Hp Hb Hpos Hk) as (s1 & E1 & Hs1 & K1 & Hh1).
  fold sig in Hh1. set (msgs := sub_msg c sig run_ts <$> batches (Z.to_nat bs) due) in *.
  assert (queue s1 = msgs) as Hq1 by (rewrite Hh1; simpl; by rewrite Hq).
  assert (Forall deliverable msgs) as Hds by (apply Forall_fmap, Forall_forall; intros b _; exact Hd).
  destruct (run_subs_calm msgs (fupd (set_queue (λ _, [])) s1) Hs1 Hds) as (s2 & E2 & _ & Hh2).
  exists s1, s2, (task_msg (sub_msg c sig run_ts []) <$> due).
  split; [done|]. split; [unfold drain; by rewrite Hq1|].
  split; [rewrite Hq1; apply Forall_fmap; apply batches_size|].
  assert (concat (batches (Z.to_nat bs) due) = due) as Hcat by (apply batches_concat; lia).
  split; [rewrite Hh2; simpl; rewrite Hh1; simpl; f_equal; unfold msgs; by rewrite sub_msgs_sent, Hcat|].
  split; [|split; [|split]].
  - apply Forall2_fmap_r, Forall_Forall2_diag, Forall_forall. intros schema _. simpl.
    by rewrite dget_dset, String.eqb_refl.
  - intros k. rewrite Hh2. simpl. rewrite Hh1. simpl. unfold msgs. rewrite sub_msgs_marked, Hcat. done.
  - by rewrite Hh2.
  - rewrite Hh2. simpl. done.
Qed.

(** C18: an undisturbed tick, once its batches have been worked
    off, has sent exactly one message per due tenant, in order, each with the
    task's arguments and with that tenant's schema in its header whatever headers
    the entry set; it has advanced exactly the watermarks of those tenants
    (calendar entries only), split them into batches within the limit, left the
    queue empty and given the lock back.  Until the schedule has an occurrence
    after the instant of the tick in the tenant's time zone, the tenant is not due
    again; this includes an occurrence at that very instant, which
    [boundary_occurrence_lost] shows to be lost. *)
Theorem tick_delivers_once c token s due run_ts bs :
  fs_script s = [] → queue s = [] → plan c s due run_ts → batch_size_of tb c = Ok bs → (0 < bs)%Z →
  let sig := argsig digest (cl_task_args c) in
  keys s !! lock_key (cl_task_name c) sig = None → deliverable (sub_msg c sig run_ts []) →
  ∃ s1 s2 new,
    fanout_dispatch digest tb c token s = (Ok (FannedOut (length due)), s1) ∧ drain digest cx s1 = (Ok tt, s2)
    ∧ Forall (λ m, length (sm_schemas m) ≤ Z.to_nat bs) (queue s1)
    ∧ sent s2 = sent s ++ new
    ∧ Forall2 (λ schema m, tm_name m = cl_task_name c ∧ tm_args m = default [] (cl_task_args c)
                 ∧ dget SCHEMA_HEADER (tm_headers m) = Some (JStr schema)) due new
    ∧ (∀ k, runs s2 !! k = match run_ts with
                           | Some ts => if of_entry (cl_task_name c) sig k && mem (rk_schema k) due
                                        then later (Some ts) (runs s !! k) else runs s !! k
                           | None => runs s !! k
                           end)
    ∧ queue s2 = [] ∧ keys s2 = keys s
    ∧ (∀ cron now now2 grace schema, run_ts = Some now → lib_ok cron now2 → schema ∈ due →
         (∀ tzname tz u, (schema, tzname) ∈ active_tenants_with_tz (fh_tenants (fs_shared s2)) →
            zone_info tzname = Ok tz → occurs cron tz u → (u < now2)%Z → (u ≤ now)%Z) →
         schema ∉ due_of (cl_task_name c) sig cron now2 grace (fs_shared s2)).
Proof.
  intros Hs Hq Hp Hb Hpos sig Hk Hd.
  destruct (tick_calm c token s due run_ts bs Hs Hq Hp Hb Hpos Hk Hd)
    as (s1 & s2 & new & ? & ? & ? & ? & ? & Hruns & ? & ?).
  exists s1, s2, new. repeat (split; [done|]). fold sig in Hruns.
  intros cron now now2 grace schema -> Hl Hin Hno Hdue.
  apply list_elem_of_omap in Hdue as ([sc tzname] & Hrow & Hx). simpl in Hx.
  destruct (occurrence _ _ _ _ sc tzname) as [[]|] eqn:Ho; simplify_eq/=.
  apply (is_due_iff _ _ _ _ _ _ Hl) in Ho as (tz & u & Hz & (Hocc & Hlt & _) & Hlast & _).
  rewrite load_map_lookup, Hruns in Hlast. unfold of_entry in Hlast. simpl in Hlast.
  rewrite !String.eqb_refl, (proj2 (mem_spec _ _) Hin) in Hlast. simpl in Hlast.
  specialize (Hno tzname tz u Hrow Hz Hocc Hlt).
  destruct (runs s !! _) as [r0|]; specialize (Hlast _ eq_refl); lia.
Qed.

(** An occurrence at the very instant of a tick that served the tenant for an earlier
    one: the tick stamps the watermark with its own instant, and every later tick for
    which that occurrence is the latest takes it for dispatched. *)
Theorem boundary_occurrence_lost c token s due now bs cron tzname tz schema now2 grace :
  fs_script s = [] → queue s = [] → plan c s due (Some now) → batch_size_of tb c = Ok bs → (0 < bs)%Z →
  let sig := argsig digest (cl_task_args c) in
  keys s !! lock_key (cl_task_name c) sig = None → deliverable (sub_msg c sig (Some now) []) →
  schema ∈ due → zone_info tzname = Ok tz → lib_ok cron now2 → latest_before cron tz now2 now →
  ∃ s1 s2, fanout_dispatch digest tb c token s = (Ok (FannedOut (length due)), s1) ∧ drain digest cx s1 = (Ok tt, s2)
    ∧ occurrence cron now2 grace (load_map (cl_task_name c) sig (runs s2)) schema tzname = Ok AlreadyRun.
Proof.
  intros Hs Hq Hp Hb Hpos sig Hk Hd Hin Hz [_ Hl] Hlb.
  destruct (tick_calm c token s due (Some now) bs Hs Hq Hp Hb Hpos Hk Hd)
    as (s1 & s2 & new & ? & ? & ? & ? & ? & Hruns & _).
  exists s1, s2. split; [done|]. split; [done|]. unfold occurrence. rewrite Hz.
  rewrite (proj2 (get_prev_iff _ _ _ _ (Hl tz)) Hlb). cbn [res_bind]. rewrite load_map_lookup, Hruns. fold sig.
  unfold of_entry. cbn [rk_schema rk_task rk_sig]. rewrite !String.eqb_refl, (proj2 (mem_spec _ _) Hin). cbn [andb later].
  destruct (runs s !! _) as [r|]; cbn; destruct (_ <=? _)%Z eqn:E; bool_props; done || lia.
Qed.

(** ** With failing round trips *)

(** Calls may fail, with or without effect; nobody else acts. *)
Definition only_faults (s : FS) : Prop := Forall (λ ev, fe_env ev = id) (fs_script s).

Lemma ftrip_faults {A} (f : FShared → res exn A * FShared) s r s' :
  only_faults s → ftrip f s = (r, s') →
  only_faults s'
  ∧ ((r = (f (fs_shared s)).1 ∧ fs_shared s' = (f (fs_shared s)).2)
     ∨ ((∃ e, r = Err e) ∧ (fs_shared s' = (f (fs_shared s)).2 ∨ fs_shared s' = fs_shared s))).
Proof.
  unfold only_faults, ftrip. intros Hf Ht. destruct (fs_script s) as [|ev l] eqn:E.
  - destruct (f (fs_shared s)) as [r0 h]. simplify_eq/=. rewrite E. eauto.
  - apply Forall_cons in Hf as [Hev Hl]. rewrite Hev in Ht. simpl in Ht.
    destruct (f (fs_shared s)) as [r0 h]. destruct (fe_fault ev) as [e|]; [destruct (fe_applied ev)|]; simplify_eq/=;
      (split; [done|]); eauto 6.
Qed.

(** The message of [m] for one schema. *)
Definition carries (m : SubMsg) (schema : string) (msg : TaskMsg) : Prop :=
  tm_name msg = sm_task_name m ∧ tm_args msg = default [] (sm_task_args m)
  ∧ tm_kwargs msg = default [] (sm_task_kwargs m) ∧ dget SCHEMA_HEADER (tm_headers msg) = Some (JStr schema).

(** From [s] to [s'] only messages satisfying [P] were added. *)
Definition adds (P : TaskMsg → Prop) (s s' : FS) (new : list TaskMsg) : Prop :=
  only_faults s' ∧ runs s' = runs s ∧ sent s' = sent s ++ new ∧ Forall P new.

Lemma adds_nil P s s' : only_faults s' → fs_shared s' = fs_shared s → adds P s s' [].
Proof. intros ? Hh. unfold adds. rewrite Hh, app_nil_r. done. Qed.

Lemma adds_trans P s s1 s2 new1 new2 : adds P s s1 new1 → adds P s1 s2 new2 → adds P s s2 (new1 ++ new2).
Proof.
  intros (? & ? & E1 & ?) (? & ? & E2 & ?). split; [done|]. split; [congruence|].
  split; [by rewrite E2, E1, app_assoc|by apply Forall_app].
Qed.

Lemma send_one_faults m schema s r s' :
  only_faults s → send_one cx m schema s = (r, s') →
  ∃ new, adds (carries m schema) s s' new ∧ (r = Ok tt → new ≠ []).
Proof.
  intros Hf. destruct (existsb (λ kv, mem kv.1 SEND_TASK_PARAMS) (dpop "headers" (default [] (sm_task_options m)))) eqn:Ho;
    [|destruct (headers_of m) as [d|] eqn:Hh].
  - unfold send_one, fbind, fraise, fret. rewrite Ho. intros Hr. exists []. destruct (caller_headers _); simplify_eq/=;
      (split; [by apply adds_nil|done]).
  - rewrite send_one_eq by (split; [done|by eexists]). intros Hr.
    destruct (ftrip_faults _ _ _ _ Hf Hr) as [Hf' Hd]. simpl in Hd.
    assert (carries m schema (task_msg m schema)) as Hc
      by (split; [done|]; split; [done|]; split; [done|]; simpl; by rewrite dget_dset, String.eqb_refl).
    destruct Hd as [[-> Hs]|[[e ->] [Hs|Hs]]];
      [exists [task_msg m schema]|exists [task_msg m schema]|exists []];
      (split; [split; [done|]; rewrite Hs, ?app_nil_r; simpl; repeat (split; [done|]);
        first [by apply Forall_singleton|by apply Forall_nil]|done]).
  - unfold send_one, fbind, fraise, fret, headers_of in *. intros Hr. exists []. destruct (caller_headers _); simplify_eq/=;
      (split; [by apply adds_nil|done]).
Qed.

Lemma adds_impl (P Q : TaskMsg → Prop) s s' new : (∀ x, P x → Q x) → adds P s s' new → adds Q s s' new.
Proof. intros HPQ (? & ? & ? & ?). repeat (split; [done|]). by eapply Forall_impl. Qed.

(** What a run of the loop over [schemas] did: the messages it added, and that
    every schema it reports as sent has one of them. *)
Definition delivered (m : SubMsg) (schemas acc : list string) (s : FS) (r : res exn (list string)) (s' : FS) : Prop :=
  ∃ new, adds (λ msg, ∃ schema, schema ∈ schemas ∧ carries m schema msg) s s' new
    ∧ ∀ l, r = Ok l → ∃ ok, l = acc ++ ok ∧ Forall (λ x, x ∈ schemas ∧ Exists (carries m x) new) ok.

Lemma delivered_cons m schema schemas acc ok s s1 s2 new1 r s' :
  adds (carries m schema) s s1 new1 → fs_shared s2 = fs_shared s1 →
  Forall (λ x, x = schema ∧ Exists (carries m x) new1) ok →
  delivered m schemas (acc ++ ok) s2 r s' → delivered m (schema :: schemas) acc s r s'.
Proof.
  intros Ha1 Hh Hok (new2 & (? & Hr2 & Hs2 & Hf2) & Hl2). exists (new1 ++ new2). split.
  - eapply adds_trans.
    + eapply adds_impl, Ha1. intros msg Hm. exists schema. by split; [left|].
    + split; [done|]. rewrite Hh in Hr2, Hs2. split; [done|]. split; [done|].
      eapply Forall_impl; [exact Hf2|]. intros msg (x & Hx & Hc). exists x. by split; [right|].
  - intros l Hl. destruct (Hl2 l Hl) as (ok2 & -> & Hok2). exists (ok ++ ok2). rewrite app_assoc. split; [done|].
    apply Forall_app. split; (eapply Forall_impl; [eassumption|]).
    + intros x [-> Hc]. split; [left|]. apply Exists_app. by left.
    + intros x [Hx Hc]. split; [by right|]. apply Exists_app. by right.
Qed.

Lemma send_loop_faults m schemas acc s r s' :
  only_faults s → send_loop cx m schemas acc s = (r, s') → delivered m schemas acc s r s'.
Proof.
  revert acc s. induction schemas as [|schema schemas IH]; intros acc s Hf Hr; simpl in Hr.
  - unfold fret in Hr. simplify_eq/=. exists []. split; [by apply adds_nil|].
    intros l [= <-]. exists []. by rewrite app_nil_r.
  - unfold fbind at 1, fcatch, fbind at 1 in Hr.
    destruct (send_one cx m schema s) as [r1 s1] eqn:E1.
    destruct (send_one_faults _ _ _ _ _ Hf E1) as (new1 & Ha1 & Hn1).
    pose proof (proj1 Ha1) as Hf1.
    destruct r1 as [[]|e]; [|destruct (is_broker_error e)].
    + eapply (delivered_cons m schema schemas acc [schema] s s1 s1), IH; [done|done| |done|exact Hr].
      constructor; [|done]. split; [done|]. destruct Ha1 as (_ & _ & _ & Hfa).
      destruct new1 as [|x new1]; [by destruct Hn1|]. apply Forall_cons in Hfa as [Hx _]. by left.
    + eapply (delivered_cons m schema schemas acc [] s s1 _), IH; [done| |done| |rewrite app_nil_r; exact Hr]; done.
    + exists new1. destruct (is_exception e); simplify_eq/=; (split; [|done]);
        (eapply adds_impl; [|destruct Ha1 as (? & ? & ? & ?); split; [|split; [|split]]; done]);
        intros msg Hm; exists schema; by split; [left|].
Qed.

(** The rows a wave's statements may touch, and that they only move forward. *)
Lemma run_stmt_forward t st k r0 :
  t !! k = Some r0 → ∃ r1, run_stmt t st !! k = Some r1 ∧ (r0 ≤ r1)%Z.
Proof.
  intros Hk. destruct st as [w|w]; simpl; [rewrite bulk_create_lookup|rewrite advance_lookup]; rewrite Hk;
    destruct (covers w k); simpl; eexists; (split; [done|]); lia.
Qed.

Lemma run_stmts_faults w l s r s' :
  only_faults s → Forall (λ st, st = BulkCreate w ∨ st = Advance w) l → run_stmts l s = (r, s') →
  sent s' = sent s
  ∧ (∀ k, covers w k = false → runs s' !! k = runs s !! k)
  ∧ (∀ k r0, runs s !! k = Some r0 → ∃ r1, runs s' !! k = Some r1 ∧ (r0 ≤ r1)%Z).
Proof.
  intros Hf Hl. revert s Hf. induction Hl as [|st l Hst Hl IH]; intros s Hf Hr; simpl in Hr.
  - unfold fret in Hr. simplify_eq. split; [done|]. split; [done|]. intros k r0 ->. eexists. split; [done|lia].
  - unfold fbind at 1 in Hr. destruct (ftrip _ s) as [r1 s1] eqn:E1.
    destruct (ftrip_faults _ _ _ _ Hf E1) as [Hf1 Hd]. simpl in Hd.
    assert (sent s1 = sent s ∧ (∀ k, covers w k = false → runs s1 !! k = runs s !! k)
      ∧ (∀ k r0, runs s !! k = Some r0 → ∃ r1, runs s1 !! k = Some r1 ∧ (r0 ≤ r1)%Z)) as (S1 & C1 & F1).
    { assert (fs_shared s1 = fs_shared s ∨ fs_shared s1 = set_runs (λ t, run_stmt t st) (fs_shared s)) as [-> | ->]
        by (destruct Hd as [[_ ?]|[_ [?|?]]]; auto); simpl.
      - split; [done|]. split; [done|]. intros k r0 ->. eexists. split; [done|lia].
      - split; [done|]. split; [|intros; by apply run_stmt_forward].
        intros k Hk. destruct Hst as [->| ->]; simpl; [rewrite bulk_create_lookup|rewrite advance_lookup]; by rewrite Hk. }
    destruct r1 as [[]|e]; [|by simplify_eq/=]. destruct (IH s1 Hf1 Hr) as (S2 & C2 & F2).
    split; [congruence|]. split; [intros k Hk; by rewrite C2, C1|].
    intros k r0 Hk. destruct (F1 k r0 Hk) as (r1 & H1r & ?). destruct (F2 k r1 H1r) as (r2 & ? & ?).
    exists r2. split; [done|lia].
Qed.

(** C26: whichever sends and statements fail, with or
    without effect, every message a batch sends is for a schema of the batch and
    carries that schema in its header; a watermark of a schema moves only if a
    message for that schema was sent (so a failed send is retried by the next
    tick, never recorded as done), only for the entry of the batch, only for
    calendar entries, and never backward. *)
Theorem sub_dispatch_at_least_once m s r s' :
  only_faults s → sub_dispatch digest cx m s = (r, s') →
  ∃ new, sent s' = sent s ++ new
    ∧ Forall (λ msg, ∃ schema, schema ∈ sm_schemas m ∧ carries m schema msg) new
    ∧ (∀ k, runs s' !! k ≠ runs s !! k →
         of_entry (sm_task_name m) (sig_of digest m) k = true ∧ is_Some (sm_run_ts m)
         ∧ Exists (carries m (rk_schema k)) new)
    ∧ (∀ k r0, runs s !! k = Some r0 → ∃ r1, runs s' !! k = Some r1 ∧ (r0 ≤ r1)%Z).
Proof.
  intros Hf. unfold sub_dispatch. unfold fbind at 1.
  destruct (send_loop cx m (sm_schemas m) [] s) as [r1 s1] eqn:E1.
  destruct (send_loop_faults _ _ _ _ _ _ Hf E1) as (new & (Hf1 & Hr1 & Hs1 & Hnew) & Hok).
  assert (∀ x, runs x = runs s1 → sent x = sent s1 →
    sent x = sent s ++ new ∧ Forall (λ msg, ∃ schema, schema ∈ sm_schemas m ∧ carries m schema msg) new
    ∧ (∀ k, runs x !! k ≠ runs s !! k →
         of_entry (sm_task_name m) (sig_of digest m) k = true ∧ is_Some (sm_run_ts m)
         ∧ Exists (carries m (rk_schema k)) new)
    ∧ (∀ k r0, runs s !! k = Some r0 → ∃ r1, runs x !! k = Some r1 ∧ (r0 ≤ r1)%Z)) as Hsame.
  { intros x Hrx Hsx. rewrite Hrx, Hr1, Hsx. repeat (split; [done|]). intros k r0 ->. eexists. split; [done|lia]. }
  destruct r1 as [l|e]; [|intros [= <- <-]; exists new; by apply Hsame].
  destruct (Hok l eq_refl) as (ok & -> & Hall). simpl.
  destruct (sm_run_ts m) as [ts|] eqn:Ets; [destruct ok as [|x0 ok0] eqn:Eok|];
    try (unfold fbind, fret; intros [= <- <-]; exists new; by apply Hsame).
  rewrite <- Eok in *. clear Eok x0 ok0. set (w := mkWave (sm_task_name m) (sig_of digest m) ok ts).
  unfold fbind at 1. destruct (run_stmts (mark_ran w) s1) as [r2 s2] eqn:E2.
  destruct (run_stmts_faults w (mark_ran w) s1 r2 s2 Hf1) as (S2 & C2 & F2); [|done|].
  { unfold mark_ran. case_match; [constructor|]. constructor; [by left|]. constructor; [by right|constructor]. }
  intros Hfin. assert (s' = s2) as -> by (unfold fret in Hfin; destruct r2; by simplify_eq/=).
  exists new. rewrite S2. split; [done|]. split; [done|]. split; [|intros k r0 Hk; apply F2; by rewrite Hr1].
  intros k Hne. destruct (covers w k) eqn:Ec; [|by rewrite C2, Hr1 in Hne].
  unfold covers, w in Ec. simpl in Ec. bool_props. split; [done|]. split; [by eexists|].
  rewrite Forall_forall in Hall. apply Hall. by apply mem_spec.
Qed.

End facts.

(** * The fan-out lock and what the deploy checks guarantee of a tick *)

Local Open Scope Q_scope.

Section checks.
Context `{RawRedis} `{TenantBackend} `{CronLib}.
Context (digest : list JVal → string) (tb : gmap string Z).

(** ** Lock keys *)

Lemma last_sep_inj {A} (c : A) l1 l2 m1 m2 :
  c ∉ m1 → c ∉ m2 → l1 ++ c :: m1 = l2 ++ c :: m2 → l1 = l2 ∧ m1 = m2.
Proof.
  intros Hn1 Hn2. revert l2. induction l1 as [|x l1 IH]; intros [|y l2]; simpl; intros Heq.
  - by injection Heq as ->.
  - injection Heq as _ ->. destruct Hn1. apply elem_of_app. right. left.
  - injection Heq as _ <-. destruct Hn2. apply elem_of_app. right. left.
  - injection Heq as -> Heq. by destruct (IH _ Heq) as [-> ->].
Qed.

Lemma lock_key_inj t1 g1 t2 g2 :
  no_char colon g1 → no_char colon g2 → lock_key t1 g1 = lock_key t2 g2 → t1 = t2 ∧ g1 = g2.
Proof.
  unfold lock_key, no_char. intros N1 N2 Heq.
  apply str_app_inj_l in Heq. apply (f_equal chars) in Heq. rewrite !chars_app in Heq. simpl in Heq.
  apply (last_sep_inj colon) in Heq as [Ht Hg]; [|done|done].
  split; [rewrite <- (of_chars_chars t1), Ht; apply of_chars_chars|rewrite <- (of_chars_chars g1), Hg; apply of_chars_chars].
Qed.

(** In a schedule tenants.E006 accepts, no two
    fan-out entries share an overlap-lock key (the digest is hexadecimal, so it
    holds no colon), hence no wave of one entry suppresses another entry. *)
Theorem accepted_entries_have_own_locks schedule i j ni nj ei ej pi pj kwi kwj :
  (∀ args, no_char colon (digest args)) →
  fanout_entries_are_unique digest schedule = [] →
  schedule !! i = Some (ni, ei) → se_body ei = Fanout pi kwi →
  schedule !! j = Some (nj, ej) → se_body ej = Fanout pj kwj →
  lock_key (dp_task_name kwi) (argsig digest (cl_task_args (call_of kwi)))
    = lock_key (dp_task_name kwj) (argsig digest (cl_task_args (call_of kwj))) → i = j.
Proof.
  intros Hd Hu Hi Hbi Hj Hbj Hk.
  assert (∀ kw, no_char colon (argsig digest (cl_task_args (call_of kw)))) as Hno.
  { intros kw. simpl. destruct (dp_task_args kw); [apply not_elem_of_nil|apply Hd]. }
  destruct (lock_key_inj _ _ _ _ (Hno kwi) (Hno kwj) Hk) as [Ht Hs]. simpl in Hs.
  eapply (group_position digest schedule (group_key digest kwi)); eauto.
  unfold group_key. simpl. by rewrite Ht, Hs.
Qed.

(** ** Grace *)

Lemma grace_check_entry schedule name entry period kw cron :
  beat_grace_ge_fanout_period tb schedule = Ok [] →
  (name, entry) ∈ schedule → se_body entry = Fanout (SNumber period) kw → dp_cron kw = Some cron → cron ≠ "" →
  ∃ grace, grace_of tb (call_of kw) = Ok grace ∧ (period <= grace)%Q.
Proof.
  unfold beat_grace_ge_fanout_period, grace_of. simpl.
  destruct (beat_conf tb "TZ_GRACE_SECONDS") as [g|]; simpl; [|done]. intros [= Hnil] Hin Hb Hc Hne.
  destruct (Qle_bool period (inject_Z (default g (dp_grace kw)))) eqn:E.
  - apply Qle_bool_iff in E. destruct (dp_grace kw) as [z|]; simpl in *; eauto.
  - exfalso. apply (not_elem_of_nil name). rewrite <- Hnil. apply list_elem_of_omap.
    exists (name, entry). split; [done|]. rewrite Hb, Hc. simpl. apply String.eqb_neq in Hne as ->. by rewrite E.
Qed.

(** C28: for a calendar entry of a schedule
    tenants.E002 accepts, if ticks come at most one fan-out period apart, the
    first tick after an occurrence that is still the latest one finds the tenant
    due, unless its watermark already covers the occurrence: no occurrence falls
    between two ticks. *)
Theorem accepted_grace_misses_nothing schedule name entry period kw cron tzname tz tick next u last schema grace :
  beat_grace_ge_fanout_period tb schedule = Ok [] →
  (name, entry) ∈ schedule → se_body entry = Fanout (SNumber period) kw → dp_cron kw = Some cron → cron ≠ "" →
  grace_of tb (call_of kw) = Ok grace →
  zone_info tzname = Ok tz → lib_ok cron next → latest_before cron tz next u →
  (tick ≤ u)%Z → (inject_Z (next - tick) <= period * 1000000)%Q →
  occurrence cron next grace last schema tzname = Ok IsDue
  ∨ ∃ r, last !! schema = Some r ∧ (u ≤ r)%Z.
Proof.
  intros Hck Hin Hb Hc Hne Hg Hz Hl Hlb Htick Hgap.
  destruct (grace_check_entry _ _ _ _ _ _ Hck Hin Hb Hc Hne) as (g & Hg' & Hle).
  rewrite Hg in Hg'. injection Hg' as <-.
  assert (within next u grace = true) as Hw.
  { unfold within. apply Qle_bool_iff.
    assert (inject_Z (next - u) <= inject_Z (next - tick))%Q by (rewrite <- Zle_Qle; lia). lra. }
  destruct (last !! schema) as [r|] eqn:El; [destruct (decide (u ≤ r)%Z); [right; eauto|]|]; left;
    apply (is_due_iff _ _ _ _ _ _ Hl); exists tz, u; repeat (split; [done|]); (split; [|done]).
  - intros r' Hr. rewrite El in Hr. injection Hr as <-. lia.
  - by rewrite El.
Qed.

(** An entry tenants.E009 accepts can be sent, if its options do not name the
    receiver parameter [self] and its headers are a mapping. *)
Lemma accepted_options_deliverable schedule name entry period kw sig ts :
  fanout_options_do_not_collide schedule = [] → (name, entry) ∈ schedule →
  scope_of entry = Some "tenants" → se_body entry = Fanout period kw →
  Forall (λ kv, kv.1 ≠ "self") (dp_task_options kw) →
  (∀ v, dget "headers" (dp_task_options kw) = Some v → ∃ d, v = JDict d) →
  deliverable (sub_msg (call_of kw) sig ts []).
Proof.
  intros Hnil Hin Hsc Hb Hself Hh. split.
  - simpl. apply existsb_false. intros [k v] [Hk%String.eqb_neq Hkv]%list_elem_of_filter. cbn [fst] in *.
    destruct (existsb (λ kv, mem kv.1 _SEND_TASK_RESERVED) (dp_task_options kw)) eqn:E.
    { exfalso. apply (not_elem_of_nil name). rewrite <- Hnil. apply list_elem_of_omap.
      exists (name, entry). split; [done|]. rewrite Hsc, bool_decide_true, Hb by done. by rewrite E. }
    rewrite existsb_false in E. specialize (E (k, v) Hkv). rewrite Forall_forall in Hself.
    specialize (Hself (k, v) Hkv). cbn [fst] in *. apply mem_false in E. apply mem_false.
    unfold SEND_TASK_PARAMS, _SEND_TASK_RESERVED in *. set_solver.
  - unfold headers_of, caller_headers. simpl. destruct (dget "headers" (dp_task_options kw)) as [v|]; [|by eexists].
    destruct (Hh v eq_refl) as [d ->]. destruct d; by eexists.
Qed.

(** ** The overlap lock *)

Notation keys s := (r_keys (fh_redis (fs_shared s))).

(** While a wave of the same entry holds the lock, another
    one does nothing and says so; the release of a wave whose lock expired and is
    now held by another wave leaves that lock alone; and a failing release never
    replaces the outcome of the wave. *)
Theorem wave_lock_correct c token s :
  let sig := argsig digest (cl_task_args c) in
  let key := lock_key (cl_task_name c) sig in
  (∀ v, fs_script s = [] → keys s !! key = Some (RStr v) →
     ∃ s', fanout_dispatch digest tb c token s = (Ok Overlapping, s') ∧ keys s' = keys s
       ∧ fs_shared s' = set_redis (fh_redis (fs_shared s')) (fs_shared s))
  ∧ (fs_script s = [] → keys s !! key ≠ Some (RStr token) →
       ∃ s', release key token s = (Err lock_error, s') ∧ keys s' = keys s)
  ∧ (∀ ttl rep s1 r s2 e s3, beat_conf tb "LOCK_SECONDS" = Ok ttl →
       redis_cmd (SETNX key token ttl) s = (Ok rep, s1) → reply_true rep = true →
       (n <-@ _fan_out tb c sig ;; fret (FannedOut n)) s1 = (r, s2) →
       release key token s2 = (Err e, s3) → is_redis_error e = true →
       ∃ s', fanout_dispatch digest tb c token s = (r, s') ∧ fs_shared s' = fs_shared s3).
Proof.
  intros sig key. split; [|split].
  - intros v Hs Hk. unfold fanout_dispatch. fold sig key.
    assert (∃ ttl, beat_conf tb "LOCK_SECONDS" = Ok ttl) as [ttl Httl] by (eexists; reflexivity).
    unfold flift at 1. erewrite fbind_ok by by rewrite Httl.
    destruct (redis_cmd_calm (SETNX key token ttl) s (PBool false) (keys s) Hs) as (r & E & K);
      [simpl; by rewrite Hk|].
    rewrite (fbind_ok _ _ _ _ _ E). by eexists.
  - intros Hs Hk. unfold release.
    destruct (redis_cmd_calm (UNLOCK key token) s (PBool false) (keys s) Hs) as (r & E & K);
      [simpl; by rewrite bool_decide_false|].
    rewrite (fbind_ok _ _ _ _ _ E). by eexists.
  - intros ttl rep s1 r s2 e s3 Httl E1 Hrep E2 E3 He. unfold fanout_dispatch. fold sig key.
    unfold flift at 1. erewrite fbind_ok by by rewrite Httl. rewrite (fbind_ok _ _ _ _ _ E1), Hrep. simpl.
    unfold ffinally. rewrite E2. unfold fcatch. rewrite E3.
    destruct (is_lock_error e) eqn:El; [by eexists|]. rewrite He. by eexists.
Qed.

End checks.
