(* ===== verification/ProvisionTask.v ===== *)
(** * The provisioning task

    Models [provision_tenant] of src/tenants/tasks.py, the Celery task around
    [migrate_tenant]. *)
From S2P Require Import Prelude PyStr Models PyExc Logs World Lease Schema Trace Migrator MigratorSafety.
From S2P Require Import Quiet MigratorRun Hygiene Scenario.
Open Scope tenants_scope.

Definition PROVISION_RETRY_COUNTDOWN : Z := 300.
Definition PROVISION_MAX_RETRIES : Z := 15.
Definition _RETRY_REASONS : list Reason := [LOCKED; CODE_OLDER_THAN_DB].

(** [RunOptions()]. *)
Definition default_options : RunOptions := mkRunOptions 1 false false false false None None false None.

(** How the task ends: skipped without a run, with the result of the run, or by
    raising [self.retry(countdown=, max_retries=)]. *)
Inductive TaskOut :=
| NotProvisionable (status : option Status)
| Finished (res : Result)
| Retry (countdown max_retries : Z) (res : Result).

Section task.
Context `{Invalidator} `{Site} `{Upstream}.

Definition provision_tenant (tenant_id : Z) : M TaskOut :=
  tenant <-! select "default" (λ v, g_tenants (v_reg v) !! tenant_id) ;;
  match tenant with
  | None => ret (NotProvisionable None)
  | Some t =>
      if negb (mem (t_status t) PROVISIONABLE) then ret (NotProvisionable (Some (t_status t)))
      else
        res <-! migrate_tenant tenant_id default_options ;;
        if bool_decide (r_kind res = KSkipped) && mem (r_reason res) _RETRY_REASONS
        then ret (Retry PROVISION_RETRY_COUNTDOWN PROVISION_MAX_RETRIES res)
        else ret (Finished res)
  end.

(** A select leaves the trace alone. *)
Lemma select_trace {A} alias (f : Srv → A) w : w_trace w = [] → w_trace (select alias f w).2 = [].
Proof.
  intros Hw. pose proof (keeps_select alias f (λ tr, tr = []) w Hw) as Hk.
  by destruct (select alias f w) as [[?|?] ?].
Qed.

(** Whatever other clients do and whichever calls fail,
    the task respects the migrator's policy on the servers; a tenant that is
    deleted or neither NEW nor PENDING when the task looks is not touched at all;
    and the task asks to be retried exactly when its run was skipped because
    another run holds the lease or because this worker's code is older than the
    database. *)
Theorem provision_task_correct pk w :
  let '(r, w') := provision_tenant pk (upd_trace (λ _, []) w) in
  trace_ok pk (w_trace w')
  ∧ match r with
    | Ok (NotProvisionable st) => w_trace w' = [] ∧ ∀ s, st = Some s → s ∉ PROVISIONABLE
    | Ok (Retry _ _ res) => r_kind res = KSkipped ∧ (r_reason res = LOCKED ∨ r_reason res = CODE_OLDER_THAN_DB)
    | Ok (Finished res) => r_kind res ≠ KSkipped ∨ (r_reason res ≠ LOCKED ∧ r_reason res ≠ CODE_OLDER_THAN_DB)
    | Err _ => True
    end.
Proof.
  unfold provision_tenant, bind. set (w0 := upd_trace _ w).
  pose proof (select_trace "default" (λ v, g_tenants (v_reg v) !! pk) w0 eq_refl) as Ht.
  destruct (select "default" _ w0) as [[row|e] w1]; simpl in Ht; [|simpl; by rewrite Ht].
  destruct row as [t|]; [|simpl; by rewrite Ht].
  destruct (mem (t_status t) PROVISIONABLE) eqn:Ep; simpl.
  - assert (trace_ok pk (w_trace w1)) as Hok by by rewrite Ht.
    pose proof (keeps_migrate_tenant pk default_options w1 Hok) as Hk.
    destruct (migrate_tenant pk default_options w1) as [[res|e] w2]; [|done].
    destruct (bool_decide (r_kind res = KSkipped) && mem (r_reason res) _RETRY_REASONS) eqn:Er; simpl; (split; [done|]).
    + bool_props. match goal with Hm : mem _ _ = true |- _ => apply mem_spec in Hm end.
      unfold _RETRY_REASONS in *. set_solver.
    + bool_props. destruct Er as [Er|Er]; bool_props; [by left|]. apply mem_false in Er. right.
      unfold _RETRY_REASONS in Er. set_solver.
  - split; [by rewrite Ht|]. split; [done|]. intros s [= <-]. by apply mem_false.
Qed.

End task.

(** A NEW tenant whose lease another run holds is retried; once the lease is free
    the same task provisions it. *)
Example provision_retries_then_provisions :
  let Up := toy_upstream None in
  let held := {[1%Z := mkLease (Some "other") (Some 900%Z) (Some 2000%Z)]} in
  match (provision_tenant 1 (world NEW held ∅ [])).1 with
  | Ok (Retry 300 15 res) => r_reason res = LOCKED
  | _ => False
  end
  ∧ match provision_tenant 1 (world NEW ∅ ∅ []) with
    | (Ok (Finished res), w') =>
        r_reason res = APPLIED ∧ (t_status <$> g_tenants (v_reg (w_srv w')) !! 1%Z) = Some ACTIVE
    | _ => False
    end
  ∧ match (provision_tenant 1 (world MAINTENANCE ∅ ∅ [])).1 with
    | Ok (NotProvisionable (Some MAINTENANCE)) => True
    | _ => False
    end.
Proof. vm_compute. auto. Qed.
