(* ===== verification/FanoutScenario.v ===== *)
(** * Concrete scenarios for the fan-out and the tenant tasks *)
From Stdlib Require Import QArith.
From S2P Require Import Prelude PyStr Models PyExc World ResolveCache Registry Routing RoutingFacts.
From S2P Require Import ResolverScenario TaskRun Beat TenantTask Fanout FanoutFacts.
From S2P Require Import FanoutFacts.
Open Scope tenants_scope.

(** ** A calendar: daily at midnight in zones with a fixed offset *)

Definition DAY : Z := 86400000000.

Definition zone (name : string) : res exn Z :=
  if String.eqb name "UTC" then Ok 0%Z
  else if String.eqb name "Europe/Kyiv" then Ok 7200000000%Z
  else Err (simple_exn ZoneError "ZoneInfoNotFoundError" name).

#[refine] Instance toy_cron : CronLib := {
  TZ := Z;
  zone_info := zone;
  occurs _ off t := ((t + off) mod DAY = 0)%Z;
  get_prev _ off now := Ok ((now - 1 + off) - (now - 1 + off) mod DAY - off)%Z;
}.
Proof.
  intros _ off now t [= <-]. unfold DAY.
  pose proof (Z.mod_pos_bound (now - 1 + off) 86400000000 ltac:(lia)) as Hb.
  pose proof (Z.div_mod (now - 1 + off) 86400000000 ltac:(lia)) as Hd. split; [|split].
  - replace (_ - off + off)%Z with ((now - 1 + off) / 86400000000 * 86400000000)%Z by lia. apply Z.mod_mul. lia.
  - lia.
  - intros u Hu Hlt. apply Z.mod_divide in Hu as [k Hk]; [|lia].
    assert (k ≤ (now - 1 + off) / 86400000000)%Z by (apply Z.div_le_lower_bound; lia). lia.
Defined.

Lemma toy_lib_ok cron now : lib_ok cron now.
Proof.
  split; [|done]. intros name e. simpl. unfold zone.
  destruct (String.eqb name "UTC"); [done|]. destruct (String.eqb name "Europe/Kyiv"); [done|]. by intros [= <-].
Qed.

(** ** Three tenants, one minute past midnight UTC *)

Definition tz_tenant (schema : string) (st : Status) (tz : option string) : Tenant :=
  mkTenant schema schema "" 2 st NEW 0 "" tz.
Definition tenants : list Tenant :=
  [tz_tenant "public" ACTIVE (Some "UTC"); tz_tenant "acme" ACTIVE (Some "UTC");
   tz_tenant "beta" ACTIVE (Some "Europe/Kyiv"); tz_tenant "idle" DEACTIVATED (Some "UTC");
   tz_tenant "gamma" ACTIVE (Some "Mars/Olympus")].

Definition now : Z := (10 * DAY + 60000000)%Z.
Definition hex (_ : list JVal) : string := "0123456789ab".

Definition tick_state (m : gmap string RVal) (runs : TaskRun) : FS :=
  mkFS (mkFShared m tenants runs [] []) [] [now] [].

(** A daily report whose entry tries to choose the schema itself. *)
Definition report : Call :=
  mkCall "x.report" "tenants" (Some "0 0 * * *") None None None
    (Some [("headers", JDict [("_schema_name", JStr "evil"); ("trace", JInt 7)])]) None.

Lemma report_plan : plan hex ∅ report (tick_state ∅ ∅) ["acme"] (Some now).
Proof.
  exists now, [], 300%Q. split; [reflexivity|]. split; [apply toy_lib_ok|].
  split; [reflexivity|]. split; reflexivity.
Qed.

Lemma tick_delivers_once_witness :
  ∃ s1 s2 m, fanout_dispatch hex ∅ report "tok" (tick_state ∅ ∅) = (Ok (FannedOut 1), s1)
    ∧ drain hex between s1 = (Ok tt, s2) ∧ fh_sent (fs_shared s2) = [m]
    ∧ dget SCHEMA_HEADER (tm_headers m) = Some (JStr "acme")
    ∧ fh_runs (fs_shared s2) !! mkRunKey "acme" "x.report" "" = Some now
    ∧ "acme" ∉ due_of "x.report" "" "0 0 * * *" (now + 60000000) 300 (fs_shared s2).
Proof.
  destruct (tick_delivers_once hex ∅ between report "tok" (tick_state ∅ ∅) ["acme"] (Some now) 100)
    as (s1 & s2 & new & E1 & E2 & _ & Hsent & Hall & Hruns & _ & _ & Hagain);
    [reflexivity|reflexivity|apply report_plan|reflexivity|lia|reflexivity|split; [reflexivity|by eexists]|].
  apply Forall2_cons_inv_l in Hall as (m & new' & (_ & _ & Hm) & Hnil & ->).
  apply Forall2_nil_inv_l in Hnil as ->.
  exists s1, s2, m. split; [exact E1|]. split; [exact E2|]. split; [exact Hsent|]. split; [exact Hm|].
  split; [rewrite Hruns; reflexivity|].
  apply (Hagain "0 0 * * *" now); [reflexivity|apply toy_lib_ok|left|].
  intros tzname tz u _ Hz. simpl in *. unfold zone in Hz. unfold now, DAY in *.
  repeat case_match; simplify_eq; intros [k Hk]%Z.mod_divide; lia.
Defined.

(** A tick at midnight sharp, with a grace of a day, serves acme for the midnight
    before; the one that is striking is not served a minute later either. *)
Definition patient : Call := mkCall "x.report" "tenants" (Some "0 0 * * *") (Some 86400%Q) None None None None.
Definition midnight_state : FS := mkFS (mkFShared ∅ tenants ∅ [] []) [] [(10 * DAY)%Z] [].

Example midnight_lost :
  ∃ s1 s2, fanout_dispatch hex ∅ patient "tok" midnight_state = (Ok (FannedOut 2), s1) ∧ drain hex between s1 = (Ok tt, s2)
    ∧ occurrence "0 0 * * *" (10 * DAY + 60000000) 86400 (load_map "x.report" "" (fh_runs (fs_shared s2))) "acme" "UTC"
      = Ok AlreadyRun.
Proof.
  apply (boundary_occurrence_lost hex ∅ between patient "tok" midnight_state ["acme"; "beta"] (10 * DAY) 100 "0 0 * * *" "UTC" (0%Z : @TZ toy_cron) "acme");
    try reflexivity; try lia; [|split; [reflexivity|by eexists]|left|apply toy_lib_ok|].
  - exists (10 * DAY)%Z, [], 86400%Q. split; [reflexivity|]. split; [apply toy_lib_ok|]. repeat split; reflexivity.
  - apply (get_prev_latest "0 0 * * *"). reflexivity.
Qed.

(** The lock is held, has been taken over, and a release fails. *)
Lemma wave_lock_correct_witness :
  ∃ s', fanout_dispatch hex ∅ report "tok" (tick_state {["beat:fanout:x.report:" := RStr "other"]} ∅)
    = (Ok Overlapping, s') ∧ fh_queue (fs_shared s') = [].
Proof.
  destruct (wave_lock_correct hex ∅ report "tok" (tick_state {["beat:fanout:x.report:" := RStr "other"]} ∅))
    as (Hheld & _). destruct (Hheld "other" eq_refl eq_refl) as (s' & E & _ & Hh).
  exists s'. split; [exact E|]. by rewrite Hh.
Defined.

Lemma due_exact_witness :
  ∃ due s', _due_by_tenant_tz "x.report" "" "0 0 * * *" now 300 (tick_state ∅ ∅) = (Ok due, s') ∧ "acme" ∈ due
    ∧ fs_shared s' = fs_shared (tick_state ∅ ∅).
Proof.
  destruct (due_exact "x.report" "" "0 0 * * *" now 300 (tick_state ∅ ∅) eq_refl (toy_lib_ok _ _))
    as (due & s' & E & Hsh & Hiff).
  exists due, s'. split; [exact E|]. split; [|exact Hsh]. apply Hiff.
  exists (tz_tenant "acme" ACTIVE (Some "UTC")), "UTC", 0%Z, (10 * DAY)%Z.
  split; [simpl; right; left|]. do 5 (split; [done|]). split.
  - apply (get_prev_latest "0 0 * * *"). reflexivity.
  - split; [|reflexivity]. intros r Hr. vm_compute in Hr. discriminate Hr.
Defined.

(** ** A batch whose first send fails *)

Definition batch : SubMsg := mkSubMsg "x.report" ["acme"; "beta"] None None None (Some now) (Some "").
Definition broker_down : exn := simple_exn BrokerOperationalError "OperationalError" "connection refused".
Definition flaky : FS :=
  mkFS (mkFShared (∅ : gmap string RVal) tenants ∅ [] []) [mkFEvent id (Some broker_down) false] [] [].

Lemma sub_dispatch_at_least_once_witness :
  (sub_dispatch hex between batch flaky).1 = Ok (1, 2)
  ∧ fh_runs (fs_shared (sub_dispatch hex between batch flaky).2) !! mkRunKey "acme" "x.report" "" = None
  ∧ ∃ new, fh_sent (fs_shared (sub_dispatch hex between batch flaky).2) = new
      ∧ Forall (λ msg, ∃ schema, schema ∈ ["acme"; "beta"] ∧ carries batch schema msg) new.
Proof.
  split; [reflexivity|]. split; [reflexivity|].
  destruct (sub_dispatch_at_least_once hex between batch flaky _ _ ltac:(by repeat constructor)
    (surjective_pairing (sub_dispatch hex between batch flaky))) as (new & Hs & Hf & _).
  exists new. split; [rewrite Hs; reflexivity|exact Hf].
Defined.

(** ** A schedule the checks accept *)

Definition daily : Entry :=
  mkEntry (Some "x.report") (Some (SCrontab (mkCrontab "0" "0" "*" "*" "*"))) None None None.
Definition hourly : Entry :=
  mkEntry (Some "x.fetch") (Some (SNumber 3600)) (Some [JInt 7]) None None.

Definition daily_kw : Disp := mkDisp "x.report" "tenants" [] [] [] (Some "0 0 * * *") None.
Definition hourly_kw : Disp := mkDisp "x.fetch" "tenants" [JInt 7] [] [] None None.
Definition schedule : list (string * SchedEntry) :=
  [("daily", mkSchedEntry (Some "tenants") (Fanout (SNumber 60) daily_kw));
   ("hourly", mkSchedEntry (Some "tenants") (Fanout (SNumber 3600) hourly_kw))].

(** The helper produces exactly these entries under multi-tenancy. *)
Example schedule_is_wrapped :
  scoped_schedule (use_multitenant (Some " Yes ") None) 60 daily "tenants" None None 
    = Ok (mkSchedEntry (Some "tenants") (Fanout (SNumber 60) daily_kw))
  ∧ scoped_schedule (use_multitenant None (Some (ModeOther true))) 60 hourly "tenants" None None
    = Ok (mkSchedEntry (Some "tenants") (Fanout (SNumber 3600) hourly_kw))
  ∧ is_ok (scoped_schedule (use_multitenant (Some "ture") None) 60 daily "tenants" None None) = false
  ∧ scoped_schedule (use_multitenant (Some "off") None) 60 daily "tenants" None None
    = Ok (mkSchedEntry (Some "tenants") (Plain daily)).
Proof. done. Qed.

Lemma accepted_entries_have_own_locks_witness :
  fanout_entries_are_unique hex schedule = []
  ∧ lock_key "x.report" (argsig hex (Some [])) ≠ lock_key "x.fetch" (argsig hex (Some [JInt 7])).
Proof.
  split; [reflexivity|]. intros Heq.
  assert (0 = 1) as He; [|discriminate He].
  apply (accepted_entries_have_own_locks hex schedule 0 1 "daily" "hourly"
    (mkSchedEntry (Some "tenants") (Fanout (SNumber 60) daily_kw))
    (mkSchedEntry (Some "tenants") (Fanout (SNumber 3600) hourly_kw)) (SNumber 60) (SNumber 3600) daily_kw hourly_kw);
    [|reflexivity..|exact Heq].
  intros args. unfold no_char. apply mem_false. reflexivity.
Defined.

(** Ticks half a minute before and after midnight. *)
Lemma accepted_grace_misses_nothing_witness :
  occurrence "0 0 * * *" (10 * DAY + 30000000) 300 ∅ "acme" "UTC" = Ok IsDue.
Proof.
  destruct (accepted_grace_misses_nothing ∅ schedule "daily"
    (mkSchedEntry (Some "tenants") (Fanout (SNumber 60) daily_kw)) 60 daily_kw "0 0 * * *" "UTC" (0%Z : @TZ toy_cron)
    (10 * DAY - 30000000) (10 * DAY + 30000000) (10 * DAY) ∅ "acme" 300) as [Hdue|(r & Hr & _)];
    [reflexivity|left|reflexivity|reflexivity|discriminate|reflexivity|reflexivity|apply toy_lib_ok
    |apply (get_prev_latest "0 0 * * *"); reflexivity|unfold DAY; lia|by apply Qle_bool_iff|exact Hdue|].
  rewrite lookup_empty in Hr. discriminate Hr.
Defined.

(** ** Tenant tasks *)

Definition worker : Worker := mkWorker between ∅.

(** The body reports the schema it runs in. *)
Definition whoami : Body string := λ s, (current_schema_name s, s).

Lemma task_runs_where_sent_witness :
  (task_call cfg empty_cache (Ok [acme_row]) 0 (1, 1, 1)%Z
     (mkRequest (Some [("_schema_name", JStr "acme")]) None) whoami worker).1 = Ok "acme".
Proof.
  pose proof (task_runs_where_sent cfg empty_cache (Ok [acme_row]) 0 (1, 1, 1)%Z None serving
    [("_schema_name", JStr "acme")] "acme" whoami worker) as Hw.
  destruct (task_call _ _ _ _ _ _ whoami worker) as [r w'].
  destruct Hw as [(s1 & Hs1 & _ & Hr & _) _]; [reflexivity|reflexivity|reflexivity|discriminate|discriminate| | |].
  - intros s. vm_compute. discriminate.
  - apply map_Forall_empty.
  - simpl. rewrite Hr. exact Hs1.
Defined.

(** A fresh invalidation: the worker asks the database although its local cache
    has an entry. *)
Definition stale : TenantSnapshot := mkTenantSnapshot 1 "acme" "active" (mkShardSnapshot 9 "old") None.
Definition held_cache : C := ({[_schema_snap_key "acme" := CStr TOMBSTONE]}, true).
Definition local : gmap string _CacheEntry := {["acme" := mkCacheEntry stale 1000]}.

Lemma task_tenant_tiers_witness :
  get_tenant_for_schema cfg held_cache (Ok [acme_row]) 60 (1, 1, 1)%Z "acme" local = (_db_get (Ok [acme_row]) "acme", local)
  ∧ is_ok (_db_get (Ok [acme_row]) "acme") = true.
Proof.
  split; [|reflexivity].
  apply (task_tenant_tiers cfg held_cache (Ok [acme_row]) 60 (1, 1, 1)%Z "acme" local LHold); reflexivity.
Defined.
