(* ===== verification/Requests.v ===== *)
(** * Requests of the console and of the admin

    The monad of the code that serves a management request: the [World] of the
    process (registry, shards, cache, events of other clients), Django's
    [on_commit] queue, and the calls to the outside (queued Celery tasks, host
    registry updates).  [atomic] is [transaction.atomic()] on [default] with its
    rollback, its row locks and the hooks that run after the commit. *)
From S2P Require Import Prelude PyStr Models PyExc World Lease Schema Trace Migrator.
Open Scope tenants_scope.

(** The two kinds of snapshots of the resolve cache, and what one of them serves. *)
Inductive Entry := OfHost (host : string) | OfSchema (schema : string).

Definition inv_at `{Invalidator} (c : inv_cache) (e : Entry) : option Status :=
  match e with OfHost h => inv_host c h | OfSchema s => inv_schema c s end.

(** What resolver/cache.py promises for a single host: [forget_host] looks at
    the cache when it is called (and fails on a malformed entry), and the
    invalidation it defers leaves the host unserved.  No invalidation makes a
    snapshot served. *)
Class HostInvalidator `{Invalidator} := {
  inv_forget_one : string → inv_cache → res exn (inv_cache → inv_cache);
  inv_forget_one_error h c0 e : inv_forget_one h c0 = Err e → eo_name (x_obj e) ∈ ["KeyError"; "TypeError"];
  inv_forget_one_host h c0 f c : inv_forget_one h c0 = Ok f → h ≠ "" → inv_host (f c) h = None;
  inv_forget_one_mono h c0 f c x :
    inv_forget_one h c0 = Ok f → inv_at (f c) x = None ∨ inv_at (f c) x = inv_at c x;
  inv_forget_mono hosts schema c x :
    inv_at (inv_forget hosts schema c) x = None ∨ inv_at (inv_forget hosts schema c) x = inv_at c x;
}.

(** Calls that leave the process: [domain_saved] and [domain_deleted] of the host
    registry, and the Celery tasks queued with [.delay()]. *)
Inductive Call :=
| CallHostSaved (host : string)
| CallHostDeleted (host : string)
| CallProvision (pk : Z)
| CallDropSchema (alias schema : string).

Section requests.
Context `{Invalidator} `{!HostInvalidator}.

(** ** Callbacks of [transaction.on_commit] *)
Inductive Hook :=
| HCache (f : inv_cache → inv_cache)       (** a deferred invalidation of resolver/cache.py *)
| HForgetTenant (t : TenantObj)            (** [lambda: resolve_cache.forget_tenant(obj)] *)
| HForgetHost (host : string)              (** [lambda: resolve_cache.forget_host(host)] *)
| HHostSaved (host : string)               (** [_apply] of the Domain signals *)
| HHostDeleted (host : string).

Record CS := mkCS {
  cs_w : World;
  cs_hooks : list Hook;
  cs_calls : list Call;       (** oldest first *)
}.

Definition cs_reg (s : CS) : Registry := v_reg (w_srv (cs_w s)).

(** ** The monad *)

Definition CM (A : Type) : Type := CS → res exn A * CS.

Definition cret {A} (a : A) : CM A := λ s, (Ok a, s).
Definition craise {A} (e : exn) : CM A := λ s, (Err e, s).
Definition cbind {A B} (m : CM A) (k : A → CM B) : CM B := λ s,
  match m s with (Ok a, s') => k a s' | (Err e, s') => (Err e, s') end.
Definition cmodify (f : CS → CS) : CM unit := λ s, (Ok tt, f s).
Definition cgets {A} (f : CS → A) : CM A := λ s, (Ok (f s), s).
Definition clift {A} (r : res exn A) : CM A := λ s, (r, s).

(** An operation of the process itself. *)
Definition up {A} (m : M A) : CM A := λ s,
  let '(r, w) := m (cs_w s) in (r, mkCS w (cs_hooks s) (cs_calls s)).

(** [try: m except p as e: h(e)]. *)
Definition ccatch {A} (p : exn → bool) (m : CM A) (h : exn → CM A) : CM A := λ s,
  match m s with
  | (Err e, s') => if p e then h e s' else (Err e, s')
  | ok => ok
  end.

Definition call (c : Call) : CM unit := cmodify (λ s, mkCS (cs_w s) (cs_hooks s) (cs_calls s ++ [c])).

(** [timezone.now()]; the clocks of the clients are not told apart from the server's. *)
Definition timezone_now : CM Z := cgets (λ s, g_now (cs_reg s)).

End requests.

Arguments CM {_} _.
Arguments CS {_}.
Arguments Hook {_}.

Notation "x <-$ m ;; k" := (cbind m (λ x, k))
  (at level 60, m at next level, right associativity) : tenants_scope.
Notation "m $;; k" := (cbind m (λ _, k))
  (at level 60, right associativity) : tenants_scope.

Section transactions.
Context `{Invalidator} `{!HostInvalidator}.

(** ** Invalidation and its deferral *)

Definition in_atomic : CM bool := c <-$ up (connection "default") ;; cret (c_in_atomic c).

Definition cache_now (f : inv_cache → inv_cache) : CM unit := up (modify (upd_cache f)).

(** The hosts [forget_tenant] reads. *)
Definition read_hosts (t : TenantObj) : CM (list string) :=
  up (select "default" (λ v, tenant_hosts (v_reg v) (o_pk t))).

(** A callback when it runs: outside of any transaction, where the cache's own
    [on_commit] calls it at once. *)
Definition run_hook (h : Hook) : CM unit :=
  match h with
  | HCache f => cache_now f
  | HForgetTenant t => hosts <-$ read_hosts t ;; cache_now (inv_forget hosts (o_schema t))
  | HForgetHost host =>
      c <-$ cgets (λ s, w_cache (cs_w s)) ;; f <-$ clift (inv_forget_one host c) ;; cache_now f
  | HHostSaved host => call (CallHostSaved host)
  | HHostDeleted host => call (CallHostDeleted host)
  end.

Fixpoint run_hooks (hs : list Hook) : CM unit :=
  match hs with [] => cret tt | h :: hs' => run_hook h $;; run_hooks hs' end.

Definition on_commit (h : Hook) : CM unit :=
  b <-$ in_atomic ;;
  if b : bool then cmodify (λ s, mkCS (cs_w s) (cs_hooks s ++ [h]) (cs_calls s)) else run_hook h.

(** [resolve_cache.forget_tenant(t)], [forget_host(host)] and [forget_schemas([schema])]. *)
Definition forget_tenant_c (t : TenantObj) : CM unit :=
  hosts <-$ read_hosts t ;; on_commit (HCache (inv_forget hosts (o_schema t))).

Definition forget_host_c (host : string) : CM unit :=
  c <-$ cgets (λ s, w_cache (cs_w s)) ;; f <-$ clift (inv_forget_one host c) ;; on_commit (HCache f).

Definition hosts_of_schema (g : Registry) (schema : string) : list string :=
  fst <$> map_to_list (filter (λ kd, t_schema_name <$> (g_tenants g !! d_tenant_id kd.2) = Some schema)
                         (g_domains g)).

Definition forget_schema_c (schema : string) : CM unit :=
  hosts <-$ up (select "default" (λ v, hosts_of_schema (v_reg v) schema)) ;;
  on_commit (HCache (inv_forget hosts schema)).

(** ** Transactions *)

(** The wrapper of [default] entering and leaving an atomic block. *)
Definition conn_atomic (b : bool) (c : Conn) : Conn :=
  mkConn ((λ r, mkRaw (Some IDLE) (negb b) (raw_lock_timeout r) (raw_app r)) <$> c_raw c)
    b (c_schema c) (c_include_public c).

(** What the other clients did while [w] became [w']: the events consumed,
    without this process's writes. *)
Definition consumed (w w' : World) : nat := length (w_script w) - length (w_script w').
Definition others_only (w w' : World) : Srv :=
  foldl (λ v ev, ev_env ev v) (w_srv w) (take (consumed w w') (w_script w)).

(** ROLLBACK: the writes since [w] are undone; the row locks taken since are
    released. *)
Definition rolled_back (w w' : World) : World :=
  upd_srv (λ _, others_only w w') (upd_script (drop (consumed w w') (w_script w)) w').

Definition leave (w w' : World) : World :=
  upd_conns (alter (conn_atomic false) "default")
    (upd_script (drop (consumed w w') (w_script w)) w').

(** [with transaction.atomic(): m], the outermost one: COMMIT is a round trip
    that may fail before or after the server committed. *)
Definition atomic {A} (m : CM A) : CM A := λ s,
  let w := cs_w s in
  let enter := upd_conns (alter (conn_atomic true) "default") w in
  match m (mkCS enter [] (cs_calls s)) with
  | (Err e, s') =>
      (Err e, mkCS (leave w (rolled_back w (cs_w s'))) (cs_hooks s) (cs_calls s'))
  | (Ok a, s') =>
      match next_event (cs_w s') with
      | (Ok ev, w2) =>
          match ev_fault ev with
          | None =>
              (run_hooks (cs_hooks s') $;; cret a) (mkCS (leave w w2) (cs_hooks s) (cs_calls s'))
          | Some e =>
              (Err e, mkCS (leave w (if ev_applied ev then w2 else rolled_back w w2))
                        (cs_hooks s) (cs_calls s'))
          end
      | (Err e, w2) => (Err e, mkCS w2 (cs_hooks s) (cs_calls s'))
      end
  end.

(** An atomic block when one may be open already: a savepoint then, whose
    hooks join the outer queue. *)
Definition nested_atomic {A} (m : CM A) : CM A :=
  b <-$ in_atomic ;;
  if b : bool then
    λ s, match m s with
         | (Ok a, s') => (Ok a, s')
         | (Err e, s') =>
             (Err e, mkCS (upd_srv (λ _, others_only (cs_w s) (cs_w s')) (cs_w s')) (cs_hooks s) (cs_calls s'))
         end
  else atomic m.

(** ** Row locks

    Until the transaction ends, a transaction of another client that would change
    a locked row waits: it has no effect yet. *)

Definition wait_unless (same : Srv → Srv → bool) (ev : Event) : Event :=
  mkEvent (λ v, let v' := ev_env ev v in if same v v' then v' else v) (ev_fault ev) (ev_applied ev) (ev_tx ev).

Definition same_lease (key : Z) (v v' : Srv) : bool :=
  bool_decide (g_leases (v_reg v') !! key = g_leases (v_reg v) !! key).
Definition same_tenant (pk : Z) (v v' : Srv) : bool :=
  bool_decide (g_tenants (v_reg v') !! pk = g_tenants (v_reg v) !! pk).

Definition keep_lease_row (key : Z) : Event → Event := wait_unless (same_lease key).
Definition keep_tenant_row (pk : Z) : Event → Event := wait_unless (same_tenant pk).

Definition lock_rows (f : Event → Event) : CM unit :=
  cmodify (λ s, mkCS (upd_script (fmap f (w_script (cs_w s))) (cs_w s)) (cs_hooks s) (cs_calls s)).

End transactions.
