(* ===== verification/ModelMethods.v ===== *)
(** * Methods of the registry models

    [clean], [save], [delete] and [from_db] of Shard, Tenant and Domain
    (src/tenants/models.py) with the receivers of src/tenants/signals.py they
    trigger.  An instance in memory is a record of its own: its column values,
    its key, and the private attributes [from_db] sets. *)
From S2P Require Import Prelude PyStr Validators Models PyExc Logs World Lease Schema Trace Migrator Requests.
Open Scope tenants_scope.

Definition PUBLIC : string := "public".      (** [get_public_schema_name()] *)

(** [ValidationError({field: msg})], or what a validator raised. *)
Inductive clean_error := FieldError (field msg : string) | Invalid (e : verror).

Definition invalid {A} (r : res verror A) : res clean_error A :=
  match r with Ok a => Ok a | Err e => Err (Invalid e) end.

(** ** Database errors *)

Definition integrity_error (msg : string) : exn := simple_exn OtherException "IntegrityError" msg.
Definition no_rows_saved : exn :=
  simple_exn OtherException "DatabaseError" "Save with update_fields did not affect any rows.".
Definition protected_error (msg : string) : exn := simple_exn OtherException "ProtectedError" msg.
Definition is_protected (e : exn) : bool := String.eqb (eo_name (x_obj e)) "ProtectedError".

(** [repr] of a list of strings. *)
Definition list_repr (l : list string) : string := "[" +:+ String.concat ", " (py_repr <$> l) +:+ "]".

(** ** Shard *)

Record ShardInst := mkSI { si_pk : option Z; si_row : Shard }.

Definition shard_of (g : Registry) (pk : option Z) : option Shard := pk ≫= λ k, g_shards g !! k.

Definition shard_clean (databases : list string) (g : Registry) (s : ShardInst) : res clean_error unit :=
  let sh := si_row s in
  let moved := match shard_of g (si_pk s) with
               | Some old => negb (String.eqb (sh_alias old) (sh_alias sh))
               | None => false
               end in
  if moved then Err (FieldError "alias" "Shard alias is immutable once set (it maps to a settings.DATABASES key).")
  else if negb (mem (sh_alias sh) databases) then
    Err (FieldError "alias" ("Alias " +:+ py_repr (sh_alias sh) +:+ " is not in settings.DATABASES. Available: "
                            +:+ list_repr (merge_sort str_le databases)))
  else if sh_is_default sh && negb (String.eqb (sh_alias sh) "default") then
    Err (FieldError "alias" "Default shard must use the 'default' database alias.")
  else if negb (sh_is_default sh) && String.eqb (sh_alias sh) "default" then
    Err (FieldError "alias" "The 'default' database is reserved for the public schema.")
  else Ok tt.

Definition tenants_on (g : Registry) (shard : Z) : list (Z * Tenant) :=
  map_to_list (filter (λ kt, t_shard_id kt.2 = shard) (g_tenants g)).

(** DELETE of a shard row: [Tenant.shard] is [on_delete=PROTECT]. *)
Definition shard_delete_stmt (pk : Z) (v : Srv) : res exn unit * Srv * list Action :=
  if bool_decide (tenants_on (v_reg v) pk = [])
  then (Ok tt, set_reg (set_shards (delete pk)) v, [])
  else (Err (protected_error "Cannot delete some instances of model 'Shard'"), v, []).

(** ** Tenant *)

Inductive TField :=
| F_schema_name | F_company_name | F_description | F_shard | F_status | F_previous_status
| F_status_changed_at | F_last_error | F_timezone.

#[global] Instance TField_eq_dec : EqDecision TField.
Proof. solve_decision. Defined.

Record TenantInst := mkTI {
  ti_pk : option Z;
  ti_adding : bool;              (** [_state.adding] *)
  ti_row : Tenant;
  ti_loaded : option Status;     (** [_loaded_status], [None] when the attribute is missing *)
}.

(** Attribute assignments on an instance. *)
Definition set_status (st : Status) (t : Tenant) : Tenant :=
  mkTenant (t_schema_name t) (t_company_name t) (t_description t) (t_shard_id t) st (t_previous_status t)
    (t_status_changed_at t) (t_last_error t) (t_timezone t).
Definition set_changed_at (now : Z) (t : Tenant) : Tenant :=
  mkTenant (t_schema_name t) (t_company_name t) (t_description t) (t_shard_id t) (t_status t)
    (t_previous_status t) now (t_last_error t) (t_timezone t).
Definition set_schema_name (s : string) (t : Tenant) : Tenant :=
  mkTenant s (t_company_name t) (t_description t) (t_shard_id t) (t_status t) (t_previous_status t)
    (t_status_changed_at t) (t_last_error t) (t_timezone t).
Definition ti_set (f : Tenant → Tenant) (o : TenantInst) : TenantInst :=
  mkTI (ti_pk o) (ti_adding o) (f (ti_row o)) (ti_loaded o).

(** [Tenant.from_db]: a deferred load has no [_loaded_status]. *)
Definition tenant_from_db (field_names : list TField) (pk : Z) (row : Tenant) : TenantInst :=
  mkTI (Some pk) false row (if mem F_status field_names then Some (t_status row) else None).

Definition all_fields : list TField :=
  [F_schema_name; F_company_name; F_description; F_shard; F_status; F_previous_status;
   F_status_changed_at; F_last_error; F_timezone].

(** The head of [Tenant.save]: the instance and the [update_fields] it hands on. *)
Definition stamp (now : Z) (uf : option (list TField)) (o : TenantInst) : TenantInst * option (list TField) :=
  if ti_adding o || negb (bool_decide (Some (t_status (ti_row o)) = ti_loaded o))
  then (ti_set (set_changed_at now) o, (λ l, F_status_changed_at :: l) <$> uf)
  else (o, uf).

(** The columns an UPDATE writes: those of [update_fields], or all. *)
Definition pick {A} (fs : option (list TField)) (f : TField) (new old : A) : A :=
  match fs with None => new | Some l => if mem f l then new else old end.

Definition write_fields (fs : option (list TField)) (new old : Tenant) : Tenant :=
  mkTenant (pick fs F_schema_name (t_schema_name new) (t_schema_name old))
    (pick fs F_company_name (t_company_name new) (t_company_name old))
    (pick fs F_description (t_description new) (t_description old))
    (pick fs F_shard (t_shard_id new) (t_shard_id old))
    (pick fs F_status (t_status new) (t_status old))
    (pick fs F_previous_status (t_previous_status new) (t_previous_status old))
    (pick fs F_status_changed_at (t_status_changed_at new) (t_status_changed_at old))
    (pick fs F_last_error (t_last_error new) (t_last_error old))
    (pick fs F_timezone (t_timezone new) (t_timezone old)).

(** The unique columns and the foreign key. *)
Definition tenant_clash (g : Registry) (pk : Z) (t : Tenant) : bool :=
  existsb (λ kt, negb (kt.1 =? pk)%Z
                 && (String.eqb (t_schema_name kt.2) (t_schema_name t)
                     || String.eqb (t_company_name kt.2) (t_company_name t)))
    (map_to_list (g_tenants g))
  || negb (bool_decide (is_Some (g_shards g !! t_shard_id t))).

(** INSERT of a new tenant; [seq] is the key the sequence hands out. *)
Definition tenant_insert_stmt (seq : Z) (t : Tenant) (v : Srv) : res exn Z * Srv * list Action :=
  if bool_decide (is_Some (g_tenants (v_reg v) !! seq)) || tenant_clash (v_reg v) seq t
  then (Err (integrity_error "duplicate key value violates unique constraint"), v, [])
  else (Ok seq, set_reg (set_tenants (<[seq := t]>)) v, [AInsert seq (t_status t)]).

(** UPDATE of the row by primary key. *)
Definition tenant_update_stmt (pk : Z) (fs : option (list TField)) (t : Tenant) (v : Srv) :
    res exn unit * Srv * list Action :=
  match g_tenants (v_reg v) !! pk with
  | None => (Err no_rows_saved, v, [])
  | Some old =>
      let row := write_fields fs t old in
      if tenant_clash (v_reg v) pk row
      then (Err (integrity_error "duplicate key value violates unique constraint"), v, [])
      else (Ok tt, set_reg (set_tenants (<[pk := row]>)) v,
            if bool_decide (t_status row = t_status old) then []
            else [AStatus pk (t_status row) (t_previous_status row) (v_reg v)])
  end.

(** [ZoneInfo(value)], which raises [ZoneInfoNotFoundError] or [ValueError]. *)
Definition _validate_timezone (zone_ok : string → bool) (value : option string) : res clean_error unit :=
  match value with
  | None | Some EmptyString => Ok tt
  | Some v => if zone_ok v then Ok tt
              else Err (FieldError "timezone" (py_repr v +:+ " is not a valid IANA timezone."))
  end.

Definition tenant_clean (rules : list ReservedHostRule) (shard : Shard) (o : TenantInst) :
    res clean_error TenantInst :=
  if String.eqb (t_schema_name (ti_row o)) PUBLIC then
    if negb (sh_is_default shard) then Err (FieldError "shard" "Public schema must be on the default shard.")
    else Ok o
  else if sh_is_default shard then Err (FieldError "shard" "Business tenants cannot live on the default shard.")
  else if negb (sh_is_active shard) then Err (FieldError "shard" "Selected shard is not active.")
  else match ti_pk o with
       | Some _ => Ok o
       | None =>
           name <-? invalid (validate_schema_name (t_schema_name (ti_row o))) ;;
           _ <-? invalid (validate_tenant_schema_name rules name) ;;
           Ok (ti_set (set_schema_name name) o)
       end.

(** ** Domain *)

Record DomainInst := mkDI {
  di_id : option Z;
  di_domain : string;
  di_tenant : Z;
  di_primary : bool;
  di_loaded : option string;     (** [_loaded_domain] *)
}.

Definition domain_from_db (loads_domain : bool) (host : string) (d : Domain) : DomainInst :=
  mkDI (Some (d_id d)) host (d_tenant_id d) (d_is_primary d) (if loads_domain then Some host else None).

(** [Domain.clean]; [owner] is the schema of the tenant the domain points at. *)
Definition domain_clean (public_domains : list (string * string)) (rules : list ReservedHostRule)
    (owner : option string) (d : DomainInst) : res clean_error DomainInst :=
  if bool_decide (owner = Some PUBLIC) then Ok d
  else host <-? invalid (validate_tenant_domain PUBLIC public_domains rules (di_domain d)) ;;
       Ok (mkDI (di_id d) host (di_tenant d) (di_primary d) (di_loaded d)).

(** [DomainMixin.save] of django-tenants: writes the row, keeps one primary
    domain per tenant; the unique column and the CHECK of the table hold. *)
Class DomainMixin := {
  sql_lower : string → string;
  dm_save : Z → DomainInst → Registry → res exn (Domain * Registry);
  dm_save_row seq o g d g' :
    dm_save seq o g = Ok (d, g') →
    d_tenant_id d = di_tenant o ∧ (di_id o = Some (d_id d) ∨ (di_id o = None ∧ d_id d = seq))
    ∧ domain_check sql_lower (di_domain o) = true
    ∧ g' = set_domains (λ _, g_domains g') g
    ∧ g_domains g' !! di_domain o = Some d;
  dm_save_others seq o g d g' host x :
    dm_save seq o g = Ok (d, g') → host ≠ di_domain o → g_domains g' !! host = Some x →
    ∃ y, g_domains g !! host = Some y ∧ d_id y = d_id x ∧ d_tenant_id y = d_tenant_id x ∧ d_id x ≠ d_id d;
}.

Section methods.
Context `{Invalidator} `{!HostInvalidator}.

(** ** Receivers of src/tenants/signals.py *)

Definition invalidate_domain_saved (host : string) : CM unit :=
  forget_host_c host $;; on_commit (HHostSaved host).
Definition invalidate_domain_deleted (host : string) : CM unit :=
  forget_host_c host $;; on_commit (HHostDeleted host).
Definition invalidate_tenant (t : TenantObj) : CM unit := forget_tenant_c t.
Definition invalidate_tenant_deleted (schema : string) : CM unit := forget_schema_c schema.

(** ** Saving *)

Definition tenant_row_save (seq : Z) (fs : option (list TField)) (o : TenantInst) : M Z :=
  match ti_pk o with
  | None => query "default" (tenant_insert_stmt seq (ti_row o))
  | Some pk => query "default" (tenant_update_stmt pk fs (ti_row o)) ;;; ret pk
  end.

(** The object a receiver is handed; only its key and schema are used. *)
Definition as_obj (pk : Z) (shard : Shard) (row : Tenant) : TenantObj := mkTenantObj pk row shard.

(** [Tenant.save(update_fields=uf)]; an empty [update_fields] makes Django
    return without a query or a signal. *)
Definition tenant_save (seq : Z) (shard : Shard) (uf : option (list TField)) (o : TenantInst) : CM TenantInst :=
  now <-$ timezone_now ;;
  let '(o1, fs) := stamp now uf o in
  match fs with
  | Some [] => cret o1
  | _ =>
      pk <-$ up (tenant_row_save seq fs o1) ;;
      invalidate_tenant (as_obj pk shard (ti_row o1)) $;;
      cret (mkTI (Some pk) false (ti_row o1) (ti_loaded o1))
  end.

Definition domain_save `{DomainMixin} (seq : Z) (d : DomainInst) : CM DomainInst :=
  let host := normalize_host (di_domain d) in
  let d1 := mkDI (di_id d) host (di_tenant d) (di_primary d) (di_loaded d) in
  row <-$ up (query "default" (λ v,
           match dm_save seq d1 (v_reg v) with
           | Ok (row, g) => (Ok row, set_reg (λ _, g) v, [])
           | Err e => (Err e, v, [])
           end)) ;;
  invalidate_domain_saved host $;;
  (match di_loaded d with
   | Some old => if String.eqb old host then cret tt else on_commit (HForgetHost old)
   | None => cret tt
   end) $;;
  cret (mkDI (Some (d_id row)) host (d_tenant_id row) (d_is_primary row) (Some host)).

(** ** Deleting *)

Definition shard_delete (pk : Z) (s : Shard) : CM unit :=
  if sh_is_default s
  then craise (protected_error "Default shard cannot be deleted - it is reserved for the public schema.")
  else up (query "default" (shard_delete_stmt pk)).

Fixpoint domain_signals (hosts : list string) : CM unit :=
  match hosts with
  | [] => cret tt
  | h :: hs => invalidate_domain_deleted h $;; domain_signals hs
  end.

(** The collector deletes the tenant's domains, then the tenant, in one
    transaction, and sends [post_delete] for each. *)
Definition tenant_delete_stmt (pk : Z) (v : Srv) : res exn (list string) * Srv * list Action :=
  (Ok (tenant_hosts (v_reg v) pk),
   set_reg (λ g, set_tenants (delete pk) (set_domains (filter (λ kd, d_tenant_id kd.2 ≠ pk)) g)) v,
   [ADelete pk (v_reg v)]).

Definition tenant_delete (t : TenantObj) : CM unit :=
  if String.eqb (o_schema t) PUBLIC then
    craise (protected_error "Public tenant cannot be deleted - it is required by django-tenants to route requests on the public host.")
  else
    nested_atomic
      (hosts <-$ up (query "default" (tenant_delete_stmt (o_pk t))) ;;
       domain_signals hosts $;;
       invalidate_tenant_deleted (o_schema t)).

(** ** The writer of [Tenant.timezone] *)

Definition set_timezone (tz : option string) (t : Tenant) : Tenant :=
  mkTenant (t_schema_name t) (t_company_name t) (t_description t) (t_shard_id t) (t_status t)
    (t_previous_status t) (t_status_changed_at t) (t_last_error t) tz.

Definition sync_tenant_timezone (schema_name : string) (tz : option string) : CM nat :=
  up (query "default" (λ v,
    let hit := filter (λ kt, t_schema_name kt.2 = schema_name) (g_tenants (v_reg v)) in
    (Ok (size hit), set_reg (set_tenants (λ m, (set_timezone tz <$> hit) ∪ m)) v, []))).

End methods.
