(* ===== verification/Probes.v ===== *)
(** * Physical-state probes

    src/tenants/console/probes.py: what the shards contain, batched per shard and
    degraded per shard.  The rows of a schema's [django_migrations] and user
    table are read through two parameters (what the tables hold is data of the
    shard; [None] is a missing table); the queries over them are defined here. *)
From S2P Require Import Prelude PyStr Validators Models PyExc Logs World Lease Schema.
Open Scope tenants_scope.

(** [_SHARD_DOWN]: every [django.db.Error], a missing alias, and the driver's two. *)
Definition _SHARD_DOWN (e : exn) : bool :=
  match eo_class (x_obj e) with
  | DjangoOperationalError | DjangoInterfaceError | PsycopgOperationalError | PsycopgInterfaceError => true
  | _ => is_exception e && mem (eo_name (x_obj e)) ["ConnectionDoesNotExist"; "ProgrammingError"; "IntegrityError";
                                  "DatabaseError"; "DataError"; "InternalError"; "NotSupportedError"]
  end.

(** A row of [django_migrations] and one of the user table. *)
Record MigRow := mkMigRow { mr_id : Z; mr_app : string; mr_name : string; mr_applied : option Z }.
Record UserRow := mkUserRow { ur_id : Z; ur_username : string; ur_is_active : bool; ur_role : string }.

Definition COMPANY_ADMIN : string := "company_admin".

(** [_by_shard]: a dict in insertion order of sets. *)
Fixpoint dict_add (alias schema : string) (d : list (string * gset string)) : list (string * gset string) :=
  match d with
  | [] => [(alias, {[schema]})]
  | (a, ss) :: d' => if String.eqb a alias then (a, {[schema]} ∪ ss) :: d' else (a, ss) :: dict_add alias schema d'
  end.

Definition _by_shard (tenants : list TenantObj) : list (string * gset string) :=
  foldl (λ d t, dict_add (o_alias t) (o_schema t) d) [] tenants.

(** [ORDER BY ..., applied DESC NULLS LAST, id DESC]: [a] comes before [b]. *)
Definition comes_first (a b : MigRow) : bool :=
  match mr_applied a, mr_applied b with
  | Some x, Some y => (y <? x)%Z || ((x =? y)%Z && (mr_id b <=? mr_id a)%Z)
  | Some _, None => true
  | None, Some _ => false
  | None, None => (mr_id b <=? mr_id a)%Z
  end.

(** [DISTINCT ON (schema)]: the first row in that order. *)
Definition latest (rows : list MigRow) : option MigRow :=
  foldl (λ best r, match best with
                   | None => Some r
                   | Some b => if comes_first b r then Some b else Some r
                   end) None rows.

Definition undefined_table (s : string) : exn :=
  simple_exn OtherException "ProgrammingError" ("relation of schema " +:+ s +:+ " does not exist").

(** A UNION ALL over the listed schemas: fails when one of the tables is gone. *)
Fixpoint union_all {A} (rows : string → option (list A)) (schemas : list string) : res exn (list (string * list A)) :=
  match schemas with
  | [] => Ok []
  | s :: ss =>
      match rows s with
      | None => Err (undefined_table s)
      | Some l => match union_all rows ss with Ok r => Ok ((s, l) :: r) | Err e => Err e end
      end
  end.

Section probes.
Context `{Invalidator}.
Context (django_migrations : ShardDb → string → option (list MigRow)).
Context (users : ShardDb → string → option (list UserRow)).

(** The loop of [_for_each_shard]; [probe] returns what it adds to the result. *)
Fixpoint shard_loop {X} (probe : string → list string → M (list X)) (d : list (string * gset string)) : M (list X) :=
  match d with
  | [] => ret []
  | (alias, schemas) :: d' =>
      found <-! catch (ensure_connection alias ;;; probe alias (merge_sort str_le (elements schemas)))
                  (λ e, if _SHARD_DOWN e then ret [] else raise e) ;;
      rest <-! shard_loop probe d' ;;
      ret (found ++ rest)
  end.

Definition _for_each_shard {X} (tenants : list TenantObj) (probe : string → list string → M (list X)) : M (list X) :=
  shard_loop probe (_by_shard tenants).

Definition existing_schemas (tenants : list TenantObj) : M (list (string * string)) :=
  _for_each_shard tenants (λ alias schemas,
    found <-! select alias (λ v, filter (λ s, is_Some (db_schemas (db_of alias v) !! s)) schemas) ;;
    ret ((λ s, (alias, s)) <$> found)).

Definition last_migrations (tenants : list TenantObj) : M (list ((string * string) * MigRow)) :=
  _for_each_shard tenants (λ alias schemas,
    present <-! select alias (λ v, filter (λ s, is_Some (django_migrations (db_of alias v) s)) schemas) ;;
    let migrated := filter (λ s, is_safe_schema_identifier s = true) present in
    match migrated with
    | [] => ret []
    | _ =>
        _ <-! lift (if forallb (λ s, is_ok (quote_schema s)) migrated then Ok tt
                    else Err (simple_exn OtherException "ValueError" "unsafe schema identifier")) ;;
        rows <-! query alias (λ v, (union_all (django_migrations (db_of alias v)) migrated, v, [])) ;;
        ret (omap (λ sr, (λ r, ((alias, sr.1), r)) <$> latest sr.2) rows)
    end).

(** [ORDER BY schema, 3]: the user names, ascending, within each schema. *)
Definition user_le (a b : UserRow) : Prop := str_le (ur_username a) (ur_username b).
#[local] Instance user_le_dec : RelDecision user_le.
Proof. intros a b. unfold user_le. apply _. Defined.

(** The rows of the union, grouped per schema; a schema without one has no entry. *)
Definition group_admins (alias : string) (rows : list (string * list UserRow)) : list ((string * string) * list UserRow) :=
  omap (λ sr, match merge_sort user_le (filter (λ u, ur_role u = COMPANY_ADMIN) sr.2) with
              | [] => None
              | l => Some ((alias, sr.1), l)
              end) rows.

Definition admins (tenants : list TenantObj) : M (list ((string * string) * list UserRow)) :=
  _for_each_shard (filter (λ t, is_safe_schema_identifier (o_schema t) = true) tenants) (λ alias schemas,
    present <-! select alias (λ v, filter (λ s, is_Some (users (db_of alias v) s)) schemas) ;;
    match present with
    | [] => ret []
    | _ =>
        _ <-! lift (if forallb (λ s, is_ok (quote_schema s)) present then Ok tt
                    else Err (simple_exn OtherException "ValueError" "unsafe schema identifier")) ;;
        rows <-! query alias (λ v, (union_all (users (db_of alias v)) present, v, [])) ;;
        ret (group_admins alias rows)
    end).

(** ** Grouping *)

Lemma dict_add_keys a s d x : x ∈ (dict_add a s d).*1 ↔ x = a ∨ x ∈ d.*1.
Proof.
  induction d as [|[b ss] d IH]; simpl; [by rewrite list_elem_of_singleton, elem_of_nil; naive_solver|].
  destruct (String.eqb b a) eqn:E; bool_props; subst; simpl; rewrite !elem_of_cons; naive_solver.
Qed.

Lemma dict_add_nodup a s d : NoDup d.*1 → NoDup (dict_add a s d).*1.
Proof.
  induction d as [|[b ss] d IH]; simpl; intros Hd; [by apply NoDup_singleton|].
  apply NoDup_cons in Hd as [Hb Hd]. destruct (String.eqb b a) eqn:E; bool_props; simpl.
  - by apply NoDup_cons.
  - apply NoDup_cons. split; [|by apply IH]. rewrite dict_add_keys. naive_solver.
Qed.

(** [(a, x)] is recorded in the dict. *)
Definition grouped (d : list (string * gset string)) (a x : string) : Prop := ∃ ss, (a, ss) ∈ d ∧ x ∈ ss.

Lemma grouped_cons c ss d a x : grouped ((c, ss) :: d) a x ↔ (a = c ∧ x ∈ ss) ∨ grouped d a x.
Proof. unfold grouped. setoid_rewrite elem_of_cons. naive_solver. Qed.

Lemma dict_add_grouped a s d b x : grouped (dict_add a s d) b x ↔ grouped d b x ∨ (b = a ∧ x = s).
Proof.
  induction d as [|[c ss] d IH]; simpl.
  - rewrite grouped_cons, elem_of_singleton. unfold grouped. setoid_rewrite elem_of_nil. naive_solver.
  - destruct (String.eqb c a) eqn:E; bool_props; subst; rewrite !grouped_cons, ?IH; set_solver.
Qed.

Lemma by_shard_spec tenants :
  NoDup (_by_shard tenants).*1
  ∧ ∀ a x, grouped (_by_shard tenants) a x ↔ ∃ t, t ∈ tenants ∧ o_alias t = a ∧ o_schema t = x.
Proof.
  unfold _by_shard. induction tenants as [|t l [Hn Hi]] using rev_ind; simpl.
  - split; [constructor|]. unfold grouped. setoid_rewrite elem_of_nil. naive_solver.
  - rewrite foldl_app. simpl. split; [by apply dict_add_nodup|]. intros a x.
    rewrite dict_add_grouped, Hi. setoid_rewrite elem_of_app. setoid_rewrite list_elem_of_singleton. naive_solver.
Qed.

(** ** Undisturbed runs *)

(** Nothing happened to the servers, and the same aliases are configured. *)
Definition same (w w' : World) : Prop :=
  w_script w' = [] ∧ w_srv w' = w_srv w ∧ ∀ a, is_Some (w_conns w' !! a) ↔ is_Some (w_conns w !! a).

Definition calm {A} (m : M A) (w : World) (r : res exn A) : Prop := ∃ w', m w = (r, w') ∧ same w w'.

Lemma same_trans w1 w2 w3 : same w1 w2 → same w2 w3 → same w1 w3.
Proof. intros (?&E1&H1) (?&E2&H2). repeat split; [done|congruence|rewrite H2, H1; done..]. Qed.

Lemma calm_bind {A B} (m : M A) (k : A → M B) w a r :
  calm m w (Ok a) → (∀ w', same w w' → calm (k a) w' r) → calm (bind m k) w r.
Proof.
  intros (w1 & E & H1) Hk. destruct (Hk w1 H1) as (w2 & E2 & H2). exists w2. unfold bind. rewrite E.
  split; [done|]. by eapply same_trans.
Qed.

Lemma calm_ret {A} (a : A) w : w_script w = [] → calm (ret a) w (Ok a).
Proof. intros Hs. exists w. split; [done|]. by repeat split. Qed.

Lemma set_conn_same w a f : w_script w = [] → same w (upd_conns (alter f a) w).
Proof.
  intros Hs. repeat split; simpl; try done; intros Hb; revert Hb; rewrite lookup_alter_is_Some; done.
Qed.

Lemma calm_ensure a w : w_script w = [] → is_Some (w_conns w !! a) → calm (ensure_connection a) w (Ok tt).
Proof.
  intros Hs [c Hc]. unfold calm, ensure_connection, bind, connection. rewrite Hc.
  destruct (c_raw c); [by apply calm_ret|]. unfold next_event. rewrite Hs. simpl.
  eexists. split; [done|]. by apply set_conn_same.
Qed.

(** A statement that leaves the servers alone. *)
Lemma calm_query {A} a (f : Srv → res exn A) w :
  w_script w = [] → is_Some (w_conns w !! a) →
  calm (query a (λ v, (f v, v, []))) w (f (w_srv w)).
Proof.
  intros Hs Hc. destruct (calm_ensure a w Hs Hc) as (w1 & E & H1). unfold calm, query, bind. rewrite E.
  destruct H1 as (Hs1 & Hv1 & Hc1). unfold round_trip, bind, next_event. rewrite Hs1, Hv1. simpl.
  destruct (f (w_srv w)) as [x|e]; eexists; (split; [done|]);
    (eapply same_trans; [|apply set_conn_same; done]); repeat split; simpl; try done; apply Hc1.
Qed.

Lemma calm_select {A} a (f : Srv → A) w :
  w_script w = [] → is_Some (w_conns w !! a) → calm (select a f) w (Ok (f (w_srv w))).
Proof. apply (calm_query a (λ v, Ok (f v))). Qed.

(** A shard whose alias is not configured is skipped. *)
Lemma missing_is_down a : _SHARD_DOWN (conn_missing a) = true.
Proof. done. Qed.

Definition configured (w : World) (a : string) : bool := bool_decide (is_Some (w_conns w !! a)).

Lemma shard_loop_calm {X} (probe : string → list string → M (list X)) (out : Srv → string → list string → list X) d w :
  w_script w = [] →
  (∀ w a l, w_script w = [] → is_Some (w_conns w !! a) → calm (probe a l) w (Ok (out (w_srv w) a l))) →
  calm (shard_loop probe d) w
    (Ok (d ≫= λ '(a, ss), if configured w a then out (w_srv w) a (merge_sort str_le (elements ss)) else [])).
Proof.
  intros Hs Hp. revert w Hs. induction d as [|[a ss] d IH]; intros w Hs; [by apply calm_ret|].
  cbn [shard_loop mbind list_bind].
  eapply calm_bind with (a := if configured w a then out (w_srv w) a (merge_sort str_le (elements ss)) else []).
  - unfold configured. case_bool_decide as Hc.
    + assert (calm (ensure_connection a;;; probe a (merge_sort str_le (elements ss))) w
                (Ok (out (w_srv w) a (merge_sort str_le (elements ss))))) as (w' & E & Hw).
      { eapply calm_bind; [by apply calm_ensure|]. intros w1 (Hs1 & <- & Hc1). apply Hp; [done|by apply Hc1]. }
      exists w'. unfold catch. by rewrite E.
    + exists w. unfold catch, ensure_connection, bind, connection.
      destruct (w_conns w !! a) eqn:E; [by destruct Hc|]. rewrite missing_is_down.
      change (is_exception (conn_missing a)) with true. split; [done|]. by repeat split.
  - intros w1 (Hs1 & Hv1 & Hc1). eapply calm_bind; [by apply IH|]. intros w2 Hw2.
    assert (∀ b, configured w1 b = configured w b) as Hconf
      by (intros b; apply bool_decide_ext, Hc1).
    erewrite (list_bind_ext _ (λ '(a, ss), if configured w a then _ else []) d d); [by apply calm_ret, Hw2| |done].
    intros [b bs]. by rewrite Hv1, Hconf.
Qed.

Lemma for_each_elem {X} (out : Srv → string → list string → list X) tenants w x :
  x ∈ (_by_shard tenants ≫= λ '(a, ss), if configured w a then out (w_srv w) a (merge_sort str_le (elements ss)) else [])
  ↔ ∃ a ss, (a, ss) ∈ _by_shard tenants ∧ is_Some (w_conns w !! a)
      ∧ x ∈ out (w_srv w) a (merge_sort str_le (elements ss)).
Proof.
  rewrite list_elem_of_bind. split.
  - intros ([a ss] & Hx & Hin). unfold configured in Hx. case_bool_decide; [eauto|by apply elem_of_nil in Hx].
  - intros (a & ss & Hin & Hc & Hx). exists (a, ss). split; [|done]. unfold configured. by rewrite bool_decide_true.
Qed.

Lemma sorted_elem (ss : gset string) x : x ∈ merge_sort str_le (elements ss) ↔ x ∈ ss.
Proof. by rewrite merge_sort_Permutation, elem_of_elements. Qed.

(** What a probe sees of one requested schema, as a set over all shards. *)
Lemma grouped_requested tenants (P : string → string → Prop) :
  (∃ a ss, (a, ss) ∈ _by_shard tenants ∧ ∃ x, x ∈ ss ∧ P a x)
  ↔ ∃ t, t ∈ tenants ∧ P (o_alias t) (o_schema t).
Proof.
  destruct (by_shard_spec tenants) as [_ Hg]. split.
  - intros (a & ss & Hin & x & Hx & HP). destruct (proj1 (Hg a x)) as (t & Ht & <- & <-); [by exists ss|eauto].
  - intros (t & Ht & HP). destruct (proj2 (Hg (o_alias t) (o_schema t))) as (ss & Hin & Hx); [eauto|]. eauto 10.
Qed.

(** ** The three probes *)

Lemma union_all_present {A} (rows : string → option (list A)) l :
  Forall (λ s, is_Some (rows s)) l → union_all rows l = Ok (omap (λ s, (λ r, (s, r)) <$> rows s) l).
Proof.
  induction 1 as [|s l [r Hr] _ IH]; simpl; [done|]. rewrite Hr, IH. done.
Qed.

Lemma quote_safe l : Forall (λ s, is_safe_schema_identifier s = true) l → forallb (λ s, is_ok (quote_schema s)) l = true.
Proof.
  intros Hl. apply forallb_Forall. eapply Forall_impl; [exact Hl|]. intros s Hs. unfold quote_schema. by rewrite Hs.
Qed.

Lemma Forall_filter_and (P Q : string → Prop) `{∀ x, Decision (P x)} `{∀ x, Decision (Q x)} l :
  Forall (λ s, P s ∧ Q s) (filter P (filter Q l)).
Proof. apply Forall_forall. intros s. rewrite !list_elem_of_filter. tauto. Qed.

Lemma omap_omap {A B D} (f : A → option B) (g : B → option D) (l : list A) :
  omap g (omap f l) = omap (λ x, f x ≫= g) l.
Proof. induction l as [|x l IH]; [done|]. csimpl. destruct (f x) as [y|]; csimpl; by rewrite IH. Qed.

(** One union query over the schemas that have the table, then [pick] per schema. *)
Lemma calm_union {A X} (a : string) (rows : ShardDb → string → option (list A)) (pick : string → list A → option X) l w :
  w_script w = [] → is_Some (w_conns w !! a) →
  Forall (λ s, is_Some (rows (db_of a (w_srv w)) s) ∧ is_safe_schema_identifier s = true) l →
  calm (_ <-! lift (if forallb (λ s, is_ok (quote_schema s)) l then Ok tt
                    else Err (simple_exn OtherException "ValueError" "unsafe schema identifier")) ;;
        rs <-! query a (λ v, (union_all (rows (db_of a v)) l, v, [])) ;;
        ret (omap (λ sr, pick sr.1 sr.2) rs)) w
    (Ok (omap (λ s, rows (db_of a (w_srv w)) s ≫= pick s) l)).
Proof.
  intros Hs Hc Hl. eapply calm_bind.
  { rewrite quote_safe; [by exists w; repeat split|]. eapply Forall_impl; [exact Hl|]. by intros ? []. }
  intros w1 (Hs1 & Hv1 & Hc1). eapply calm_bind.
  { rewrite <- (union_all_present (rows (db_of a (w_srv w))) l) by (eapply Forall_impl; [exact Hl|]; by intros ? []).
    rewrite <- Hv1. apply (calm_query a (λ v, union_all (rows (db_of a v)) l)); [done|by apply Hc1]. }
  intros w2 (Hs2 & Hv2 & Hc2). rewrite omap_omap.
  rewrite (list_omap_ext _ (λ s, rows (db_of a (w_srv w)) s ≫= pick s) l l).
  { by apply calm_ret. }
  apply Forall_Forall2_diag, Forall_true. intros s. simpl. by destruct (rows (db_of a (w_srv w)) s).
Qed.

(** What the probes add for one shard. *)
Definition existing_out (v : Srv) (a : string) (l : list string) : list (string * string) :=
  (λ s, (a, s)) <$> filter (λ s, is_Some (db_schemas (db_of a v) !! s)) l.
Definition last_out (v : Srv) (a : string) (l : list string) : list ((string * string) * MigRow) :=
  omap (λ s, django_migrations (db_of a v) s ≫= λ rows, (λ r, ((a, s), r)) <$> latest rows)
    (filter (λ s, is_safe_schema_identifier s = true)
      (filter (λ s, is_Some (django_migrations (db_of a v) s)) l)).

Theorem existing_schemas_exact tenants w :
  w_script w = [] →
  ∃ l, calm (existing_schemas tenants) w (Ok l)
    ∧ ∀ a s, (a, s) ∈ l ↔ ∃ t, t ∈ tenants ∧ o_alias t = a ∧ o_schema t = s
        ∧ is_Some (w_conns w !! a) ∧ is_Some (db_schemas (db_of a (w_srv w)) !! s).
Proof.
  intros Hs. eexists. split.
  - apply (shard_loop_calm _ existing_out); [done|].
    intros w1 a l Hs1 Hc1. eapply calm_bind; [by apply calm_select|]. intros w2 Hw2. apply calm_ret, Hw2.
  - intros a s. etransitivity; [apply (for_each_elem existing_out)|].
    rewrite <- (grouped_requested tenants (λ b x, b = a ∧ x = s ∧ is_Some (w_conns w !! a)
                  ∧ is_Some (db_schemas (db_of a (w_srv w)) !! s))).
    unfold existing_out. setoid_rewrite list_elem_of_fmap. setoid_rewrite list_elem_of_filter. setoid_rewrite sorted_elem. split.
    + intros (b & ss & Hin & Hc & x & [= -> ->] & He & Hx). eauto 10.
    + intros (b & ss & Hin & x & Hx & -> & -> & Hc & He). eauto 10.
Qed.

(** What [last_migrations] reports of schema [s]. *)
Definition last_of (db : ShardDb) (s : string) : option MigRow :=
  if is_safe_schema_identifier s then django_migrations db s ≫= latest else None.

Lemma last_probe_elem v a l s r :
  ((a, s), r) ∈ last_out v a l ↔ s ∈ l ∧ last_of (db_of a v) s = Some r.
Proof.
  unfold last_out, last_of. rewrite list_elem_of_omap. split.
  - intros (x & Hx & E). rewrite !list_elem_of_filter in Hx. destruct Hx as (Hsafe & _ & Hx).
    destruct (django_migrations (db_of a v) x) as [rows|] eqn:Er; [|done]. simpl in E.
    destruct (latest rows) as [r'|] eqn:El; [|done]. simplify_eq/=. by rewrite Hsafe, Er.
  - intros [Hx E]. exists s. rewrite !list_elem_of_filter.
    destruct (is_safe_schema_identifier s); [|done]. destruct (django_migrations (db_of a v) s) as [rows|]; [|done].
    simpl in *. rewrite E. eauto.
Qed.

Lemma last_probe_calm w a l :
  w_script w = [] → is_Some (w_conns w !! a) →
  calm (present <-! select a (λ v, filter (λ s, is_Some (django_migrations (db_of a v) s)) l) ;;
        let migrated := filter (λ s, is_safe_schema_identifier s = true) present in
        match migrated with
        | [] => ret []
        | _ =>
            _ <-! lift (if forallb (λ s, is_ok (quote_schema s)) migrated then Ok tt
                        else Err (simple_exn OtherException "ValueError" "unsafe schema identifier")) ;;
            rows <-! query a (λ v, (union_all (django_migrations (db_of a v)) migrated, v, [])) ;;
            ret (omap (λ sr, (λ r, ((a, sr.1), r)) <$> latest sr.2) rows)
        end) w
    (Ok (last_out (w_srv w) a l)).
Proof.
  intros Hs Hc. eapply calm_bind; [by apply calm_select|]. intros w1 (Hs1 & Hv1 & Hc1). cbn zeta. unfold last_out.
  pose proof (Forall_filter_and (λ s, is_safe_schema_identifier s = true)
    (λ s, is_Some (django_migrations (db_of a (w_srv w)) s)) l) as Hall.
  destruct (filter _ (filter _ l)) as [|m ms] eqn:E; [by apply calm_ret|]. rewrite <- Hv1 in Hall |- *.
  apply (calm_union a django_migrations (λ s rows, (λ r, ((a, s), r)) <$> latest rows)); [done|by apply Hc1|].
  eapply Forall_impl; [exact Hall|]. by intros ? [].
Qed.

(** In an undisturbed run the console's last-migration
    column holds exactly, for every requested tenant whose shard is configured and
    whose schema name is safe to interpolate, the newest row of that schema's
    [django_migrations] (by time with NULLs last, then id); tenants of an
    unconfigured shard are left out and the page still renders. *)
Theorem last_migrations_exact tenants w :
  w_script w = [] →
  ∃ l, calm (last_migrations tenants) w (Ok l)
    ∧ ∀ a s r, ((a, s), r) ∈ l ↔ ∃ t, t ∈ tenants ∧ o_alias t = a ∧ o_schema t = s
        ∧ is_Some (w_conns w !! a) ∧ last_of (db_of a (w_srv w)) s = Some r.
Proof.
  intros Hs. eexists. split.
  - apply (shard_loop_calm _ last_out); [done|]. apply last_probe_calm.
  - intros a s r. etransitivity; [apply (for_each_elem last_out)|].
    rewrite <- (grouped_requested tenants (λ b x, b = a ∧ x = s ∧ is_Some (w_conns w !! a)
                  ∧ last_of (db_of a (w_srv w)) s = Some r)). split.
    + intros (b & ss & Hin & Hc & Hx). pose proof Hx as Hx2. unfold last_out in Hx2. apply list_elem_of_omap in Hx2 as (x & _ & E).
      destruct (django_migrations (db_of b (w_srv w)) x) as [rows|]; [|done]. simpl in E.
      destruct (latest rows); [|done]. simplify_eq/=. apply last_probe_elem in Hx as [Hx ?].
      apply sorted_elem in Hx. eauto 10.
    + intros (b & ss & Hin & x & Hx & -> & -> & Hc & He). exists a, ss. repeat split; try done.
      apply last_probe_elem. split; [by apply sorted_elem|done].
Qed.

(** The newest row, and [None] exactly for an empty table. *)
Lemma comes_first_total a b : comes_first a b = true ∨ comes_first b a = true.
Proof.
  unfold comes_first. destruct (mr_applied a) as [x|], (mr_applied b) as [y|]; auto.
  - destruct (Z.lt_trichotomy x y) as [?|[->|?]].
    + right. apply orb_true_iff. left. by apply Z.ltb_lt.
    + rewrite Z.eqb_refl. destruct (Z.le_ge_cases (mr_id a) (mr_id b)); [right|left];
        apply orb_true_iff; right; by apply Z.leb_le.
    + left. apply orb_true_iff. left. by apply Z.ltb_lt.
  - destruct (Z.le_ge_cases (mr_id a) (mr_id b)); [right|left]; by apply Z.leb_le.
Qed.

Lemma comes_first_trans a b c : comes_first a b = true → comes_first b c = true → comes_first a c = true.
Proof.
  unfold comes_first. destruct (mr_applied a), (mr_applied b), (mr_applied c); intros; bool_props; try done; try lia.
Qed.

Lemma latest_newest rows r :
  latest rows = Some r → r ∈ rows ∧ ∀ r', r' ∈ rows → comes_first r r' = true.
Proof.
  assert (comes_first r r = true) as Hrefl by (destruct (comes_first_total r r); done).
  revert r Hrefl. unfold latest. induction rows as [|x rows IH] using rev_ind; [done|]. intros r Hrefl.
  rewrite foldl_app. simpl. destruct (foldl _ None rows) as [b|] eqn:E.
  - destruct (IH b) as [Hb Hall]; [by destruct (comes_first_total b b)|done|].
    destruct (comes_first b x) eqn:Ec; intros [= <-].
    + split; [set_solver|]. intros r' [?| ->%list_elem_of_singleton]%elem_of_app; auto.
    + split; [set_solver|]. intros r' [Hr| ->%list_elem_of_singleton]%elem_of_app; [|done].
      destruct (comes_first_total b x) as [?|Hx]; [congruence|]. by apply (comes_first_trans x b), Hall.
  - intros [= <-]. split; [set_solver|]. intros r' [Hr| ->%list_elem_of_singleton]%elem_of_app; [|done].
    destruct rows as [|y rows] using rev_ind; [by apply elem_of_nil in Hr|].
    rewrite foldl_app in E. simpl in E. by destruct (foldl _ None rows) as [z|]; [destruct (comes_first z y)|].
Qed.

(** Whatever the shards do, only an exception outside [_SHARD_DOWN] leaves a probe. *)
Theorem probe_degrades {X} tenants (probe : string → list string → M (list X)) w e w' :
  _for_each_shard tenants probe w = (Err e, w') → _SHARD_DOWN e = false.
Proof.
  unfold _for_each_shard. generalize (_by_shard tenants). intros d. revert w.
  induction d as [|[a ss] d IH]; intros w; cbn [shard_loop]; [done|]. unfold bind at 1, catch at 1.
  set (m := (ensure_connection a;;; probe a (merge_sort str_le (elements ss)))). intros E.
  destruct (m w) as [[x|e1] w1] eqn:Em.
  - unfold bind in E. destruct (shard_loop probe d w1) as [[y|e2] w2] eqn:E2; simplify_eq/=; eauto.
  - destruct (_SHARD_DOWN e1) eqn:Ed.
    + assert (is_exception e1 = true) as Hx.
      { unfold _SHARD_DOWN in Ed. unfold is_exception.
        destruct (eo_class (x_obj e1)) eqn:Ec; try done; unfold is_exception in Ed; rewrite Ec in Ed; done. }
      rewrite Hx in E. unfold bind, ret in E. destruct (shard_loop probe d w1) as [[y|e2] w2] eqn:E2; simplify_eq/=; eauto.
    + destruct (is_exception e1); simplify_eq/=; [|done].
      unfold raised_while_handling in *. rewrite bool_decide_true in * by done. done.
Qed.

End probes.
