(* ===== verification/Console.v ===== *)
(** * The console API

    src/tenants/console/serializers.py and views.py: the viewsets for shards and
    tenants, as programs in the request monad.  A view gets the object, answers
    with a [Response] or raises one of the API exceptions.  What the serializer's
    plain fields check (presence, lengths) is done before: a request arrives here
    as a record of its parsed input. *)
From S2P Require Import Prelude PyStr Validators Models PyExc Logs World Lease Schema Trace Migrator.
From S2P Require Import Requests ModelMethods Probes.
From Stdlib Require Import Ascii.
Open Scope tenants_scope.

(** ** Exceptions and responses *)

Definition http404 : exn := simple_exn Http404 "Http404" "Not found.".
Definition permission_denied (msg : string) : exn := simple_exn OtherException "PermissionDenied" msg.
Definition TenantMaintenance (what : string) : exn :=
  simple_exn OtherException "TenantMaintenance"
    ("Tenant is in maintenance; " +:+ what +:+ " — managed by the platform admin.").

(** One entry of a serializer's error dict. *)
Inductive ApiError := ApiMsg (field msg : string) | ApiInvalid (field : string) (e : verror).

(** The rendering of a tenant: the columns and the three probed fields. *)
Record TenantData := mkTenantData {
  td_tenant : TenantObj;
  td_domains : list (string * Domain);
  td_schema_exists : bool;
  td_is_public : bool;
  td_last_migration : option MigRow;
  td_admins : list UserRow;
}.

Inductive Body :=
| BDict (kvs : list (string * string))
| BBlocked (detail code : string) (pending : option (list string))
| BErrors (errors : list ApiError)
| BTenant (t : TenantData)
| BShard (pk : Z) (s : Shard) (tenant_count : option nat)
| BUser (id : Z) (username tenant role : string)
| BNone.

Record Response := mkResponse { rp_status : Z; rp_body : Body }.

Definition detail (status : Z) (msg : string) : Response := mkResponse status (BDict [("detail", msg)]).

(** ** psql's aligned table *)

Definition spaces (n : nat) : string := of_chars (replicate n " "%char).
Definition dashes (n : nat) : string := of_chars (replicate n "-"%char).
Definition newline : ascii := ascii_of_nat 10.

Definition cell_lines (cell : option string) : list string := py_split newline (default "" cell).

(** The widths after all rows: each column as wide as its widest line. *)
Definition widen (widths : list nat) (cells : list (list string)) : list nat :=
  zip_with (λ w lines, foldl (λ w ln, Nat.max w (String.length ln)) w lines) widths cells.

Definition hcell (text : string) (w : nat) : string :=
  let pad := w - String.length text in
  " " +:+ spaces (pad / 2) +:+ text +:+ spaces (pad - pad / 2) +:+ " ".
Definition ljust (text : string) (w : nat) : string := text +:+ spaces (w - String.length text).
Definition dcell (text : string) (w : nat) (cont : bool) : string :=
  " " +:+ ljust text w +:+ (if cont then "+" else " ").

Definition data_line (widths : list nat) (cells : list (list string)) (sub : nat) : string :=
  String.concat "|" (zip_with (λ w lines,
    dcell (default "" (lines !! sub)) w (sub + 1 <? length lines)%nat) widths cells).

Definition row_lines (widths : list nat) (cells : list (list string)) : list string :=
  map (data_line widths cells) (seq 0 (foldl (λ n lines, Nat.max n (length lines)) 0 cells)).

Definition table_widths (headers : list string) (rows : list (list (option string))) : list nat :=
  foldl widen (map String.length headers) (map (map cell_lines) rows).

Definition header_line (headers : list string) (widths : list nat) : string :=
  String.concat "|" (zip_with hcell headers widths).
Definition sep_line (widths : list nat) : string :=
  String.concat "+" (map (λ w, dashes (w + 2)) widths).

(** The lines between the title and the footer. *)
Definition table_lines (headers : list string) (rows : list (list (option string))) : list string :=
  let widths := table_widths headers rows in
  header_line headers widths :: sep_line widths
    :: (rows ≫= λ row, row_lines widths (map cell_lines row)).

Definition _psql_aligned (headers : list string) (rows : list (list (option string))) (title : string) : string :=
  let widths := table_widths headers rows in
  let header := header_line headers widths in
  let top := spaces ((String.length header - String.length title) / 2) +:+ title in
  let footer := "(" +:+ py_int (Z.of_nat (length rows)) +:+ " row" +:+ (if (length rows =? 1)%nat then "" else "s") +:+ ")" in
  String.concat (String newline "") (top :: table_lines headers rows ++ [footer]).

(** ** Serializers *)

(** Input of the tenant form after the plain field checks. *)
Record CreateInput := mkCreateInput {
  in_schema_name : string;
  in_company_name : string;
  in_description : string;
  in_shard_id : Z;
  in_domain : string;
}.
Record UpdateInput := mkUpdateInput {
  up_company_name : option string;
  up_description : option string;
  up_domain : option string;
}.

(** [PrimaryKeyRelatedField(queryset=Shard.objects.filter(is_active=True, is_default=False))]. *)
Definition shard_field (g : Registry) (pk : Z) : option Shard :=
  s ← g_shards g !! pk; if sh_is_active s && negb (sh_is_default s) then Some s else None.

(** The Domain table joined with its tenants. *)
Definition domain_rows (g : Registry) : list (string * string) :=
  omap (λ kd, (λ t, (kd.1, t_schema_name t)) <$> (g_tenants g !! d_tenant_id kd.2)) (map_to_list (g_domains g)).

(** [instance.domains.filter(is_primary=True).first()]: ordered by key. *)
Definition primary_of (g : Registry) (pk : Z) : option (string * Domain) :=
  foldl (λ best kd, match best with
                    | None => Some kd
                    | Some b => if (d_id b.2 <=? d_id kd.2)%Z then Some b else Some kd
                    end) None
    (map_to_list (filter (λ kd, d_tenant_id kd.2 = pk ∧ d_is_primary kd.2 = true) (g_domains g))).

Definition schema_taken (g : Registry) (schema : string) : bool :=
  existsb (λ kt, String.eqb (t_schema_name kt.2) schema) (map_to_list (g_tenants g)).

(** [Domain.objects.filter(domain=value)], without the primary row. *)
Definition domain_clash (g : Registry) (instance : option Z) (value : string) : bool :=
  match g_domains g !! value with
  | None => false
  | Some d =>
      match instance ≫= primary_of g with
      | Some p => negb (d_id p.2 =? d_id d)%Z
      | None => true
      end
  end.

Section console.
Context `{Invalidator} `{!HostInvalidator} `{Site} `{Upstream} `{DomainMixin}.
Context (rules : list ReservedHostRule).        (** the table of reserved-host rules *)
Context (django_migrations : ShardDb → string → option (list MigRow)).
Context (users : ShardDb → string → option (list UserRow)).

Definition TenantSerializer_validate_schema_name (value : string) : CM (res ApiError string) :=
  match validate_schema_name value with
  | Err e => cret (Err (ApiInvalid "schema_name" e))
  | Ok value =>
      if String.eqb value PUBLIC then cret (Err (ApiMsg "schema_name" "Schema name 'public' is reserved."))
      else match validate_tenant_schema_name rules value with
           | Err e => cret (Err (ApiInvalid "schema_name" e))
           | Ok _ =>
               taken <-$ up (select "default" (λ v, schema_taken (v_reg v) value)) ;;
               if taken : bool
               then cret (Err (ApiMsg "schema_name" ("Tenant with schema '" +:+ value +:+ "' already exists.")))
               else cret (Ok value)
           end
  end.

Definition TenantSerializer_validate_domain (instance : option Z) (value : string) : CM (res ApiError string) :=
  public_domains <-$ up (select "default" (λ v, domain_rows (v_reg v))) ;;
  match validate_tenant_domain PUBLIC public_domains rules value with
  | Err e => cret (Err (ApiInvalid "domain" e))
  | Ok value =>
      clash <-$ up (select "default" (λ v, domain_clash (v_reg v) instance value)) ;;
      if clash : bool
      then cret (Err (ApiMsg "domain" ("Domain '" +:+ value +:+ "' is already in use.")))
      else cret (Ok value)
  end.

(** [validate], on create: the schema must not exist physically. *)
Definition TenantSerializer_validate (schema : string) (shard : Shard) : CM (res ApiError unit) :=
  found <-$ up (select (sh_alias shard) (λ v,
             bool_decide (is_Some (db_schemas (db_of (sh_alias shard) v) !! schema)))) ;;
  if found : bool
  then cret (Err (ApiMsg "schema_name" ("Schema '" +:+ schema +:+ "' already exists on shard '" +:+ sh_alias shard
         +:+ "' (orphaned from a deleted tenant?). Drop it first (manage.py drop_tenant_schema) or choose another name.")))
  else cret (Ok tt).

(** A new instance: the model's defaults. *)
Definition new_tenant (schema company description : string) (shard : Z) (now : Z) : TenantInst :=
  mkTI None true (mkTenant schema company description shard NEW NEW now "" None) None.

Definition TenantSerializer_create (seq dseq : Z) (shard_id : Z) (shard : Shard) (schema company description domain : string) :
    CM TenantInst :=
  atomic
    (now <-$ timezone_now ;;
     t <-$ tenant_save seq shard None (new_tenant schema company description shard_id now) ;;
     _ <-$ domain_save dseq (mkDI None domain (default seq (ti_pk t)) true None) ;;
     cret t).

(** Attribute assignments from the validated data, and their names. *)
Definition assign (input : UpdateInput) (t : Tenant) : Tenant :=
  mkTenant (t_schema_name t) (default (t_company_name t) (up_company_name input))
    (default (t_description t) (up_description input)) (t_shard_id t) (t_status t) (t_previous_status t)
    (t_status_changed_at t) (t_last_error t) (t_timezone t).
Definition assigned (input : UpdateInput) : list TField :=
  (if up_company_name input then [F_company_name] else []) ++ (if up_description input then [F_description] else []).

Definition TenantSerializer_update (dseq : Z) (t : TenantObj) (input : UpdateInput) : CM unit :=
  atomic
    ((match assigned input with
      | [] => cret tt
      | fs => _ <-$ tenant_save 0 (o_shard t) (Some fs)
                      (ti_set (assign input) (tenant_from_db all_fields (o_pk t) (o_tenant t))) ;; cret tt
      end) $;;
     match up_domain input with
     | None | Some EmptyString => cret tt
     | Some domain =>
         primary <-$ up (select "default" (λ v, primary_of (v_reg v) (o_pk t))) ;;
         match primary with
         | Some (old_host, d) =>
             if String.eqb old_host domain then cret tt
             else let inst := domain_from_db true old_host d in
                  _ <-$ domain_save dseq (mkDI (di_id inst) domain (di_tenant inst) (di_primary inst) (di_loaded inst)) ;;
                  cret tt
         | None => _ <-$ domain_save dseq (mkDI None domain (o_pk t) true None) ;; cret tt
         end
     end).

(** ** Objects and their rendering *)

Definition get_object (pk : Z) : CM TenantObj :=
  up (query "default" (λ v, (match get_tenant (v_reg v) pk with Some t => Ok t | None => Err http404 end, v, []))).

Definition _guard_public (t : TenantObj) : CM unit :=
  if String.eqb (o_schema t) PUBLIC then craise (permission_denied "The public tenant is read-only.") else cret tt.

Inductive ActionName := AList | ARetrieve | AActivate | ADeactivate | AOther.

Record Ctx := mkCtx {
  cx_existing : option (list (string * string));
  cx_migrations : option (list ((string * string) * MigRow));
  cx_admins : option (list ((string * string) * list UserRow));
}.

Definition all_tenants (g : Registry) : list TenantObj :=
  omap (get_tenant g) (fst <$> map_to_list (g_tenants g)).

Definition get_serializer_context (action : ActionName) (pk : Z) : CM Ctx :=
  let probe (pick : Registry → list TenantObj) :=
    tenants <-$ up (select "default" (λ v, pick (v_reg v))) ;;
    existing <-$ up (existing_schemas tenants) ;;
    migrations <-$ up (last_migrations django_migrations tenants) ;;
    adm <-$ up (admins users tenants) ;;
    cret (mkCtx (Some existing) (Some migrations) (Some adm)) in
  match action with
  | AList => probe all_tenants
  | ARetrieve | AActivate | ADeactivate => probe (λ g, match get_tenant g pk with Some t => [t] | None => [] end)
  | AOther => cret (mkCtx None None None)
  end.

(** A dict built by assignments, last one first. *)
Definition dict_get {A} (k : string * string) (d : list ((string * string) * A)) : option A :=
  snd <$> list_find (λ kv, kv.1 = k) (rev d) ≫= λ ikv, Some (ikv.2).

Definition get_schema_exists (cx : Ctx) (t : TenantObj) : bool :=
  match cx_existing cx with None => false | Some l => mem (o_alias t, o_schema t) l end.
Definition get_is_public (t : TenantObj) : bool := String.eqb (o_schema t) PUBLIC.
Definition get_last_migration (cx : Ctx) (t : TenantObj) : option MigRow :=
  l ← cx_migrations cx; dict_get (o_alias t, o_schema t) l.
Definition get_admins (cx : Ctx) (t : TenantObj) : list UserRow :=
  match cx_admins cx with None => [] | Some l => default [] (dict_get (o_alias t, o_schema t) l) end.

Definition serializer_data (cx : Ctx) (domains : list (string * Domain)) (t : TenantObj) : TenantData :=
  mkTenantData t domains (get_schema_exists cx t) (get_is_public t) (get_last_migration cx t) (get_admins cx t).

Definition render (action : ActionName) (t : TenantObj) : CM TenantData :=
  cx <-$ get_serializer_context action (o_pk t) ;;
  domains <-$ up (select "default" (λ v, map_to_list (filter (λ kd, d_tenant_id kd.2 = o_pk t) (g_domains (v_reg v))))) ;;
  cret (serializer_data cx domains t).

(** ** Tenants: status transitions *)

(** The conditional UPDATE of [_transition]. *)
Definition transition_stmt (pk : Z) (from_status to_status : Status) (v : Srv) : res exn nat * Srv * list Action :=
  match g_tenants (v_reg v) !! pk with
  | Some t =>
      if bool_decide (t_status t = from_status)
      then (Ok 1, set_reg (set_tenants (<[pk := with_status to_status (t_status t) (g_now (v_reg v)) None t]>)) v,
            [AStatus pk to_status (t_status t) (v_reg v)])
      else (Ok 0, v, [])
  | None => (Ok 0, v, [])
  end.

Definition blocked_detail (t : TenantObj) (b : Blocked) (text : string) : string :=
  "Cannot activate '" +:+ o_schema t +:+ "': " +:+ text +:+ ". "
  +:+ (if (blocked_status b =? 503)%Z then "Retry later."
       else "Run `migrate_schemas -s " +:+ o_schema t +:+ "` first.").

Definition pending_of (b : Blocked) : option (list string) :=
  match b with SchemaBehind p => Some p | _ => None end.

Definition refused_response (t : TenantObj) (from_status to_status : Status) : Response :=
  detail 409 ("Cannot transition tenant '" +:+ o_schema t +:+ "' from '" +:+ status_value (o_status t) +:+ "' to '"
    +:+ status_value to_status +:+ "'. Expected current status to be '" +:+ status_value from_status +:+ "'.").

(** [str(exc)] of a blocked reactivation. *)
Context (blocked_str : Blocked → string).

Definition _transition (action : ActionName) (pk : Z) (from_status to_status : Status) (stopper : bool) : CM Response :=
  t <-$ get_object pk ;;
  _guard_public t $;;
  if bool_decide (o_status t = MAINTENANCE) then
    craise (TenantMaintenance ("cannot move it to '" +:+ status_value to_status +:+ "' from the console"))
  else
    checked <-$ (if stopper && bool_decide (o_status t = from_status)
                 then up (check_reactivation t) else cret (Ok tt)) ;;
    match checked with
    | Err b => cret (mkResponse (blocked_status b)
                       (BBlocked (blocked_detail t b (blocked_str b)) (blocked_code b) (pending_of b)))
    | Ok _ =>
        updated <-$ up (query "default" (transition_stmt (o_pk t) from_status to_status)) ;;
        if (updated =? 0)%nat then cret (refused_response t from_status to_status)
        else
          forget_tenant_c t $;;
          fresh <-$ get_object (o_pk t) ;;
          data <-$ render action fresh ;;
          cret (mkResponse 200 (BTenant data))
    end.

Definition tenant_deactivate (pk : Z) : CM Response := _transition ADeactivate pk ACTIVE DEACTIVATED false.
Definition tenant_activate (pk : Z) : CM Response := _transition AActivate pk DEACTIVATED ACTIVE true.

(** ** Tenants: provisioning, deletion, creation, editing *)

Definition tenant_provision (pk : Z) : CM Response :=
  t <-$ get_object pk ;;
  _guard_public t $;;
  if negb (bool_decide (o_status t = NEW)) then
    cret (mkResponse 409 (BDict [("detail", "Tenant '" +:+ o_schema t +:+ "' is not provisionable (status '"
            +:+ status_value (o_status t) +:+ "'). Provisioning runs only on a NEW tenant.");
            ("code", "not_provisionable")]))
  else
    call (CallProvision (o_pk t)) $;;
    cret (mkResponse 202 (BDict [("detail", "Provisioning queued."); ("schema", o_schema t)])).

Definition drop_requested (param : option string) : bool :=
  mem (py_lower (default "" param)) ["1"; "true"; "yes"; "on"].

Definition perform_destroy (drop_schema : option string) (t : TenantObj) : CM unit :=
  _guard_public t $;;
  (if bool_decide (o_status t = MAINTENANCE) then craise (TenantMaintenance "finish maintenance first") else cret tt) $;;
  tenant_delete t $;;
  (if drop_requested drop_schema then call (CallDropSchema (o_alias t) (o_schema t)) else cret tt).

Definition tenant_destroy (drop_schema : option string) (pk : Z) : CM Response :=
  t <-$ get_object pk ;; perform_destroy drop_schema t $;; cret (mkResponse 204 BNone).

(** The errors of the fields, in the order of the form. *)
Definition collect_errors (schema domain : res ApiError string) (shard : option Shard) (shard_id : Z) : list ApiError :=
  (match schema with Err e => [e] | Ok _ => [] end)
  ++ (match shard with
      | None => [ApiMsg "shard_id" ("Invalid pk " +:+ py_repr (py_int shard_id) +:+ " - object does not exist.")]
      | Some _ => []
      end)
  ++ (match domain with Err e => [e] | Ok _ => [] end).

Definition tenant_create (seq dseq : Z) (input : CreateInput) : CM Response :=
  schema <-$ TenantSerializer_validate_schema_name (in_schema_name input) ;;
  shard <-$ up (select "default" (λ v, shard_field (v_reg v) (in_shard_id input))) ;;
  domain <-$ TenantSerializer_validate_domain None (in_domain input) ;;
  match schema, shard, domain with
  | Ok s, Some sh, Ok d =>
      ok <-$ TenantSerializer_validate s sh ;;
      match ok with
      | Err e => cret (mkResponse 400 (BErrors [e]))
      | Ok _ =>
          t <-$ TenantSerializer_create seq dseq (in_shard_id input) sh s (in_company_name input) (in_description input) d ;;
          data <-$ render AOther (mkTenantObj (default seq (ti_pk t)) (ti_row t) sh) ;;
          cret (mkResponse 201 (BTenant data))
      end
  | _, _, _ => cret (mkResponse 400 (BErrors (collect_errors schema domain shard (in_shard_id input))))
  end.

Definition perform_update (dseq : Z) (t : TenantObj) (input : UpdateInput) : CM unit :=
  _guard_public t $;; TenantSerializer_update dseq t input.

Definition tenant_update (dseq : Z) (pk : Z) (input : UpdateInput) : CM Response :=
  t <-$ get_object pk ;;
  domain <-$ (match up_domain input with
              | None => cret (Ok None)
              | Some d => r <-$ TenantSerializer_validate_domain (Some (o_pk t)) d ;;
                          cret (match r with Ok d' => Ok (Some d') | Err e => Err e end)
              end) ;;
  match domain with
  | Err e => cret (mkResponse 400 (BErrors [e]))
  | Ok d =>
      perform_update dseq t (mkUpdateInput (up_company_name input) (up_description input) d) $;;
      data <-$ render AOther (mkTenantObj (o_pk t) (assign input (o_tenant t)) (o_shard t)) ;;
      cret (mkResponse 200 (BTenant data))
  end.

(** ** The first administrator of a tenant *)

Context (validate_password : string → res (list string) unit).
(** INSERT of a user into a schema's user table, with its key. *)
Context (create_user : string → string → string → ShardDb → Z * ShardDb).

Definition create_admin (pk : Z) (username password : option string) : CM Response :=
  t <-$ get_object pk ;;
  _guard_public t $;;
  let username := py_strip (default "" username) in
  let password := default "" password in
  if String.eqb username "" then cret (mkResponse 400 (BDict [("username", "This field is required.")]))
  else if String.eqb password "" then cret (mkResponse 400 (BDict [("password", "This field is required.")]))
  else match validate_password password with
       | Err messages => cret (mkResponse 400 (BDict ((λ m, ("password", m)) <$> messages)))
       | Ok _ =>
           let alias := o_alias t in
           taken <-$ up (select alias (λ v,
                      existsb (λ u, String.eqb (ur_username u) username)
                        (default [] (users (db_of alias v) (o_schema t))))) ;;
           if taken : bool then
             cret (mkResponse 400 (BDict [("username", "User '" +:+ username +:+ "' already exists in tenant '" +:+ o_schema t +:+ "'.")]))
           else
             id <-$ up (query alias (λ v,
                     let '(id, db) := create_user (o_schema t) username password (db_of alias v) in
                     (Ok id, set_db alias (λ _, db) v, []))) ;;
             cret (mkResponse 201 (BUser id username (o_schema t) COMPANY_ADMIN))
       end.

(** ** Shards *)

Definition get_shard (pk : Z) : CM (Shard * nat) :=
  up (query "default" (λ v,
    (match g_shards (v_reg v) !! pk with
     | Some s => Ok (s, length (tenants_on (v_reg v) pk))
     | None => Err http404
     end, v, []))).

Definition _guard_default (s : Shard) : CM unit :=
  if sh_is_default s then craise (permission_denied "The default shard is read-only.") else cret tt.

(** [shard.save(update_fields=["is_active", "modified"])]. *)
Definition shard_active_stmt (pk : Z) (b : bool) (v : Srv) : res exn unit * Srv * list Action :=
  match g_shards (v_reg v) !! pk with
  | None => (Err no_rows_saved, v, [])
  | Some s => (Ok tt, set_reg (set_shards (<[pk := mkShard (sh_alias s) (sh_name s) (sh_is_default s) b]>)) v, [])
  end.

Definition shard_set_active (pk : Z) (s : Shard) (n : nat) (b : bool) : CM Response :=
  up (query "default" (shard_active_stmt pk b)) $;;
  cret (mkResponse 200 (BShard pk (mkShard (sh_alias s) (sh_name s) (sh_is_default s) b) (Some n))).

Definition shard_activate (pk : Z) : CM Response :=
  sn <-$ get_shard pk ;;
  let '(s, n) := sn in
  _guard_default s $;;
  if sh_is_active s then cret (detail 409 "Shard is already active.")
  else shard_set_active pk s n true.

Definition shard_deactivate (pk : Z) : CM Response :=
  sn <-$ get_shard pk ;;
  let '(s, n) := sn in
  _guard_default s $;;
  if negb (sh_is_active s) then cret (detail 409 "Shard is already deactivated.")
  else
    tenant_count <-$ up (select "default" (λ v, length (tenants_on (v_reg v) pk))) ;;
    if negb (tenant_count =? 0)%nat then
      cret (detail 409 ("Cannot deactivate: shard hosts " +:+ py_int (Z.of_nat tenant_count)
                        +:+ " tenant(s). Move or delete them first."))
    else shard_set_active pk s n false.

Definition shard_destroy (pk : Z) : CM Response :=
  sn <-$ get_shard pk ;;
  let '(s, _) := sn in
  _guard_default s $;;
  if sh_is_active s then cret (detail 409 "Can only delete a deactivated shard. Deactivate it first.")
  else
    ccatch is_protected
      (shard_delete pk s $;; cret (mkResponse 204 BNone))
      (λ _, cret (detail 409 "Shard cannot be deleted - it still has tenants.")).

(** A row of the catalogue query of [schemas]: name, owner, privileges, description. *)
Context (namespace_rows : ShardDb → list (string * string * option string * option string)).
Context (database_name : string → string).       (** [settings.DATABASES[alias]["NAME"]] *)

(** [except (DBError, psycopg.OperationalError, psycopg.InterfaceError)]: a
    missing alias is not among them. *)
Definition peek_failed (e : exn) : bool :=
  _SHARD_DOWN e && negb (String.eqb (eo_name (x_obj e)) "ConnectionDoesNotExist").

Definition shard_schemas (pk : Z) : CM Response :=
  sn <-$ get_shard pk ;;
  let alias := sh_alias sn.1 in
  ccatch peek_failed
    (rows <-$ up (select alias (λ v, namespace_rows (db_of alias v))) ;;
     let table := _psql_aligned ["Name"; "Owner"; "Access privileges"; "Description"]
                    ((λ '(n, o, acl, d), [Some n; Some o; Some (default "" acl); Some (default "" d)]) <$> rows)
                    "List of schemas" in
     cret (mkResponse 200 (BDict [("shard", alias);
             ("output", database_name alias +:+ "=> \dn+" +:+ String newline "" +:+ table)])))
    (λ _, cret (mkResponse 503 (BDict [("shard", alias); ("detail", "Shard is unreachable.")]))).

(** ** Reserved-host rules *)

(** [ReservedHostRuleSerializer.validate]: [given] are the submitted fields,
    [others] the other rows of the table. *)
Definition rule_validate (instance : option ReservedHostRule) (match_type value base_domain : option string)
    (others : list (string * string * string)) : res ApiError (string * string * string) :=
  let mt := default (default "" (rule_match_type <$> instance)) match_type in
  let v := default (default "" (rule_value <$> instance)) value in
  let b := default (default "" (rule_base_domain <$> instance)) base_domain in
  match rule_normalize mt v b with
  | Err e => Err (ApiInvalid "value" e)
  | Ok (v', b') =>
      if mem (mt, v', b') others then Err (ApiMsg "non_field_errors" "An identical rule already exists.")
      else Ok (mt, v', b')
  end.

End console.
