(* ===== verification/Admin.v ===== *)
(** * The platform admin

    src/tenants/console/admin.py: the forms and model admins of Shard, Tenant
    and Domain.
    A POST of the change form runs in one transaction on [default]: the row is
    read, the form validates, [save_model] writes.  Django's own part of that
    flow (choices, [construct_instance], [full_clean], [changed_data]) is written
    out where the code relies on it. *)
From S2P Require Import Prelude PyStr Validators Models PyExc Logs World Lease Schema Trace Migrator.
From S2P Require Import Requests ModelMethods Console.
Open Scope tenants_scope.

(** ** Status transitions *)

Definition STATUS_TRANSITIONS (s : Status) : list Status :=
  match s with
  | NEW => [NEW]
  | PENDING => [PENDING]
  | ACTIVE => [ACTIVE; DEACTIVATED; MAINTENANCE]
  | DEACTIVATED => [DEACTIVATED; ACTIVE; MAINTENANCE]
  | FAILED => [FAILED; NEW; MAINTENANCE]
  | MAINTENANCE => [MAINTENANCE; ACTIVE; DEACTIVATED; FAILED]
  end.

(** [Tenant.Status.values] read backwards. *)
Definition status_named (s : string) : option Status :=
  snd <$> list_find (λ st, status_value st = s) all_statuses.

Definition status_conflict (msg : string) : exn := simple_exn OtherException "StatusConflict" msg.
Definition is_status_conflict (e : exn) : bool := String.eqb (eo_name (x_obj e)) "StatusConflict".

(** ** The tenant form *)

(** The POST of a change form. *)
Record TenantPost := mkTenantPost {
  tp_expected_status : option string;
  tp_status : string;
  tp_confirm_schema : bool;
  tp_company_name : string;
  tp_description : string;
  tp_shard : Z;
  tp_timezone : option string;
}.

(** [forms.ValidationError]: field ([""] for the form) and text; or what
    [full_clean] of the model raised. *)
Inductive form_error := FormError (field msg : string) | ModelError (e : clean_error).

(** [self.old_status] of a bound form. *)
Definition form_old_status (posted : option string) (instance : Status) : Status :=
  default instance (posted ≫= status_named).

(** [shard] choices. *)
Definition shard_choice (g : Registry) (schema : string) (pk : Z) : option Shard :=
  s ← g_shards g !! pk;
  if (if String.eqb schema PUBLIC then sh_is_default s else negb (sh_is_default s) && sh_is_active s)
  then Some s else None.

(** The [status] field: disabled on NEW and PENDING (it keeps what was shown),
    otherwise one of the choices. *)
Definition status_field (old : Status) (submitted : string) : option Status :=
  if mem old [PENDING; NEW] then Some old
  else st ← status_named submitted; if mem st (STATUS_TRANSITIONS old) then Some st else None.

(** [form.changed_data], as far as [save_model] looks at it. *)
Definition changed_fields (t : Tenant) (p : TenantPost) : list TField :=
  (if String.eqb (t_company_name t) (tp_company_name p) then [] else [F_company_name])
  ++ (if String.eqb (t_description t) (tp_description p) then [] else [F_description])
  ++ (if (t_shard_id t =? tp_shard p)%Z then [] else [F_shard])
  ++ (if bool_decide (t_timezone t = tp_timezone p) then [] else [F_timezone]).

(** [construct_instance]: the form's values on the instance. *)
Definition construct (p : TenantPost) (st : Status) (t : Tenant) : Tenant :=
  mkTenant (t_schema_name t) (tp_company_name p) (tp_description p) (tp_shard p) st (t_previous_status t)
    (t_status_changed_at t) (t_last_error t) (tp_timezone p).

Section admin.
Context `{Invalidator} `{!HostInvalidator} `{Site} `{Upstream} `{DomainMixin}.
Context (rules : list ReservedHostRule) (zone_ok : string → bool).
Context (fmt_admin : Z → string).             (** [%Y-%m-%d %H:%M:%S] *)
Context (blocked_str : Blocked → string).

Definition since_text (h : LeaseHolder) : res exn string :=
  match lh_since h with
  | Some s => Ok (fmt_admin s)
  | None => Err (simple_exn OtherException "TypeError" "unsupported format string passed to NoneType.__format__")
  end.

Definition _schema_state (t : TenantObj) : M string :=
  n <-! catch (n <-! schema_table_count (o_alias t) (o_schema t) ;; ret (Ok n))
          (λ e, ret (Err ("unknown (" +:+ o_alias t +:+ " unreachable: " +:+ eo_name (x_obj e) +:+ ")"))) ;;
  ret (match n with
       | Err text => text
       | Ok None => "does not exist on " +:+ o_alias t
       | Ok (Some 0) => "empty, on " +:+ o_alias t
       | Ok (Some n) => "NOT empty (" +:+ py_int (Z.of_nat n) +:+ " tables) on " +:+ o_alias t
       end).

Definition confirm_needed (old new : Status) (confirm : bool) : res form_error unit :=
  if bool_decide (old = FAILED) && bool_decide (new = NEW) && negb confirm
  then Err (FormError "confirm_schema" "Tick this to move a FAILED tenant back to New: the next provisioning run will adopt whatever schema is there.")
  else Ok tt.

Definition activate_error (t : TenantObj) (old : Status) (b : Blocked) : form_error :=
  let flag := if bool_decide (old = MAINTENANCE) then " --maintenance" else "" in
  let hint := if (blocked_status b =? 503)%Z then "retry after the deploy / when the shard is back"
              else "run `migrate_schemas -s " +:+ o_schema t +:+ flag +:+ "` first" in
  FormError "status" ("Cannot activate: " +:+ blocked_str b +:+ " (" +:+ blocked_code b +:+ "); " +:+ hint +:+ ".").

Definition busy_check (t : TenantObj) : M (res form_error unit) :=
  h <-! lease_holder (o_pk t) ;;
  match h with
  | None => ret (Ok tt)
  | Some h =>
      busy <-! (if negb (lh_expired h) then ret true
                else s <-! shard_session_active (o_alias t) (o_pk t) ;; ret (negb (is_none s))) ;;
      if busy : bool then
        since <-! lift (since_text h) ;;
        ret (Err (FormError "status" ("Being migrated right now by " +:+ lh_owner h +:+ " since " +:+ since
                    +:+ " UTC; wait for it to finish.")))
      else ret (Ok tt)
  end.

(** [TenantAdminForm.clean]; [t] is the instance as read by this request. *)
Definition form_clean (t : TenantObj) (old new : Status) (confirm : bool) : M (res form_error unit) :=
  if bool_decide (new = old) then ret (Ok tt)
  else if negb (bool_decide (o_status t = old)) then
    ret (Err (FormError "" ("The status changed while this page was open (it is now '" +:+ status_value (o_status t)
           +:+ "', you saw '" +:+ status_value old +:+ "'). Nothing was saved; reload the page and try again.")))
  else
    checked <-! (if bool_decide (new = ACTIVE) then
                   r <-! check_reactivation t ;;
                   ret (match r with Ok _ => Ok tt | Err b => Err (activate_error t old b) end)
                 else if bool_decide (new = MAINTENANCE) then busy_check t
                 else ret (Ok tt)) ;;
    ret (match checked with Err e => Err e | Ok _ => confirm_needed old new confirm end).

(** [is_valid()]: the fields, [clean], and the model's [full_clean]. *)
Definition form_valid (t : TenantObj) (old : Status) (p : TenantPost) :
    CM (res form_error (Status * Shard)) :=
  shard <-$ up (select "default" (λ v, shard_choice (v_reg v) (o_schema t) (tp_shard p))) ;;
  match status_field old (tp_status p), shard with
  | None, _ => cret (Err (FormError "status" "Select a valid choice."))
  | _, None => cret (Err (FormError "shard" "Select a valid choice. That choice is not one of the available choices."))
  | Some new, Some sh =>
      checked <-$ up (form_clean t old new (tp_confirm_schema p)) ;;
      match checked with
      | Err e => cret (Err e)
      | Ok _ =>
          let inst := tenant_from_db all_fields (o_pk t) (construct p new (o_tenant t)) in
          match _validate_timezone zone_ok (tp_timezone p), tenant_clean rules sh inst with
          | Err e, _ | _, Err e => cret (Err (ModelError e))
          | Ok _, Ok _ => cret (Ok (new, sh))
          end
      end
  end.

(** ** Saving *)

(** UPDATE ... WHERE pk AND status = old of [save_model]. *)
Definition admin_cas_stmt (pk : Z) (old new : Status) (v : Srv) : res exn nat * Srv * list Action :=
  match g_tenants (v_reg v) !! pk with
  | Some t =>
      if bool_decide (t_status t = old)
      then (Ok 1, set_reg (set_tenants (<[pk := with_status new old (g_now (v_reg v))
                     (if bool_decide (new = NEW) then Some "" else None) t]>)) v,
            [AStatus pk new old (v_reg v)])
      else (Ok 0, v, [])
  | None => (Ok 0, v, [])
  end.

(** → MAINTENANCE: the lease row stays locked until the transaction ends. *)
Definition lock_out (t : TenantObj) (new : Status) : CM unit :=
  if bool_decide (new = MAINTENANCE) then
    h <-$ up (lease_lock_for_transition (o_pk t)) ;;
    lock_rows (keep_lease_row (o_pk t)) $;;
    match h with
    | Some h =>
        since <-$ clift (since_text h) ;;
        craise (status_conflict ("'" +:+ o_schema t +:+ "' started migrating meanwhile (" +:+ lh_owner h +:+ " since "
                  +:+ since +:+ " UTC); nothing was saved. Wait for it to finish and try again."))
    | None => cret tt
    end
  else cret tt.

(** The CAS; the updated row stays locked, the invalidation waits for the commit. *)
Definition write_status (t : TenantObj) (old new : Status) : CM unit :=
  n <-$ up (query "default" (admin_cas_stmt (o_pk t) old new)) ;;
  (if (n =? 0)%nat then
     craise (status_conflict ("The status of '" +:+ o_schema t +:+ "' changed concurrently (it is no longer '"
               +:+ status_value old +:+ "'); nothing was saved. Reload the page and try again."))
   else cret tt) $;;
  lock_rows (keep_tenant_row (o_pk t)) $;;
  on_commit (HForgetTenant t).

Definition save_status (t : TenantObj) (old new : Status) : CM unit :=
  lock_out t new $;; write_status t old new.

(** [save_model] on the change form: [t] is the row as read, [sh] the shard chosen. *)
Definition save_model (t : TenantObj) (old new : Status) (sh : Shard) (p : TenantPost) : CM unit :=
  let row := construct p new (o_tenant t) in
  loaded <-$ (if negb (bool_decide (new = old)) then save_status t old new $;; cret new
              else cret (o_status t)) ;;
  match changed_fields (o_tenant t) p with
  | [] => cret tt
  | other =>
      let st := if negb (bool_decide (new = old)) then new else o_status t in
      _ <-$ tenant_save 0 sh (Some other) (mkTI (Some (o_pk t)) false (set_status st row) (Some loaded)) ;;
      cret tt
  end.

Inductive Outcome := Saved | Invalid_ (e : form_error) | Conflict (msg : string) | Gone.

(** [changeform_view] of a POST. *)
Definition changeform_view (pk : Z) (p : TenantPost) : CM Outcome :=
  ccatch is_status_conflict
    (atomic
       (row <-$ up (select "default" (λ v, get_tenant (v_reg v) pk)) ;;
        match row with
        | None => cret Gone
        | Some t =>
            let old := form_old_status (tp_expected_status p) (o_status t) in
            valid <-$ form_valid t old p ;;
            match valid with
            | Err e => cret (Invalid_ e)
            | Ok (new, sh) => save_model t old new sh p $;; cret Saved
            end
        end))
    (λ e, cret (Conflict (eo_str (x_obj e)))).

(** The add form: status is NEW, the model's [clean] normalizes the name. *)
Definition add_view (seq : Z) (schema : string) (p : TenantPost) : CM Outcome :=
  atomic
    (now <-$ timezone_now ;;
     shard <-$ up (select "default" (λ v, s ← g_shards (v_reg v) !! tp_shard p;
                if negb (sh_is_default s) && sh_is_active s then Some s else None)) ;;
     match shard with
     | None => cret (Invalid_ (FormError "shard" "Select a valid choice. That choice is not one of the available choices."))
     | Some sh =>
         let inst := ti_set (construct p NEW) (new_tenant schema (tp_company_name p) (tp_description p) (tp_shard p) now) in
         match _validate_timezone zone_ok (tp_timezone p), tenant_clean rules sh inst with
         | Err e, _ | _, Err e => cret (Invalid_ (ModelError e))
         | Ok _, Ok inst' => _ <-$ tenant_save seq sh None inst' ;; cret Saved
         end
     end).

(** ** Deleting *)

Definition explain_protected_tenant (t : TenantObj) : string :=
  if String.eqb (o_schema t) PUBLIC
  then "The public tenant cannot be deleted - it is a system record required for django-tenants to operate on the public host."
  else "Tenant '" +:+ o_schema t +:+ "' cannot be deleted (related objects exist).".

(** [delete_queryset]: the messages shown. *)
Fixpoint delete_tenants (ts : list TenantObj) : CM (list string) :=
  match ts with
  | [] => cret []
  | t :: ts' =>
      msg <-$ ccatch is_protected (tenant_delete t $;; cret [])
                (λ _, cret [explain_protected_tenant t]) ;;
      rest <-$ delete_tenants ts' ;;
      cret (msg ++ rest)
  end.

(** The first five tenants of a shard, by key. *)
Definition explain_protected_shard (g : Registry) (pk : Z) (s : Shard) : string :=
  if sh_is_default s then
    "Shard '" +:+ sh_alias s +:+ "' is the default shard and cannot be deleted. It is reserved for the public schema."
  else
    let names := omap (λ k, t_schema_name <$> (g_tenants g !! k)) (merge_sort Z.le (fst <$> tenants_on g pk)) in
    let count := length names in
    if (count =? 0)%nat then "Shard '" +:+ sh_alias s +:+ "' cannot be deleted (related objects exist)."
    else "Shard '" +:+ sh_alias s +:+ "' cannot be deleted - it has " +:+ py_int (Z.of_nat count) +:+ " tenant(s): "
         +:+ String.concat ", " (take 5 names)
         +:+ (if (5 <? count)%nat then " and " +:+ py_int (Z.of_nat (count - 5)) +:+ " more" else "")
         +:+ ". Move or delete tenants first.".

Fixpoint delete_shards (ss : list (Z * Shard)) : CM (list string) :=
  match ss with
  | [] => cret []
  | (pk, s) :: ss' =>
      msg <-$ ccatch is_protected (shard_delete pk s $;; cret [])
                (λ _, g <-$ cgets cs_reg ;; cret [explain_protected_shard g pk s]) ;;
      rest <-$ delete_shards ss' ;;
      cret (msg ++ rest)
  end.

(** ** The shard form *)

(** The choices of [alias]: unregistered keys of [settings.DATABASES], and the
    instance's own. *)
Definition alias_choices (databases : list string) (g : Registry) (pk : option Z) (alias : string) : list string :=
  let used := sh_alias <$> (snd <$> map_to_list (filter (λ ks, Some ks.1 ≠ pk) (g_shards g))) in
  let available := filter (λ a, a ∉ used) databases in
  match pk with
  | Some _ => if String.eqb alias "" then available
              else merge_sort str_le (remove_dups (alias :: available))
  | None => available
  end.

Definition clean_is_default (g : Registry) (pk : option Z) (is_default : bool) : res form_error bool :=
  if is_default then
    match filter (λ ks, sh_is_default ks.2 = true ∧ Some ks.1 ≠ pk) (map_to_list (g_shards g)) with
    | ks :: _ => Err (FormError "is_default" ("A default shard already exists: " +:+ sh_alias ks.2 +:+ ". Only one is allowed."))
    | [] => Ok true
    end
  else Ok false.

(** [changelist_view]: the hint about unregistered aliases. *)
Definition unregistered (databases : list string) (g : Registry) : list string :=
  filter (λ a, a ∉ sh_alias <$> (snd <$> map_to_list (g_shards g))) databases.

(** Saving the shard form: its fields, [Shard.clean], the unique constraints. *)
Definition shard_form_save (databases : list string) (seq : Z) (pk : option Z) (s : Shard) : CM (res form_error Z) :=
  g <-$ up (select "default" v_reg) ;;
  if bool_decide (is_Some pk) && is_none (shard_of g pk) then
    cret (Err (FormError "" "Shard doesn't exist. Perhaps it was deleted?"))
  else if negb (mem (sh_alias s) (alias_choices databases g pk (default "" (sh_alias <$> shard_of g pk)))) then
    cret (Err (FormError "alias" "Select a valid choice."))
  else match clean_is_default g pk (sh_is_default s), shard_clean databases g (mkSI pk s) with
       | Err e, _ => cret (Err e)
       | _, Err e => cret (Err (ModelError e))
       | Ok _, Ok _ =>
           k <-$ up (query "default" (λ v,
                  let k := default seq pk in
                  if existsb (λ ks, negb (ks.1 =? k)%Z && (String.eqb (sh_alias ks.2) (sh_alias s)
                                      || (sh_is_default ks.2 && sh_is_default s))) (map_to_list (g_shards (v_reg v)))
                  then (Err (integrity_error "duplicate key value violates unique constraint"), v, [])
                  else (Ok k, set_reg (set_shards (<[k := s]>)) v, []))) ;;
           cret (Ok k)
       end.

(** ** The domain form

    [DomainAdmin] is Django's [ModelAdmin] over [Domain]: its POST goes through
    [Domain.clean] and [Domain.save]. *)

Record DomainPost := mkDomainPost {
  dp_domain : string;
  dp_tenant : Z;
  dp_primary : bool;
}.

(** The row a change form opens. *)
Definition domain_of (g : Registry) (pk : Z) : option DomainInst :=
  r ← list_find (λ hd, d_id hd.2 = pk) (map_to_list (g_domains g));
  Some (domain_from_db true r.2.1 r.2.2).

(** What the page found: a new instance, the row, or no row any more. *)
Definition domain_opened (g : Registry) (pk : option Z) : option DomainInst :=
  match pk with
  | None => Some (mkDI None "" 0 true None)
  | Some pk => domain_of g pk
  end.

(** [construct_instance]; the form's [CharField] strips. *)
Definition construct_domain (p : DomainPost) (d : DomainInst) : DomainInst :=
  mkDI (di_id d) (py_strip (dp_domain p)) (dp_tenant p) (dp_primary p) (di_loaded d).

(** A POST of the add ([pk = None]) or the change form.  [refused] stands for the
    checks of Django's form, on what the database holds: a blank or too long name,
    a name in use, the model's constraints. *)
Definition domain_form_save (refused : DomainInst → Srv → option form_error) (seq : Z) (pk : option Z) (p : DomainPost) :
    CM Outcome :=
  atomic
    (opened <-$ up (select "default" (λ v, domain_opened (v_reg v) pk)) ;;
     match opened with
     | None => cret Gone
     | Some d =>
         owner <-$ up (select "default" (λ v, get_tenant (v_reg v) (dp_tenant p))) ;;
         match owner with
         | None => cret (Invalid_ (FormError "tenant" "Select a valid choice. That choice is not one of the available choices."))
         | Some t =>
             public_domains <-$ up (select "default" (λ v, domain_rows (v_reg v))) ;;
             match domain_clean public_domains rules (Some (o_schema t)) (construct_domain p d) with
             | Err e => cret (Invalid_ (ModelError e))
             | Ok d' =>
                 bad <-$ up (select "default" (refused d')) ;;
                 match bad with
                 | Some e => cret (Invalid_ e)
                 | None => _ <-$ domain_save seq d' ;; cret Saved
                 end
             end
         end
     end).

(** [delete_model] and the action [delete_selected]: the collector reads the rows,
    deletes them by key and sends [post_delete] for each. *)
Definition delete_domains (pks : list Z) : CM unit :=
  nested_atomic
    (rows <-$ up (select "default" (λ v, filter (λ hd, d_id hd.2 ∈ pks) (map_to_list (g_domains (v_reg v))))) ;;
     up (query "default" (λ v, (Ok tt, set_reg (set_domains (filter (λ hd, d_id hd.2 ∉ (d_id ∘ snd) <$> rows))) v, []))) $;;
     domain_signals (fst <$> rows)).

End admin.
