(* ===== verification/LifecycleFacts.v ===== *)
(** * Reasoning about requests

    Two ways to reason about the request monad, both for any script of events:
    triples on the trace of effects ([ctrip], which extends the one of [Trace]), and
    preorders on worlds that every step respects ([steps], [csteps]), with the
    automation that walks through a request. *)
From S2P Require Import Prelude PyStr Models PyExc World Lease Schema Trace Migrator Requests Validators Logs MigratorSafety ModelMethods.
From S2P Require Import Probes Console Admin.
Open Scope tenants_scope.

Create HintDb ckeeps.

Section ctrace.
Context `{Invalidator} `{!HostInvalidator}.

(** ** Effects *)

Definition ctrip {A} (P : tpred) (m : CM A) (Q : A → tpred) (E : tpred) : Prop :=
  ∀ s, P (w_trace (cs_w s)) →
    match m s with
    | (Ok a, s') => Q a (w_trace (cs_w s'))
    | (Err _, s') => E (w_trace (cs_w s'))
    end.

Definition ckeeps {A} (P : tpred) (m : CM A) : Prop := ctrip P m (λ _, P) P.

Lemma ctrip_up {A} (P : tpred) (m : M A) Q E : trip P m Q E → ctrip P (up m) Q E.
Proof. intros Hm s Hs. unfold up. specialize (Hm _ Hs). by destruct (m (cs_w s)) as [[a|e] w]. Qed.

Lemma ckeeps_up {A} (P : tpred) (m : M A) : keeps P m → ckeeps P (up m).
Proof. apply ctrip_up. Qed.

Lemma ctrip_bind {A B} (P : tpred) (m : CM A) (k : A → CM B) R Q E :
  ctrip P m R E → (∀ a, ctrip (R a) (k a) Q E) → ctrip P (cbind m k) Q E.
Proof.
  intros Hm Hk s Hs. unfold cbind. specialize (Hm s Hs). destruct (m s) as [[a|e] s']; [|done]. by apply Hk.
Qed.

Lemma ckeeps_bind {A B} (P : tpred) (m : CM A) (k : A → CM B) :
  ckeeps P m → (∀ a, ckeeps P (k a)) → ckeeps P (cbind m k).
Proof. apply ctrip_bind. Qed.

Lemma ckeeps_pure {A} (P : tpred) (m : CM A) :
  (∀ s, w_trace (cs_w (m s).2) = w_trace (cs_w s)) → ckeeps P m.
Proof. intros Hm s Hs. specialize (Hm s). by destruct (m s) as [[a|e] s']; simpl in Hm; rewrite Hm. Qed.

Lemma ckeeps_ret {A} (P : tpred) (a : A) : ckeeps P (cret a).
Proof. by apply ckeeps_pure. Qed.
Lemma ckeeps_raise {A} (P : tpred) e : ckeeps P (craise e : CM A).
Proof. by apply ckeeps_pure. Qed.
Lemma ckeeps_lift {A} (P : tpred) (r : res exn A) : ckeeps P (clift r).
Proof. by apply ckeeps_pure. Qed.
Lemma ckeeps_gets {A} (P : tpred) (f : CS → A) : ckeeps P (cgets f).
Proof. by apply ckeeps_pure. Qed.
Lemma ckeeps_now (P : tpred) : ckeeps P timezone_now.
Proof. by apply ckeeps_pure. Qed.
Lemma ckeeps_call (P : tpred) c : ckeeps P (call c).
Proof. by apply ckeeps_pure. Qed.
Lemma ckeeps_lock (P : tpred) f : ckeeps P (lock_rows f).
Proof. by apply ckeeps_pure. Qed.

Lemma ckeeps_catch {A} (P : tpred) p (m : CM A) h :
  ckeeps P m → (∀ e, ckeeps P (h e)) → ckeeps P (ccatch p m h).
Proof.
  intros Hm Hh s Hs. unfold ccatch. specialize (Hm s Hs). destruct (m s) as [[a|e] s']; [done|].
  destruct (p e); [|done]. by apply Hh.
Qed.

Lemma ckeeps_in_atomic (P : tpred) : ckeeps P in_atomic.
Proof. apply ckeeps_bind; [apply ckeeps_up, keeps_connection|intros; apply ckeeps_ret]. Qed.

Lemma ckeeps_cache (P : tpred) f : ckeeps P (cache_now f).
Proof. apply ckeeps_up. by apply keeps_modify. Qed.

Lemma ckeeps_read_hosts (P : tpred) t : ckeeps P (read_hosts t).
Proof. apply ckeeps_up, keeps_select. Qed.

Lemma ckeeps_hook (P : tpred) h : ckeeps P (run_hook h).
Proof.
  destruct h; simpl.
  - apply ckeeps_cache.
  - apply ckeeps_bind; [apply ckeeps_read_hosts|intros; apply ckeeps_cache].
  - apply ckeeps_bind; [apply ckeeps_gets|intros]. apply ckeeps_bind; [apply ckeeps_lift|intros; apply ckeeps_cache].
  - apply ckeeps_call.
  - apply ckeeps_call.
Qed.

Lemma ckeeps_hooks (P : tpred) hs : ckeeps P (run_hooks hs).
Proof. induction hs; simpl; [apply ckeeps_ret|]. apply ckeeps_bind; [apply ckeeps_hook|done]. Qed.

Lemma ckeeps_on_commit (P : tpred) h : ckeeps P (on_commit h).
Proof.
  apply ckeeps_bind; [apply ckeeps_in_atomic|]. intros []; [by apply ckeeps_pure|apply ckeeps_hook].
Qed.

Lemma ckeeps_forget_tenant (P : tpred) t : ckeeps P (forget_tenant_c t).
Proof. apply ckeeps_bind; [apply ckeeps_read_hosts|intros; apply ckeeps_on_commit]. Qed.
Lemma ckeeps_forget_host (P : tpred) h : ckeeps P (forget_host_c h).
Proof.
  apply ckeeps_bind; [apply ckeeps_gets|intros]. apply ckeeps_bind; [apply ckeeps_lift|intros; apply ckeeps_on_commit].
Qed.
Lemma ckeeps_forget_schema (P : tpred) x : ckeeps P (forget_schema_c x).
Proof. apply ckeeps_bind; [apply ckeeps_up, keeps_select|intros; apply ckeeps_on_commit]. Qed.

Lemma next_event_trace w r w' : next_event w = (r, w') → w_trace w' = w_trace w.
Proof. unfold next_event. destruct (w_script w); by intros [= <- <-]. Qed.

(** The effects of an atomic block are those of its body, rolled back or not. *)
Lemma ctrip_atomic {A} (P : tpred) (m : CM A) (Q : A → tpred) (E : tpred) :
  ctrip P m Q E → (∀ a tr, Q a tr → E tr) → ctrip P (atomic m) Q E.
Proof.
  intros Hm HE s Hs. unfold atomic.
  set (s0 := mkCS (upd_conns (alter (conn_atomic true) "default") (cs_w s)) [] (cs_calls s)).
  specialize (Hm s0 Hs). destruct (m s0) as [[a|e] s']; [|done].
  destruct (next_event (cs_w s')) as [[ev|e] w2] eqn:En; apply next_event_trace in En.
  - destruct (ev_fault ev).
    + cbn [cs_w]. destruct (ev_applied ev); simpl; rewrite En; eauto.
    + assert (ckeeps (Q a) (run_hooks (cs_hooks s') $;; cret a)) as Hk
        by (apply ckeeps_bind; [apply ckeeps_hooks|intros; apply ckeeps_ret]).
      specialize (Hk (mkCS (leave (cs_w s) w2) (cs_hooks s) (cs_calls s'))). simpl in Hk. rewrite En in Hk.
      specialize (Hk Hm). unfold cbind in *.
      destruct (run_hooks _ _) as [[u|e] s2]; simpl in *; eauto.
  - simpl. rewrite En. eauto.
Qed.

Lemma ckeeps_atomic {A} (P : tpred) (m : CM A) : ckeeps P m → ckeeps P (atomic m).
Proof. intros Hm. by apply ctrip_atomic. Qed.

Lemma ckeeps_nested {A} (P : tpred) (m : CM A) : ckeeps P m → ckeeps P (nested_atomic m).
Proof.
  intros Hm. apply ckeeps_bind; [apply ckeeps_in_atomic|]. intros [|]; [|by apply ckeeps_atomic].
  intros s Hs. specialize (Hm s Hs). by destruct (m s) as [[a|e] s'].
Qed.

End ctrace.

#[export] Hint Resolve ckeeps_ret ckeeps_raise ckeeps_lift ckeeps_gets ckeeps_now ckeeps_call ckeeps_lock
  ckeeps_in_atomic ckeeps_cache ckeeps_read_hosts ckeeps_hook ckeeps_hooks ckeeps_on_commit
  ckeeps_forget_tenant ckeeps_forget_host ckeeps_forget_schema : ckeeps.

(** Walks through a request whose steps all keep the predicate. *)
Ltac ckeeps_step :=
  lazymatch goal with
  | |- ckeeps _ (cbind _ _) => apply ckeeps_bind; [|intros ?]
  | |- ckeeps _ (ccatch _ _ _) => apply ckeeps_catch; [|intros ?]
  | |- ckeeps _ (atomic _) => apply ckeeps_atomic
  | |- ckeeps _ (nested_atomic _) => apply ckeeps_nested
  | |- ckeeps _ (match ?x with _ => _ end) => destruct x eqn:?
  | |- ckeeps _ (let '_ := ?x in _) => destruct x
  | |- ckeeps _ (up _) => apply ckeeps_up; keeps_solve
  | |- ckeeps _ _ => solve [eauto 2 with ckeeps typeclass_instances]
  end.
Ltac ckeeps_solve := repeat ckeeps_step.

(** ** Relations every step respects

    A preorder on worlds that local changes, closing a session and the events of
    other clients respect; a program respects it when its statements do. *)

Create HintDb steps.

Class StepRel `{Invalidator} (R : World → World → Prop) : Prop := {
  sr_pre :: PreOrder R;
  sr_local w w' : w_srv w' = w_srv w → w_script w' = w_script w → w_trace w' = w_trace w → R w w';
  sr_close a r w : R w (upd_trace (cons (AClose a r)) w);
  sr_event w : R w (next_event w).2;
}.

Section steps.
Context `{Invalidator} (R : World → World → Prop) `{!StepRel R}.

Definition steps {A} (m : M A) : Prop := ∀ w, R w (m w).2.

(** The effect of a statement when it is applied. *)
Definition applied {A} (f : Srv → res exn A * Srv * list Action) (w : World) : World :=
  upd_trace (app (f (w_srv w)).2) (upd_srv (λ _, (f (w_srv w)).1.2) w).

Definition allows {A} (f : Srv → res exn A * Srv * list Action) : Prop := ∀ w, R w (applied f w).

Lemma steps_local {A} (m : M A) :
  (∀ w, w_srv (m w).2 = w_srv w ∧ w_script (m w).2 = w_script w ∧ w_trace (m w).2 = w_trace w) → steps m.
Proof. intros Hm w. apply sr_local; apply Hm. Qed.

Lemma steps_ret {A} (a : A) : steps (ret a).
Proof. by apply steps_local. Qed.
Lemma steps_raise {A} e : steps (raise e : M A).
Proof. by apply steps_local. Qed.
Lemma steps_lift {A} (r : res exn A) : steps (lift r).
Proof. by apply steps_local. Qed.
Lemma steps_connection a : steps (connection a).
Proof. apply steps_local. intros w. unfold connection. by case_match. Qed.
Lemma steps_set_conn a f : steps (set_conn a f).
Proof. by apply steps_local. Qed.
Lemma steps_set_raw a f : steps (set_raw a f).
Proof. by apply steps_local. Qed.
Lemma steps_cache f : steps (modify (upd_cache f)).
Proof. by apply steps_local. Qed.

Lemma steps_bind {A B} (m : M A) (k : A → M B) : steps m → (∀ a, steps (k a)) → steps (bind m k).
Proof.
  intros Hm Hk w. specialize (Hm w). unfold bind. destruct (m w) as [[a|e] w1]; [|done].
  etransitivity; [exact Hm|apply Hk].
Qed.

Lemma steps_catch {A} (m : M A) h : steps m → (∀ e, steps (h e)) → steps (catch m h).
Proof.
  intros Hm Hh w. specialize (Hm w). unfold catch. destruct (m w) as [[a|e] w1]; [done|].
  destruct (is_exception e); [|done]. specialize (Hh e w1).
  destruct (h e w1) as [[a|e2] w2]; by etransitivity.
Qed.

Lemma steps_finally {A} (m : M A) f : steps m → steps f → steps (finally m f).
Proof.
  intros Hm Hf w. specialize (Hm w). unfold finally. destruct (m w) as [r w1]. specialize (Hf w1).
  destruct (f w1) as [[u|e] w2]; by etransitivity.
Qed.

Lemma steps_round_trip {A} a (f : Srv → res exn A * Srv * list Action) : allows f → steps (round_trip a f).
Proof.
  intros Hf. apply steps_bind; [intros w; apply sr_event|]. intros ev w. specialize (Hf w). unfold applied in Hf.
  destruct (f (w_srv w)) as [[r v] acts]. simpl in *.
  destruct (ev_fault ev); [destruct (ev_applied ev)|destruct r]; simpl.
  2: by apply sr_local.
  all: etransitivity; [exact Hf|by apply sr_local].
Qed.

Lemma steps_ensure a : steps (ensure_connection a).
Proof.
  apply steps_bind; [apply steps_connection|]. intros c. case_match; [apply steps_ret|].
  apply steps_bind; [intros w; apply sr_event|]. intros ev. case_match; [apply steps_raise|apply steps_set_conn].
Qed.

Lemma steps_query {A} a (f : Srv → res exn A * Srv * list Action) : allows f → steps (query a f).
Proof. intros Hf. apply steps_bind; [apply steps_ensure|intros; by apply steps_round_trip]. Qed.

(** Statements without effect. *)
Lemma allows_reading {A} (f : Srv → res exn A * Srv * list Action) :
  (∀ v, (f v).1.2 = v ∧ (f v).2 = []) → allows f.
Proof. intros Hf w. destruct (Hf (w_srv w)) as [E1 E2]. unfold applied. rewrite E1, E2. by apply sr_local. Qed.

Lemma steps_reading {A} a (f : Srv → res exn A * Srv * list Action) :
  (∀ v, (f v).1.2 = v ∧ (f v).2 = []) → steps (query a f).
Proof. intros Hf. by apply steps_query, allows_reading. Qed.

Lemma steps_trip_reading {A} a (f : Srv → res exn A * Srv * list Action) :
  (∀ v, (f v).1.2 = v ∧ (f v).2 = []) → steps (round_trip a f).
Proof. intros Hf. by apply steps_round_trip, allows_reading. Qed.

Lemma steps_select {A} a (f : Srv → A) : steps (select a f).
Proof. by apply steps_reading. Qed.

Lemma steps_close a : steps (close a).
Proof.
  apply steps_bind; [apply steps_connection|]. intros c. apply steps_bind; [|intros; apply steps_set_conn].
  case_match; [intros w; apply sr_close|apply steps_ret].
Qed.

End steps.

#[export] Hint Resolve steps_ret steps_raise steps_lift steps_connection steps_set_conn steps_set_raw steps_cache
  steps_ensure steps_select steps_close : steps.
#[export] Hint Extern 1 (steps _ (query _ _)) => (apply steps_reading; [exact _|by intros]) : steps.
#[export] Hint Extern 1 (steps _ (round_trip _ _)) => (apply steps_trip_reading; [exact _|by intros]) : steps.

Ltac steps_step :=
  lazymatch goal with
  | |- steps _ (bind _ _) => apply steps_bind; [exact _| |intros ?]
  | |- steps _ (catch _ _) => apply steps_catch; [exact _| |intros ?]
  | |- steps _ (finally _ _) => apply steps_finally; [exact _|..]
  | |- steps _ (match ?x with _ => _ end) => destruct x
  | |- steps _ _ => solve [eauto 4 with steps typeclass_instances]
  end.
Ltac steps_solve := repeat steps_step.

(** The operations of the migrator that requests call and that only read. *)
Section step_ops.
Context `{Invalidator} `{Site} `{Upstream} (R : World → World → Prop) `{!StepRel R}.

Lemma steps_fresh : steps R _fresh.
Proof. unfold _fresh. steps_solve. Qed.
Lemma steps_reset a r : steps R (_reset_session a r).
Proof. unfold _reset_session. steps_solve. Qed.
Lemma steps_close_shard a : steps R (_close_shard a).
Proof. unfold _close_shard, set_schema_to_public. steps_solve. apply steps_reset. Qed.
Lemma steps_lease_holder k : steps R (lease_holder k).
Proof. unfold lease_holder. steps_solve. apply steps_fresh. Qed.
Lemma steps_session a k : steps R (shard_session_active a k).
Proof. unfold shard_session_active. steps_solve. Qed.
Lemma steps_pending_plan t : steps R (pending_plan t).
Proof. unfold pending_plan, set_schema, executor_plan. steps_solve. apply steps_close_shard. Qed.
Lemma steps_code_older : steps R code_older_than_db.
Proof. unfold code_older_than_db, set_schema_to_public. steps_solve. apply steps_fresh. Qed.
Lemma steps_check_reactivation t : steps R (check_reactivation t).
Proof. unfold check_reactivation. steps_solve; [apply steps_code_older|apply steps_pending_plan]. Qed.

End step_ops.

#[export] Hint Resolve steps_fresh steps_close_shard steps_lease_holder steps_session steps_pending_plan
  steps_code_older steps_check_reactivation : steps.

(** ** The same for requests *)

Class TxRel `{Invalidator} (R : World → World → Prop) : Prop := {
  tx_step :: StepRel R;
  tx_lock_lease key w : R w (upd_script (fmap (keep_lease_row key) (w_script w)) w);
  tx_lock_tenant pk w : R w (upd_script (fmap (keep_tenant_row pk) (w_script w)) w);
  tx_leave w w' : R w w' → R w (leave w w');
  tx_rollback w w' : R w w' → R w (leave w (rolled_back w w'));
  tx_savepoint w w' : R w w' → R w (upd_srv (λ _, others_only w w') w');
}.

Create HintDb csteps.

Section csteps.
Context `{Invalidator} `{!HostInvalidator} (R : World → World → Prop) `{!TxRel R}.

Definition csteps {A} (m : CM A) : Prop := ∀ s, R (cs_w s) (cs_w (m s).2).

Lemma csteps_up {A} (m : M A) : steps R m → csteps (up m).
Proof. intros Hm s. unfold up. specialize (Hm (cs_w s)). by destruct (m (cs_w s)). Qed.

Lemma csteps_local {A} (m : CM A) : (∀ s, cs_w (m s).2 = cs_w s) → csteps m.
Proof. intros Hm s. by rewrite Hm. Qed.

Lemma csteps_ret {A} (a : A) : csteps (cret a).
Proof. by apply csteps_local. Qed.
Lemma csteps_raise {A} e : csteps (craise e : CM A).
Proof. by apply csteps_local. Qed.
Lemma csteps_lift {A} (r : res exn A) : csteps (clift r).
Proof. by apply csteps_local. Qed.
Lemma csteps_gets {A} (f : CS → A) : csteps (cgets f).
Proof. by apply csteps_local. Qed.
Lemma csteps_now : csteps timezone_now.
Proof. by apply csteps_local. Qed.
Lemma csteps_call c : csteps (call c).
Proof. by apply csteps_local. Qed.
Lemma csteps_lock_lease key : csteps (lock_rows (keep_lease_row key)).
Proof. intros s. apply tx_lock_lease. Qed.
Lemma csteps_lock_tenant pk : csteps (lock_rows (keep_tenant_row pk)).
Proof. intros s. apply tx_lock_tenant. Qed.

Lemma csteps_bind {A B} (m : CM A) (k : A → CM B) : csteps m → (∀ a, csteps (k a)) → csteps (cbind m k).
Proof.
  intros Hm Hk s. specialize (Hm s). unfold cbind. destruct (m s) as [[a|e] s1]; [|done].
  etransitivity; [exact Hm|apply Hk].
Qed.

Lemma csteps_catch {A} p (m : CM A) h : csteps m → (∀ e, csteps (h e)) → csteps (ccatch p m h).
Proof.
  intros Hm Hh s. specialize (Hm s). unfold ccatch. destruct (m s) as [[a|e] s1]; [done|].
  destruct (p e); [|done]. etransitivity; [exact Hm|apply Hh].
Qed.

Lemma csteps_in_atomic : csteps in_atomic.
Proof. apply csteps_bind; [apply csteps_up, steps_connection, _|intros; apply csteps_ret]. Qed.
Lemma csteps_cache f : csteps (cache_now f).
Proof. apply csteps_up, steps_cache, _. Qed.
Lemma csteps_select {A} a (f : Srv → A) : csteps (up (select a f)).
Proof. apply csteps_up, steps_select, _. Qed.

Lemma csteps_hook h : csteps (run_hook h).
Proof.
  destruct h; simpl.
  - apply csteps_cache.
  - apply csteps_bind; [apply csteps_select|intros; apply csteps_cache].
  - apply csteps_bind; [apply csteps_gets|intros]. apply csteps_bind; [apply csteps_lift|intros; apply csteps_cache].
  - apply csteps_call.
  - apply csteps_call.
Qed.

Lemma csteps_hooks hs : csteps (run_hooks hs).
Proof. induction hs; simpl; [apply csteps_ret|]. apply csteps_bind; [apply csteps_hook|done]. Qed.

Lemma csteps_on_commit h : csteps (on_commit h).
Proof. apply csteps_bind; [apply csteps_in_atomic|]. intros []; [by apply csteps_local|apply csteps_hook]. Qed.

Lemma csteps_forget_tenant t : csteps (forget_tenant_c t).
Proof. apply csteps_bind; [apply csteps_select|intros; apply csteps_on_commit]. Qed.
Lemma csteps_forget_host h : csteps (forget_host_c h).
Proof.
  apply csteps_bind; [apply csteps_gets|intros]. apply csteps_bind; [apply csteps_lift|intros; apply csteps_on_commit].
Qed.
Lemma csteps_forget_schema x : csteps (forget_schema_c x).
Proof. apply csteps_bind; [apply csteps_select|intros; apply csteps_on_commit]. Qed.

Lemma csteps_atomic {A} (m : CM A) : csteps m → csteps (atomic m).
Proof.
  intros Hm s. unfold atomic. set (s0 := mkCS _ [] (cs_calls s)).
  assert (R (cs_w s) (cs_w (m s0).2)) as Hm'.
  { etransitivity; [|exact (Hm s0)]. by apply sr_local. }
  destruct (m s0) as [[a|e] s']; simpl in Hm'; [|by apply tx_rollback].
  pose proof (sr_event (cs_w s')) as He.
  destruct (next_event (cs_w s')) as [[ev|e] w2]; simpl in He; [|by etransitivity].
  assert (R (cs_w s) w2) as H2 by (by etransitivity).
  destruct (ev_fault ev).
  - simpl. destruct (ev_applied ev); [by apply tx_leave|by apply tx_rollback].
  - assert (csteps (run_hooks (cs_hooks s') $;; cret a)) as Hk
      by (apply csteps_bind; [apply csteps_hooks|intros; apply csteps_ret]).
    etransitivity; [|apply Hk]. by apply tx_leave.
Qed.

Lemma csteps_nested {A} (m : CM A) : csteps m → csteps (nested_atomic m).
Proof.
  intros Hm. apply csteps_bind; [apply csteps_in_atomic|]. intros [|]; [|by apply csteps_atomic].
  intros s. specialize (Hm s). destruct (m s) as [[a|e] s']; [done|]. by apply tx_savepoint.
Qed.

End csteps.

#[export] Hint Resolve csteps_ret csteps_raise csteps_lift csteps_gets csteps_now csteps_call csteps_lock_lease
  csteps_lock_tenant csteps_in_atomic csteps_cache csteps_select csteps_hook csteps_hooks csteps_on_commit
  csteps_forget_tenant csteps_forget_host csteps_forget_schema : csteps.

Ltac csteps_step :=
  lazymatch goal with
  | |- csteps _ (cbind _ _) => apply csteps_bind; [exact _| |intros ?]
  | |- csteps _ (ccatch _ _ _) => apply csteps_catch; [exact _| |intros ?]
  | |- csteps _ (atomic _) => apply csteps_atomic; [exact _|]
  | |- csteps _ (nested_atomic _) => apply csteps_nested; [exact _|]
  | |- csteps _ (match ?x with _ => _ end) => destruct x eqn:?
  | |- csteps _ (up _) => apply csteps_up; steps_solve
  | |- csteps _ _ => solve [eauto 4 with csteps typeclass_instances]
  end.
Ltac csteps_solve := repeat csteps_step.

(** * Who may move a tenant's status

    The writers of [Tenant.status] are the migrator, the console and the admin.
    For any interleaving and any failure: which moves each of them makes, and
    what it knew of the row it overwrote. *)

(** ** The specification of the status machine *)

Inductive Writer := Migrator_ | Console_ | Admin_.

Definition may_move (who : Writer) (old new : Status) : bool :=
  match who, old, new with
  | Migrator_, NEW, PENDING | Migrator_, PENDING, PENDING | Migrator_, PENDING, ACTIVE
  | Migrator_, NEW, FAILED | Migrator_, PENDING, FAILED
  | Migrator_, ACTIVE, FAILED | Migrator_, DEACTIVATED, FAILED => true
  | Console_, ACTIVE, DEACTIVATED | Console_, DEACTIVATED, ACTIVE => true
  | Admin_, ACTIVE, DEACTIVATED | Admin_, ACTIVE, MAINTENANCE
  | Admin_, DEACTIVATED, ACTIVE | Admin_, DEACTIVATED, MAINTENANCE
  | Admin_, FAILED, NEW | Admin_, FAILED, MAINTENANCE
  | Admin_, MAINTENANCE, ACTIVE | Admin_, MAINTENANCE, DEACTIVATED | Admin_, MAINTENANCE, FAILED => true
  | _, _, _ => false
  end.

(** One effect on the registry, judged against the machine: the row overwritten
    had the status the writer expected, and that status is recorded. *)
Definition write_ok (who : Writer) (a : Action) : Prop :=
  match a with
  | AStatus pk new prev g =>
      who ≠ Migrator_ ∧ ∃ t, g_tenants g !! pk = Some t ∧ t_status t = prev ∧ may_move who prev new = true
  | ACas pk new _ g =>
      who = Migrator_ ∧ ∃ t, g_tenants g !! pk = Some t ∧ may_move who (t_status t) new = true
  | AInsert _ st => who ≠ Migrator_ ∧ st = NEW
  | ADelete _ _ => who ≠ Migrator_
  | _ => True
  end.

(** The trace grew by effects that are all within the machine. *)
Definition within (who : Writer) (tr0 : list Action) : tpred :=
  λ tr, ∃ new, tr = new ++ tr0 ∧ Forall (write_ok who) new.

#[global] Instance within_stable who tr0 : Stable (within who tr0).
Proof. intros a r tr (new & -> & Hn). exists (AClose a r :: new). split; [done|]. by constructor. Qed.

Lemma within_start who tr : within who tr tr.
Proof. by exists []. Qed.

Section ops.
Context `{Invalidator} `{!HostInvalidator} `{Site} `{Upstream} `{DomainMixin}.

(** ** Statements *)

Lemma keeps_within {A} who tr0 alias (f : Srv → res exn A * Srv * list Action) :
  (∀ v, Forall (write_ok who) (f v).2) → keeps (within who tr0) (query alias f).
Proof.
  intros Hf. assert (∀ v tr, within who tr0 tr → within who tr0 ((f v).2 ++ tr)) as Hgrow.
  { intros v tr (new & -> & Hn). exists ((f v).2 ++ new). rewrite app_assoc. split; [done|]. by apply Forall_app. }
  apply trip_query; auto.
Qed.

Lemma transition_within pk from to v :
  may_move Console_ from to = true → Forall (write_ok Console_) (transition_stmt pk from to v).2.
Proof.
  intros Hm. unfold transition_stmt. destruct (g_tenants (v_reg v) !! pk) as [t|] eqn:E; [|constructor].
  case_bool_decide; [|constructor]. constructor; [|constructor]. simpl. subst. eauto.
Qed.

Lemma admin_moves old new : new ≠ old → mem new (STATUS_TRANSITIONS old) = true → may_move Admin_ old new = true.
Proof. by destruct old, new. Qed.

Lemma admin_cas_within pk old new v :
  may_move Admin_ old new = true → Forall (write_ok Admin_) (admin_cas_stmt pk old new v).2.
Proof.
  intros Hm. unfold admin_cas_stmt. destruct (g_tenants (v_reg v) !! pk) as [t|] eqn:E; [|constructor].
  case_bool_decide; [|constructor]. constructor; [|constructor]. simpl. subst. eauto.
Qed.

(** [update_fields] without [status] never moves it. *)
Lemma write_fields_status fs t old : F_status ∉ fs → t_status (write_fields (Some fs) t old) = t_status old.
Proof. intros Hf. simpl. unfold pick. by rewrite (proj2 (mem_false _ _) Hf). Qed.

Lemma update_within who pk fs t v : F_status ∉ fs → Forall (write_ok who) (tenant_update_stmt pk (Some fs) t v).2.
Proof.
  intros Hf. unfold tenant_update_stmt. destruct (g_tenants (v_reg v) !! pk) as [old|]; [|constructor].
  destruct (tenant_clash _ _ _); [constructor|]. cbn [snd].
  rewrite bool_decide_true; [constructor|by apply write_fields_status].
Qed.

Lemma insert_within who seq t v :
  who ≠ Migrator_ → t_status t = NEW → Forall (write_ok who) (tenant_insert_stmt seq t v).2.
Proof. intros Hw Ht. unfold tenant_insert_stmt. destruct (_ || _); [constructor|]. by repeat constructor. Qed.

(** ** Operations *)

Lemma stamp_fields now uf o o1 fs : stamp now uf o = (o1, fs) →
  ti_pk o1 = ti_pk o ∧ t_status (ti_row o1) = t_status (ti_row o)
  ∧ (uf = None → fs = None) ∧ (∀ l, uf = Some l → ∃ l', fs = Some l' ∧ (F_status ∈ l' ↔ F_status ∈ l)).
Proof.
  unfold stamp. destruct (_ || _); intros [= <- <-]; simpl; repeat split; try (by intros ->); intros l ->; simpl.
  - exists (F_status_changed_at :: l). split; [done|]. rewrite elem_of_cons. naive_solver.
  - eauto.
Qed.

(** Saving a new tenant as NEW, or an old one without its status. *)
Definition harmless (o : TenantInst) (uf : option (list TField)) : Prop :=
  (ti_pk o = None ∧ t_status (ti_row o) = NEW) ∨ (is_Some (ti_pk o) ∧ ∃ l, uf = Some l ∧ F_status ∉ l).

Lemma stamp_harmless now uf o o1 fs : stamp now uf o = (o1, fs) → harmless o uf → harmless o1 fs.
Proof.
  intros E. apply stamp_fields in E as (Hp & Hst & _ & Hl). unfold harmless. rewrite Hp, Hst.
  intros [?|[? (l & -> & Hn)]]; [by left|right]. destruct (Hl l eq_refl) as (l' & -> & Hiff).
  split; [done|]. exists l'. split; [done|]. by rewrite Hiff.
Qed.

Context (who : Writer) (tr0 : list Action) (Hwho : who ≠ Migrator_).

Lemma keeps_row_save seq fs o : harmless o fs → keeps (within who tr0) (tenant_row_save seq fs o).
Proof.
  unfold tenant_row_save. intros [[-> Hn]|[[pk ->] (l & -> & Hl)]].
  - apply keeps_within. intros v. by apply insert_within.
  - apply keeps_bind; [|intros; apply keeps_ret]. apply keeps_within. intros v. by apply update_within.
Qed.

Lemma ckeeps_tenant_save seq shard uf o : harmless o uf → ckeeps (within who tr0) (tenant_save seq shard uf o).
Proof.
  intros Hh. unfold tenant_save. apply ckeeps_bind; [apply ckeeps_now|]. intros now.
  destruct (stamp now uf o) as [o1 fs] eqn:E. apply stamp_harmless in E; [|done].
  assert (ckeeps (within who tr0) (pk <-$ up (tenant_row_save seq fs o1);;
      (invalidate_tenant (as_obj pk shard (ti_row o1)) $;; cret (mkTI (Some pk) false (ti_row o1) (ti_loaded o1))))) as Hs.
  { apply ckeeps_bind; [by apply ckeeps_up, keeps_row_save|]. intros pk. unfold invalidate_tenant. ckeeps_solve. }
  destruct fs as [[|f fs]|]; [apply ckeeps_ret|exact Hs|exact Hs].
Qed.

Lemma ckeeps_domain_save seq d : ckeeps (within who tr0) (domain_save seq d).
Proof.
  unfold domain_save, invalidate_domain_saved. ckeeps_solve. apply keeps_query.
  intros v. by destruct (dm_save _ _ _) as [[row g]|e].
Qed.

Lemma ckeeps_tenant_delete t : ckeeps (within who tr0) (tenant_delete t).
Proof.
  unfold tenant_delete, invalidate_tenant_deleted. ckeeps_solve.
  - apply keeps_within. intros v. by repeat constructor.
  - generalize a. intros hosts. induction hosts; simpl; unfold invalidate_domain_deleted; ckeeps_solve.
Qed.

Lemma ckeeps_shard_delete pk s : ckeeps (within who tr0) (shard_delete pk s).
Proof.
  unfold shard_delete. ckeeps_solve. apply keeps_query. intros v. unfold shard_delete_stmt. by case_bool_decide.
Qed.

Lemma keeps_check_reactivation t : keeps (within who tr0) (check_reactivation t).
Proof. unfold check_reactivation. keeps_solve. Qed.

Lemma keeps_lock_lease pk : keeps (within who tr0) (lease_lock_for_transition pk).
Proof. unfold lease_lock_for_transition. keeps_solve. Qed.

Lemma keeps_shard_loop {X} (probe : string → list string → M (list X)) d :
  (∀ a l, keeps (within who tr0) (probe a l)) → keeps (within who tr0) (shard_loop probe d).
Proof. intros Hp. induction d as [|[a ss] d IH]; simpl; keeps_solve. Qed.

Lemma keeps_probes (django_migrations : ShardDb → string → option (list MigRow))
    (users : ShardDb → string → option (list UserRow)) ts :
  keeps (within who tr0) (existing_schemas ts)
  ∧ keeps (within who tr0) (last_migrations django_migrations ts)
  ∧ keeps (within who tr0) (admins users ts).
Proof. repeat split; apply keeps_shard_loop; intros; cbn zeta; keeps_solve. Qed.

Lemma ckeeps_get_object pk : ckeeps (within who tr0) (get_object pk).
Proof. unfold get_object. ckeeps_solve. Qed.

Lemma ckeeps_render django_migrations users action t : ckeeps (within who tr0) (render django_migrations users action t).
Proof.
  unfold render, get_serializer_context. destruct action; cbv zeta; ckeeps_solve; apply (keeps_probes django_migrations users).
Qed.

Lemma ckeeps_guard t : ckeeps (within who tr0) (_guard_public t).
Proof. unfold _guard_public. ckeeps_solve. Qed.

Lemma ckeeps_validate_domain rules i d : ckeeps (within who tr0) (TenantSerializer_validate_domain rules i d).
Proof. unfold TenantSerializer_validate_domain. ckeeps_solve. Qed.

Lemma ckeeps_validate_schema_name rules n : ckeeps (within who tr0) (TenantSerializer_validate_schema_name rules n).
Proof. unfold TenantSerializer_validate_schema_name. ckeeps_solve. Qed.

Lemma ckeeps_get_shard pk : ckeeps (within who tr0) (get_shard pk).
Proof. unfold get_shard. ckeeps_solve. Qed.

Lemma ckeeps_guard_default s : ckeeps (within who tr0) (_guard_default s).
Proof. unfold _guard_default. ckeeps_solve. Qed.

Lemma ckeeps_set_active pk s n b : ckeeps (within who tr0) (shard_set_active pk s n b).
Proof.
  unfold shard_set_active. ckeeps_solve. apply keeps_query. intros v. unfold shard_active_stmt. by case_match.
Qed.

End ops.

#[export] Hint Resolve ckeeps_tenant_save ckeeps_domain_save ckeeps_tenant_delete ckeeps_shard_delete
  ckeeps_get_object ckeeps_render ckeeps_guard ckeeps_validate_domain ckeeps_validate_schema_name
  ckeeps_get_shard ckeeps_guard_default ckeeps_set_active : ckeeps.
#[export] Hint Resolve keeps_check_reactivation keeps_lock_lease : keeps.

(** ** The admin's save *)

Section admin_save.
Context `{Invalidator} `{!HostInvalidator} `{Site} `{Upstream} `{DomainMixin}.
Context (rules : list ReservedHostRule) (zone_ok : string → bool).
Context (blocked_str : Blocked → string) (fmt_admin : Z → string) (tr0 : list Action).

Lemma ctrip_fact {A} (P : tpred) (m : CM A) (φ : A → Prop) :
  ckeeps P m → (∀ s a s', m s = (Ok a, s') → φ a) → ctrip P m (λ a tr, P tr ∧ φ a) P.
Proof.
  intros Hm Hφ s Hs. specialize (Hm s Hs). specialize (Hφ s).
  destruct (m s) as [[a|e] s'] eqn:E; [|done]. split; [done|]. by eapply Hφ.
Qed.

(** What the form lets through was one of the choices. *)
Lemma form_valid_choice t old p s new sh s' :
  form_valid rules zone_ok fmt_admin blocked_str t old p s = (Ok (Ok (new, sh)), s') →
  status_field old (tp_status p) = Some new.
Proof.
  unfold form_valid, cbind. destruct (up (select _ _) s) as [[shard|e] s1]; [|done].
  destruct (status_field old (tp_status p)) as [st|]; [|done]. destruct shard as [sh'|]; [|done].
  destruct (up (form_clean _ _ _ _ _ _) s1) as [[[u|e]|e] s2]; [|done..].
  destruct (_validate_timezone _ _) as [?|?]; [|done]. destruct (tenant_clean _ _ _) as [?|?]; [|done].
  unfold cret. by intros [= -> _ _].
Qed.

Lemma choice_moves old submitted new :
  status_field old submitted = Some new → new ≠ old → may_move Admin_ old new = true.
Proof.
  unfold status_field. destruct (mem old [PENDING; NEW]); [congruence|].
  destruct (status_named submitted) as [st|]; [|done]. simpl.
  destruct (mem st (STATUS_TRANSITIONS old)) eqn:E; [|done]. intros [= ->] Hn. by apply admin_moves.
Qed.

Lemma keeps_form_clean who t old new confirm :
  keeps (within who tr0) (form_clean fmt_admin blocked_str t old new confirm).
Proof. unfold form_clean, busy_check. keeps_solve. Qed.

Lemma ckeeps_form_valid who t old p :
  ckeeps (within who tr0) (form_valid rules zone_ok fmt_admin blocked_str t old p).
Proof. unfold form_valid. ckeeps_solve. apply keeps_form_clean. Qed.

Lemma ckeeps_save_status t old new :
  may_move Admin_ old new = true → ckeeps (within Admin_ tr0) (save_status fmt_admin t old new).
Proof.
  intros Hm. unfold save_status, lock_out, write_status. ckeeps_solve. apply keeps_within. intros v. by apply admin_cas_within.
Qed.

Lemma changed_no_status t p : F_status ∉ changed_fields t p.
Proof.
  unfold changed_fields. rewrite !elem_of_app.
  destruct (String.eqb _ _), (String.eqb _ _), (t_shard_id t =? tp_shard p)%Z, (bool_decide _); set_solver.
Qed.

Lemma ckeeps_save_model t old new sh p :
  (new ≠ old → may_move Admin_ old new = true) →
  ckeeps (within Admin_ tr0) (save_model fmt_admin t old new sh p).
Proof.
  intros Hm. unfold save_model. apply ckeeps_bind.
  - case_bool_decide; simpl; ckeeps_solve. by apply ckeeps_save_status, Hm.
  - intros loaded. pose proof (changed_no_status (o_tenant t) p) as Hno.
    destruct (changed_fields (o_tenant t) p) as [|f fs]; [apply ckeeps_ret|].
    apply ckeeps_bind; [|intros; apply ckeeps_ret]. apply ckeeps_tenant_save; [done|]. right. split; [by eexists|eauto].
Qed.

Lemma ckeeps_changeform pk p :
  ckeeps (within Admin_ tr0) (changeform_view rules zone_ok fmt_admin blocked_str pk p).
Proof.
  unfold changeform_view. apply ckeeps_catch; [|intros; apply ckeeps_ret]. apply ckeeps_atomic.
  apply ckeeps_bind; [ckeeps_solve|]. intros [t|]; [|apply ckeeps_ret]. cbv zeta.
  set (old := form_old_status _ _).
  apply (ctrip_bind _ _ _ (λ a tr, within Admin_ tr0 tr ∧ match a with
           | Ok (new, _) => status_field old (tp_status p) = Some new | Err _ => True end)).
  - apply ctrip_fact; [apply ckeeps_form_valid|]. intros s a s' E. destruct a as [[new sh]|e]; [|done].
    by eapply form_valid_choice.
  - intros [[new sh]|e] s [Hs Hc]; [|exact Hs]. revert s Hs. apply ckeeps_bind; [|intros; apply ckeeps_ret].
    apply ckeeps_save_model. by apply (choice_moves old (tp_status p)).
Qed.

End admin_save.

(** ** Requests *)

Section requests.
Context `{Invalidator} `{!HostInvalidator} `{Site} `{Upstream} `{DomainMixin}.
Context (rules : list ReservedHostRule) (zone_ok : string → bool).
Context (django_migrations : ShardDb → string → option (list MigRow)).
Context (users : ShardDb → string → option (list UserRow)).
Context (blocked_str : Blocked → string) (fmt_admin : Z → string).
Context (validate_password : string → res (list string) unit).
Context (create_user : string → string → string → ShardDb → Z * ShardDb).
Context (namespace_rows : ShardDb → list (string * string * option string * option string)).
Context (database_name : string → string) (databases : list string).

(** Every endpoint of the console and every POST of the admin. *)
Inductive Request_ :=
| Deactivate (pk : Z) | Activate (pk : Z) | Provision (pk : Z)
| Destroy (drop_schema : option string) (pk : Z)
| Create (seq dseq : Z) (input : CreateInput) | Update (dseq pk : Z) (input : UpdateInput)
| CreateAdmin (pk : Z) (username password : option string)
| ShardActivate (pk : Z) | ShardDeactivate (pk : Z) | ShardDestroy (pk : Z) | ShardSchemas (pk : Z)
| AdminSave (pk : Z) (p : TenantPost) | AdminAdd (seq : Z) (schema : string) (p : TenantPost)
| AdminDelete (ts : list TenantObj) | AdminDeleteShards (ss : list (Z * Shard))
| AdminSaveShard (seq : Z) (pk : option Z) (s : Shard).

Definition writer (r : Request_) : Writer :=
  match r with
  | AdminSave _ _ | AdminAdd _ _ _ | AdminDelete _ | AdminDeleteShards _ | AdminSaveShard _ _ _ => Admin_
  | _ => Console_
  end.

Definition ignore {A} (m : CM A) : CM unit := m $;; cret tt.

Definition serve (r : Request_) : CM unit :=
  match r with
  | Deactivate pk => ignore (tenant_deactivate django_migrations users blocked_str pk)
  | Activate pk => ignore (tenant_activate django_migrations users blocked_str pk)
  | Provision pk => ignore (tenant_provision pk)
  | Destroy d pk => ignore (tenant_destroy d pk)
  | Create seq dseq input => ignore (tenant_create rules django_migrations users seq dseq input)
  | Update dseq pk input => ignore (tenant_update rules django_migrations users dseq pk input)
  | CreateAdmin pk u p => ignore (create_admin users validate_password create_user pk u p)
  | ShardActivate pk => ignore (shard_activate pk)
  | ShardDeactivate pk => ignore (shard_deactivate pk)
  | ShardDestroy pk => ignore (shard_destroy pk)
  | ShardSchemas pk => ignore (shard_schemas namespace_rows database_name pk)
  | AdminSave pk p => ignore (changeform_view rules zone_ok fmt_admin blocked_str pk p)
  | AdminAdd seq schema p => ignore (add_view rules zone_ok seq schema p)
  | AdminDelete ts => ignore (delete_tenants ts)
  | AdminDeleteShards ss => ignore (delete_shards ss)
  | AdminSaveShard seq pk s => ignore (shard_form_save databases seq pk s)
  end.

Lemma ckeeps_ignore {A} (P : tpred) (m : CM A) : ckeeps P m → ckeeps P (ignore m).
Proof. intros Hm. unfold ignore. by ckeeps_solve. Qed.

Lemma console_not_migrator : Console_ ≠ Migrator_.
Proof. done. Qed.
Lemma admin_not_migrator : Admin_ ≠ Migrator_.
Proof. done. Qed.
#[local] Hint Resolve console_not_migrator admin_not_migrator : ckeeps.

Lemma ckeeps_transition tr0 action pk from to stopper :
  may_move Console_ from to = true →
  ckeeps (within Console_ tr0) (_transition django_migrations users blocked_str action pk from to stopper).
Proof.
  intros Hm. unfold _transition. ckeeps_solve. apply keeps_within. intros v. by apply transition_within.
Qed.

Lemma ckeeps_create tr0 seq dseq input :
  ckeeps (within Console_ tr0) (tenant_create rules django_migrations users seq dseq input).
Proof.
  unfold tenant_create, TenantSerializer_validate, TenantSerializer_create. ckeeps_solve.
  apply ckeeps_tenant_save; [done|]. by left.
Qed.

Lemma assigned_no_status input : F_status ∉ assigned input.
Proof. unfold assigned. destruct (up_company_name input), (up_description input); set_solver. Qed.

Lemma ckeeps_update tr0 dseq pk input :
  ckeeps (within Console_ tr0) (tenant_update rules django_migrations users dseq pk input).
Proof.
  unfold tenant_update, perform_update, TenantSerializer_update. ckeeps_solve.
  all: apply ckeeps_tenant_save; [done|]; right; (split; [by eexists|]).
  all: eexists; (split; [done|]); match goal with E : assigned ?i = _ |- _ => rewrite <- E end;
       apply assigned_no_status.
Qed.

Lemma ckeeps_delete_tenants who tr0 ts : who ≠ Migrator_ → ckeeps (within who tr0) (delete_tenants ts).
Proof. intros Hw. induction ts; simpl; ckeeps_solve. Qed.

Lemma ckeeps_delete_shards who tr0 ss : who ≠ Migrator_ → ckeeps (within who tr0) (delete_shards ss).
Proof. intros Hw. induction ss as [|[k s] ss IH]; simpl; ckeeps_solve. Qed.

Lemma tenant_clean_status sh o o' :
  tenant_clean rules sh o = Ok o' → ti_pk o' = ti_pk o ∧ t_status (ti_row o') = t_status (ti_row o).
Proof.
  unfold tenant_clean. intros E. repeat case_match; simplify_eq/=; try done.
  apply res_bind_ok in E as (n & _ & E). apply res_bind_ok in E as (u & _ & E). by simplify_eq/=.
Qed.

Lemma ckeeps_add_view tr0 seq schema p : ckeeps (within Admin_ tr0) (add_view rules zone_ok seq schema p).
Proof.
  unfold add_view. ckeeps_solve. apply ckeeps_tenant_save; [done|]. left.
  match goal with E : tenant_clean _ _ _ = Ok _ |- _ => apply tenant_clean_status in E as [-> ->] end. done.
Qed.

Lemma serve_within r s : within (writer r) (w_trace (cs_w s)) (w_trace (cs_w (serve r s).2)).
Proof.
  assert (ckeeps (within (writer r) (w_trace (cs_w s))) (serve r)) as Hk.
  { destruct r; apply ckeeps_ignore; cbn [writer].
    1, 2: by apply ckeeps_transition.
    - unfold tenant_provision. ckeeps_solve.
    - unfold tenant_destroy, perform_destroy. ckeeps_solve.
    - apply ckeeps_create.
    - apply ckeeps_update.
    - unfold create_admin. ckeeps_solve. apply keeps_query. intros v. by destruct (create_user _ _ _ _).
    - unfold shard_activate. ckeeps_solve.
    - unfold shard_deactivate. ckeeps_solve.
    - unfold shard_destroy. ckeeps_solve.
    - unfold shard_schemas. ckeeps_solve.
    - apply ckeeps_changeform.
    - apply ckeeps_add_view.
    - by apply ckeeps_delete_tenants.
    - by apply ckeeps_delete_shards.
    - unfold shard_form_save. ckeeps_solve. apply keeps_query. intros v. by case_match. }
  specialize (Hk s (within_start _ _)). by destruct (serve r s) as [[u|e] s'].
Qed.

End requests.

(** The migrator's policy implies its part of the machine. *)
Lemma trace_ok_within `{Site} pk tr : trace_ok pk tr → within Migrator_ [] tr.
Proof.
  intros Ht. exists tr. rewrite app_nil_r. split; [done|].
  induction tr as [|a tr IH]; [constructor|]. destruct Ht as [Ha Ht]. constructor; [|by apply IH].
  destruct a; simpl in *; try done. destruct Ha as (-> & _ & _ & (t & Et & Hl) & _). split; [done|].
  exists t. split; [done|]. by destruct (t_status t), new, prev.
Qed.

(** C3: For any interleaving with other clients and any failure,
    every status write of any console endpoint, of any admin POST and of a
    migrator run follows the status machine of its writer and overwrites a row
    that had exactly the status the write was checked against, which is recorded
    as the previous one; tenants are created NEW.  In that machine only the admin
    enters or leaves MAINTENANCE, only the migrator enters or leaves PENDING, and
    a tenant becomes NEW again only from FAILED. *)
Theorem status_machine `{Invalidator} `{!HostInvalidator} `{Site} `{Upstream} `{DomainMixin}
    rules zone_ok django_migrations users blocked_str fmt_admin validate_password create_user
    namespace_rows database_name databases :
  (∀ r s, within (writer r) (w_trace (cs_w s))
            (w_trace (cs_w (serve rules zone_ok django_migrations users blocked_str fmt_admin validate_password
               create_user namespace_rows database_name databases r s).2)))
  ∧ (∀ pk opts w, within Migrator_ [] (w_trace (migrate_tenant pk opts (upd_trace (λ _, []) w)).2))
  ∧ (∀ who old new, may_move who old new = true →
       (old = MAINTENANCE ∨ new = MAINTENANCE → who = Admin_)
       ∧ (old = PENDING ∨ new = PENDING → who = Migrator_)
       ∧ (new = NEW → who = Admin_ ∧ old = FAILED)
       ∧ (old = FAILED → who = Admin_)).
Proof.
  split; [intros; apply serve_within|]. split.
  - intros pk opts w. apply (trace_ok_within pk).
    pose proof (keeps_migrate_tenant pk opts (upd_trace (λ _, []) w) I) as Hk.
    by destruct (migrate_tenant pk opts (upd_trace (λ _, []) w)) as [[a|e] w'].
  - intros [] [] []; naive_solver.
Qed.
