(* ===== verification/ConsoleFacts.v ===== *)
(** * The admin's status change

    The change form against concurrent writers: a refused POST leaves nothing
    behind, and MAINTENANCE is never written under a live lease. *)
From S2P Require Import Prelude PyStr Validators Models PyExc Logs World Lease Schema Trace Migrator Requests ModelMethods Console.
From S2P Require Import Admin LifecycleFacts Quiet MigratorRun Probes.
From Stdlib Require Import Ascii.
Open Scope tenants_scope.

(** ** Programs that only read *)

Section reads.
Context `{Invalidator}.

Definition replay (evs : list Event) (v : Srv) : Srv := foldl (λ v ev, ev_env ev v) v evs.

(** From [w] to [w'] only the other clients changed the servers. *)
Definition env_only (w w' : World) : Prop :=
  ∃ used, w_script w = used ++ w_script w' ∧ w_srv w' = replay used (w_srv w).

#[global] Instance env_only_rel : StepRel env_only.
Proof.
  split.
  - split; [by exists []|]. intros w1 w2 w3 (u1 & E1 & S1) (u2 & E2 & S2). exists (u1 ++ u2).
    split; [by rewrite E1, E2, app_assoc|]. unfold replay in *. by rewrite foldl_app, S2, S1.
  - intros w w' E1 E2 _. exists []. by rewrite E2, E1.
  - intros a r w. by exists [].
  - intros w. unfold next_event. destruct (w_script w) as [|ev s] eqn:E; [by exists []|]. exists [ev]. by rewrite E.
Qed.

(** Leaving a block whose body only read, and rolling one back. *)
Lemma env_only_leave w w' : env_only w w' → env_only w (leave w w').
Proof.
  intros (u & E & S). exists u. unfold leave, consumed. simpl. split; [|done].
  rewrite E at 2. rewrite E, length_app, Nat.add_sub, drop_app_length. done.
Qed.

Lemma env_only_rollback w w' : env_only w (leave w (rolled_back w w')).
Proof.
  exists (take (consumed w w') (w_script w)). unfold leave, rolled_back, others_only, consumed. simpl. split; [|done].
  set (n := length (w_script w) - length (w_script w')).
  assert (length (w_script w) - length (drop n (w_script w)) = n) as E by (rewrite length_drop; lia).
  by rewrite E, take_drop.
Qed.

End reads.

(** ** Faults of the database are not conflicts of the admin *)

Definition fault_ok (ev : Event) : Prop := ∀ e, ev_fault ev = Some e → is_status_conflict e = false.
Definition plain_faults (script : list Event) : Prop := Forall fault_ok script.

Definition keeps_faults `{Invalidator} (w w' : World) : Prop :=
  plain_faults (w_script w) → plain_faults (w_script w').

#[global] Instance keeps_faults_rel `{Invalidator} : TxRel keeps_faults.
Proof.
  split; [split| ..].
  - split; [intros w Hw; exact Hw|]. intros w1 w2 w3 H1 H2 Hw. exact (H2 (H1 Hw)).
  - intros w w' _ E _. unfold keeps_faults. by rewrite E.
  - intros a r w Hw. exact Hw.
  - intros w. unfold keeps_faults, next_event, plain_faults. destruct (w_script w) as [|ev s] eqn:E; simpl; [by rewrite E|].
    intros Hw. by inversion Hw.
  - intros key w Hw. by apply Forall_fmap.
  - intros pk w Hw. by apply Forall_fmap.
  - intros w w' _ Hw. by apply Forall_drop.
  - intros w w' _ Hw. simpl. by apply Forall_drop.
  - intros w w' Hr Hw. by apply Hr.
Qed.

Lemma faults_allow `{Invalidator} {A} (f : Srv → res exn A * Srv * list Action) : allows keeps_faults f.
Proof. intros w Hw. exact Hw. Qed.

Section admin_facts.
Context `{Invalidator} `{!HostInvalidator} `{Site} `{Upstream} `{DomainMixin}.
Context (rules : list ReservedHostRule) (zone_ok : string → bool).
Context (fmt_admin : Z → string) (blocked_str : Blocked → string).

Lemma steps_form_clean R `{!StepRel R} t old new confirm :
  steps R (form_clean fmt_admin blocked_str t old new confirm).
Proof. unfold form_clean, busy_check. steps_solve. Qed.

(** The form reads, and touches neither the hooks nor the outside. *)
Lemma form_valid_reads t old p s r s' :
  form_valid rules zone_ok fmt_admin blocked_str t old p s = (r, s') →
  env_only (cs_w s) (cs_w s') ∧ cs_hooks s' = cs_hooks s ∧ cs_calls s' = cs_calls s.
Proof.
  unfold form_valid, cbind, up, cret.
  pose proof (steps_select env_only "default" (λ v, shard_choice (v_reg v) (o_schema t) (tp_shard p)) (cs_w s)) as Q1.
  destruct (select _ _ (cs_w s)) as [[shard|e] w1]; simpl in *; [|by intros [= <- <-]].
  destruct (status_field old (tp_status p)) as [new|]; [|by intros [= <- <-]].
  destruct shard as [sh|]; [|by intros [= <- <-]].
  pose proof (steps_form_clean env_only t old new (tp_confirm_schema p) w1) as Q2.
  cbn [cs_w cs_hooks cs_calls]. destruct (form_clean _ _ _ _ _ _ w1) as [r2 w2]; simpl in *.
  assert (env_only (cs_w s) w2) as Q3 by (by etransitivity).
  destruct r2 as [[u|e]|e]; [|by intros [= <- <-]..].
  intros E. repeat case_match; by simplify_eq/=.
Qed.

(** ** A refused POST *)

(** The body of [changeform_view] inside its transaction. *)
Definition change_body (pk : Z) (p : TenantPost) : CM Outcome :=
  row <-$ up (select "default" (λ v, get_tenant (v_reg v) pk)) ;;
  match row with
  | None => cret Gone
  | Some t =>
      let old := form_old_status (tp_expected_status p) (o_status t) in
      valid <-$ form_valid rules zone_ok fmt_admin blocked_str t old p ;;
      match valid with
      | Err e => cret (Invalid_ e)
      | Ok (new, sh) => save_model fmt_admin t old new sh p $;; cret Saved
      end
  end.

Lemma change_body_refused pk p s o s' :
  change_body pk p s = (Ok o, s') → o ≠ Saved →
  env_only (cs_w s) (cs_w s') ∧ cs_hooks s' = cs_hooks s ∧ cs_calls s' = cs_calls s.
Proof.
  unfold change_body, cbind at 1, up at 1.
  pose proof (steps_select env_only "default" (λ v, get_tenant (v_reg v) pk) (cs_w s)) as Q1.
  destruct (select _ _ (cs_w s)) as [[row|e] w1]; simpl in *; [|done].
  destruct row as [t|]; [|by intros [= <- <-]]. unfold cbind at 1.
  destruct (form_valid _ _ _ _ t _ p _) as [[v|e] s2] eqn:E; [|done].
  apply form_valid_reads in E as (Q2 & Hh & Hc). simpl in *. destruct v as [[new sh]|e].
  - unfold cbind. destruct (save_model _ _ _ _ _ _ _) as [[u|e] s3]; [|done]. by intros [= <- <-].
  - intros [= <- <-] _. split; [by etransitivity|done].
Qed.

Lemma steps_lock_lease_any R `{!StepRel R} pk :
  (∀ f, allows R (λ v, (Ok tt : res exn unit, set_reg (set_leases f) v, []))) →
  steps R (lease_lock_for_transition pk).
Proof. intros Ha. unfold lease_lock_for_transition. steps_solve. by apply steps_query. Qed.

Lemma faults_change_body pk p : csteps keeps_faults (change_body pk p).
Proof.
  unfold change_body, form_valid, save_model, save_status, lock_out, write_status, tenant_save, invalidate_tenant. csteps_solve.
  all: try apply steps_form_clean, _.
  all: try (apply steps_lock_lease_any; [exact _|]; intros; apply faults_allow).
  all: try (apply steps_query; [exact _|apply faults_allow]).
  all: unfold tenant_row_save; steps_solve; (apply steps_query; [exact _|apply faults_allow]).
Qed.

(** The exceptions the hooks can add. *)
Lemma read_hosts_error t s e s' :
  plain_faults (w_script (cs_w s)) → read_hosts t s = (Err e, s') → is_status_conflict e = false.
Proof.
  unfold read_hosts, up, select, query, ensure_connection, bind, connection. intros Hf.
  destruct (w_conns (cs_w s) !! "default") as [c|]; [|by intros [= <- <-]].
  assert (∀ w, plain_faults (w_script w) → ∀ r w', round_trip "default"
     (λ v, (Ok (tenant_hosts (v_reg v) (o_pk t)), v, [])) w = (r, w') → ∀ e, r = Err e → is_status_conflict e = false) as Hrt.
  { intros w Hw r w'. unfold round_trip, bind, next_event.
    destruct (w_script w) as [|ev sc] eqn:E; simpl; [by intros [= <- <-]|].
    destruct (ev_fault ev) eqn:Ef; intros [= <- <-]; [|done]. intros ? [= <-]. inversion Hw; subst. by eauto. }
  destruct (c_raw c); simpl.
  - destruct (round_trip _ _ _) as [rr wr] eqn:E. intros [= -> <-]. by eapply Hrt.
  - unfold next_event. destruct (w_script (cs_w s)) as [|ev sc] eqn:Es; simpl.
    + destruct (round_trip _ _ _) as [rr wr] eqn:E. intros [= -> <-]. eapply Hrt; [|exact E|done]. simpl. by rewrite Es.
    + inversion Hf as [|?? Hev Hsc]; subst. destruct (ev_fault ev) eqn:Ef; simpl; [intros [= <- <-]; by eauto|].
      destruct (round_trip _ _ _) as [rr wr] eqn:E. intros [= -> <-]. eapply Hrt; [|exact E|done]. done.
Qed.

Lemma hooks_error hs s e s' :
  plain_faults (w_script (cs_w s)) → run_hooks hs s = (Err e, s') → is_status_conflict e = false.
Proof.
  revert s. induction hs as [|h hs IH]; intros s Hf; [done|]. simpl. unfold cbind at 1.
  pose proof (csteps_hook keeps_faults h s Hf) as Hf1.
  destruct (run_hook h s) as [[u|e1] s1] eqn:E; simpl in Hf1; [by apply IH|]. intros [= <- <-].
  destruct h; cbn in E; try done; unfold cbind in E.
  - destruct (read_hosts t s) as [[l|e2] s2] eqn:Er; [done|]. simplify_eq. eapply read_hosts_error; [exact Hf|exact Er].
  - unfold cgets, clift in E. destruct (inv_forget_one host _) as [f|e2] eqn:Ef; [done|]. simplify_eq.
    apply inv_forget_one_error in Ef. unfold is_status_conflict. set_unfold in Ef. by destruct Ef as [-> | [-> | []]].
Qed.

(** C22: Whatever other clients do meanwhile and
    whichever statement fails, a POST of the tenant change form that is answered
    with a form error, with a status conflict or for a vanished row has changed
    nothing: the servers hold exactly what the other clients made of them. *)
Theorem admin_refusal_writes_nothing pk p s o s' :
  plain_faults (w_script (cs_w s)) →
  changeform_view rules zone_ok fmt_admin blocked_str pk p s = (Ok o, s') → o ≠ Saved →
  env_only (cs_w s) (cs_w s').
Proof.
  intros Hf. unfold changeform_view. fold (change_body pk p). unfold ccatch.
  destruct (atomic (change_body pk p) s) as [[o1|e] s1] eqn:E; unfold atomic in E.
  all: set (s0 := mkCS (upd_conns (alter (conn_atomic true) "default") (cs_w s)) [] (cs_calls s)) in E.
  all: pose proof (faults_change_body pk p s0 Hf) as Hf1.
  all: destruct (change_body pk p s0) as [[o2|e2] s2] eqn:Eb; simpl in Hf1.
  - pose proof (sr_event (R := keeps_faults) (cs_w s2) Hf1) as Hf2.
    pose proof (sr_event (R := env_only) (cs_w s2)) as He.
    intros [= <- <-] Ho. destruct (next_event (cs_w s2)) as [[ev|e] w2]; [|done]. simpl in *.
    destruct (ev_fault ev); [done|]. unfold cbind in E.
    destruct (run_hooks (cs_hooks s2) _) as [[u|e] s3] eqn:Eh; [|done]. unfold cret in E. simplify_eq.
    apply change_body_refused in Eb as (Q1 & Q2 & Q3); [|done]. rewrite Q2 in Eh. unfold run_hooks, cret in Eh. simplify_eq/=.
    apply env_only_leave. etransitivity; [exact Q1|done].
  - done.
  - destruct (is_status_conflict e) eqn:Ec; [|done]. intros _ _. exfalso.
    pose proof (sr_event (R := keeps_faults) (cs_w s2) Hf1) as Hf2. unfold plain_faults in Hf1.
    unfold next_event in *. destruct (w_script (cs_w s2)) as [|ev sc] eqn:Es; simpl in *.
    + unfold cbind in E. destruct (run_hooks (cs_hooks s2) _) as [[u|e3] s3] eqn:Eh; [done|]. simplify_eq.
      apply hooks_error in Eh; [congruence|]. by apply Forall_drop.
    + inversion Hf1 as [|?? Hev Hsc]; subst. destruct (ev_fault ev) eqn:Ef; [simplify_eq; by rewrite Hev in Ec|].
      unfold cbind in E. destruct (run_hooks (cs_hooks s2) _) as [[u|e3] s3] eqn:Eh; [done|]. simplify_eq.
      apply hooks_error in Eh; [congruence|]. by apply Forall_drop.
  - destruct (is_status_conflict e) eqn:Ec; [|done]. intros [= <- <-] _. simplify_eq/=. apply env_only_rollback.
Qed.

(** ** MAINTENANCE and the lease *)

(** Nobody holds lease [key]: it is absent, free or expired. *)
Definition not_live (key : Z) (g : Registry) : Prop :=
  ∀ l, g_leases g !! key = Some l → ls_owner l = None ∨ lease_expired g l = true.

(** The database clock does not run backwards. *)
Definition forward (ev : Event) : Prop := ∀ v, (g_now (v_reg v) ≤ g_now (v_reg (ev_env ev v)))%Z.
Definition clock_forward (script : list Event) : Prop := Forall forward script.

Definition maintenance_ok (a : Action) : Prop :=
  match a with AStatus k MAINTENANCE _ g => not_live k g | _ => True end.

Definition grows (w w' : World) : Prop := ∃ new, w_trace w' = new ++ w_trace w ∧ Forall maintenance_ok new.

Definition maint (w w' : World) : Prop :=
  clock_forward (w_script w) → clock_forward (w_script w') ∧ grows w w'.

(** A step relation from a condition [J] on the state that events keep. *)
Lemma grows_refl w : grows w w.
Proof. by exists []. Qed.
Lemma grows_trans w1 w2 w3 : grows w1 w2 → grows w2 w3 → grows w1 w3.
Proof. intros (n1 & E1 & F1) (n2 & E2 & F2). exists (n2 ++ n1). rewrite E2, E1, app_assoc. split; [done|by apply Forall_app]. Qed.
Lemma grows_same w w' : w_trace w' = w_trace w → grows w w'.
Proof. intros E. by exists []. Qed.

Lemma guarded_rel (J : World → Prop) :
  (∀ w w', w_srv w' = w_srv w → w_script w' = w_script w → J w → J w') →
  (∀ w, J w → J (next_event w).2) →
  StepRel (λ w w', J w → J w' ∧ grows w w').
Proof.
  intros Hl He. split.
  - split; [intros w Hw; split; [done|apply grows_refl]|]. intros w1 w2 w3 R12 R23 Hw.
    destruct (R12 Hw) as [J2 G2]. destruct (R23 J2) as [J3 G3]. split; [done|by eapply grows_trans].
  - intros w w' E1 E2 E3 Hw. split; [by apply (Hl w)|by apply grows_same].
  - intros a r w Hw. split; [by apply (Hl w)|]. exists [AClose a r]. split; [done|by constructor].
  - intros w Hw. split; [by apply He|]. apply grows_same. unfold next_event. by case_match.
Qed.

Lemma forward_next w : clock_forward (w_script w) → clock_forward (w_script (next_event w).2).
Proof.
  unfold clock_forward, next_event. destruct (w_script w) eqn:E; simpl; [by rewrite E|]. intros Hw. by inversion Hw.
Qed.

Lemma forward_blocked c ev : forward ev → forward (wait_unless c ev).
Proof. intros Hf v. simpl. destruct (c v (ev_env ev v)); [apply Hf|lia]. Qed.

#[local] Instance maint_rel : TxRel maint.
Proof.
  split.
  - apply guarded_rel; [intros w w' _ -> Hw; exact Hw|apply forward_next].
  - intros key w Hw. split; [|by apply grows_same]. apply Forall_fmap. eapply Forall_impl; [exact Hw|].
    intros ev. apply forward_blocked.
  - intros pk w Hw. split; [|by apply grows_same]. apply Forall_fmap. eapply Forall_impl; [exact Hw|].
    intros ev. apply forward_blocked.
  - intros w w' Hr Hw. destruct (Hr Hw) as [_ (new & E & F)]. split; [by apply Forall_drop|by exists new].
  - intros w w' Hr Hw. destruct (Hr Hw) as [_ (new & E & F)]. split; [by apply Forall_drop|by exists new].
  - intros w w' Hr Hw. destruct (Hr Hw) as [? (new & E & F)]. split; [done|by exists new].
Qed.

Lemma maint_allows {A} (f : Srv → res exn A * Srv * list Action) :
  (∀ v, Forall maintenance_ok (f v).2) → allows maint f.
Proof. intros Hf w Hw. split; [done|]. by exists (f (w_srv w)).2. Qed.

(** A select answers from the state it leaves behind. *)
Lemma select_state {A} a (f : Srv → A) w x w' : select a f w = (Ok x, w') → x = f (w_srv w').
Proof.
  unfold select, query, bind. destruct (ensure_connection a w) as [[u|e] w1]; [|done].
  unfold round_trip, bind. destruct (next_event w1) as [[ev|e] w2]; [|done].
  destruct (ev_fault ev); [by destruct (ev_applied ev)|]. simpl. by intros [= <- <-].
Qed.

Lemma lock_none pk w w' : lease_lock_for_transition pk w = (Ok None, w') → not_live pk (v_reg (w_srv w')).
Proof.
  unfold lease_lock_for_transition, bind at 1. destruct (connection "default" w) as [[c|e] w1]; [|done].
  destruct (negb (c_in_atomic c)); [done|]. unfold bind at 1. destruct (query _ _ w1) as [[u|e] w2]; [|done].
  unfold bind at 1. destruct (select _ _ w2) as [[row|e] w3] eqn:Es; [|done]. apply select_state in Es. subst row.
  destruct (g_leases (v_reg (w_srv w3)) !! pk) as [l3|] eqn:E3; simpl.
  - destruct (ls_owner l3) eqn:Eo; [destruct (lease_expired (v_reg (w_srv w3)) l3) eqn:Ex; [|done]|].
    all: intros [= <-] l Hl; rewrite E3 in Hl; simplify_eq; auto.
  - intros [= <-] l Hl. congruence.
Qed.

(** While the row is locked: nobody takes the lease. *)
Definition locked (pk : Z) (ev : Event) : Prop :=
  forward ev ∧ ∀ v, g_leases (v_reg (ev_env ev v)) !! pk = g_leases (v_reg v) !! pk.
Definition held (pk : Z) (w : World) : Prop := Forall (locked pk) (w_script w) ∧ not_live pk (v_reg (w_srv w)).

Lemma keep_lease_locked pk ev : forward ev → locked pk (keep_lease_row pk ev).
Proof.
  intros Hf. split.
  - by apply forward_blocked.
  - intros v. simpl. unfold same_lease. by case_bool_decide.
Qed.

Lemma not_live_later pk g g' :
  g_leases g' !! pk = g_leases g !! pk → (g_now g ≤ g_now g')%Z → not_live pk g → not_live pk g'.
Proof.
  intros E Hn Hg l Hl. rewrite E in Hl. destruct (Hg l Hl) as [?|Hx]; [by left|right].
  unfold lease_expired in *. destruct (ls_until l); [|done]. bool_props. apply Z.ltb_lt. lia.
Qed.

#[local] Instance held_rel pk : StepRel (λ w w', held pk w → held pk w' ∧ grows w w').
Proof.
  apply guarded_rel.
  - intros w w' E1 E2. unfold held. by rewrite E1, E2.
  - intros w [Hs Hn]. unfold held, next_event. destruct (w_script w) as [|ev sc] eqn:E; simpl; [by rewrite E|].
    inversion Hs as [|?? [Hf Hk] Hsc]; subst. split; [done|]. by apply (not_live_later pk (v_reg (w_srv w))).
Qed.

Lemma held_cas pk old : allows (λ w w', held pk w → held pk w' ∧ grows w w') (admin_cas_stmt pk old MAINTENANCE).
Proof.
  intros w [Hs Hn]. unfold applied, admin_cas_stmt. destruct (g_tenants (v_reg (w_srv w)) !! pk) as [t|]; simpl.
  2: { split; [done|by exists []]. }
  case_bool_decide; simpl; [|split; [done|by exists []]]. split; [done|].
  eexists [_]. split; [done|]. constructor; [exact Hn|by constructor].
Qed.

Lemma csteps_lock_out t new : csteps maint (lock_out fmt_admin t new).
Proof.
  unfold lock_out. csteps_solve. apply steps_lock_lease_any; [exact _|]. intros f. by apply maint_allows.
Qed.

Lemma lock_out_held t s s1 :
  clock_forward (w_script (cs_w s)) → lock_out fmt_admin t MAINTENANCE s = (Ok tt, s1) → held (o_pk t) (cs_w s1).
Proof.
  intros Hw. unfold lock_out. cbn [bool_decide]. rewrite bool_decide_true by done. unfold cbind at 1, up at 1.
  assert (maint (cs_w s) (lease_lock_for_transition (o_pk t) (cs_w s)).2) as Q1.
  { apply steps_lock_lease_any; [exact _|]. intros f. by apply maint_allows. }
  destruct (lease_lock_for_transition (o_pk t) (cs_w s)) as [[h|e] w1] eqn:El; [|done].
  destruct (Q1 Hw) as [Hw1 _]. unfold cbind at 1, lock_rows, cmodify. destruct h as [h|].
  - unfold cbind, clift. by destruct (since_text fmt_admin h).
  - intros [= <-]. split; [|by apply (lock_none _ _ _ El)]. apply Forall_fmap.
    eapply Forall_impl; [exact Hw1|]. intros ev. apply keep_lease_locked.
Qed.

(** The write itself, from a state in which MAINTENANCE may be written. *)
Lemma write_status_maint t old new s :
  (new = MAINTENANCE → held (o_pk t) (cs_w s)) →
  maint (cs_w s) (cs_w (write_status t old new s).2).
Proof.
  intros Hh. unfold write_status, cbind at 1, up.
  assert (maint (cs_w s) (query "default" (admin_cas_stmt (o_pk t) old new) (cs_w s)).2) as Q1.
  { destruct (decide (new = MAINTENANCE)) as [->|Hn].
    - intros Hw. pose proof (steps_query _ "default" _ (held_cas (o_pk t) old) (cs_w s)) as Q.
      destruct (Q (Hh eq_refl)) as [[Hs _] G]. split; [|done]. eapply Forall_impl; [exact Hs|]. by intros ev [? _].
    - apply steps_query; [exact _|]. apply maint_allows. intros v. unfold admin_cas_stmt.
      repeat case_match; simpl; repeat constructor; by destruct new. }
  destruct (query _ _ (cs_w s)) as [[n|e] w1]; [|done]. simpl in Q1. etransitivity; [exact Q1|].
  assert (csteps maint ((if (n =? 0)%nat then craise (status_conflict ("The status of '" +:+ o_schema t
     +:+ "' changed concurrently (it is no longer '" +:+ status_value old
     +:+ "'); nothing was saved. Reload the page and try again.")) else cret tt) $;;
     lock_rows (keep_tenant_row (o_pk t)) $;; on_commit (HForgetTenant t))) as Q2 by csteps_solve.
  apply (Q2 (mkCS w1 (cs_hooks s) (cs_calls s))).
Qed.

Lemma csteps_save_status t old new : csteps maint (save_status fmt_admin t old new).
Proof.
  intros s Hw. unfold save_status, cbind. pose proof (csteps_lock_out t new s) as Q1.
  destruct (lock_out fmt_admin t new s) as [[[]|e] s1] eqn:El; [|exact (Q1 Hw)]. simpl in Q1.
  refine (transitivity Q1 (write_status_maint t old new s1 _) Hw). intros ->. by apply (lock_out_held t s).
Qed.

(** Saving other fields writes no status. *)
Lemma no_status_effect pk fs t v : F_status ∉ fs → (tenant_update_stmt pk (Some fs) t v).2 = [].
Proof.
  intros Hf. unfold tenant_update_stmt. destruct (g_tenants (v_reg v) !! pk) as [old|]; [|done].
  destruct (tenant_clash _ _ _); [done|]. cbn [snd]. by rewrite bool_decide_true by by apply write_fields_status.
Qed.

Lemma steps_harmless_save seq fs o : harmless o fs → steps maint (tenant_row_save seq fs o).
Proof.
  unfold tenant_row_save. intros [[-> _]|[[pk ->] (l & -> & Hl)]].
  - apply steps_query; [exact _|]. apply maint_allows. intros v. unfold tenant_insert_stmt. case_match; by repeat constructor.
  - steps_solve. apply steps_query; [exact _|]. apply maint_allows. intros v. by rewrite no_status_effect.
Qed.

Lemma csteps_maint_save seq shard uf o : harmless o uf → csteps maint (tenant_save seq shard uf o).
Proof.
  intros Hh. unfold tenant_save, invalidate_tenant. csteps_solve.
  all: match goal with E : stamp _ _ _ = _ |- _ => apply stamp_harmless in E; [|done] end; by apply steps_harmless_save.
Qed.

(** C9: Whatever migrators and other clients do
    meanwhile, a POST of the change form never writes MAINTENANCE to a tenant
    whose lease is live at that moment: the lease row is locked, found absent,
    free or expired, and stays so until the write. *)
Theorem maintenance_not_under_lease pk p s :
  clock_forward (w_script (cs_w s)) →
  ∃ new, w_trace (cs_w (changeform_view rules zone_ok fmt_admin blocked_str pk p s).2) = new ++ w_trace (cs_w s)
    ∧ ∀ k prev g, AStatus k MAINTENANCE prev g ∈ new → not_live k g.
Proof.
  intros Hw. assert (csteps maint (changeform_view rules zone_ok fmt_admin blocked_str pk p)) as Hk.
  { unfold changeform_view, form_valid, save_model. csteps_solve.
    - apply steps_form_clean, _.
    - apply csteps_save_status.
    - apply csteps_maint_save. right. split; [by eexists|]. eexists. split; [done|].
      match goal with E : changed_fields _ _ = _ |- _ => rewrite <- E end. apply changed_no_status. }
  destruct (Hk s Hw) as [_ (new & E & F)]. exists new. split; [done|]. intros k prev g Hin.
  rewrite Forall_forall in F. by apply (F _ Hin).
Qed.

(** ** A saved change *)

(** The trace only grows. *)
Definition longer (w w' : World) : Prop := ∃ new, w_trace w' = new ++ w_trace w.

#[local] Instance longer_rel : TxRel longer.
Proof.
  split; [split|..].
  - split; [by exists []|]. intros w1 w2 w3 [n1 E1] [n2 E2]. exists (n2 ++ n1). by rewrite E2, E1, app_assoc.
  - intros w w' _ _ E. by exists [].
  - intros a r w. by exists [AClose a r].
  - intros w. exists []. unfold next_event. by case_match.
  - intros key w. by exists [].
  - intros pk w. by exists [].
  - intros w w' [new E]. by exists new.
  - intros w w' [new E]. by exists new.
  - intros w w' [new E]. by exists new.
Qed.

Lemma longer_allows {A} (f : Srv → res exn A * Srv * list Action) : allows longer f.
Proof. intros w. by exists (f (w_srv w)).2. Qed.

Lemma csteps_longer_save seq shard uf o : csteps longer (tenant_save seq shard uf o).
Proof.
  unfold tenant_save, invalidate_tenant, tenant_row_save. csteps_solve.
  all: apply steps_query; [exact _|apply longer_allows].
Qed.

Lemma csteps_longer_lock t new : csteps longer (lock_out fmt_admin t new).
Proof.
  unfold lock_out. csteps_solve. apply steps_lock_lease_any; [exact _|]. intros f. apply longer_allows.
Qed.

(** [w'] is after an effect [a] of the kind asked for. *)
Definition since_status (pk : Z) (old new : Status) (w w' : World) : Prop :=
  ∃ later earlier g t, w_trace w' = later ++ AStatus pk new old g :: earlier ++ w_trace w
    ∧ g_tenants g !! pk = Some t ∧ t_status t = old.

Lemma since_later pk old new w w1 w' : since_status pk old new w w1 → longer w1 w' → since_status pk old new w w'.
Proof.
  intros (l & e & g & t & E & Ht & Hs) [n En]. exists (n ++ l), e, g, t. by rewrite En, E, <- app_assoc.
Qed.

Lemma since_earlier pk old new w0 w w' : longer w0 w → since_status pk old new w w' → since_status pk old new w0 w'.
Proof.
  intros [n En] (l & e & g & t & E & Ht & Hs). exists l, (e ++ n), g, t. rewrite E, En, <- app_assoc. done.
Qed.

Lemma cas_recorded pk old new w n w' :
  query "default" (admin_cas_stmt pk old new) w = (Ok n, w') → n ≠ 0 → since_status pk old new w w'.
Proof.
  unfold query, bind at 1. pose proof (steps_ensure longer "default" w) as Q1.
  destruct (ensure_connection "default" w) as [[u|e] w1]; [|done]. simpl in Q1.
  unfold round_trip, bind at 1. pose proof (sr_event (R := longer) w1) as Q2.
  destruct (next_event w1) as [[ev|e] w2]; [|done]. simpl in Q2.
  destruct (ev_fault ev) as [e|]; [by destruct (admin_cas_stmt _ _ _ _) as [[r v] acts]|].
  unfold admin_cas_stmt. destruct (g_tenants (v_reg (w_srv w2)) !! pk) as [t|] eqn:Et.
  2: { by intros [= <- <-]. }
  case_bool_decide as Hs; [|by intros [= <- <-]]. intros [= <- <-] _.
  eapply since_earlier; [exact (transitivity Q1 Q2)|].
  by exists [], [], (v_reg (w_srv w2)), t.
Qed.

Lemma save_status_recorded t old new s s' :
  save_status fmt_admin t old new s = (Ok tt, s') → since_status (o_pk t) old new (cs_w s) (cs_w s').
Proof.
  unfold save_status, cbind at 1. pose proof (csteps_longer_lock t new s) as Q1.
  destruct (lock_out fmt_admin t new s) as [[u|e] s1]; [|done]. simpl in Q1.
  unfold write_status, cbind at 1, up at 1.
  destruct (query _ _ (cs_w s1)) as [[n|e] w2] eqn:Eq; [|done]. destruct (n =? 0)%nat eqn:En; [done|].
  bool_props. apply cas_recorded in Eq; [|done]. intros E.
  eapply since_earlier; [exact Q1|]. eapply since_later; [exact Eq|].
  assert (csteps longer (cret tt $;; lock_rows (keep_tenant_row (o_pk t)) $;; on_commit (HForgetTenant t))) as Q2 by csteps_solve.
  specialize (Q2 (mkCS w2 (cs_hooks s1) (cs_calls s1))). by rewrite E in Q2.
Qed.

Lemma save_model_recorded t old new sh p s s' :
  save_model fmt_admin t old new sh p s = (Ok tt, s') → new ≠ old →
  since_status (o_pk t) old new (cs_w s) (cs_w s').
Proof.
  intros E Hn. unfold save_model in E. rewrite bool_decide_false in E by done. cbn [negb] in E.
  unfold cbind at 1 2 in E. destruct (save_status fmt_admin t old new s) as [[[]|e] s1] eqn:Es; [|done].
  apply save_status_recorded in Es. eapply since_later; [exact Es|]. unfold cret at 1 in E.
  destruct (changed_fields (o_tenant t) p) as [|f fs].
  - unfold cret in E. by simplify_eq.
  - unfold cbind in E. pose proof (csteps_longer_save 0 sh (Some (f :: fs))
      (mkTI (Some (o_pk t)) false (set_status new (construct p new (o_tenant t))) (Some new)) s1) as Q.
    destruct (tenant_save _ _ _ _ s1) as [[o|e] s2]; [|done]. unfold cret in E. by simplify_eq.
Qed.

Lemma status_named_value st : status_named (status_value st) = Some st.
Proof. by destruct st. Qed.

(** A block that commits returned what its body did. *)
Lemma atomic_ok {A} (m : CM A) s a s' :
  atomic m s = (Ok a, s') →
  ∃ s2, m (mkCS (upd_conns (alter (conn_atomic true) "default") (cs_w s)) [] (cs_calls s)) = (Ok a, s2)
    ∧ longer (cs_w s2) (cs_w s').
Proof.
  unfold atomic. destruct (m _) as [[a'|e] s2]; [|done]. intros E.
  pose proof (sr_event (R := longer) (cs_w s2)) as Qe.
  destruct (next_event (cs_w s2)) as [[ev|e] w3]; [|done]. simpl in Qe. destruct (ev_fault ev); [done|].
  assert (csteps longer (run_hooks (cs_hooks s2) $;; cret a')) as Qh by csteps_solve.
  specialize (Qh (mkCS (leave (cs_w s) w3) (cs_hooks s) (cs_calls s2))). rewrite E in Qh. simpl in Qh.
  unfold cbind in E. destruct (run_hooks _ _) as [[u|e] s4]; [|done]. unfold cret in E. simplify_eq.
  exists s2. split; [done|]. by transitivity w3.
Qed.

Lemma got_pk g pk t : get_tenant g pk = Some t → o_pk t = pk.
Proof. intros (x & _ & E)%bind_Some. apply bind_Some in E as (y & _ & E). by simplify_eq. Qed.

Lemma choice_of_value old new new' :
  status_field old (status_value new) = Some new' → old ≠ NEW → old ≠ PENDING → new' = new.
Proof.
  unfold status_field. rewrite status_named_value. intros E ??.
  destruct (mem old [PENDING; NEW]) eqn:Em; [by destruct old|]. simpl in E. by case_match; simplify_eq.
Qed.

Lemma body_saved pk p s s' old new :
  change_body pk p s = (Ok Saved, s') →
  tp_expected_status p = Some (status_value old) → tp_status p = status_value new →
  new ≠ old → old ≠ NEW → old ≠ PENDING →
  since_status pk old new (cs_w s) (cs_w s').
Proof.
  intros Eb Hexp Hst Hne Hn Hp. unfold change_body, cbind at 1, up at 1 in Eb.
  pose proof (steps_select longer "default" (λ v, get_tenant (v_reg v) pk) (cs_w s)) as Q1.
  destruct (select _ _ (cs_w s)) as [[row|e] w1] eqn:Es; [|done]. simpl in Q1. destruct row as [t|]; [|done].
  apply select_state in Es. symmetry in Es. apply got_pk in Es. subst pk.
  rewrite Hexp in Eb. unfold form_old_status in Eb. cbn [option_bind mbind] in Eb.
  rewrite status_named_value in Eb. cbn [default from_option id] in Eb. unfold cbind at 1 in Eb.
  destruct (form_valid _ _ _ _ t old p _) as [[v|e] s3] eqn:Ev; [|done].
  assert (csteps longer (form_valid rules zone_ok fmt_admin blocked_str t old p)) as Q2
    by (unfold form_valid; csteps_solve; apply steps_form_clean, _).
  specialize (Q2 (mkCS w1 (cs_hooks s) (cs_calls s))). rewrite Ev in Q2. simpl in Q2.
  destruct v as [[new' sh]|e]; [|done]. apply form_valid_choice in Ev. rewrite Hst in Ev.
  apply choice_of_value in Ev; [|done..]. subst new'.
  unfold cbind in Eb. destruct (save_model _ t old new sh p s3) as [[[]|e] s4] eqn:Em; [|done].
  unfold cret in Eb. simplify_eq. apply save_model_recorded in Em; [|done].
  eapply since_earlier; [exact (transitivity Q1 Q2)|exact Em].
Qed.

(** Whatever other clients do meanwhile, when the
    change form reports a saved status change from the status the page showed to
    the chosen one, the request updated a row that still had the status shown, to
    the chosen status and no other. *)
Theorem admin_saves_what_was_shown pk p s s' old new :
  changeform_view rules zone_ok fmt_admin blocked_str pk p s = (Ok Saved, s') →
  tp_expected_status p = Some (status_value old) → tp_status p = status_value new →
  new ≠ old → old ≠ NEW → old ≠ PENDING →
  since_status pk old new (cs_w s) (cs_w s').
Proof.
  intros Hv Hexp Hst Hne Hn Hp. unfold changeform_view in Hv. fold (change_body pk p) in Hv. unfold ccatch in Hv.
  destruct (atomic (change_body pk p) s) as [[o|e] s1] eqn:E; [|by destruct (is_status_conflict e)].
  simplify_eq. apply atomic_ok in E as (s2 & Eb & Ql).
  eapply since_later; [|exact Ql]. eapply since_earlier; [|by eapply body_saved]. by exists [].
Qed.

End admin_facts.

(** * What the console endpoints do

    Exact outcomes of the status endpoints in an undisturbed run: response,
    registry and cache on every branch; and the layout of the aligned table. *)

Section quiet_requests.
Context `{Invalidator} `{!HostInvalidator} `{Site} `{Upstream} (alias : string).
Notation runs := (runs alias).
Notation St := (St alias).

(** ** Undisturbed requests *)

Definition cruns {A} (m : CM A) (q : View) (r : res exn A) (q' : View) : Prop :=
  ∀ s, St q (cs_w s) → ∃ w', m s = (r, mkCS w' (cs_hooks s) (cs_calls s)) ∧ St q' w'.

Lemma cruns_ret {A} (a : A) q : cruns (cret a) q (Ok a) q.
Proof. intros [w h c] Hs. by exists w. Qed.

Lemma cruns_raise {A} e q : cruns (craise e : CM A) q (Err e) q.
Proof. intros [w h c] Hs. by exists w. Qed.

Lemma cruns_up {A} (m : M A) q r q' : runs m q r q' → cruns (up m) q r q'.
Proof. intros Hm s Hs. destruct (Hm _ Hs) as (w' & E & Hw). exists w'. unfold up. by rewrite E. Qed.

Lemma cruns_bind {A B} (m : CM A) (k : A → CM B) q a q1 r q2 :
  cruns m q (Ok a) q1 → cruns (k a) q1 r q2 → cruns (cbind m k) q r q2.
Proof.
  intros Hm Hk s Hs. destruct (Hm s Hs) as (w1 & E & Hw1).
  destruct (Hk (mkCS w1 (cs_hooks s) (cs_calls s)) Hw1) as (w2 & E2 & Hw2).
  exists w2. unfold cbind. by rewrite E, E2.
Qed.

Lemma cruns_bind_err {A B} (m : CM A) (k : A → CM B) q e q1 : cruns m q (Err e) q1 → cruns (cbind m k) q (Err e) q1.
Proof. intros Hm s Hs. destruct (Hm s Hs) as (w1 & E & Hw1). exists w1. unfold cbind. by rewrite E. Qed.

Definition q_cached (f : inv_cache → inv_cache) (q : View) : View := mkView (q_srv q) (f (q_cache q)) (q_claimed q).

Lemma cruns_cache f q : cruns (cache_now f) q (Ok tt) (q_cached f q).
Proof.
  intros s Hs. eexists. split; [done|]. destruct Hs. split; simpl; try done. by rewrite st_cache.
Qed.

Lemma cruns_in_atomic q : cruns in_atomic q (Ok false) q.
Proof.
  intros s Hs. destruct (runs_connection alias q "default" (known_default alias) _ Hs) as (c & E & [Hc _]).
  unfold in_atomic, cbind, up. rewrite E. exists (cs_w s). unfold cret. simpl. by rewrite Hc.
Qed.

Lemma cruns_on_commit f q : cruns (on_commit (HCache f)) q (Ok tt) (q_cached f q).
Proof. eapply cruns_bind; [apply cruns_in_atomic|]. apply cruns_cache. Qed.

Lemma cruns_forget_tenant t q :
  cruns (forget_tenant_c t) q (Ok tt) (q_cached (inv_forget (tenant_hosts (q_reg q) (o_pk t)) (o_schema t)) q).
Proof. eapply cruns_bind; [by apply cruns_up, runs_select, known_default|]. apply cruns_on_commit. Qed.

Lemma cruns_get_object q pk t : get_tenant (q_reg q) pk = Some t → cruns (get_object pk) q (Ok t) q.
Proof.
  intros Hg. pose proof (cruns_up _ q _ _ (runs_query alias "default" (λ v,
    (match get_tenant (v_reg v) pk with Some t => Ok t | None => Err http404 end, v, [])) q (known_default alias))) as Hq.
  unfold effect, after in Hq. simpl in Hq. unfold q_reg in Hg. rewrite Hg in Hq. destruct q as [v c cl]. apply Hq.
Qed.

Lemma cruns_guard q t : o_schema t ≠ PUBLIC → cruns (_guard_public t) q (Ok tt) q.
Proof. intros Hp. unfold _guard_public. destruct (String.eqb (o_schema t) PUBLIC) eqn:E; bool_props; [done|apply cruns_ret]. Qed.

(** ** Rendering one tenant *)

Context (django_migrations : ShardDb → string → option (list MigRow)).
Context (users : ShardDb → string → option (list UserRow)).

Lemma runs_shard_loop {X} (probe : string → list string → M (list X)) t q (out : list X) :
  o_alias t = alias → runs (probe alias [o_schema t]) q (Ok out) q →
  runs (_for_each_shard [t] probe) q (Ok (out ++ [])) q.
Proof.
  intros Ha Hp. unfold _for_each_shard, _by_shard. simpl. rewrite Ha.
  replace (merge_sort str_le (elements {[o_schema t]})) with [o_schema t] by (by rewrite elements_singleton).
  eapply runs_bind; [|eapply runs_bind; apply runs_ret].
  apply runs_catch_ok. eapply runs_bind; [by apply runs_ensure, known_alias|done].
Qed.

Lemma runs_union {A X} (rows : ShardDb → string → option (list A)) (f : list (string * list A) → list X) l q :
  Forall (λ s, is_Some (rows (db_of alias (q_srv q)) s) ∧ is_safe_schema_identifier s = true) l →
  ∃ out, runs (_ <-! lift (if forallb (λ s, is_ok (quote_schema s)) l then Ok tt
                    else Err (simple_exn OtherException "ValueError" "unsafe schema identifier")) ;;
        rs <-! query alias (λ v, (union_all (rows (db_of alias v)) l, v, [])) ;;
        ret (f rs)) q (Ok out) q.
Proof.
  intros Hl. rewrite quote_safe by (eapply Forall_impl; [exact Hl|]; by intros ? []).
  pose proof (runs_query alias alias (λ v, (union_all (rows (db_of alias v)) l, v, [])) q (known_alias alias)) as Hq.
  unfold effect, after in Hq. simpl in Hq.
  rewrite union_all_present in Hq by (eapply Forall_impl; [exact Hl|]; by intros ? []).
  eexists. eapply runs_bind; [by intros w Hw; exists w|]. eapply runs_bind; [|apply runs_ret].
  destruct q. apply Hq.
Qed.

Lemma runs_last_migrations t q : o_alias t = alias → ∃ l, runs (last_migrations django_migrations [t]) q (Ok l) q.
Proof.
  intros Ha. set (present := filter (λ s, is_Some (django_migrations (db_of alias (q_srv q)) s)) [o_schema t]).
  pose proof (Forall_filter_and (λ s, is_safe_schema_identifier s = true)
    (λ s, is_Some (django_migrations (db_of alias (q_srv q)) s)) [o_schema t]) as Hall. fold present in Hall.
  destruct (filter (λ s, is_safe_schema_identifier s = true) present) as [|m ms] eqn:E.
  - exists ([] ++ []). apply runs_shard_loop; [done|].
    eapply runs_bind; [by apply runs_select, known_alias|]. cbn zeta. fold present. rewrite E. apply runs_ret.
  - destruct (runs_union django_migrations (omap (λ sr, (λ r, ((alias, sr.1), r)) <$> latest sr.2)) (m :: ms) q)
      as [out Ho]; [eapply Forall_impl; [exact Hall|]; by intros ? []|].
    exists (out ++ []). apply runs_shard_loop; [done|].
    eapply runs_bind; [by apply runs_select, known_alias|]. cbn zeta. fold present. rewrite E. exact Ho.
Qed.

Lemma runs_admins t q : o_alias t = alias → ∃ l, runs (admins users [t]) q (Ok l) q.
Proof.
  intros Ha. unfold admins. destruct (decide (is_safe_schema_identifier (o_schema t) = true)) as [Hs|Hs].
  2: { exists []. rewrite filter_cons_False by done. apply runs_ret. }
  rewrite filter_cons_True by done. change (filter _ []) with (@nil TenantObj).
  set (present := filter (λ s, is_Some (users (db_of alias (q_srv q)) s)) [o_schema t]).
  assert (Forall (λ s, is_Some (users (db_of alias (q_srv q)) s) ∧ is_safe_schema_identifier s = true) present) as Hall.
  { apply Forall_forall. intros x. unfold present. rewrite list_elem_of_filter, list_elem_of_singleton. by intros [? ->]. }
  destruct present as [|m ms] eqn:E.
  - exists ([] ++ []). apply runs_shard_loop; [done|].
    eapply runs_bind; [by apply runs_select, known_alias|]. fold present. rewrite E. apply runs_ret.
  - destruct (runs_union users (group_admins alias) (m :: ms) q Hall) as [out Ho].
    exists (out ++ []). apply runs_shard_loop; [done|].
    eapply runs_bind; [by apply runs_select, known_alias|]. fold present. rewrite E. exact Ho.
Qed.

Lemma runs_existing t q : o_alias t = alias → ∃ l, runs (existing_schemas [t]) q (Ok l) q.
Proof.
  intros Ha. eexists. apply runs_shard_loop; [done|].
  eapply runs_bind; [by apply runs_select, known_alias|apply runs_ret].
Qed.

(** The response of a status endpoint renders the row it is given. *)
Lemma cruns_render action t q :
  action = AActivate ∨ action = ADeactivate → o_alias t = alias → get_tenant (q_reg q) (o_pk t) = Some t →
  ∃ d, cruns (render django_migrations users action t) q (Ok d) q ∧ td_tenant d = t.
Proof.
  intros Hact Ha Hg. destruct (runs_existing t q Ha) as [l1 Q1].
  destruct (runs_last_migrations t q Ha) as [l2 Q2]. destruct (runs_admins t q Ha) as [l3 Q3].
  eexists (serializer_data _ _ t). split; [|done].
  eapply cruns_bind with (a := mkCtx (Some l1) (Some l2) (Some l3)).
  - assert (cruns (tenants <-$ up (select "default" (λ v, match get_tenant (v_reg v) (o_pk t) with Some t => [t] | None => [] end)) ;;
        existing <-$ up (existing_schemas tenants) ;; migrations <-$ up (last_migrations django_migrations tenants) ;;
        adm <-$ up (admins users tenants) ;; cret (mkCtx (Some existing) (Some migrations) (Some adm))) q
        (Ok (mkCtx (Some l1) (Some l2) (Some l3))) q) as Hc.
    { eapply cruns_bind; [by apply cruns_up, runs_select, known_default|]. unfold q_reg in Hg. cbn beta. rewrite Hg.
      eapply cruns_bind; [by apply cruns_up|]. eapply cruns_bind; [by apply cruns_up|].
      eapply cruns_bind; [by apply cruns_up|]. apply cruns_ret. }
    destruct Hact as [-> | ->]; exact Hc.
  - eapply cruns_bind; [by apply cruns_up, runs_select, known_default|apply cruns_ret].
Qed.

(** ** Reactivation *)

(** What [check_reactivation] answers, from the state of the servers. *)
Definition reactivation (v : Srv) (t : TenantObj) : res Blocked unit :=
  if older_than_db up_disk up_migrated_apps (applied_dict (g_applied (v_reg v))) then Err DeployInProgress
  else match plan_of (db_of (o_alias t) v) (o_schema t) with
       | None => Err (SchemaMissing (o_schema t) (o_alias t))
       | Some [] => Ok tt
       | Some p => Err (SchemaBehind ((λ '(a, n), a +:+ "." +:+ n) <$> p))
       end.

Lemma runs_check_reactivation t q :
  o_alias t = alias → runs (check_reactivation t) q (Ok (reactivation (q_srv q) t)) q.
Proof.
  intros Ha. unfold check_reactivation, reactivation.
  eapply runs_bind; [eapply runs_catch_ok, runs_bind; [apply runs_code_older|apply runs_ret]|]. cbn beta iota.
  unfold q_reg. destruct (older_than_db _ _ _); [apply runs_ret|].
  eapply runs_bind; [eapply runs_catch_ok, runs_bind; [by apply runs_pending_plan|apply runs_ret]|].
  rewrite Ha. cbn beta iota. destruct (plan_of _ _) as [[|m p]|]; apply runs_ret.
Qed.

(** ** Status endpoints *)

Context (blocked_str : Blocked → string).

(** The answer to a transition request, and whether it was carried out. *)
Inductive Verdict_ := InMaintenance | BlockedBy (b : Blocked) | WrongStatus | Moved.

Definition verdict (v : Srv) (t : TenantObj) (from : Status) (stopper : bool) : Verdict_ :=
  if bool_decide (o_status t = MAINTENANCE) then InMaintenance
  else if bool_decide (o_status t = from) then
    match (if stopper then reactivation v t else Ok tt) with Err b => BlockedBy b | Ok _ => Moved end
  else WrongStatus.

Definition moved_row (to : Status) (g : Registry) (t : TenantObj) : TenantObj :=
  mkTenantObj (o_pk t) (with_status to (o_status t) (g_now g) None (o_tenant t)) (o_shard t).

Definition moved_reg (to : Status) (g : Registry) (t : TenantObj) : Registry :=
  set_tenants (<[o_pk t := o_tenant (moved_row to g t)]>) g.

Lemma moved_get to g t pk : get_tenant g pk = Some t → get_tenant (moved_reg to g t) (o_pk t) = Some (moved_row to g t).
Proof.
  unfold get_tenant. destruct (g_tenants g !! pk) as [x|] eqn:E; [|done]. simpl.
  destruct (g_shards g !! t_shard_id x) as [sh|] eqn:Es; [|done]. simpl. intros [= <-]. simpl.
  rewrite lookup_insert_eq. simpl. by rewrite Es.
Qed.

Lemma transition_moves to t q :
  get_tenant (q_reg q) (o_pk t) = Some t →
  cruns (up (query "default" (transition_stmt (o_pk t) (o_status t) to))) q (Ok 1) (q_set_reg (λ g, moved_reg to g t) q).
Proof.
  intros Hg. pose proof (cruns_up _ q _ _ (runs_query alias "default" (transition_stmt (o_pk t) (o_status t) to) q
    (known_default alias))) as Hq. unfold effect, after, transition_stmt in Hq.
  apply get_tenant_pk in Hg as [_ Ht]. unfold q_reg in Ht. rewrite Ht in Hq.
  rewrite bool_decide_true in Hq by done. destruct q. exact Hq.
Qed.

Lemma transition_misses pk from to q t :
  g_tenants (q_reg q) !! pk = Some t → t_status t ≠ from →
  cruns (up (query "default" (transition_stmt pk from to))) q (Ok 0) q.
Proof.
  intros Ht Hn. pose proof (cruns_up _ q _ _ (runs_query alias "default" (transition_stmt pk from to) q
    (known_default alias))) as Hq. unfold effect, after, transition_stmt in Hq. unfold q_reg in Ht.
  rewrite Ht, bool_decide_false in Hq by done. destruct q. exact Hq.
Qed.

(** The part after the checks, when the status is the expected one. *)
Lemma cruns_move action to t q :
  action = AActivate ∨ action = ADeactivate → o_alias t = alias → get_tenant (q_reg q) (o_pk t) = Some t →
  ∃ d, td_tenant d = moved_row to (q_reg q) t
    ∧ cruns (updated <-$ up (query "default" (transition_stmt (o_pk t) (o_status t) to)) ;;
             if (updated =? 0)%nat then cret (refused_response t (o_status t) to)
             else forget_tenant_c t $;; fresh <-$ get_object (o_pk t) ;;
                  data <-$ render django_migrations users action fresh ;; cret (mkResponse 200 (BTenant data)))
        q (Ok (mkResponse 200 (BTenant d)))
        (q_cached (inv_forget (tenant_hosts (q_reg q) (o_pk t)) (o_schema t)) (q_set_reg (λ g, moved_reg to g t) q)).
Proof.
  intros Hact Ha Hg. set (q1 := q_set_reg (λ g, moved_reg to g t) q).
  set (q2 := q_cached (inv_forget (tenant_hosts (q_reg q) (o_pk t)) (o_schema t)) q1).
  assert (get_tenant (q_reg q2) (o_pk t) = Some (moved_row to (q_reg q) t)) as Hg2 by (by eapply moved_get).
  destruct (cruns_render action (moved_row to (q_reg q) t) q2) as (d & Hd & Ed); [done|done|done|].
  exists d. split; [done|]. eapply cruns_bind; [by apply transition_moves|]. cbn [Nat.eqb].
  eapply cruns_bind; [apply cruns_forget_tenant|].
  eapply cruns_bind; [by apply cruns_get_object|]. eapply cruns_bind; [exact Hd|apply cruns_ret].
Qed.

(** What a transition request ends in. *)
Definition outcome (v : Verdict_) (t : TenantObj) (from to : Status) (q : View) (r : res exn Response) (q' : View) : Prop :=
  match v with
  | InMaintenance =>
      r = Err (TenantMaintenance ("cannot move it to '" +:+ status_value to +:+ "' from the console")) ∧ q' = q
  | BlockedBy b =>
      r = Ok (mkResponse (blocked_status b) (BBlocked (blocked_detail t b (blocked_str b)) (blocked_code b) (pending_of b)))
      ∧ q' = q
  | WrongStatus => r = Ok (refused_response t from to) ∧ q' = q
  | Moved =>
      (∃ d, r = Ok (mkResponse 200 (BTenant d)) ∧ td_tenant d = moved_row to (q_reg q) t)
      ∧ q_reg q' = moved_reg to (q_reg q) t
      ∧ (∀ h, h ∈ tenant_hosts (q_reg q) (o_pk t) → inv_host (q_cache q') h = None)
      ∧ inv_schema (q_cache q') (o_schema t) = None
  end.

Lemma transition_outcome action from to stopper t q :
  action = AActivate ∨ action = ADeactivate → o_alias t = alias → o_schema t ≠ PUBLIC →
  get_tenant (q_reg q) (o_pk t) = Some t →
  ∃ r q', cruns (_transition django_migrations users blocked_str action (o_pk t) from to stopper) q r q'
    ∧ outcome (verdict (q_srv q) t from stopper) t from to q r q'.
Proof.
  intros Hact Ha Hp Hg. unfold verdict. case_bool_decide as Hm.
  { eexists _, q. split; [|done]. eapply cruns_bind; [by apply cruns_get_object|].
    eapply cruns_bind; [by apply cruns_guard|]. rewrite bool_decide_true by done. apply cruns_raise. }
  case_bool_decide as Hf; [subst from|].
  - destruct (if stopper then reactivation (q_srv q) t else Ok tt) as [u|b] eqn:Er.
    + destruct (cruns_move action to t q Hact Ha Hg) as (d & Ed & Hd). eexists _, _. split.
      * eapply cruns_bind; [by apply cruns_get_object|]. eapply cruns_bind; [by apply cruns_guard|].
        rewrite bool_decide_false by done. eapply cruns_bind with (a := Ok tt) (q1 := q); [|exact Hd].
        destruct stopper; simpl; [|apply cruns_ret]. rewrite bool_decide_true by done.
        destruct u. rewrite <- Er. by apply cruns_up, runs_check_reactivation.
      * split; [eauto|]. split; [done|]. split; [intros h Hh; by apply inv_forget_host|apply inv_forget_schema].
    + eexists _, q. split; [|done]. eapply cruns_bind; [by apply cruns_get_object|].
      eapply cruns_bind; [by apply cruns_guard|]. rewrite bool_decide_false by done.
      destruct stopper; [|done]. simpl. rewrite bool_decide_true by done.
      eapply cruns_bind; [by apply cruns_up, runs_check_reactivation|]. rewrite Er. apply cruns_ret.
  - eexists _, q. split; [|done]. eapply cruns_bind; [by apply cruns_get_object|].
    eapply cruns_bind; [by apply cruns_guard|]. rewrite bool_decide_false by done.
    rewrite (bool_decide_false (o_status t = from)), andb_false_r by done.
    eapply cruns_bind; [apply cruns_ret|]. cbn iota.
    apply get_tenant_pk in Hg as [_ Ht].
    eapply cruns_bind with (a := 0%nat); [by eapply transition_misses|apply cruns_ret].
Qed.

End quiet_requests.

(** Undisturbed, POST activate on a business tenant answers by
    the first of these that applies: 409 while it is in maintenance; 409 unless it
    is DEACTIVATED; 503 when the code is older than the database; 409 when its
    schema is missing, or behind, with the pending migrations listed; otherwise
    the tenant becomes ACTIVE with DEACTIVATED recorded as its previous status and
    a fresh stamp, the response carries that row, and no host or schema entry of
    it is served from the cache.  Every other answer leaves registry, shards and
    cache as they were. *)
Theorem activate_exact `{Invalidator} `{!HostInvalidator} `{Site} `{Upstream}
    django_migrations users blocked_str t s :
  Quiet (o_alias t) (cs_w s) → get_tenant (cs_reg s) (o_pk t) = Some t → o_schema t ≠ PUBLIC →
  ∃ r w', tenant_activate django_migrations users blocked_str (o_pk t) s = (r, mkCS w' (cs_hooks s) (cs_calls s))
    ∧ outcome blocked_str (verdict (w_srv (cs_w s)) t DEACTIVATED true) t DEACTIVATED ACTIVE
        (view_of (cs_w s)) r (view_of w').
Proof.
  intros Hq Hg Hp. unfold tenant_activate.
  destruct (transition_outcome (o_alias t) django_migrations users blocked_str AActivate DEACTIVATED ACTIVE true t
    (view_of (cs_w s))) as (r & q' & Hr & Ho); [by left|done|done|done|].
  destruct (Hr s Hq) as (w' & E & Hw'). exists r, w'. split; [done|].
  replace (view_of w') with q'; [done|]. destruct Hw', q'. simpl in *. unfold view_of. by subst.
Qed.

(** ** The aligned table *)

Lemma length_append s t : String.length (s +:+ t) = String.length s + String.length t.
Proof. induction s as [|a s IH]; [done|]. change (S (String.length (s +:+ t)) = S (String.length s + String.length t)). by rewrite IH. Qed.

Lemma length_replicate_chars n c : String.length (of_chars (replicate n c)) = n.
Proof. induction n as [|n IH]; [done|]. change (S (String.length (of_chars (replicate n c))) = S n). by rewrite IH. Qed.

(** The width of a line of cells as wide as [widths] says. *)
Definition line_width (widths : list nat) : nat := sum_list_with (λ w, w + 2) widths + (length widths - 1).

Lemma concat_length sep cells widths :
  String.length sep = 1 → Forall2 (λ c w, String.length c = w + 2) cells widths →
  String.length (String.concat sep cells) = line_width widths.
Proof.
  intros Hs Hc. induction Hc as [|c w cells widths Hw Hc IH]; [done|].
  destruct Hc as [|c' w' cells' widths' Hw' Hc'].
  - cbn. unfold line_width. simpl. lia.
  - change (String.concat sep (c :: c' :: cells')) with (c +:+ sep +:+ String.concat sep (c' :: cells')).
    rewrite !length_append, IH, Hw, Hs. unfold line_width. simpl. lia.
Qed.

Lemma hcell_length text w : String.length text ≤ w → String.length (hcell text w) = w + 2.
Proof.
  intros Hw. unfold hcell, spaces. rewrite !length_append, !length_replicate_chars. cbn [String.length].
  pose proof (Nat.Div0.div_le_upper_bound (w - String.length text) 2 (w - String.length text)). lia.
Qed.

Lemma dcell_length text w cont : String.length text ≤ w → String.length (dcell text w cont) = w + 2.
Proof.
  intros Hw. unfold dcell, ljust, spaces. rewrite !length_append, length_replicate_chars.
  destruct cont; cbn [String.length]; lia.
Qed.

(** [wide lines w]: every line of the cell fits. *)
Definition fits (w : nat) (lines : list string) : Prop := Forall (λ ln, String.length ln ≤ w) lines.

Lemma widen_cell w lines : let w' := foldl (λ w ln, Nat.max w (String.length ln)) w lines in w ≤ w' ∧ fits w' lines.
Proof.
  unfold fits. simpl. induction lines as [|ln lines IH] using rev_ind; [by split; [|constructor]|].
  destruct IH as [IH1 IH2]. rewrite foldl_app. simpl. split; [lia|]. apply Forall_app. split; [|by repeat constructor; lia].
  eapply Forall_impl; [exact IH2|]. simpl. lia.
Qed.

Lemma fits_mono w w' lines : w ≤ w' → fits w lines → fits w' lines.
Proof. intros Hw Hf. eapply Forall_impl; [exact Hf|]. simpl. lia. Qed.

Lemma widen_spec widths cells :
  length cells = length widths → Forall2 le widths (widen widths cells) ∧ Forall2 fits (widen widths cells) cells.
Proof.
  unfold widen. revert cells. induction widths as [|w widths IH]; intros [|lines cells] Hl; try done.
  destruct (IH cells) as [I1 I2]; [by injection Hl|]. destruct (widen_cell w lines) as [W1 W2].
  split; simpl; by constructor.
Qed.

Lemma le_trans_list l1 l2 l3 : Forall2 le l1 l2 → Forall2 le l2 l3 → Forall2 le l1 l3.
Proof. intros H1. revert l3. induction H1; intros l3 H3; inversion H3; subst; constructor; [lia|auto]. Qed.

Lemma fits_mono_list ws ws' cells : Forall2 le ws ws' → Forall2 fits ws cells → Forall2 fits ws' cells.
Proof.
  intros H1. revert cells. induction H1; intros cells H3; inversion H3; subst; constructor; [by eapply fits_mono|auto].
Qed.

Lemma widths_spec start grid :
  Forall (λ cells : list (list string), length cells = length start) grid →
  Forall2 le start (foldl widen start grid) ∧ Forall (Forall2 fits (foldl widen start grid)) grid.
Proof.
  intros Hg. induction grid as [|cells grid IH] using rev_ind.
  { split; [|constructor]. simpl. clear. induction start; by constructor. }
  apply Forall_app in Hg as [Hg Hc]. inversion Hc as [|?? Hlen _]; subst. destruct (IH Hg) as [I1 I2].
  rewrite foldl_app. simpl. destruct (widen_spec (foldl widen start grid) cells) as [W1 W2].
  { by rewrite Hlen, (Forall2_length _ _ _ I1). }
  split; [by eapply le_trans_list|]. apply Forall_app. split; [|by constructor].
  eapply Forall_impl; [exact I2|]. intros c Hc2. by eapply fits_mono_list.
Qed.

Lemma line_length widths cells sub :
  Forall2 fits widths cells → String.length (data_line widths cells sub) = line_width widths.
Proof.
  intros Hf. apply concat_length; [done|]. induction Hf as [|w lines widths cells Hw Hf IH]; [constructor|].
  simpl. constructor; [|done]. apply dcell_length. destruct (lines !! sub) as [ln|] eqn:E; simpl; [|lia].
  unfold fits in Hw. rewrite Forall_forall in Hw. apply Hw. by eapply list_elem_of_lookup_2.
Qed.

(** Header, separator and every line of every row of the rendered
    table have the same width, whatever the cells contain (NULLs, line breaks,
    cells wider than their header), so the columns line up as in psql. *)
Theorem psql_aligned headers rows :
  Forall (λ row : list (option string), length row = length headers) rows →
  Forall (λ line, String.length line = line_width (table_widths headers rows)) (table_lines headers rows).
Proof.
  intros Hr. unfold table_lines.
  destruct (widths_spec (map String.length headers) (map (map cell_lines) rows)) as [W1 W2].
  { apply Forall_fmap. eapply Forall_impl; [exact Hr|]. intros row Hl. simpl. by rewrite !length_map. }
  fold (table_widths headers rows) in W1, W2. set (widths := table_widths headers rows) in *.
  repeat apply Forall_cons_2.
  - apply concat_length; [done|]. clear - W1. revert W1. generalize widths. clear. induction headers as [|h hs IH]; intros ws Hw;
      inversion Hw as [|?? ws' ? Hle Hw']; subst; [constructor|]. simpl. constructor; [by apply hcell_length|auto].
  - apply concat_length; [done|]. clear. induction widths as [|w ws IH]; [constructor|]. simpl. constructor; [|done].
    apply length_replicate_chars.
  - apply Forall_forall. intros line Hin. apply list_elem_of_bind in Hin as (row & Hl & Hrow).
    unfold row_lines in Hl. apply list_elem_of_In, in_map_iff in Hl as (sub & <- & _). apply line_length.
    rewrite Forall_forall in W2. apply W2. by apply list_elem_of_fmap_2.
Qed.
