(* ===== verification/RegistryInvariant.v ===== *)
(** * Well-formedness of the registry

    What Shard.clean, Tenant.clean, the serializer and the forms together keep
    true of the rows on [default]: the default shard holds the public tenant and
    nothing else, schema names can be quoted, hostnames are canonical, but for
    those that operators let in.  Every request preserves it, provided the other clients do. *)
From S2P Require Import Prelude PyStr Validators Models PyExc Logs World Lease Schema Trace Migrator.
From S2P Require Import Requests ModelMethods Probes Console Admin LifecycleFacts ConsoleFacts.
Open Scope tenants_scope.

(** Keys are never reused: [D] tells the keys of the default shard, [P] the key
    of the public tenant.  [X] has the hosts that operators let in unchecked. *)
Record good (D P : Z → bool) (X : string → Prop) (g : Registry) : Prop := mkGood {
  good_shard k s : g_shards g !! k = Some s → sh_is_default s = D k ∧ (sh_is_default s = true ↔ sh_alias s = "default");
  good_tenant k t : g_tenants g !! k = Some t →
    (t_schema_name t = PUBLIC ↔ P k = true) ∧ D (t_shard_id t) = P k
    ∧ (P k = false → is_safe_schema_identifier (t_schema_name t) = true);
  good_domain h d : g_domains g !! h = Some d → canonical h ∨ X h;
  good_public : ∃ k t, g_tenants g !! k = Some t ∧ P k = true;
  good_default : ∃ k s, g_shards g !! k = Some s ∧ D k = true;
}.

Section invariant.
Context `{Invalidator} `{!HostInvalidator} `{Site} `{Upstream} `{DomainMixin} (D P : Z → bool) (X : string → Prop).
Context (one_default : ∀ a b, D a = true → D b = true → a = b).

Notation good := (good D P X).
Definition event_good (ev : Event) : Prop := ∀ v, good (v_reg v) → good (v_reg (ev_env ev v)).

Definition ok_world (w : World) : Prop := Forall event_good (w_script w) ∧ good (v_reg (w_srv w)).
Definition keeps_good (w w' : World) : Prop := ok_world w → ok_world w'.

Lemma blocked_good c ev : event_good ev → event_good (wait_unless c ev).
Proof. intros He v Hv. simpl. destruct (c v (ev_env ev v)); auto. Qed.

Lemma replay_good evs v : Forall event_good evs → good (v_reg v) → good (v_reg (replay evs v)).
Proof. intros He. revert v. induction He as [|ev evs Hev _ IH]; intros v Hv; [done|]. apply IH, Hev, Hv. Qed.

#[global] Instance keeps_good_rel : TxRel keeps_good.
Proof.
  split; [split|..].
  - split; [intros w Hw; exact Hw|]. intros w1 w2 w3 R1 R2 Hw. exact (R2 (R1 Hw)).
  - intros w w' E1 E2 _. unfold keeps_good, ok_world. by rewrite E1, E2.
  - intros a r w Hw. exact Hw.
  - intros w. unfold keeps_good, ok_world, next_event. destruct (w_script w) as [|ev s] eqn:E; simpl; [by rewrite E|].
    intros [Hs Hg]. inversion Hs; subst. auto.
  - intros key w [Hs Hg]. split; [|done]. apply Forall_fmap. eapply Forall_impl; [exact Hs|]. intros ev. apply blocked_good.
  - intros pk w [Hs Hg]. split; [|done]. apply Forall_fmap. eapply Forall_impl; [exact Hs|]. intros ev. apply blocked_good.
  - intros w w' Hr Hw. split; [by apply Forall_drop, Hw|apply (Hr Hw)].
  - intros w w' _ [Hs Hg]. split; [by apply Forall_drop|]. simpl. apply replay_good; [by apply Forall_take|done].
  - intros w w' Hr [Hs Hg]. split; [apply Hr; by split|]. simpl. apply replay_good; [by apply Forall_take|done].
Qed.

(** A statement that keeps the registry well-formed. *)
Lemma allows_good {A} (f : Srv → res exn A * Srv * list Action) :
  (∀ v, good (v_reg v) → good (v_reg (f v).1.2)) → allows keeps_good f.
Proof. intros Hf w [Hs Hg]. split; [done|]. apply (Hf _ Hg). Qed.

(** ** Programs with what they learn *)

Definition learns {A} (Q : A → Prop) (m : CM A) : Prop :=
  ∀ s, ok_world (cs_w s) → match m s with
                           | (Ok a, s') => ok_world (cs_w s') ∧ Q a
                           | (Err _, s') => ok_world (cs_w s')
                           end.

Lemma learns_steps {A} (m : CM A) : csteps keeps_good m → learns (λ _, True) m.
Proof. intros Hm s Hs. specialize (Hm s Hs). by destruct (m s) as [[a|e] s']. Qed.

Lemma steps_learns {A} Q (m : CM A) : learns Q m → csteps keeps_good m.
Proof. intros Hm s Hs. specialize (Hm s Hs). destruct (m s) as [[a|e] s']; [apply Hm|done]. Qed.

Lemma learns_ret {A} (Q : A → Prop) a : Q a → learns Q (cret a).
Proof. intros Hq s Hs. by split. Qed.

Lemma learns_raise {A} (Q : A → Prop) e : learns Q (craise e).
Proof. by intros s Hs. Qed.

Lemma learns_bind {A B} (Q : A → Prop) (Q' : B → Prop) (m : CM A) (k : A → CM B) :
  learns Q m → (∀ a, Q a → learns Q' (k a)) → learns Q' (cbind m k).
Proof.
  intros Hm Hk s Hs. unfold cbind. specialize (Hm s Hs). destruct (m s) as [[a|e] s']; [|done].
  destruct Hm as [Hs' Ha]. by apply Hk.
Qed.

Lemma learns_select {A} (Q : A → Prop) a (f : Srv → A) :
  (∀ v, good (v_reg v) → Q (f v)) → learns Q (up (select a f)).
Proof.
  intros Hf s Hs. unfold up. pose proof (steps_select keeps_good a f (cs_w s) Hs) as Hw.
  destruct (select a f (cs_w s)) as [[x|e] w'] eqn:E; [|done]. split; [done|].
  apply select_state in E as ->. apply Hf, Hw.
Qed.

Lemma learns_read {A} (Q : A → Prop) a (f : Srv → res exn A) :
  (∀ v x, good (v_reg v) → f v = Ok x → Q x) → learns Q (up (query a (λ v, (f v, v, [])))).
Proof.
  intros Hf s Hs. unfold up.
  pose proof (steps_reading keeps_good a (λ v, (f v, v, [])) (λ v, conj eq_refl eq_refl) (cs_w s) Hs) as Hw.
  destruct (query a _ (cs_w s)) as [[x|e] w'] eqn:E; [|done]. split; [done|].
  revert E. unfold query, bind. destruct (ensure_connection a (cs_w s)) as [[u|e] w1]; [|done].
  unfold round_trip, bind. destruct (next_event w1) as [[ev|e] w2]; [|done].
  destruct (ev_fault ev); [by destruct (ev_applied ev)|]. simpl.
  destruct (f (w_srv w2)) as [y|e] eqn:Ef; [|done]. simpl. intros [= -> <-]. apply (Hf (w_srv w2)); [apply Hw|done].
Qed.

Lemma learns_atomic {A} Q (m : CM A) : learns Q m → csteps keeps_good (atomic m).
Proof. intros Hm. apply csteps_atomic; [exact _|]. by eapply steps_learns. Qed.

(** ** Statements *)

Lemma good_set_tenant g k t :
  good g → (t_schema_name t = PUBLIC ↔ P k = true) → D (t_shard_id t) = P k →
  (P k = false → is_safe_schema_identifier (t_schema_name t) = true) →
  good (set_tenants (<[k := t]>) g).
Proof.
  intros Hg G1 G2 G3. split; simpl; [apply Hg| |apply Hg| |apply Hg].
  - intros k' t' Hk. apply lookup_insert_Some in Hk as [[<- <-]|[_ Hk]]; [done|]. by apply Hg.
  - destruct (good_public _ _ _ _ Hg) as (p & x & Hx & Hp). exists p.
    destruct (decide (p = k)) as [->|Hne]; [exists t; by rewrite lookup_insert_eq|exists x; by rewrite lookup_insert_ne].
Qed.

Lemma good_set_shard g k s :
  good g → sh_is_default s = D k → (sh_is_default s = true ↔ sh_alias s = "default") →
  good (set_shards (<[k := s]>) g).
Proof.
  intros Hg G1 G2. split; simpl; [|apply Hg..|].
  - intros k' s' Hk. apply lookup_insert_Some in Hk as [[<- <-]|[_ Hk]]; [done|by apply Hg].
  - destruct (good_default _ _ _ _ Hg) as (q & x & Hx & Hq). exists q.
    destruct (decide (q = k)) as [->|Hne]; [exists s; by rewrite lookup_insert_eq|exists x; by rewrite lookup_insert_ne].
Qed.

(** A row with the same schema and shard is as good as the old one. *)
Lemma good_same_place g k t t' :
  good g → g_tenants g !! k = Some t → t_schema_name t' = t_schema_name t → t_shard_id t' = t_shard_id t →
  good (set_tenants (<[k := t']>) g).
Proof. intros Hg Hk E1 E2. apply good_set_tenant; [done|rewrite ?E1, ?E2; by apply (good_tenant _ _ _ _ Hg k t)..]. Qed.

Lemma good_sub g g' :
  g_shards g' ⊆ g_shards g → g_tenants g' ⊆ g_tenants g → g_domains g' ⊆ g_domains g →
  (∃ k t, g_tenants g' !! k = Some t ∧ P k = true) → (∃ k s, g_shards g' !! k = Some s ∧ D k = true) → good g → good g'.
Proof.
  intros S1 S2 S3 Hpub Hdef Hg. split; [intros k x Hk..|done|done].
  - apply (good_shard _ _ _ _ Hg k x). by eapply lookup_weaken.
  - apply (good_tenant _ _ _ _ Hg k x). by eapply lookup_weaken.
  - apply (good_domain _ _ _ _ Hg k x). by eapply lookup_weaken.
Qed.

Lemma transition_good pk from to : allows keeps_good (transition_stmt pk from to).
Proof.
  apply allows_good. intros v Hv. unfold transition_stmt. destruct (g_tenants (v_reg v) !! pk) as [t|] eqn:E; [|done].
  case_bool_decide; [|done]. by eapply good_same_place.
Qed.

Lemma admin_cas_good pk old new : allows keeps_good (admin_cas_stmt pk old new).
Proof.
  apply allows_good. intros v Hv. unfold admin_cas_stmt. destruct (g_tenants (v_reg v) !! pk) as [t|] eqn:E; [|done].
  case_bool_decide; [|done]. by eapply good_same_place.
Qed.

(** What may be saved: a new business row on a business shard, or an old row
    without its schema name and, if it moves, to a shard of its kind. *)
Definition placed (seq : Z) (o : TenantInst) (fs : option (list TField)) : Prop :=
  match ti_pk o with
  | None => P seq = false ∧ D (t_shard_id (ti_row o)) = false
            ∧ is_safe_schema_identifier (t_schema_name (ti_row o)) = true
  | Some pk => ∃ l, fs = Some l ∧ F_schema_name ∉ l ∧ (F_shard ∈ l → D (t_shard_id (ti_row o)) = P pk)
  end.

(** The public name is taken. *)
Lemma public_clashes g k t : good g → t_schema_name t = PUBLIC → (∀ p, P p = true → p ≠ k) → tenant_clash g k t ≠ false.
Proof.
  intros Hg Hpub Hk. destruct (good_public _ _ _ _ Hg) as (p & x & Hx & Hp). unfold tenant_clash.
  rewrite orb_false_iff, existsb_false. intros [Hno _]. specialize (Hno (p, x)).
  rewrite elem_of_map_to_list in Hno. specialize (Hno Hx). simpl in Hno.
  rewrite (proj2 (proj1 (good_tenant _ _ _ _ Hg p x Hx)) Hp), Hpub, String.eqb_refl in Hno.
  rewrite (proj2 (Z.eqb_neq p k) (Hk p Hp)) in Hno. done.
Qed.

Lemma row_save_good seq fs o : placed seq o fs → steps keeps_good (tenant_row_save seq fs o).
Proof.
  unfold placed, tenant_row_save. destruct (ti_pk o) as [pk|].
  - intros (l & -> & Hn & Hs). steps_solve. apply steps_query; [exact _|]. apply allows_good. intros v Hv.
    unfold tenant_update_stmt. destruct (g_tenants (v_reg v) !! pk) as [old|] eqn:E; [|done].
    destruct (tenant_clash _ _ _); [done|]. cbn [fst snd]. destruct (good_tenant _ _ _ _ Hv pk old E) as (G1 & G2 & G3).
    apply good_set_tenant; [done|..]; simpl; unfold pick; rewrite ?(proj2 (mem_false _ _) Hn); [done| |done].
    destruct (mem F_shard l) eqn:Em; [|done]. by apply Hs, mem_spec.
  - intros (Hseq & HD & Hsafe). apply steps_query; [exact _|]. apply allows_good. intros v Hv.
    unfold tenant_insert_stmt. destruct (_ || _) eqn:Ec; [done|]. cbn [fst snd]. bool_props.
    apply good_set_tenant; try done; [|congruence]. rewrite Hseq. split; [|done]. intros Hpub. exfalso.
    apply (public_clashes (v_reg v) seq (ti_row o)); try done. intros p Hp ->. congruence.
Qed.

Lemma stamp_placed seq now uf o o1 fs : stamp now uf o = (o1, fs) → placed seq o uf → placed seq o1 fs.
Proof.
  unfold stamp, placed. destruct (_ || _); intros [= <- <-]; [|done]. simpl. destruct (ti_pk o); [|done].
  intros (l & -> & Hn & Hs). simpl. eexists. split; [done|]. set_solver.
Qed.

Lemma tenant_save_good seq shard uf o : placed seq o uf → csteps keeps_good (tenant_save seq shard uf o).
Proof.
  intros Hp. unfold tenant_save, invalidate_tenant. csteps_solve.
  all: match goal with E : stamp _ _ _ = _ |- _ => apply (stamp_placed seq) in E; [|done] end; by apply row_save_good.
Qed.

(** [Domain.save] stores the canonical form of what it is given. *)
Lemma domain_save_good seq d :
  (let h := normalize_host (di_domain d) in canonical h ∨ X h) → csteps keeps_good (domain_save seq d).
Proof.
  intros Hc. unfold domain_save, invalidate_domain_saved. csteps_solve. apply steps_query; [exact _|]. apply allows_good.
  intros v Hv. set (host := normalize_host (di_domain d)) in *. destruct (dm_save _ _ _) as [[row g]|e] eqn:E; [|done].
  cbn [fst snd]. destruct (dm_save_row _ _ _ _ _ E) as (_ & _ & _ & Eg & _). simpl in *. rewrite Eg.
  split; simpl; [apply Hv|apply Hv| |apply Hv..].
  intros h x Hx. destruct (decide (h = host)) as [->|Hne]; [done|].
  destruct (dm_save_others _ _ _ _ _ h x E Hne Hx) as (y & Hy & _). by apply (good_domain _ _ _ _ Hv h y).
Qed.

Lemma domain_saved_as_is seq d : canonical (di_domain d) → csteps keeps_good (domain_save seq d).
Proof. intros Hc. apply domain_save_good. simpl. rewrite Hc. by left. Qed.

Lemma domain_signals_good hosts : csteps keeps_good (domain_signals hosts).
Proof. induction hosts; simpl; unfold invalidate_domain_deleted; csteps_solve. Qed.

Lemma tenant_delete_good t : (o_schema t ≠ PUBLIC → P (o_pk t) = false) → csteps keeps_good (tenant_delete t).
Proof.
  intros Hp. unfold tenant_delete, invalidate_tenant_deleted. csteps_solve.
  - apply steps_query; [exact _|]. apply allows_good. intros v Hv. unfold tenant_delete_stmt. cbn [fst snd].
    apply (good_sub (v_reg v)); simpl; [done|apply delete_subseteq|apply map_filter_subseteq| |apply Hv|done].
    destruct (good_public _ _ _ _ Hv) as (p & x & Hx & Hpp). exists p, x. rewrite lookup_delete_ne; [done|].
    bool_props. intros <-. rewrite Hp in Hpp; done.
  - apply domain_signals_good.
Qed.

(** The public tenant holds its shard. *)
Lemma default_occupied g k : good g → D k = true → tenants_on g k ≠ [].
Proof.
  intros Hg HD Hno. destruct (good_public _ _ _ _ Hg) as (p & t & Ht & Hp).
  assert (t_shard_id t = k) as Hk.
  { apply one_default; [|done]. rewrite (proj1 (proj2 (good_tenant _ _ _ _ Hg p t Ht))). done. }
  apply (not_elem_of_nil (p, t)). rewrite <- Hno. apply elem_of_map_to_list, map_lookup_filter_Some_2; done.
Qed.

Lemma shard_delete_good pk s : csteps keeps_good (shard_delete pk s).
Proof.
  unfold shard_delete. csteps_solve. apply steps_query; [exact _|]. apply allows_good. intros v Hv. unfold shard_delete_stmt.
  case_bool_decide as Hno; [|done]. cbn [fst snd].
  apply (good_sub (v_reg v)); simpl; [apply delete_subseteq|done|done|apply Hv| |done].
  destruct (good_default _ _ _ _ Hv) as (k & x & Hk & HD). exists k, x. rewrite lookup_delete_ne; [done|]. intros ->.
  by apply (default_occupied (v_reg v) k).
Qed.

Lemma shard_active_good pk s n b : csteps keeps_good (shard_set_active pk s n b).
Proof.
  unfold shard_set_active. csteps_solve. apply steps_query; [exact _|]. apply allows_good. intros v Hv. unfold shard_active_stmt.
  destruct (g_shards (v_reg v) !! pk) as [sh|] eqn:E; [|done]. cbn [fst snd].
  apply good_set_shard; [done|by apply (good_shard _ _ _ _ Hv pk sh)..].
Qed.

(** ** What the reads tell *)

Definition of_kind (pk : Z) (t : TenantObj) : Prop := o_pk t = pk ∧ (o_schema t = PUBLIC ↔ P pk = true).

Lemma got_kind g pk t : good g → get_tenant g pk = Some t → of_kind pk t.
Proof.
  intros Hg (x & Hx & E)%bind_Some. apply bind_Some in E as (y & _ & E). injection E as <-.
  split; [done|]. apply (good_tenant _ _ _ _ Hg pk x Hx).
Qed.

Lemma learns_get_object pk : learns (of_kind pk) (get_object pk).
Proof.
  apply learns_read. intros v t Hv. destruct (get_tenant (v_reg v) pk) as [t'|] eqn:E; [|done]. intros [= <-].
  by apply (got_kind (v_reg v)).
Qed.

Lemma learns_shard_field k :
  learns (λ o, ∀ sh, o = Some sh → D k = false) (up (select "default" (λ v, shard_field (v_reg v) k))).
Proof.
  apply learns_select. intros v Hv sh E. unfold shard_field in E. apply bind_Some in E as (x & Hx & E).
  destruct (sh_is_active x && negb (sh_is_default x)) eqn:Ea; [|done]. bool_props.
  by rewrite <- (proj1 (good_shard _ _ _ _ Hv k x Hx)).
Qed.

Lemma tenant_domain_canonical domains rules v h : validate_tenant_domain PUBLIC domains rules v = Ok h → canonical h.
Proof.
  unfold validate_tenant_domain. intros (x & Hx & E)%res_bind_ok.
  destruct (mem x _); [done|]. destruct (matching_rule rules x); [done|]. simplify_eq. by eapply validate_hostname_canonical.
Qed.

Lemma schema_name_safe v n : validate_schema_name v = Ok n → is_safe_schema_identifier n = true.
Proof. intros E. apply schema_ident_safe. by eapply validate_schema_name_ok. Qed.

Lemma learns_domain rules i d :
  learns (λ r, ∀ h, r = Ok h → canonical h) (TenantSerializer_validate_domain rules i d).
Proof.
  unfold TenantSerializer_validate_domain. eapply learns_bind; [apply learns_steps; csteps_solve|]. intros l _.
  destruct (validate_tenant_domain PUBLIC l rules d) as [h|e] eqn:E; [|by apply learns_ret].
  eapply learns_bind; [apply learns_steps; csteps_solve|]. intros [] _; apply learns_ret; [done|].
  intros h' [= <-]. by eapply tenant_domain_canonical.
Qed.

Lemma learns_schema_name rules n :
  learns (λ r, ∀ x, r = Ok x → is_safe_schema_identifier x = true) (TenantSerializer_validate_schema_name rules n).
Proof.
  unfold TenantSerializer_validate_schema_name.
  destruct (validate_schema_name n) as [x|e] eqn:E; [|by apply learns_ret].
  destruct (String.eqb x PUBLIC); [by apply learns_ret|].
  destruct (validate_tenant_schema_name rules x); [|by apply learns_ret].
  eapply learns_bind; [apply learns_steps; csteps_solve|]. intros [] _; apply learns_ret; [done|].
  intros x' [= <-]. by eapply schema_name_safe.
Qed.

(** ** Reading endpoints *)

Lemma steps_shard_loop {B} (probe : string → list string → M (list B)) d :
  (∀ a l, steps keeps_good (probe a l)) → steps keeps_good (shard_loop probe d).
Proof. intros Hp. induction d as [|[a ss] d IH]; simpl; steps_solve; auto. Qed.

Lemma render_good dm us action t : csteps keeps_good (render dm us action t).
Proof.
  unfold render, get_serializer_context. destruct action; cbv zeta; csteps_solve.
  all: apply steps_shard_loop; intros; cbv zeta; steps_solve.
Qed.

Lemma learns_get_shard pk : csteps keeps_good (get_shard pk).
Proof. unfold get_shard. csteps_solve. Qed.

#[local] Hint Resolve render_good learns_get_shard shard_active_good shard_delete_good : csteps.

(** ** Requests *)

Lemma create_good rules dm us seq dseq input :
  P seq = false → csteps keeps_good (tenant_create rules dm us seq dseq input).
Proof.
  intros Hseq. eapply steps_learns with (Q := λ _, True). unfold tenant_create.
  eapply learns_bind; [apply learns_schema_name|]. intros schema Hs.
  eapply learns_bind; [apply learns_shard_field|]. intros shard Hsh.
  eapply learns_bind; [apply learns_domain|]. intros domain Hd. apply learns_steps.
  destruct schema as [x|?], shard as [sh|], domain as [h|?]; csteps_solve.
  - unfold TenantSerializer_validate. csteps_solve.
  - unfold TenantSerializer_create. csteps_solve.
    + apply tenant_save_good. split_and!; simpl; eauto.
    + apply domain_saved_as_is. simpl. eauto.
Qed.

Lemma assigned_keeps_place input : F_schema_name ∉ assigned input ∧ F_shard ∉ assigned input.
Proof. unfold assigned. destruct (up_company_name input), (up_description input); set_solver. Qed.

Lemma serializer_update_good dseq t input :
  (∀ h, up_domain input = Some h → canonical h) → csteps keeps_good (TenantSerializer_update dseq t input).
Proof.
  intros Hd. unfold TenantSerializer_update. csteps_solve.
  1: { apply tenant_save_good. eexists. split; [done|].
       destruct (assigned_keeps_place input) as [Q1 Q2].
       match goal with E : assigned _ = _ |- _ => rewrite E in Q1, Q2 end. by split. }
  all: apply domain_saved_as_is; simpl; eauto.
Qed.

Lemma update_good rules dm us dseq pk input : csteps keeps_good (tenant_update rules dm us dseq pk input).
Proof.
  eapply steps_learns with (Q := λ _, True). unfold tenant_update.
  eapply learns_bind; [apply learns_get_object|]. intros t _.
  eapply learns_bind with (Q := λ r, ∀ d h, r = Ok d → d = Some h → canonical h).
  - destruct (up_domain input) as [d|]; [|apply learns_ret; congruence].
    eapply learns_bind; [apply learns_domain|]. intros [h|e] Hh; apply learns_ret; intros; simplify_eq; eauto.
  - intros [d|e] Hd; apply learns_steps; unfold perform_update, _guard_public; csteps_solve.
    apply serializer_update_good. simpl. eauto.
Qed.

Lemma transition_req_good dm us bs action pk from to stopper :
  csteps keeps_good (_transition dm us bs action pk from to stopper).
Proof.
  unfold _transition, get_object, _guard_public. csteps_solve. apply steps_query; [exact _|apply transition_good].
Qed.

Lemma destroy_good drop pk : csteps keeps_good (tenant_destroy drop pk).
Proof.
  eapply steps_learns with (Q := λ _, True). unfold tenant_destroy.
  eapply learns_bind; [apply learns_get_object|]. intros t [Hpk Hk]. apply learns_steps.
  unfold perform_destroy, _guard_public. csteps_solve.
  apply tenant_delete_good. intros Hn. rewrite Hpk. apply not_true_is_false. by intros ?%Hk.
Qed.

(** A row as it is in a registry of this kind. *)
Definition kinded (t : TenantObj) : Prop := o_schema t ≠ PUBLIC → P (o_pk t) = false.

Lemma delete_tenants_good ts : Forall kinded ts → csteps keeps_good (delete_tenants ts).
Proof. induction 1; simpl; csteps_solve; by apply tenant_delete_good. Qed.

(** ** The domain form *)

Lemma learns_owner pk : learns (λ o, ∀ t, o = Some t → of_kind pk t) (up (select "default" (λ v, get_tenant (v_reg v) pk))).
Proof. apply learns_select. intros v Hv t. by apply got_kind. Qed.

(** A business host is validated; the hosts of the public tenant are exempt. *)
Lemma clean_host domains rules s d d' :
  domain_clean domains rules (Some s) d = Ok d' →
  di_tenant d' = di_tenant d ∧ if decide (s = PUBLIC) then d' = d else canonical (di_domain d').
Proof.
  unfold domain_clean. destruct (decide (s = PUBLIC)) as [->|Hn].
  - rewrite bool_decide_eq_true_2 by done. intros [= <-]. done.
  - rewrite bool_decide_eq_false_2 by congruence. intros (h & Hh & [= <-])%res_bind_ok. split; [done|].
    unfold invalid in Hh. case_match; simplify_eq. by eapply tenant_domain_canonical.
Qed.

Definition host_fits (p : DomainPost) : Prop :=
  P (dp_tenant p) = true → let h := normalize_host (py_strip (dp_domain p)) in canonical h ∨ X h.

Lemma domain_form_good rules refused seq pk p : host_fits p → csteps keeps_good (domain_form_save rules refused seq pk p).
Proof.
  intros Hx. apply (learns_atomic (λ _, True)).
  eapply learns_bind; [apply learns_steps; csteps_solve|]. intros [d|] _; [|by apply learns_ret].
  eapply learns_bind; [apply learns_owner|]. intros [t|] Ht; [|by apply learns_ret].
  destruct (Ht t eq_refl) as [_ Hk]. apply learns_steps. csteps_solve.
  match goal with E : domain_clean _ _ _ _ = Ok _ |- _ => apply clean_host in E as [_ E] end.
  destruct (decide (o_schema t = PUBLIC)) as [Hp|_]; [|by apply domain_saved_as_is].
  subst. apply domain_save_good, Hx, Hk, Hp.
Qed.

Lemma delete_domains_good pks : csteps keeps_good (delete_domains pks).
Proof.
  unfold delete_domains. csteps_solve; [|apply domain_signals_good]. apply steps_query; [exact _|]. apply allows_good.
  intros v Hv. cbn [fst snd]. apply (good_sub (v_reg v)); simpl; [done|done|apply map_filter_subseteq|apply Hv..].
Qed.

Lemma delete_shards_good ss : csteps keeps_good (delete_shards ss).
Proof. induction ss as [|[k s] ss IH]; simpl; csteps_solve. Qed.

(** ** The tenant forms *)

Lemma changed_keeps_schema t p : F_schema_name ∉ changed_fields t p.
Proof.
  unfold changed_fields. rewrite !elem_of_app.
  destruct (String.eqb _ _), (String.eqb _ _), (t_shard_id t =? tp_shard p)%Z, (bool_decide _); set_solver.
Qed.

Lemma save_status_good fmt t old new : csteps keeps_good (save_status fmt t old new).
Proof.
  unfold save_status, lock_out, write_status. csteps_solve.
  - apply steps_lock_lease_any; [exact _|]. intros f. apply allows_good. intros v Hv. by split; apply Hv.
  - apply steps_query; [exact _|apply admin_cas_good].
Qed.

Lemma save_model_good fmt t old new sh p :
  D (tp_shard p) = P (o_pk t) → csteps keeps_good (save_model fmt t old new sh p).
Proof.
  intros Hd. unfold save_model. csteps_solve; [apply save_status_good|..].
  all: apply tenant_save_good; eexists; (split; [done|]).
  all: match goal with E : changed_fields _ _ = _ |- _ => rewrite <- E end.
  all: split; [apply changed_keeps_schema|by intros _].
Qed.

Lemma learns_form_valid rules zone_ok fmt bs t old p pk :
  of_kind pk t →
  learns (λ r, ∀ x, r = Ok x → D (tp_shard p) = P pk) (form_valid rules zone_ok fmt bs t old p).
Proof.
  intros [_ Hk]. unfold form_valid.
  eapply learns_bind with (Q := λ o, ∀ sh, o = Some sh → D (tp_shard p) = P pk).
  - apply learns_select. intros v Hv sh E. unfold shard_choice in E. apply bind_Some in E as (x & Hx & E).
    destruct (good_shard _ _ _ _ Hv _ x Hx) as [<- _].
    destruct (String.eqb (o_schema t) PUBLIC) eqn:Ep; bool_props.
    + rewrite (proj1 Hk Ep). by destruct (sh_is_default x).
    + destruct (P pk); [by destruct Ep; apply Hk|]. by destruct (sh_is_default x).
  - intros shard Hs. destruct (status_field old (tp_status p)); [|by apply learns_ret].
    destruct shard as [sh|]; [|by apply learns_ret].
    eapply learns_bind; [apply learns_steps, csteps_up, steps_form_clean, _|].
    intros [u|e] _; [|by apply learns_ret]. cbv zeta.
    repeat case_match; apply learns_ret; intros; simplify_eq; eauto.
Qed.

Lemma changeform_good rules zone_ok fmt bs pk p : csteps keeps_good (changeform_view rules zone_ok fmt bs pk p).
Proof.
  unfold changeform_view. apply csteps_catch; [exact _| |intros; apply csteps_ret, _].
  apply (learns_atomic (λ _, True)).
  eapply learns_bind with (Q := λ o, ∀ t, o = Some t → of_kind pk t).
  - apply learns_select. intros v Hv t. by apply got_kind.
  - intros [t|] Ht; [|by apply learns_ret]. specialize (Ht t eq_refl). cbv zeta.
    eapply learns_bind; [by apply learns_form_valid|]. intros [[new sh]|e] Hd; [|by apply learns_ret].
    apply learns_steps. csteps_solve. apply save_model_good. destruct Ht as [-> _]. by eapply Hd.
Qed.

Lemma tenant_clean_new rules sh o o' :
  tenant_clean rules sh o = Ok o' → ti_pk o = None → sh_is_default sh = false →
  ti_pk o' = None ∧ t_shard_id (ti_row o') = t_shard_id (ti_row o)
  ∧ is_safe_schema_identifier (t_schema_name (ti_row o')) = true.
Proof.
  unfold tenant_clean. intros E Hn Hd. rewrite Hd, Hn in E. simpl in E.
  destruct (String.eqb _ PUBLIC); [done|]. destruct (negb _); [done|].
  apply res_bind_ok in E as (n & En & E). apply res_bind_ok in E as (u & _ & E). simplify_eq/=.
  split; [done|]. split; [done|]. unfold invalid in En. case_match; simplify_eq. by eapply schema_name_safe.
Qed.

Lemma add_view_good rules zone_ok seq schema p :
  P seq = false → csteps keeps_good (add_view rules zone_ok seq schema p).
Proof.
  intros Hseq. apply (learns_atomic (λ _, True)).
  eapply learns_bind; [apply learns_steps; csteps_solve|]. intros now _.
  eapply learns_bind with (Q := λ o, ∀ sh, o = Some sh → sh_is_default sh = false ∧ D (tp_shard p) = false).
  - apply learns_select. intros v Hv sh E. apply bind_Some in E as (x & Hx & E).
    destruct (negb (sh_is_default x) && sh_is_active x) eqn:Ea; simplify_eq. bool_props. split; [done|].
    by rewrite <- (proj1 (good_shard _ _ _ _ Hv _ _ Hx)).
  - intros [sh|] Hs; [|by apply learns_ret]. destruct (Hs sh eq_refl) as [Hdef HD]. apply learns_steps. cbv zeta. csteps_solve.
    match goal with E : tenant_clean _ _ _ = Ok _ |- _ => apply tenant_clean_new in E as (Q1 & Q2 & Q3); [|done..] end.
    apply tenant_save_good. unfold placed. rewrite Q1, Q2. by split_and!.
Qed.

(** ** The shard form *)

Lemma shard_clean_spec databases g pk s :
  shard_clean databases g (mkSI pk s) = Ok tt →
  (sh_is_default s = true ↔ sh_alias s = "default")
  ∧ (∀ k old, pk = Some k → g_shards g !! k = Some old → sh_alias old = sh_alias s).
Proof.
  unfold shard_clean. simpl. intros E. split.
  - destruct (sh_is_default s), (String.eqb_spec (sh_alias s) "default"); simpl in E; [done| |..|done];
      by repeat case_match.
  - intros k old -> Ho. simpl in E. rewrite Ho in E. by destruct (String.eqb_spec (sh_alias old) (sh_alias s)).
Qed.

Lemma shard_form_good databases seq pk s :
  (pk = None → D seq = sh_is_default s) → csteps keeps_good (shard_form_save databases seq pk s).
Proof.
  intros Hseq. eapply steps_learns with (Q := λ _, True). unfold shard_form_save.
  eapply learns_bind with (Q := good); [by apply learns_select|]. intros g Hg. apply learns_steps. csteps_solve.
  match goal with E : shard_clean _ _ _ = Ok ?u |- _ => destruct u; apply shard_clean_spec in E as [Hal Hold] end.
  apply steps_query; [exact _|]. apply allows_good. intros v Hv. case_match; [done|]. cbn [fst snd].
  apply good_set_shard; [done| |done]. destruct pk as [k|]; [|by symmetry; apply Hseq].
  simpl in *. destruct (g_shards g !! k) as [old|] eqn:Eo; [|done].
  destruct (good_shard _ _ _ _ Hg _ _ Eo) as [<- Hd]. rewrite (Hold k old eq_refl Eo) in Hd.
  destruct (sh_is_default s), (sh_is_default old); naive_solver.
Qed.

(** The keys a request brings along: those the sequences hand out, and the rows
    the changelist loaded. *)
Definition keys_fit (r : Request_) : Prop :=
  match r with
  | Create seq _ _ | AdminAdd seq _ _ => P seq = false
  | AdminDelete ts => Forall kinded ts
  | AdminSaveShard seq None s => D seq = sh_is_default s
  | _ => True
  end.

Lemma serve_good rules zone_ok dm us bs fmt vp cu ns dbn databases r :
  keys_fit r → csteps keeps_good (serve rules zone_ok dm us bs fmt vp cu ns dbn databases r).
Proof.
  intros Hk. destruct r; unfold serve, ignore; (apply csteps_bind; [exact _| |intros; apply csteps_ret, _]).
  1, 2: apply transition_req_good.
  - unfold tenant_provision, get_object, _guard_public. csteps_solve.
  - apply destroy_good.
  - by apply create_good.
  - apply update_good.
  - unfold create_admin, get_object, _guard_public. cbv zeta. csteps_solve. apply steps_query; [exact _|].
    apply allows_good. intros v Hv. by destruct (cu _ _ _ _).
  - unfold shard_activate, _guard_default. csteps_solve.
  - unfold shard_deactivate, _guard_default. csteps_solve.
  - unfold shard_destroy, _guard_default. csteps_solve.
  - unfold shard_schemas. csteps_solve.
  - apply changeform_good.
  - by apply add_view_good.
  - by apply delete_tenants_good.
  - apply delete_shards_good.
  - apply shard_form_good. by intros ->.
Qed.

End invariant.
