(* ===== verification/ModelFacts.v ===== *)
(** * Deferred invalidation

    The hooks that [Domain.save], [Tenant.save] and the deletions leave on the
    commit of their transaction: whether they run at once or after the commit,
    the hosts they concern are not served from the cache afterwards.  The resolve
    cache discharges the interface the requests are written against. *)
From S2P Require Import Prelude PyStr Validators Models PyExc Logs World Lease Schema Trace Migrator ResolveCache ResolveCacheFacts Requests.
From S2P Require Import ModelMethods LifecycleFacts.
Open Scope tenants_scope.

(** ** The resolve cache as a host invalidator *)

Section instance_.
Context `{Backend} (cfg : Cfg) (Hold : (0 ≤ HOLD_SECONDS cfg)%Z).

(** A key after an invalidation is gone, held, or as before. *)
Lemma invalidate_key keys k c :
  c_get (_invalidate cfg keys c) k = None ∨ c_get (_invalidate cfg keys c) k = Some (CStr TOMBSTONE)
  ∨ c_get (_invalidate cfg keys c) k = c_get c k.
Proof.
  destruct (decide (k ∈ keys)) as [Hin|Hout].
  { destruct (invalidate_gone cfg keys k c Hold Hin); auto. }
  unfold _invalidate, truthy. destruct (c_alive c) eqn:Ha.
  2: { left. apply c_get_down. case_match; [rewrite alive_set_many|rewrite alive_delete_many]; done. }
  destruct (HOLD_SECONDS cfg =? 0)%Z eqn:E; simpl.
  - rewrite get_delete_many, decide_False by done. auto.
  - bool_props. rewrite get_set_many by (try done; apply Z.ltb_lt; lia).
    rewrite last_value_const, decide_False by done. auto.
Qed.

Lemma invalidate_mono keys c x :
  @inv_at (cache_invalidator cfg Hold) (_invalidate cfg keys c) x = None
  ∨ @inv_at (cache_invalidator cfg Hold) (_invalidate cfg keys c) x = @inv_at (cache_invalidator cfg Hold) c x.
Proof.
  destruct x as [h|s]; cbn [inv_at inv_host inv_schema cache_invalidator]; unfold get_snapshot, get_schema_snapshot.
  - destruct (invalidate_key keys (_snap_key h) c) as [-> | [-> | ->]]; auto.
  - destruct (invalidate_key keys (_schema_snap_key s) c) as [-> | [-> | ->]]; auto.
Qed.

Lemma derive_error vs e : derive_schemas vs = Err e → eo_name (x_obj e) ∈ ["KeyError"; "TypeError"].
Proof.
  assert (∀ v k e, getitem v k = Err e → eo_name (x_obj e) ∈ ["KeyError"; "TypeError"]) as Hg.
  { intros v k e' E. unfold getitem in E. repeat case_match; simplify_eq; set_solver. }
  induction vs as [|v vs IH]; simpl; [done|].
  destruct (schema_of_value v) as [a|e'] eqn:Ev; simpl.
  - destruct (derive_schemas vs) as [b|e']; simpl; [done|]. intros [= <-]. by apply IH.
  - intros [= <-]. unfold schema_of_value in Ev. destruct (_classify _); try done.
    destruct (getitem v "tenant") as [t|e1] eqn:E1; simpl in Ev; [|simplify_eq; by eapply Hg].
    destruct (getitem t "schema_name") as [n|e1] eqn:E2; simpl in Ev; [|simplify_eq; by eapply Hg].
    unfold as_str in Ev. destruct n; simplify_eq/=; set_solver.
Qed.

(** What [forget_host] defers, for a host with a name. *)
Lemma forget_host_defers h c0 n f :
  forget_host cfg h false c0 = Ok (n, f) →
  ∃ keys, (∀ c, f c = c) ∧ h = "" ∨ f = _invalidate cfg keys ∧ (h ≠ "" → _snap_key h ∈ keys).
Proof.
  unfold forget_host, forget_hosts, _ensure_alive. simpl. intros (derived & _ & E)%res_bind_ok.
  set (keys := (_snap_key <$> _) ++ _) in E. injection E as E.
  exists (filter (λ k, k ≠ "") keys). destruct (decide (h = "")) as [->|Hh].
  - unfold _tombstone_keys in E. destruct (filter _ keys); simplify_eq; [by left|right]. done.
  - right. assert (_snap_key h ∈ filter (λ k, k ≠ "") keys) as Hk.
    { apply list_elem_of_filter. split; [done|]. subst keys. apply elem_of_app. left.
      rewrite filter_cons_True by done. by left. }
    unfold _tombstone_keys in E. destruct (filter _ keys) as [|k ks]; [by apply not_elem_of_nil in Hk|].
    by simplify_eq.
Qed.

#[refine] Instance cache_host_invalidator : @HostInvalidator (cache_invalidator cfg Hold) := {
  inv_forget_one h c0 := nf <-? forget_host cfg h false c0 ;; Ok nf.2;
}.
Proof.
  - intros h c0 e E. unfold forget_host, forget_hosts, _ensure_alive in E. simpl in E.
    destruct (derive_schemas _) as [d|e'] eqn:Ed; simplify_eq/=. by eapply derive_error.
  - intros h c0 f c E Hh. apply res_bind_ok in E as ([n g] & E & [= <-]). simpl.
    apply forget_host_defers in E as (keys & [[_ ?]|[-> Hk]]); [done|]. unfold get_snapshot.
    by destruct (invalidate_gone cfg keys (_snap_key h) c Hold (Hk Hh)) as [-> | ->].
  - intros h c0 f c x E. apply res_bind_ok in E as ([n g] & E & [= <-]). cbn [snd].
    apply forget_host_defers in E as (keys & [[Hid _]|[-> Hk]]); [rewrite Hid; by right|]. apply invalidate_mono.
  - intros hosts schema c x. apply invalidate_mono.
Defined.

End instance_.

(** ** Doomed entries *)

Section doomed.
Context `{Invalidator} `{!HostInvalidator}.

Notation cache s := (w_cache (cs_w s)).

(** A callback that never makes a snapshot served, and one that ends the service of
    the snapshot [h]. *)
Definition shrinks (k : Hook) : Prop :=
  match k with
  | HCache f => ∀ c h, inv_at (f c) h = None ∨ inv_at (f c) h = inv_at c h
  | _ => True
  end.
Definition kills (h : Entry) (k : Hook) : Prop :=
  match k with
  | HCache f => ∀ c, inv_at (f c) h = None
  | HForgetHost h' => h = OfHost h' ∧ h' ≠ ""
  | _ => False
  end.

Definition orderly (s : CS) : Prop := Forall shrinks (cs_hooks s).
Definition doomed (h : Entry) (s : CS) : Prop :=
  inv_at (cache s) h = None ∨ ∃ k, k ∈ cs_hooks s ∧ kills h k.

(** Steps that keep what is doomed, and steps that doom one. *)
Definition tame {A} (m : CM A) : Prop := ∀ s a s', m s = (Ok a, s') → orderly s →
  orderly s' ∧ ∀ h, doomed h s → doomed h s'.
Definition fatal {A} (h : Entry) (m : CM A) : Prop := ∀ s a s', m s = (Ok a, s') → orderly s →
  orderly s' ∧ doomed h s'.

Lemma tame_bind {A B} (m : CM A) (k : A → CM B) : tame m → (∀ a, tame (k a)) → tame (cbind m k).
Proof.
  intros Hm Hk s b s' E Ho. unfold cbind in E. destruct (m s) as [[a|e] s1] eqn:Em; [|done].
  destruct (Hm _ _ _ Em Ho) as [Ho1 H1]. destruct (Hk a _ _ _ E Ho1) as [Ho2 H2]. auto.
Qed.

Lemma fatal_here {A B} h (m : CM A) (k : A → CM B) : fatal h m → (∀ a, tame (k a)) → fatal h (cbind m k).
Proof.
  intros Hm Hk s b s' E Ho. unfold cbind in E. destruct (m s) as [[a|e] s1] eqn:Em; [|done].
  destruct (Hm _ _ _ Em Ho) as [Ho1 H1]. destruct (Hk a _ _ _ E Ho1) as [Ho2 H2]. auto.
Qed.

Lemma fatal_later {A B} h (m : CM A) (k : A → CM B) : tame m → (∀ a, fatal h (k a)) → fatal h (cbind m k).
Proof.
  intros Hm Hk s b s' E Ho. unfold cbind in E. destruct (m s) as [[a|e] s1] eqn:Em; [|done].
  destruct (Hm _ _ _ Em Ho) as [Ho1 H1]. by apply (Hk a s1 b).
Qed.

Lemma tame_ret {A} (a : A) : tame (cret a).
Proof. intros s b s' [= _ <-] Ho. auto. Qed.
Lemma tame_gets {A} (f : CS → A) : tame (cgets f).
Proof. intros s b s' [= _ <-] Ho. auto. Qed.
Lemma tame_lift {A} (r : res exn A) : tame (clift r).
Proof. intros s b s' [= _ <-] Ho. auto. Qed.
Lemma tame_call c : tame (call c).
Proof. intros s b s' [= _ <-] Ho. auto. Qed.

(** Operations of the process that leave the cache alone. *)
Definition spares {A} (m : M A) : Prop := ∀ w, w_cache (m w).2 = w_cache w.

Lemma spares_bind {A B} (m : M A) (k : A → M B) : spares m → (∀ a, spares (k a)) → spares (bind m k).
Proof.
  intros Hm Hk w. unfold bind. specialize (Hm w). destruct (m w) as [[a|e] w1]; [|done]. simpl in Hm. by rewrite Hk.
Qed.
Lemma spares_connection a : spares (connection a).
Proof. intros w. unfold connection. by case_match. Qed.
Lemma spares_event : spares next_event.
Proof. intros w. unfold next_event. by case_match. Qed.
Lemma spares_query {A} a (f : Srv → res exn A * Srv * list Action) : spares (query a f).
Proof.
  apply spares_bind; [|intros _; apply spares_bind; [apply spares_event|]].
  - apply spares_bind; [apply spares_connection|]. intros c. case_match; [done|].
    apply spares_bind; [apply spares_event|]. intros ev. by case_match.
  - intros ev w. destruct (f (w_srv w)) as [[[r|e] v] acts], (ev_fault ev), (ev_applied ev); done.
Qed.

Lemma tame_up {A} (m : M A) : spares m → tame (up m).
Proof.
  intros Hm s a s' E Ho. unfold up in E. specialize (Hm (cs_w s)). destruct (m (cs_w s)) as [r w]. simplify_eq/=.
  split; [done|]. intros h [Hn|Hk]; [left|by right]. simpl. by rewrite Hm.
Qed.

Lemma tame_read {A} a (f : Srv → A) : tame (up (select a f)).
Proof. apply tame_up, spares_query. Qed.
Lemma tame_in_atomic : tame in_atomic.
Proof. apply tame_bind; [apply tame_up, spares_connection|intros; apply tame_ret]. Qed.

Lemma cache_now_tame f : (∀ c h, inv_at (f c) h = None ∨ inv_at (f c) h = inv_at c h) → tame (cache_now f).
Proof.
  intros Hf s a s' [= _ <-] Ho. split; [done|]. intros h [Hn|Hk]; [left|by right]. simpl.
  by destruct (Hf (cache s) h) as [E|E]; [|rewrite E].
Qed.

Lemma run_hook_tame k : shrinks k → tame (run_hook k).
Proof.
  destruct k as [f|t|host|host|host]; simpl; intros Hk.
  - by apply cache_now_tame.
  - apply tame_bind; [apply tame_read|]. intros hosts. apply cache_now_tame. intros. apply inv_forget_mono.
  - apply tame_bind; [apply tame_gets|]. intros c s a s' E Ho. unfold cbind, clift in E.
    destruct (inv_forget_one host c) as [f|e] eqn:Ef; [|done]. eapply cache_now_tame; [|exact E|done].
    intros. by eapply inv_forget_one_mono.
  - apply tame_call.
  - apply tame_call.
Qed.

Lemma run_hook_kills h k s a s' : kills h k → run_hook k s = (Ok a, s') → inv_at (cache s') h = None.
Proof.
  destruct k as [f|t|host|host|host]; simpl; try done.
  - intros Hf [= _ <-]. apply Hf.
  - intros [-> Hh]. unfold cbind, cgets, clift. destruct (inv_forget_one host _) as [f|e] eqn:Ef; [|done].
    intros [= _ <-]. simpl. by eapply inv_forget_one_host.
Qed.

Lemma run_hook_keeps k s a s' : run_hook k s = (Ok a, s') → cs_hooks s' = cs_hooks s.
Proof.
  destruct k as [f|t|host|host|host]; simpl; unfold cbind, read_hosts, cgets, clift, cache_now, call, cmodify, up; intros E.
  1, 4, 5: by injection E as _ <-.
  - destruct (select _ _ _) as [[l|e] w]; [|done]. by injection E as _ <-.
  - destruct (inv_forget_one host _); [|done]. by injection E as _ <-.
Qed.

(** Running the queue serves every sentence in it. *)
Lemma run_hooks_kill h ks s a s' :
  Forall shrinks ks → cs_hooks s = [] → run_hooks ks s = (Ok a, s') →
  inv_at (cache s) h = None ∨ (∃ k, k ∈ ks ∧ kills h k) → inv_at (cache s') h = None.
Proof.
  intros Hks. revert s. induction Hks as [|k ks Hk Hks IH]; intros s Hs E.
  - injection E as _ <-. intros [?|(k & Hin & _)]; [done|by apply not_elem_of_nil in Hin].
  - simpl in E. unfold cbind in E. destruct (run_hook k s) as [[u|e] s1] eqn:Ek; [|done].
    pose proof (run_hook_keeps _ _ _ _ Ek) as Hs1. rewrite Hs in Hs1. intros Hd. apply (IH s1 Hs1 E).
    destruct Hd as [Hn|(k' & [->|Hin]%elem_of_cons & Hkill)].
    + destruct (run_hook_tame k Hk _ _ _ Ek) as [_ Ht]; [unfold orderly; by rewrite Hs|].
      destruct (Ht h (or_introl Hn)) as [?|(k' & Hin & _)]; [by left|]. rewrite Hs1 in Hin. by apply not_elem_of_nil in Hin.
    + left. by eapply run_hook_kills.
    + right. eauto.
Qed.

Lemma on_commit_tame k : shrinks k → tame (on_commit k).
Proof.
  intros Hk. apply tame_bind; [apply tame_in_atomic|]. intros [|]; [|by apply run_hook_tame].
  intros s a s' [= _ <-] Ho. split; [by apply Forall_app_2; [|constructor]|].
  intros h [Hn|(k' & Hin & Hkk)]; [by left|right]. exists k'. split; [|done]. apply elem_of_app. by left.
Qed.

Lemma on_commit_fatal h k : shrinks k → kills h k → fatal h (on_commit k).
Proof.
  intros Hk Hh. apply fatal_later; [apply tame_in_atomic|]. intros [|] s a s' E Ho.
  - injection E as _ <-. split; [by apply Forall_app_2; [|constructor]|]. right. exists k. split; [|done].
    apply elem_of_app. right. by apply list_elem_of_singleton.
  - split; [by eapply run_hook_tame|]. left. by eapply run_hook_kills.
Qed.

(** A committed block returned what its body did, and has carried out what the
    body doomed. *)
Definition enter (s : CS) : CS :=
  mkCS (upd_conns (alter (conn_atomic true) "default") (cs_w s)) [] (cs_calls s).

Lemma atomic_done {A} (m : CM A) s a s' :
  cs_hooks s = [] → atomic m s = (Ok a, s') →
  ∃ s1, m (enter s) = (Ok a, s1)
    ∧ (orderly s1 → ∀ h, doomed h s1 → inv_at (cache s') h = None)
    ∧ w_trace (cs_w s') = w_trace (cs_w s1).
Proof.
  intros Hs E. unfold atomic in E. fold (enter s) in E.
  destruct (m (enter s)) as [[b|e] s1] eqn:Em; [|done].
  pose proof (spares_event (cs_w s1)) as Hev.
  destruct (next_event (cs_w s1)) as [[ev|e] w2] eqn:En; [|done]. destruct (ev_fault ev); [done|].
  apply next_event_trace in En. unfold cbind in E.
  assert (ckeeps (λ tr, tr = w_trace (cs_w s1)) (run_hooks (cs_hooks s1))) as Htr by auto with ckeeps.
  specialize (Htr (mkCS (leave (cs_w s) w2) (cs_hooks s) (cs_calls s1)) En).
  destruct (run_hooks (cs_hooks s1) _) as [[u|e] s2] eqn:Eh; [|done]. injection E as -> <-.
  exists s1. split; [done|]. split; [|done]. intros Ho h Hd.
  eapply run_hooks_kill; [exact Ho|..|exact Eh|]; [done|]. simpl in *. by rewrite Hev.
Qed.

(** ** The operations *)

Lemma forget_host_tame h : tame (forget_host_c h).
Proof.
  apply tame_bind; [apply tame_gets|]. intros c s a s' E Ho. unfold cbind, clift in E.
  destruct (inv_forget_one h c) as [f|e] eqn:Ef; [|done]. eapply on_commit_tame; [|exact E|done].
  intros c1 h1. by eapply inv_forget_one_mono.
Qed.

Lemma forget_host_fatal h : h ≠ "" → fatal (OfHost h) (forget_host_c h).
Proof.
  intros Hh. apply fatal_later; [apply tame_gets|]. intros c s a s' E Ho. unfold cbind, clift in E.
  destruct (inv_forget_one h c) as [f|e] eqn:Ef; [|done]. eapply on_commit_fatal; [..|exact E|done].
  - intros c1 h1. by eapply inv_forget_one_mono.
  - intros c1. by eapply inv_forget_one_host.
Qed.

Lemma saved_fatal h : h ≠ "" → fatal (OfHost h) (invalidate_domain_saved h).
Proof. intros Hh. apply fatal_here; [by apply forget_host_fatal|]. intros. by apply on_commit_tame. Qed.
Lemma saved_tame h : tame (invalidate_domain_saved h).
Proof. apply tame_bind; [apply forget_host_tame|]. intros. by apply on_commit_tame. Qed.
Lemma deleted_fatal h : h ≠ "" → fatal (OfHost h) (invalidate_domain_deleted h).
Proof. intros Hh. apply fatal_here; [by apply forget_host_fatal|]. intros. by apply on_commit_tame. Qed.
Lemma deleted_tame h : tame (invalidate_domain_deleted h).
Proof. apply tame_bind; [apply forget_host_tame|]. intros. by apply on_commit_tame. Qed.

Lemma signals_tame hosts : tame (domain_signals hosts).
Proof. induction hosts; simpl; [apply tame_ret|]. apply tame_bind; [apply deleted_tame|done]. Qed.

Lemma signals_fatal h hosts : h ∈ hosts → h ≠ "" → fatal (OfHost h) (domain_signals hosts).
Proof.
  intros Hin Hh. induction hosts as [|x hosts IH]; [by apply not_elem_of_nil in Hin|]. simpl.
  apply elem_of_cons in Hin as [<-|Hin].
  - apply fatal_here; [by apply deleted_fatal|]. intros. apply signals_tame.
  - apply fatal_later; [apply deleted_tame|]. intros. by apply IH.
Qed.

Lemma schema_tame x : tame (invalidate_tenant_deleted x).
Proof.
  apply tame_bind; [apply tame_read|]. intros. apply on_commit_tame. intros c h. apply inv_forget_mono.
Qed.

Lemma schema_fatal x : fatal (OfSchema x) (invalidate_tenant_deleted x).
Proof.
  apply fatal_later; [apply tame_read|]. intros. apply on_commit_fatal; [intros c h; apply inv_forget_mono|].
  intros c. apply inv_forget_schema.
Qed.

Lemma domain_save_fatal `{DomainMixin} seq d h :
  h = normalize_host (di_domain d) ∨ di_loaded d = Some h → h ≠ "" → fatal (OfHost h) (domain_save seq d).
Proof.
  intros Hh Hne. unfold domain_save. apply fatal_later; [apply tame_up, spares_query|]. intros row.
  destruct (decide (h = normalize_host (di_domain d))) as [->|Hn].
  - apply fatal_here; [by apply saved_fatal|]. intros _. apply tame_bind; [|intros; apply tame_ret].
    destruct (di_loaded d); [case_match; [apply tame_ret|by apply on_commit_tame]|apply tame_ret].
  - destruct Hh as [?|Hl]; [done|]. apply fatal_later; [apply saved_tame|]. intros _. rewrite Hl.
    destruct (String.eqb_spec h (normalize_host (di_domain d))); [done|].
    apply fatal_here; [by apply on_commit_fatal|intros; apply tame_ret].
Qed.

(** After a committed save of a domain, renamed or new,
    neither its host nor the host it was loaded with is served from the cache,
    whatever happened between the statements. *)
Theorem saved_domain_unserved `{DomainMixin} seq d s d' s' h :
  cs_hooks s = [] → atomic (domain_save seq d) s = (Ok d', s') →
  h = normalize_host (di_domain d) ∨ di_loaded d = Some h → h ≠ "" →
  inv_host (cache s') h = None.
Proof.
  intros Hs E Hh Hne. destruct (atomic_done _ _ _ _ Hs E) as (s1 & Em & Hk & _).
  destruct (domain_save_fatal seq d h Hh Hne _ _ _ Em) as [Ho Hd]; [by constructor|]. by apply (Hk Ho (OfHost h)).
Qed.

Lemma delete_recorded pk w hosts w' :
  query "default" (tenant_delete_stmt pk) w = (Ok hosts, w') →
  ∃ g, w_trace w' = ADelete pk g :: w_trace w ∧ hosts = tenant_hosts g pk.
Proof.
  unfold query, bind at 1. pose proof (keeps_ensure_connection (λ tr, tr = w_trace w) "default" w eq_refl) as Q.
  destruct (ensure_connection "default" w) as [[u|e] w1]; [|done]. unfold round_trip, bind.
  destruct (next_event w1) as [[ev|e] w2] eqn:En; [|done]. apply next_event_trace in En.
  destruct (ev_fault ev); [by destruct (ev_applied ev)|]. simpl. intros [= <- <-]. eexists. simpl. by rewrite En, Q.
Qed.

(** C24: when the deletion of a tenant has returned, no host that it had at the
    moment its row was deleted is served from the cache, and neither is its schema. *)
Theorem deleted_tenant_unserved t s s' c :
  cs_hooks s = [] → w_conns (cs_w s) !! "default" = Some c → c_in_atomic c = false →
  tenant_delete t s = (Ok tt, s') →
  ∃ g new, w_trace (cs_w s') = new ++ w_trace (cs_w s) ∧ ADelete (o_pk t) g ∈ new
    ∧ (∀ h, h ∈ tenant_hosts g (o_pk t) → h ≠ "" → inv_host (cache s') h = None)
    ∧ inv_schema (cache s') (o_schema t) = None.
Proof.
  intros Hs Hc Ha E. unfold tenant_delete in E. destruct (String.eqb _ PUBLIC); [done|].
  unfold nested_atomic, in_atomic, cbind at 1 2, up at 1, connection in E. rewrite Hc in E. unfold cret at 1 in E.
  rewrite Ha in E. destruct s as [w hs cl]. simpl in Hs, E. subst hs.
  destruct (atomic_done _ (mkCS w [] cl) _ _ eq_refl E) as (s1 & Em & Hk & Htr). simpl. unfold cbind at 1, up at 1 in Em.
  destruct (query _ _ _) as [[hosts|e] w1] eqn:Eq; [|done]. apply delete_recorded in Eq as (g & Et & ->).
  assert (ckeeps (λ tr, ∃ new, tr = new ++ w_trace w1)
    (domain_signals (tenant_hosts g (o_pk t)) $;; invalidate_tenant_deleted (o_schema t))) as Hg.
  { unfold invalidate_tenant_deleted. ckeeps_solve. generalize (tenant_hosts g (o_pk t)). intros l.
    induction l; simpl; unfold invalidate_domain_deleted; ckeeps_solve. }
  specialize (Hg (mkCS w1 [] cl) (ex_intro _ [] eq_refl)). simpl in Em. rewrite Em in Hg. destruct Hg as [new Hnew].
  exists g, (new ++ [ADelete (o_pk t) g]). split_and!.
  - by rewrite Htr, Hnew, Et, <- app_assoc.
  - apply elem_of_app. right. by apply list_elem_of_singleton.
  - intros h Hin Hne. edestruct (fatal_here (OfHost h) _ _ (signals_fatal h _ Hin Hne) (λ _, schema_tame (o_schema t)))
      as [Ho Hd]; [exact Em|by constructor|]. by apply (Hk Ho (OfHost h)).
  - edestruct (fatal_later (OfSchema (o_schema t)) _ _ (signals_tame (tenant_hosts g (o_pk t))) (λ _, schema_fatal (o_schema t)))
      as [Ho Hd]; [exact Em|by constructor|]. by apply (Hk Ho (OfSchema (o_schema t))).
Qed.

End doomed.

(** * Facts on the model methods

    When [Tenant.save] stamps [status_changed_at], which columns [update_fields]
    lets through, and what [clean] accepts. *)

(** The row after a first save of an instance loaded with the status, whose
    attributes [edit] changed, over the row [current] that is stored by then. *)
Definition saved_row (now : Z) (uf : option (list TField)) (pk : Z) (row : Tenant) (edit : Tenant → Tenant)
    (current : Tenant) : Tenant :=
  let '(o, fs) := stamp now uf (ti_set edit (tenant_from_db all_fields pk row)) in
  write_fields fs (ti_row o) current.

(** The first save of a loaded tenant stamps
    [status_changed_at] exactly when the status differs from the loaded one, with
    [update_fields] or without; otherwise an [update_fields] that does not name the
    column leaves the stored stamp alone, and every column outside
    [update_fields] other than the stamp keeps what other writers stored. *)
Theorem save_stamps_moves now uf pk row edit current :
  (t_status (edit row) ≠ t_status row → t_status_changed_at (saved_row now uf pk row edit current) = now)
  ∧ (t_status (edit row) = t_status row → ∀ l, uf = Some l → F_status_changed_at ∉ l →
       t_status_changed_at (saved_row now uf pk row edit current) = t_status_changed_at current)
  ∧ (∀ l, uf = Some l → F_status ∉ l → t_status (saved_row now uf pk row edit current) = t_status current)
  ∧ (∀ l, uf = Some l → F_timezone ∉ l → t_timezone (saved_row now uf pk row edit current) = t_timezone current)
  ∧ (∀ l, uf = Some l → F_shard ∉ l → t_shard_id (saved_row now uf pk row edit current) = t_shard_id current).
Proof.
  unfold saved_row, stamp, tenant_from_db. cbn [ti_set ti_adding ti_row ti_loaded ti_pk orb].
  rewrite (proj2 (mem_spec F_status all_fields)) by set_solver. split_and!.
  - intros Hm. rewrite bool_decide_false by congruence. by destruct uf.
  - intros Hm l -> Hl. rewrite bool_decide_true by congruence. simpl. unfold pick. by rewrite (proj2 (mem_false _ _) Hl).
  - intros l -> Hl. destruct (negb _); simpl; unfold pick; rewrite (proj2 (mem_false _ _)); set_solver.
  - intros l -> Hl. destruct (negb _); simpl; unfold pick; rewrite (proj2 (mem_false _ _)); set_solver.
  - intros l -> Hl. destruct (negb _); simpl; unfold pick; rewrite (proj2 (mem_false _ _)); set_solver.
Qed.

(** ** Second saves *)

(** The instance after [save()]: Django clears [_state.adding]; [_loaded_status]
    stays what [from_db] set. *)
Definition after_save (now : Z) (o : TenantInst) : TenantInst :=
  let o1 := (stamp now None o).1 in mkTI (ti_pk o1) false (ti_row o1) (ti_loaded o1).

(** A loaded tenant whose status is moved and saved,
    and then moved back and saved again through the same instance, keeps the stamp
    of the first move: the second one is missed. *)
Theorem second_save_misses_move now1 now2 pk row st :
  st ≠ t_status row → now1 ≠ now2 →
  let first := after_save now1 (ti_set (set_status st) (tenant_from_db all_fields pk row)) in
  let second := after_save now2 (ti_set (set_status (t_status row)) first) in
  t_status_changed_at (ti_row first) = now1
  ∧ t_status (ti_row second) ≠ t_status (ti_row first)
  ∧ t_status_changed_at (ti_row second) = now1.
Proof.
  intros Hst Hnow. unfold after_save, stamp, tenant_from_db. cbn [ti_set ti_adding ti_row ti_loaded ti_pk orb t_status set_status].
  rewrite (proj2 (mem_spec F_status all_fields)) by set_solver.
  rewrite (bool_decide_false (Some st = _)) by congruence. simpl. rewrite bool_decide_true by done. simpl. by split_and!.
Qed.

(** ** [Tenant.clean] *)

(** A new tenant whose name differs from
    [public] only in case passes [Tenant.clean] on a business shard, and leaves it
    named [public]. *)
Theorem clean_accepts_public_in_disguise shard o :
  sh_is_default shard = false → sh_is_active shard = true → ti_pk o = None →
  t_schema_name (ti_row o) = "Public" →
  tenant_clean [] shard o = Ok (ti_set (set_schema_name PUBLIC) o).
Proof. intros Hd Ha Hp Hn. unfold tenant_clean. by rewrite Hn, Hd, Ha, Hp. Qed.
