(* ===== verification/LeaseCommand.v ===== *)
(** * The migration_lease command

    src/tenants/management/commands/migration_lease.py: resolving a target to a
    lease key, looking for an active backend, listing and releasing leases.  The
    commands print lines and raise [CommandError]; what was printed before an
    exception is not kept. *)
From S2P Require Import Prelude PyStr Models PyExc World Lease Schema Console Migrator Quiet MigratorRun.
From Stdlib Require Import Ascii.
Open Scope tenants_scope.

Definition command_error (msg : string) : exn := simple_exn OtherException "CommandError" msg.

(** ** [int(s)] *)

Definition digit_value (c : ascii) : option Z :=
  let n := N_of_ascii c in
  if (48 <=? n)%N && (n <=? 57)%N then Some (Z.of_N n - 48)%Z else None.

(** Digits with single underscores between them. *)
Fixpoint int_digits (acc : Z) (after_digit : bool) (l : list ascii) : option Z :=
  match l with
  | [] => if after_digit then Some acc else None
  | c :: l' =>
      match digit_value c with
      | Some d => int_digits (10 * acc + d)%Z true l'
      | None => if after_digit && bool_decide (c = "_"%char) then int_digits acc false l' else None
      end
  end.

Definition py_parse_int (s : string) : option Z :=
  match chars (py_strip s) with
  | c :: l =>
      if bool_decide (c = "-"%char) then Z.opp <$> int_digits 0 false l
      else if bool_decide (c = "+"%char) then int_digits 0 false l
      else int_digits 0 false (c :: l)
  | [] => None
  end.

Definition rjust (text : string) (w : nat) : string := spaces (w - String.length text) +:+ text.

Definition SHARED : string := "shared".

(** [Tenant.objects.select_related("shard").filter(schema_name=s).first()]. *)
Definition by_schema_name (g : Registry) (s : string) : option TenantObj :=
  kt ← list_find (λ kt, t_schema_name kt.2 = s) (map_to_list (g_tenants g)); get_tenant g kt.2.1.

Definition business_aliases (g : Registry) : list string :=
  sh_alias <$> (snd <$> map_to_list (filter (λ ks, sh_is_default ks.2 = false) (g_shards g))).

Section lease_command.
Context `{Invalidator} `{Site} `{Upstream}.

Definition _all_shards : M (list string) := select "default" (λ v, business_aliases (v_reg v)).

(** (key, label, shard aliases to look for a backend on). *)
Definition _resolve (target : string) : M (Z * string * list string) :=
  if py_startswith target "key=" then
    match py_parse_int (of_chars (drop 4 (chars target))) with
    | None => raise (command_error (py_repr target +:+ ": key=<n> needs an integer."))
    | Some key =>
        if (key =? 0)%Z then ret (0%Z, SHARED, ["default"])
        else
          t <-! select "default" (λ v, get_tenant (v_reg v) key) ;;
          match t with
          | Some t => ret (key, o_schema t, [o_alias t])
          | None => aliases <-! _all_shards ;; ret (key, "key=" +:+ py_int key +:+ " (tenant deleted)", aliases)
          end
    end
  else
    t <-! select "default" (λ v, by_schema_name (v_reg v) target) ;;
    if String.eqb target SHARED then
      match t with
      | Some t => raise (command_error (py_repr SHARED +:+ " is ambiguous: a tenant has that schema name. "
                    +:+ "Use key=0 for the --shared stage or key=" +:+ py_int (o_pk t) +:+ " for the tenant."))
      | None => ret (0%Z, SHARED, ["default"])
      end
    else match t with
         | None => raise (command_error ("Tenant " +:+ py_repr target
                     +:+ " not found (for a deleted tenant's lease use key=<n> from --list)."))
         | Some t => ret (o_pk t, o_schema t, [o_alias t])
         end.

(** The first active backend of the key on the shards. *)
Fixpoint _session (aliases : list string) (key : Z) : M (option (string * ShardSession)) :=
  match aliases with
  | [] => ret None
  | alias :: aliases' =>
      s <-! shard_session_active alias key ;;
      match s with Some s => ret (Some (alias, s)) | None => _session aliases' key end
  end.

Definition _fmt_session (alias : string) (s : ShardSession) : string :=
  "pid " +:+ py_int (ss_pid s) +:+ " on " +:+ alias +:+ ", running " +:+ py_int (minutes (ss_running s)) +:+ " min: "
  +:+ ss_query s.

(** [f"{x:%Y-%m-%dT%H:%M:%SZ}"] of a value that may be [None]. *)
Definition stamp_text (x : option Z) : res exn string :=
  match x with
  | Some n => Ok (fmt_time n)
  | None => Err (simple_exn OtherException "TypeError" "unsupported format string passed to NoneType.__format__")
  end.

(** ** --list *)

Definition list_header : string :=
  rjust "KEY" 6 +:+ "  " +:+ ljust "SCHEMA" 24 +:+ " " +:+ ljust "OWNER" 44 +:+ " " +:+ ljust "SINCE" 20 +:+ " "
  +:+ ljust "UNTIL" 20 +:+ " " +:+ ljust "STATE" 8 +:+ " SESSION".

Definition list_row (key : Z) (label : string) (h : LeaseHolder) (session : string) : res exn string :=
  since <-? stamp_text (lh_since h) ;;
  until <-? stamp_text (lh_until h) ;;
  Ok (rjust (py_int key) 6 +:+ "  " +:+ ljust label 24 +:+ " " +:+ ljust (lh_owner h) 44 +:+ " " +:+ since +:+ "  "
      +:+ until +:+ "  " +:+ ljust (if lh_expired h then "EXPIRED" else "live") 8 +:+ " " +:+ session).

(** What --list shows of a lease: its label and where to look for its backend. *)
Definition lease_label (tenants : gmap Z TenantObj) (key : Z) : M (string * list string) :=
  if (key =? 0)%Z then ret (SHARED, ["default"])
  else match tenants !! key with
       | Some t => ret (o_schema t, [o_alias t])
       | None => aliases <-! _all_shards ;; ret ("tenant deleted (key=" +:+ py_int key +:+ ")", aliases)
       end.

Definition session_column (aliases : list string) (key : Z) : M string :=
  catch
    (s <-! _session aliases key ;;
     ret (match s with Some (alias, s) => _fmt_session alias s | None => "none" end))
    (λ e, if is_conn_error e then ret ("? shard unreachable (" +:+ eo_name (x_obj e) +:+ ")") else raise e).

Fixpoint list_rows (tenants : gmap Z TenantObj) (holders : list (Z * LeaseHolder)) : M (list string) :=
  match holders with
  | [] => ret []
  | (key, h) :: hs =>
      la <-! lease_label tenants key ;;
      session <-! session_column la.2 key ;;
      line <-! lift (list_row key la.1 h session) ;;
      rest <-! list_rows tenants hs ;;
      ret (line :: rest)
  end.

Definition held_tenants (g : Registry) (keys : list Z) : gmap Z TenantObj :=
  list_to_map (omap (λ k, (λ t, (k, t)) <$> get_tenant g k) keys).

Definition _list : M (list string) :=
  holders <-! lease_holders ;;
  match map_to_list holders with
  | [] => ret ["No leases held."]
  | hs =>
      tenants <-! select "default" (λ v, held_tenants (v_reg v) (fst <$> hs)) ;;
      rows <-! list_rows tenants hs ;;
      ret (list_header :: rows)
  end.

(** ** --release *)

Definition not_held_line (label : string) (key : Z) : string :=
  "Lease of " +:+ label +:+ " (key " +:+ py_int key +:+ ") is not held; nothing to release.".

Definition unchecked_error (aliases : list string) (key : Z) (e : exn) : exn :=
  command_error ("Cannot check " +:+ String.concat ", " aliases +:+ " for an active tm:" +:+ py_int key +:+ " backend ("
    +:+ eo_str (x_obj e) +:+ "). Not released. Use --force only if the owner is certainly dead and no backend is left.").

Definition running_error (label alias : string) (s : ShardSession) : exn :=
  command_error ("Not released: the migration of " +:+ label +:+ " is still running server-side ("
    +:+ _fmt_session alias s +:+ "). Wait for it to finish, or cancel it with pg_cancel_backend(" +:+ py_int (ss_pid s)
    +:+ ") on " +:+ alias +:+ ", then retry.").

Definition live_error (label until owner : string) : exn :=
  command_error ("Not released: the lease of " +:+ label +:+ " is live until " +:+ until +:+ " (owner " +:+ owner
    +:+ "). Its owner may be alive between two statements, which no backend check can see. Wait for it to expire, or "
    +:+ "— only if that process is certainly dead (check `ps -o lstart= -p <pid>` on its host) — repeat with --force.").

Definition changed_error (label now_owner : string) : exn :=
  command_error ("Lease of " +:+ label +:+ " changed hands meanwhile (now: " +:+ now_owner
    +:+ "); nothing released. Check with --list.").

Definition released_line (label : string) (key : Z) (h : LeaseHolder) (force : bool) : res exn string :=
  since <-? stamp_text (lh_since h) ;;
  until <-? stamp_text (lh_until h) ;;
  Ok ("Released lease of " +:+ label +:+ " (key " +:+ py_int key +:+ "): owner " +:+ lh_owner h +:+ ", since " +:+ since
      +:+ ", until " +:+ until +:+ (if lh_expired h then " (EXPIRED)" else "") +:+ (if force then " [--force]" else "") +:+ ".").

(** The checks that [--force] skips. *)
Definition release_checks (key : Z) (label : string) (aliases : list string) (h : LeaseHolder) : M unit :=
  s <-! catch (_session aliases key)
          (λ e, if is_conn_error e then raise (unchecked_error aliases key e) else raise e) ;;
  match s with
  | Some (alias, s) => raise (running_error label alias s)
  | None =>
      if negb (lh_expired h) then
        until <-! lift (stamp_text (lh_until h)) ;;
        raise (live_error label until (lh_owner h))
      else ret tt
  end.

Definition _release (target : string) (force : bool) : M string :=
  r <-! _resolve target ;;
  let '(key, label, aliases) := r in
  h <-! lease_holder key ;;
  match h with
  | None => ret (not_held_line label key)
  | Some h =>
      (if force : bool then ret tt else release_checks key label aliases h) ;;;
      freed <-! lease_force_release key (lh_owner h) ;;
      if negb freed then
        now <-! lease_holder key ;;
        raise (changed_error label (default "free" (lh_owner <$> now)))
      else lift (released_line label key h force)
  end.

(** [handle] after the parser: [--list] or [--release]. *)
Definition lease_handle (list_ : bool) (release : option string) (force : bool) : M (list string) :=
  if force && String.eqb (default "" release) "" then raise (command_error "--force goes only with --release.")
  else if list_ then _list
  else line <-! _release (default "" release) force ;; ret [line].

End lease_command.

(** * What migration_lease does

    The key printed by --list is the one --release resolves, and the outcome of
    --release on every branch of an undisturbed run. *)

(** ** [int(str(n))] *)

Fixpoint digits_value (acc : Z) (l : list ascii) : option Z :=
  match l with
  | [] => Some acc
  | c :: l' => d ← digit_value c; digits_value (10 * acc + d)%Z l'
  end.

Lemma int_digits_plain acc l v : digits_value acc l = Some v → int_digits acc true l = Some v.
Proof.
  revert acc. induction l as [|c l IH]; intros acc; simpl; [done|]. destruct (digit_value c) as [d|]; [|done]. apply IH.
Qed.

Lemma int_digits_start acc c l v : digits_value acc (c :: l) = Some v → int_digits acc false (c :: l) = Some v.
Proof. simpl. destruct (digit_value c) as [d|]; [|done]. apply int_digits_plain. Qed.

Lemma pretty_char_value n : (n < 10)%N → digit_value (pretty_N_char n) = Some (Z.of_N n).
Proof.
  intros Hn. assert (∃ m, n = N.of_nat m ∧ m < 10) as (m & -> & Hm).
  { exists (N.to_nat n). split; [by rewrite N2Nat.id|lia]. }
  by do 10 (destruct m as [|m]; [done|]); lia.
Qed.

(** Pushing the digits of [x] in front of [s] reads as starting from [x]. *)
Lemma pretty_go_value x s v :
  (0 < x)%N → digits_value (Z.of_N x) (chars s) = Some v → digits_value 0 (chars (pretty_N_go x s)) = Some v.
Proof.
  revert s. induction (N.lt_wf_0 x) as [x _ IH]. intros s Hx Hv. rewrite pretty_N_go_step by done.
  assert (x mod 10 < 10)%N as Hm by (apply N.mod_lt; lia). pose proof (N.div_mod x 10 ltac:(lia)) as Hdm.
  assert (digits_value (Z.of_N (x / 10)) (chars (String (pretty_N_char (x mod 10)) s)) = Some v) as Hd.
  { cbn [chars String.list_ascii_of_string digits_value]. rewrite pretty_char_value by done. simpl.
    replace (10 * Z.of_N (x / 10) + Z.of_N (x mod 10))%Z with (Z.of_N x) by lia. exact Hv. }
  destruct (decide (x / 10 = 0)%N) as [E|E].
  - rewrite E, pretty_N_go_0. by rewrite E in Hd.
  - apply IH; [|lia|done]. apply N.div_lt; lia.
Qed.

Lemma pretty_pos_value p : digits_value 0 (chars (pretty (N.pos p))) = Some (Z.pos p).
Proof. unfold pretty, pretty_N. rewrite decide_False by done. by apply pretty_go_value. Qed.

Lemma digit_not_space c d : digit_value c = Some d → py_space c = false ∧ c ≠ "-"%char ∧ c ≠ "+"%char.
Proof. intros E. split_and!; [|intros ->; done..]. revert E. ascii_cases c; done. Qed.

Lemma digits_not_space acc l v : digits_value acc l = Some v → Forall (λ c, py_space c = false) l.
Proof.
  revert acc. induction l as [|c l IH]; intros acc; simpl; [constructor|]. destruct (digit_value c) as [d|] eqn:E; [|done].
  intros Hv. constructor; [by eapply digit_not_space|by eapply IH].
Qed.

Lemma strip_solid s : Forall (λ c, py_space c = false) (chars s) → py_strip s = s.
Proof.
  intros Hs. unfold py_strip, rdrop_while. rewrite (drop_while_none py_space (chars s)) by done.
  rewrite drop_while_none by (by apply Forall_rev). by rewrite rev_involutive, of_chars_chars.
Qed.

Lemma parse_pretty_pos p : py_parse_int (pretty (N.pos p)) = Some (Z.pos p).
Proof.
  pose proof (pretty_pos_value p) as Hv. unfold py_parse_int. rewrite strip_solid by (by eapply digits_not_space).
  destruct (chars (pretty (N.pos p))) as [|c l] eqn:E; [done|].
  assert (is_Some (digit_value c)) as [d Hd] by (simpl in Hv; destruct (digit_value c); [by eexists|done]).
  destruct (digit_not_space c d Hd) as (_ & Hm & Hp). rewrite !bool_decide_false by done. by apply int_digits_start.
Qed.

Lemma parse_int_str n : py_parse_int (py_int n) = Some n.
Proof.
  unfold py_int. destruct n as [|p|p]; [done|apply parse_pretty_pos|].
  change (pretty (Z.neg p)) with ("-" +:+ pretty (N.pos p)).
  pose proof (pretty_pos_value p) as Hv. unfold py_parse_int.
  rewrite strip_solid.
  - rewrite chars_app. simpl. destruct (chars (pretty (N.pos p))) as [|c l] eqn:E; [done|].
    by rewrite (int_digits_start _ _ _ _ Hv).
  - rewrite chars_app. constructor; [done|]. by eapply digits_not_space.
Qed.

Lemma key_prefix s : py_startswith ("key=" +:+ s) "key=" = true.
Proof. unfold py_startswith. simpl. by destruct s. Qed.

Lemma key_target key : of_chars (drop 4 (chars ("key=" +:+ py_int key))) = py_int key.
Proof. rewrite chars_app. simpl. apply of_chars_chars. Qed.

(** ** Undisturbed runs *)

Section release.
Context `{Invalidator} `{Site} `{Upstream} (alias : string).
Notation runs := (runs alias).

Lemma runs_all_shards q : runs _all_shards q (Ok (business_aliases (q_reg q))) q.
Proof. exact (runs_select alias "default" (λ v, business_aliases (v_reg v)) q (known_default alias)). Qed.

(** The key of a lease whose tenant is gone, as --list prints it. *)
Lemma runs_resolve_key q key :
  key ≠ 0%Z → get_tenant (q_reg q) key = None →
  runs (_resolve ("key=" +:+ py_int key)) q
    (Ok (key, "key=" +:+ py_int key +:+ " (tenant deleted)", business_aliases (q_reg q))) q.
Proof.
  intros Hk Hg. unfold _resolve. rewrite key_prefix, key_target, parse_int_str. rewrite (proj2 (Z.eqb_neq key 0)) by done.
  eapply runs_bind; [exact (runs_select alias "default" (λ v, get_tenant (v_reg v) key) q (known_default alias))|].
  cbn beta. unfold q_reg in Hg. rewrite Hg.
  eapply runs_bind; [apply runs_all_shards|]. apply runs_ret.
Qed.

Lemma runs_session_one q key :
  runs (_session [alias] key) q (Ok ((λ s, (alias, s)) <$> session_active key (db_of alias (q_srv q)))) q.
Proof.
  simpl. eapply runs_bind; [exact (runs_session_active alias q alias key (known_alias alias))|].
  destruct (session_active _ _); apply runs_ret.
Qed.
Lemma runs_force_release q key o :
  runs (lease_force_release key o) q (Ok (lease_free key o (q_reg q)).1) (q_set_reg (λ _, (lease_free key o (q_reg q)).2) q).
Proof.
  unfold lease_force_release. pose proof (runs_query alias "default" (free_stmt key o) q (known_default alias)) as Hq.
  unfold effect, after, free_stmt in Hq. unfold q_reg. destruct (lease_free key o (v_reg (q_srv q))) as [n g].
  eapply runs_bind; [apply runs_fresh|]. apply Hq.
Qed.

(** ** The verdict *)

Inductive Verdict := NotHeld | Busy (s : ShardSession) | Live (h : LeaseHolder) | Freed (h : LeaseHolder).

Definition holder_of (g : Registry) (key : Z) : option LeaseHolder :=
  l ← g_leases g !! key; holder_row g l.

(** What --release decides, from the lease row and the sessions of the shard. *)
Definition release_verdict (v : Srv) (a : string) (key : Z) (force : bool) : Verdict :=
  match holder_of (v_reg v) key with
  | None => NotHeld
  | Some h =>
      if force then Freed h
      else match session_active key (db_of a v) with
           | Some s => Busy s
           | None => if lh_expired h then Freed h else Live h
           end
  end.

(** What that means for the operator and for the registry. *)
Definition release_outcome (t : TenantObj) (force : bool) (d : Verdict) (q : View) (r : res exn string) (q' : View) : Prop :=
  match d with
  | NotHeld => r = Ok (not_held_line (o_schema t) (o_pk t)) ∧ q' = q
  | Busy s => r = Err (running_error (o_schema t) (o_alias t) s) ∧ q' = q
  | Live h => r = (until <-? stamp_text (lh_until h) ;; Err (live_error (o_schema t) until (lh_owner h))) ∧ q' = q
  | Freed h => r = released_line (o_schema t) (o_pk t) h force
               ∧ q' = q_set_reg (set_leases (<[o_pk t := mkLease None None None]>)) q
  end.

Lemma runs_lift {A} (r : res exn A) q : runs (lift r) q r q.
Proof. intros w Hw. by exists w. Qed.

Lemma runs_resolve_schema q s t :
  by_schema_name (q_reg q) s = Some t → py_startswith s "key=" = false → s ≠ SHARED →
  runs (_resolve s) q (Ok (o_pk t, o_schema t, [o_alias t])) q.
Proof.
  intros Hb Hk Hs. unfold _resolve. rewrite Hk.
  eapply runs_bind; [exact (runs_select alias "default" (λ v, by_schema_name (v_reg v) s) q (known_default alias))|].
  cbn beta. destruct (String.eqb_spec s SHARED) as [?|_]; [done|]. unfold q_reg in Hb. rewrite Hb. apply runs_ret.
Qed.

Lemma held_free g key h :
  holder_of g key = Some h → lease_free key (lh_owner h) g = (true, set_leases (<[key := mkLease None None None]>) g).
Proof.
  intros (l & El & E)%bind_Some. unfold holder_row in E. destruct (ls_owner l) as [o|] eqn:Eo; simplify_eq/=.
  unfold lease_free. by rewrite El, bool_decide_true by done.
Qed.

Lemma runs_checks q t h :
  o_alias t = alias →
  runs (release_checks (o_pk t) (o_schema t) [o_alias t] h) q
    (match session_active (o_pk t) (db_of alias (q_srv q)) with
     | Some s => Err (running_error (o_schema t) alias s)
     | None => if lh_expired h then Ok tt
               else until <-? stamp_text (lh_until h) ;; Err (live_error (o_schema t) until (lh_owner h))
     end) q.
Proof.
  intros ->. unfold release_checks. eapply runs_bind; [by apply runs_catch_ok, runs_session_one|].
  destruct (session_active _ _) as [s|]; simpl; [apply runs_raise|]. destruct (lh_expired h); simpl; [apply runs_ret|].
  unfold stamp_text. destruct (lh_until h); simpl.
  - eapply runs_bind; [apply runs_lift|apply runs_raise].
  - eapply runs_bind_err. apply runs_lift.
Qed.

Lemma release_runs q s t force :
  by_schema_name (q_reg q) s = Some t → py_startswith s "key=" = false → s ≠ SHARED → o_alias t = alias →
  ∃ r q', runs (_release s force) q r q'
    ∧ release_outcome t force (release_verdict (q_srv q) alias (o_pk t) force) q r q'.
Proof.
  intros Hb Hk Hs Ha. unfold release_verdict, release_outcome.
  pose proof (runs_resolve_schema q s t Hb Hk Hs) as R1. pose proof (runs_lease_holder alias q (o_pk t)) as R2.
  fold (holder_of (q_reg q) (o_pk t)) in R2. change (q_reg q) with (v_reg (q_srv q)) in R2.
  destruct (holder_of (v_reg (q_srv q)) (o_pk t)) as [h|] eqn:Eh.
  2: { eexists _, q. split; [|done]. eapply runs_bind; [exact R1|]. eapply runs_bind; [exact R2|]. apply runs_ret. }
  pose proof (runs_force_release q (o_pk t) (lh_owner h)) as R3. unfold q_reg in R3. rewrite (held_free _ _ _ Eh) in R3.
  pose proof (runs_checks q t h Ha) as R4. rewrite Ha.
  assert (runs (freed <-! lease_force_release (o_pk t) (lh_owner h) ;;
      if negb freed then now <-! lease_holder (o_pk t) ;;
        raise (changed_error (o_schema t) (default "free" (lh_owner <$> now)))
      else lift (released_line (o_schema t) (o_pk t) h force)) q (released_line (o_schema t) (o_pk t) h force)
      (q_set_reg (set_leases (<[o_pk t := mkLease None None None]>)) q)) as R5.
  { eapply runs_bind; [exact R3|]. apply runs_lift. }
  destruct force.
  - eexists _, _. split; [|done]. eapply runs_bind; [exact R1|]. eapply runs_bind; [exact R2|].
    eapply runs_bind; [apply runs_ret|exact R5].
  - destruct (session_active _ _) as [x|]; [|destruct (lh_expired h)].
    + eexists _, q. split; [|done]. eapply runs_bind; [exact R1|]. eapply runs_bind; [exact R2|]. eapply runs_bind_err. exact R4.
    + eexists _, _. split; [|done]. eapply runs_bind; [exact R1|]. eapply runs_bind; [exact R2|].
      eapply runs_bind; [exact R4|exact R5].
    + eexists _, q. split; [|done]. eapply runs_bind; [exact R1|]. eapply runs_bind; [exact R2|].
      unfold stamp_text in *. destruct (lh_until h); eapply runs_bind_err; exact R4.
Qed.

End release.

Lemma view_st `{Invalidator} alias q w : St alias q w → view_of w = q.
Proof. intros []. destruct q. unfold view_of. simpl in *. by subst. Qed.

(** Undisturbed, --release of a tenant's lease prints that
    nothing is held; without --force refuses while a backend of the key is active
    on the shard, and while the lease is live; otherwise frees exactly that lease
    row and reports its owner.  A refusal leaves the servers as they were, and
    with --force the row is freed without those checks. *)
Theorem release_exact `{Invalidator} `{Site} `{Upstream} s t force w :
  Quiet (o_alias t) w → by_schema_name (v_reg (w_srv w)) s = Some t →
  py_startswith s "key=" = false → s ≠ SHARED →
  ∃ r w', _release s force w = (r, w')
    ∧ release_outcome t force (release_verdict (w_srv w) (o_alias t) (o_pk t) force) (view_of w) r (view_of w').
Proof.
  intros Hq Hb Hk Hs.
  destruct (release_runs (o_alias t) (view_of w) s t force Hb Hk Hs eq_refl) as (r & q' & Hr & Ho).
  destruct (Hr w Hq) as (w' & E & Hw'). exists r, w'. split; [done|]. by rewrite (view_st _ _ _ Hw').
Qed.

(** For a lease whose tenant is deleted, the form that
    --list prints, "key=<n>", resolves back to that key, and the backend check
    looks at every business shard. *)
Theorem listed_key_resolves `{Invalidator} `{Site} `{Upstream} key w :
  Quiet "default" w → key ≠ 0%Z → get_tenant (v_reg (w_srv w)) key = None →
  ∃ w', lease_label ∅ key w = (Ok ("tenant deleted (" +:+ ("key=" +:+ py_int key) +:+ ")", business_aliases (v_reg (w_srv w))), w')
    ∧ ∃ w'', _resolve ("key=" +:+ py_int key) w'
        = (Ok (key, "key=" +:+ py_int key +:+ " (tenant deleted)", business_aliases (v_reg (w_srv w))), w'').
Proof.
  intros Hq Hk Hg. unfold lease_label. rewrite (proj2 (Z.eqb_neq key 0)) by done. rewrite lookup_empty.
  assert (runs "default" (aliases <-! _all_shards ;; ret ("tenant deleted (key=" +:+ py_int key +:+ ")", aliases)) (view_of w)
    (Ok ("tenant deleted (" +:+ ("key=" +:+ py_int key) +:+ ")", business_aliases (v_reg (w_srv w)))) (view_of w)) as R.
  { eapply runs_bind; [apply runs_all_shards|]. apply runs_ret. }
  destruct (R w Hq) as (w' & E & Hw'). exists w'. split; [exact E|].
  destruct (runs_resolve_key "default" (view_of w) key Hk Hg w' Hw') as (w'' & E2 & _). by exists w''.
Qed.
