(* ===== verification/Reconcile.v ===== *)
(** * The reconcile_tenants command

    src/tenants/management/commands/reconcile_tenants.py: the deploy gate --check
    and the table of --report.  A run returns the lines it printed and, for
    --check, the [CommandError] it ended with. *)
From S2P Require Import Prelude PyStr Models PyExc Logs World Lease Schema ModelMethods Console LeaseCommand.
From Stdlib Require Import Ascii.
Open Scope tenants_scope.

Definition py_rstrip (s : string) : string := of_chars (rdrop_while py_space (chars s)).

(** Line boundaries of [str.splitlines]. *)
Definition line_break (c : ascii) : bool := mem (nat_of_ascii c) [10; 11; 12; 13; 28; 29; 30; 133].

Fixpoint take_while {A} (f : A → bool) (l : list A) : list A :=
  match l with
  | [] => []
  | x :: l' => if f x then x :: take_while f l' else []
  end.

(** [s.strip().splitlines()[-1][:160]]: a stripped text does not end in a line
    boundary; an empty one has no lines. *)
Definition last_line (s : string) : res exn string :=
  match chars (py_strip s) with
  | [] => Err (simple_exn OtherException "IndexError" "list index out of range")
  | l => Ok (py_take 160 (of_chars (rev (take_while (λ c, negb (line_break c)) (rev l)))))
  end.

(** [order_by("shard__alias", "schema_name")]. *)
Definition place_le (a b : TenantObj) : Prop :=
  (o_alias a ≠ o_alias b ∧ str_le (o_alias a) (o_alias b)) ∨ (o_alias a = o_alias b ∧ str_le (o_schema a) (o_schema b)).
#[export] Instance place_le_dec : RelDecision place_le.
Proof. intros a b. unfold place_le. apply _. Defined.

Definition wanted (schema : option string) (status : option Status) (t : TenantObj) : bool :=
  (match schema with None => true | Some s => String.eqb (o_schema t) s end)
  && (match status with None => true | Some st => bool_decide (o_status t = st) end)
  && negb (String.eqb (o_schema t) PUBLIC).

(** [_tenants]: the public one is left out. *)
Definition _tenants_of (g : Registry) (schema : option string) (status : option Status) : list TenantObj :=
  merge_sort place_le (filter (λ t, wanted schema status t = true) (all_tenants g)).

Section reconcile.
Context `{Invalidator} `{Site} `{Upstream}.

Definition _tenants (schema : option string) (status : option Status) : M (list TenantObj) :=
  select "default" (λ v, _tenants_of (v_reg v) schema status).

Definition _pending_state (holders : gmap Z LeaseHolder) (t : TenantObj) : M (bool * string) :=
  let h := holders !! o_pk t in
  let check :=
    s <-! shard_session_active (o_alias t) (o_pk t) ;;
    let lease := if h then "lease expired" else "no lease" in
    ret (match s with
         | Some s => (false, "in progress (" +:+ lease +:+ ", backend pid " +:+ py_int (ss_pid s) +:+ " still active)")
         | None => (true, "stuck (" +:+ lease +:+ ", no active backend)")
         end) in
  match h with
  | Some h => if negb (lh_expired h) then ret (false, "in progress (lease " +:+ lh_owner h +:+ ")") else check
  | None => check
  end.

(** ** --check *)

Record CheckState := mkCheck {
  ck_problems : list string;
  ck_behind : nat;
  ck_missing : nat;
  ck_unreachable : list string;     (** a set *)
}.

Definition older_problem : string :=
  "code_older_than_db: public holds migrations this code does not know, applied by a newer release — deploy the newer code".
Definition public_problem (n : nat) : string :=
  "public: " +:+ py_int (Z.of_nat n) +:+ " migration(s) behind — run `migrate_schemas --shared`".
Definition unreachable_problem (alias : string) (e : exn) : string :=
  py_rstrip ("shard " +:+ alias +:+ " unreachable: " +:+ eo_str (x_obj e)).
Definition missing_problem (t : TenantObj) : string :=
  o_schema t +:+ " (" +:+ o_alias t +:+ "): ACTIVE but its schema is missing".
Definition behind_problem (t : TenantObj) (b : nat) : string :=
  let hint := if sh_is_active (o_shard t) then ""
              else "; shard " +:+ o_alias t +:+ " is inactive, so `--tenant` skips it" in
  o_schema t +:+ " (" +:+ o_alias t +:+ "): " +:+ py_int (Z.of_nat b) +:+ " migration(s) behind — run `migrate_schemas -s "
  +:+ o_schema t +:+ "`" +:+ hint.

Definition add_problem (p : string) (s : CheckState) : CheckState :=
  mkCheck (ck_problems s ++ [p]) (ck_behind s) (ck_missing s) (ck_unreachable s).

Definition check_one (t : TenantObj) (s : CheckState) : M CheckState :=
  if mem (o_alias t) (ck_unreachable s) then ret s
  else
    b <-! catch (b <-! behind t ;; ret (Ok b)) (λ e, if is_conn_error e then ret (Err e) else raise e) ;;
    ret (match b with
         | Err e => let s1 := add_problem (unreachable_problem (o_alias t) e) s in
                    mkCheck (ck_problems s1) (ck_behind s1) (ck_missing s1) (o_alias t :: ck_unreachable s1)
         | Ok None => let s1 := add_problem (missing_problem t) s in
                      mkCheck (ck_problems s1) (ck_behind s1) (S (ck_missing s1)) (ck_unreachable s1)
         | Ok (Some 0) => s
         | Ok (Some b) => let s1 := add_problem (behind_problem t b) s in
                          mkCheck (ck_problems s1) (S (ck_behind s1)) (ck_missing s1) (ck_unreachable s1)
         end).

Fixpoint check_active (ts : list TenantObj) (s : CheckState) : M CheckState :=
  match ts with
  | [] => ret s
  | t :: ts' => s1 <-! check_one t s ;; check_active ts' s1
  end.

Definition stuck_warning (t : TenantObj) (why : string) : string :=
  "WARN stuck PENDING " +:+ o_schema t +:+ " (" +:+ o_alias t +:+ "): " +:+ why.

(** The warnings on stuck PENDING tenants. *)
Fixpoint check_pending (holders : gmap Z LeaseHolder) (ts : list TenantObj) : M (list string) :=
  match ts with
  | [] => ret []
  | t :: ts' =>
      sw <-! catch (_pending_state holders t)
               (λ e, if is_conn_error e then ret (true, "unknown (shard " +:+ o_alias t +:+ " unreachable)") else raise e) ;;
      rest <-! check_pending holders ts' ;;
      ret (if sw.1 : bool then stuck_warning t sw.2 :: rest else rest)
  end.

Definition summary_line (n_active : nat) (s : CheckState) (n_stuck : nat) : string :=
  "checked_active=" +:+ py_int (Z.of_nat n_active) +:+ " behind=" +:+ py_int (Z.of_nat (ck_behind s)) +:+ " missing="
  +:+ py_int (Z.of_nat (ck_missing s)) +:+ " pending_stuck=" +:+ py_int (Z.of_nat n_stuck) +:+ " unreachable_shards="
  +:+ list_repr (merge_sort str_le (ck_unreachable s)).

(** What is read of [default] first. *)
Definition check_default : M (list string * list TenantObj * list TenantObj) :=
  older <-! code_older_than_db ;;
  plan <-! public_plan ;;
  active <-! _tenants None (Some ACTIVE) ;;
  pending <-! _tenants None (Some PENDING) ;;
  ret ((if older : bool then [older_problem] else []) ++ (match plan with [] => [] | _ => [public_problem (length plan)] end),
       active, pending).

Definition _check (holders : gmap Z LeaseHolder) : M (list string * option string) :=
  first_ <-! catch check_default
              (λ e, if is_conn_error e
                    then raise (command_error ("reconcile_tenants --check: default unreachable: " +:+ eo_str (x_obj e)))
                    else raise e) ;;
  let '(problems, active, pending) := first_ in
  s <-! check_active active (mkCheck problems 0 0 []) ;;
  warnings <-! check_pending holders pending ;;
  let lines := warnings ++ ((λ p, "FAIL " +:+ p) <$> ck_problems s) ++ [summary_line (length active) s (length warnings)] in
  match ck_problems s with
  | [] => ret (lines ++ ["OK"], None)
  | ps => ret (lines, Some ("reconcile_tenants --check: " +:+ py_int (Z.of_nat (length ps)) +:+ " problem(s)."))
  end.

(** ** --report *)

Definition report_header : string :=
  ljust "SCHEMA" 24 +:+ " " +:+ ljust "SHARD" 10 +:+ " " +:+ ljust "STATUS" 12 +:+ " " +:+ ljust "BEHIND" 10 +:+ " "
  +:+ ljust "LEASE" 44 +:+ " NEXT".

Definition _lease_text (holders : gmap Z LeaseHolder) (key : Z) : res exn string :=
  match holders !! key with
  | None => Ok "-"
  | Some h => since <-? stamp_text (lh_since h) ;;
              Ok (lh_owner h +:+ " since " +:+ since +:+ (if lh_expired h then " EXPIRED" else ""))
  end.

Definition _row (holders : gmap Z LeaseHolder) (schema shard status behind : string) (key : Z) (next_ : string)
    (notes : list string) (plan : list Mig) : res exn (list string) :=
  lease <-? _lease_text holders key ;;
  Ok ((ljust schema 24 +:+ " " +:+ ljust shard 10 +:+ " " +:+ ljust status 12 +:+ " " +:+ ljust behind 10 +:+ " "
       +:+ ljust lease 44 +:+ " " +:+ next_)
      :: ((λ n, ljust "" 24 +:+ " " +:+ n) <$> notes)
      ++ ((λ m, ljust "" 24 +:+ "   - " +:+ m.1 +:+ "." +:+ m.2) <$> plan)).

Fixpoint lease_sessions (aliases : list string) (key : Z) (target : string) : M string :=
  match aliases with
  | [] => ret ("migration_lease --release " +:+ target +:+ ", then rerun")
  | alias :: aliases' =>
      s <-! shard_session_active alias key ;;
      match s with
      | Some s => ret ("wait: lease expired, backend pid " +:+ py_int (ss_pid s) +:+ " on " +:+ alias +:+ " still active")
      | None => lease_sessions aliases' key target
      end
  end.

Definition _lease_next (h : LeaseHolder) (key : Z) (target : string) (aliases : list string) : M string :=
  if negb (lh_expired h) then ret ("wait: migration in progress (" +:+ lh_owner h +:+ ")")
  else lease_sessions aliases key target.

Definition _public_row (holders : gmap Z LeaseHolder) (names : bool) : M (list string) :=
  plan <-! catch (p <-! public_plan ;; ret (Ok p)) (λ e, if is_conn_error e then ret (Err e) else raise e) ;;
  match plan with
  | Err e => lift (_row holders "public" "default" "-" "?" 0 "default unreachable" [eo_str (x_obj e)] [])
  | Ok plan =>
      nxt <-! (match holders !! 0%Z with
               | Some h => _lease_next h 0 "shared" ["default"]
               | None => ret (match plan with [] => "-" | _ => "migrate_schemas --shared" end)
               end) ;;
      lift (_row holders "public" "default" "-" (py_int (Z.of_nat (length plan))) 0 nxt [] (if names then plan else []))
  end.

Definition _next (holders : gmap Z LeaseHolder) (t : TenantObj) (plan : option (list Mig)) (invalid : list string) : M string :=
  let schema := o_schema t in
  match holders !! o_pk t with
  | Some h => _lease_next h (o_pk t) schema [o_alias t]
  | None =>
      ret (if bool_decide (o_status t = FAILED) then "admin: FAILED → NEW (see last_error)"
           else if bool_decide (o_status t = MAINTENANCE) then
             "operator-owned: after the repair `migrate_schemas -s " +:+ schema +:+ " --maintenance`, then admin → ACTIVE"
           else if negb (bool_decide (invalid = [])) then
             "DROP INDEX CONCURRENTLY each INVALID index, then `migrate_schemas -s " +:+ schema +:+ "`"
           else match plan with
                | None =>
                    if mem (o_status t) PROVISIONABLE then "migrate_schemas -s " +:+ schema
                    else "schema missing: restore it (runbook §19, via MAINTENANCE); `migrate_schemas -s " +:+ schema
                         +:+ "` would mark it FAILED schema_missing"
                | Some p =>
                    if negb (bool_decide (p = [])) || mem (o_status t) PROVISIONABLE then "migrate_schemas -s " +:+ schema
                    else "-"
                end)
  end.

(** The [try] of [_tenant_row]: behind, plan, invalid indexes, notes, next step. *)
Definition row_reads (holders : gmap Z LeaseHolder) (t : TenantObj) :
    M (option (list Mig) * list string * list string * string) :=
  p <-! pending_plan t ;;
  invalid <-! (if p then invalid_indexes (o_alias t) (o_schema t) else ret []) ;;
  notes <-! (if bool_decide (o_status t = PENDING)
             then sw <-! _pending_state holders t ;; ret ["PENDING " +:+ sw.2] else ret []) ;;
  nxt <-! _next holders t p invalid ;;
  ret (p, invalid, notes, nxt).

Definition error_note (t : TenantObj) : res exn (list string) :=
  if bool_decide (o_status t = FAILED) && negb (String.eqb (t_last_error (o_tenant t)) "")
  then l <-? last_line (t_last_error (o_tenant t)) ;; Ok ["last_error: " +:+ l]
  else Ok [].

(** The lines of a tenant and the unreachable shards after it. *)
Definition _tenant_row (holders : gmap Z LeaseHolder) (t : TenantObj) (names : bool) (unreachable : list string) :
    M (list string * list string) :=
  let row behind next_ notes plan :=
    lift (_row holders (o_schema t) (o_alias t) (status_value (o_status t)) behind (o_pk t) next_ notes plan) in
  if mem (o_alias t) unreachable then
    lines <-! row "?" "shard unreachable" [] [] ;; ret (lines, unreachable)
  else
    r <-! catch (x <-! row_reads holders t ;; ret (Ok x)) (λ e, if is_conn_error e then ret (Err e) else raise e) ;;
    match r with
    | Err e => lines <-! row "?" "shard unreachable" [py_strip (eo_str (x_obj e))] [] ;; ret (lines, o_alias t :: unreachable)
    | Ok (p, invalid, notes, nxt) =>
        note <-! lift (error_note t) ;;
        let notes := notes ++ (match invalid with [] => [] | _ => ["INVALID indexes: " +:+ String.concat ", " invalid] end) ++ note in
        lines <-! row (match p with None => "no schema" | Some p => py_int (Z.of_nat (length p)) end) nxt notes
                    (if names then default [] p else []) ;;
        ret (lines, unreachable)
    end.

Fixpoint tenant_rows (holders : gmap Z LeaseHolder) (names : bool) (ts : list TenantObj) (unreachable : list string) : M (list string) :=
  match ts with
  | [] => ret []
  | t :: ts' =>
      r <-! _tenant_row holders t names unreachable ;;
      rest <-! tenant_rows holders names ts' r.2 ;;
      ret (r.1 ++ rest)
  end.

Definition given (s : option string) : option string := match s with Some EmptyString => None | _ => s end.

Definition _report (holders : gmap Z LeaseHolder) (schema : option string) (only_pending names : bool) : M (list string) :=
  tenants <-! _tenants (given schema) (if only_pending then Some PENDING else None) ;;
  match given schema, tenants with
  | Some s, [] => raise (command_error ("Tenant " +:+ py_repr s +:+ " not found"
                    +:+ (if only_pending then " (or not PENDING)" else "") +:+ "."))
  | _, _ =>
      pub <-! (if is_none (given schema) && negb only_pending then _public_row holders names else ret []) ;;
      rows <-! tenant_rows holders names tenants [] ;;
      ret (report_header :: pub ++ rows)
  end.

(** [handle]: the lines and, for --check, the error it ends with. *)
Definition reconcile_handle (check : bool) (schema : option string) (only_pending plan : bool) :
    M (list string * option string) :=
  if check && (negb (is_none (given schema)) || only_pending || plan) then
    raise (command_error "-s, --only-pending and --plan go only with --report.")
  else
    holders <-! catch lease_holders
                  (λ e, if is_conn_error e then raise (command_error ("default unreachable: " +:+ eo_str (x_obj e))) else raise e) ;;
    if check then _check holders
    else lines <-! _report holders schema only_pending plan ;; ret (lines, None).

End reconcile.
