(* ===== verification/ReconcileFacts.v ===== *)
(** * What reconcile_tenants does

    It never writes; and in an undisturbed run the deploy gate passes exactly
    when public and every ACTIVE tenant are up to date. *)
From S2P Require Import Prelude PyStr Models PyExc Logs World Lease Schema Trace Migrator Quiet MigratorRun.
From S2P Require Import Requests ModelMethods Console LifecycleFacts ConsoleFacts LeaseCommand Reconcile.
Open Scope tenants_scope.

(** ** Read-only *)

Section reads.
Context `{Invalidator} `{Site} `{Upstream} (R : World → World → Prop) `{!StepRel R}.

Lemma steps_public_plan : steps R public_plan.
Proof. unfold public_plan, set_schema_to_public, executor_plan. steps_solve. Qed.
Lemma steps_invalid a s : steps R (invalid_indexes a s).
Proof. unfold invalid_indexes. steps_solve. Qed.
Lemma steps_lease_holders : steps R lease_holders.
Proof. unfold lease_holders. steps_solve. Qed.
Lemma steps_behind t : steps R (behind t).
Proof. unfold behind. steps_solve. Qed.

End reads.

#[export] Hint Resolve steps_public_plan steps_invalid steps_lease_holders steps_behind : steps.

Section commands.
Context `{Invalidator} `{Site} `{Upstream} (R : World → World → Prop) `{!StepRel R}.

Lemma steps_pending_state holders t : steps R (_pending_state holders t).
Proof. unfold _pending_state. cbv zeta. steps_solve. Qed.

Lemma steps_lease_next h key target aliases : steps R (_lease_next h key target aliases).
Proof. unfold _lease_next. steps_solve. induction aliases as [|a l IH]; simpl; steps_solve. Qed.

Lemma steps_check_active ts s : steps R (check_active ts s).
Proof.
  revert s. induction ts as [|t ts IH]; intros s; simpl; [steps_solve|].
  apply steps_bind; [exact _| |intros; apply IH]. unfold check_one. steps_solve.
Qed.

Lemma steps_check_pending holders ts : steps R (check_pending holders ts).
Proof. induction ts as [|t ts IH]; simpl; steps_solve. apply steps_pending_state. Qed.

Lemma steps_check holders : steps R (_check holders).
Proof. unfold _check, check_default, _tenants. steps_solve; [apply steps_check_active|apply steps_check_pending]. Qed.

Lemma steps_public_row holders names : steps R (_public_row holders names).
Proof. unfold _public_row. steps_solve. apply steps_lease_next. Qed.

Lemma steps_tenant_row holders t names u : steps R (_tenant_row holders t names u).
Proof.
  unfold _tenant_row, row_reads, _next. cbv zeta. steps_solve; [apply steps_pending_state|apply steps_lease_next].
Qed.

Lemma steps_tenant_rows holders names ts u : steps R (tenant_rows holders names ts u).
Proof. revert u. induction ts as [|t ts IH]; intros u; simpl; steps_solve; apply steps_tenant_row. Qed.

Lemma steps_report holders schema only_pending names : steps R (_report holders schema only_pending names).
Proof.
  unfold _report, _tenants. apply steps_bind; [exact _|steps_solve|]. intros ts.
  repeat case_match; steps_solve; auto using steps_public_row, steps_tenant_rows.
Qed.

Lemma steps_handle check schema only_pending plan : steps R (reconcile_handle check schema only_pending plan).
Proof. unfold reconcile_handle. steps_solve; [apply steps_check|apply steps_report]. Qed.

End commands.

(** For any interleaving and any failure, --check and
    --report leave the servers exactly as the other clients made them. *)
Theorem reconcile_never_writes `{Invalidator} `{Site} `{Upstream} check schema only_pending plan w :
  env_only w (reconcile_handle check schema only_pending plan w).2.
Proof. apply steps_handle, _. Qed.

(** ** Programs that keep the set of configured aliases *)

Create HintDb steady.

Section steady.
Context `{Invalidator}.

Definition same_aliases (w w' : World) : Prop := ∀ a, is_Some (w_conns w' !! a) ↔ is_Some (w_conns w !! a).
Definition steady {A} (m : M A) : Prop := ∀ w, same_aliases w (m w).2.

Lemma aliases_trans w1 w2 w3 : same_aliases w1 w2 → same_aliases w2 w3 → same_aliases w1 w3.
Proof. intros Q1 Q2 a. by rewrite (Q2 a), (Q1 a). Qed.

Lemma aliases_alter f a w : same_aliases w (upd_conns (alter f a) w).
Proof. intros b. simpl. by rewrite lookup_alter_is_Some. Qed.

Lemma steady_pure {A} (m : M A) : (∀ w, w_conns (m w).2 = w_conns w) → steady m.
Proof. intros Hm w a. by rewrite Hm. Qed.

Lemma steady_ret {A} (a : A) : steady (ret a).
Proof. by apply steady_pure. Qed.
Lemma steady_raise {A} e : steady (raise e : M A).
Proof. by apply steady_pure. Qed.
Lemma steady_event : steady next_event.
Proof. apply steady_pure. intros w. unfold next_event. by case_match. Qed.
Lemma steady_connection a : steady (connection a).
Proof. apply steady_pure. intros w. unfold connection. by case_match. Qed.
Lemma steady_set_conn a f : steady (set_conn a f).
Proof. intros w. apply aliases_alter. Qed.
Lemma steady_set_raw a f : steady (set_raw a f).
Proof. intros w. apply aliases_alter. Qed.

Lemma steady_bind {A B} (m : M A) (k : A → M B) : steady m → (∀ a, steady (k a)) → steady (bind m k).
Proof.
  intros Hm Hk w. unfold bind. specialize (Hm w). destruct (m w) as [[a|e] w1]; [|done].
  eapply aliases_trans; [exact Hm|apply Hk].
Qed.

Lemma steady_catch {A} (m : M A) h : steady m → (∀ e, steady (h e)) → steady (catch m h).
Proof.
  intros Hm Hh w. unfold catch. specialize (Hm w). destruct (m w) as [[a|e] w1]; [done|].
  destruct (is_exception e); [|done]. specialize (Hh e w1). destruct (h e w1) as [[a|e2] w2]; by eapply aliases_trans.
Qed.

Lemma steady_finally {A} (m : M A) f : steady m → steady f → steady (finally m f).
Proof.
  intros Hm Hf w. unfold finally. specialize (Hm w). destruct (m w) as [r w1]. specialize (Hf w1).
  destruct (f w1) as [[u|e] w2]; by eapply aliases_trans.
Qed.

Lemma steady_round_trip {A} a (f : Srv → res exn A * Srv * list Action) : steady (round_trip a f).
Proof.
  apply steady_bind; [apply steady_event|]. intros ev w. destruct (f (w_srv w)) as [[r v] acts].
  destruct (ev_fault ev); [destruct (ev_applied ev)|destruct r]; intros b; simpl; by rewrite ?lookup_alter_is_Some.
Qed.

Lemma steady_ensure a : steady (ensure_connection a).
Proof.
  apply steady_bind; [apply steady_connection|]. intros c. case_match; [apply steady_ret|].
  apply steady_bind; [apply steady_event|]. intros ev. case_match; [apply steady_raise|apply steady_set_conn].
Qed.

Lemma steady_query {A} a (f : Srv → res exn A * Srv * list Action) : steady (query a f).
Proof. apply steady_bind; [apply steady_ensure|intros; apply steady_round_trip]. Qed.
Lemma steady_select {A} a (f : Srv → A) : steady (select a f).
Proof. apply steady_query. Qed.

Lemma steady_close a : steady (close a).
Proof.
  apply steady_bind; [apply steady_connection|]. intros c. apply steady_bind; [|intros; apply steady_set_conn].
  case_match; [by apply steady_pure|apply steady_ret].
Qed.

End steady.

#[export] Hint Resolve steady_ret steady_raise steady_connection steady_set_conn steady_set_raw steady_query steady_select
  steady_round_trip steady_close steady_ensure : steady.

Ltac steady_solve := repeat
  lazymatch goal with
  | |- steady (bind _ _) => apply steady_bind; [|intros ?]
  | |- steady (catch _ _) => apply steady_catch; [|intros ?]
  | |- steady (finally _ _) => apply steady_finally
  | |- steady (match ?x with _ => _ end) => destruct x
  | |- steady _ => solve [eauto 2 with steady]
  end.

(** ** Undisturbed runs over several shards *)

Section check.
Context `{Invalidator} `{Site} `{Upstream}.

(** Every configured connection is idle, and nothing interferes. *)
Definition AllQuiet (q : View) (w : World) : Prop :=
  is_Some (w_conns w !! "default") ∧ ∀ a, is_Some (w_conns w !! a) → St a q w.

Definition truns {A} (conf : string → Prop) (m : M A) (q : View) (r : res exn A) : Prop :=
  ∀ w, AllQuiet q w → (∀ a, conf a → is_Some (w_conns w !! a)) →
    ∃ w', m w = (r, w') ∧ AllQuiet q w' ∧ (∀ a, conf a → is_Some (w_conns w' !! a)).

Context (conf : string → Prop).

Lemma truns_bind {A B} (m : M A) (k : A → M B) q a r :
  truns conf m q (Ok a) → truns conf (k a) q r → truns conf (bind m k) q r.
Proof.
  intros Hm Hk w Hw Hc. destruct (Hm w Hw Hc) as (w1 & E & Hw1 & Hc1).
  destruct (Hk w1 Hw1 Hc1) as (w2 & E2 & Q). exists w2. unfold bind. by rewrite E.
Qed.

Lemma truns_ret {A} (a : A) q : truns conf (ret a) q (Ok a).
Proof. intros w Hw Hc. by exists w. Qed.

Lemma truns_catch {A} (m : M A) h q a : truns conf m q (Ok a) → truns conf (catch m h) q (Ok a).
Proof. intros Hm w Hw Hc. destruct (Hm w Hw Hc) as (w' & E & Q). exists w'. unfold catch. by rewrite E. Qed.

(** A run on one shard that keeps the aliases is a run over all of them. *)
Lemma truns_one {A} alias (m : M A) q r :
  alias = "default" ∨ conf alias → steady m → runs alias m q r q → truns conf m q r.
Proof.
  intros Ha Hm Hr w [Hd Hw] Hc. destruct (Hr w) as (w' & E & Hw').
  { apply Hw. destruct Ha as [->|Ha]; [done|by apply Hc]. }
  specialize (Hm w). rewrite E in Hm. simpl in Hm. exists w'. split; [done|]. split; [split; [by apply Hm|]|].
  - intros b Hb. destruct Hw' as [S1 S2 S3 S4 S5 S6 S7]. by split.
  - intros b Hb. by apply Hm, Hc.
Qed.

Lemma truns_read {A} (f : Srv → A) q : truns conf (select "default" f) q (Ok (f (q_srv q))).
Proof. apply (truns_one "default"); [by left|apply steady_select|]. apply runs_select. by left. Qed.

Lemma steady_fresh : steady _fresh.
Proof. unfold _fresh. steady_solve. Qed.
Lemma steady_reset a r : steady (_reset_session a r).
Proof. unfold _reset_session. steady_solve. Qed.
Lemma steady_close_shard a : steady (_close_shard a).
Proof. unfold _close_shard, set_schema_to_public. steady_solve. apply steady_reset. Qed.

Lemma runs_public_plan q :
  runs "default" public_plan q (Ok (forward_plan (up_plan (db_of "default" (q_srv q)) "public"))) q.
Proof.
  unfold public_plan. eapply runs_bind; [apply runs_fresh|]. eapply runs_finally; [|by apply runs_close_shard; left].
  intros w Hw. destruct (runs_set_schema_raw "default" q "default" "public" true w Hw) as (w1 & E1 & Hw1).
  unfold set_schema_to_public, bind at 1. rewrite E1. unfold executor_plan, bind at 1.
  unfold set_conn, modify in E1. injection E1 as <-.
  destruct (st_default _ _ _ Hw) as [c Hc]. unfold connection. simpl. rewrite lookup_alter_eq, Hc. simpl.
  destruct (runs_select "default" "default" (λ v, up_plan (db_of "default" v) "public") q (or_introl eq_refl) _ Hw1)
    as (w2 & E2 & Hw2). unfold bind. simpl in E2. rewrite E2. by exists w2.
Qed.

Lemma truns_public_plan q :
  truns conf public_plan q (Ok (forward_plan (up_plan (db_of "default" (q_srv q)) "public"))).
Proof.
  apply (truns_one "default"); [by left| |apply runs_public_plan].
  unfold public_plan, set_schema_to_public, executor_plan. steady_solve; [apply steady_fresh|apply steady_close_shard].
Qed.

Lemma truns_code_older q :
  truns conf code_older_than_db q (Ok (older_than_db up_disk up_migrated_apps (applied_dict (g_applied (q_reg q))))).
Proof.
  apply (truns_one "default"); [by left| |apply runs_code_older].
  unfold code_older_than_db, set_schema_to_public. steady_solve. apply steady_fresh.
Qed.

Lemma truns_behind q t :
  conf (o_alias t) → truns conf (behind t) q (Ok (length <$> plan_of (db_of (o_alias t) (q_srv q)) (o_schema t))).
Proof.
  intros Hc. apply (truns_one (o_alias t)); [by right| |].
  - unfold behind, pending_plan, set_schema, executor_plan. steady_solve. apply steady_close_shard.
  - eapply runs_bind; [by apply runs_pending_plan|]. apply runs_ret.
Qed.

(** ** The gate *)

(** What is wrong with an ACTIVE tenant. *)
Definition tenant_problem (v : Srv) (t : TenantObj) : option string :=
  match plan_of (db_of (o_alias t) v) (o_schema t) with
  | None => Some (missing_problem t)
  | Some [] => None
  | Some p => Some (behind_problem t (length p))
  end.

Definition default_problems (v : Srv) : list string :=
  (if older_than_db up_disk up_migrated_apps (applied_dict (g_applied (v_reg v))) then [older_problem] else [])
  ++ (let plan := forward_plan (up_plan (db_of "default" v) "public") in
      match plan with [] => [] | _ => [public_problem (length plan)] end).

Definition actives (g : Registry) : list TenantObj := _tenants_of g None (Some ACTIVE).
Definition pendings (g : Registry) : list TenantObj := _tenants_of g None (Some PENDING).

Definition gate_problems (v : Srv) : list string := default_problems v ++ omap (tenant_problem v) (actives (v_reg v)).

(** Up to date: the specification of the gate. *)
Definition up_to_date (v : Srv) : Prop :=
  older_than_db up_disk up_migrated_apps (applied_dict (g_applied (v_reg v))) = false
  ∧ forward_plan (up_plan (db_of "default" v) "public") = []
  ∧ ∀ t, t ∈ actives (v_reg v) → plan_of (db_of (o_alias t) v) (o_schema t) = Some [].

Lemma gate_problems_none v : gate_problems v = [] ↔ up_to_date v.
Proof.
  unfold gate_problems, default_problems, up_to_date. rewrite !app_nil. split.
  - intros [[E1 E2] E3]. split; [by destruct (older_than_db _ _ _)|]. split; [by destruct (forward_plan _)|]. intros t Ht.
    assert (tenant_problem v t = None) as Hn.
    { destruct (tenant_problem v t) as [p|] eqn:E; [|done]. assert (p ∈ []) as []%not_elem_of_nil. rewrite <- E3.
      apply list_elem_of_omap. eauto. }
    unfold tenant_problem in Hn. repeat case_match; done.
  - intros (-> & -> & Ha). split; [done|]. induction (actives (v_reg v)) as [|t ts IH]; [done|]. simpl.
    unfold tenant_problem at 1. rewrite (Ha t) by (by left). apply IH. intros. apply Ha. by right.
Qed.

(** The ACTIVE tenants that are behind, and those without a schema. *)
Definition is_behind (v : Srv) (t : TenantObj) : bool :=
  match plan_of (db_of (o_alias t) v) (o_schema t) with Some (_ :: _) => true | _ => false end.
Definition is_missing (v : Srv) (t : TenantObj) : bool :=
  match plan_of (db_of (o_alias t) v) (o_schema t) with None => true | _ => false end.
Definition count (p : TenantObj → bool) (ts : list TenantObj) : nat := length (filter (λ t, p t = true) ts).

Lemma count_cons p t ts : count p (t :: ts) = (if p t then 1 else 0) + count p ts.
Proof. unfold count. rewrite filter_cons. destruct (p t) eqn:E; [by rewrite decide_True|by rewrite decide_False]. Qed.

(** The state of the loop after it has seen [ts]. *)
Definition seen (v : Srv) (ts : list TenantObj) (s : CheckState) : CheckState :=
  mkCheck (ck_problems s ++ omap (tenant_problem v) ts) (ck_behind s + count (is_behind v) ts)
    (ck_missing s + count (is_missing v) ts) [].

Lemma truns_check_one q t s :
  conf (o_alias t) → ck_unreachable s = [] → truns conf (check_one t s) q (Ok (seen (q_srv q) [t] s)).
Proof.
  intros Hc Hu. unfold check_one. rewrite Hu. simpl.
  eapply truns_bind; [apply truns_catch; eapply truns_bind; [by apply truns_behind|apply truns_ret]|].
  unfold seen. rewrite !count_cons. unfold count, is_behind, is_missing. simpl. unfold tenant_problem.
  destruct s as [ps b m us]. simpl in Hu. subst us.
  destruct (plan_of _ _) as [[|x p]|]; simpl; unfold add_problem; simpl; rewrite ?app_nil_r, ?Nat.add_0_r, ?Nat.add_1_r; apply truns_ret.
Qed.

Lemma truns_check_active q ts s :
  Forall (λ t, conf (o_alias t)) ts → ck_unreachable s = [] → truns conf (check_active ts s) q (Ok (seen (q_srv q) ts s)).
Proof.
  intros Hts. revert s. induction Hts as [|t ts Ht _ IH]; intros s Hu; simpl.
  - unfold seen, count. simpl. rewrite app_nil_r, !Nat.add_0_r. destruct s. simpl in Hu. subst. apply truns_ret.
  - eapply truns_bind; [by apply truns_check_one|]. specialize (IH (seen (q_srv q) [t] s) eq_refl).
    replace (seen (q_srv q) (t :: ts) s) with (seen (q_srv q) ts (seen (q_srv q) [t] s)); [exact IH|].
    unfold seen. cbn [ck_problems ck_behind ck_missing]. f_equal.
    + simpl. destruct (tenant_problem _ t); simpl; by rewrite <- ?app_assoc, ?app_nil_r.
    + rewrite !count_cons. change (count _ []) with 0. lia.
    + rewrite !count_cons. change (count _ []) with 0. lia.
Qed.

Lemma truns_session q a key :
  conf a → truns conf (shard_session_active a key) q (Ok (session_active key (db_of a (q_srv q)))).
Proof.
  intros Hc. apply (truns_one a); [by right|unfold shard_session_active; steady_solve|].
  apply runs_session_active. by right.
Qed.

(** Why a PENDING tenant is stuck: nobody holds its lease, or it has expired, and no
    backend works on it. *)
Definition holders_of (g : Registry) : gmap Z LeaseHolder := omap (holder_row g) (g_leases g).
Definition stuck_line (v : Srv) (t : TenantObj) : option string :=
  match holders_of (v_reg v) !! o_pk t with
  | Some h =>
      if negb (lh_expired h) then None
      else if session_active (o_pk t) (db_of (o_alias t) v) then None
      else Some (stuck_warning t "stuck (lease expired, no active backend)")
  | None =>
      if session_active (o_pk t) (db_of (o_alias t) v) then None
      else Some (stuck_warning t "stuck (no lease, no active backend)")
  end.

Lemma truns_pending_state q t :
  conf (o_alias t) → ∃ x, truns conf (_pending_state (holders_of (q_reg q)) t) q (Ok x)
    ∧ stuck_line (q_srv q) t = if x.1 : bool then Some (stuck_warning t x.2) else None.
Proof.
  intros Hc. unfold _pending_state, stuck_line. cbv zeta. change (v_reg (q_srv q)) with (q_reg q).
  destruct (holders_of (q_reg q) !! o_pk t) as [h|]; [destruct (lh_expired h); simpl|].
  all: eexists; split; [first [apply truns_ret|eapply truns_bind; [by apply truns_session|apply truns_ret]]|].
  all: simpl; try done; by destruct (session_active _ _).
Qed.

Lemma truns_check_pending q ts :
  Forall (λ t, conf (o_alias t)) ts →
  truns conf (check_pending (holders_of (q_reg q)) ts) q (Ok (omap (stuck_line (q_srv q)) ts)).
Proof.
  induction 1 as [|t ts Ht _ IH]; simpl; [apply truns_ret|].
  destruct (truns_pending_state q t Ht) as (x & Hx & E).
  eapply truns_bind; [by apply truns_catch|]. eapply truns_bind; [exact IH|]. rewrite E. destruct (x.1); apply truns_ret.
Qed.

(** What the gate prints and the error it ends with. *)
Definition gate_warnings (v : Srv) : list string := omap (stuck_line v) (pendings (v_reg v)).
Definition gate_summary (v : Srv) : string :=
  summary_line (length (actives (v_reg v)))
    (mkCheck [] (count (is_behind v) (actives (v_reg v))) (count (is_missing v) (actives (v_reg v))) [])
    (length (gate_warnings v)).
Definition gate_lines (v : Srv) : list string :=
  gate_warnings v ++ ((λ p, "FAIL " +:+ p) <$> gate_problems v) ++ [gate_summary v]
  ++ (if gate_problems v is [] then ["OK"] else []).
Definition gate_error (v : Srv) : option string :=
  match gate_problems v with
  | [] => None
  | ps => Some ("reconcile_tenants --check: " +:+ py_int (Z.of_nat (length ps)) +:+ " problem(s).")
  end.

End check.

Lemma truns_holders `{Invalidator} `{Site} conf q : truns conf lease_holders q (Ok (holders_of (q_reg q))).
Proof.
  apply (truns_one conf "default"); [by left|unfold lease_holders; steady_solve; apply steady_fresh|].
  eapply runs_bind; [apply runs_fresh|]. apply (runs_select "default" "default" (λ v, holders_of (v_reg v)) q). by left.
Qed.

(** C17: in an undisturbed run, with every database reachable and the shards of the
    ACTIVE and PENDING tenants configured, the deploy gate prints exactly: a warning
    per stuck PENDING tenant, one FAIL line per problem (code older than the database,
    public behind, each ACTIVE business tenant without its schema or behind), the
    summary with their numbers, and OK when there is no problem; it ends without an
    error exactly when the code is not older, public has nothing to apply, and every
    ACTIVE business tenant has its schema with nothing to apply.  Nothing on the
    servers changes. *)
Theorem check_exact `{Invalidator} `{Site} `{Upstream} w :
  AllQuiet (view_of w) w →
  (∀ t, t ∈ actives (v_reg (w_srv w)) ++ pendings (v_reg (w_srv w)) → is_Some (w_conns w !! o_alias t)) →
  ∃ w', reconcile_handle true None false false w = (Ok (gate_lines (w_srv w), gate_error (w_srv w)), w')
    ∧ w_srv w' = w_srv w
    ∧ (gate_error (w_srv w) = None ↔ up_to_date (w_srv w)).
Proof.
  intros Hq Hc. set (conf := λ a, is_Some (w_conns w !! a)). set (q := view_of w).
  assert (truns conf (check_active (actives (q_reg q)) (mkCheck (default_problems (q_srv q)) 0 0 [])) q
    (Ok (seen (q_srv q) (actives (q_reg q)) (mkCheck (default_problems (q_srv q)) 0 0 [])))) as Ra.
  { apply truns_check_active; [|done]. apply Forall_forall. intros t Ht. apply Hc. apply elem_of_app. by left. }
  assert (truns conf (check_pending (holders_of (q_reg q)) (pendings (q_reg q))) q (Ok (gate_warnings (q_srv q)))) as Rp.
  { apply truns_check_pending. apply Forall_forall. intros t Ht. apply Hc. apply elem_of_app. by right. }
  assert (truns conf check_default q (Ok (default_problems (q_srv q), actives (q_reg q), pendings (q_reg q)))) as Rd.
  { unfold check_default. eapply truns_bind; [apply truns_code_older|]. eapply truns_bind; [apply truns_public_plan|].
    eapply truns_bind; [apply truns_read|]. eapply truns_bind; [apply truns_read|]. apply truns_ret. }
  assert (truns conf (reconcile_handle true None false false) q (Ok (gate_lines (w_srv w), gate_error (w_srv w)))) as R.
  { eapply truns_bind; [apply truns_catch, truns_holders|]. eapply truns_bind; [by apply truns_catch|].
    eapply truns_bind; [exact Ra|]. eapply truns_bind; [exact Rp|]. unfold gate_lines, gate_error.
    change (ck_problems (seen _ _ _)) with (gate_problems (w_srv w)). change (q_srv q) with (w_srv w).
    destruct (gate_problems (w_srv w)) as [|p ps]; simpl; rewrite <- ?app_assoc; apply truns_ret. }
  destruct (R w Hq (λ a Ha, Ha)) as (w' & E & [Hd Hw'] & _). exists w'. rewrite <- gate_problems_none.
  split; [exact E|]. split; [destruct (Hw' "default" Hd); by rewrite st_srv|].
  unfold gate_error. by destruct (gate_problems _).
Qed.
