(* ===== verification/MigrateCommand.v ===== *)
(** * The migrate_schemas command

    The rest of src/tenants/management/commands/migrate_schemas.py: validation of
    the options, the stages of a run, both loops over the real [migrate_tenant]
    and over a worker pool, signals, and what [handle] reports and raises.  Upstream
    [SyncCommon.handle] hands over [Sync]; argparse's own checks come before.
    Streams and log files are left out of the model; the text of the summary is a
    function of the entries. *)
From S2P Require Import Prelude PyStr Models PyExc Logs World Lease Schema Migrator Scheduler.
From S2P Require Import ModelMethods Console LeaseCommand.
Open Scope tenants_scope.

(** What upstream's flag parsing sets on the command. *)
Record Sync := mkSync {
  sync_public : bool;
  sync_tenant : bool;
  schema_name : option string;
  executor : option string;
}.

(** The options [handle] is given; absent ones are [None]. *)
Record Options := mkOptions {
  op_tenant : bool;
  op_check_unapplied : bool;
  op_list : bool;
  op_plan : bool;
  op_jobs : option PyVal;
  op_jobs_per_shard : option PyVal;
  op_max_failures : option PyVal;
  op_keep_going : bool;
  op_maintenance : bool;
  op_summary_json : option string;
  op_database : option string;
  op_fake : bool;
  op_fake_initial : bool;
  op_prune : bool;
  op_run_syncdb : bool;
  op_app_label : option string;
  op_migration_name : option string;
  op_verbosity : Z;
}.

(** [settings] and the file system. *)
Record Env := mkEnv {
  TENANT_MIGRATE_JOBS : PyVal;
  TENANT_MIGRATE_JOBS_PER_SHARD : PyVal;
  env_databases : list string;
  env_parent : string → string;        (** [str(Path(path).resolve().parent)] *)
  env_writable : string → bool;        (** [is_dir()] and [os.access(W_OK)] *)
}.

Definition given_str (o : option string) : bool := match o with Some s => negb (String.eqb s "") | None => false end.

(** [any(options.get(k) for k in TARGETED_OPTIONS)]. *)
Definition TARGETED_OPTIONS : list string :=
  ["fake"; "fake_initial"; "prune"; "run_syncdb"; "app_label"; "migration_name"].
Definition targeted_options (o : Options) : bool :=
  op_fake o || op_fake_initial o || op_prune o || op_run_syncdb o || given_str (op_app_label o) || given_str (op_migration_name o).

(** ** [_validate] *)

Definition val_repr (v : PyVal) : string :=
  match v with
  | VNone => "None" | VBool true => "True" | VBool false => "False" | VInt n => py_int n | VStr s => py_repr s
  end.

(** [isinstance(v, int)] and not a [bool], and at least 1. *)
Definition positive_int (v : PyVal) : option Z :=
  match v with VInt n => if (n <? 1)%Z then None else Some n | _ => None end.

Definition check_positive (name : string) (v : PyVal) : res exn Z :=
  match positive_int v with
  | Some n => Ok n
  | None => Err (command_error (name +:+ " must be an integer >= 1 (got " +:+ val_repr v +:+ ")."))
  end.

(** What validation sets on the command. *)
Record Plan := mkPlan {
  pl_jobs : Z;
  pl_per_shard : Z;
  pl_max_failures : Z;
  pl_tenant : option TenantObj;
}.

Definition check_modes (sy : Sync) (o : Options) : res exn unit :=
  if op_check_unapplied o || op_list o then
    Err (command_error "migrate_schemas --check/--list is not supported; use `reconcile_tenants --check`.")
  else if op_plan o then
    Err (command_error "migrate_schemas --plan is not supported; use `reconcile_tenants --report --plan`.")
  else match executor sy with
       | None => Ok tt
       | Some x => if String.eqb x "standard" then Ok tt
                   else Err (command_error ("--executor=" +:+ py_repr x +:+ " is not supported: the migrator runs its own scheduler (--jobs / --jobs-per-shard)."))
       end.

Definition check_limits (env : Env) (o : Options) : res exn (Z * Z * Z) :=
  let jobs_given := negb (is_none (op_jobs o)) in
  jobs <-? check_positive "--jobs" (default (TENANT_MIGRATE_JOBS env) (op_jobs o)) ;;
  per_shard <-? check_positive "--jobs-per-shard" (default (TENANT_MIGRATE_JOBS_PER_SHARD env) (op_jobs_per_shard o)) ;;
  max_failures <-? check_positive "--max-failures" (default (VInt 3) (op_max_failures o)) ;;
  if (jobs <? per_shard)%Z then
    Err (command_error ("--jobs-per-shard (" +:+ py_int per_shard +:+ ") must not exceed --jobs (" +:+ py_int jobs
      +:+ (if jobs_given then "" else ", the TENANT_MIGRATE_JOBS default; pass --jobs as well") +:+ ")."))
  else Ok (jobs, per_shard, max_failures).

Definition check_paths (env : Env) (sy : Sync) (o : Options) : res exn unit :=
  if op_maintenance o && negb (given_str (schema_name sy)) then
    Err (command_error "--maintenance is allowed only together with -s <schema>.")
  else match op_summary_json o with
       | None => Ok tt
       | Some path =>
           if String.eqb path "-" then
             Err (command_error "--summary-json needs a file path; '-' (stdout) is not allowed: stdout carries the migration output.")
           else if negb (env_writable env (env_parent env path)) then
             Err (command_error ("--summary-json: folder " +:+ py_repr (env_parent env path) +:+ " does not exist or is not writable."))
           else Ok tt
       end.

Definition shard_by_alias (g : Registry) (alias : string) : option Shard :=
  ks ← list_find (λ ks, sh_alias ks.2 = alias) (map_to_list (g_shards g)); Some ks.2.2.

Section command.
Context `{Invalidator} `{Site} `{Upstream}.

Definition check_database (env : Env) (sy : Sync) (o : Options) : M unit :=
  match op_database o with
  | None | Some EmptyString => ret tt
  | Some db =>
      if negb (mem db (env_databases env)) then
        raise (command_error ("--database=" +:+ py_repr db +:+ " is not a configured database alias."))
      else if sync_tenant sy && negb (given_str (schema_name sy)) then
        shard <-! select "default" (λ v, shard_by_alias (v_reg v) db) ;;
        match shard with
        | None => raise (command_error ("--database=" +:+ py_repr db +:+ ": no Shard is registered for this alias (run `sync_shards`)."))
        | Some s =>
            if sh_is_default s then
              raise (command_error ("--database=" +:+ py_repr db +:+ ": the default shard holds only public, no tenants; for public use --shared."))
            else if negb (sh_is_active s) then
              raise (command_error ("--database=" +:+ py_repr db +:+ ": shard is inactive and --tenant skips inactive shards. "
                +:+ "Migrate its tenants one by one with -s <schema> (list them: reconcile_tenants --report)."))
            else ret tt
        end
      else ret tt
  end.

Definition check_target (sy : Sync) (o : Options) : M (option TenantObj) :=
  let targeted := targeted_options o in
  match schema_name sy with
  | None | Some EmptyString =>
      if targeted && (sync_tenant sy || negb (sync_public sy)) then
        raise (command_error ("Targeted flags (--fake, --fake-initial, --prune, --run-syncdb, app_label, migration_name) "
          +:+ "need exactly one target: -s <schema> or --shared."))
      else ret None
  | Some s =>
      t <-! select "default" (λ v, by_schema_name (v_reg v) s) ;;
      match t with
      | None => raise (command_error ("Tenant " +:+ py_repr s +:+ " not found."))
      | Some t =>
          if given_str (op_database o) && negb (bool_decide (op_database o = Some (o_alias t))) then
            raise (command_error ("--database=" +:+ py_repr (default "" (op_database o)) +:+ " does not match tenant " +:+ py_repr s
              +:+ " (its shard is " +:+ py_repr (o_alias t) +:+ ")."))
          else if targeted && mem (o_status t) PROVISIONABLE then
            raise (command_error ("Targeted flags (" +:+ String.concat ", " TARGETED_OPTIONS +:+ ") are not allowed for a "
              +:+ status_value (o_status t) +:+ " tenant: provisioning always applies every migration."))
          else ret (Some t)
      end
  end.

Definition _validate (env : Env) (sy : Sync) (o : Options) : M Plan :=
  lift (check_modes sy o) ;;;
  limits <-! lift (check_limits env o) ;;
  let '(jobs, per_shard, max_failures) := limits in
  lift (check_paths env sy o) ;;;
  check_database env sy o ;;;
  t <-! check_target sy o ;;
  ret (mkPlan jobs per_shard max_failures t).

Definition _run_options (o : Options) : RunOptions :=
  mkRunOptions (op_verbosity o) (op_fake o) (op_fake_initial o) (op_prune o) (op_run_syncdb o)
    (op_app_label o) (op_migration_name o) (op_maintenance o) None.

(** ** Runs

    The entries and the stop flag of the command; an operation returns how it
    ended beside them, since [handle] looks at them after an exception. *)
Record Run := mkRun { rn_entries : list Entry; rn_stop : option Stop }.

(** How an operation ended, as a value. *)
Definition attempt {A} (m : M A) : M (res exn A) := λ w, let '(r, w') := m w in (Ok r, w').

(** [_run_sequential]; [drain n] tells whether a signal was seen before iteration [n]. *)
Fixpoint _run_sequential (fuel n : nat) (drain : nat → bool) (opts : RunOptions) (s : SState) :
    M (option (res exn unit * SState)) :=
  match fuel with
  | O => ret None
  | S fuel' =>
      let s := if drain n then halt (mkStop by_signal None) false s else s in
      match next 1 1 s with
      | (None, s) => ret (Some (Ok tt, s))
      | (Some i, s) =>
          let s := upd_entries (alter (set_kind ERunning) i) s in
          r <-! attempt (migrate_tenant (default 0%Z (e ← s_entries s !! i; tg_tenant_id (e_target e))) opts) ;;
          match r with
          | Err e => ret (Some (Err e, s))
          | Ok r => _run_sequential fuel' (S n) drain opts (done_ i (upd_entries (alter (take_result r) i) s))
          end
      end
  end.

(** ** The worker pool

    One turn of the parent's loop sees: a drain request, a [submit] that raises
    (which one, and what: a pool that broke since the last turn, a fork that fails),
    the futures that completed and how, an exception in the rest of the turn (a
    report that cannot be written), and whether the pool broke: a future that raised
    [BrokenProcessPool], which stays running, and the results that still made it
    back. *)
Record Poll := mkPoll {
  po_drain : bool;
  po_submit : option (nat * exn);
  po_done : list (nat * res exn Result);
  po_raises : option exn;
  po_broke : option (nat * list (nat * Result));
}.

(** [while (e := stage.next(...)) is not None: submit]; the entry is marked before
    [submit], which puts it among the running ones. *)
Fixpoint submit_all (fuel : nat) (jobs per_shard : Z) (fails : option (nat * exn)) (p : Pool) : option exn * Pool :=
  match fuel with
  | O => (None, p)
  | S fuel' =>
      match next jobs per_shard (po_state p) with
      | (None, s) => (None, mkPool s (po_running p))
      | (Some i, s) =>
          let s := upd_entries (alter (set_kind ERunning) i) s in
          match fails with
          | Some (O, e) => (Some e, mkPool s (po_running p))
          | _ => submit_all fuel' jobs per_shard ((λ f, (Nat.pred f.1, f.2)) <$> fails) (mkPool s (po_running p ++ [i]))
          end
      end
  end.

(** A completed future of a running entry. *)
Definition complete (p : Pool) (d : nat * res exn Result) : Pool :=
  if bool_decide (d.1 ∈ po_running p)
  then mkPool (done_ d.1 (upd_entries (alter (collect d.2) d.1) (po_state p))) (remove_one d.1 (po_running p))
  else p.

(** After the pool broke: the late results count, the rest was cut off. *)
Definition cut_off (hard : bool) (lost : nat) (late : list (nat * Result)) (p : Pool) : SState * list nat :=
  let p1 := foldl complete p ((λ d, (d.1, Ok d.2)) <$> filter (λ d, d.1 ≠ lost) late) in
  let s := halt (mkStop (if hard then hard_stop else broken_pool) None) true (po_state p1) in
  (upd_entries (mark_all (po_running p1) (mark EInterrupted (Some HARD_STOP) (cut_msg hard))) s, po_running p1).

(** [_run_parallel]: how it ended - with the entries cut off, or with an exception
    raised in the loop, after which [finally] has killed the workers - and the state
    it left; [None] while it is still waiting. *)
Fixpoint _run_parallel (jobs per_shard : Z) (hard : bool) (polls : list Poll) (p : Pool) : option (res exn (list nat) * SState) :=
  match polls with
  | [] => None
  | poll :: polls' =>
      let s := if po_drain poll then halt (mkStop by_signal None) false (po_state p) else po_state p in
      let '(failed, p1) := submit_all (S (length (s_entries s))) jobs per_shard (po_submit poll) (mkPool s (po_running p)) in
      match failed with
      | Some e => Some (Err e, po_state p1)
      | None =>
          match po_running p1 with
          | [] => Some (Ok [], po_state p1)
          | _ =>
              let p2 := foldl complete p1 (po_done poll) in
              match po_raises poll with
              | Some e => Some (Err e, po_state p2)
              | None =>
                  match po_broke poll with
                  | Some (lost, late) =>
                      if bool_decide (lost ∈ po_running p2)
                      then let '(s, cut) := cut_off hard lost late p2 in Some (Ok cut, s)
                      else _run_parallel jobs per_shard hard polls' p2
                  | None => _run_parallel jobs per_shard hard polls' p2
                  end
              end
          end
      end
  end.

(** [_snapshots]: the database state of the targets cut off; another Ctrl-C ends it. *)
Definition set_snapshot (sn : Snap) (e : Entry) : Entry :=
  mkEntry (e_target e) (e_kind e) (e_reason e) (e_msg e) (e_secs e) (e_invalid_indexes e) (e_conn_error e)
    (e_rechecked e) (Some sn).

Definition is_ctrl_c (e : exn) : bool := bool_decide (eo_class (x_obj e) = KeyboardInterrupt).

Fixpoint _snapshots (is_ : list nat) (es : list Entry) : M (res exn unit * list Entry) :=
  match is_ with
  | [] => ret (Ok tt, es)
  | i :: is' =>
      r <-! attempt (snapshot (default 0%Z (e ← es !! i; tg_tenant_id (e_target e)))) ;;
      match r with
      | Ok sn => _snapshots is' (alter (set_snapshot sn) i es)
      | Err e => ret (if is_ctrl_c e then Ok tt else Err e, es)
      end
  end.

(** [_recheck_locked], with the entries it had changed when something escaped it. *)
Fixpoint recheck_each (es : list Entry) : M (res exn unit * list Entry) :=
  match es with
  | [] => ret (Ok tt, [])
  | e :: es' =>
      r <-! attempt (recheck_entry e) ;;
      match r with
      | Ok e' => x <-! recheck_each es' ;; ret (x.1, e' :: x.2)
      | Err x => ret (Err x, e :: es')
      end
  end.

(** ** The stages *)

(** What the process around the run does: whether it was started from the command
    line, whether a signal was seen before the tenant stage and before each
    iteration, whether a second one came, and how the pool behaves. *)
Record Outside := mkOutside {
  ou_cli : bool;
  ou_drain : nat → bool;
  ou_hard : bool;
  ou_polls : list Poll;
  ou_order : option (list TenantObj → list TenantObj);   (** [get_tenant_migration_order] *)
}.

(** [connections.close_all()]: the parent gives up its connections before the fork. *)
Definition close_all : M unit := λ w, each close (elements (dom (w_conns w))) w.

(** The tenant stage, from the selected targets on. *)
Definition tenant_stage (ou : Outside) (pl : Plan) (opts : RunOptions) (keep_going : bool) (base : list Entry)
    (targets : list Target) : M (option (res exn unit * Run)) :=
  let es := base ++ (new_entry <$> targets) in
  match targets with
  | [] => ret (Some (Ok tt, mkRun es None))
  | _ =>
      let stage := stage_of es (length base) keep_going (pl_max_failures pl) in
      let s0 := mkSState es stage in
      ended <-! (if (1 <? pl_jobs pl)%Z && (1 <? length targets)%nat && ou_cli ou then
                   close_all ;;;
                   match _run_parallel (pl_jobs pl) (pl_per_shard pl) (ou_hard ou) (ou_polls ou) (mkPool s0 []) with
                   | None => ret None
                   | Some (Err e, s) => ret (Some (Err e, s))
                   | Some (Ok cut, s) =>
                       r <-! _snapshots cut (s_entries s) ;;
                       ret (Some (r.1, mkSState r.2 (s_stage s)))
                   end
                 else _run_sequential (S (length es)) 0 (λ n, ou_drain ou (S n)) opts s0) ;;
      match ended with
      | None => ret None
      | Some (r, s) =>
          let run := mkRun (s_entries s) (st_stop (s_stage s)) in
          match r with
          | Err e => ret (Some (Err e, run))
          | Ok _ =>
              if targeted opts then ret (Some (Ok tt, run))
              else
                again <-! recheck_each (rn_entries run) ;;
                ret (Some (again.1, mkRun again.2 (rn_stop run)))
          end
      end
  end.

(** The shared stage: the entry of public after it. *)
Definition shared_entry : Entry := new_entry (mkTarget "shared" "public" "default" None None).

(** [_select_targets], with its error handling in [_run]. *)
Definition select_stage (pl : Plan) (o : Options) (order : option (list TenantObj → list TenantObj)) :
    M (res exn (option (list Target))) :=
  r <-! attempt (select "default" (λ v, _select_targets (v_reg v) (pl_tenant pl) (op_database o) order)) ;;
  ret (match r with
       | Ok ts => Ok (Some ts)
       | Err e => if is_exception e && is_conn_error e then Ok None else Err e
       end).

Definition _run (ou : Outside) (sy : Sync) (o : Options) (pl : Plan) (opts : RunOptions) :
    M (option (res exn unit * Run)) :=
  pub <-! (if sync_public sy then
             r <-! attempt (migrate_shared opts) ;;
             ret (match r with
                  | Ok res => (Ok tt, [take_result res (set_kind ERunning shared_entry)])
                  | Err e => (Err e, [set_kind ERunning shared_entry])
                  end)
           else ret (Ok tt, [])) ;;
  let '(r, es) := pub in
  match r with
  | Err e => ret (Some (Err e, mkRun es None))
  | Ok _ =>
      if negb (forallb (λ e, bool_decide (e_kind e = EOk)) es) then
        ret (Some (Ok tt, mkRun es (Some (mkStop shared_failed None))))
      else if negb (sync_tenant sy) then ret (Some (Ok tt, mkRun es None))
      else if ou_drain ou 0 then ret (Some (Ok tt, mkRun es (Some (mkStop by_signal None))))
      else
        ts <-! select_stage pl o (ou_order ou) ;;
        match ts with
        | Err e => ret (Some (Err e, mkRun es None))
        | Ok None => ret (Some (Ok tt, mkRun es (Some (mkStop default_unreachable None))))
        | Ok (Some targets) => tenant_stage ou pl opts (op_keep_going o) es targets
        end
  end.

(** ** [handle] *)

Record Report := mkReport { rp_code : Z; rp_run : Run }.

(** The report [handle] makes, if any, and the exception it raises, if any. *)
Record Ended := mkEnded { en_report : option Report; en_raises : option exn }.

Definition kind_count (k : EKind) (es : list Entry) : nat := length (filter (λ e, e_kind e = k) es).

Definition ekind_value (k : EKind) : string :=
  match k with
  | EOk => "ok" | ENoop => "noop" | EFailed => "failed" | ESkipped => "skipped" | ENotRun => "not_run"
  | EInterrupted => "interrupted" | ERunning => "running"
  end.

Definition _error_line (run : Run) : string :=
  let bad := omap (λ k, if (kind_count k (rn_entries run) =? 0)%nat then None
                        else Some (py_int (Z.of_nat (kind_count k (rn_entries run))) +:+ " " +:+ ekind_value k))
               [EFailed; ESkipped; ENotRun; EInterrupted] in
  "migrate_schemas: " +:+ (match bad with [] => "run stopped" | _ => String.concat ", " bad end)
  +:+ (match rn_stop run with Some s => "; Stop: " +:+ stop_str s | None => "" end).

(** The exception of a run that did not succeed. *)
Definition run_error (run : Run) : exn := command_error (_error_line run).

(** After [_run] (or the creation of the run folder) ended with [r]. *)
Definition conclude (hard : bool) (r : res exn unit) (run : Run) : M Ended :=
  match r with
  | Ok _ =>
      let code := exit_code (rn_entries run) (rn_stop run) in
      ret (mkEnded (Some (mkReport code run)) (if (code =? 0)%Z then None else Some (run_error run)))
  | Err e =>
      if is_ctrl_c e then
        let '(es, cut) := _settle (Some (mkStop hard_stop None)) EInterrupted HARD_STOP "interrupted (hard stop)" (rn_entries run) in
        sn <-! _snapshots cut es ;;
        let run' := mkRun sn.2 (Some (mkStop hard_stop None)) in
        ret (mkEnded (Some (mkReport (if hard then 1 else 130) run'))
               (Some (match sn.1 with Err e' => e' | Ok _ => if hard then run_error run' else e end)))
      else if is_exception e then
        let run' := mkRun (_settle (rn_stop run) EFailed MIGRATION_ERROR (exc_msg e) (rn_entries run)).1 (rn_stop run) in
        ret (mkEnded (Some (mkReport 1 run')) (Some e))
      else ret (mkEnded None (Some e))
  end.

(** [run_dir]: for a run from the command line, the run folder or the error that
    creating it gave. *)
Definition handle (env : Env) (ou : Outside) (sy : Sync) (o : Options) (run_dir : option (res string string)) :
    M (option Ended) :=
  if bool_decide (schema_name sy = Some PUBLIC) && op_tenant o then
    raise (command_error "-s public is the --shared stage; use --shared, or --tenant without -s.")
  else
    let sy := if bool_decide (schema_name sy = Some PUBLIC) then mkSync true false None (executor sy) else sy in
    pl <-! _validate env sy o ;;
    match run_dir with
    | Some (Err msg) =>
        en <-! conclude (ou_hard ou) (Err (command_error ("TENANT_MIGRATE_LOG_DIR: cannot create the run folder: " +:+ msg))) (mkRun [] None) ;;
        ret (Some en)
    | _ =>
        let opts0 := _run_options o in
        let opts := mkRunOptions (verbosity opts0) (fake opts0) (fake_initial opts0) (prune opts0) (run_syncdb opts0)
                      (app_label opts0) (migration_name opts0) (maintenance opts0)
                      (match run_dir with Some (Ok d) => Some d | _ => None end) in
        ended <-! _run ou sy o pl opts ;;
        match ended with
        | None => ret None
        | Some (r, run) => en <-! conclude (ou_hard ou) r run ;; ret (Some en)
        end
    end.

End command.
