(* ===== verification/MigrateCommandFacts.v ===== *)
(** * What migrate_schemas reports

    The loops of the command refine the scheduler's, so the theorems on the
    scheduler carry over to a run of [handle]: whatever the tenants, the signals
    and the pool do, the report has no running entry and no unexplained one, and
    success means that every target succeeded. *)
From S2P Require Import Prelude PyStr Models PyExc Logs World Lease Schema Migrator Scheduler SchedulerFacts.
From S2P Require Import ModelMethods Console LeaseCommand MigrateCommand.
Open Scope tenants_scope.

Section facts.
Context `{Invalidator} `{Site} `{Upstream}.

(** ** Operations that end as values *)

(** No exception of its own leaves the program. *)
Definition contained {A} (m : M A) : Prop := ∀ w, ∃ a w', m w = (Ok a, w').

Lemma contained_ret {A} (a : A) : contained (ret a).
Proof. intros w. by exists a, w. Qed.
Lemma contained_attempt {A} (m : M A) : contained (attempt m).
Proof. intros w. unfold attempt. destruct (m w) as [r w']. by exists r, w'. Qed.
Lemma contained_bind {A B} (m : M A) (k : A → M B) : contained m → (∀ a, contained (k a)) → contained (bind m k).
Proof. intros Hm Hk w. destruct (Hm w) as (a & w1 & E). unfold bind. rewrite E. apply Hk. Qed.

(** ** The sequential loop refines the scheduler's *)

Lemma run_sequential_ext fuel n drain work work' s :
  (∀ m j, n ≤ m → work m j = work' m j) → run_sequential fuel n drain work s = run_sequential fuel n drain work' s.
Proof.
  revert n s. induction fuel as [|fuel IH]; intros n s Hw; simpl; [done|].
  set (s0 := if drain n then _ else s). destruct (next 1 1 s0) as [[i|] s1]; [|done].
  rewrite <- Hw by lia. destruct (work n i); [|done]. apply IH. intros. apply Hw. lia.
Qed.

Lemma sequential_refines fuel n drain opts s w r w' :
  _run_sequential fuel n drain opts s w = (r, w') →
  ∃ o work, r = Ok o ∧ run_sequential fuel n drain work s = o.
Proof.
  revert n s w. induction fuel as [|fuel IH]; intros n s w; cbn [_run_sequential run_sequential].
  { intros [= <- <-]. by exists None, (λ _ _, Err (command_error "")). }
  set (s0 := if drain n then _ else s). destruct (next 1 1 s0) as [[i|] s1].
  2: { intros [= <- <-]. by exists (Some (Ok tt, s1)), (λ _ _, Err (command_error "")). }
  cbv zeta. set (s2 := upd_entries _ s1). unfold bind, attempt.
  destruct (migrate_tenant _ opts w) as [[res|e] w1].
  - intros E. apply IH in E as (o & work & -> & Ho). exists o, (λ m j, if decide (m = n) then Ok res else work m j).
    split; [done|]. rewrite decide_True by done. rewrite <- Ho. apply run_sequential_ext.
    intros m j Hm. by rewrite decide_False by lia.
  - intros [= <- <-]. exists (Some (Err e, s2)), (λ _ _, Err e). done.
Qed.

(** ** The pool's loop refines the transition system *)

(** Submitting without a failure. *)
Fixpoint submit_ok (fuel : nat) (jobs per_shard : Z) (p : Pool) : Pool :=
  match fuel with
  | O => p
  | S fuel' =>
      match next jobs per_shard (po_state p) with
      | (None, s) => mkPool s (po_running p)
      | (Some i, s) =>
          submit_ok fuel' jobs per_shard (mkPool (upd_entries (alter (set_kind ERunning) i) s) (po_running p ++ [i]))
      end
  end.

Lemma submit_all_ok fuel jobs per_shard fails p p' :
  submit_all fuel jobs per_shard fails p = (None, p') → p' = submit_ok fuel jobs per_shard p.
Proof.
  revert fails p. induction fuel as [|fuel IH]; intros fails p; simpl; [by intros [= ->]|].
  destruct (next jobs per_shard (po_state p)) as [[i|] s1]; [|by intros [= ->]].
  destruct fails as [[[|k] e]|]; [done|apply IH|apply IH].
Qed.

Lemma submit_refines fuel jobs per_shard p : rtc (pool_step jobs per_shard) p (submit_ok fuel jobs per_shard p).
Proof.
  revert p. induction fuel as [|fuel IH]; intros [s run]; simpl; [done|].
  destruct (next jobs per_shard s) as [[i|] s1] eqn:En.
  - eapply rtc_l; [by apply pool_submit|]. apply IH.
  - assert (s1 = s) as -> by (unfold next in En; repeat case_match; by simplify_eq). done.
Qed.

(** With enough fuel nothing more can be submitted. *)
Lemma submit_exhausts fuel jobs per_shard p :
  StageInv jobs per_shard (po_state p) (po_running p) → size (todo (po_state p)) < fuel →
  (next jobs per_shard (po_state (submit_ok fuel jobs per_shard p))).1 = None.
Proof.
  revert p. induction fuel as [|fuel IH]; intros [s run] Hinv Hf; [lia|]. cbn [submit_ok po_state po_running] in *.
  destruct (next jobs per_shard s) as [[i|] s1] eqn:En.
  - apply IH; [by apply inv_submit with s|].
    assert (size (todo s1) < size (todo s)) as Hlt by (apply subset_size; by eapply next_todo).
    change (todo (po_state (mkPool (upd_entries (alter (set_kind ERunning) i) s1) (run ++ [i])))) with (todo s1). lia.
  - assert (s1 = s) as -> by (unfold next in En; repeat case_match; by simplify_eq). simpl. by rewrite En.
Qed.

(** What is left to do: the queued targets and the running ones. *)
Definition left_ (p : Pool) : nat := size (todo (po_state p)) + length (po_running p).

Lemma submit_left fuel jobs per_shard p :
  StageInv jobs per_shard (po_state p) (po_running p) → left_ (submit_ok fuel jobs per_shard p) ≤ left_ p.
Proof.
  revert p. induction fuel as [|fuel IH]; intros [s run] Hinv; [done|]. cbn [submit_ok po_state po_running] in *.
  destruct (next jobs per_shard s) as [[i|] s1] eqn:En.
  - etrans; [apply IH; by apply inv_submit with s|]. unfold left_. cbn [po_state po_running].
    assert (size (todo s1) < size (todo s)) as Hlt by (apply subset_size; by eapply next_todo).
    change (todo (upd_entries (alter (set_kind ERunning) i) s1)) with (todo s1). rewrite length_app. simpl. lia.
  - assert (s1 = s) as -> by (unfold next in En; repeat case_match; by simplify_eq). done.
Qed.

Lemma complete_refines jobs per_shard ds p : rtc (pool_step jobs per_shard) p (foldl complete p ds).
Proof.
  revert p. induction ds as [|[i f] ds IH]; intros [s run]; simpl; [done|]. etrans; [|apply IH].
  unfold complete. simpl. case_bool_decide; [|done]. apply rtc_once. by apply pool_complete.
Qed.

Lemma complete_keeps ds p i : Forall (λ d, d.1 ≠ i) ds → i ∈ po_running p → i ∈ po_running (foldl complete p ds).
Proof.
  intros Hds. revert p. induction Hds as [|[j f] ds Hj _ IH]; intros p Hi; simpl; [done|]. apply IH.
  unfold complete. simpl. case_bool_decide; [|done]. simpl. unfold remove_one. apply list_elem_of_filter. by split.
Qed.

Lemma cut_off_refines jobs per_shard hard lost late p :
  lost ∈ po_running p → rtc (pool_step jobs per_shard) p (mkPool (cut_off hard lost late p).1 []).
Proof.
  intros Hl. unfold cut_off. cbv zeta. set (ds := (λ d, (d.1, Ok d.2)) <$> _).
  assert (lost ∈ po_running (foldl complete p ds)) as Hin.
  { apply complete_keeps; [|done]. apply Forall_fmap, Forall_forall. intros d Hd. by apply list_elem_of_filter in Hd as [? _]. }
  etrans; [apply (complete_refines _ _ ds)|]. destruct (foldl complete p ds) as [s run]. simpl in *.
  apply rtc_once. apply pool_broken. intros ->. by apply not_elem_of_nil in Hin.
Qed.

Notation PInv jobs per_shard p := (StageInv jobs per_shard (po_state p) (po_running p)).

Lemma submit_inv fuel jobs per_shard p : PInv jobs per_shard p → PInv jobs per_shard (submit_ok fuel jobs per_shard p).
Proof.
  revert p. induction fuel as [|fuel IH]; intros [s run] Hinv; simpl; [done|].
  destruct (next jobs per_shard s) as [[i|] s1] eqn:En; [apply IH; by apply inv_submit with s|].
  assert (s1 = s) as -> by (unfold next in En; repeat case_match; by simplify_eq). done.
Qed.

Lemma complete_inv ds jobs per_shard p : PInv jobs per_shard p → PInv jobs per_shard (foldl complete p ds).
Proof.
  revert p. induction ds as [|[i f] ds IH]; intros [s run] Hinv; simpl; [done|]. apply IH.
  unfold complete. simpl. case_bool_decide; [|done]. by apply inv_done; [apply outcome_collect|..].
Qed.

Lemma inv_todo jobs per_shard s run : StageInv jobs per_shard s run → size (todo s) < S (length (s_entries s)).
Proof.
  intros [Hq _ _ _ _ _ _ _]. assert (todo s ⊆ list_to_set (seq 0 (length (s_entries s)))) as Hsub.
  { intros i. unfold todo. rewrite !elem_of_list_to_set, queued_elem, elem_of_seq. intros (sh & q & Hl & Hi).
    destruct (Hq sh q Hl) as [_ Hb]. destruct (Hb i Hi). lia. }
  apply subseteq_size in Hsub. rewrite size_list_to_set, length_seq in Hsub by apply NoDup_seq. lia.
Qed.

(** One turn that neither ends the loop nor raises: the pool after it, and the same
    turn as moves of the transition system. *)
Definition turn (jobs per_shard : Z) (poll : Poll) (p : Pool) : Pool :=
  let s := if po_drain poll then halt (mkStop by_signal None) false (po_state p) else po_state p in
  submit_ok (S (length (s_entries s))) jobs per_shard (mkPool s (po_running p)).

Lemma turn_ok jobs per_shard poll p :
  PInv jobs per_shard p →
  PInv jobs per_shard (turn jobs per_shard poll p) ∧ (next jobs per_shard (po_state (turn jobs per_shard poll p))).1 = None
  ∧ rtc (pool_step jobs per_shard) p (turn jobs per_shard poll p) ∧ left_ (turn jobs per_shard poll p) ≤ left_ p.
Proof.
  destruct p as [s0 run]. intros Hinv. unfold turn. cbv zeta. cbn [po_state po_running] in *.
  set (s1 := if po_drain poll then _ else s0).
  assert (StageInv jobs per_shard s1 run) as Hinv1 by (unfold s1; destruct (po_drain poll); [by apply inv_halt|done]).
  assert (rtc (pool_step jobs per_shard) (mkPool s0 run) (mkPool s1 run)) as R1.
  { unfold s1. destruct (po_drain poll); [|done]. apply rtc_once, pool_drain. }
  assert (left_ (mkPool s1 run) ≤ left_ (mkPool s0 run)) as L1.
  { unfold left_, s1. cbn [po_state po_running]. destruct (po_drain poll); [|done].
    pose proof (subseteq_size _ _ (halt_todo (mkStop by_signal None) false s0)). lia. }
  split_and!.
  - by apply submit_inv.
  - apply submit_exhausts; [done|]. by eapply inv_todo.
  - etrans; [exact R1|apply submit_refines].
  - etrans; [by apply submit_left|exact L1].
Qed.

(** Whatever the pool does, a loop that ends without an exception has settled every
    entry, and its moves are moves of the transition system. *)
Lemma parallel_settles jobs per_shard hard polls p s cut :
  (1 ≤ jobs)%Z → (1 ≤ per_shard)%Z → PInv jobs per_shard p →
  _run_parallel jobs per_shard hard polls p = Some (Ok cut, s) →
  (∀ e, e ∈ s_entries s → settled_entry e) ∧ rtc (pool_step jobs per_shard) p (mkPool s []).
Proof.
  intros Hj Hp. revert p. induction polls as [|poll polls IH]; intros p Hinv; [done|].
  destruct (turn_ok jobs per_shard poll p Hinv) as (Hinv2 & Hn & R2 & _). cbn [_run_parallel].
  destruct (submit_all _ _ _ _ _) as [[e|] p1] eqn:Es; [done|]. apply submit_all_ok in Es.
  change (p1 = turn jobs per_shard poll p) in Es. subst p1. destruct (turn jobs per_shard poll p) as [s2 run2].
  cbn [po_state po_running] in *. destruct run2 as [|r0 run2].
  { intros [= <- <-]. split; [|done]. eapply settled_when_done; [exact Hinv2|]. by apply (next_none_idle jobs per_shard). }
  set (p2 := foldl complete _ (po_done poll)). destruct (po_raises poll); [done|].
  assert (PInv jobs per_shard p2) as Hinv3 by (by apply complete_inv).
  assert (rtc (pool_step jobs per_shard) p p2) as R3 by (etrans; [exact R2|apply complete_refines]).
  assert (_run_parallel jobs per_shard hard polls p2 = Some (Ok cut, s) →
    (∀ e, e ∈ s_entries s → settled_entry e) ∧ rtc (pool_step jobs per_shard) p (mkPool s [])) as Hrest.
  { intros E. destruct (IH p2 Hinv3 E) as [G1 G2]. split; [done|by etrans]. }
  destruct (po_broke poll) as [[lost late]|]; [|apply Hrest]. case_bool_decide as Hl; [|apply Hrest].
  pose proof (cut_off_refines jobs per_shard hard lost late p2 Hl) as R4.
  destruct (cut_off hard lost late p2) as [s' cut'] eqn:E. intros [= -> ->]. split; [|by etrans].
  unfold cut_off in E. cbv zeta in E. injection E as <- _.
  intros e [i Hi]%list_elem_of_lookup. eapply inv_broken; [|exact Hi]. by apply complete_inv.
Qed.

(** *** The loop ends *)

(** Every worker has finished by this turn. *)
Definition finishes (n : nat) (poll : Poll) : bool := forallb (λ i, bool_decide (i ∈ (po_done poll).*1)) (seq 0 n).

Lemma finishes_elem n poll i : finishes n poll = true → i < n → i ∈ (po_done poll).*1.
Proof.
  unfold finishes. intros Hf Hi. rewrite forallb_Forall, Forall_forall in Hf.
  assert (i ∈ seq 0 n) as Hs by (apply elem_of_seq; lia). specialize (Hf i Hs). by apply bool_decide_eq_true in Hf.
Qed.

Lemma complete_less ds p :
  size (todo (po_state (foldl complete p ds))) ≤ size (todo (po_state p))
  ∧ length (po_running (foldl complete p ds)) ≤ length (po_running p).
Proof.
  revert p. induction ds as [|[i f] ds IH]; intros [s run]; [done|]. simpl. destruct (IH (complete (mkPool s run) (i, f))) as [I1 I2].
  enough (size (todo (po_state (complete (mkPool s run) (i, f)))) ≤ size (todo s)
    ∧ length (po_running (complete (mkPool s run) (i, f))) ≤ length run) by lia.
  unfold complete. cbn [fst snd po_state po_running]. case_bool_decide; [|done]. cbn [po_state po_running].
  pose proof (subseteq_size _ _ (done_todo i (upd_entries (alter (collect f) i) s))) as Hd.
  change (todo (upd_entries (alter (collect f) i) s)) with (todo s) in Hd. split; [done|]. apply length_filter.
Qed.

Lemma done_length i s : length (s_entries (done_ i s)) = length (s_entries s).
Proof.
  assert (∀ st ov x, length (s_entries (halt st ov x)) = length (s_entries x)) as Hh by (intros; apply mark_all_length).
  unfold done_. repeat case_match; rewrite ?Hh; simpl; rewrite ?mark_all_length; done.
Qed.

Lemma complete_length ds p : length (s_entries (po_state (foldl complete p ds))) = length (s_entries (po_state p)).
Proof.
  revert p. induction ds as [|[i f] ds IH]; intros [s run]; [done|]. simpl. rewrite IH. unfold complete.
  cbn [fst snd po_state po_running]. case_bool_decide; [|done]. cbn [po_state]. rewrite done_length. apply length_alter.
Qed.

Lemma turn_length jobs per_shard poll p :
  length (s_entries (po_state (turn jobs per_shard poll p))) = length (s_entries (po_state p)).
Proof.
  assert (∀ fuel p, length (s_entries (po_state (submit_ok fuel jobs per_shard p))) = length (s_entries (po_state p))) as Hs.
  { clear. induction fuel as [|fuel IH]; intros [s run]; [done|]. cbn [submit_ok po_state].
    destruct (next jobs per_shard s) as [[i|] s1] eqn:En.
    - rewrite IH. cbn [po_state]. assert (s_entries s1 = s_entries s) as E by (unfold next in En; repeat case_match; by simplify_eq).
      cbn [upd_entries s_entries]. by rewrite length_alter, E.
    - assert (s1 = s) as -> by (unfold next in En; repeat case_match; by simplify_eq). done. }
  unfold turn. cbv zeta. rewrite Hs. cbn [po_state]. destruct (po_drain poll); [apply mark_all_length|done].
Qed.

Lemma complete_drops ds p i : i ∈ ds.*1 → i ∉ po_running (foldl complete p ds).
Proof.
  assert (∀ ds p, i ∉ po_running p → i ∉ po_running (foldl complete p ds)) as Hgone.
  { clear. intros ds. induction ds as [|[j f] ds IH]; intros p Hi; simpl; [done|]. apply IH. unfold complete. simpl.
    case_bool_decide; [|done]. simpl. unfold remove_one. rewrite list_elem_of_filter. tauto. }
  revert p. induction ds as [|[j f] ds IH]; intros p; simpl; [by intros ?%not_elem_of_nil|]. intros [->|Hi]%elem_of_cons; [|by apply IH].
  apply Hgone. unfold complete. simpl. case_bool_decide; [|done]. simpl. unfold remove_one. rewrite list_elem_of_filter. tauto.
Qed.

(** A loop that is still waiting has had at most as many turns in which all workers
    had finished as there was work left. *)
Lemma parallel_waits jobs per_shard hard polls p n :
  PInv jobs per_shard p → length (s_entries (po_state p)) = n →
  _run_parallel jobs per_shard hard polls p = None → length (filter (λ poll, finishes n poll = true) polls) ≤ left_ p.
Proof.
  intros Hinv Hn. revert p Hinv Hn. induction polls as [|poll polls IH]; intros p Hinv Hn; [simpl; lia|].
  destruct (turn_ok jobs per_shard poll p Hinv) as (Hinv2 & _ & _ & L). pose proof (turn_length jobs per_shard poll p) as Hn1.
  cbn [_run_parallel]. destruct (submit_all _ _ _ _ _) as [[e|] p1] eqn:Es; [done|]. apply submit_all_ok in Es.
  change (p1 = turn jobs per_shard poll p) in Es. subst p1. destruct (turn jobs per_shard poll p) as [s2 run2].
  cbn [po_state po_running] in *. destruct run2 as [|r0 run2]; [done|]. set (run := r0 :: run2) in *.
  set (p2 := foldl complete _ (po_done poll)). destruct (po_raises poll); [done|].
  assert (PInv jobs per_shard p2) as Hinv3 by (by apply complete_inv).
  assert (length (s_entries (po_state p2)) = n) as Hn2 by (unfold p2; rewrite complete_length; simpl; congruence).
  destruct (complete_less (po_done poll) (mkPool s2 run)) as [C1 C2]. fold p2 in C1, C2. cbn [po_state po_running] in C1, C2.
  assert (_run_parallel jobs per_shard hard polls p2 = None →
    length (filter (λ x, finishes n x = true) (poll :: polls)) ≤ left_ p) as Hrest.
  { intros E. specialize (IH p2 Hinv3 Hn2 E). rewrite filter_cons. unfold left_ in L, IH |- *. cbn [po_state po_running] in L.
    case_decide as Hf; [|lia]. assert (po_running p2 = []) as E2.
    { destruct (po_running p2) as [|i l] eqn:Er; [done|]. exfalso. assert (i ∈ po_running p2) as Hi by (rewrite Er; by left).
      eapply complete_drops; [|exact Hi]. eapply finishes_elem; [exact Hf|]. rewrite <- Hn2. apply (si_run _ _ _ _ Hinv3). left. }
    rewrite E2 in IH. unfold run in L. simpl in *. lia. }
  destruct (po_broke poll) as [[lost late]|]; [|apply Hrest]. case_bool_decide; [|apply Hrest].
  by destruct (cut_off hard lost late p2).
Qed.

(** ** After the loops *)

Definition all_settled (es : list Entry) : Prop := ∀ e, e ∈ es → settled_entry e.

Lemma alter_settled (f : Entry → Entry) i es :
  (∀ e, settled_entry e → settled_entry (f e)) → all_settled es → all_settled (alter f i es).
Proof.
  intros Hf Hs e [j Hj]%list_elem_of_lookup. rewrite list_lookup_alter in Hj. case_decide.
  - apply fmap_Some in Hj as (e0 & E & ->). by apply Hf, Hs, list_elem_of_lookup_2 with i.
  - by apply Hs, list_elem_of_lookup_2 with j.
Qed.

Lemma snapshots_settled is_ es w :
  all_settled es → ∃ r es' w', _snapshots is_ es w = (Ok (r, es'), w') ∧ all_settled es'.
Proof.
  revert es w. induction is_ as [|i is_ IH]; intros es w Hs; cbn [_snapshots].
  - by exists (Ok tt), es, w.
  - unfold bind, attempt. destruct (snapshot _ w) as [[sn|e] w1].
    + apply IH. by apply alter_settled.
    + by eexists _, es, w1.
Qed.

Lemma recheck_entry_kept e w e' w' : recheck_entry e w = (Ok e', w') → e' = e ∨ e_kind e' = EOk.
Proof.
  unfold recheck_entry. destruct (negb _); [intros [= <- _]; by left|]. unfold catch.
  destruct ((_ <-! _ ;; _) w) as [[x|x] w1] eqn:E; [|destruct (is_exception x); intros [= <- _]; by left].
  intros [= <- <-]. unfold bind in E. destruct (get_by_pk _ w) as [[t|?] w2]; [|done].
  destruct (mem (o_status t) UPGRADABLE).
  - destruct (pending_plan t w2) as [[plan|?] w3]; [|done]. unfold ret in E. repeat case_match; simplify_eq; auto.
  - case_bool_decide; [|unfold ret in E; simplify_eq; by left].
    destruct (lease_holder _ w2) as [[h|?] w3]; [|done]. unfold ret in E. repeat case_match; simplify_eq; auto.
Qed.

Lemma recheck_settled es w :
  all_settled es → ∃ r es' w', recheck_each es w = (Ok (r, es'), w') ∧ all_settled es'.
Proof.
  revert w. induction es as [|e es IH]; intros w Hs; cbn [recheck_each].
  - by exists (Ok tt), [], w.
  - unfold bind, attempt. destruct (recheck_entry e w) as [[e'|x] w1] eqn:E.
    + destruct (IH w1) as (r & es' & w2 & -> & Hs'); [intros y Hy; apply Hs; by right|].
      exists r, (e' :: es'), w2. split; [done|]. intros y [->|Hy]%elem_of_cons; [|by apply Hs'].
      apply recheck_entry_kept in E as [->|Ek]; [apply Hs; by left|]. split; by rewrite Ek.
    + by exists (Err x), (e :: es), w1.
Qed.

Lemma taken_settled r e : settled_entry (take_result r e).
Proof. apply outcome_settled, outcome_take. Qed.

Lemma fresh_stage base targets :
  all_settled base → fresh_from (length base) (base ++ (new_entry <$> targets)).
Proof.
  intros Hb. split; [rewrite length_app; lia|]. intros i e Hi. case_decide.
  - rewrite lookup_app_l in Hi by done. by apply Hb, list_elem_of_lookup_2 with i.
  - rewrite lookup_app_r in Hi by lia. rewrite list_lookup_fmap in Hi. destruct (targets !! _); by simplify_eq/=.
Qed.

Definition within_limits (pl : Plan) : Prop :=
  (1 ≤ pl_per_shard pl)%Z ∧ (pl_per_shard pl ≤ pl_jobs pl)%Z ∧ (1 ≤ pl_max_failures pl)%Z.

(** The parent still waits for its pool: it was started from the command line, and
    the loop over the entries [es] has used up the turns it was given, at most as many
    of which as there are entries found every worker finished. *)
Definition waiting (ou : Outside) : Prop :=
  ou_cli ou = true
  ∧ ∃ es base kg mf jobs per_shard,
      _run_parallel jobs per_shard (ou_hard ou) (ou_polls ou) (mkPool (start_state es base kg mf) []) = None
      ∧ length (filter (λ poll, finishes (length es) poll = true) (ou_polls ou)) ≤ length es.

(** How a stage may end: still waiting for the pool, settled, or with an
    exception (after which [handle] settles the entries). *)
Definition stage_ended (ou : Outside) (o : option (res exn unit * Run)) : Prop :=
  match o with
  | None => waiting ou
  | Some (Ok _, run) => all_settled (rn_entries run)
  | Some (Err _, _) => True
  end.

Definition loop_done (ou : Outside) (o : option (res exn unit * SState)) : Prop :=
  match o with
  | None => waiting ou
  | Some (Ok _, s) => all_settled (s_entries s)
  | Some (Err _, _) => True
  end.

Lemma sequential_ended drain opts es base kg mf ou w :
  fresh_from base es →
  ∃ o w', _run_sequential (S (length es)) 0 drain opts (start_state es base kg mf) w = (Ok o, w') ∧ loop_done ou o.
Proof.
  intros Hf. destruct (_run_sequential (S (length es)) 0 drain opts (start_state es base kg mf) w) as [r w'] eqn:E.
  apply sequential_refines in E as (o & work & -> & Ho). exists o, w'. split; [done|].
  destruct (run_sequential_total (S (length es)) 0 drain work (start_state es base kg mf))
    as (r & s' & E & Hr); [by apply start_todo|by apply inv_start|]. rewrite E in Ho. subst o.
  destruct r; [|done]. destruct Hr as [Hi Hq]. exact (settled_when_done _ _ _ Hi Hq).
Qed.

(** Closing a configured connection raises nothing. *)
Lemma close_ok a w : a ∈ dom (w_conns w) → ∃ w', close a w = (Ok tt, w') ∧ dom (w_conns w') = dom (w_conns w).
Proof.
  intros [c Hc]%elem_of_dom. unfold close, bind, connection. rewrite Hc.
  destruct (c_raw c); eexists; (split; [done|]); simpl; apply dom_alter_L.
Qed.

Lemma contained_close_all : contained close_all.
Proof.
  intros w. unfold close_all. assert (∀ l w, (∀ a, a ∈ l → a ∈ dom (w_conns w)) → ∃ u w', each close l w = (Ok u, w')) as He.
  { clear w. induction l as [|a l IH]; intros w Hl; simpl; [by exists tt, w|].
    destruct (close_ok a w) as (w1 & E & Hd); [apply Hl; left|]. unfold bind. rewrite E. apply IH.
    intros b Hb. rewrite Hd. apply Hl. by right. }
  apply He. intros a Ha. by apply elem_of_elements.
Qed.

Lemma loop_ended ou pl opts kg base targets w :
  within_limits pl → all_settled base →
  let es := base ++ (new_entry <$> targets) in
  let s0 := start_state es (length base) kg (pl_max_failures pl) in
  ∃ o w', (if (1 <? pl_jobs pl)%Z && (1 <? length targets)%nat && ou_cli ou then
             close_all ;;;
             match _run_parallel (pl_jobs pl) (pl_per_shard pl) (ou_hard ou) (ou_polls ou) (mkPool s0 []) with
             | None => ret None
             | Some (Err e, s) => ret (Some (Err e, s))
             | Some (Ok cut, s) => r <-! _snapshots cut (s_entries s) ;; ret (Some (r.1, mkSState r.2 (s_stage s)))
             end
           else _run_sequential (S (length es)) 0 (λ n, ou_drain ou (S n)) opts s0) w = (Ok o, w')
    ∧ loop_done ou o.
Proof.
  intros (L1 & L2 & L3) Hb es s0. pose proof (fresh_stage base targets Hb) as Hf. fold es in Hf.
  destruct ((1 <? pl_jobs pl)%Z && (1 <? length targets)%nat && ou_cli ou) eqn:Ej; [|by apply sequential_ended].
  apply andb_true_iff in Ej as [_ Ecli]. destruct (contained_close_all w) as (u & w0 & Ec).
  unfold bind at 1. rewrite Ec. clear Ec w. rename w0 into w.
  assert (StageInv (pl_jobs pl) (pl_per_shard pl) s0 []) as Hinv by (apply inv_start; [lia|done|done]).
  destruct (_run_parallel _ _ _ _ _) as [[[cut|e] s]|] eqn:E; [| |exists None, w; split; [done|]].
  2: { by eexists _, w. }
  2: { split; [done|]. exists es, (length base), kg, (pl_max_failures pl), (pl_jobs pl), (pl_per_shard pl). split; [exact E|].
       eapply parallel_waits in E; [|exact Hinv|done]. etrans; [exact E|]. unfold left_. cbn [po_state po_running].
       pose proof (start_todo es (length base) kg (pl_max_failures pl) Hf). simpl. unfold s0. lia. }
  apply parallel_settles in E as [Hs _]; [|lia|done|exact Hinv].
  destruct (snapshots_settled cut (s_entries s) w Hs) as (r & es' & w' & Es & Hs'). unfold bind. rewrite Es.
  eexists _, w'. split; [done|]. simpl. by destruct r.
Qed.

Lemma tenant_stage_ended ou pl opts kg base targets w :
  within_limits pl → all_settled base →
  ∃ o w', tenant_stage ou pl opts kg base targets w = (Ok o, w') ∧ stage_ended ou o.
Proof.
  intros Hl Hb. unfold tenant_stage. cbv zeta. destruct targets as [|t ts].
  { eexists _, w. split; [done|]. simpl. by rewrite app_nil_r. }
  destruct (loop_ended ou pl opts kg base (t :: ts) w Hl Hb) as (o & w1 & E & Ho). cbv zeta in E. unfold start_state in E.
  unfold bind at 1. rewrite E. destruct o as [[r s]|]; [|by exists None, w1]. destruct r as [u|e]; [|by eexists _, w1].
  destruct (targeted opts); [by eexists _, w1|].
  destruct (recheck_settled (s_entries s) w1 Ho) as (r & es' & w2 & E2 & Hs). unfold bind. cbn [rn_entries rn_stop]. rewrite E2.
  eexists _, w2. split; [done|]. simpl. by destruct r.
Qed.

Lemma run_ended ou sy o pl opts w :
  within_limits pl → ∃ e w', _run ou sy o pl opts w = (Ok e, w') ∧ stage_ended ou e.
Proof.
  intros Hl. unfold _run.
  assert (∃ r es w1, (if sync_public sy then r <-! attempt (migrate_shared opts) ;;
             ret (match r with
                  | Ok res => (Ok tt, [take_result res (set_kind ERunning shared_entry)])
                  | Err e => (Err e, [set_kind ERunning shared_entry])
                  end) else ret (Ok tt, [])) w = (Ok (r, es), w1) ∧ (∀ u, r = Ok u → all_settled es)) as (r & es & w1 & E & Hes).
  { destruct (sync_public sy).
    - unfold bind, attempt. destruct (migrate_shared opts w) as [[res|e] w1]; eexists _, _, w1; (split; [done|]); [|done].
      intros u _ x ->%list_elem_of_singleton. apply taken_settled.
    - eexists _, _, w. split; [done|]. intros u _ x Hx. by apply not_elem_of_nil in Hx. }
  unfold bind at 1. rewrite E. destruct r as [u|e]; [|by eexists _, w1]. specialize (Hes u eq_refl).
  destruct (negb (forallb _ _)); [by eexists _, w1|]. destruct (negb (sync_tenant sy)); [by eexists _, w1|].
  destruct (ou_drain ou 0); [by eexists _, w1|].
  unfold bind at 1, select_stage, bind at 1, attempt. destruct (select _ _ w1) as [[ts|e] w2]; simpl.
  - by apply tenant_stage_ended.
  - destruct (is_exception e && is_conn_error e); by eexists _, w2.
Qed.

(** ** Validation *)

Lemma check_positive_ok name v n : check_positive name v = Ok n → (1 ≤ n)%Z.
Proof.
  unfold check_positive, positive_int. destruct v as [| |m|]; try done. destruct (m <? 1)%Z eqn:E; [done|].
  intros [= <-]. by apply Z.ltb_ge.
Qed.

Lemma check_limits_ok env o jobs per_shard mf :
  check_limits env o = Ok (jobs, per_shard, mf) → (1 ≤ per_shard)%Z ∧ (per_shard ≤ jobs)%Z ∧ (1 ≤ mf)%Z.
Proof.
  unfold check_limits. intros (j & Hj & E)%res_bind_ok. apply res_bind_ok in E as (p & Hp & E).
  apply res_bind_ok in E as (m & Hm & E). destruct (j <? p)%Z eqn:El; [done|]. simplify_eq.
  apply check_positive_ok in Hp, Hm. apply Z.ltb_ge in El. done.
Qed.

Lemma validate_limits env sy o w pl w' : _validate env sy o w = (Ok pl, w') → within_limits pl.
Proof.
  unfold _validate, bind at 1, lift at 1. destruct (check_modes sy o); [|done]. unfold bind at 1, lift at 1.
  destruct (check_limits env o) as [[[j p] m]|e] eqn:El; [|done]. apply check_limits_ok in El. cbv beta iota.
  unfold bind, lift. destruct (check_paths env sy o); [|done]. destruct (check_database env sy o w) as [[[]|e] w1]; [|done].
  destruct (check_target sy o w1) as [[t|e] w2]; [|done]. unfold ret. intros [= <- <-]. exact El.
Qed.

(** ** [handle] *)

Definition report_ok (en : Ended) : Prop :=
  match en_report en with
  | Some rep =>
      all_settled (rn_entries (rp_run rep))
      ∧ (en_raises en = None ↔ rp_code rep = 0%Z)
      ∧ (rp_code rep = 0%Z → rn_stop (rp_run rep) = None
                             ∧ ∀ e, e ∈ rn_entries (rp_run rep) → e_kind e = EOk ∨ e_kind e = ENoop)
  | None => ∃ e, en_raises en = Some e ∧ is_exception e = false ∧ is_ctrl_c e = false
  end.

Lemma exit_code_zero es stop :
  exit_code es stop = 0%Z ↔ stop = None ∧ ∀ e, e ∈ es → e_kind e = EOk ∨ e_kind e = ENoop.
Proof.
  unfold exit_code. destruct (bool_decide (stop = None)) eqn:E1; bool_props; simpl.
  - destruct (forallb _ es) eqn:E2.
    + split; [intros _|done]. split; [done|]. intros e He. rewrite forallb_Forall, Forall_forall in E2.
      by apply E2, bool_decide_eq_true in He.
    + split; [done|]. intros [_ Ha]. apply not_true_iff_false in E2. destruct E2. apply forallb_Forall, Forall_forall.
      intros e He. apply bool_decide_eq_true. auto.
  - split; [done|]. by intros [? _].
Qed.

Lemma settle_all stop kind reason msg es :
  kind ≠ ERunning → kind ≠ ENotRun → all_settled (_settle stop kind reason msg es).1.
Proof. intros Hk Hn e. by apply settle_settles. Qed.

Lemma conclude_ok hard r run w :
  match r with Ok _ => all_settled (rn_entries run) | Err _ => True end →
  ∃ en w', conclude hard r run w = (Ok en, w') ∧ report_ok en.
Proof.
  intros Hr. unfold conclude. destruct r as [u|e].
  - eexists _, w. split; [done|]. unfold report_ok. cbn [en_report en_raises rp_run rp_code].
    split; [done|]. split; [|by intros ?%exit_code_zero]. destruct (exit_code _ _ =? 0)%Z eqn:E; bool_props; [done|].
    split; [done|]. by intros ?.
  - destruct (is_ctrl_c e) eqn:Ec; [|destruct (is_exception e) eqn:Ee].
    + pose proof (settle_all (Some (mkStop hard_stop None)) EInterrupted HARD_STOP "interrupted (hard stop)" (rn_entries run)) as Hs.
      destruct (_settle _ _ _ _ _) as [es cut]. unfold bind.
      destruct (snapshots_settled cut es w) as (r & es' & w1 & E & Hs'); [by apply Hs|]. rewrite E.
      eexists _, w1. split; [done|]. split; [done|]. simpl. split; [by destruct r, hard|by destruct hard].
    + eexists _, w. split; [done|]. split; [by apply settle_all|]. done.
    + eexists _, w. split; [done|]. by exists e.
Qed.

(** How [handle] ended. *)
Definition handle_ended (env : Env) (ou : Outside) (sy : Sync) (o : Options) (w : World) (r : res exn (option Ended) * World) : Prop :=
  match r with
  | (Ok (Some en), _) => report_ok en
  | (Ok None, _) => waiting ou
  | (Err e, w') =>
      bool_decide (schema_name sy = Some PUBLIC) && op_tenant o = true
      ∨ ∃ sy', _validate env sy' o w = (Err e, w')
  end.

Lemma handle_report env ou sy o run_dir w : handle_ended env ou sy o w (handle env ou sy o run_dir w).
Proof.
  unfold handle, handle_ended. destruct (_ && op_tenant o) eqn:Ep; [by left|]. cbv zeta. set (sy' := if bool_decide _ then _ else sy).
  unfold bind at 1. destruct (_validate env sy' o w) as [[pl|e] w1] eqn:Ev; [|right; by exists sy'].
  apply validate_limits in Ev.
  assert (∀ d, match (ended <-! _run ou sy' o pl d ;;
      match ended with None => ret None | Some (r, run) => en <-! conclude (ou_hard ou) r run ;; ret (Some en) end) w1 with
    | (Ok (Some en), _) => report_ok en | (Ok None, _) => waiting ou | (Err _, _) => False end) as Hrun.
  { intros d. destruct (run_ended ou sy' o pl d w1 Ev) as (x & w2 & E & Hx). unfold bind at 1. rewrite E.
    destruct x as [[r run]|]; [|done]. destruct (conclude_ok (ou_hard ou) r run w2) as (en & w3 & E3 & Hen).
    - by destruct r.
    - unfold bind. by rewrite E3. }
  destruct run_dir as [[d|msg]|].
  - specialize (Hrun (mkRunOptions (op_verbosity o) (op_fake o) (op_fake_initial o) (op_prune o) (op_run_syncdb o)
      (op_app_label o) (op_migration_name o) (op_maintenance o) (Some d))). cbn [_run_options verbosity fake fake_initial
      prune run_syncdb app_label migration_name maintenance]. by destruct ((_ <-! _ ;; _) w1) as [[[en|]|e] w2].
  - set (e := command_error _). destruct (conclude_ok (ou_hard ou) (Err e) (mkRun [] None) w1 I) as (en & w3 & E3 & Hen).
    unfold bind. by rewrite E3.
  - specialize (Hrun (_run_options o)). by destruct ((_ <-! _ ;; _) w1) as [[[en|]|e] w2].
Qed.


(** Options that pass validation give limits for which the
    scheduler's theorems hold, [--maintenance] comes with one schema, and targeted
    flags have exactly one target: a tenant that is not being provisioned, or
    public. *)
Theorem validated_options env sy o w pl w' :
  _validate env sy o w = (Ok pl, w') →
  within_limits pl
  ∧ (op_maintenance o = true → given_str (schema_name sy) = true)
  ∧ (targeted_options o = true →
       (∃ t, pl_tenant pl = Some t ∧ o_status t ∉ PROVISIONABLE) ∨ (sync_public sy = true ∧ sync_tenant sy = false)).
Proof.
  intros Hv. split; [by eapply validate_limits|]. revert Hv.
  unfold _validate, bind at 1, lift at 1. destruct (check_modes sy o); [|done]. unfold bind at 1, lift at 1.
  destruct (check_limits env o) as [[[j p] m]|e] eqn:El; [|done]. cbv beta iota.
  unfold bind, lift. destruct (check_paths env sy o) eqn:Ep; [|done]. destruct (check_database env sy o w) as [[[]|e] w1]; [|done].
  destruct (check_target sy o w1) as [[t|e] w2] eqn:Et; [|done]. unfold ret. intros [= <- <-]. simpl. split.
  - intros Hm. unfold check_paths in Ep. rewrite Hm in Ep. by destruct (given_str (schema_name sy)).
  - intros Ht. unfold check_target in Et. rewrite Ht in Et. cbv zeta in Et. cbn [andb] in Et.
    assert (∀ w r w', (if sync_tenant sy || negb (sync_public sy) then
        raise (command_error ("Targeted flags (--fake, --fake-initial, --prune, --run-syncdb, app_label, migration_name) "
          +:+ "need exactly one target: -s <schema> or --shared.")) else ret None : M (option TenantObj)) w = (Ok r, w') →
        sync_public sy = true ∧ sync_tenant sy = false) as Hnone.
    { intros x r x'. by destruct (sync_tenant sy), (sync_public sy). }
    destruct (schema_name sy) as [[|c s]|]; [right; by eapply Hnone| |right; by eapply Hnone]. left.
    unfold bind in Et. destruct (select _ _ w1) as [[[x|]|e] w3]; [|done..]. destruct (given_str _ && _); [done|].
    destruct (mem (o_status x) PROVISIONABLE) eqn:Em; [done|]. unfold ret in Et. simplify_eq.
    exists x. split; [done|]. by apply mem_false.
Qed.

End facts.
