(* ===== verification/MigrateReport.v ===== *)
(** * The report and the signals of migrate_schemas

    The output half of src/tenants/management/commands/migrate_schemas.py: the
    line of an entry, the text of the summary, the advice for targets that were cut
    off, the JSON document, the screen and the files the report goes to, and the
    signal handler with the handlers it replaces.  The clock and the host name are
    arguments of the document, [json.dumps] is an argument of the report. *)
From S2P Require Import Prelude PyStr Models PyExc Logs World Lease Schema Migrator Scheduler ModelMethods Console LeaseCommand MigrateCommand.
From S2P Require Import SchedulerFacts Admin MigrateCommandFacts.
Open Scope tenants_scope.

(** ** Text *)

Definition reason_text (e : Entry) : string := match e_reason e with Some r => reason_value r | None => "" end.

Definition _fmt (e : Entry) : string :=
  let line := ljust (ekind_value (e_kind e)) 11 +:+ " " +:+ ljust (tg_schema (e_target e)) 24 +:+ " "
    +:+ ljust (tg_shard (e_target e)) 10 +:+ " " +:+ rjust (fmt_secs (e_secs e)) 8 +:+ "s  "
    +:+ (if String.eqb (e_msg e) "" then reason_text e else e_msg e) in
  match e_invalid_indexes e with
  | [] => line
  | l => line +:+ "  INVALID: " +:+ String.concat ", " l
  end.

(** The target an operator passes to [migration_lease --release]. *)
Definition release_key (t : Target) : string := if tg_tenant_id t is Some _ then tg_schema t else SHARED.

Definition behind_text (s : Snap) : string :=
  match sn_behind s with
  | None => if bool_decide (sn_status s = Some "deleted") then "" else "schema missing"
  | Some n => py_int (Z.of_nat n) +:+ " migration(s) behind"
  end.

(** The parts of a snapshot line; [f"{None}"] is ["None"]. *)
Definition snapshot_parts (t : Target) (s : Snap) : list string :=
  (if tg_tenant_id t is Some _ then ["status=" +:+ default "None" (sn_status s); behind_text s] else [])
  ++ (if given_str (sn_lease_owner s)
      then ["lease held by " +:+ default "" (sn_lease_owner s);
            "once its backend has finished: migration_lease --release " +:+ release_key t]
      else ["lease free"]).

Definition _fmt_snapshot (t : Target) (s : Snap) : string :=
  let name := tg_schema t in
  if given_str (sn_error s) then "  " +:+ name +:+ ": could not read the state (" +:+ default "" (sn_error s) +:+ ")"
  else "  " +:+ name +:+ ": " +:+ String.concat "; " (filter (λ p, p ≠ "") (snapshot_parts t s)).

Definition SUMMARY_KINDS : list EKind := [EOk; ENoop; EFailed; ESkipped; ENotRun; EInterrupted].

Definition counts_line (es : list Entry) : string :=
  String.concat "  " ((λ k, ekind_value k +:+ "=" +:+ py_int (Z.of_nat (kind_count k es))) <$> SUMMARY_KINDS).

Definition _summary_text (run : Run) (log_dir : option string) : list string :=
  let es := rn_entries run in
  let cut := omap (λ e, (λ s, _fmt_snapshot (e_target e) s) <$> e_snapshot e) es in
  [""; "=== migrate_schemas summary ==="] ++ (_fmt <$> es)
  ++ (match rn_stop run with Some s => ["Stop: " +:+ stop_str s] | None => [] end)
  ++ (match cut with [] => [] | _ => "Interrupted targets, state read from the DB after the stop:" :: cut end)
  ++ [counts_line es]
  ++ (match log_dir with Some d => ["Logs: " +:+ d] | None => [] end).

(** ** The JSON document *)

Inductive json :=
| JNull
| JBool (b : bool)
| JInt (n : Z)
| JSecs (hundredths : Z)               (** a float rounded to two decimals *)
| JStr (s : string)
| JList (l : list json)
| JObj (l : list (string * json)).

Definition jopt {A} (f : A → json) (o : option A) : json := match o with Some a => f a | None => JNull end.
Definition jnat (n : nat) : json := JInt (Z.of_nat n).

Definition SUMMARY_VERSION : Z := 1.

Definition snap_json (s : Snap) : json :=
  JObj ([("status", jopt JStr (sn_status s)); ("behind", jopt jnat (sn_behind s)); ("lease_owner", jopt JStr (sn_lease_owner s))]
        ++ (match sn_error s with Some e => [("error", JStr e)] | None => [] end)).

Definition stop_json (s : Stop) : json :=
  JObj (("reason", JStr (stop_reason_value (stop_reason s)))
        :: (if given_str (stop_shard s) then [("shard", JStr (default "" (stop_shard s)))] else [])).

(** One result, with the log file noted for it. *)
Definition result_json (e : Entry) (log_file : option string) : json :=
  JObj ([("stage", JStr (tg_stage (e_target e))); ("schema", JStr (tg_schema (e_target e)));
         ("tenant_id", jopt JInt (tg_tenant_id (e_target e))); ("shard", JStr (tg_shard (e_target e)));
         ("status_before", jopt (λ s, JStr (status_value s)) (tg_status_before (e_target e)));
         ("kind", JStr (ekind_value (e_kind e))); ("reason", JStr (reason_text e)); ("msg", JStr (e_msg e));
         ("secs", JSecs (e_secs e)); ("invalid_indexes", JList (JStr <$> e_invalid_indexes e));
         ("conn_error", jopt JStr (e_conn_error e)); ("rechecked", JBool (e_rechecked e));
         ("log_file", jopt JStr log_file)]
        ++ (match e_snapshot e with Some s => [("snapshot", snap_json s)] | None => [] end)).

(** What the document says beside the run. *)
Record Header := mkHeader {
  hd_started_at : string;
  hd_finished_at : string;
  hd_host : string;
  hd_pid : Z;
  hd_argv : option (list string);
  hd_log_dir : option string;
}.

Definition stages_of (sy : Sync) : list string :=
  (if sync_public sy then ["shared"] else []) ++ (if sync_tenant sy then ["tenant"] else []).

Definition _write_json (hd : Header) (sy : Sync) (o : Options) (pl : Plan) (code : Z) (run : Run)
    (log_files : list (option string)) : json :=
  JObj [("version", JInt SUMMARY_VERSION); ("started_at", JStr (hd_started_at hd)); ("finished_at", JStr (hd_finished_at hd));
        ("host", JStr (hd_host hd)); ("pid", JInt (hd_pid hd));
        ("argv", jopt (λ a, JList (JStr <$> "migrate_schemas" :: a)) (hd_argv hd));
        ("options", JObj [("stages", JList (JStr <$> stages_of sy)); ("jobs", JInt (pl_jobs pl));
                          ("jobs_per_shard", JInt (pl_per_shard pl)); ("keep_going", JBool (op_keep_going o));
                          ("max_failures", JInt (pl_max_failures pl)); ("maintenance", JBool (op_maintenance o));
                          ("targeted", JBool (targeted_options o))]);
        ("log_dir", jopt JStr (hd_log_dir hd)); ("exit_code", JInt code); ("stop", jopt stop_json (rn_stop run));
        ("counts", JObj ((λ k, (ekind_value k, jnat (kind_count k (rn_entries run)))) <$> SUMMARY_KINDS));
        ("results", JList (zip_with result_json (rn_entries run) log_files))].

(** ** The screen and the files *)

Inductive Stream := Stdout | Stderr.
#[global] Instance Stream_eq_dec : EqDecision Stream.
Proof. solve_decision. Defined.

(** A dead stream raises on every write; a path that fails raises OSError with the
    text given. *)
Record Outputs := mkOutputs {
  out_dead : Stream → bool;
  out_fails : string → option string;
  out_written : list (Stream * string);
  out_files : gmap string string;
}.
Definition on_written (f : list (Stream * string) → list (Stream * string)) (u : Outputs) : Outputs :=
  mkOutputs (out_dead u) (out_fails u) (f (out_written u)) (out_files u).
Definition on_files (f : gmap string string → gmap string string) (u : Outputs) : Outputs :=
  mkOutputs (out_dead u) (out_fails u) (out_written u) (f (out_files u)).

Definition _out (st : Stream) (text : string) (u : Outputs) : Outputs :=
  if out_dead u st then u else on_written (λ l, l ++ [(st, text)]) u.
Definition _say (verbosity : Z) (text : string) (u : Outputs) : Outputs :=
  if (1 <=? verbosity)%Z then _out Stdout text u else u.
Definition _line (verbosity : Z) (prefix : string) (e : Entry) (u : Outputs) : Outputs :=
  if (1 <=? verbosity)%Z then _out Stdout (prefix +:+ _fmt e) u else u.

Definition join_path (dir name : string) : string := dir +:+ "/" +:+ name.
(** The file noted in an entry: [None] leaves it as it was. *)
Definition _log_file (log_dir : option string) (name : string) (u : Outputs) : option string :=
  match log_dir with
  | Some d => if bool_decide (is_Some (out_files u !! join_path d name)) then Some name else None
  | None => None
  end.

(** The tail of [_write_json]: the document under a temporary name, then renamed. *)
Definition write_replace (path text : string) (u : Outputs) : Outputs :=
  let tmp := path +:+ ".tmp" in
  let failed e := _out Stderr ("could not write --summary-json " +:+ path +:+ ": " +:+ e) in
  match out_fails u tmp with
  | Some e => failed e u
  | None =>
      let u := on_files <[tmp := text]> u in
      match out_fails u path with
      | Some e => failed e u
      | None => on_files (λ fs, <[path := text]> (delete tmp fs)) u
      end
  end.

Definition screen (verbosity : Z) (text : list string) (u : Outputs) : Outputs :=
  if (1 <=? verbosity)%Z then foldl (λ u line, _out Stdout line u) u text else u.

(** [document] is the text of the JSON document. *)
Definition _report (verbosity : Z) (summary_json log_dir : option string) (run : Run) (document : string) (u : Outputs) : Outputs :=
  let text := _summary_text run log_dir in
  let u := if given_str summary_json then write_replace (default "" summary_json) document u else u in
  let u := match log_dir with
           | None => u
           | Some d =>
               let path := join_path d SUMMARY_LOG in
               match out_fails u path with
               | Some e => _out Stderr ("could not write " +:+ SUMMARY_LOG +:+ ": " +:+ e) u
               | None => on_files <[path := String.concat (of_chars [newline]) (tail text) +:+ of_chars [newline]]> u
               end
           end in
  screen verbosity text u.

(** ** Signals *)

(** The flags of the command, the workers of the pool and how often each was
    killed, the handlers installed for SIGINT and SIGTERM. *)
Inductive Handler := OnSignal | Previous (id : Z).

Record Sig := mkSig {
  sg_seen : nat;
  sg_hard : bool;
  sg_pool_live : bool;
  sg_killed : nat;                      (** workers killed so far *)
  sg_notes : list string;               (** what was written to stderr *)
  sg_handlers : gmap string Handler;
}.

Definition sg_upd (seen : nat) (hard : bool) (killed : nat) (note : string) (s : Sig) : Sig :=
  mkSig seen hard (sg_pool_live s) killed (sg_notes s ++ [note]) (sg_handlers s).

(** [_kill_workers]: [true] for a child that could still be killed. *)
Definition _kill_workers (children : list bool) : nat := length (filter (λ b, b = true) children).

Definition nl : string := of_chars [newline].

(** [_on_signal]: the flags after it and whether it raises [KeyboardInterrupt]. *)
Definition _on_signal (name : string) (children : list bool) (s : Sig) : Sig * bool :=
  let seen := S (sg_seen s) in
  if (seen =? 1)%nat then
    (sg_upd seen (sg_hard s) (sg_killed s)
       (nl +:+ name +:+ ": draining — no new targets, in-flight ones finish. Send it again for a hard stop." +:+ nl) s, false)
  else if sg_pool_live s then
    let n := _kill_workers children in
    (sg_upd seen true (sg_killed s + n)
       (nl +:+ name +:+ " again: hard stop — " +:+ py_int (Z.of_nat n)
        +:+ " worker(s) killed, their leases are kept (see the snapshot in the summary)." +:+ nl) s, false)
  else (sg_upd seen true (sg_killed s) (nl +:+ name +:+ " again: hard stop." +:+ nl) s, true).

Definition _drain_requested (s : Sig) : bool := (0 <? sg_seen s)%nat.

Definition SIGNALS : list string := ["SIGINT"; "SIGTERM"].

Definition set_handlers (f : gmap string Handler → gmap string Handler) (s : Sig) : Sig :=
  mkSig (sg_seen s) (sg_hard s) (sg_pool_live s) (sg_killed s) (sg_notes s) (f (sg_handlers s)).

(** [with self._signal_handlers(): body], for a body that ends in any way. *)
Definition _signal_handlers {A} (cli main_thread : bool) (body : Sig → A * Sig) (s : Sig) : A * Sig :=
  if negb cli || negb main_thread then body s
  else
    let saved := (λ n, (n, default (Previous 0) (sg_handlers s !! n))) <$> SIGNALS in
    let '(r, s') := body (set_handlers (λ h, foldl (λ h n, <[n := OnSignal]> h) h SIGNALS) s) in
    (r, set_handlers (λ h, foldl (λ h nh, <[nh.1 := nh.2]> h) h saved) s').

(** What happens while the run goes on: the pool starts or ends, a signal comes. *)
Inductive SigEvent := PoolLive (b : bool) | Arrives (name : string) (children : list bool).

Definition set_pool_live (b : bool) (s : Sig) : Sig :=
  mkSig (sg_seen s) (sg_hard s) b (sg_killed s) (sg_notes s) (sg_handlers s).

(** The run goes on until a handler raises. *)
Fixpoint sig_run (evs : list SigEvent) (s : Sig) : Sig * bool :=
  match evs with
  | [] => (s, false)
  | PoolLive b :: evs' => sig_run evs' (set_pool_live b s)
  | Arrives name children :: evs' =>
      let '(s', raised) := _on_signal name children s in
      if raised then (s', true) else sig_run evs' s'
  end.

(** * What the report of migrate_schemas says

    The counts of the summary add up and agree with the exit code; the JSON
    document can be read back entry by entry; signals escalate from draining to a
    hard stop and leave the handlers as they were. *)

(** ** Counts *)

Definition counted (es : list Entry) : nat := sum_list ((λ k, kind_count k es) <$> SUMMARY_KINDS).

Lemma kind_count_cons k e es :
  kind_count k (e :: es) = (if decide (e_kind e = k) then 1 else 0) + kind_count k es.
Proof. unfold kind_count. rewrite filter_cons. by destruct (decide (e_kind e = k)). Qed.

Lemma counted_all es : (∀ e, e ∈ es → e_kind e ≠ ERunning) → counted es = length es.
Proof.
  induction es as [|e es IH]; [done|]. intros Hr. unfold counted in *. cbn [SUMMARY_KINDS fmap list_fmap sum_list sum_list_with length id] in *.
  rewrite !kind_count_cons. specialize (IH (λ x Hx, Hr x (list_elem_of_further _ _ _ Hx))).
  pose proof (Hr e (list_elem_of_here _ _)). destruct (e_kind e); simpl; try done; lia.
Qed.

Lemma kind_count_0 k es : kind_count k es = 0 ↔ ∀ e, e ∈ es → e_kind e ≠ k.
Proof.
  unfold kind_count. induction es as [|e es IH]; [split; [|done]; intros _ e He; by apply not_elem_of_nil in He|].
  rewrite filter_cons. destruct (decide (e_kind e = k)) as [E|E]; simpl.
  - split; [done|]. intros Hx. by destruct (Hx e (list_elem_of_here _ _)).
  - rewrite IH. split; intros Hx x; [intros [->|Hin]%elem_of_cons; auto|intros Hin; apply Hx; by right].
Qed.

(** *** Where the report goes *)

Lemma out_keeps st text u : out_files (_out st text u) = out_files u ∧ out_fails (_out st text u) = out_fails u.
Proof. unfold _out. by destruct (out_dead u st). Qed.

Lemma screen_keeps verbosity text u : out_files (screen verbosity text u) = out_files u ∧ out_fails (screen verbosity text u) = out_fails u.
Proof.
  unfold screen. destruct (1 <=? verbosity)%Z; [|done]. revert u. induction text as [|l text IH]; intros u; [done|]. simpl.
  destruct (IH (_out Stdout l u)) as [-> ->]. apply out_keeps.
Qed.

Definition same_disk (u v : Outputs) : Prop := out_files u = out_files v ∧ out_fails u = out_fails v.

Lemma same_out st1 t1 st2 t2 u v : same_disk u v → same_disk (_out st1 t1 u) (_out st2 t2 v).
Proof. unfold same_disk. destruct (out_keeps st1 t1 u) as [-> ->], (out_keeps st2 t2 v) as [-> ->]. done. Qed.
Lemma same_on_files f u v : same_disk u v → same_disk (on_files f u) (on_files f v).
Proof. intros [H1 H2]. split; simpl; congruence. Qed.

Lemma same_replace path text u v : same_disk u v → same_disk (write_replace path text u) (write_replace path text v).
Proof.
  intros Hs. pose proof Hs as [_ E]. unfold write_replace. rewrite E. destruct (out_fails v (path +:+ ".tmp")); [by apply same_out|].
  cbn [out_fails on_files]. rewrite E. destruct (out_fails v path); [by apply same_out, same_on_files|by apply same_on_files, same_on_files].
Qed.

(** What is on disk after the report does not depend on the screen: neither a dead
    stdout or stderr nor the verbosity costs the document or the summary log. *)
Theorem report_survives_dead_screen verbosity1 verbosity2 summary_json log_dir run document u v :
  same_disk u v →
  same_disk (_report verbosity1 summary_json log_dir run document u) (_report verbosity2 summary_json log_dir run document v).
Proof.
  intros Hs. unfold _report.
  set (u1 := if given_str summary_json then write_replace _ _ u else u). set (v1 := if given_str summary_json then write_replace _ _ v else v).
  assert (same_disk u1 v1) as H1 by (unfold u1, v1; destruct (given_str summary_json); [by apply same_replace|done]).
  assert (∀ b1 b2 t a b, same_disk a b → same_disk (screen b1 t a) (screen b2 t b)) as Hscr.
  { intros b1 b2 t a b Hab. unfold same_disk. destruct (screen_keeps b1 t a) as [-> ->], (screen_keeps b2 t b) as [-> ->]. done. }
  apply Hscr. destruct log_dir as [d|]; [|done]. pose proof H1 as [_ E]. rewrite E.
  destruct (out_fails v1 _); [by apply same_out|by apply same_on_files].
Qed.

(** A reader of the document's path finds the old file or the whole new document,
    whatever fails; and the document once the path can be written. *)
Theorem summary_json_atomic path text u :
  let u' := write_replace path text u in
  (out_files u' !! path = out_files u !! path ∨ out_files u' !! path = Some text)
  ∧ (out_fails u (path +:+ ".tmp") = None → out_fails u path = None →
     out_files u' !! path = Some text ∧ out_files u' !! (path +:+ ".tmp") = None).
Proof.
  assert (path +:+ ".tmp" ≠ path) as Hne.
  { intros E. apply (f_equal String.length) in E. rewrite <- !length_chars, chars_app, length_app in E. simpl in E. lia. }
  cbv zeta. unfold write_replace. destruct (out_fails u (path +:+ ".tmp")) as [s|].
  - destruct (out_keeps Stderr ("could not write --summary-json " +:+ path +:+ ": " +:+ s) u) as [-> _]. split; [by left|done].
  - cbn [out_fails on_files]. destruct (out_fails u path).
    + match goal with |- context [_out Stderr ?t ?x] => destruct (out_keeps Stderr t x) as [-> _] end. cbn [out_files on_files].
      rewrite lookup_insert_ne by done. split; [by left|done].
    + cbn [out_files on_files]. rewrite lookup_insert_eq. split; [by right|]. intros _ _. split; [done|].
      rewrite lookup_insert_ne by done. apply lookup_delete_eq.
Qed.

Section report.
Context `{Invalidator} `{Site} `{Upstream}.

(** In the report of a run the six counts of the summary
    add up to the number of targets, and with exit code 0 none of them is failed,
    skipped, not run or interrupted, so that the number of ok and noop targets is
    the number of targets. *)
Theorem report_counts_add_up env ou sy o run_dir w en w' rep :
  handle env ou sy o run_dir w = (Ok (Some en), w') → en_report en = Some rep →
  let es := rn_entries (rp_run rep) in
  counted es = length es
  ∧ (rp_code rep = 0%Z → kind_count EOk es + kind_count ENoop es = length es ∧ rn_stop (rp_run rep) = None).
Proof.
  intros Hh Hr es. pose proof (handle_report env ou sy o run_dir w) as Hok. rewrite Hh in Hok. unfold handle_ended, report_ok in Hok.
  rewrite Hr in Hok. destruct Hok as (Hs & _ & Hz).
  assert (counted es = length es) as Hc by (apply counted_all; intros e He; by apply Hs).
  split; [done|]. intros Hcode. destruct (Hz Hcode) as [Hst Hall]. split; [|done]. rewrite <- Hc.
  assert (∀ k, k ≠ EOk → k ≠ ENoop → kind_count k es = 0) as Hk.
  { intros k N1 N2. apply kind_count_0. intros e He. destruct (Hall e He) as [-> | ->]; congruence. }
  unfold counted. cbn [SUMMARY_KINDS fmap list_fmap sum_list sum_list_with id]. rewrite (Hk EFailed), (Hk ESkipped), (Hk ENotRun), (Hk EInterrupted) by done. lia.
Qed.

End report.

(** ** Reading the document back *)

Definition jget (k : string) (j : json) : option json :=
  match j with JObj l => snd ∘ snd <$> list_find (λ kv, kv.1 = k) l | _ => None end.
Definition jstr (j : json) : option string := match j with JStr s => Some s | _ => None end.
Definition jint (j : json) : option Z := match j with JInt n => Some n | _ => None end.
Definition jsecs (j : json) : option Z := match j with JSecs n => Some n | _ => None end.
Definition jbool (j : json) : option bool := match j with JBool b => Some b | _ => None end.
Definition jlist (j : json) : option (list json) := match j with JList l => Some l | _ => None end.
(** [null] or a value. *)
Definition jnull {A} (f : json → option A) (j : json) : option (option A) :=
  match j with JNull => Some None | _ => Some <$> f j end.

Definition named {A} (value : A → string) (all : list A) (s : string) : option A :=
  snd <$> list_find (λ a, value a = s) all.

Definition all_reasons : list Reason :=
  [APPLIED; RESUMED; TARGETED; UP_TO_DATE; DONE_BY_ANOTHER_RUN; PROVISIONING_ELSEWHERE; LOCKED; STATUS_FAILED;
   STATUS_MAINTENANCE; STATUS_CHANGED; LEASE_LOST; TENANT_DELETED; CODE_OLDER_THAN_DB; SCHEMA_MISSING; SCHEMA_EXISTS;
   LOCK_TIMEOUT; MIGRATION_ERROR; INCOMPLETE_AFTER_RUN; CONN_ERROR; DEFAULT_SHARD_ANOMALY; SHARD_UNREACHABLE; STOPPED; HARD_STOP].
Definition all_kinds : list EKind := SUMMARY_KINDS ++ [ERunning].
Definition all_stops : list StopReason :=
  [fail_fast; max_failures_reached; default_unreachable; shared_failed; by_signal; hard_stop; broken_pool].

Definition read_snap (j : json) : option Snap :=
  st ← jget "status" j ≫= jnull jstr;
  b ← jget "behind" j ≫= jnull jint;
  o ← jget "lease_owner" j ≫= jnull jstr;
  Some (mkSnap st (Z.to_nat <$> b) o (jget "error" j ≫= jstr)).

Definition read_reason (s : string) : option (option Reason) :=
  if String.eqb s "" then Some None else Some <$> named reason_value all_reasons s.

Definition read_target (j : json) : option Target :=
  stage ← jget "stage" j ≫= jstr;
  schema ← jget "schema" j ≫= jstr;
  shard ← jget "shard" j ≫= jstr;
  id ← jget "tenant_id" j ≫= jnull jint;
  before ← jget "status_before" j ≫= jnull (λ j, jstr j ≫= status_named);
  Some (mkTarget stage schema shard id before).

Definition read_result (j : json) : option (Entry * option string) :=
  t ← read_target j;
  k ← jget "kind" j ≫= (λ j, jstr j ≫= named ekind_value all_kinds);
  why ← jget "reason" j ≫= (λ j, jstr j ≫= read_reason);
  msg ← jget "msg" j ≫= jstr;
  secs ← jget "secs" j ≫= jsecs;
  inv ← jget "invalid_indexes" j ≫= (λ j, jlist j ≫= mapM jstr);
  conn ← jget "conn_error" j ≫= jnull jstr;
  re ← jget "rechecked" j ≫= jbool;
  lf ← jget "log_file" j ≫= jnull jstr;
  Some (mkEntry t k why msg secs inv conn re (jget "snapshot" j ≫= read_snap), lf).

Definition read_stop (j : json) : option Stop :=
  r ← jget "reason" j ≫= (λ j, jstr j ≫= named stop_reason_value all_stops);
  Some (mkStop r (jget "shard" j ≫= jstr)).

Definition read_doc (j : json) : option (Z * option Stop * list (Entry * option string)) :=
  code ← jget "exit_code" j ≫= jint;
  stop ← jget "stop" j ≫= jnull read_stop;
  results ← jget "results" j ≫= (λ j, jlist j ≫= mapM read_result);
  Some (code, stop, results).

Lemma named_kind k : named ekind_value all_kinds (ekind_value k) = Some k.
Proof. by destruct k. Qed.
Lemma read_reason_text e : read_reason (reason_text e) = Some (e_reason e).
Proof. unfold reason_text. destruct (e_reason e) as [[]|]; by vm_compute. Qed.
Lemma named_stop r : named stop_reason_value all_stops (stop_reason_value r) = Some r.
Proof. by destruct r. Qed.
Lemma mapM_jstr l : mapM jstr (JStr <$> l) = Some l.
Proof. apply mapM_Some, Forall2_fmap_l. by induction l; constructor. Qed.

Lemma jget_here k v l : jget k (JObj ((k, v) :: l)) = Some v.
Proof. unfold jget. simpl. by rewrite decide_True. Qed.
Lemma jget_there k k' v l : k ≠ k' → jget k (JObj ((k', v) :: l)) = jget k (JObj l).
Proof.
  intros Hk. unfold jget. simpl. rewrite decide_False by congruence.
  by destruct (list_find (λ kv, kv.1 = k) l) as [[i [x y]]|].
Qed.

(** A field of a literal object. *)
Ltac field := repeat first [rewrite jget_here | rewrite jget_there by done].

Lemma read_snap_json s : read_snap (snap_json s) = Some s.
Proof.
  destruct s as [st b o e]. unfold read_snap, snap_json. cbn [app sn_status sn_behind sn_lease_owner sn_error]. field.
  destruct st, b, o, e; simpl; rewrite ?Nat2Z.id; done.
Qed.

Lemma read_stop_json s : stop_shard s ≠ Some "" → read_stop (stop_json s) = Some s.
Proof.
  destruct s as [r sh]. unfold read_stop, stop_json. cbn [stop_reason stop_shard]. intros Hs. field.
  cbn [mbind option_bind jstr]. rewrite named_stop. cbn [mbind option_bind].
  destruct sh as [[|c s]|]; [done| |done]. simpl. done.
Qed.

Lemma read_result_json e lf : read_result (result_json e lf) = Some (e, lf).
Proof.
  destruct e as [[stage schema shard id before] k why msg secs inv conn re sn].
  assert (read_target (result_json (mkEntry (mkTarget stage schema shard id before) k why msg secs inv conn re sn) lf)
    = Some (mkTarget stage schema shard id before)) as Ht.
  { unfold read_target, result_json. cbn [app e_target tg_stage tg_schema tg_tenant_id tg_shard tg_status_before]. field.
    destruct id, before as [[]|]; done. }
  unfold read_result. rewrite Ht. unfold result_json. cbn [app mbind option_bind]. field.
  cbn [mbind option_bind jstr jsecs jlist jbool e_kind e_reason e_msg e_secs e_invalid_indexes e_conn_error e_rechecked e_snapshot].
  rewrite named_kind, (read_reason_text (mkEntry _ k why msg secs inv conn re sn)), mapM_jstr. cbn [mbind option_bind].
  destruct sn as [s|].
  - field. cbn [mbind option_bind]. rewrite read_snap_json. by destruct conn, lf.
  - by destruct conn, lf.
Qed.

Lemma read_results es lfs : length es = length lfs → mapM read_result (zip_with result_json es lfs) = Some (zip es lfs).
Proof.
  revert lfs. induction es as [|e es IH]; intros [|lf lfs]; try done. intros [= Hl]. simpl.
  rewrite read_result_json. simpl. by rewrite IH.
Qed.

(** From the JSON summary of a run its exit code, stop
    reason and every entry can be read back: target, kind, reason, message, time,
    invalid indexes, snapshot and log file. *)
Theorem summary_json_reads_back hd sy o pl code run log_files :
  length log_files = length (rn_entries run) → stop_shard <$> rn_stop run ≠ Some (Some "") →
  read_doc (_write_json hd sy o pl code run log_files) = Some (code, rn_stop run, zip (rn_entries run) log_files).
Proof.
  intros Hl Hs. unfold read_doc, _write_json. field. cbn [mbind option_bind jint jlist]. rewrite read_results by done.
  destruct (rn_stop run) as [s|]; [|done]. cbn [jopt]. unfold jnull. cbn [mbind option_bind].
  change (stop_json s) with (JObj (("reason", JStr (stop_reason_value (stop_reason s)))
    :: (if given_str (stop_shard s) then [("shard", JStr (default "" (stop_shard s)))] else []))) at 1.
  cbv iota. fold (stop_json s). rewrite read_stop_json; [done|]. simpl in Hs. congruence.
Qed.

(** ** Signals *)

Fixpoint arrivals (evs : list SigEvent) : nat :=
  match evs with [] => 0 | PoolLive _ :: evs' => arrivals evs' | Arrives _ _ :: evs' => S (arrivals evs') end.

(** The flags agree with the number of signals; only a hard stop kills or raises. *)
Definition sig_ok (s : Sig) : Prop :=
  sg_hard s = (1 <? sg_seen s)%nat ∧ (0 < sg_killed s → sg_hard s = true).

Lemma on_signal_ok name children s :
  sig_ok s →
  let '(s', raised) := _on_signal name children s in
  sig_ok s' ∧ sg_seen s' = S (sg_seen s) ∧ sg_pool_live s' = sg_pool_live s
  ∧ raised = (0 <? sg_seen s)%nat && negb (sg_pool_live s).
Proof.
  destruct s as [seen hard live killed notes hs]. unfold sig_ok, _on_signal. simpl. intros [-> Hk].
  destruct seen as [|n]; simpl; [destruct killed; [done|]; by assert (false = true) by (apply Hk; lia)|].
  destruct live; simpl; by split_and!.
Qed.

(** The first signal only asks the loops to drain; a second one
    is a hard stop, which kills the workers while the pool is alive and raises
    [KeyboardInterrupt] only when it is not; until it raises every signal is counted. *)
Theorem signals_escalate evs handlers :
  let '(s, raised) := sig_run evs (mkSig 0 false false 0 [] handlers) in
  _drain_requested s = (0 <? sg_seen s)%nat
  ∧ sg_hard s = (1 <? sg_seen s)%nat
  ∧ (0 < sg_killed s → sg_hard s = true)
  ∧ (raised = false → sg_seen s = arrivals evs)
  ∧ (raised = true → sg_hard s = true ∧ sg_pool_live s = false).
Proof.
  set (s0 := mkSig _ _ _ _ _ _). assert (sig_ok s0) as H0 by (split; [done|]; simpl; lia).
  assert (sg_seen s0 + arrivals evs = arrivals evs) as Hn by done. revert Hn. generalize (arrivals evs) at 2 3 as n. revert H0.
  generalize s0 as s. clear s0. induction evs as [|e evs IH]; intros s H0 n Hn.
  - simpl. destruct H0 as [Hh Hk]. split_and!; try done. simpl in Hn. lia.
  - cbn [sig_run]. destruct e as [b|name children]; [by apply IH|]. cbn [arrivals] in Hn.
    pose proof (on_signal_ok name children s H0) as Ho. destruct (_on_signal name children s) as [s' raised].
    destruct Ho as (H1 & Hseen & Hlive & Hr). destruct raised.
    + destruct H1 as [Hh Hk]. symmetry in Hr. apply andb_true_iff in Hr as [Hs Hl]. split_and!; try done.
      intros _. rewrite Hh, Hseen, Hlive. split; [|by destruct (sg_pool_live s)]. apply Nat.ltb_lt in Hs. apply Nat.ltb_lt. lia.
    + apply IH; [done|]. lia.
Qed.

(** The handlers of before come back, whatever the body did. *)
Lemma handlers_restored {A} cli (body : Sig → A * Sig) s n :
  n ∈ SIGNALS → is_Some (sg_handlers s !! n) →
  cli = true → sg_handlers (_signal_handlers cli true body s).2 !! n = sg_handlers s !! n.
Proof.
  intros Hn [h Hh] ->. unfold _signal_handlers. simpl. destruct (body _) as [r s'] eqn:E. simpl.
  unfold SIGNALS in Hn. apply elem_of_cons in Hn as [-> |Hn%list_elem_of_singleton]; [|subst n].
  - rewrite lookup_insert_ne by done. rewrite lookup_insert_eq. by rewrite Hh.
  - rewrite lookup_insert_eq. by rewrite Hh.
Qed.
