(* ===== verification/ConsoleScenario.v ===== *)
(** * Scenarios of the console and the admin

    Concrete instances (a cache with a single-host invalidation, a domain table
    that keeps one primary host) and runs on which the theorems on requests
    apply. *)
From S2P Require Import Prelude PyStr Validators Models PyExc Logs World Lease Schema Trace Migrator Quiet Scenario Requests.
From S2P Require Import ModelMethods Probes Console Admin LifecycleFacts ConsoleFacts RegistryInvariant ModelFacts MigratorRun LeaseCommand Reconcile ReconcileFacts Scheduler MigrateCommand.
From S2P Require Import MigrateCommandFacts MigrateReport.
Open Scope tenants_scope.

(** ** Instances *)

#[refine] Instance toy_hosts : HostInvalidator := {
  inv_forget_one h c0 := Ok (λ c, (delete h c.1, c.2));
}.
Proof.
  - done.
  - intros h c0 f c [= <-] _. simpl. apply lookup_delete_eq.
  - intros h c0 f c [h'|s] [= <-]; simpl; [|by right]. destruct (decide (h = h')) as [->|Hn]; [left; apply lookup_delete_eq|].
    right. by apply lookup_delete_ne.
  - intros hosts schema c [h'|s]; simpl.
    2: { destruct (decide (schema = s)) as [->|Hn]; [left; apply lookup_delete_eq|right; by apply lookup_delete_ne]. }
    induction hosts as [|h hosts IH]; simpl; [by right|].
    destruct (decide (h = h')) as [->|Hn]; [left; apply lookup_delete_eq|].
    rewrite lookup_delete_ne by done. exact IH.
Defined.

(** The Domain table: the row moves to its new host, other rows of the tenant
    lose the primary flag to a primary one. *)
Definition demote (tenant : Z) (primary : bool) (d : Domain) : Domain :=
  if primary && (d_tenant_id d =? tenant)%Z then mkDomain (d_id d) (d_tenant_id d) false else d.

Definition toy_save (seq : Z) (o : DomainInst) (g : Registry) : res exn (Domain * Registry) :=
  let id := default seq (di_id o) in
  let row := mkDomain id (di_tenant o) (di_primary o) in
  if negb (domain_check py_lower (di_domain o)) then Err (integrity_error "violates check constraint")
  else
    Ok (row, set_domains (λ m, <[di_domain o := row]>
              (demote (di_tenant o) (di_primary o) <$> filter (λ kd, d_id kd.2 ≠ id) m)) g).

#[refine] Instance toy_domains : DomainMixin := { sql_lower := py_lower; dm_save := toy_save }.
Proof.
  - intros seq o g d g' E. unfold toy_save in E. destruct (domain_check _ _) eqn:Ec; simplify_eq/=.
    split; [done|]. split; [destruct (di_id o); auto|]. split; [done|]. split; [done|]. apply lookup_insert_eq.
  - intros seq o g d g' host x E Hne Hx. unfold toy_save in E. destruct (domain_check _ _); simplify_eq/=.
    rewrite lookup_insert_ne in Hx by done. apply lookup_fmap_Some in Hx as (y & <- & Hy).
    apply map_lookup_filter_Some in Hy as [Hy Hid]. exists y. unfold demote. by destruct (_ && _).
Defined.

(** ** Worlds *)

Definition public_row : Tenant := mkTenant "public" "Public" "" 1 ACTIVE NEW 0 "" None.

(** A registry with the public tenant (key 9) and acme (key 1). *)
Definition full_registry (st : Status) : Registry :=
  mkRegistry shards (<[9%Z := public_row]> {[1%Z := tenant st]})
    (<["www.example.com" := mkDomain 9 9 true]> {["acme.example.com" := mkDomain 1 1 true]}) ∅
    [(("users", "0001"), 10%Z); (("orders", "0001"), 20%Z)] 1000.
Definition full_world (st : Status) (script : list Event) : World :=
  mkWorld (mkSrv (full_registry st) {["shard1" := mkShardDb {["acme" := mkSchema disk 5 2 []]} [] 1000]} true)
    (<["default" := idle_conn]> {["shard1" := idle_conn]})
    ({["acme.example.com" := st]}, {["acme" := st]}) [] script [] "" false false ∅ None [].
Definition start (w : World) : CS := mkCS w [] [].

Definition is_def (k : Z) : bool := (k =? 1)%Z.
Definition is_pub (k : Z) : bool := (k =? 9)%Z.

#[local] Instance upstream_fine : Upstream := toy_upstream None.

Definition no_rows (db : ShardDb) (s : string) : option (list MigRow) := None.
Definition no_users (db : ShardDb) (s : string) : option (list UserRow) := None.
Definition blocked_text (b : Blocked) : string := blocked_code b.

(** Another client marks acme deactivated. *)
Definition deactivated_elsewhere : Event :=
  mkEvent (set_reg (set_tenants (<[1%Z := tenant DEACTIVATED]>))) None true None.

Definition post (shown chosen : Status) : TenantPost :=
  mkTenantPost (Some (status_value shown)) (status_value chosen) false "Acme" "" 2 None.

(** ** The theorems apply *)

Lemma full_good X st : good is_def is_pub X (full_registry st).
Proof.
  split; simpl.
  - intros k s Hk. unfold shards in Hk. apply lookup_insert_Some in Hk as [[<- <-]|[_ Hk]]; [done|].
    apply lookup_singleton_Some in Hk as [<- <-]. done.
  - intros k t Hk. apply lookup_insert_Some in Hk as [[<- <-]|[_ Hk]]; [done|].
    apply lookup_singleton_Some in Hk as [<- <-]. done.
  - intros h d Hh. apply lookup_insert_Some in Hh as [[<- <-]|[_ Hh]]; left; [by vm_compute|].
    apply lookup_singleton_Some in Hh as [<- <-]. by vm_compute.
  - by exists 9%Z, public_row.
  - by exists 1%Z, (mkShard "default" "default" true true).
Qed.

(** A run that returns, checked by evaluation. *)
Lemma ran {A} (m : CM A) s (p : A → bool) :
  match (m s).1 with Ok a => p a | Err _ => false end = true → ∃ a s', m s = (Ok a, s') ∧ p a = true.
Proof. destruct (m s) as [[a|e] s']; [|done]. by exists a, s'. Qed.

Definition is_saved (o : Outcome) : bool := match o with Saved => true | _ => false end.

Lemma admin_refusal_writes_nothing_witness :
  let s := start (full_world ACTIVE [deactivated_elsewhere]) in
  ∃ o s', changeform_view [] (λ _, true) py_int blocked_text 1 (post ACTIVE MAINTENANCE) s = (Ok o, s')
    ∧ env_only (cs_w s) (cs_w s').
Proof.
  intros s.
  destruct (ran (changeform_view [] (λ _, true) py_int blocked_text 1 (post ACTIVE MAINTENANCE)) s (λ o, negb (is_saved o)))
    as (o & s' & E & Ho); [by vm_compute|].
  exists o, s'. split; [exact E|].
  apply (admin_refusal_writes_nothing [] (λ _, true) py_int blocked_text 1 (post ACTIVE MAINTENANCE) s o s');
    [by repeat constructor|exact E|by intros ->].
Defined.

Lemma maintenance_not_under_lease_witness :
  let s := start (full_world ACTIVE [quiet; deactivated_elsewhere]) in
  ∃ new, w_trace (cs_w (changeform_view [] (λ _, true) py_int blocked_text 1 (post ACTIVE MAINTENANCE) s).2) = new ++ w_trace (cs_w s)
    ∧ ∀ k prev g, AStatus k MAINTENANCE prev g ∈ new → not_live k g.
Proof.
  intros s. apply (maintenance_not_under_lease [] (λ _, true) py_int blocked_text 1 (post ACTIVE MAINTENANCE) s).
  repeat constructor; intros v; simpl; lia.
Defined.

Lemma admin_saves_what_was_shown_witness :
  let s := start (full_world ACTIVE []) in
  ∃ s', changeform_view [] (λ _, true) py_int blocked_text 1 (post ACTIVE MAINTENANCE) s = (Ok Saved, s')
    ∧ since_status 1 ACTIVE MAINTENANCE (cs_w s) (cs_w s').
Proof.
  intros s.
  destruct (ran (changeform_view [] (λ _, true) py_int blocked_text 1 (post ACTIVE MAINTENANCE)) s is_saved)
    as ([] & s' & E & Ho); [by vm_compute| |done..].
  exists s'. split; [exact E|].
  by apply (admin_saves_what_was_shown [] (λ _, true) py_int blocked_text 1 (post ACTIVE MAINTENANCE) s s').
Defined.

Lemma psql_aligned_witness :
  let rows := [[Some "acme"; None]; [Some ("a" +:+ String newline "long name"); Some "app"]] in
  Forall (λ line, String.length line = line_width (table_widths ["Name"; "Owner"] rows)) (table_lines ["Name"; "Owner"] rows).
Proof. intros rows. apply (psql_aligned ["Name"; "Owner"] rows). by repeat constructor. Defined.

Definition one_row (db : ShardDb) (s : string) : option (list MigRow) :=
  if String.eqb s "acme" then Some [mkMigRow 1 "users" "0001" (Some 10%Z)] else None.

Lemma last_migrations_exact_witness :
  let w := full_world ACTIVE [] in
  ∃ l, calm (last_migrations one_row [acme ACTIVE]) w (Ok l)
    ∧ (("shard1", "acme"), mkMigRow 1 "users" "0001" (Some 10%Z)) ∈ l.
Proof.
  intros w. destruct (last_migrations_exact one_row [acme ACTIVE] w eq_refl) as (l & Hc & Hl).
  exists l. split; [done|]. apply Hl. exists (acme ACTIVE). split; [by left|]. do 2 (split; [done|]). split; [by eexists|by vm_compute].
Defined.

Lemma activate_exact_witness :
  let s := start (world DEACTIVATED ∅ {["acme" := mkSchema disk 5 2 []]} []) in
  ∃ r w', tenant_activate no_rows no_users blocked_text 1 s = (r, mkCS w' [] []).
Proof.
  intros s. destruct (activate_exact no_rows no_users blocked_text (acme DEACTIVATED) s) as (r & w' & E & _).
  - apply quiet_world.
  - by vm_compute.
  - done.
  - by exists r, w'.
Defined.

(** acme moves to another host. *)
Definition moving : DomainInst := mkDI (Some 1%Z) "New.Example.com." 1 true (Some "acme.example.com").

Lemma saved_domain_unserved_witness :
  let s := start (full_world ACTIVE [quiet; deactivated_elsewhere]) in
  ∃ d' s', atomic (domain_save 5 moving) s = (Ok d', s')
    ∧ inv_host (w_cache (cs_w s')) "acme.example.com" = None ∧ inv_host (w_cache (cs_w s')) "new.example.com" = None.
Proof.
  intros s. destruct (ran (atomic (domain_save 5 moving)) s (λ _, true)) as (d' & s' & E & _); [by vm_compute|].
  exists d', s'. split; [exact E|]. split; apply (saved_domain_unserved 5 moving s d' s'); try done.
  - by right.
  - by left.
Defined.

Lemma deleted_tenant_unserved_witness :
  let s := start (full_world ACTIVE [quiet; deactivated_elsewhere]) in
  ∃ s', tenant_delete (acme ACTIVE) s = (Ok tt, s')
    ∧ ∃ g new, w_trace (cs_w s') = new ++ w_trace (cs_w s) ∧ ADelete 1 g ∈ new
      ∧ (∀ h, h ∈ tenant_hosts g 1 → h ≠ "" → inv_host (w_cache (cs_w s')) h = None)
      ∧ inv_schema (w_cache (cs_w s')) "acme" = None.
Proof.
  intros s. destruct (ran (tenant_delete (acme ACTIVE)) s (λ _, true)) as ([] & s' & E & _); [by vm_compute|].
  exists s'. split; [exact E|]. by apply (deleted_tenant_unserved (acme ACTIVE) s s' idle_conn).
Defined.

Lemma save_stamps_moves_witness :
  t_status_changed_at (saved_row 7 (Some [F_status]) 1 (tenant ACTIVE) (set_status DEACTIVATED) (tenant ACTIVE)) = 7%Z
  ∧ t_status (saved_row 7 (Some [F_company_name]) 1 (tenant ACTIVE) id (tenant FAILED)) = FAILED.
Proof.
  split.
  - by apply (save_stamps_moves 7 (Some [F_status]) 1 (tenant ACTIVE) (set_status DEACTIVATED) (tenant ACTIVE)).
  - apply (save_stamps_moves 7 (Some [F_company_name]) 1 (tenant ACTIVE) id (tenant FAILED) ) with (l := [F_company_name]);
      [done|set_solver].
Defined.

(** ** Deleting a tenant that enters maintenance meanwhile *)

Definition to_maintenance : Event :=
  mkEvent (set_reg (set_tenants (<[1%Z := tenant MAINTENANCE]>))) None true None.

(** The status of the row a deletion removed. *)
Definition deleted_status (a : Action) : option Status :=
  match a with ADelete pk g => t_status <$> g_tenants g !! pk | _ => None end.

(** DELETE of a tenant that is ACTIVE when the view
    reads it, and put into maintenance by the admin before the deletion, removes
    the row in maintenance and queues the drop of its schema. *)
Theorem destroy_races_maintenance :
  let s := start (full_world ACTIVE [quiet; quiet; to_maintenance]) in
  let '(r, s') := tenant_destroy (Some "true") 1 s in
  r = Ok (mkResponse 204 BNone)
  ∧ omap deleted_status (w_trace (cs_w s')) = [MAINTENANCE]
  ∧ CallDropSchema "shard1" "acme" ∈ cs_calls s'.
Proof. vm_compute. split; [done|]. split; [done|]. set_solver. Qed.

(** * Scenarios of the operator commands

    Runs of migration_lease and reconcile_tenants on concrete worlds. *)

#[local] Instance upstream_done : Upstream := toy_upstream None.

(** A lease that ran out at 500, now being 1000. *)
Definition expired_lease : gmap Z MigrationLease := {[1%Z := mkLease (Some "app-2:7:x") (Some 100%Z) (Some 500%Z)]}.

Lemma release_exact_witness :
  ∃ r w', _release "acme" false (world ACTIVE expired_lease ∅ []) = (r, w')
    ∧ g_leases (v_reg (w_srv w')) !! 1%Z = Some (mkLease None None None).
Proof.
  destruct (release_exact "acme" (acme ACTIVE) false (world ACTIVE expired_lease ∅ [])) as (r & w' & E & Ho).
  - apply quiet_world.
  - by vm_compute.
  - done.
  - done.
  - exists r, w'. split; [exact E|]. destruct Ho as [_ Ho]. unfold view_of in Ho. injection Ho as -> _ _. by vm_compute.
Defined.

Lemma listed_key_resolves_witness :
  ∃ w', lease_label ∅ 77 (world ACTIVE ∅ ∅ []) = (Ok ("tenant deleted (key=77)", ["shard1"]), w').
Proof.
  destruct (listed_key_resolves 77 (world ACTIVE ∅ ∅ [])) as (w' & E & _); [|done..|by exists w'].
  destruct (quiet_world ACTIVE ∅ ∅). by split.
Defined.

Lemma check_exact_witness :
  let w := full_world ACTIVE [] in
  ∃ w', reconcile_handle true None false false w = (Ok (gate_lines (w_srv w), gate_error (w_srv w)), w').
Proof.
  intros w. destruct (check_exact w) as (w' & E & _).
  - split; [by eexists|]. intros a Ha. split; try done.
    + intros b c Hb. simpl in Hb. apply lookup_insert_Some in Hb as [[_ <-]|[_ Hb]]; [by split|].
      by apply lookup_singleton_Some in Hb as [_ <-].
  - assert (actives (v_reg (w_srv w)) ++ pendings (v_reg (w_srv w)) = [acme ACTIVE]) as -> by (by vm_compute).
    intros t ->%list_elem_of_singleton. by eexists.
  - by exists w'.
Defined.

(** ** A process that takes its own lease again *)

(** The owner of the expired lease, alive, starts another run of the tenant. *)
Definition retaken : Event :=
  mkEvent (set_reg (λ g, (lease_upsert 1 "app-2:7:x" g).2)) None true None.

(** The leases freed in a trace, with whether each was expired when it was freed. *)
Definition freed_expired (tr : list Action) : list bool :=
  omap (λ a, match a with
             | ARelease key _ g => lease_expired g <$> g_leases g !! key
             | _ => None
             end) tr.

(** Between the check of an expired lease and its
    release, the process that owned it takes it again for a new run, under the
    same owner string; the fence on the owner lets the release through, and a live
    lease is freed without --force. *)
Theorem release_hits_retaken_lease :
  let '(r, w') := _release "acme" false (world ACTIVE expired_lease ∅ (replicate 6 quiet ++ [retaken])) in
  r = Ok "Released lease of acme (key 1): owner app-2:7:x, since 100, until 500 (EXPIRED)."
  ∧ freed_expired (w_trace w') = [false]
  ∧ g_leases (v_reg (w_srv w')) !! 1%Z = Some (mkLease None None None).
Proof. by vm_compute. Qed.

(** ** migrate_schemas on one tenant *)

Definition env0 : Env := mkEnv (VInt 8) (VInt 2) ["default"; "shard1"] (λ _, "/tmp") (λ _, true).
Definition one_tenant : Sync := mkSync false true (Some "acme") None.
Definition plain_options (fake : bool) (jobs : option PyVal) : Options :=
  mkOptions false false false false jobs None None false false None None fake false false false None None 1.
Definition alone : Outside := mkOutside false (λ _, false) false [] None.

Definition ran_ok {A} (r : res exn A * World) : bool := match r.1 with Ok _ => true | Err _ => false end.
Lemma ran_ok_Some {A} (m : M A) w : ran_ok (m w) = true → ∃ a w', m w = (Ok a, w').
Proof. unfold ran_ok. destruct (m w) as [[a|e] w']; [by exists a, w'|done]. Qed.

(** [-s acme --fake] with the default limits, on an active tenant. *)
Lemma validated_options_witness :
  ∃ pl w', _validate env0 one_tenant (plain_options true None) (world ACTIVE ∅ ∅ []) = (Ok pl, w')
    ∧ within_limits pl ∧ ∃ t, pl_tenant pl = Some t ∧ o_status t ∉ PROVISIONABLE.
Proof.
  destruct (ran_ok_Some (_validate env0 one_tenant (plain_options true None)) (world ACTIVE ∅ ∅ []))
    as (pl & w' & E); [by vm_compute|].
  destruct (validated_options env0 one_tenant (plain_options true None) (world ACTIVE ∅ ∅ []) pl w' E) as (Hl & _ & Ht).
  exists pl, w'. split; [exact E|]. split; [exact Hl|]. by destruct (Ht eq_refl) as [Hx|[]].
Defined.

(** What a run of the command reports: the exit code, the kinds of its entries and
    whether it raises. *)
Definition reported (r : res exn (option Ended) * World) : option (option (Z * list EKind) * bool) :=
  match r.1 with
  | Ok (Some en) => Some ((λ rp, (rp_code rp, e_kind <$> rn_entries (rp_run rp))) <$> en_report en, negb (is_none (en_raises en)))
  | _ => None
  end.

(** A new tenant is provisioned; a lease that is held makes the run skip it and
    fail; [--fake] on a tenant that is not provisioned is refused, and so is
    [--jobs 0]. *)
Example handle_provisions :
  reported (handle env0 alone one_tenant (plain_options false None) None (world NEW ∅ ∅ [])) = Some (Some (0%Z, [EOk]), false).
Proof. by vm_compute. Qed.
Example handle_locked :
  reported (handle env0 alone one_tenant (plain_options false None) None
    (world NEW {[1%Z := mkLease (Some "app-2:7:x") (Some 900%Z) (Some 5000%Z)]} ∅ [])) = Some (Some (1%Z, [ESkipped]), true).
Proof. by vm_compute. Qed.
Example handle_refuses :
  ran_ok (handle env0 alone one_tenant (plain_options true None) None (world NEW ∅ ∅ [])) = false
  ∧ ran_ok (handle env0 alone one_tenant (plain_options false (Some (VInt 0))) None (world NEW ∅ ∅ [])) = false.
Proof. by vm_compute. Qed.

(** ** The report of a run *)

Lemma reported_Some m (w : World) code kinds b :
  reported (m w) = Some (Some (code, kinds), b) →
  ∃ en w' rep, m w = (Ok (Some en), w') ∧ en_report en = Some rep ∧ rp_code rep = code ∧ e_kind <$> rn_entries (rp_run rep) = kinds.
Proof.
  unfold reported. destruct (m w) as [[[en|]|e] w']; [|done..]. simpl. destruct (en_report en) as [rep|] eqn:Er; [|done].
  simpl. intros [= <- <- _]. by exists en, w', rep.
Qed.

Lemma report_counts_add_up_witness :
  ∃ en w' rep, handle env0 alone one_tenant (plain_options false None) None (world NEW ∅ ∅ []) = (Ok (Some en), w')
    ∧ en_report en = Some rep ∧ kind_count EOk (rn_entries (rp_run rep)) + kind_count ENoop (rn_entries (rp_run rep)) = 1.
Proof.
  destruct (reported_Some _ _ _ _ _ handle_provisions) as (en & w' & rep & E & Er & Hc & Hk).
  exists en, w', rep. split; [exact E|]. split; [exact Er|].
  destruct (report_counts_add_up env0 alone one_tenant (plain_options false None) None (world NEW ∅ ∅ []) en w' rep E Er) as [_ Hz].
  destruct (Hz Hc) as [Hs _]. rewrite Hs. apply (f_equal length) in Hk. by rewrite length_fmap in Hk.
Defined.

Definition cut_run : Run :=
  mkRun [set_snapshot (mkSnap (Some "active") (Some 2) (Some "app-2:7:x") None)
           (mark EInterrupted (Some HARD_STOP) "interrupted (hard stop)" (new_entry (target_of (acme ACTIVE))))]
    (Some (mkStop fail_fast (Some "shard1"))).

Lemma summary_json_reads_back_witness :
  read_doc (_write_json (mkHeader "t0" "t1" "app-1" 7 None None) one_tenant (plain_options false None) (mkPlan 8 2 3 None) 1 cut_run [Some "acme.log"])
  = Some (1%Z, rn_stop cut_run, zip (rn_entries cut_run) [Some "acme.log"]).
Proof. apply summary_json_reads_back; [done|]. by vm_compute. Defined.

(** A run that was cut off while its tenant was deleted: the lease is still held. *)
Definition deleted_meanwhile : World :=
  let w := world ACTIVE expired_lease ∅ [] in upd_srv (set_reg (λ g, set_tenants (λ _, ∅) g)) w.

(** For a target whose tenant was deleted while its lease
    is held, the summary advises [migration_lease --release acme], and that command
    finds no tenant; the form it needs is key=1. *)
Theorem advice_fails_for_deleted :
  match (snapshot 1 deleted_meanwhile).1 with
  | Ok sn => _fmt_snapshot (target_of (acme ACTIVE)) sn
     = "  acme: status=deleted; lease held by app-2:7:x; once its backend has finished: migration_lease --release acme"
  | Err _ => False
  end
  ∧ (_release "acme" false deleted_meanwhile).1
    = Err (command_error "Tenant 'acme' not found (for a deleted tenant's lease use key=<n> from --list).")
  ∧ ran_ok (_release "key=1" false deleted_meanwhile) = true.
Proof. split_and!; by vm_compute. Qed.
