(* ===== verification/Credentials.v ===== *)
(** * Credentials and permissions

    Models src/users/serializers.py (issuing of tokens), src/users/signals.py (the
    stamp on a session), src/tenants/auth/jwt.py and src/tenants/auth/session.py
    (both checks), src/tenants/permissions.py and src/users/permissions.py.  The
    signing library, [auth.login] and the lookup of the user behind a credential
    are an interface with their documented behaviour; the user tables are one per
    schema, the sessions one table for all of them. *)
From S2P Require Import Prelude PyStr PyExc Models World Schema.
From S2P Require Import ModelMethods.
Open Scope tenants_scope.

(** ** Users *)

Inductive Role := TENANT_ADMIN | COMPANY_ADMIN | CUSTOMER | DRIVER.

#[global] Instance Role_eq_dec : EqDecision Role.
Proof. solve_decision. Defined.

Definition role_value (r : Role) : string :=
  match r with
  | TENANT_ADMIN => "tenant_admin" | COMPANY_ADMIN => "company_admin" | CUSTOMER => "customer" | DRIVER => "driver"
  end.

Record User := mkUser { u_id : Z; u_username : string; u_role : Role; u_is_active : bool }.

(** The user table of a schema. *)
Notation Users := (gmap Z User).

#[global] Instance PyVal_eq_dec : EqDecision PyVal.
Proof. solve_decision. Defined.

(** ** Tokens *)

Notation Claims := (gmap string PyVal).

(** djangorestframework-simplejwt and Django's authentication: the claims of a new
    refresh token, the access token made from one, signing, and the account behind
    a login or a credential, which is looked up in the table of the schema that
    serves the request. *)
Class AuthLib := {
  base_token : User → Claims;
  access_of : Claims → Claims;
  jwt_encode : Claims → string;
  jwt_decode : Z → string → res exn Claims;      (** at a time: expired tokens are refused *)
  authenticate : Users → string → string → option User;
  jwt_get_user : Users → Claims → res exn User;
  session_get_user : Users → Z → option User;
  base_token_user u : base_token u !! "user_id" = Some (VInt (u_id u));
  access_of_copies c k : k ∉ ["token_type"; "exp"; "iat"; "jti"] → access_of c !! k = c !! k;
  jwt_decode_signed now raw c : jwt_decode now raw = Ok c → raw = jwt_encode c;
  jwt_encode_inj c c' : jwt_encode c = jwt_encode c' → c = c';
  authenticate_known us name pw u : authenticate us name pw = Some u → us !! u_id u = Some u ∧ u_username u = name;
  jwt_get_user_known us c u : jwt_get_user us c = Ok u → us !! u_id u = Some u ∧ c !! "user_id" = Some (VInt (u_id u));
  session_get_user_known us n u : session_get_user us n = Some u → us !! u_id u = Some u ∧ u_id u = n;
}.

Definition invalid_token (msg : string) : exn := simple_exn OtherException "InvalidToken" msg.
Definition validation_error (msg : string) : exn := simple_exn OtherException "ValidationError" msg.
Definition no_active_account : exn :=
  simple_exn OtherException "AuthenticationFailed" "No active account found with the given credentials".

(** What a login answers. *)
Record TokenPair := mkPair {
  tp_refresh : string;
  tp_access : string;
  tp_role : Role;
  tp_schema : string;
}.

Section tokens.
Context `{AuthLib}.

(** [_BaseTokenObtainPairSerializer.get_token], on a connection of [schema_name]. *)
Definition get_token (schema_name : string) (user : User) : Claims :=
  let token := base_token user in
  let token := <["role" := VStr (role_value (u_role user))]> token in
  let token := <["schema" := VStr schema_name]> token in
  <["username" := VStr (u_username user)]> token.

Definition validate_base (schema_name : string) (us : Users) (username password : string) : res exn (User * TokenPair) :=
  match authenticate us username password with
  | None => Err no_active_account
  | Some u =>
      let refresh := get_token schema_name u in
      Ok (u, mkPair (jwt_encode refresh) (jwt_encode (access_of refresh)) (u_role u) schema_name)
  end.

Definition PublicTokenObtainPairSerializer_validate (schema_name : string) (us : Users) (username password : string) :
    res exn (User * TokenPair) :=
  data <-? validate_base schema_name us username password ;;
  if negb (String.eqb schema_name "public") then
    Err (validation_error "Tenant administrators must log in on the management host.")
  else if negb (bool_decide (u_role data.1 = TENANT_ADMIN)) then
    Err (validation_error "This endpoint accepts tenant administrators only.")
  else Ok data.

Definition TenantTokenObtainPairSerializer_validate (schema_name : string) (us : Users) (username password : string) :
    res exn (User * TokenPair) :=
  data <-? validate_base schema_name us username password ;;
  if String.eqb schema_name "public" then
    Err (validation_error "This endpoint is only available on tenant subdomains.")
  else if bool_decide (u_role data.1 = TENANT_ADMIN) then
    Err (validation_error "Tenant administrators must log in on the management host.")
  else Ok data.

(** [SchemaBoundJWTAuthentication.get_validated_token]; [token.get("schema")] is
    [None] without the claim. *)
Definition get_validated_token (now : Z) (schema_name : string) (raw_token : string) : res exn Claims :=
  token <-? jwt_decode now raw_token ;;
  if bool_decide (token !! "schema" = Some (VStr schema_name)) then Ok token
  else Err (invalid_token "Token is not valid for this tenant.").

(** The refresh endpoint answers with an access token made from the one presented. *)
Definition token_refresh (now : Z) (raw_token : string) : res exn string :=
  token <-? jwt_decode now raw_token ;; Ok (jwt_encode (access_of token)).

End tokens.

(** ** Sessions *)

(** The keys of a session this code reads: [SESSION_KEY] and ["schema"]. *)
Record Session := mkSession { ss_user : option Z; ss_schema : option string }.

Definition empty_session : Session := mkSession None None.

(** [stamp_tenant_schema]: [schema] is [None] on a backend without schemas. *)
Definition stamp_tenant_schema (schema : option string) (s : Session) : Session :=
  match schema with Some x => mkSession (ss_user s) (Some x) | None => s end.

(** [auth.login(request, user)], which fires [user_logged_in]. *)
Definition auth_login (schema : option string) (user : User) (s : Session) : Session :=
  stamp_tenant_schema schema (mkSession (Some (u_id user)) (ss_schema s)).

Definition API_PATH_PREFIXES : list string := ["/api/v1/"; "/open_api/api/v1/"].

Definition api_path (path : string) : bool := existsb (py_startswith path) API_PATH_PREFIXES.

(** A request: its path, the session cookie and the bearer token it carries. *)
Record Request := mkRequest {
  rq_path : string;
  rq_cookie : option string;
  rq_bearer : option string;
}.

Inductive Guarded := Passed | LoginRedirect.

(** [SchemaBoundSessionMiddleware.__call__] up to [get_response]; [session] is what
    the store holds for the cookie. *)
Definition session_guard (schema_name : string) (rq : Request) (session : Session) : Guarded * Session :=
  if api_path (rq_path rq) then (Passed, session)
  else match rq_cookie rq with
       | None | Some EmptyString => (Passed, session)
       | Some _ =>
           match ss_user session with
           | None => (Passed, session)
           | Some _ =>
               if bool_decide (ss_schema session = Some schema_name) then (Passed, session)
               else (LoginRedirect, empty_session)
           end
       end.

(** ** Permissions

    [request.user] is [None] for an anonymous user. *)

Definition IsTenantAdminOnPublic (schema_name : string) (user : option User) : bool :=
  match user with
  | None => false
  | Some u => if negb (String.eqb schema_name PUBLIC) then false else bool_decide (u_role u = TENANT_ADMIN)
  end.

(** [getattr(connection, "schema_name", "public")]: [None] on a plain backend. *)
Definition _on_tenant (use_multitenant : bool) (schema_name : option string) : bool :=
  if negb use_multitenant then true else negb (String.eqb (default "public" schema_name) "public").

Section business.
Context (use_multitenant : bool) (schema_name : option string).

Definition role_in (rs : list Role) (user : option User) : bool :=
  match user with
  | None => false
  | Some u => _on_tenant use_multitenant schema_name && bool_decide (u_role u ∈ rs)
  end.

Definition IsCompanyAdmin : option User → bool := role_in [COMPANY_ADMIN].
Definition IsCustomer : option User → bool := role_in [CUSTOMER].
Definition IsDriver : option User → bool := role_in [DRIVER].
Definition IsCompanyAdminOrCustomer : option User → bool := role_in [COMPANY_ADMIN; CUSTOMER].

Definition SAFE_METHODS : list string := ["GET"; "HEAD"; "OPTIONS"].

Definition IsCompanyAdminOrReadOnly (method : string) (user : option User) : bool :=
  match user with
  | None => false
  | Some u =>
      if negb (_on_tenant use_multitenant schema_name) then false
      else if mem method SAFE_METHODS then true
      else bool_decide (u_role u = COMPANY_ADMIN)
  end.

End business.

(** ** The platform's credentials over time

    The user tables, the session store (one for every tenant), the tokens handed
    out, and who logged in where. *)
Record Auth := mkAuth {
  au_users : gmap string Users;
  au_sessions : gmap string Session;
  au_issued : list string;
  au_logins : list (string * Z);
}.

Definition users_of (a : Auth) (schema : string) : Users := default ∅ (au_users a !! schema).
Definition session_of (a : Auth) (cookie : option string) : Session :=
  default empty_session (cookie ≫= λ k, au_sessions a !! k).

Section system.
Context `{AuthLib}.

(** Signatures cannot be made without the key: what decodes was handed out. *)
Definition genuine (a : Auth) (raw : string) : Prop := ∀ now c, jwt_decode now raw = Ok c → raw ∈ au_issued a.

Inductive auth_step : Auth → Auth → Prop :=
| auth_users_change a us :                      (* accounts are created, edited and deleted *)
    auth_step a (mkAuth us (au_sessions a) (au_issued a) (au_logins a))
| auth_public_login a schema name pw u p :
    PublicTokenObtainPairSerializer_validate schema (users_of a schema) name pw = Ok (u, p) →
    auth_step a (mkAuth (au_users a) (au_sessions a) (tp_refresh p :: tp_access p :: au_issued a) ((schema, u_id u) :: au_logins a))
| auth_tenant_login a schema name pw u p :
    TenantTokenObtainPairSerializer_validate schema (users_of a schema) name pw = Ok (u, p) →
    auth_step a (mkAuth (au_users a) (au_sessions a) (tp_refresh p :: tp_access p :: au_issued a) ((schema, u_id u) :: au_logins a))
| auth_refresh a now raw access :                 (* at any host *)
    genuine a raw → token_refresh now raw = Ok access →
    auth_step a (mkAuth (au_users a) (au_sessions a) (access :: au_issued a) (au_logins a))
| auth_session_login a schema name pw u old key :
    authenticate (users_of a schema) name pw = Some u →
    auth_step a (mkAuth (au_users a) (<[key := auth_login (Some schema) u old]> (au_sessions a)) (au_issued a)
                   ((schema, u_id u) :: au_logins a))
| auth_guard a schema rq key :                  (* a request at any host, with any cookie *)
    rq_cookie rq = Some key →
    auth_step a (mkAuth (au_users a) (<[key := (session_guard schema rq (session_of a (Some key))).2]> (au_sessions a))
                   (au_issued a) (au_logins a))
| auth_session_gone a key :                     (* expiry, logout *)
    auth_step a (mkAuth (au_users a) (delete key (au_sessions a)) (au_issued a) (au_logins a)).

Definition auth_start (us : gmap string Users) : Auth := mkAuth us ∅ [] [].

(** ** Who a request is served for *)

(** What a URL of either URLconf (urls_public.py, urls_tenant.py) leads to, in the
    order of [urlpatterns].  [ApiView] is everything else under [api/]: the viewsets
    of the router and, on public, the list of base domains; the router answers 404
    where it has no viewset, which serves nobody. *)
Inductive View := HealthView | AdminSite | LoginView | RefreshView | ApiView | NotFound.

#[global] Instance View_eq_dec : EqDecision View.
Proof. solve_decision. Defined.

Definition resolve_url (path : string) : View :=
  if String.eqb path "/api/health/" then HealthView
  else if py_startswith path "/admin/" then AdminSite
  else if String.eqb path "/api/auth/login/" then LoginView
  else if String.eqb path "/api/auth/refresh/" then RefreshView
  else if py_startswith path "/api/" then ApiView
  else NotFound.

(** [DEFAULT_AUTHENTICATION_CLASSES]: the REST views know the bearer token and
    nothing else. *)
Definition rest_user (now : Z) (us : Users) (schema : string) (rq : Request) : option User :=
  match rq_bearer rq with
  | None => None
  | Some raw =>
      match (token <-? get_validated_token now schema raw ;; jwt_get_user us token) with
      | Ok u => Some u
      | Err _ => None
      end
  end.

(** [request.user] as [AuthenticationMiddleware] sets it from the session. *)
Definition session_request_user (us : Users) (rq : Request) (session : Session) : option User :=
  match rq_cookie rq with
  | None | Some EmptyString => None
  | Some _ => ss_user session ≫= session_get_user us
  end.

(** The user a request is served for on [schema]: the session guard runs for every
    path, then the view authenticates with what it accepts.  The login and refresh
    views of simplejwt have no authentication, [health] serves anyone. *)
Definition request_user (now : Z) (a : Auth) (schema : string) (rq : Request) : option User :=
  match session_guard schema rq (session_of a (rq_cookie rq)) with
  | (LoginRedirect, _) => None
  | (Passed, session) =>
      match resolve_url (rq_path rq) with
      | ApiView => rest_user now (users_of a schema) schema rq
      | AdminSite => session_request_user (users_of a schema) rq session
      | HealthView | LoginView | RefreshView | NotFound => None
      end
  end.

End system.
