(* ===== verification/CredentialFacts.v ===== *)
(** * Credentials stay in their tenant

    In every reachable state a request is served for a user only in the schema in
    which that user logged in, by token or by session; the console accepts only
    administrators who logged in on public, and no user passes both a console and a
    business permission. *)
From S2P Require Import Prelude PyStr PyExc Models World Schema ModelMethods Credentials.
Open Scope tenants_scope.

Section facts.
Context `{AuthLib}.

(** A token bound to the schema and the user of a login. *)
Definition bound (logins : list (string * Z)) (c : Claims) : Prop :=
  ∃ s n, c !! "schema" = Some (VStr s) ∧ c !! "user_id" = Some (VInt n) ∧ (s, n) ∈ logins.

(** A session that is logged in is stamped with the schema of a login of its user. *)
Definition stamped (logins : list (string * Z)) (ss : Session) : Prop :=
  ∀ n, ss_user ss = Some n → ∃ s, ss_schema ss = Some s ∧ (s, n) ∈ logins.

Definition auth_inv (a : Auth) : Prop :=
  (∀ raw, raw ∈ au_issued a → ∃ c, raw = jwt_encode c ∧ bound (au_logins a) c)
  ∧ ∀ key ss, au_sessions a !! key = Some ss → stamped (au_logins a) ss.

Lemma bound_mono l l' c : l ⊆ l' → bound l c → bound l' c.
Proof. intros Hl (s & n & ? & ? & ?). exists s, n. auto. Qed.
Lemma stamped_mono l l' ss : l ⊆ l' → stamped l ss → stamped l' ss.
Proof. intros Hl Hs n Hn. destruct (Hs n Hn) as (s & ? & ?). exists s. auto. Qed.

Lemma get_token_bound l schema u : (schema, u_id u) ∈ l → bound l (get_token schema u).
Proof.
  intros Hl. exists schema, (u_id u). unfold get_token.
  rewrite lookup_insert_ne, lookup_insert_eq by done. rewrite !lookup_insert_ne by done. by rewrite base_token_user.
Qed.

Lemma access_bound l c : bound l c → bound l (access_of c).
Proof.
  intros (s & n & Hs & Hn & Hl). exists s, n.
  by rewrite !access_of_copies by (rewrite !not_elem_of_cons; split_and!; try done; apply not_elem_of_nil).
Qed.

Lemma session_of_stamped a key : auth_inv a → stamped (au_logins a) (session_of a (Some key)).
Proof.
  intros [_ Hs]. unfold session_of. cbn [mbind option_bind]. destruct (au_sessions a !! key) as [ss|] eqn:E; [by eapply Hs|done].
Qed.

Lemma guard_stamped l schema rq ss : stamped l ss → stamped l (session_guard schema rq ss).2.
Proof.
  intros Hs. unfold session_guard. destruct (api_path _); [done|]. destruct (rq_cookie rq) as [[|c k]|]; [done| |done].
  destruct (ss_user ss); [|done]. by destruct (bool_decide _).
Qed.

Lemma login_base schema us name pw u p : validate_base schema us name pw = Ok (u, p) →
  tp_refresh p = jwt_encode (get_token schema u) ∧ tp_access p = jwt_encode (access_of (get_token schema u)).
Proof. unfold validate_base. destruct (authenticate us name pw) as [x|]; [|done]. by intros [= <- <-]. Qed.

Lemma public_login_base schema us name pw d : PublicTokenObtainPairSerializer_validate schema us name pw = Ok d →
  validate_base schema us name pw = Ok d ∧ schema = "public" ∧ u_role d.1 = TENANT_ADMIN.
Proof.
  unfold PublicTokenObtainPairSerializer_validate. intros (x & E & Hx)%res_bind_ok.
  destruct (String.eqb_spec schema "public") as [-> |]; [|done]. simpl in Hx.
  destruct (bool_decide (u_role x.1 = TENANT_ADMIN)) eqn:Er; [|done]. injection Hx as <-. bool_props. done.
Qed.

Lemma tenant_login_base schema us name pw d : TenantTokenObtainPairSerializer_validate schema us name pw = Ok d →
  validate_base schema us name pw = Ok d ∧ schema ≠ "public" ∧ u_role d.1 ≠ TENANT_ADMIN.
Proof.
  unfold TenantTokenObtainPairSerializer_validate. intros (x & E & Hx)%res_bind_ok.
  destruct (String.eqb_spec schema "public") as [-> |]; [done|].
  destruct (bool_decide (u_role x.1 = TENANT_ADMIN)) eqn:Er; [done|]. injection Hx as <-. bool_props. done.
Qed.

(** A login adds bound tokens and keeps the rest. *)
Lemma inv_login a schema u p us :
  auth_inv a →
  tp_refresh p = jwt_encode (get_token schema u) → tp_access p = jwt_encode (access_of (get_token schema u)) →
  auth_inv (mkAuth us (au_sessions a) (tp_refresh p :: tp_access p :: au_issued a) ((schema, u_id u) :: au_logins a)).
Proof.
  intros [Hi Hs] Hr Ha. split; cbn [au_issued au_logins au_sessions].
  - assert (bound ((schema, u_id u) :: au_logins a) (get_token schema u)) as Hb by (apply get_token_bound; left).
    intros raw [->|[->|Hraw]%elem_of_cons]%elem_of_cons; [by eexists|eexists; split; [done|by apply access_bound]|].
    destruct (Hi raw Hraw) as (c & ? & Hc). exists c. split; [done|]. eapply bound_mono; [|done]. by apply list_subseteq_cons.
  - intros key ss Hk. eapply stamped_mono; [|by eapply Hs]. by apply list_subseteq_cons.
Qed.

Lemma auth_step_inv a a' : auth_step a a' → auth_inv a → auth_inv a'.
Proof.
  destruct 1 as [a us|a schema name pw u p Hv|a schema name pw u p Hv|a now raw access Hg Hr|a schema name pw u old key Hu
                |a schema rq key Hk|a key]; intros Hinv.
  - exact Hinv.
  - apply public_login_base in Hv as [Hv _]. apply login_base in Hv as [??]. by apply inv_login.
  - apply tenant_login_base in Hv as [Hv _]. apply login_base in Hv as [??]. by apply inv_login.
  - destruct Hinv as [Hi Hs]. split; [|done]. cbn [au_issued au_logins]. intros x [->|Hx]%elem_of_cons; [|by apply Hi].
    unfold token_refresh in Hr. apply res_bind_ok in Hr as (c & Hc & [= <-]).
    destruct (Hi raw (Hg _ _ Hc)) as (c' & -> & Hb). apply jwt_decode_signed, jwt_encode_inj in Hc as ->.
    eexists. split; [done|]. by apply access_bound.
  - destruct Hinv as [Hi Hs]. split; cbn [au_issued au_logins au_sessions].
    + intros raw Hraw. destruct (Hi raw Hraw) as (c & ? & Hc). exists c. split; [done|].
      eapply bound_mono; [|done]. by apply list_subseteq_cons.
    + intros k ss [[<- <-]|[_ Hss]]%lookup_insert_Some.
      * intros n [= <-]. exists schema. split; [done|]. left.
      * eapply stamped_mono; [|by eapply Hs]. by apply list_subseteq_cons.
  - pose proof (session_of_stamped a key Hinv) as Hst. destruct Hinv as [Hi Hs]. split; [done|]. cbn [au_sessions au_logins].
    intros k ss [[<- <-]|[_ Hss]]%lookup_insert_Some; [by apply guard_stamped|by eapply Hs].
  - destruct Hinv as [Hi Hs]. split; [done|]. cbn [au_sessions]. intros k ss [_ Hss]%lookup_delete_Some. by eapply Hs.
Qed.

Lemma auth_reach_inv us a : rtc auth_step (auth_start us) a → auth_inv a.
Proof.
  intros Hr. assert (auth_inv (auth_start us)) as H0.
  { split; [intros raw Hraw; by apply not_elem_of_nil in Hraw|intros key ss Hk; simpl in Hk; by rewrite lookup_empty in Hk]. }
  revert H0. induction Hr as [|x y z Hxy _ IH]; [done|]. eauto using auth_step_inv.
Qed.

Lemma token_user now a schema raw u :
  auth_inv a → genuine a raw →
  (token <-? get_validated_token now schema raw ;; jwt_get_user (users_of a schema) token) = Ok u →
  (schema, u_id u) ∈ au_logins a ∧ users_of a schema !! u_id u = Some u.
Proof.
  intros [Hi _] Hg (c & Hc & Hu)%res_bind_ok. unfold get_validated_token in Hc. apply res_bind_ok in Hc as (c0 & Hd & Hc).
  destruct (bool_decide _) eqn:Es; [|done]. bool_props. simplify_eq.
  apply jwt_get_user_known in Hu as [Hu Hid]. split; [|done].
  destruct (Hi raw (Hg _ _ Hd)) as (c' & -> & s & n & Hs & Hn & Hl).
  apply jwt_decode_signed, jwt_encode_inj in Hd as ->. by simplify_eq.
Qed.

(** The admin site is not under the prefixes the guard lets through. *)
Lemma admin_guarded path : resolve_url path = AdminSite → api_path path = false.
Proof.
  unfold resolve_url. destruct (String.eqb path "/api/health/"); [done|]. destruct (py_startswith path "/admin/") eqn:E.
  - intros _. apply py_startswith_spec in E as [q ->]. reflexivity.
  - destruct (String.eqb path "/api/auth/login/"); [done|]. destruct (String.eqb path "/api/auth/refresh/"); [done|].
    by destruct (py_startswith path "/api/").
Qed.

Lemma session_user a schema rq s u :
  auth_inv a → resolve_url (rq_path rq) = AdminSite → session_guard schema rq (session_of a (rq_cookie rq)) = (Passed, s) →
  session_request_user (users_of a schema) rq s = Some u →
  (schema, u_id u) ∈ au_logins a ∧ users_of a schema !! u_id u = Some u.
Proof.
  intros Hinv Hp%admin_guarded. unfold session_guard, session_request_user. rewrite Hp.
  destruct (rq_cookie rq) as [[|c k]|]; [done| |done].
  pose proof (session_of_stamped a (String c k) Hinv) as Hst.
  destruct (ss_user (session_of a (Some (String c k)))) as [n|] eqn:En; [|intros [= <-]; by rewrite En].
  destruct (bool_decide _) eqn:Es; [|done]. bool_props. intros [= <-]. rewrite En. cbn [mbind option_bind]. intros [Hu Hid]%session_get_user_known.
  split; [|done]. destruct (Hst n En) as (s & Hs & Hl). rewrite Es in Hs. injection Hs as <-. by rewrite Hid.
Qed.

Lemma request_user_bound us a now schema rq u :
  rtc auth_step (auth_start us) a → (∀ raw, rq_bearer rq = Some raw → genuine a raw) →
  request_user now a schema rq = Some u →
  (schema, u_id u) ∈ au_logins a ∧ users_of a schema !! u_id u = Some u.
Proof.
  intros Hr%auth_reach_inv Hg. unfold request_user. destruct (session_guard _ _ _) as [[] s] eqn:Es; [|done].
  destruct (resolve_url (rq_path rq)) eqn:Ep; try done; [by eapply session_user|].
  unfold rest_user. destruct (rq_bearer rq) as [raw|]; [|done]. destruct (token <-? _ ;; _) as [x|e] eqn:E; [|done].
  intros [= ->]. eapply token_user; eauto.
Qed.

(** The repository's REST views are not under the prefixes of the guard: a request
    to one of them that carries a good token of this tenant is turned away, and the
    session lost, when the browser also sends the session of another tenant. *)
Theorem foreign_session_blocks_api now a schema rq key n s :
  resolve_url (rq_path rq) = ApiView → api_path (rq_path rq) = false →
  rq_cookie rq = Some key → key ≠ "" → au_sessions a !! key = Some (mkSession (Some n) (Some s)) → s ≠ schema →
  request_user now a schema rq = None
  ∧ session_guard schema rq (session_of a (rq_cookie rq)) = (LoginRedirect, empty_session).
Proof.
  intros _ Hp Hk Hne Hs Hd. assert (session_guard schema rq (session_of a (rq_cookie rq)) = (LoginRedirect, empty_session)) as E.
  { unfold session_guard, session_of. rewrite Hp, Hk. cbn [mbind option_bind]. rewrite Hs. cbn [default ss_user ss_schema].
    destruct key; [done|]. rewrite bool_decide_eq_false_2; [done|]. by intros [= ->]. }
  split; [|done]. unfold request_user. by rewrite E.
Qed.

(** C4: whatever users log in, refresh tokens and replay tokens and session cookies
    at any host, a request - to the REST views, which take a bearer token, or to the
    admin site, which takes a session - that is served for a user in a schema is
    served for a current user of that schema, who logged in there.  The tokens a
    request carries are ones no one forged. *)
Theorem credential_isolation us a now schema rq u :
  rtc auth_step (auth_start us) a → (∀ raw, rq_bearer rq = Some raw → genuine a raw) →
  request_user now a schema rq = Some u →
  (schema, u_id u) ∈ au_logins a ∧ users_of a schema !! u_id u = Some u.
Proof. apply request_user_bound. Qed.

(** The console lets a request pass only on public, for a
    current tenant administrator who logged in on public; and there no business
    permission passes, for any method. *)
Theorem permissions_separate us a now schema rq :
  rtc auth_step (auth_start us) a → (∀ raw, rq_bearer rq = Some raw → genuine a raw) →
  let user := request_user now a schema rq in
  IsTenantAdminOnPublic schema user = true →
  schema = PUBLIC
  ∧ (∃ u, user = Some u ∧ (PUBLIC, u_id u) ∈ au_logins a ∧ users_of a PUBLIC !! u_id u = Some u ∧ u_role u = TENANT_ADMIN)
  ∧ IsCompanyAdmin true (Some schema) user = false ∧ IsCustomer true (Some schema) user = false
  ∧ IsDriver true (Some schema) user = false ∧ IsCompanyAdminOrCustomer true (Some schema) user = false
  ∧ ∀ method, IsCompanyAdminOrReadOnly true (Some schema) method user = false.
Proof.
  intros Hr Hg user. destruct user as [u|] eqn:Eu; [|done]. simpl. destruct (String.eqb_spec schema PUBLIC) as [-> |]; [|done].
  intros Hrole. simpl in Hrole. bool_props. apply (request_user_bound us a now PUBLIC rq u Hr Hg) in Eu as [Hl Hu]. split; [done|]. split; [by exists u|].
  split_and!; by vm_compute.
Qed.

(** Logins: each endpoint accepts its own roles on its own hosts. *)
Lemma login_exclusive schema us name pw d d' :
  PublicTokenObtainPairSerializer_validate schema us name pw = Ok d →
  TenantTokenObtainPairSerializer_validate schema us name pw = Ok d' → False.
Proof. intros (_ & -> & _)%public_login_base (_ & Hs & _)%tenant_login_base. done. Qed.

End facts.

(** * Scenarios of credentials

    A signing library that knows one key, and logins at two hosts whose user tables
    both have a user 1. *)

#[local] Instance PyVal_countable : Countable PyVal.
Proof.
  refine (inj_countable'
    (λ v, match v with VNone => inl (inl tt) | VBool b => inl (inr b) | VInt n => inr (inl n) | VStr s => inr (inr s) end)
    (λ x, match x with inl (inl _) => VNone | inl (inr b) => VBool b | inr (inl n) => VInt n | inr (inr s) => VStr s end) _).
  by intros [].
Defined.

(** Claims printed as a number; only the strings printed for [minted] decode. *)
Definition print_claims (c : Claims) : string := pretty (N.pos (encode c)).

Lemma print_claims_inj c c' : print_claims c = print_claims c' → c = c'.
Proof. unfold print_claims. intros E%(inj pretty). apply encode_inj. by simplify_eq. Qed.

Definition find_user (us : Users) (p : User → bool) : option User :=
  kv ← list_find (λ kv, p kv.2 = true ∧ u_id kv.2 = kv.1) (map_to_list us); Some kv.2.2.

Lemma find_user_known us p u : find_user us p = Some u → us !! u_id u = Some u ∧ p u = true.
Proof.
  unfold find_user. destruct (list_find _ _) as [[i [k x]]|] eqn:E; [|done]. intros [= <-].
  apply list_find_Some in E as (Hi & [Hp Hk] & _). apply list_elem_of_lookup_2, elem_of_map_to_list in Hi. simpl in *. by subst k.
Qed.

Definition toy_decode (minted : list Claims) (raw : string) : res exn Claims :=
  match list_find (λ c, print_claims c = raw) minted with
  | Some (_, c) => Ok c
  | None => Err (invalid_token "Token is invalid or expired")
  end.

Definition toy_get_user (us : Users) (c : Claims) : res exn User :=
  match c !! "user_id" with
  | Some (VInt n) => match find_user us (λ u, (u_id u =? n)%Z) with
                     | Some u => Ok u
                     | None => Err (invalid_token "User not found")
                     end
  | _ => Err (invalid_token "Token contained no recognizable user identification")
  end.

Program Definition toy_lib (minted : list Claims) : AuthLib := {|
  base_token u := {["user_id" := VInt (u_id u)]};
  access_of c := c;
  jwt_encode := print_claims;
  jwt_decode _ raw := toy_decode minted raw;
  authenticate us name pw := find_user us (λ u, String.eqb (u_username u) name && u_is_active u);
  jwt_get_user := toy_get_user;
  session_get_user us n := find_user us (λ u, (u_id u =? n)%Z);
|}.
Next Obligation. intros minted u. apply lookup_insert_eq. Qed.
Next Obligation. done. Qed.
Next Obligation.
  intros minted now raw c. unfold toy_decode. destruct (list_find _ minted) as [[i c']|] eqn:E; [|done]. intros [= <-].
  by apply list_find_Some in E as (_ & <- & _).
Qed.
Next Obligation. intros minted. apply print_claims_inj. Qed.
Next Obligation.
  intros minted us name pw u [Hu Hp]%find_user_known. apply andb_true_iff in Hp as [Hn _]. by apply String.eqb_eq in Hn.
Qed.
Next Obligation.
  intros minted us c u. unfold toy_get_user. destruct (c !! "user_id") as [[| |n|]|]; try done.
  destruct (find_user us _) as [x|] eqn:E; [|done]. intros [= <-]. apply find_user_known in E as [Hu Hn].
  apply Z.eqb_eq in Hn. by subst n.
Qed.
Next Obligation. intros minted us n u [Hu Hn]%find_user_known. by apply Z.eqb_eq in Hn. Qed.

Definition alice : User := mkUser 1 "alice" COMPANY_ADMIN true.
Definition bob : User := mkUser 1 "bob" COMPANY_ADMIN true.
Definition root : User := mkUser 1 "root" TENANT_ADMIN true.

Definition tables : gmap string Users :=
  <["acme" := {[1%Z := alice]}]> (<["beta" := {[1%Z := bob]}]> {["public" := {[1%Z := root]}]}).

(** The claims of the token of [u] at [schema]. *)
Definition claims (schema : string) (u : User) : Claims :=
  <["username" := VStr (u_username u)]> (<["schema" := VStr schema]>
    (<["role" := VStr (role_value (u_role u))]> {["user_id" := VInt (u_id u)]})).

Definition api (raw : string) : Request := mkRequest "/api/orders/" None (Some raw).

Lemma minted_decodes c now : @jwt_decode (toy_lib [c]) now (print_claims c) = Ok c.
Proof. change (toy_decode [c] (print_claims c) = Ok c). unfold toy_decode. cbn [list_find]. by rewrite decide_True. Qed.

Lemma api_user c a now schema :
  @request_user (toy_lib [c]) now a schema (api (print_claims c))
  = if bool_decide (c !! "schema" = Some (VStr schema)) then
      match toy_get_user (users_of a schema) c with Ok u => Some u | Err _ => None end
    else None.
Proof.
  change (@request_user (toy_lib [c]) now a schema (api (print_claims c)))
    with (@rest_user (toy_lib [c]) now (users_of a schema) schema (api (print_claims c))).
  unfold rest_user, get_validated_token. cbn [api rq_path rq_bearer].
  rewrite minted_decodes. cbn [res_bind]. by destruct (bool_decide _).
Qed.

Lemma toy_decode_one c raw c' : toy_decode [c] raw = Ok c' → raw = print_claims c.
Proof. unfold toy_decode. cbn [list_find]. by destruct (decide (print_claims c = raw)). Qed.

(** ** Alice logs in at acme *)

#[local] Instance acme_lib : AuthLib := toy_lib [claims "acme" alice].

Definition after_login (schema : string) (u : User) : Auth :=
  mkAuth tables ∅ [print_claims (claims schema u); print_claims (claims schema u)] [(schema, u_id u)].

Lemma alice_reachable : rtc auth_step (auth_start tables) (after_login "acme" alice).
Proof.
  eapply rtc_l; [|done]. eapply (auth_tenant_login (auth_start tables) "acme" "alice" "pw" alice
    (mkPair (print_claims (claims "acme" alice)) (print_claims (claims "acme" alice)) COMPANY_ADMIN "acme")).
  reflexivity.
Qed.

Lemma alice_genuine raw : genuine (after_login "acme" alice) raw.
Proof.
  intros now c Hd. change (toy_decode [claims "acme" alice] raw = Ok c) in Hd. apply toy_decode_one in Hd as ->. left.
Qed.

(** The token of acme serves alice on acme; presented at beta it serves nobody. *)
Lemma credential_isolation_witness :
  request_user 0 (after_login "acme" alice) "acme" (api (print_claims (claims "acme" alice))) = Some alice
  ∧ ("acme", u_id alice) ∈ au_logins (after_login "acme" alice)
  ∧ users_of (after_login "acme" alice) "acme" !! u_id alice = Some alice.
Proof.
  assert (request_user 0 (after_login "acme" alice) "acme" (api (print_claims (claims "acme" alice))) = Some alice) as E.
  { etrans; [exact (api_user _ _ _ _)|reflexivity]. }
  split; [exact E|].
  apply (credential_isolation tables (after_login "acme" alice) 0 "acme" (api (print_claims (claims "acme" alice))) alice);
    [apply alice_reachable|intros raw _; apply alice_genuine|exact E].
Defined.

Example orders_not_exempt : resolve_url "/api/orders/" = ApiView ∧ api_path "/api/orders/" = false.
Proof. split; reflexivity. Qed.

Example replayed_token :
  request_user 0 (after_login "acme" alice) "beta" (api (print_claims (claims "acme" alice))) = None.
Proof. etrans; [exact (api_user _ _ _ _)|reflexivity]. Qed.

(** ** Root logs in on public *)

#[local] Instance public_lib : AuthLib := toy_lib [claims "public" root].

Lemma root_reachable : rtc auth_step (auth_start tables) (after_login "public" root).
Proof.
  eapply rtc_l; [|done]. eapply (auth_public_login (auth_start tables) "public" "root" "pw" root
    (mkPair (print_claims (claims "public" root)) (print_claims (claims "public" root)) TENANT_ADMIN "public")). reflexivity.
Qed.

Lemma root_genuine raw : genuine (after_login "public" root) raw.
Proof. intros now c Hd. change (toy_decode [claims "public" root] raw = Ok c) in Hd. apply toy_decode_one in Hd as ->. left. Qed.

Lemma root_served :
  IsTenantAdminOnPublic "public" (request_user 0 (after_login "public" root) "public" (api (print_claims (claims "public" root)))) = true.
Proof.
  assert (request_user 0 (after_login "public" root) "public" (api (print_claims (claims "public" root))) = Some root) as ->.
  { etrans; [exact (api_user _ _ _ _)|reflexivity]. }
  reflexivity.
Qed.

Lemma permissions_separate_witness :
  IsCompanyAdmin true (Some "public")
    (request_user 0 (after_login "public" root) "public" (api (print_claims (claims "public" root)))) = false.
Proof.
  pose proof (permissions_separate tables (after_login "public" root) 0 "public" (api (print_claims (claims "public" root)))
    root_reachable (λ raw _, root_genuine raw) root_served) as (_ & _ & Hc & _).
  exact Hc.
Defined.
