(* ===== verification/SettingsChecks.v ===== *)
(** * Deploy-time checks of the settings

    Models src/tenants/checks/base.py, gate.py (E001), middleware.py (E004) and
    migrate.py (E020, W021, E022, E024, E029); the checks of the beat schedule are
    with the schedule.  A message is its id, its level and its text; hints are left
    out.  [\d] is an ASCII digit. *)
From S2P Require Import Prelude PyStr Models PyExc Logs World Schema Migrator Scheduler ResolveCache ModelMethods Console LeaseCommand MigrateCommand.
From S2P Require Import MigrateCommandFacts.
From Stdlib Require Import Ascii.
Open Scope tenants_scope.

Inductive Level := CheckError | CheckWarning.

#[global] Instance Level_eq_dec : EqDecision Level.
Proof. solve_decision. Defined.

Record CheckMessage := mkCheckMessage { cm_level : Level; cm_id : string; cm_msg : string }.

Definition Error (id msg : string) : CheckMessage := mkCheckMessage CheckError id msg.

(** [mt_check]: a no-op unless USE_MULTITENANT. *)
Definition mt_check {A} (use_multitenant : bool) (fn : A → list CheckMessage) (a : A) : list CheckMessage :=
  if negb use_multitenant then [] else fn a.

(** [bool(v)]. *)
Definition py_bool (v : PyVal) : bool :=
  match v with
  | VNone => false | VBool b => b | VInt n => negb (n =? 0)%Z | VStr s => negb (String.eqb s "")
  end.

(** ** E001 *)

Definition gate_requires_warm (reg : gmap string PyVal) : list CheckMessage :=
  let gate := default (VBool false) (reg !! "GATE_ENABLED") in
  let warm := default (VBool false) (reg !! "WARM_ENABLED") in
  if py_bool gate && negb (py_bool warm) then
    [Error "tenants.E001" "TENANT_REGISTRY['GATE_ENABLED'] is on but ['WARM_ENABLED'] is off."]
  else [].

(** ** E004 *)

Definition chains : list (list string) :=
  [["corsheaders.middleware.CorsMiddleware"; "tenants.middleware.ShardAwareTenantMiddleware";
    "tenants.middleware.TenantShardRoutingMiddleware"];
   ["django.contrib.auth.middleware.AuthenticationMiddleware"; "tenants.auth.session.SchemaBoundSessionMiddleware"]].

(** [mw.index(name)]. *)
Definition index (mw : list string) (name : string) : option nat := fst <$> list_find (name =.) mw.

Definition missing_middleware (name : string) : CheckMessage :=
  Error "tenants.E004" ("MIDDLEWARE (multi-tenant) is missing required middleware " +:+ py_repr name +:+ ".").
Definition misplaced_middleware (a b : string) : CheckMessage :=
  Error "tenants.E004" ("MIDDLEWARE (multi-tenant): " +:+ py_repr a +:+ " must come BEFORE " +:+ py_repr b +:+ ".").

Definition misplaced (pos : string → option nat) (ab : string * string) : bool :=
  match pos ab.1, pos ab.2 with Some i, Some j => (j <? i)%nat | _, _ => false end.

Definition mt_middleware_order (mw : list string) : list CheckMessage :=
  let pos := index mw in
  (missing_middleware <$> filter (λ n, pos n = None) (mjoin chains))
  ++ (chains ≫= λ chain,
        let present := filter (λ n, is_Some (pos n)) chain in
        (λ ab, misplaced_middleware ab.1 ab.2) <$> filter (λ ab, misplaced pos ab = true) (zip present (tail present))).

(** ** E020, W021, E022, E024, E029 *)

(** [_LOCK_TIMEOUT_RE.match]: ["^(0|\d+(ms|s|min))$"], whose [$] also matches before
    a final newline. *)
Definition duration (s : string) : bool :=
  String.eqb s "0"
  || match chars s with
     | c :: l => py_digit c && mem (of_chars (drop_while py_digit l)) ["ms"; "s"; "min"]
     | [] => false
     end.

Definition lock_timeout_match (s : string) : bool :=
  duration s
  || match rev (chars s) with
     | c :: l => Ascii.eqb c newline && duration (of_chars (rev l))
     | [] => false
     end.

Record MigratorSettings := mkMigratorSettings {
  ms_names : list string;               (** [dir(settings)] *)
  ms_executor : option string;          (** [os.environ.get("EXECUTOR")] *)
  ms_jobs : PyVal;
  ms_jobs_per_shard : PyVal;
  ms_lock_timeout : PyVal;
  ms_log_dir : PyVal;
  ms_log_path : option string;          (** [os.fspath(log_dir)] of a path *)
}.

Definition bad_ints (jobs per_shard : PyVal) : list string :=
  fst <$> filter (λ nv, positive_int nv.2 = None) [("TENANT_MIGRATE_JOBS", jobs); ("TENANT_MIGRATE_JOBS_PER_SHARD", per_shard)].

Definition jobs_messages (jobs per_shard : PyVal) : list CheckMessage :=
  match bad_ints jobs per_shard with
  | [] =>
      match positive_int jobs, positive_int per_shard with
      | Some j, Some p =>
          if (j <? p)%Z then [Error "tenants.E022" ("TENANT_MIGRATE_JOBS_PER_SHARD (" +:+ py_int p +:+ ") exceeds TENANT_MIGRATE_JOBS (" +:+ py_int j +:+ ").")]
          else []
      | _, _ => []
      end
  | bad => [Error "tenants.E022" (String.concat ", " bad +:+ " must be an integer >= 1 (got JOBS=" +:+ val_repr jobs
              +:+ ", JOBS_PER_SHARD=" +:+ val_repr per_shard +:+ ").")]
  end.

Definition lock_timeout_messages (lt : PyVal) : list CheckMessage :=
  match lt with
  | VStr s => if lock_timeout_match s then []
              else [Error "tenants.E024" ("TENANT_MIGRATE_DDL_LOCK_TIMEOUT=" +:+ val_repr lt +:+ " is not a PostgreSQL duration the migrator accepts.")]
  | _ => [Error "tenants.E024" ("TENANT_MIGRATE_DDL_LOCK_TIMEOUT=" +:+ val_repr lt +:+ " is not a PostgreSQL duration the migrator accepts.")]
  end.

Definition migrator_settings (s : MigratorSettings) : list CheckMessage :=
  let upstream := merge_sort str_le (filter (λ n, py_startswith n "TENANT_MULTIPROCESSING_" = true) (ms_names s)) in
  (match upstream with
   | [] => []
   | _ => [Error "tenants.E020" (String.concat ", " upstream +:+ " set: django-tenants' multiprocessing executor is not used.")]
   end)
  ++ (match ms_executor s with
      | None | Some EmptyString => []
      | Some x => [mkCheckMessage CheckWarning "tenants.W021" ("Environment variable EXECUTOR=" +:+ py_repr x +:+ " is set.")]
      end)
  ++ jobs_messages (ms_jobs s) (ms_jobs_per_shard s)
  ++ lock_timeout_messages (ms_lock_timeout s)
  ++ (if given_str (ms_log_path s) then []
      else [Error "tenants.E029" ("TENANT_MIGRATE_LOG_DIR=" +:+ val_repr (ms_log_dir s) +:+ " is not a path.")]).

Definition errors_of (ms : list CheckMessage) : list CheckMessage := filter (λ m, cm_level m = CheckError) ms.

(** * What the settings checks guarantee

    E004 accepts exactly the middleware lists in which both chains occur in order;
    settings that pass the migrator's check give limits migrate_schemas accepts, and
    a lock timeout that is a duration; settings that pass E001 have a gate flag that
    is not ignored. *)

(** ** Positions and sublists *)

Lemma index_Some mw n i : index mw n = Some i → mw !! i = Some n.
Proof.
  unfold index. destruct (list_find _ mw) as [[j x]|] eqn:E; [|done]. intros [= <-].
  by apply list_find_Some in E as (Hj & -> & _).
Qed.

Lemma index_elem mw n : is_Some (index mw n) ↔ n ∈ mw.
Proof.
  unfold index. split.
  - intros [i Hi]. by eapply list_elem_of_lookup_2, index_Some.
  - intros Hn. destruct (list_find_elem_of (n =.) mw n Hn eq_refl) as [[i x] Hx]. rewrite Hx. by eexists.
Qed.

(** Elements found at increasing positions form a sublist. *)
Lemma positions_sublist (l mw : list string) (from : nat) (is_ : list nat) :
  Forall2 (λ n i, mw !! i = Some n) l is_ → StronglySorted lt is_ → Forall (le from) is_ → l `sublist_of` drop from mw.
Proof.
  intros Hl. revert from. induction Hl as [|n i l is_ Hn Hl IH]; intros from Hs Hf; [apply sublist_nil_l|].
  apply StronglySorted_inv in Hs as [Hs Hi]. apply Forall_cons in Hf as [Hfi Hf].
  assert (l `sublist_of` drop (S i) mw) as Hrest by (apply IH; [done|eapply Forall_impl; [exact Hi|]; simpl; intros; lia]).
  replace from with (i - (i - from))%nat by lia. assert (drop i mw = n :: drop (S i) mw) as Hd by (by apply drop_S).
  assert (drop i mw `sublist_of` drop (i - (i - from)) mw) as Hsub.
  { replace (drop i mw) with (drop (i - from) (drop (i - (i - from)) mw)) by (rewrite drop_drop; f_equal; lia). apply sublist_drop. }
  etrans; [|exact Hsub]. rewrite Hd. by apply sublist_skip.
Qed.

Definition position (mw : list string) (n : string) : nat := default 0 (index mw n).

Definition in_order (mw chain : list string) : Prop :=
  (∀ n, n ∈ chain → n ∈ mw) ∧ ∀ ab, ab ∈ zip chain (tail chain) → misplaced (index mw) ab = false.

Lemma position_lookup mw n : n ∈ mw → mw !! position mw n = Some n.
Proof. intros [i Hi]%index_elem. unfold position. rewrite Hi. by apply index_Some. Qed.

Lemma positions_sorted mw chain :
  NoDup chain → in_order mw chain → Sorted lt (position mw <$> chain).
Proof.
  intros Hnd [Hin Hp]. induction chain as [|a [|b chain] IH]; [constructor|by repeat constructor|].
  apply NoDup_cons in Hnd as [Hab Hnd]. rewrite fmap_cons. constructor.
  - apply IH; [done|intros n Hn; apply Hin; by right|intros ab Hab'; apply Hp; by right].
  - rewrite fmap_cons. constructor. assert (misplaced (index mw) (a, b) = false) as Hm by (apply Hp; left).
    assert (a ∈ mw) as Ha by (apply Hin; left). assert (b ∈ mw) as Hb by (apply Hin; right; left).
    pose proof (position_lookup mw a Ha) as La. pose proof (position_lookup mw b Hb) as Lb. revert Hm La Lb.
    apply index_elem in Ha as [i Hi], Hb as [j Hj]. unfold misplaced, position. simpl. rewrite Hi, Hj. simpl.
    rewrite Nat.ltb_ge. intros Hle La Lb. assert (i ≠ j) by (intros ->; rewrite La in Lb; injection Lb as ->; by apply Hab; left). lia.
Qed.

Lemma in_order_sublist mw chain : NoDup chain → in_order mw chain → chain `sublist_of` mw.
Proof.
  intros Hnd Ho. change mw with (drop 0 mw). apply (positions_sublist chain mw 0 (position mw <$> chain)).
  - apply Forall2_fmap_r, Forall_Forall2_diag, Forall_forall. intros n Hn. apply position_lookup. by apply Ho.
  - apply Sorted_StronglySorted; [intros ?????; lia|]. by apply positions_sorted.
  - apply Forall_forall. lia.
Qed.

Lemma index_nodup mw n i : NoDup mw → mw !! i = Some n → index mw n = Some i.
Proof.
  intros Hnd Hi. destruct (proj2 (index_elem mw n)) as [j Hj]; [by eapply list_elem_of_lookup_2|].
  rewrite Hj. f_equal. eapply NoDup_lookup; [done|by apply index_Some|done].
Qed.

Lemma sublist_pair (mw : list string) a b : [a; b] `sublist_of` mw → ∃ i j, i < j ∧ mw !! i = Some a ∧ mw !! j = Some b.
Proof.
  intros (k1 & k2 & -> & Hb)%sublist_cons_l. apply sublist_cons_l in Hb as (k3 & k4 & -> & _).
  exists (length k1), (length k1 + S (length k3)). split; [lia|]. split; [by rewrite list_lookup_middle|].
  rewrite lookup_app_r by lia. replace (length k1 + S (length k3) - length k1) with (S (length k3)) by lia. simpl.
  by rewrite list_lookup_middle.
Qed.

Lemma zip_tail_sublist {A} (l : list A) a b : (a, b) ∈ zip l (tail l) → [a; b] `sublist_of` l.
Proof.
  induction l as [|x [|y l] IH]; [by intros ?%not_elem_of_nil|by intros ?%not_elem_of_nil|].
  intros [[= -> ->]|Hin]%elem_of_cons; [repeat constructor; apply sublist_nil_l|]. constructor. by apply IH.
Qed.

Lemma sublist_in_order mw chain : NoDup mw → chain `sublist_of` mw → in_order mw chain.
Proof.
  intros Hnd Hs. split; [intros n Hn; by eapply elem_of_sublist|]. intros [a b] Hab%zip_tail_sublist.
  destruct (sublist_pair mw a b) as (i & j & Hij & Ha & Hb); [by etrans|]. unfold misplaced. simpl.
  rewrite (index_nodup _ _ _ Hnd Ha), (index_nodup _ _ _ Hnd Hb). apply Nat.ltb_ge. lia.
Qed.

(** ** E004 *)

Lemma fmap_filter_nil {A B} (P : A → Prop) `{∀ x, Decision (P x)} (f : A → B) l :
  f <$> filter P l = [] ↔ ∀ x, x ∈ l → ¬ P x.
Proof.
  split.
  - intros E%fmap_nil_inv x Hx Hp. apply (not_elem_of_nil x). rewrite <- E. by apply list_elem_of_filter.
  - intros Hl. assert (filter P l = []) as ->; [|done]. apply elem_of_nil_inv. intros x [Hp Hx]%list_elem_of_filter. by eapply Hl.
Qed.

Lemma bind_nil {A B} (f : A → list B) l : l ≫= f = [] ↔ ∀ x, x ∈ l → f x = [].
Proof.
  split.
  - intros E x Hx. apply elem_of_nil_inv. intros y Hy. apply (not_elem_of_nil y). rewrite <- E. apply list_elem_of_bind. by exists x.
  - intros Hl. apply elem_of_nil_inv. intros y (x & Hy & Hx)%list_elem_of_bind. rewrite Hl in Hy by done. by apply not_elem_of_nil in Hy.
Qed.

Lemma order_silent mw : mt_middleware_order mw = [] ↔ ∀ chain, chain ∈ chains → in_order mw chain.
Proof.
  unfold mt_middleware_order. cbv zeta. rewrite app_nil, fmap_filter_nil, bind_nil.
  assert ((∀ n, n ∈ mjoin chains → index mw n ≠ None) ↔ ∀ chain, chain ∈ chains → ∀ n, n ∈ chain → n ∈ mw) as Hpres.
  { split.
    - intros Hp chain Hc n Hn. apply index_elem. apply not_eq_None_Some, Hp, list_elem_of_join. by exists chain.
    - intros Hp n (chain & Hn & Hc)%list_elem_of_join. apply not_eq_None_Some, index_elem. by eapply Hp. }
  rewrite Hpres. assert (∀ chain : list string, (∀ n, n ∈ chain → n ∈ mw) → filter (λ n, is_Some (index mw n)) chain = chain) as Hf.
  { induction chain as [|n chain IH]; intros Hc; [done|]. rewrite filter_cons, decide_True by (apply index_elem, Hc; left).
    f_equal. apply IH. intros x Hx. apply Hc. by right. }
  split.
  - intros [Hp Ho] chain Hc. specialize (Ho chain Hc). rewrite Hf in Ho by (by apply Hp). split; [by apply Hp|].
    intros ab Hab. rewrite fmap_filter_nil in Ho. specialize (Ho ab Hab). by destruct (misplaced _ ab).
  - intros Ho. split; [intros chain Hc; by apply Ho|]. intros chain Hc. destruct (Ho chain Hc) as [Hp Hm].
    rewrite Hf by done. apply fmap_filter_nil. intros ab Hab. by rewrite Hm.
Qed.

(** For a middleware list without duplicates the check
    E004 is silent exactly when CORS, tenant resolution and shard routing, and
    authentication and the session guard, all occur, in these orders, adjacent or
    not. *)
Theorem middleware_order_exact mw :
  NoDup mw → mt_middleware_order mw = [] ↔ ∀ chain, chain ∈ chains → chain `sublist_of` mw.
Proof.
  intros Hnd. rewrite order_silent. split; intros Hc chain Hin.
  - apply in_order_sublist; [|by apply Hc]. revert chain Hin. apply Forall_forall. repeat constructor; set_solver.
  - apply sublist_in_order; [done|by apply Hc].
Qed.

(** ** The migrator's settings *)

Lemma positive_int_bad jobs per_shard : bad_ints jobs per_shard = [] →
  ∃ j p, positive_int jobs = Some j ∧ positive_int per_shard = Some p.
Proof.
  unfold bad_ints. rewrite fmap_filter_nil. intros Hb.
  destruct (positive_int jobs) as [j|] eqn:Ej; [|by destruct (Hb ("TENANT_MIGRATE_JOBS", jobs)); [left|]].
  destruct (positive_int per_shard) as [p|] eqn:Ep; [by exists j, p|].
  by destruct (Hb ("TENANT_MIGRATE_JOBS_PER_SHARD", per_shard)); [right; left|].
Qed.

Lemma jobs_silent jobs per_shard : jobs_messages jobs per_shard = [] →
  ∃ j p, positive_int jobs = Some j ∧ positive_int per_shard = Some p ∧ (p ≤ j)%Z.
Proof.
  unfold jobs_messages. destruct (bad_ints jobs per_shard) eqn:Eb; [|done].
  destruct (positive_int_bad _ _ Eb) as (j & p & -> & ->). destruct (j <? p)%Z eqn:El; [done|]. intros _.
  exists j, p. by apply Z.ltb_ge in El.
Qed.

Lemma errors_app l1 l2 : errors_of (l1 ++ l2) = errors_of l1 ++ errors_of l2.
Proof. apply filter_app. Qed.

Lemma errors_of_jobs jobs per_shard : errors_of (jobs_messages jobs per_shard) = jobs_messages jobs per_shard.
Proof. unfold jobs_messages. repeat case_match; done. Qed.

(** With settings in which the migrator's check finds no
    error, migrate_schemas without limits on the command line passes the validation
    of its limits, and the limits satisfy the scheduler's bounds. *)
Theorem accepted_settings_run s env o :
  errors_of (migrator_settings s) = [] →
  TENANT_MIGRATE_JOBS env = ms_jobs s → TENANT_MIGRATE_JOBS_PER_SHARD env = ms_jobs_per_shard s →
  op_jobs o = None → op_jobs_per_shard o = None → op_max_failures o = None →
  ∃ jobs per_shard, check_limits env o = Ok (jobs, per_shard, 3%Z) ∧ (1 ≤ per_shard)%Z ∧ (per_shard ≤ jobs)%Z.
Proof.
  intros He Hj Hp Oj Op Om. unfold migrator_settings in He. cbv zeta in He. rewrite !errors_app, !app_nil in He.
  destruct He as (_ & _ & He & _). rewrite errors_of_jobs in He. apply jobs_silent in He as (j & p & Ej & Ep & Hle).
  assert (check_limits env o = Ok (j, p, 3%Z)) as E.
  { unfold check_limits. rewrite Oj, Op, Om. cbn [default]. unfold check_positive. rewrite Hj, Hp, Ej, Ep. simpl.
    by rewrite (proj2 (Z.ltb_ge j p)). }
  exists j, p. split; [done|]. by apply check_limits_ok in E as (? & ? & _).
Qed.

(** ** The gate's flags *)

(** A configuration read from the raw dict. *)
Definition flags_of (reg : gmap string PyVal) (cfg : Cfg) : Prop :=
  GATE_ENABLED cfg = py_bool (default (VBool false) (reg !! "GATE_ENABLED"))
  ∧ WARM_ENABLED cfg = py_bool (default (VBool false) (reg !! "WARM_ENABLED")).

(** E001 is silent exactly when the gate does what its flag says. *)
Lemma gate_flag_effective reg cfg : flags_of reg cfg → gate_requires_warm reg = [] ↔ gate_enabled cfg = GATE_ENABLED cfg.
Proof.
  intros [Hg Hw]. unfold gate_requires_warm, gate_enabled, warm_enabled. rewrite Hg, Hw. cbv zeta.
  by destruct (py_bool (default (VBool false) (reg !! "GATE_ENABLED"))), (py_bool (default (VBool false) (reg !! "WARM_ENABLED"))).
Qed.

(** ** On the settings of the repository *)

Definition MIDDLEWARE : list string :=
  ["corsheaders.middleware.CorsMiddleware"; "tenants.middleware.ShardAwareTenantMiddleware";
   "tenants.middleware.TenantShardRoutingMiddleware"; "django.contrib.sessions.middleware.SessionMiddleware";
   "django.contrib.auth.middleware.AuthenticationMiddleware"; "tenants.auth.session.SchemaBoundSessionMiddleware"].

Lemma middleware_order_exact_witness :
  NoDup MIDDLEWARE ∧ ∀ chain, chain ∈ chains → chain `sublist_of` MIDDLEWARE.
Proof.
  assert (NoDup MIDDLEWARE) as Hnd by (apply (bool_decide_unpack _); by vm_compute).
  split; [exact Hnd|]. apply (middleware_order_exact MIDDLEWARE Hnd). by vm_compute.
Defined.

(** The middlewares swapped. *)
Example misordered : length (mt_middleware_order (reverse MIDDLEWARE)) = 3.
Proof. by vm_compute. Qed.

Definition repo_settings : MigratorSettings := mkMigratorSettings [] None (VInt 8) (VInt 2) (VStr "5s") (VStr "/var/log") (Some "/var/log").

Lemma accepted_settings_run_witness :
  let env := mkEnv (VInt 8) (VInt 2) [] (λ s, s) (λ _, true) in
  let o := mkOptions false false false false None None None false false None None false false false false None None 1 in
  ∃ jobs per_shard, check_limits env o = Ok (jobs, per_shard, 3%Z) ∧ (1 ≤ per_shard)%Z ∧ (per_shard ≤ jobs)%Z.
Proof. intros env o. apply (accepted_settings_run repo_settings env o); by vm_compute. Defined.

Example durations :
  (lock_timeout_match <$> ["0"; "5s"; "250ms"; "2min"; "5"; "s"; "-1s"; "5h"; "00"; "5 s"])
  = [true; true; true; true; false; false; false; false; false; false].
Proof. by vm_compute. Qed.
