(* ===== verification/SchemaCommands.v ===== *)
(** * Commands on schemas, shards and registrations

    Models src/commons/platform/commands.py and, under
    src/tenants/management/commands/: drop_tenant_schema.py, create_tenant_schema.py,
    sync_shards.py and migrate.py.  Output is the list of lines written. *)
From S2P Require Import Prelude PyStr Validators Models PyExc Logs World Lease Schema Migrator Scheduler Requests ModelMethods Console.
From S2P Require Import LeaseCommand MigrateCommand Quiet MigratorRun.
From Stdlib Require Import Ascii.
Open Scope tenants_scope.

(** ** sync_shards *)

Definition py_upper_char (c : ascii) : ascii :=
  let n := nat_of_ascii c in
  if (97 <=? n)%nat && (n <=? 122)%nat then ascii_of_nat (n - 32) else c.
Definition py_alpha (c : ascii) : bool :=
  let n := nat_of_ascii (py_lower_char c) in (97 <=? n)%nat && (n <=? 122)%nat.

(** [s.title()]: a letter is upper case after a character that is not a letter. *)
Fixpoint title_chars (after_letter : bool) (l : list ascii) : list ascii :=
  match l with
  | [] => []
  | c :: l' => (if after_letter then py_lower_char c else py_upper_char c) :: title_chars (py_alpha c) l'
  end.
Definition py_title (s : string) : string := of_chars (title_chars false (chars s)).

Definition shard_name (alias : string) : string := py_title (py_replace underscore " "%char alias).

(** INSERT of a shard: the alias is unique, and so is the default. *)
Definition shard_clash (g : Registry) (s : Shard) : bool :=
  existsb (λ ks, String.eqb (sh_alias ks.2) (sh_alias s) || (sh_is_default ks.2 && sh_is_default s)) (map_to_list (g_shards g)).

Definition shard_insert_stmt (seq : Z) (s : Shard) (v : Srv) : res exn unit * Srv * list Action :=
  if bool_decide (is_Some (g_shards (v_reg v) !! seq)) || shard_clash (v_reg v) s
  then (Err (integrity_error "duplicate key value violates unique constraint"), v, [])
  else (Ok tt, set_reg (set_shards (<[seq := s]>)) v, []).

Definition new_shard (activate : bool) (alias : string) : Shard :=
  let is_default := String.eqb alias "default" in
  mkShard alias (shard_name alias) is_default (is_default || activate).

Section commands.
Context `{Invalidator}.

(** ** [TenantCommand.execute] and the disabled [migrate] *)

Definition TenantCommand_execute {A} (use_multitenant : bool) (module : string) (handle : M A) : M A :=
  if negb use_multitenant then
    raise (command_error (module +:+ ": this command requires USE_MULTITENANT=True (it operates on tenant schemas, which do not exist in standalone mode)."))
  else handle.

Definition migrate_handle {A} (creating_test_dbs : bool) (upstream : M A) : M A :=
  if negb creating_test_dbs then
    raise (command_error "manage.py migrate is disabled in multi-tenant mode; use migrate_schemas (see deploy/migrations_zero_downtime.md).")
  else upstream.

(** The loop; [seq n] is the key the sequence hands out for the [n]-th insert. *)
Fixpoint create_shards (activate : bool) (existing : list string) (seq : nat → Z) (n : nat) (aliases : list string) : M (list string) :=
  match aliases with
  | [] => ret []
  | a :: aliases' =>
      if mem a existing then create_shards activate existing seq n aliases'
      else
        query "default" (shard_insert_stmt (seq n) (new_shard activate a)) ;;;
        rest <-! create_shards activate existing seq (S n) aliases' ;;
        ret (("Created shard " +:+ a +:+ " (is_default=" +:+ val_repr (VBool (String.eqb a "default")) +:+ ")") :: rest)
  end.

Definition shard_aliases (g : Registry) : list string := (λ ks, sh_alias ks.2) <$> map_to_list (g_shards g).

Definition sync_shards (databases : list string) (activate : bool) (seq : nat → Z) : M (list string) :=
  existing <-! select "default" (λ v, shard_aliases (v_reg v)) ;;
  out <-! create_shards activate existing seq 0 databases ;;
  ret (match out with [] => ["All aliases already registered."] | _ => out end).

(** ** drop_tenant_schema *)

Definition live_tenant (g : Registry) (schema alias : string) : option TenantObj :=
  list_find (λ t, o_schema t = schema ∧ o_alias t = alias) (all_tenants g) ≫= λ x, Some x.2.

Definition undefined_schema (schema : string) : exn :=
  simple_exn OtherException "ProgrammingError" ("schema " +:+ py_repr schema +:+ " does not exist").

(** DROP SCHEMA ... CASCADE. *)
Definition drop_stmt (alias schema : string) (v : Srv) : res exn unit * Srv * list Action :=
  match db_schemas (db_of alias v) !! schema with
  | None => (Err (undefined_schema schema), v, [])
  | Some _ => (Ok tt, set_db alias (λ db, mkShardDb (delete schema (db_schemas db)) (db_sessions db) (db_now db)) v, [])
  end.

Definition drop_refusal (databases : list string) (alias schema : string) : option exn :=
  if negb (mem alias databases) then
    Some (command_error ("Unknown database alias " +:+ py_repr alias +:+ ". Available: " +:+ list_repr (merge_sort str_le databases)))
  else if String.eqb schema PUBLIC then Some (command_error "Refusing to drop the 'public' schema.")
  else if String.eqb schema "" then Some (command_error "--schema is required.")
  else None.

Definition still_exists (schema alias : string) (t : TenantObj) : exn :=
  command_error ("Tenant " +:+ py_repr schema +:+ " still exists on shard " +:+ py_repr alias +:+ " (status=" +:+ status_value (o_status t)
    +:+ "). Delete the tenant first — this command only cleans up orphaned schemas.").

(** [answer]: what [input(...)] returned, or raised. *)
Definition confirm_drop (no_input : bool) (answer : res exn string) (schema : string) : M unit :=
  if no_input then ret tt
  else
    a <-! lift answer ;;
    if String.eqb a schema then ret tt else raise (command_error "Confirmation did not match - aborted.").

Definition drop_tenant_schema (databases : list string) (alias schema_arg : string) (no_input : bool) (answer : res exn string) : M string :=
  let schema := normalize_schema_name schema_arg in
  match drop_refusal databases alias schema with
  | Some e => raise e
  | None =>
      live <-! select "default" (λ v, live_tenant (v_reg v) schema alias) ;;
      match live with
      | Some t => raise (still_exists schema alias t)
      | None =>
          present <-! select alias (λ v, bool_decide (is_Some (db_schemas (db_of alias v) !! schema))) ;;
          if negb present then ret ("Schema " +:+ py_repr schema +:+ " not found on shard " +:+ py_repr alias +:+ " - nothing to do.")
          else
            confirm_drop no_input answer schema ;;;
            ensure_connection alias ;;;
            quote_schema_m schema ;;;
            query alias (drop_stmt alias schema) ;;;
            ret ("Dropped schema " +:+ py_repr schema +:+ " on shard " +:+ py_repr alias +:+ ".")
      end
  end.

End commands.

(** ** create_tenant_schema *)

Section create_schema.
Context `{Invalidator} `{Site} `{Upstream}.

Definition duplicate_schema (schema : string) : exn :=
  simple_exn OtherException "ProgrammingError" ("schema " +:+ py_repr schema +:+ " already exists").

(** CREATE SCHEMA, without IF NOT EXISTS. *)
Definition create_stmt (alias schema : string) (v : Srv) : res exn unit * Srv * list Action :=
  match db_schemas (db_of alias v) !! schema with
  | Some _ => (Err (duplicate_schema schema), v, [])
  | None => (Ok tt, set_db alias (λ db, mkShardDb (<[schema := mkSchema [] 0 0 []]> (db_schemas db)) (db_sessions db) (db_now db)) v,
             [ACreateSchema alias schema])
  end.

Definition create_tenant_schema (schema : string) : M string :=
  t <-! select "default" (λ v, by_schema_name (v_reg v) schema) ;;
  match t with
  | None => raise (command_error ("Tenant " +:+ py_repr schema +:+ " not found in default."))
  | Some t =>
      if String.eqb (o_schema t) PUBLIC then
        raise (command_error ("The public schema is auto-created by PostgreSQL on CREATE DATABASE. Do not run this command for " +:+ py_repr (o_schema t) +:+ "."))
      else if sh_is_default (o_shard t) then
        raise (command_error ("Tenant " +:+ py_repr schema +:+ " has shard '" +:+ o_alias t +:+ "' (is_default=True). "
          +:+ "Creating tenant schemas on the default database is not allowed. Inspect Tenant.shard - this looks like a clean()-bypass anomaly."))
      else
        let alias := o_alias t in
        connection alias ;;;
        exists_ <-! select alias (λ v, up_schema_exists (db_of alias v) schema) ;;
        if exists_ : bool then ret ("Schema " +:+ schema +:+ " already exists in " +:+ alias +:+ ".")
        else
          ensure_connection alias ;;;
          quote_schema_m schema ;;;
          query alias (create_stmt alias schema) ;;;
          ret ("Created schema " +:+ schema +:+ " in " +:+ alias +:+ ".")
  end.

End create_schema.

(** * What the schema and shard commands do

    An undisturbed drop_tenant_schema removes one schema of one shard, and only one
    that belongs to no tenant; sync_shards registers exactly the aliases that were
    missing. *)

(** ** drop_tenant_schema *)

Definition without_schema (alias schema : string) (v : Srv) : Srv :=
  set_db alias (λ db, mkShardDb (delete schema (db_schemas db)) (db_sessions db) (db_now db)) v.

Definition present (alias schema : string) (v : Srv) : bool := bool_decide (is_Some (db_schemas (db_of alias v) !! schema)).

(** The operator agreed. *)
Definition confirmed (no_input : bool) (answer : res exn string) (schema : string) : bool :=
  no_input || match answer with Ok a => String.eqb a schema | Err _ => false end.

(** Nothing refuses the schema before the shard is asked. *)
Definition droppable (databases : list string) (alias schema : string) (v : Srv) : bool :=
  is_none (drop_refusal databases alias schema) && is_none (live_tenant (v_reg v) schema alias).

Definition drops (databases : list string) (alias schema : string) (agreed : bool) (v : Srv) : bool :=
  droppable databases alias schema v && present alias schema v && agreed && is_safe_schema_identifier schema.

Lemma live_tenant_None g schema alias pk t :
  live_tenant g schema alias = None → get_tenant g pk = Some t → ¬ (o_schema t = schema ∧ o_alias t = alias).
Proof.
  unfold live_tenant. intros Hn Hg Ht. destruct (list_find _ (all_tenants g)) as [x|] eqn:E; [done|].
  apply list_find_None in E. rewrite Forall_forall in E. apply (E t); [|done]. unfold all_tenants.
  apply list_elem_of_omap. exists pk. split; [|done]. apply list_elem_of_fmap.
  unfold get_tenant in Hg. destruct (g_tenants g !! pk) as [row|] eqn:Er; [|done]. exists (pk, row). split; [done|].
  by apply elem_of_map_to_list.
Qed.

Section facts.
Context `{Invalidator} (alias : string).
Notation runs := (runs alias).

Lemma runs_lift_res {A} (r : res exn A) q : runs (lift r) q r q.
Proof. intros w Hw. by exists w. Qed.

Lemma runs_confirm no_input answer schema q :
  ∃ r, runs (confirm_drop no_input answer schema) q r q ∧ (r = Ok tt ↔ confirmed no_input answer schema = true).
Proof.
  unfold confirm_drop, confirmed. destruct no_input; [exists (Ok tt); split; [apply runs_ret|done]|]. destruct answer as [a|e].
  - destruct (String.eqb a schema) eqn:E.
    + exists (Ok tt). split; [|done]. eapply runs_bind; [apply runs_lift_res|]. rewrite E. apply runs_ret.
    + eexists (Err _). split; [|done]. eapply runs_bind; [apply runs_lift_res|]. rewrite E. apply runs_raise.
  - exists (Err e). split; [|done]. eapply runs_bind_err. apply runs_lift_res.
Qed.

Lemma runs_quote schema q :
  ∃ r, runs (quote_schema_m schema) q r q ∧ ((∃ s, r = Ok s) ↔ is_safe_schema_identifier schema = true).
Proof.
  unfold quote_schema_m, quote_schema. destruct (is_safe_schema_identifier schema); simpl.
  - eexists. split; [apply runs_ret|]. split; [done|]. by eexists.
  - eexists (Err _). split; [apply runs_raise|]. split; [by intros [??]|done].
Qed.

(** From the confirmation on. *)
Lemma runs_drop_rest no_input answer schema q (out : string) :
  present alias schema (q_srv q) = true →
  ∃ r, runs (confirm_drop no_input answer schema ;;; ensure_connection alias ;;; quote_schema_m schema ;;;
              query alias (drop_stmt alias schema) ;;; ret out) q r
        (if confirmed no_input answer schema && is_safe_schema_identifier schema
         then q_set_srv (without_schema alias schema (q_srv q)) q else q)
       ∧ ((∃ s, r = Ok s) ↔ confirmed no_input answer schema && is_safe_schema_identifier schema = true).
Proof.
  intros Hp. unfold present in Hp. apply bool_decide_eq_true in Hp as [st Hst].
  destruct (runs_confirm no_input answer schema q) as (rc & Rc & Hc). destruct (runs_quote schema q) as (rq & Rq & Hq).
  destruct (confirmed no_input answer schema) eqn:Ec.
  2: { destruct rc as [[]|e]; [by destruct Hc as [Hc _]; specialize (Hc eq_refl)|]. exists (Err e).
       split; [by eapply runs_bind_err|]. split; [by intros [??]|done]. }
  destruct rc as [[]|e]; [|by destruct Hc as [_ Hc]; specialize (Hc eq_refl)].
  destruct (is_safe_schema_identifier schema) eqn:Es; simpl.
  - destruct rq as [s|e]; [|by destruct Hq as [_ Hq]; destruct (Hq eq_refl)]. exists (Ok out). split; [|split; [done|by eexists]].
    eapply runs_bind; [exact Rc|]. eapply runs_bind; [apply runs_ensure, known_alias|]. eapply runs_bind; [exact Rq|].
    eapply runs_bind; [|apply runs_ret]. pose proof (runs_query alias alias (drop_stmt alias schema) q (known_alias alias)) as Rd.
    unfold effect, after, drop_stmt in Rd. rewrite Hst in Rd. exact Rd.
  - destruct rq as [s|e]; [by destruct Hq as [Hq _]; specialize (Hq (ex_intro _ s eq_refl))|]. exists (Err e).
    split; [|split; [by intros [??]|done]].
    eapply runs_bind; [exact Rc|]. eapply runs_bind; [apply runs_ensure, known_alias|]. by eapply runs_bind_err.
Qed.

Lemma runs_drop databases arg no_input answer q :
  let schema := normalize_schema_name arg in
  let agreed := confirmed no_input answer schema in
  ∃ r, runs (drop_tenant_schema databases alias arg no_input answer) q r
        (if drops databases alias schema agreed (q_srv q) then q_set_srv (without_schema alias schema (q_srv q)) q else q)
       ∧ ((∃ s, r = Ok s) ↔ droppable databases alias schema (q_srv q) = true
                            ∧ (present alias schema (q_srv q) = true → agreed && is_safe_schema_identifier schema = true)).
Proof.
  intros schema agreed. unfold drop_tenant_schema, drops, droppable. fold schema.
  destruct (drop_refusal databases alias schema) as [e|]; simpl.
  { exists (Err e). split; [apply runs_raise|]. split; [by intros [??]|]. by intros [??]. }
  assert (Rl := runs_select alias "default" (λ v, live_tenant (v_reg v) schema alias) q (known_default alias)).
  destruct (live_tenant (v_reg (q_srv q)) schema alias) as [t|] eqn:El; simpl.
  { eexists (Err _). split; [eapply runs_bind; [exact Rl|]; cbn beta iota; apply runs_raise|]. split; [by intros [??]|by intros [??]]. }
  assert (Rp := runs_select alias alias (λ v, present alias schema v) q (known_alias alias)).
  destruct (present alias schema (q_srv q)) eqn:Ep; simpl.
  - destruct (runs_drop_rest no_input answer schema q ("Dropped schema " +:+ py_repr schema +:+ " on shard " +:+ py_repr alias +:+ ".") Ep)
      as (r & R & Hr). exists r. split.
    + eapply runs_bind; [exact Rl|]. cbn beta iota. eapply runs_bind; [exact Rp|]. cbn beta iota. exact R.
    + rewrite Hr. fold agreed. split; [intros Hx; by split|intros [_ Hx]; by apply Hx].
  - eexists (Ok _). split; [|split; [done|by eexists]].
    eapply runs_bind; [exact Rl|]. cbn beta iota. eapply runs_bind; [exact Rp|]. cbn beta iota. apply runs_ret.
Qed.

End facts.

(** C23: an undisturbed drop_tenant_schema removes exactly one schema from
    exactly one shard, when the alias is configured, the name is a safe one other
    than public, no tenant has it on that shard, it exists and the operator agreed;
    otherwise nothing changes.  It succeeds when it dropped the schema or there was
    none, and it never drops a schema of a registered tenant. *)
Theorem drop_exact `{Invalidator} databases alias arg no_input answer w :
  Quiet alias w →
  let schema := normalize_schema_name arg in
  let agreed := confirmed no_input answer schema in
  let hit := drops databases alias schema agreed (w_srv w) in
  ∃ r w', drop_tenant_schema databases alias arg no_input answer w = (r, w')
    ∧ w_srv w' = (if hit then without_schema alias schema (w_srv w) else w_srv w)
    ∧ ((∃ s, r = Ok s) ↔ droppable databases alias schema (w_srv w) = true ∧ (present alias schema (w_srv w) = true → hit = true))
    ∧ (hit = true → schema ≠ PUBLIC ∧ ∀ pk t, get_tenant (v_reg (w_srv w)) pk = Some t → ¬ (o_schema t = schema ∧ o_alias t = alias)).
Proof.
  intros Hw schema agreed hit. destruct (runs_drop alias databases arg no_input answer (view_of w)) as (r & R & Hr).
  destruct (R w Hw) as (w' & E & Hw'). exists r, w'. split; [exact E|]. fold schema agreed in Hr, Hw'. cbn [q_srv view_of] in Hr, Hw'.
  fold hit in Hw'. split; [|split].
  - rewrite (st_srv _ _ _ Hw'). by destruct hit.
  - rewrite Hr. unfold hit, drops. split; intros [Hd Hp]; (split; [done|]); intros Hpr; specialize (Hp Hpr).
    + by rewrite Hd, Hpr.
    + rewrite !andb_true_iff in Hp. destruct Hp as [[_ Ha] Hs]. by rewrite Ha, Hs.
  - unfold hit, drops, droppable. rewrite !andb_true_iff. intros [[[[Href Hlive] _] _] _]. split.
    + intros Epub. unfold drop_refusal in Href. rewrite Epub in Href. by destruct (mem alias databases).
    + intros pk t. apply live_tenant_None. by destruct (live_tenant _ _ _).
Qed.

(** ** sync_shards *)

(** The shard table after inserting [l] from sequence number [n] on. *)
Fixpoint add_shards (activate : bool) (seq : nat → Z) (n : nat) (l : list string) (m : gmap Z Shard) : gmap Z Shard :=
  match l with
  | [] => m
  | a :: l' => add_shards activate seq (S n) l' (<[seq n := new_shard activate a]> m)
  end.

Definition has_alias (m : gmap Z Shard) (a : string) : Prop := ∃ k s, m !! k = Some s ∧ sh_alias s = a.

(** What makes the inserts of [l] succeed: fresh keys, aliases that are not taken,
    and no default shard under another alias. *)
Record Insertable (seq : nat → Z) (n : nat) (l : list string) (m : gmap Z Shard) : Prop := {
  ins_keys : ∀ i, n ≤ i → m !! seq i = None;
  ins_aliases : ∀ a, a ∈ l → ¬ has_alias m a;
  ins_nodup : NoDup l;
  ins_default : ∀ k s, m !! k = Some s → sh_is_default s = true → sh_alias s = "default";
}.

Lemma insertable_cons seq activate n a l m :
  Inj (=) (=) seq → Insertable seq n (a :: l) m → Insertable seq (S n) l (<[seq n := new_shard activate a]> m).
Proof.
  intros Hseq [Hk Ha Hnd Hd]. apply NoDup_cons in Hnd as [Hal Hnd]. split; [| |done|].
  - intros i Hi. rewrite lookup_insert_ne by (intros E%Hseq; lia). apply Hk. lia.
  - intros b Hb (k & s & Hs & Es). apply lookup_insert_Some in Hs as [[_ <-]|[_ Hs]].
    + simpl in Es. by subst b.
    + apply (Ha b); [by right|]. by exists k, s.
  - intros k s Hs Hds. apply lookup_insert_Some in Hs as [[_ <-]|[_ Hs]]; [|by eapply Hd].
    simpl in Hds |- *. by apply String.eqb_eq.
Qed.

Lemma insert_no_clash seq activate n a l g :
  Insertable seq n (a :: l) (g_shards g) → bool_decide (is_Some (g_shards g !! seq n)) || shard_clash g (new_shard activate a) = false.
Proof.
  intros [Hk Ha _ Hd]. apply orb_false_iff. split.
  - apply bool_decide_eq_false. rewrite Hk by lia. by intros [??].
  - apply not_true_iff_false. unfold shard_clash. rewrite existsb_exists. intros ([k s] & Hin%list_elem_of_In & Hc).
    apply elem_of_map_to_list in Hin. cbn [snd] in Hc. apply orb_true_iff in Hc as [Hc|Hc].
    + apply String.eqb_eq in Hc. apply (Ha a); [left|]. by exists k, s.
    + apply andb_true_iff in Hc as [Hs Hdef]. simpl in Hdef. apply String.eqb_eq in Hdef. subst a.
      apply (Ha "default"); [left|]. exists k, s. split; [done|]. by eapply Hd.
Qed.

Section sync.
Context `{Invalidator}.
Notation runs := (runs "default").

Lemma runs_create_shards activate existing seq n l q :
  Inj (=) (=) seq → Insertable seq n (filter (λ a, a ∉ existing) l) (g_shards (q_reg q)) →
  ∃ out, runs (create_shards activate existing seq n l) q (Ok out)
           (q_set_reg (set_shards (add_shards activate seq n (filter (λ a, a ∉ existing) l))) q)
         ∧ length out = length (filter (λ a, a ∉ existing) l).
Proof.
  intros Hseq. revert n q. induction l as [|a l IH]; intros n q Hi.
  { exists []. split; [|done]. destruct q as [[g dbs lt] c cl]. destruct g. apply runs_ret. }
  rewrite filter_cons in Hi |- *. cbn [create_shards]. destruct (decide (a ∉ existing)) as [Ha|Ha].
  - rewrite (proj2 (mem_false a existing) Ha). set (q1 := q_set_reg (set_shards (<[seq n := new_shard activate a]>)) q).
    assert (runs (query "default" (shard_insert_stmt (seq n) (new_shard activate a))) q (Ok tt) q1) as R1.
    { pose proof (runs_query "default" "default" (shard_insert_stmt (seq n) (new_shard activate a)) q (known_default _)) as R.
      unfold effect, after, shard_insert_stmt in R. pose proof (insert_no_clash seq activate n a _ _ Hi) as Hc.
      unfold q_reg in Hc. rewrite Hc in R. exact R. }
    destruct (IH (S n) q1) as (out & R2 & Hlen); [by apply (insertable_cons seq activate)|].
    eexists (_ :: out). split; [|simpl; by rewrite Hlen]. eapply runs_bind; [exact R1|]. eapply runs_bind; [exact R2|]. apply runs_ret.
  - rewrite (proj2 (mem_spec a existing)) by (by apply dec_stable). apply IH. done.
Qed.

End sync.

Lemma add_shards_grows seq activate n l m :
  Inj (=) (=) seq → Insertable seq n l m →
  (∀ k s, m !! k = Some s → add_shards activate seq n l m !! k = Some s)
  ∧ (∀ a, a ∈ l → has_alias (add_shards activate seq n l m) a)
  ∧ ∀ k s, add_shards activate seq n l m !! k = Some s → m !! k = Some s ∨ (sh_alias s ∈ l ∧ s = new_shard activate (sh_alias s)).
Proof.
  intros Hseq. revert n m. induction l as [|a l IH]; intros n m Hi; simpl.
  { split_and!; [done|by intros a ?%not_elem_of_nil|by left]. }
  destruct (IH (S n) (<[seq n := new_shard activate a]> m)) as (H1 & H2 & H3); [by apply insertable_cons|]. split_and!.
  - intros k s Hs. apply H1. rewrite lookup_insert_ne; [done|]. intros <-. by rewrite (ins_keys _ _ _ _ Hi) in Hs by lia.
  - intros b [->|Hb]%elem_of_cons; [|by apply H2]. exists (seq n), (new_shard activate a). split; [|done]. apply H1, lookup_insert_eq.
  - intros k s Hs. destruct (H3 k s Hs) as [Hk|[Hin ->]]; [|right; by split; [right|]].
    apply lookup_insert_Some in Hk as [[_ <-]|[_ Hk]]; [|by left]. right. split; [left|done].
Qed.

(** An undisturbed sync_shards succeeds; afterwards every
    configured alias has a shard, every shard of before is unchanged, and the only
    new ones are for aliases that had none: inactive unless they are the default or
    --activate was given.  Nothing else of the registry changes. *)
Theorem sync_shards_exact `{Invalidator} databases activate seq w :
  Quiet "default" w → NoDup databases → Inj (=) (=) seq →
  let g := v_reg (w_srv w) in
  (∀ i, g_shards g !! seq i = None) →
  (∀ k s, g_shards g !! k = Some s → sh_is_default s = true → sh_alias s = "default") →
  ∃ out w' m, sync_shards databases activate seq w = (Ok out, w')
    ∧ v_reg (w_srv w') = set_shards (λ _, m) g
    ∧ (∀ a, a ∈ databases → has_alias m a)
    ∧ (∀ k s, g_shards g !! k = Some s → m !! k = Some s)
    ∧ ∀ k s, m !! k = Some s →
        g_shards g !! k = Some s
        ∨ (sh_alias s ∈ databases ∧ ¬ has_alias (g_shards g) (sh_alias s)
           ∧ s = mkShard (sh_alias s) (shard_name (sh_alias s)) (String.eqb (sh_alias s) "default") (String.eqb (sh_alias s) "default" || activate)).
Proof.
  intros Hw Hnd Hseq g Hk Hd. set (l := filter (λ a, a ∉ shard_aliases g) databases).
  assert (∀ a, a ∈ shard_aliases g ↔ has_alias (g_shards g) a) as Halias.
  { intros a. unfold shard_aliases, has_alias. rewrite list_elem_of_fmap. split.
    - intros ([k s] & -> & Hin%elem_of_map_to_list). by exists k, s.
    - intros (k & s & Hs & <-). exists (k, s). split; [done|]. by apply elem_of_map_to_list. }
  assert (Insertable seq 0 l (g_shards g)) as Hi.
  { split; [done| |by apply NoDup_filter|done]. intros a [Ha _]%list_elem_of_filter. by rewrite <- Halias. }
  destruct (runs_create_shards activate (shard_aliases g) seq 0 databases (view_of w) Hseq Hi) as (out & R & _).
  assert (∃ out', runs "default" (sync_shards databases activate seq) (view_of w) (Ok out')
      (q_set_reg (set_shards (add_shards activate seq 0 l)) (view_of w))) as (out' & R').
  { eexists. eapply runs_bind; [exact (runs_select "default" "default" (λ v, shard_aliases (v_reg v)) (view_of w) (known_default _))|].
    eapply runs_bind; [exact R|]. apply runs_ret. }
  destruct (R' w Hw) as (w' & E & Hw').
  destruct (add_shards_grows seq activate 0 l (g_shards g) Hseq Hi) as (H1 & H2 & H3).
  eexists _, w', (add_shards activate seq 0 l (g_shards g)). split; [exact E|]. split_and!.
  - by rewrite (st_srv _ _ _ Hw').
  - intros a Ha. destruct (decide (a ∈ shard_aliases g)) as [Hin|Hout].
    + apply Halias in Hin as (k & s & Hs & <-). exists k, s. split; [by apply H1|done].
    + apply H2. by apply list_elem_of_filter.
  - exact H1.
  - intros k s Hs. destruct (H3 k s Hs) as [Hold|[[Hn Hin]%list_elem_of_filter Es]]; [by left|right].
    split; [done|]. split; [by rewrite <- Halias|exact Es].
Qed.
