(* ===== verification/Bootstrap.v ===== *)
(** * bootstrap_public and bootstrap_tenant

    The registration of a tenant from the command line: validation, the two
    [get_or_create] calls, the migration of the new tenant by the modelled
    migrate_schemas, and the admin user, whose table is an argument. *)
From S2P Require Import Prelude PyStr Validators Models PyExc Logs World Lease Schema Migrator Scheduler Requests ModelMethods Console.
From S2P Require Import LeaseCommand MigrateCommand SchemaCommands Trace Quiet MigratorRun Scenario ConsoleScenario.
Open Scope tenants_scope.

Definition is_integrity_error (e : exn) : bool := String.eqb (eo_name (x_obj e)) "IntegrityError".
Definition shard_missing : exn :=
  command_error "No default shard registered. Run `migrate_schemas --shared --database=default` and `sync_shards --activate` first.".
Definition tenant_gone : exn := simple_exn DoesNotExist "DoesNotExist" "Tenant matching query does not exist.".

Definition default_shard (g : Registry) : option (Z * Shard) :=
  list_find (λ ks, sh_is_default ks.2 = true) (map_to_list (g_shards g)) ≫= λ x, Some x.2.
Definition shard_with_alias (g : Registry) (alias : string) : option (Z * Shard) :=
  list_find (λ ks, sh_alias ks.2 = alias) (map_to_list (g_shards g)) ≫= λ x, Some x.2.

Section bootstrap.
Context `{Invalidator} `{!HostInvalidator} `{Site} `{Upstream} `{DomainMixin}.
Context (rules : list ReservedHostRule) (verror_text : verror → string).

(** [qs.get_or_create(...)]: [get], else [create] in an atomic block; a duplicate
    that another client inserted meanwhile is read again. *)
Definition get_or_create {A} (get : CM (option A)) (create : CM A) : CM (A * bool) :=
  found <-$ get ;;
  match found with
  | Some a => cret (a, false)
  | None =>
      ccatch is_integrity_error
        (a <-$ nested_atomic create ;; cret (a, true))
        (λ e, again <-$ get ;; match again with Some a => cret (a, false) | None => craise e end)
  end.

Definition get_tenant_by_schema (schema : string) : CM (option TenantObj) :=
  up (select "default" (λ v, by_schema_name (v_reg v) schema)).

Definition create_tenant (seq : Z) (shard_id : Z) (shard : Shard) (schema company description : string) (st : Status) : CM TenantObj :=
  now <-$ timezone_now ;;
  t <-$ tenant_save seq shard None
          (mkTI None true (mkTenant schema company description shard_id st NEW now "" None) None) ;;
  cret (mkTenantObj (default seq (ti_pk t)) (ti_row t) shard).

Definition get_domain (host : string) : CM (option Domain) := up (select "default" (λ v, g_domains (v_reg v) !! host)).

Definition create_domain (dseq : Z) (host : string) (tenant : Z) : CM Domain :=
  d <-$ domain_save dseq (mkDI None host tenant true None) ;;
  cret (mkDomain (default dseq (di_id d)) (di_tenant d) (di_primary d)).

(** ** bootstrap_public *)

Definition bootstrap_public (seq dseq : Z) (domain username : string) (seed_root : CM unit) : CM (list string) :=
  sh <-$ up (select "default" (λ v, default_shard (v_reg v))) ;;
  match sh with
  | None => craise shard_missing
  | Some (shard_id, shard) =>
      r <-$ get_or_create (get_tenant_by_schema PUBLIC) (create_tenant seq shard_id shard PUBLIC "Public" "" ACTIVE) ;;
      match validate_hostname domain with
      | Err e => craise (command_error ("--domain: " +:+ verror_text e))
      | Ok host =>
          _ <-$ get_or_create (get_domain host) (create_domain dseq host (o_pk r.1)) ;;
          seed_root $;;
          cret ((if r.2 then ["Created public tenant."] else [])
                ++ ["Tenant-admin '" +:+ username +:+ "' ready on host '" +:+ host +:+ "'."])
      end
  end.

(** ** bootstrap_tenant *)

(** The problems of both validators; the values they return are not used. *)
Definition reserved_problems (g : Registry) (schema domain : string) : list string :=
  (match validate_tenant_schema_name rules schema with Err e => [verror_text e] | Ok _ => [] end)
  ++ (match validate_tenant_domain PUBLIC (domain_rows g) rules domain with Err e => [verror_text e] | Ok _ => [] end).

Definition _check_reserved (schema domain : string) (force : bool) : CM (list string) :=
  g <-$ up (select "default" v_reg) ;;
  match reserved_problems g schema domain with
  | [] => cret []
  | problems =>
      let joined := String.concat "; " problems in
      if force then cret ["--force: overriding reserved-host validation: " +:+ joined]
      else craise (command_error (joined +:+ " Use --force to override."))
  end.

Definition bootstrap_shard (alias : string) : CM (Z * Shard) :=
  sh <-$ up (select "default" (λ v, shard_with_alias (v_reg v) alias)) ;;
  match sh with
  | None => craise (command_error ("Shard alias " +:+ py_repr alias +:+ " not found. Register it with `sync_shards --activate` (and ensure it is in settings.DATABASES)."))
  | Some (k, s) =>
      if sh_is_default s then
        craise (command_error ("Shard " +:+ py_repr (sh_alias s) +:+ " is the default shard; business tenants must use a non-default shard."))
      else if negb (sh_is_active s) then craise (command_error ("Shard " +:+ py_repr (sh_alias s) +:+ " is not active."))
      else cret (k, s)
  end.

(** [call_command("migrate_schemas", schema_name=schema)]. *)
Definition migrate_one (env : Env) (ou : Outside) (o : Options) (schema : string) : CM unit :=
  ended <-$ up (handle env ou (mkSync false true (Some schema) None) o None) ;;
  match ended with
  | Some en => match en_raises en with Some e => craise e | None => cret tt end
  | None => cret tt
  end.

Record BootstrapArgs := mkBootstrapArgs {
  ba_schema : string;
  ba_company : string;
  ba_description : string;
  ba_domain : string;
  ba_shard : string;
  ba_username : string;
  ba_force : bool;
}.

(** The rows: from the shard lookup to the domain. *)
Definition register_rows (seq dseq : Z) (a : BootstrapArgs) (schema domain : string) : CM (TenantObj * bool) :=
  ks <-$ bootstrap_shard (ba_shard a) ;;
  r <-$ get_or_create (get_tenant_by_schema schema)
          (create_tenant seq ks.1 ks.2 schema (ba_company a) (ba_description a) NEW) ;;
  _ <-$ get_or_create (get_domain domain) (create_domain dseq domain (o_pk r.1)) ;;
  cret r.

Definition bootstrap_tenant (seq dseq : Z) (env : Env) (ou : Outside) (o : Options) (seed_admin : TenantObj → CM unit)
    (a : BootstrapArgs) : CM (list string) :=
  match validate_schema_name (ba_schema a) with
  | Err e => craise (command_error ("--schema: " +:+ verror_text e))
  | Ok schema =>
      if String.eqb schema PUBLIC then craise (command_error "Refusing to overwrite 'public' — use bootstrap_public.")
      else
        let domain := normalize_host (ba_domain a) in
        warned <-$ _check_reserved schema domain (ba_force a) ;;
        r <-$ register_rows seq dseq a schema domain ;;
        migrate_one env ou o schema $;;
        t <-$ up (select "default" (λ v, get_tenant (v_reg v) (o_pk r.1))) ;;
        match t with
        | None => craise tenant_gone
        | Some t =>
            seed_admin t $;;
            cret (warned ++ (if r.2 then ["Tenant '" +:+ schema +:+ "' created (status=NEW)."] else [])
                  ++ ["Company-admin '" +:+ ba_username a +:+ "' ready in schema '" +:+ schema +:+ "'."])
        end
  end.

End bootstrap.

(** * Scenarios of the schema, shard and bootstrap commands *)

#[local] Instance upstream_done : Upstream := toy_upstream None.

(** The schema of acme left behind on shard1 after its tenant was deleted. *)
Definition orphan (script : list Event) : World :=
  upd_srv (set_reg (set_tenants (λ _, ∅))) (world ACTIVE ∅ {["acme" := mkSchema disk 5 2 []]} script).

Lemma quiet_orphan : Quiet "shard1" (orphan []).
Proof. destruct (quiet_world ACTIVE ∅ {["acme" := mkSchema disk 5 2 []]}). by split. Qed.

Lemma drop_exact_witness :
  ∃ r w', drop_tenant_schema ["default"; "shard1"] "shard1" "Acme" true (Ok "") (orphan []) = (r, w')
    ∧ db_schemas (db_of "shard1" (w_srv w')) !! "acme" = None.
Proof.
  destruct (drop_exact ["default"; "shard1"] "shard1" "Acme" true (Ok "") (orphan []) quiet_orphan) as (r & w' & E & Hs & _).
  exists r, w'. split; [exact E|].
  assert (drops ["default"; "shard1"] "shard1" (normalize_schema_name "Acme") (confirmed true (Ok "") (normalize_schema_name "Acme"))
    (w_srv (orphan [])) = true) as Hd by (by vm_compute).
  rewrite Hs, Hd. by vm_compute.
Defined.

(** acme is registered again and provisioned. *)
Definition registered : Event := mkEvent (set_reg (set_tenants (<[1%Z := tenant ACTIVE]>))) None true None.

(** The tenants that live on the shard without their schema. *)
Definition homeless (v : Srv) : list string :=
  omap (λ t, if bool_decide (is_Some (db_schemas (db_of (o_alias t) v) !! o_schema t)) then None else Some (o_schema t)) (all_tenants (v_reg v)).

(** The check for a live tenant comes before the
    confirmation prompt and is not repeated: a tenant registered while the operator
    answers is left active without its schema. *)
Theorem drop_misses_registration :
  let '(r, w') := drop_tenant_schema ["default"; "shard1"] "shard1" "acme" false (Ok "acme") (orphan (replicate 4 quiet ++ [registered])) in
  r = Ok "Dropped schema 'acme' on shard 'shard1'."
  ∧ live_tenant (v_reg (w_srv w')) "acme" "shard1" = Some (acme ACTIVE)
  ∧ db_schemas (db_of "shard1" (w_srv w')) !! "acme" = None.
Proof. by vm_compute. Qed.

(** ** sync_shards *)

Lemma sync_shards_exact_witness :
  ∃ out w' m, sync_shards ["default"; "shard1"; "shard_eu"] false (λ n, Z.of_nat (100 + n)) (world ACTIVE ∅ ∅ []) = (Ok out, w')
    ∧ v_reg (w_srv w') = set_shards (λ _, m) (v_reg (w_srv (world ACTIVE ∅ ∅ [])))
    ∧ has_alias m "shard_eu".
Proof.
  destruct (sync_shards_exact ["default"; "shard1"; "shard_eu"] false (λ n, Z.of_nat (100 + n)) (world ACTIVE ∅ ∅ []))
    as (out & w' & m & E & Hg & Ha & _).
  - destruct (quiet_world ACTIVE ∅ ∅). by split.
  - apply (bool_decide_unpack _). by vm_compute.
  - intros x y Exy. lia.
  - intros i. cbn [v_reg w_srv world registry g_shards]. unfold shards.
    rewrite lookup_insert_ne by lia. apply lookup_singleton_None. lia.
  - intros k s Hs Hd. cbn [v_reg w_srv world registry g_shards] in Hs. unfold shards in Hs.
    apply lookup_insert_Some in Hs as [[_ <-]|[_ Hs]]; [done|].
    by apply lookup_singleton_Some in Hs as [_ <-].
  - exists out, w', m. split; [exact E|]. split; [exact Hg|]. apply Ha. set_solver.
Defined.

Example shard_names : (shard_name <$> ["shard_eu"; "default"; "x2_north-east"]) = ["Shard Eu"; "Default"; "X2 North-East"].
Proof. by vm_compute. Qed.

(** ** bootstrap_tenant *)

Definition beta_args (domain : string) : BootstrapArgs := mkBootstrapArgs "Beta" "Beta LLC" "" domain "shard1" "admin" false.
Definition plain_opts : Options :=
  mkOptions false false false false None None None false false None None false false false false None None 1.
Definition boot_env : Env := mkEnv (VInt 8) (VInt 2) ["default"; "shard1"] (λ _, "/tmp") (λ _, true).
Definition bootstrapped (domain : string) : option (list string * list string * option Status) :=
  match bootstrap_tenant [] (λ _, "invalid") 5 50 boot_env (mkOutside false (λ _, false) false [] None) plain_opts (λ _, cret tt)
          (beta_args domain) (start (full_world ACTIVE [])) with
  | (Ok out, s) => Some (out, tenant_hosts (cs_reg s) 5, t_status <$> g_tenants (cs_reg s) !! 5%Z)
  | (Err _, _) => None
  end.

(** A new tenant is registered, provisioned and active on its host. *)
Example bootstrap_registers :
  bootstrapped "Beta.Example.com" = Some (["Tenant 'beta' created (status=NEW)."; "Company-admin 'admin' ready in schema 'beta'."],
    ["beta.example.com"], Some ACTIVE).
Proof. by vm_compute. Qed.

(** When the host asked for belongs to another tenant,
    [get_or_create] finds that row and changes nothing: the command reports success,
    and the new tenant is active with no host at all. *)
Theorem bootstrap_domain_taken :
  bootstrapped "acme.example.com" = Some (["Tenant 'beta' created (status=NEW)."; "Company-admin 'admin' ready in schema 'beta'."], [], Some ACTIVE).
Proof. by vm_compute. Qed.
