(* ===== verification/CacheCommands.v ===== *)
(** * Commands and tasks of the resolve cache

    Models src/tenants/management/commands/warm_resolve_cache.py and
    invalidate_resolve_cache.py, and the tasks of src/tenants/tasks.py that wrap a
    command.  The invalidation and the warm-up of src/tenants/resolver/cache.py,
    which ResolveCache.v has as functions on the cache, are programs here, one
    round trip per call: other processes act, and Redis may go away, between any
    two of them.  A command prints one line, which is what [handle] returns.  It
    runs outside a transaction, so [on_commit] runs its callback at once. *)
From S2P Require Import Prelude PyStr Models PyExc World ResolveCache Registry LeaseCommand SchemaCommands.
Open Scope tenants_scope.

(** ** The options *)

Record InvalidateOpts := mkInvalidateOpts {
  io_all : bool;
  io_ids : option (list Z);
  io_schemas : option (list string);
}.

(** [raise CommandError(...)] after [except CacheUnavailable as exc]. *)
Definition is_cache_unavailable (e : exn) : bool := String.eqb (eo_name (x_obj e)) "CacheUnavailable".
Definition unreachable : string := "tenant_resolve Redis is not reachable".

Definition none_not_iterable : exn := simple_exn OtherException "TypeError" "'NoneType' object is not iterable".

Section commands.
Context `{Backend} `{RawRedis} (cfg : Cfg).

Definition rlift {A} (r : res exn A) : RM A := λ s, (r, s).

(** ** Invalidation, call by call *)

Definition ensure_alive (raise_on_error : bool) : RM unit :=
  if raise_on_error then
    alive <~ redis_alive ;;
    if alive : bool then rret tt else rraise cache_unavailable
  else rret tt.

Definition tombstone_now (ks : list string) : RM nat :=
  match _tombstone_keys cfg ks with
  | (O, _) => rret 0
  | (n, write) => cached (λ c, (tt, write c)) ~;; rret n
  end.

(** [hosts] is a lazy query: it runs when it is iterated, after the ping. *)
Definition forget_hosts_now (hosts : RM (list string)) (schemas : list string) (raise_on_error : bool) : RM nat :=
  ensure_alive raise_on_error ~;;
  hostnames <~ hosts ;;
  let hostnames := filter (λ h, h ≠ "") hostnames in
  let schemas := filter (λ s, s ≠ "") schemas in
  let host_keys := _snap_key <$> hostnames in
  found <~ match hostnames with
           | [] => rret []
           | _ => cached (λ c, (get_many host_keys c, c))
           end ;;
  derived <~ rlift (derive_schemas (snd <$> found)) ;;
  tombstone_now (host_keys ++ (_schema_snap_key <$> remove_dups (schemas ++ derived))).

Definition schemas_of_ids (ids : list Z) (h : Shared) : list string :=
  o_schema <$> filter (λ t, o_pk t ∈ ids) (sh_tenants h).
Definition hosts_of_ids (ids : list Z) (h : Shared) : list string :=
  hosts_where (λ t, mem (o_pk t) ids) (sh_domains h).
Definition hosts_of_schemas (schemas : list string) (h : Shared) : list string :=
  hosts_where (λ t, mem (o_schema t) schemas) (sh_domains h).

Definition forget_ids_now (ids : list Z) (raise_on_error : bool) : RM nat :=
  schemas <~ db_read (schemas_of_ids ids) ;;
  forget_hosts_now (db_read (hosts_of_ids ids)) schemas raise_on_error.

Definition forget_schemas_now (schemas : list string) (raise_on_error : bool) : RM nat :=
  forget_hosts_now (db_read (hosts_of_schemas schemas)) schemas raise_on_error.

Definition forget_all_now (raise_on_error : bool) : RM nat :=
  ensure_alive raise_on_error ~;;
  n1 <~ cached (delete_prefix SNAP_PREFIX) ;;
  n2 <~ cached (delete_prefix SCHEMA_PREFIX) ;;
  rret (n1 + n2)%nat.

(** ** Warm-up, call by call *)

Fixpoint fill_hosts_now (n : nat) (rows : list (string * TenantObj)) : RM nat :=
  match rows with
  | [] => rret n
  | (h, t) :: rows' =>
      ok <~ cached (set_nx (_snap_key h) (dump (ARow t)) (Some (POSITIVE_CACHE_SECONDS cfg))) ;;
      fill_hosts_now (if ok : bool then S n else n) rows'
  end.

Fixpoint fill_schemas_now (by_schema : list (string * TenantObj)) : RM unit :=
  match by_schema with
  | [] => rret tt
  | (x, t) :: rest =>
      cached (set_nx (_schema_snap_key x) (dump (ARow t)) (Some (POSITIVE_CACHE_SECONDS cfg))) ~;;
      fill_schemas_now rest
  end.

Definition warm_batch_now (force : bool) (batch : list (string * TenantObj)) : RM nat :=
  let by_schema := by_schema_of batch in
  if force then
    n <~ cached (put_many cfg ((λ '(h, t), (h, ARow t)) <$> batch)) ;;
    cached (put_schema_many cfg (ARow ∘ snd <$> by_schema)) ~;;
    rret n
  else
    n <~ fill_hosts_now 0 batch ;;
    fill_schemas_now by_schema ~;;
    rret n.

Fixpoint warm_loop (force : bool) (n : nat) (batches : list (list (string * TenantObj))) : RM nat :=
  match batches with
  | [] => rret n
  | b :: bs => k <~ warm_batch_now force b ;; warm_loop force (n + k)%nat bs
  end.

Definition warm_now (force : bool) (chunk : nat) (raise_on_error : bool) : RM nat :=
  if warm_enabled cfg then rraise legacy_warm_refused
  else if negb (truthy (POSITIVE_CACHE_SECONDS cfg)) then rret 0
  else
    ensure_alive raise_on_error ~;;
    rows <~ db_read sh_domains ;;
    warm_loop force 0 (_iter_chunks rows chunk).

(** ** The commands *)

Definition py_nat (n : nat) : string := py_int (Z.of_nat n).

Definition loudly {A} (m : RM A) : RM A :=
  rcatch is_cache_unavailable m (λ _, rraise (command_error unreachable)).

Definition warm_handle (token : string) (force : bool) : RM string :=
  alive <~ redis_alive ;;
  if negb (alive : bool) then rraise (command_error unreachable)
  else if warm_enabled cfg then
    n <~ run_locked cfg token ;;
    rret (match n with
          | None => "tenant_resolve: another writer holds the reconcile lock — skipped"
          | Some n => "tenant_resolve: reconciled " +:+ py_nat n +:+ " host(s) (gate registry + snapshots)"
          end)
  else
    n <~ loudly (warm_now force 500 true) ;;
    rret ("tenant_resolve: " +:+ (if force then "reloaded" else "filled") +:+ " " +:+ py_nat n +:+ " entries (legacy warm)").

(** The body of [try]: the text after "tenant_resolve: ". *)
Definition invalidate_msg (token : string) (o : InvalidateOpts) : RM string :=
  if io_all o then
    if warm_enabled cfg then
      n <~ run_locked cfg token ;;
      rret (match n with
            | None => "another writer holds the reconcile lock; skipped"
            | Some n => "reconciled " +:+ py_nat n +:+ " host(s) (gate-aware refresh)"
            end)
    else n <~ forget_all_now true ;; rret ("invalidated " +:+ py_nat n +:+ " entries")
  else
    match default [] (io_ids o) with
    | (_ :: _) as ids =>
        n <~ forget_ids_now ids true ;;
        rret ("invalidated " +:+ py_nat n +:+ " host(s) for " +:+ py_nat (length ids) +:+ " tenant id(s)")
    | [] =>
        match io_schemas o with
        | None => rraise none_not_iterable
        | Some schemas =>
            n <~ forget_schemas_now schemas true ;;
            rret ("invalidated " +:+ py_nat n +:+ " host(s) for " +:+ py_nat (length schemas) +:+ " schema(s)")
        end
    end.

Definition invalidate_handle (token : string) (o : InvalidateOpts) : RM string :=
  alive <~ redis_alive ;;
  if negb (alive : bool) then rraise (command_error unreachable)
  else msg <~ loudly (invalidate_msg token o) ;; rret ("tenant_resolve: " +:+ msg).

(** ** The tasks *)

(** The value under "reconciled". *)
Definition reconcile_host_registry_task (token : string) : RM (option nat) := run_locked cfg token.

End commands.

Section tasks.
Context `{Invalidator}.

Record Dropped := mkDropped { dr_database : string; dr_schema : string; dr_dropped : bool }.

(** [call_command("drop_tenant_schema", ..., no_input=True)]: the command never asks. *)
Definition drop_tenant_schema_task (databases : list string) (database schema : string) : M Dropped :=
  drop_tenant_schema databases database schema true (Ok "") ;;;
  ret (mkDropped database schema true).

End tasks.
