(* ===== verification/CacheCommandFacts.v ===== *)
(** * Properties of the commands of the resolve cache *)
From S2P Require Import Prelude PyStr Models PyExc World ResolveCache ResolveCacheFacts Registry RegistryFacts LeaseCommand SchemaCommands CacheCommands ResolverScenario.
From Stdlib Require Import QArith.
Open Scope tenants_scope.

Section facts.
Context `{Backend} `{RawRedis} (cfg : Cfg).

Lemma frame_keep s : rs_script s = [] → frame s s.
Proof. by repeat split. Qed.

Lemma ensure_alive_calm b s :
  rs_script s = [] → ∃ s', ensure_alive b s = (Ok tt, s') ∧ keys s' = keys s ∧ cache s' = cache s ∧ frame s s'.
Proof.
  intros Hs. destruct b; [|exists s; split; [done|]; split; [done|]; split; [done|by apply frame_keep]].
  destruct (redis_alive_calm s Hs) as (s1 & E1 & K1 & C1 & F1). exists s1. unfold ensure_alive.
  by rewrite (rbind_ok _ _ _ _ _ E1).
Qed.

(** ** Invalidation is the function of the cache *)

Lemma tombstone_calm ks s :
  rs_script s = [] →
  ∃ s', tombstone_now cfg ks s = (Ok (_tombstone_keys cfg ks).1, s')
    ∧ cache s' = (_tombstone_keys cfg ks).2 (cache s) ∧ keys s' = keys s ∧ frame s s'.
Proof.
  intros Hs. unfold tombstone_now, _tombstone_keys. destruct (filter _ ks) as [|k l] eqn:E.
  - exists s. split; [done|]. split; [done|]. split; [done|by apply frame_keep].
  - cbn [length fst snd].
    destruct (cached_calm (λ c, (tt, _invalidate cfg (k :: l) c)) s Hs) as (s1 & E1 & K1 & C1 & F1).
    exists s1. by rewrite (rbind_ok _ _ _ _ _ E1).
Qed.

(** The lookup of the snapshots, skipped when there is no host. *)
Lemma found_calm (hs : list string) s :
  rs_script s = [] →
  ∃ s', (match hs with [] => rret [] | _ => cached (λ c, (get_many (_snap_key <$> hs) c, c)) end) s
        = (Ok (get_many (_snap_key <$> hs) (cache s)), s')
    ∧ cache s' = cache s ∧ keys s' = keys s ∧ frame s s'.
Proof.
  intros Hs. destruct hs as [|h hs].
  - exists s. split; [done|]. split; [done|]. split; [done|by apply frame_keep].
  - destruct (cached_calm (λ c, (get_many (_snap_key <$> h :: hs) c, c)) s Hs) as (s1 & E1 & K1 & C1 & F1). by exists s1.
Qed.

(** A query reads the tables only. *)
Definition reads_tables {A} (q : Shared → A) : Prop :=
  ∀ h h', sh_domains h = sh_domains h' → sh_tenants h = sh_tenants h' → q h = q h'.

Lemma hosts_of_ids_tables ids : reads_tables (hosts_of_ids ids).
Proof. intros h h' Hd Ht. unfold hosts_of_ids. by rewrite Hd. Qed.
Lemma hosts_of_schemas_tables schemas : reads_tables (hosts_of_schemas schemas).
Proof. intros h h' Hd Ht. unfold hosts_of_schemas. by rewrite Hd. Qed.

Lemma query_calm {A} (q : Shared → A) s s1 :
  reads_tables q → frame s s1 → db_read q s1 = (Ok (q (rs_shared s)), s1).
Proof. intros Hq (Hs & Hd & Ht & _). rewrite db_read_calm by done. by rewrite (Hq _ (rs_shared s) Hd Ht). Qed.

Lemma forget_hosts_calm (q : Shared → list string) schemas n f s :
  rs_script s = [] → c_alive (cache s) = true → reads_tables q →
  forget_hosts cfg (q (rs_shared s)) schemas true (cache s) = Ok (n, f) →
  ∃ s', forget_hosts_now cfg (db_read q) schemas true s = (Ok n, s')
    ∧ cache s' = f (cache s) ∧ keys s' = keys s ∧ frame s s'.
Proof.
  intros Hs Ha Hq. unfold forget_hosts, _ensure_alive. rewrite Ha. cbn [andb negb]. intros (u & _ & E)%res_bind_ok.
  apply res_bind_ok in E as (derived & Ed & E). injection E as E. unfold forget_hosts_now.
  destruct (ensure_alive_calm true s Hs) as (s1 & E1 & K1 & C1 & F1). rewrite (rbind_ok _ _ _ _ _ E1).
  rewrite (rbind_ok _ _ _ _ _ (query_calm q s s1 Hq F1)).
  destruct (found_calm (filter (λ h, h ≠ "") (q (rs_shared s))) s1 (proj1 F1)) as (s2 & E2 & C2 & K2 & F2).
  rewrite (rbind_ok _ _ _ _ _ E2), C1, Ed. unfold rlift, rbind at 1.
  edestruct (tombstone_calm) as (s3 & E3 & C3 & K3 & F3); [|rewrite E3; exists s3]; [apply F2|].
  rewrite E. split; [done|]. rewrite C3, E, C2, C1, K3, K2, K1. split; [done|]. split; [done|].
  do 2 (etrans; [eassumption|]). done.
Qed.

(** ** What an invalidation forgets *)

(** The schema that the snapshot of a host names. *)
Definition named_schema (c : C) (h : string) : list string :=
  match c_get c (_snap_key h) with
  | Some v => match schema_of_value v with Ok l => l | Err _ => [] end
  | None => []
  end.

Definition readable (hosts : list string) (c : C) : Prop :=
  ∀ h v, h ∈ hosts → c_get c (_snap_key h) = Some v → is_ok (schema_of_value v) = true.

(** No host of [hosts] and no schema of [schemas] is served any more, and every
    other key is as it was, but the schema snapshots the host snapshots named. *)
Definition forgotten (hosts schemas : list string) (c c' : C) : Prop :=
  (∀ h, h ∈ hosts → h ≠ "" → get_snapshot h c' = Ok LMiss)
  ∧ (∀ x, x ∈ schemas → x ≠ "" → get_schema_snapshot x c' = Ok LHold ∨ get_schema_snapshot x c' = Ok LMiss)
  ∧ (∀ k, k ∉ _snap_key <$> hosts →
       k ∉ _schema_snap_key <$> (schemas ++ (hosts ≫= named_schema c)) → c_get c' k = c_get c k).

Definition derived (hosts : list string) (c : C) : list string := hosts ≫= named_schema c.

Lemma derive_readable hosts c :
  readable hosts c → derive_schemas (snd <$> get_many (_snap_key <$> hosts) c) = Ok (derived hosts c).
Proof.
  unfold derived, get_many. induction hosts as [|h hosts IH]; intros Hr; [done|]. cbn.
  assert (readable hosts c) as Hr' by (intros h' v Hin; apply Hr; by right). specialize (IH Hr').
  pose proof (Hr h) as Hh. unfold named_schema at 1. destruct (c_get c (_snap_key h)) as [v|]; [|exact IH].
  cbn. specialize (Hh v ltac:(left) eq_refl). destruct (schema_of_value v) as [l|e]; [|done]. simpl. by rewrite IH.
Qed.

Lemma filter_bind_incl (hosts : list string) (g : string → list string) x :
  x ∈ filter (λ h, h ≠ "") hosts ≫= g → x ∈ hosts ≫= g.
Proof. rewrite !list_elem_of_bind. intros (h & Hx & [_ Hh]%list_elem_of_filter). eauto. Qed.

Lemma invalidate_other ks k c : (0 ≤ HOLD_SECONDS cfg)%Z → c_alive c = true → k ∉ ks → c_get (_invalidate cfg ks c) k = c_get c k.
Proof.
  intros Hh Ha Hk. unfold _invalidate, truthy. destruct (HOLD_SECONDS cfg =? 0)%Z eqn:E; simpl; bool_props.
  - by rewrite get_delete_many, decide_False.
  - rewrite get_set_many by (try done; apply Z.ltb_lt; lia). by rewrite last_value_const, decide_False.
Qed.

(** The keys an invalidation by hosts and schemas writes. *)
Definition target_keys (hosts schemas : list string) (c : C) : list string :=
  let hosts := filter (λ h, h ≠ "") hosts in
  (_snap_key <$> hosts) ++ (_schema_snap_key <$> remove_dups (filter (λ x, x ≠ "") schemas ++ derived hosts c)).

Lemma target_keys_named hosts schemas c :
  filter (λ k, k ≠ "") (target_keys hosts schemas c) = target_keys hosts schemas c.
Proof.
  apply filter_all. unfold target_keys.
  intros k [(h & -> & _)%list_elem_of_fmap|(h & -> & _)%list_elem_of_fmap]%elem_of_app; done.
Qed.

Lemma invalidate_forgets hosts schemas c :
  (0 ≤ HOLD_SECONDS cfg)%Z → c_alive c = true →
  forgotten hosts schemas c (_invalidate cfg (target_keys hosts schemas c) c).
Proof.
  intros Hh Ha. split; [|split].
  - intros h Hin Hne. assert (_snap_key h ∈ target_keys hosts schemas c) as Hk.
    { apply elem_of_app. left. apply list_elem_of_fmap. exists h. split; [done|]. by apply list_elem_of_filter. }
    unfold get_snapshot. by destruct (invalidate_gone cfg _ _ c Hh Hk) as [-> | ->].
  - intros x Hin Hne. assert (_schema_snap_key x ∈ target_keys hosts schemas c) as Hk.
    { apply elem_of_app. right. apply list_elem_of_fmap. exists x. split; [done|].
      apply elem_of_remove_dups, elem_of_app. left. by apply list_elem_of_filter. }
    unfold get_schema_snapshot. destruct (invalidate_gone cfg _ _ c Hh Hk) as [-> | ->]; auto.
  - intros k Hk1 Hk2. apply invalidate_other; [done|done|]. unfold target_keys.
    intros [(h & -> & [_ Hin]%list_elem_of_filter)%list_elem_of_fmap|(x & -> & Hx)%list_elem_of_fmap]%elem_of_app.
    + apply Hk1. apply list_elem_of_fmap. eauto.
    + apply Hk2. apply list_elem_of_fmap. exists x. split; [done|]. apply elem_of_remove_dups, elem_of_app in Hx.
      apply elem_of_app. destruct Hx as [[_ Hx]%list_elem_of_filter|Hx]; [by left|right]. by apply filter_bind_incl.
Qed.

Lemma forget_hosts_spec hosts schemas c :
  (0 ≤ HOLD_SECONDS cfg)%Z → c_alive c = true → readable hosts c →
  ∃ f, forget_hosts cfg hosts schemas true c = Ok (length (target_keys hosts schemas c), f)
    ∧ forgotten hosts schemas c (f c).
Proof.
  intros Hh Ha Hr. unfold forget_hosts, _ensure_alive. rewrite Ha. cbn [andb negb res_bind].
  rewrite derive_readable by (intros h v [_ Hin]%list_elem_of_filter; by apply Hr). cbn [res_bind].
  fold (target_keys hosts schemas c). unfold _tombstone_keys. rewrite target_keys_named.
  pose proof (invalidate_forgets hosts schemas c Hh Ha) as Hf.
  destruct (target_keys hosts schemas c) as [|k l]; [|by eexists]. exists id. split; [done|].
  unfold _invalidate in Hf. by destruct (truthy (HOLD_SECONDS cfg)).
Qed.

(** ** invalidate_resolve_cache *)

Lemma loudly_ok {A} (m : RM A) s a s' : m s = (Ok a, s') → loudly m s = (Ok a, s').
Proof. unfold loudly, rcatch. by intros ->. Qed.

Lemma handle_calm token o n s s1 s' :
  redis_alive s = (Ok true, s1) → invalidate_msg cfg token o s1 = (Ok n, s') →
  invalidate_handle cfg token o s = (Ok ("tenant_resolve: " +:+ n), s').
Proof.
  intros E1 E. unfold invalidate_handle. rewrite (rbind_ok _ _ _ _ _ E1). cbn [negb].
  by rewrite (rbind_ok _ _ _ _ _ (loudly_ok _ _ _ _ E)).
Qed.

(** The hosts and schemas that --ids or --schemas name, and the line that reports
    [n] invalidations. *)
Definition named (o : InvalidateOpts) (h : Shared) : option (list string * list string) :=
  match default [] (io_ids o), io_schemas o with
  | (_ :: _) as ids, _ => Some (hosts_of_ids ids h, schemas_of_ids ids h)
  | [], Some schemas => Some (hosts_of_schemas schemas h, schemas)
  | [], None => None
  end.

Definition named_line (o : InvalidateOpts) (n : nat) : string :=
  "invalidated " +:+ py_nat n +:+ " host(s) for " +:+
  match default [] (io_ids o), io_schemas o with
  | (_ :: _) as ids, _ => py_nat (length ids) +:+ " tenant id(s)"
  | [], Some schemas => py_nat (length schemas) +:+ " schema(s)"
  | [], None => ""
  end.

Lemma named_calm token o hosts schemas s :
  rs_script s = [] → c_alive (cache s) = true → (0 ≤ HOLD_SECONDS cfg)%Z → io_all o = false →
  named o (rs_shared s) = Some (hosts, schemas) → readable hosts (cache s) →
  ∃ s', invalidate_msg cfg token o s = (Ok (named_line o (length (target_keys hosts schemas (cache s)))), s')
    ∧ forgotten hosts schemas (cache s) (cache s') ∧ keys s' = keys s ∧ frame s s'.
Proof.
  intros Hs Ha Hh Hall Hn Hr. destruct (forget_hosts_spec hosts schemas (cache s) Hh Ha Hr) as (f & Ef & Hf).
  unfold invalidate_msg. rewrite Hall. unfold named, named_line in *. destruct (default [] (io_ids o)) as [|i ids] eqn:Ei.
  - destruct (io_schemas o) as [xs|]; [|done]. simplify_eq.
    destruct (forget_hosts_calm _ _ _ f s Hs Ha (hosts_of_schemas_tables schemas) Ef) as (s' & E & C' & K & F).
    exists s'. unfold forget_schemas_now. rewrite (rbind_ok _ _ _ _ _ E). by rewrite C'.
  - simplify_eq. set (l := i :: ids) in *.
    destruct (forget_hosts_calm _ _ _ f s Hs Ha (hosts_of_ids_tables l) Ef) as (s' & E & C' & K & F).
    exists s'. rewrite (rbind_ok _ _ s (length (target_keys (hosts_of_ids l (rs_shared s)) (schemas_of_ids l (rs_shared s)) (cache s))) s').
    + by rewrite C'.
    + unfold forget_ids_now. by rewrite (rbind_ok _ _ _ _ _ (db_read_calm _ s Hs)).
Qed.

(** An undisturbed [invalidate_resolve_cache --ids] or [--schemas] looks up the
    hosts of the tenants it names and forgets exactly those: none of these hosts
    and none of these schemas is served from the cache afterwards, every other
    key keeps its value (except a schema that one of the host snapshots named),
    and the gate's keys do not move.  The number it reports is that of the keys. *)
Theorem invalidate_named_exact token o hosts schemas s :
  rs_script s = [] → c_alive (cache s) = true → (0 ≤ HOLD_SECONDS cfg)%Z → io_all o = false →
  named o (rs_shared s) = Some (hosts, schemas) → readable hosts (cache s) →
  ∃ s', invalidate_handle cfg token o s
        = (Ok ("tenant_resolve: " +:+ named_line o (length (target_keys hosts schemas (cache s)))), s')
    ∧ forgotten hosts schemas (cache s) (cache s') ∧ keys s' = keys s ∧ frame s s'.
Proof.
  intros Hs Ha Hh Hall Hn Hr. destruct (redis_alive_calm s Hs) as (s1 & E1 & K1 & C1 & F1).
  assert (named o (rs_shared s1) = named o (rs_shared s)) as Hn1.
  { destruct F1 as (_ & Hd & Ht & _). unfold named, hosts_of_ids, hosts_of_schemas, schemas_of_ids, domains in *.
    by rewrite Hd, Ht. }
  rewrite <- Hn1 in Hn. rewrite <- C1 in Ha, Hr |- *.
  destruct (named_calm token o hosts schemas s1 (proj1 F1) Ha Hh Hall Hn Hr) as (s' & E & Hf & K & F).
  exists s'. rewrite (handle_calm _ _ _ _ _ _ E1 E). split; [done|]. split; [done|].
  split; [by rewrite K|by etrans].
Qed.

(** ** The lock *)

Lemma run_locked_calm token s :
  rs_script s = [] → warm_enabled cfg = true → c_alive (cache s) = true → rows_ok cfg (domains s) → dirty_ok s →
  keys s !! WARM_LOCK_KEY = None →
  ∃ s', run_locked cfg token s = (Ok (Some (length (domains s))), s')
    ∧ (∀ h, (check h s').1 = Ok (exact_verdict (domains s) h))
    ∧ (reconciled (domains s) (cache s') ∧ no_new_hosts (domains s) (cache s) (cache s'))
    ∧ (∀ k, k ≠ HOSTS_KEY → k ≠ HOSTS_NEW_KEY → keys s' !! k = keys s !! k)
    ∧ frame s s'.
Proof.
  intros Hs Hw Ha Hr Hd Hl. unfold run_locked. rewrite Hw. cbn [negb].
  destruct (redis_alive_calm s Hs) as (s1 & E1 & K1 & C1 & F1). rewrite (rbind_ok _ _ _ _ _ E1). cbn [negb].
  destruct (pipeline_one (SETNX WARM_LOCK_KEY token (WARM_LOCK_SECONDS cfg)) s1 (PBool true)
    (<[WARM_LOCK_KEY := RStr token]> (keys s))) as (s2 & E2 & K2 & C2 & F2);
    [apply F1|unfold redis_doc; by rewrite K1, Hl|].
  rewrite (rbind_ok _ _ _ _ _ E2). cbn [reply_true negb].
  assert (domains s2 = domains s) as Hd2 by (destruct F1 as (_ & <- & _); apply F2).
  destruct (reconcile_calm cfg s2) as (s3 & E3 & K3 & C3 & F3);
    [apply F2|done|by rewrite C2, C1|by rewrite Hd2| |].
  { intros x. rewrite K2, lookup_insert_ne by done. apply Hd. }
  rewrite Hd2, K2 in *.
  assert (keys s3 !! WARM_LOCK_KEY = Some (RStr token)) as Hlk.
  { by rewrite K3, lookup_partial_alter_ne, lookup_delete_ne, lookup_insert_eq. }
  destruct (pipeline_one (UNLOCK WARM_LOCK_KEY token) s3 (PBool true) (delete WARM_LOCK_KEY (keys s3)))
    as (s4 & E4 & K4 & C4 & F4); [apply F3|unfold redis_doc; by rewrite bool_decide_true|].
  exists s4. split.
  { unfold rfinally. rewrite (rbind_ok _ _ _ _ _ E3). unfold rcatch. cbn [rret].
    unfold rret at 1. by rewrite (rbind_ok _ _ _ _ _ E4). }
  rewrite C2, C1 in C3. split; [|split; [by rewrite C4|split]].
  - intros h. apply exact_check; [apply F4|]. by rewrite K4, lookup_delete_ne, K3, lookup_partial_alter_eq.
  - intros k H1 H2. rewrite K4. destruct (decide (k = WARM_LOCK_KEY)) as [->|Hk].
    + by rewrite lookup_delete_eq, Hl.
    + by rewrite lookup_delete_ne, K3, lookup_partial_alter_ne, lookup_delete_ne, lookup_insert_ne.
  - do 3 (etrans; [eassumption|]). done.
Qed.

Lemma run_locked_busy token s v :
  rs_script s = [] → warm_enabled cfg = true → keys s !! WARM_LOCK_KEY = Some v →
  ∃ s', run_locked cfg token s = (Ok None, s') ∧ keys s' = keys s ∧ cache s' = cache s ∧ frame s s'.
Proof.
  intros Hs Hw Hl. unfold run_locked. rewrite Hw. cbn [negb].
  destruct (redis_alive_calm s Hs) as (s1 & E1 & K1 & C1 & F1). rewrite (rbind_ok _ _ _ _ _ E1). cbn [negb].
  destruct (pipeline_one (SETNX WARM_LOCK_KEY token (WARM_LOCK_SECONDS cfg)) s1 (PBool false) (keys s))
    as (s2 & E2 & K2 & C2 & F2); [apply F1|unfold redis_doc; by rewrite K1, Hl|].
  rewrite (rbind_ok _ _ _ _ _ E2). cbn [reply_true negb]. exists s2. rewrite K2, C2, C1. split; [done|].
  split; [done|]. split; [done|by etrans].
Qed.

(** ** --all *)

Definition snapshot_key (k : string) : bool := py_startswith k SNAP_PREFIX || py_startswith k SCHEMA_PREFIX.

Lemma forget_all_calm s :
  rs_script s = [] →
  ∃ n s', forget_all_now true s = (Ok n, s')
    ∧ (∀ k, c_get (cache s') k = if snapshot_key k then None else c_get (cache s) k)
    ∧ keys s' = keys s ∧ frame s s'.
Proof.
  intros Hs. unfold forget_all_now.
  destruct (ensure_alive_calm true s Hs) as (s1 & E1 & K1 & C1 & F1). rewrite (rbind_ok _ _ _ _ _ E1).
  destruct (cached_calm (delete_prefix SNAP_PREFIX) s1) as (s2 & E2 & K2 & C2 & F2); [apply F1|].
  rewrite (rbind_ok _ _ _ _ _ E2).
  destruct (cached_calm (delete_prefix SCHEMA_PREFIX) s2) as (s3 & E3 & K3 & C3 & F3); [apply F2|].
  rewrite (rbind_ok _ _ _ _ _ E3). eexists _, s3. split; [reflexivity|].
  split; [|split; [congruence|do 2 (etrans; [eassumption|]); done]].
  intros k. rewrite C3, delete_prefix_spec, C2, delete_prefix_spec, C1. unfold snapshot_key.
  by destruct (py_startswith k SNAP_PREFIX), (py_startswith k SCHEMA_PREFIX).
Qed.

(** What [--all] leaves behind, and what it says after "tenant_resolve: ". *)
Definition all_outcome (s : RS) (msg : string) (s' : RS) : Prop :=
  if warm_enabled cfg then
    match keys s !! WARM_LOCK_KEY with
    | Some _ => msg = "another writer holds the reconcile lock; skipped" ∧ cache s' = cache s ∧ keys s' = keys s
    | None => msg = "reconciled " +:+ py_nat (length (domains s)) +:+ " host(s) (gate-aware refresh)"
              ∧ (∀ h, (check h s').1 = Ok (exact_verdict (domains s) h)) ∧ reconciled (domains s) (cache s')
    end
  else keys s' = keys s ∧ ∀ k, c_get (cache s') k = if snapshot_key k then None else c_get (cache s) k.

(** [--all] while no other process acts.  Without the gate every snapshot of
    either kind is gone and nothing else is.  Under the gate the command never
    wipes: it makes gate and cache exact instead, or, while another writer holds
    the lock, it says so and changes nothing. *)
Theorem invalidate_all_exact token s :
  rs_script s = [] → c_alive (cache s) = true → rows_ok cfg (domains s) → dirty_ok s →
  ∃ msg s', invalidate_handle cfg token (mkInvalidateOpts true None None) s = (Ok ("tenant_resolve: " +:+ msg), s')
    ∧ frame s s'
    ∧ all_outcome s msg s'.
Proof.
  intros Hs Ha Hr Hd. destruct (redis_alive_calm s Hs) as (s1 & E1 & K1 & C1 & F1).
  assert (domains s1 = domains s) as Hd1 by apply F1.
  assert (∃ msg s', invalidate_msg cfg token (mkInvalidateOpts true None None) s1 = (Ok msg, s') ∧ frame s1 s'
    ∧ all_outcome s msg s')
    as (msg & s' & E & F & P).
  2: { exists msg, s'. rewrite (handle_calm _ _ _ _ _ _ E1 E). split; [done|]. split; [by etrans|done]. }
  unfold invalidate_msg, all_outcome. cbn [io_all]. destruct (warm_enabled cfg) eqn:Hw.
  - destruct (keys s !! WARM_LOCK_KEY) as [v|] eqn:El.
    + destruct (run_locked_busy token s1 v (proj1 F1) Hw) as (s' & E & K & C' & F); [by rewrite K1|].
      eexists _, s'. rewrite (rbind_ok _ _ _ _ _ E), C', K, C1, K1. done.
    + destruct (run_locked_calm token s1 (proj1 F1) Hw) as (s' & E & Hc & (Hrec & _) & _ & F);
        [by rewrite C1|by rewrite Hd1|unfold dirty_ok; by rewrite K1|by rewrite K1|]. rewrite Hd1 in *.
      eexists _, s'. rewrite (rbind_ok _ _ _ _ _ E). done.
  - destruct (forget_all_calm s1 (proj1 F1)) as (n & s' & E & Hk & K & F). rewrite C1, K1 in *.
    eexists _, s'. rewrite (rbind_ok _ _ _ _ _ E). done.
Qed.

(** ** warm_resolve_cache *)

Lemma warm_loop_force batches n s :
  rs_script s = [] → c_alive (cache s) = true → positive_off cfg = false → rows_ok cfg (concat batches) →
  ∃ s', warm_loop cfg true n batches s = (Ok (n + length (concat batches))%nat, s')
    ∧ filled (concat batches) (cache s) (cache s') ∧ keys s' = keys s ∧ frame s s'.
Proof.
  revert n s. induction batches as [|b bs IH]; intros n s Hs Ha Hoff Hr.
  { exists s. simpl. rewrite Nat.add_0_r. split; [done|]. split; [apply filled_nil|]. split; [done|by apply frame_keep]. }
  simpl in *. destruct (rows_ok_app _ _ _ Hr) as [Hb Hbs].
  destruct (batch_filled cfg b (cache s) Hb Ha Hoff) as [Hn Hf]. unfold warm_batch_now.
  destruct (cached_calm (put_many cfg ((λ '(h, t), (h, ARow t)) <$> b)) s Hs) as (s1 & E1 & K1 & C1 & F1).
  destruct (cached_calm (put_schema_many cfg (ARow ∘ snd <$> by_schema_of b)) s1 (proj1 F1)) as (s2 & E2 & K2 & C2 & F2).
  rewrite (rbind_ok _ _ s (length b) s2).
  2: { rewrite (rbind_ok _ _ _ _ _ E1). rewrite (rbind_ok _ _ _ _ _ E2), Hn. done. }
  rewrite <- C1, <- C2 in Hf. assert (c_alive (cache s2) = true) as Ha2 by (destruct Hf as (_ & _ & _ & _ & _ & ->); done).
  destruct (IH (n + length b)%nat s2 (proj1 F2) Ha2 Hoff Hbs) as (s3 & E3 & Hf3 & K3 & F3). exists s3.
  rewrite E3, length_app, Nat.add_assoc. split; [done|]. split; [by eapply filled_app|].
  split; [congruence|]. do 2 (etrans; [eassumption|]). done.
Qed.

(** [SET NX] of a list of entries, in turn. *)
Definition fill_nx (kvs : list (string * CVal)) (c : C) : C :=
  foldl (λ c kv, (set_nx kv.1 kv.2 (Some (POSITIVE_CACHE_SECONDS cfg)) c).2) c kvs.

Lemma alive_fill_nx kvs c : c_alive (fill_nx kvs c) = c_alive c.
Proof. revert c. induction kvs as [|kv kvs IH]; intros c; [done|]. simpl. by rewrite IH, alive_set_nx. Qed.

(** The first entry of a key counts, and only where there was none. *)
Lemma get_fill_nx kvs c k :
  c_alive c = true → (0 < POSITIVE_CACHE_SECONDS cfg)%Z →
  c_get (fill_nx kvs c) k = match c_get c k with Some v => Some v | None => assoc k kvs end.
Proof.
  intros Ha Hp. revert c Ha. induction kvs as [|[k' v'] kvs IH]; intros c Ha; simpl; [by destruct (c_get c k)|].
  rewrite IH by (by rewrite alive_set_nx). rewrite get_set_nx by (try done; by apply Z.ltb_lt).
  destruct (String.eqb_spec k k') as [->|Hne].
  - rewrite decide_True by done. by destruct (c_get c k').
  - by rewrite decide_False.
Qed.

Lemma assoc_functional {A} (k : string) (v : A) l :
  (k, v) ∈ l → (∀ v', (k, v') ∈ l → v' = v) → assoc k l = Some v.
Proof.
  induction l as [|[k' v'] l IH]; [by intros ?%not_elem_of_nil|]. simpl. intros Hin Hf.
  destruct (String.eqb_spec k k') as [->|Hne].
  - f_equal. apply Hf. left.
  - apply IH; [|intros v2 H2; apply Hf; by right]. apply elem_of_cons in Hin as [[= -> ->]|Hin]; done.
Qed.

Lemma assoc_elem {A} (k : string) (v : A) l : assoc k l = Some v → (k, v) ∈ l.
Proof.
  induction l as [|[k' v'] l IH]; [done|]. simpl. destruct (String.eqb_spec k k') as [->|Hne].
  - intros [= ->]. left.
  - intros E. right. by apply IH.
Qed.

Definition host_entry (d : string * TenantObj) : string * CVal := (_snap_key d.1, dump (ARow d.2)).
Definition schema_entry (x : string * TenantObj) : string * CVal := (_schema_snap_key x.1, dump (ARow x.2)).
Definition absent (c : C) (d : string * TenantObj) : Prop := c_get c (_snap_key d.1) = None.

#[local] Instance absent_dec c d : Decision (absent c d).
Proof. unfold absent. destruct (c_get c _); [by right|by left]. Defined.

Lemma fill_hosts_calm rows n s :
  rs_script s = [] → c_alive (cache s) = true → (0 < POSITIVE_CACHE_SECONDS cfg)%Z → NoDup rows.*1 →
  ∃ s', fill_hosts_now cfg n rows s = (Ok (n + length (filter (absent (cache s)) rows))%nat, s')
    ∧ cache s' = fill_nx (host_entry <$> rows) (cache s) ∧ keys s' = keys s ∧ frame s s'.
Proof.
  revert n s. induction rows as [|[h t] rows IH]; intros n s Hs Ha Hp Hn.
  { exists s. rewrite Nat.add_0_r. split; [done|]. split; [done|]. split; [done|by apply frame_keep]. }
  apply NoDup_cons in Hn as [Hh Hn]. cbn [fill_hosts_now].
  destruct (cached_calm (set_nx (_snap_key h) (dump (ARow t)) (Some (POSITIVE_CACHE_SECONDS cfg))) s Hs)
    as (s1 & E1 & K1 & C1 & F1). rewrite (rbind_ok _ _ _ _ _ E1).
  destruct (IH (if (set_nx (_snap_key h) (dump (ARow t)) (Some (POSITIVE_CACHE_SECONDS cfg)) (cache s)).1 then S n else n)
    s1 (proj1 F1)) as (s' & E & C' & K & F); [by rewrite C1, alive_set_nx|done|done|].
  exists s'. rewrite E. split; [|split; [by rewrite C', C1|split; [by rewrite K|by etrans]]]. f_equal. f_equal.
  assert (filter (absent (cache s1)) rows = filter (absent (cache s)) rows) as ->.
  { apply filter_ext_elem. intros d Hd. unfold absent.
    rewrite C1, get_set_nx by (try done; by apply Z.ltb_lt). rewrite decide_False; [done|].
    intros Ek%snap_key_inj. subst. apply Hh. apply list_elem_of_fmap. by exists d. }
  unfold set_nx. destruct (c_get (cache s) (_snap_key h)) eqn:Eg.
  - by rewrite filter_cons_False by (unfold absent; simpl; by rewrite Eg).
  - rewrite filter_cons_True by done. simpl. rewrite Ha. lia.
Qed.

Lemma fill_schemas_calm l s :
  rs_script s = [] →
  ∃ s', fill_schemas_now cfg l s = (Ok tt, s')
    ∧ cache s' = fill_nx (schema_entry <$> l) (cache s) ∧ keys s' = keys s ∧ frame s s'.
Proof.
  revert s. induction l as [|[x t] l IH]; intros s Hs.
  { exists s. split; [done|]. split; [done|]. split; [done|by apply frame_keep]. }
  cbn [fill_schemas_now].
  destruct (cached_calm (set_nx (_schema_snap_key x) (dump (ARow t)) (Some (POSITIVE_CACHE_SECONDS cfg))) s Hs)
    as (s1 & E1 & K1 & C1 & F1). rewrite (rbind_ok _ _ _ _ _ E1).
  destruct (IH s1 (proj1 F1)) as (s' & E & C' & K & F). exists s'. split; [done|].
  split; [by rewrite C', C1|]. split; [by rewrite K|by etrans].
Qed.

(** All entries an idempotent warm offers, batch by batch. *)
Definition batch_entries (b : list (string * TenantObj)) : list (string * CVal) :=
  (host_entry <$> b) ++ (schema_entry <$> by_schema_of b).

Lemma host_key_entries b h v : (_snap_key h, v) ∈ batch_entries b ↔ ∃ d, d ∈ b ∧ d.1 = h ∧ v = dump (ARow d.2).
Proof.
  unfold batch_entries. rewrite elem_of_app, !list_elem_of_fmap. split.
  - intros [(d & [Ek ->]%pair_equal_spec & Hd)|(x & [Ek _]%pair_equal_spec & _)].
    + exists d. split; [done|]. split; [|done]. by apply snap_key_inj.
    + by apply keys_disjoint in Ek.
  - intros (d & Hd & <- & ->). left. by exists d.
Qed.

Lemma schema_key_entries b x v :
  (_schema_snap_key x, v) ∈ batch_entries b → ∃ d, d ∈ b ∧ o_schema d.2 = x ∧ v = dump (ARow d.2).
Proof.
  unfold batch_entries. rewrite elem_of_app, !list_elem_of_fmap. intros [(d & [Ek _]%pair_equal_spec & _)|(y & [Ek ->]%pair_equal_spec & Hy)].
  - symmetry in Ek. by apply keys_disjoint in Ek.
  - apply schema_key_inj in Ek. subst. destruct (by_schema_spec b) as (_ & Hb & _). destruct (Hb y Hy) as [-> Hin].
    apply list_elem_of_fmap in Hin as (d & E & Hd). exists d. by rewrite <- E.
Qed.

Lemma schema_key_offered b d : d ∈ b → ∃ v, (_schema_snap_key (o_schema d.2), v) ∈ batch_entries b.
Proof.
  intros Hd. destruct (by_schema_spec b) as (_ & _ & Hb). specialize (Hb d Hd).
  apply list_elem_of_fmap in Hb as (y & E & Hy). exists (dump (ARow y.2)). unfold batch_entries.
  apply elem_of_app. right. apply list_elem_of_fmap. exists y. unfold schema_entry. by rewrite <- E.
Qed.

(** [c'] is [c] with a snapshot wherever there was nothing for a row. *)
Definition topped_up (rows : list (string * TenantObj)) (c c' : C) : Prop :=
  (∀ k v, c_get c k = Some v → c_get c' k = Some v)
  ∧ (∀ d, d ∈ rows → c_get c (_snap_key d.1) = None → c_get c' (_snap_key d.1) = Some (dump (ARow d.2)))
  ∧ (∀ d, d ∈ rows → c_get c (_schema_snap_key (o_schema d.2)) = None →
       c_get c' (_schema_snap_key (o_schema d.2)) = Some (dump (ARow d.2)))
  ∧ (∀ k, k ∉ (λ d, _snap_key d.1) <$> rows → k ∉ (λ d, _schema_snap_key (o_schema d.2)) <$> rows →
       c_get c' k = c_get c k).

Definition all_entries (batches : list (list (string * TenantObj))) : list (string * CVal) :=
  concat (batch_entries <$> batches).

Lemma all_entries_elem batches kv : kv ∈ all_entries batches ↔ ∃ b, b ∈ batches ∧ kv ∈ batch_entries b.
Proof.
  unfold all_entries. rewrite list_elem_of_In, in_concat. setoid_rewrite <- list_elem_of_In. split.
  - intros (l & (b & -> & Hb)%list_elem_of_fmap & Hin). eauto.
  - intros (b & Hb & Hin). exists (batch_entries b). split; [|done]. apply list_elem_of_fmap. eauto.
Qed.

Lemma in_batch {A} (b : list A) bs x : b ∈ bs → x ∈ b → x ∈ concat bs.
Proof. intros Hb Hx. apply list_elem_of_In, in_concat. exists b. by rewrite <- !list_elem_of_In. Qed.

Lemma batch_of {A} (bs : list (list A)) x : x ∈ concat bs → ∃ b, b ∈ bs ∧ x ∈ b.
Proof. intros (b & Hb & Hx)%list_elem_of_In%in_concat. exists b. by rewrite !list_elem_of_In. Qed.

Lemma row_of_host rows d d' : rows_ok cfg rows → d ∈ rows → d' ∈ rows → d.1 = d'.1 → d = d'.
Proof.
  intros (Hn & _ & _) Hd Hd' E. apply list_elem_of_lookup in Hd as [i Hi], Hd' as [j Hj].
  assert (i = j) as ->; [|congruence]. eapply (NoDup_lookup _ i j d.1 Hn); rewrite list_lookup_fmap; [by rewrite Hi|].
  rewrite Hj. simpl. by rewrite E.
Qed.

Lemma entries_top_up batches c :
  rows_ok cfg (concat batches) → c_alive c = true → (0 < POSITIVE_CACHE_SECONDS cfg)%Z →
  topped_up (concat batches) c (fill_nx (all_entries batches) c).
Proof.
  intros Hr Ha Hp. split; [|split; [|split]].
  - intros k v E. by rewrite get_fill_nx, E.
  - intros d Hd E. rewrite get_fill_nx, E by done. apply assoc_functional.
    + destruct (batch_of _ _ Hd) as (b & Hb & Hin). apply all_entries_elem. exists b. split; [done|].
      apply host_key_entries. by exists d.
    + intros v (b & Hb & Hv)%all_entries_elem. apply host_key_entries in Hv as (d' & Hd' & E' & ->).
      by rewrite (row_of_host _ d' d Hr (in_batch _ _ _ Hb Hd') Hd E').
  - intros d Hd E. rewrite get_fill_nx, E by done.
    assert (∀ v, (_schema_snap_key (o_schema d.2), v) ∈ all_entries batches → v = dump (ARow d.2)) as Hf.
    { intros v (b & Hb & Hv)%all_entries_elem. apply schema_key_entries in Hv as (d' & Hd' & E' & ->).
      by rewrite (proj1 (proj2 Hr) d' d (in_batch _ _ _ Hb Hd') Hd E'). }
    apply assoc_functional; [|exact Hf]. destruct (batch_of _ _ Hd) as (b & Hb & Hin).
    destruct (schema_key_offered b d Hin) as [v Hv]. assert (v = dump (ARow d.2)) as <-; [|apply all_entries_elem; eauto].
    apply Hf, all_entries_elem. eauto.
  - intros k H1 H2. rewrite get_fill_nx by done. destruct (c_get c k); [done|].
    destruct (assoc k (all_entries batches)) as [v|] eqn:Ek; [|done]. exfalso.
    apply assoc_elem, all_entries_elem in Ek as (b & Hb & Hv). apply elem_of_app in Hv as [Hv|Hv].
    + apply list_elem_of_fmap in Hv as (d & [-> _]%pair_equal_spec & Hd). apply H1, list_elem_of_fmap. eauto using in_batch.
    + apply list_elem_of_fmap in Hv as (y & [-> _]%pair_equal_spec & Hy). destruct (by_schema_spec b) as (_ & Hs & _).
      destruct (Hs y Hy) as [Ey (d & E & Hd)%list_elem_of_fmap]. apply H2, list_elem_of_fmap. exists d.
      rewrite <- E, <- Ey. eauto using in_batch.
Qed.

(** A batch fills no host of another batch. *)
Lemma absent_later b rows c :
  NoDup (b ++ rows).*1 → c_alive c = true → (0 < POSITIVE_CACHE_SECONDS cfg)%Z →
  filter (absent (fill_nx (batch_entries b) c)) rows = filter (absent c) rows.
Proof.
  intros Hn Ha Hp. apply filter_ext_elem. intros d Hd. unfold absent. rewrite get_fill_nx by done.
  destruct (c_get c (_snap_key d.1)); [done|]. split; [done|]. intros _.
  destruct (assoc _ _) as [v|] eqn:E; [|done]. exfalso. apply assoc_elem, host_key_entries in E as (d' & Hd' & E & _).
  rewrite fmap_app in Hn. apply NoDup_app in Hn as (_ & Hdis & _). apply (Hdis d'.1); [|rewrite E]; apply list_elem_of_fmap; eauto.
Qed.

Lemma warm_loop_absent batches n s :
  rs_script s = [] → c_alive (cache s) = true → (0 < POSITIVE_CACHE_SECONDS cfg)%Z → NoDup (concat batches).*1 →
  ∃ s', warm_loop cfg false n batches s = (Ok (n + length (filter (absent (cache s)) (concat batches)))%nat, s')
    ∧ cache s' = fill_nx (all_entries batches) (cache s) ∧ keys s' = keys s ∧ frame s s'.
Proof.
  revert n s. induction batches as [|b bs IH]; intros n s Hs Ha Hp Hn.
  { exists s. rewrite Nat.add_0_r. split; [done|]. split; [done|]. split; [done|by apply frame_keep]. }
  simpl in *. pose proof Hn as Hn'. rewrite fmap_app in Hn'. apply NoDup_app in Hn' as (Hb & _ & Hbs).
  destruct (fill_hosts_calm b 0 s Hs Ha Hp Hb) as (s1 & E1 & C1 & K1 & F1).
  destruct (fill_schemas_calm (by_schema_of b) s1 (proj1 F1)) as (s2 & E2 & C2 & K2 & F2).
  assert (cache s2 = fill_nx (batch_entries b) (cache s)) as C2'.
  { rewrite C2, C1. unfold batch_entries, fill_nx. by rewrite foldl_app. }
  rewrite (rbind_ok _ _ s (length (filter (absent (cache s)) b)) s2).
  2: { unfold warm_batch_now. rewrite (rbind_ok _ _ _ _ _ E1). by rewrite (rbind_ok _ _ _ _ _ E2). }
  destruct (IH (n + length (filter (absent (cache s)) b))%nat s2 (proj1 F2)) as (s3 & E3 & C3 & K3 & F3);
    [by rewrite C2', alive_fill_nx|done|done|].
  exists s3. rewrite E3, C2', (absent_later b _ _ Hn Ha Hp), filter_app, length_app, Nat.add_assoc. split; [done|].
  split; [|split; [congruence|do 2 (etrans; [eassumption|]); done]].
  rewrite C3, C2'. unfold all_entries, fill_nx. simpl. by rewrite foldl_app.
Qed.

(** C29: An undisturbed warm-up without the gate.  With --force every domain and its
    tenant's schema get the snapshot of the row, whatever was there, and the line
    counts the domains.  Without it exactly the absent entries are filled:
    nothing present is overwritten, a tombstone included, and the line counts the
    domains that had none. *)
Theorem warm_exact token force s :
  rs_script s = [] → c_alive (cache s) = true → rows_ok cfg (domains s) → (0 < POSITIVE_CACHE_SECONDS cfg)%Z →
  warm_enabled cfg = false →
  ∃ n s', warm_handle cfg token force s
          = (Ok ("tenant_resolve: " +:+ (if force then "reloaded" else "filled") +:+ " " +:+ py_nat n
                 +:+ " entries (legacy warm)"), s')
    ∧ keys s' = keys s ∧ frame s s'
    ∧ if force then n = length (domains s) ∧ filled (domains s) (cache s) (cache s')
      else n = length (filter (absent (cache s)) (domains s)) ∧ topped_up (domains s) (cache s) (cache s').
Proof.
  intros Hs Ha Hr Hp Hw. unfold warm_handle.
  destruct (redis_alive_calm s Hs) as (s1 & E1 & K1 & C1 & F1). rewrite (rbind_ok _ _ _ _ _ E1), Hw. cbn [negb].
  destruct (ensure_alive_calm true s1 (proj1 F1)) as (s2 & E2 & K2 & C2 & F2).
  destruct (iter_chunks_correct (domains s) 500) as [Hcat _]; [lia|].
  set (bs := _iter_chunks (domains s) 500) in *. rewrite C1 in C2. rewrite K1 in K2.
  assert (frame s s2) as F by (by etrans).
  assert (warm_now cfg force 500 true s1 = warm_loop cfg force 0 bs s2) as Ew.
  { unfold warm_now. rewrite Hw. unfold truthy. rewrite (proj2 (Z.eqb_neq _ _)) by lia. cbn [negb].
    rewrite (rbind_ok _ _ _ _ _ E2). rewrite (rbind_ok _ _ _ _ _ (query_calm sh_domains s s2 ltac:(by intros ??) F)). done. }
  assert (positive_off cfg = false) as Hoff.
  { unfold positive_off, truthy. rewrite Hw, (proj2 (Z.eqb_neq _ _)) by lia. done. }
  destruct force.
  - destruct (warm_loop_force bs 0 s2 (proj1 F2)) as (s3 & E3 & Hf & K3 & F3); [by rewrite C2|done|by rewrite Hcat|].
    rewrite <- Ew in E3. exists (length (domains s)), s3. rewrite Hcat, C2 in *.
    rewrite (rbind_ok _ _ _ _ _ (loudly_ok _ _ _ _ E3)). split; [done|]. split; [congruence|]. split; [by etrans|done].
  - destruct (warm_loop_absent bs 0 s2 (proj1 F2)) as (s3 & E3 & C3 & K3 & F3); [by rewrite C2|done|rewrite Hcat; apply Hr|].
    rewrite <- Ew in E3. eexists _, s3. rewrite Hcat, C2 in *.
    rewrite (rbind_ok _ _ _ _ _ (loudly_ok _ _ _ _ E3)). split; [reflexivity|]. split; [congruence|]. split; [by etrans|].
    split; [done|]. rewrite C3, <- Hcat. apply entries_top_up; [by rewrite Hcat|done|done].
Qed.

(** Under the gate the same command, whatever --force says, is the reconcile. *)
Theorem warm_reconciles token force s :
  rs_script s = [] → warm_enabled cfg = true → c_alive (cache s) = true → rows_ok cfg (domains s) → dirty_ok s →
  keys s !! WARM_LOCK_KEY = None →
  ∃ s', warm_handle cfg token force s
        = (Ok ("tenant_resolve: reconciled " +:+ py_nat (length (domains s)) +:+ " host(s) (gate registry + snapshots)"), s')
    ∧ (∀ h, (check h s').1 = Ok (exact_verdict (domains s) h)) ∧ reconciled (domains s) (cache s') ∧ frame s s'.
Proof.
  intros Hs Hw Ha Hr Hd Hl. unfold warm_handle.
  destruct (redis_alive_calm s Hs) as (s1 & E1 & K1 & C1 & F1). rewrite (rbind_ok _ _ _ _ _ E1), Hw. cbn [negb].
  assert (domains s1 = domains s) as Hd1 by apply F1.
  destruct (run_locked_calm token s1 (proj1 F1) Hw) as (s' & E & Hc & (Hrec & _) & _ & F);
    [by rewrite C1|by rewrite Hd1|unfold dirty_ok; by rewrite K1|by rewrite K1|]. rewrite Hd1 in *.
  exists s'. rewrite (rbind_ok _ _ _ _ _ E). split; [done|]. split; [done|]. split; [done|by etrans].
Qed.

(** ** Redis that does not answer *)

Definition silent (s : RS) : Prop :=
  match rs_script s with ev :: _ => ∃ e, re_fault ev = Some e ∧ is_exception e = true | [] => False end.

Lemma silent_ping s : silent s → (redis_alive s).1 = Ok false.
Proof.
  unfold silent, redis_alive, rcatch, raw, pipeline, rtrip, rbind, next_revent. destruct (rs_script s) as [|ev l]; [done|].
  intros (e & He & Hx). cbn. rewrite He. destruct (r_exec PING _) as [[rep|] r], (re_applied ev); cbn; by rewrite Hx.
Qed.

(** Whatever the options, and whatever happens afterwards: a command whose first
    ping fails ends in a CommandError and issues nothing else. *)
Theorem unreachable_is_loud token force o s :
  silent s →
  (warm_handle cfg token force s) = (Err (command_error unreachable), (redis_alive s).2)
  ∧ (invalidate_handle cfg token o s) = (Err (command_error unreachable), (redis_alive s).2).
Proof.
  intros Hs. apply silent_ping in Hs. destruct (redis_alive s) as [r s1] eqn:E. simpl in Hs. subst r.
  unfold warm_handle, invalidate_handle. by rewrite !(rbind_ok _ _ _ _ _ E).
Qed.

End facts.

(** * Concrete runs of the commands of the resolve cache *)

(** 60 s positives, 5 s holds; the registry off. *)
Definition cold_cfg : Cfg := mkCfg 60 30 5 ∅ 20 2 false false 300 120 10.

Lemma rows_are_cold : rows_ok cold_cfg rows.
Proof.
  destruct rows_are_ok as (Hn & Hc & _). split; [done|]. split; [done|].
  intros d Hd. unfold rows in *. set_unfold. by destruct Hd as [->|[->|[]]].
Qed.

(** The line a run printed, computed from the equation of the run. *)
Ltac printed E := etrans; [exact E|]; apply (f_equal (λ m : string, (@Ok exn string m, _))); vm_compute; reflexivity.

(** Both tenants cached. *)
Definition both_cached : @C toy_backend := (put_many cold_cfg [("a.example.com", ARow acme_row); ("b.example.com", ARow beta_row)] empty_cache).2.
Definition warm_proc : RS := upd_shared (with_cache (λ _, both_cached)) (proc ∅ rows []).

(** One tenant with one domain is forgotten, the other stays; the line says two
    hosts. *)
Lemma invalidate_named_exact_witness :
  ∃ s', invalidate_handle cold_cfg "tok" (mkInvalidateOpts false (Some [1%Z]) None) warm_proc
        = (Ok "tenant_resolve: invalidated 2 host(s) for 1 tenant id(s)", s')
    ∧ get_snapshot "a.example.com" (cache s') = Ok LMiss
    ∧ get_snapshot "b.example.com" (cache s') = get_snapshot "b.example.com" both_cached.
Proof.
  destruct (invalidate_named_exact cold_cfg "tok" (mkInvalidateOpts false (Some [1%Z]) None)
    ["a.example.com"] ["acme"] warm_proc) as (s' & E & (Hh & _ & Hk) & _);
    [reflexivity|reflexivity|vm_compute; discriminate|reflexivity|vm_compute; reflexivity| |].
  { intros h v [->|[]%not_elem_of_nil]%elem_of_cons Hv. vm_compute in Hv. simplify_eq. reflexivity. }
  exists s'. split; [printed E|]. split; [apply Hh; [left|done]|].
  unfold get_snapshot. rewrite Hk; [reflexivity|..]; apply (bool_decide_unpack _); vm_compute; exact I.
Defined.

Lemma invalidate_all_exact_witness :
  ∃ msg s', invalidate_handle cfg "tok" (mkInvalidateOpts true None None) (proc (hosts ["gone.example.com"]) rows [])
            = (Ok ("tenant_resolve: " +:+ msg), s')
    ∧ (check "gone.example.com" s').1 = Ok NONMEMBER.
Proof.
  destruct (invalidate_all_exact cfg "tok" (proc (hosts ["gone.example.com"]) rows [])) as (msg & s' & E & _ & O);
    [reflexivity|reflexivity|apply rows_are_ok|by intros x|].
  exists msg, s'. split; [exact E|]. destruct O as (_ & Hc & _). rewrite Hc. reflexivity.
Defined.

Lemma warm_exact_witness :
  ∃ s', warm_handle cold_cfg "tok" false (upd_shared (with_cache (λ c, (put cold_cfg "a.example.com" (ARow acme_row) c).2)) (proc ∅ rows []))
        = (Ok "tenant_resolve: filled 1 entries (legacy warm)", s')
    ∧ get_snapshot "b.example.com" (cache s') = Ok (LSnap (no_url (capture (ARow beta_row)))).
Proof.
  destruct (warm_exact cold_cfg "tok" false
    (upd_shared (with_cache (λ c, (put cold_cfg "a.example.com" (ARow acme_row) c).2)) (proc ∅ rows [])))
    as (n & s' & E & _ & _ & Hn & _ & Hf & _); [reflexivity|reflexivity|apply rows_are_cold|reflexivity|reflexivity|].
  exists s'. split; [subst n; printed E|]. apply get_snapshot_stored.
  apply (Hf ("b.example.com", beta_row)); [right; left|vm_compute; reflexivity].
Defined.

Lemma warm_reconciles_witness :
  ∃ s', warm_handle cfg "tok" true (proc (hosts ["gone.example.com"]) rows [])
        = (Ok "tenant_resolve: reconciled 2 host(s) (gate registry + snapshots)", s')
    ∧ (check "a.example.com" s').1 = Ok MEMBER.
Proof.
  destruct (warm_reconciles cfg "tok" true (proc (hosts ["gone.example.com"]) rows [])) as (s' & E & Hc & _);
    [reflexivity|reflexivity|reflexivity|apply rows_are_ok|by intros x|reflexivity|].
  exists s'. split; [printed E|]. rewrite Hc. reflexivity.
Defined.

Definition wire_down : REvent := mkREvent id (Some (redis_error "Timeout")) false.

Lemma unreachable_is_loud_witness :
  (warm_handle cfg "tok" true (proc ∅ rows [wire_down])).1 = Err (command_error unreachable).
Proof.
  destruct (unreachable_is_loud cfg "tok" true (mkInvalidateOpts true None None) (proc ∅ rows [wire_down])) as [E _].
  { exists (redis_error "Timeout"). split; reflexivity. }
  rewrite E. reflexivity.
Defined.

(** ** Where the promise of loudness ends *)

(** Redis goes away after the two pings of a forced warm: the masked writes are
    counted, the command reports success, and no host is in the cache. *)
Definition redis_gone : REvent := mkREvent (with_cache (λ c, (c.1, false))) None true.

Theorem warm_counts_unwritten :
  let '(r, s') := warm_handle cold_cfg "tok" true (proc ∅ rows [calm; calm; redis_gone]) in
  r = Ok "tenant_resolve: reloaded 2 entries (legacy warm)"
  ∧ (∀ h, get_snapshot h (cache s') = Ok LMiss) ∧ (sh_cache (rs_shared s')).1 = ∅.
Proof. vm_compute. split; [reflexivity|]. split; [intros h; reflexivity|reflexivity]. Qed.

(** Redis answers the command's ping but not the one of [run_locked]: the command
    reports a lock nobody holds, as a success. *)
Theorem outage_reported_as_lock :
  let '(r, s') := warm_handle cfg "tok" false (proc ∅ rows [calm; wire_down]) in
  r = Ok "tenant_resolve: another writer holds the reconcile lock — skipped" ∧ keys s' !! WARM_LOCK_KEY = None.
Proof. vm_compute. by split. Qed.

(** The count under "host(s)" includes the schema snapshots. *)
Theorem invalidated_hosts_overcounted :
  (invalidate_handle cold_cfg "tok" (mkInvalidateOpts false (Some [1%Z]) None) warm_proc).1
    = Ok "tenant_resolve: invalidated 2 host(s) for 1 tenant id(s)"
  ∧ hosts_of_ids [1%Z] (rs_shared warm_proc) = ["a.example.com"].
Proof. by vm_compute. Qed.
