(* ===== verification/Bench.v ===== *)
(** * The resolve-cache bench

    Models src/scripts/resolve_cache_bench.py over the resolve service, the cache
    and the host registry it drives: seeding and cleaning up its rows, the checks of
    [verify], [rebuild], [coldstart] and [gate], the three arms of [compare], and
    the counters of a load pass.  Settings are assigned to the live namespaces, so
    a configuration is an argument.  Random draws, clocks and the printed tables are
    left out; a query on [default] is one lookup of the resolver.  Modes patch
    [host_registry.trigger_warm] with a no-op: the signals of rows take the patched
    trigger as an argument, while a resolve that finds no gate set still calls the
    real one, whose marker and message no mode reads. *)
From S2P Require Import Prelude PyStr Models PyExc World ResolveCache ResolveCacheFacts Registry RegistryFacts Throttle.
From S2P Require Import ResolveService ResolveServiceFacts CacheCommands CacheCommandFacts ResolverScenario.
From Stdlib Require Import Ascii QArith.
Local Open Scope nat_scope.
Open Scope tenants_scope.

Definition BENCH_SCHEMA_PREFIX : string := "bench_".
Definition BENCH_SHARD_ALIAS : string := "bench_shard".
Definition BENCH_DOMAIN_SUFFIX : string := ".loadtest.local".

(** [f"{n:0<w>d}"]. *)
Definition zfill (w n : nat) : string :=
  of_chars (replicate (w - String.length (py_nat n)) "0"%char) +:+ py_nat n.
Definition _bench_domain (i : nat) : string := "bench-" +:+ zfill 5 i +:+ BENCH_DOMAIN_SUFFIX.
Definition miss_pool (known : nat) : list string :=
  (λ i, "missing-" +:+ zfill 6 i +:+ BENCH_DOMAIN_SUFFIX) <$> seq 0 (Nat.max 1 known).

(** The settings a mode assigns: the other keys of the dict take their defaults. *)
Definition set_resolve (pos miss : Z) (cfg : Cfg) : Cfg :=
  mkCfg pos miss (HOLD_SECONDS RESOLVE_DEFAULTS) (WARM_TTL_BY_STATUS RESOLVE_DEFAULTS) (FILLCAP_PER_SEC RESOLVE_DEFAULTS)
    (FILLCAP_LOCAL_PER_SEC RESOLVE_DEFAULTS) (WARM_ENABLED cfg) (GATE_ENABLED cfg) (HOSTS_ARM_SECONDS cfg)
    (WARM_LOCK_SECONDS cfg) (WARM_PENDING_SECONDS cfg).
Definition set_registry (warm gate : bool) (cfg : Cfg) : Cfg :=
  mkCfg (POSITIVE_CACHE_SECONDS cfg) (MISS_CACHE_SECONDS cfg) (HOLD_SECONDS cfg) (WARM_TTL_BY_STATUS cfg)
    (FILLCAP_PER_SEC cfg) (FILLCAP_LOCAL_PER_SEC cfg) warm gate (HOSTS_ARM_SECONDS RESOLVE_DEFAULTS)
    (WARM_LOCK_SECONDS RESOLVE_DEFAULTS) (WARM_PENDING_SECONDS RESOLVE_DEFAULTS).
Definition _enable_warm_gate (gate : bool) (cfg : Cfg) : Cfg := set_registry true gate cfg.

(** [_Kind] with the two names the bench gives to MISS and NEG. *)
Definition kind_label (k : CKind) : string :=
  match k with POSITIVE => "positive" | NEG => "negative" | HOLD => "hold" | MISS => "absent" | UNKNOWN => "unknown" end.

(** [sorted_vals[k]] with [k] rounded and clamped; [round] to even on a half. *)
Definition round_half_even (num den : Z) : Z :=
  let q := (num / den)%Z in
  let r := (2 * (num mod den))%Z in
  if (r <? den)%Z then q else if (den <? r)%Z then (q + 1)%Z else if Z.even q then q else (q + 1)%Z.
Definition pct_index (n : nat) (p : Z) : Z :=
  Z.max 0 (Z.min (Z.of_nat n - 1) (round_half_even (p * (Z.of_nat n - 1)) 100)).
Definition pct (sorted_vals : list Z) (p : Z) : Z :=
  match sorted_vals with
  | [] => 0%Z
  | _ => default 0%Z (sorted_vals !! Z.to_nat (pct_index (length sorted_vals) p))
  end.

Section bench.
Context `{Backend} `{RawRedis}.

(** ** Resolving and counting *)

(** [_resolve_tenant]: one query on the Domain table. *)
Definition no_domain : exn := simple_exn DoesNotExist "DoesNotExist" "Domain matching query does not exist.".
Definition table_get (rows : list (string * TenantObj)) (host : string) : res exn TenantSnapshot :=
  match assoc host rows with
  | Some t => Ok (capture (ARow t))
  | None => Err no_domain
  end.

Definition resolve (cfg : Cfg) (host : string) : RM bool := λ s,
  match ResolveService.resolve cfg (λ _, table_get (sh_domains (rs_shared s)) host) DoesNotExist host s with
  | (Ok _, s') => (Ok true, s')
  | (Err e, s') => if is_not_found DoesNotExist e then (Ok false, s') else (Err e, s')
  end.

(** [with count_default_queries() as q: m], and [len(q)]. *)
Definition count_default_queries {A} (m : RM A) : RM (A * nat) := λ s,
  match m s with
  | (Ok a, s') => (Ok (a, rs_db_calls s' - rs_db_calls s), s')
  | (Err e, s') => (Err e, s')
  end.

Definition classify (host : string) : RM string :=
  v <~ cached (λ c, (c_get c (_snap_key host), c)) ;; rret (kind_label (_classify v)).
Definition _is_member (host : string) : RM bool :=
  r <~ raw (SISMEMBER HOSTS_KEY host) ;; rret (reply_true r).
(** The keys of the namespace counted, and the first [sample] hosts. *)
Definition count_tres_keys (sample : nat) : RM (nat * list string) :=
  hosts <~ cached (λ c, (iter_names SNAP_PREFIX c, c)) ;; rret (length hosts, take sample hosts).

(** [resolve_cache.cache.delete(_snap(host))]. *)
Definition drop_snapshot (host : string) : RM unit := cached (λ c, (tt, c_delete (_snap_key host) c)).

Fixpoint reach {A} (f : A → RM unit) (l : list A) : RM unit :=
  match l with [] => rret tt | x :: l' => f x ~;; reach f l' end.

Definition exit_with (msg : string) : exn := simple_exn OtherBaseException "SystemExit" msg.
Definition require_redis : RM unit :=
  alive <~ redis_alive ;;
  if alive : bool then rret tt
  else rraise (exit_with "FATAL: tenant_resolve Redis is not reachable (check LOCATION for CACHES['tenant_resolve']).").

(** ** Rows *)

Section rows.
(** [trigger]: [host_registry.trigger_warm], or the no-op that modes patch in. *)
Context (cfg : Cfg) (trigger : RM unit) (shard : Shard) (shard_id : Z) (next_pk : Shared → Z).

(** [Tenant.objects.get_or_create(schema_name=...)] and [invalidate_tenant]. *)
Definition bench_tenant (pk : Z) (schema company : string) : TenantObj :=
  mkTenantObj pk (mkTenant schema company "" shard_id ACTIVE NEW 0 "" None) shard.
Definition find_schema (schema : string) (h : Shared) : option TenantObj :=
  head (filter (λ t, o_schema t = schema) (sh_tenants h)).
Definition ensure_tenant (schema company : string) : RM TenantObj :=
  found <~ db_read (find_schema schema) ;;
  match found with
  | Some t => rret t
  | None =>
      t <~ rtrip (λ h, let t := bench_tenant (next_pk h) schema company in
                       (Ok t, mkShared (sh_cache h) (sh_redis h) (sh_domains h) (sh_tenants h ++ [t]))) ;;
      hosts <~ db_read (hosts_of_ids [o_pk t]) ;;
      tombstone_now cfg (_keys_for hosts (o_schema t)) ~;;
      rret t
  end.

(** [Domain.objects.get_or_create(domain=...)] and [invalidate_domain_saved]. *)
Definition ensure_domain (host : string) (t : TenantObj) : RM unit :=
  found <~ db_read (λ h, assoc host (sh_domains h)) ;;
  match found with
  | Some _ => rret tt
  | None =>
      rtrip (λ h, (Ok tt, mkShared (sh_cache h) (sh_redis h) (sh_domains h ++ [(host, t)]) (sh_tenants h))) ~;;
      forget_hosts_now cfg (rret [host]) [] false ~;;
      add cfg host ~;; arm cfg ~;; trigger
  end.

Definition add_bench_row (i : nat) (company : string) : RM unit :=
  t <~ ensure_tenant (BENCH_SCHEMA_PREFIX +:+ zfill 5 i) company ;;
  ensure_domain (_bench_domain i) t.

Definition ensure_bench_data (n : nat) : RM (list string) :=
  existing <~ db_read (λ h, filter (λ d, py_endswith d BENCH_DOMAIN_SUFFIX = true) (sh_domains h).*1) ;;
  reach (λ i, add_bench_row i ("Bench " +:+ zfill 5 i)) (filter (λ i, _bench_domain i ∉ existing) (seq 0 n)) ~;;
  rret (_bench_domain <$> seq 0 n).

Definition _add_bench_domain (i : nat) : RM string :=
  add_bench_row i ("Bench " +:+ py_nat i) ~;; rret (_bench_domain i).

(** [invalidate_domain_deleted] of each row: the keys are read when the signal is
    sent, the callbacks run when the deletion commits. *)
Definition deleted_keys (host : string) : RM (list string) :=
  found <~ cached (λ c, (get_many [_snap_key host] c, c)) ;;
  derived <~ rlift (derive_schemas (snd <$> found)) ;;
  rret (_snap_key host :: (_schema_snap_key <$> remove_dups derived)).
Fixpoint signal_deleted (hosts : list string) : RM (list (string * list string)) :=
  match hosts with
  | [] => rret []
  | h :: hs => ks <~ deleted_keys h ;; rest <~ signal_deleted hs ;; rret ((h, ks) :: rest)
  end.
Definition apply_deleted (x : string * list string) : RM unit :=
  _ <~ tombstone_now cfg x.2 ;; remove cfg x.1 ~;; arm cfg ~;; trigger.

Definition delete_domains (p : string → bool) : RM nat :=
  hosts <~ rtrip (λ h, let gone := filter (λ d, p d.1 = true) (sh_domains h) in
                       (Ok gone.*1, mkShared (sh_cache h) (sh_redis h) (filter (λ d, p d.1 = false) (sh_domains h)) (sh_tenants h))) ;;
  todo <~ signal_deleted hosts ;;
  reach apply_deleted todo ~;;
  rret (length hosts).

(** [invalidate_tenant_deleted]: the schema key, and hosts that still name it. *)
Definition delete_bench_tenants : RM nat :=
  gone <~ rtrip (λ h, let gone := filter (λ t, py_startswith (o_schema t) BENCH_SCHEMA_PREFIX = true) (sh_tenants h) in
                      (Ok gone, mkShared (sh_cache h) (sh_redis h) (sh_domains h)
                         (filter (λ t, py_startswith (o_schema t) BENCH_SCHEMA_PREFIX = false) (sh_tenants h)))) ;;
  reach (λ t, forget_schemas_now cfg [o_schema t] false ~;; rret tt) gone ~;;
  rret (length gone).

(** The SCAN passes: five at most, until one brings nothing new. *)
Fixpoint scan_passes (n : nat) (found : list string) : RM (list string) :=
  match n with
  | O => rret found
  | S n' =>
      batch <~ cached (λ c, (filter (λ k, py_endswith k BENCH_DOMAIN_SUFFIX = true) (c_keys c), c)) ;;
      if forallb (λ k, mem k found) batch then rret found
      else scan_passes n' (remove_dups (found ++ batch))
  end.
Definition _sweep_bench_cache_keys : RM nat :=
  found <~ scan_passes 5 [] ;;
  reach (λ k, cached (λ c, (tt, c_delete k c))) found ~;;
  rret (length found).

(** Rows first, then the markers their signals wrote: domains, tenants and cached
    keys removed. *)
Definition cleanup_bench_data : RM (nat * nat * nat) :=
  dn <~ delete_domains (λ d, py_endswith d BENCH_DOMAIN_SUFFIX) ;;
  tn <~ delete_bench_tenants ;;
  swept <~ _sweep_bench_cache_keys ;;
  rret (dn, tn, swept).

End rows.

(** ** The modes: the labelled checks they make *)

Definition Checks : Type := list (string * bool).
Definition all_pass (cs : Checks) : bool := forallb snd cs.
(** [sys.exit(0 if ok else 1)]. *)
Definition exit_code (cs : Checks) : Z := if all_pass cs then 0 else 1.

(** A cold resolve, a second one, and what is stored then: the positive and the
    negative part of [verify]. *)
Definition cold_then_hit (cfg : Cfg) (host : string) : RM ((bool * nat) * (bool * nat) * string) :=
  drop_snapshot host ~;;
  a <~ count_default_queries (resolve cfg host) ;;
  b <~ count_default_queries (resolve cfg host) ;;
  k <~ classify host ;;
  rret (a, b, k).

(** [verify], from the two hosts on. *)
Definition verify_checks (cfg : Cfg) (known unknown : string) : RM Checks :=
  p <~ cold_then_hit cfg known ;;
  n <~ cold_then_hit cfg unknown ;;
  let '(a1, a2, k1) := p in
  let '(a3, a4, k2) := n in
  drop_snapshot known ~;;
  resolve cfg known ~;;
  forget_hosts_now cfg (rret [known]) [] false ~;;
  k3 <~ classify known ;;
  a5 <~ count_default_queries (resolve cfg known) ;;
  k4 <~ classify known ;;
  rret [("first resolve is a DB fill", a1.1 && (1 <=? a1.2));
        ("stored as positive snapshot", String.eqb k1 "positive");
        ("second resolve serves from cache with ZERO default queries", a2.1 && (a2.2 =? 0));
        ("first miss hits the DB", negb a3.1 && (1 <=? a3.2));
        ("stored as NEGATIVE marker", String.eqb k2 "negative");
        ("second miss served from cache with ZERO default queries", negb a4.1 && (a4.2 =? 0));
        ("invalidation writes a hold/tombstone marker", String.eqb k3 "hold");
        ("resolve during hold goes to DB (treated as miss)", 1 <=? a5.2);
        ("hold marker NOT overwritten by the racing populate", String.eqb k4 "hold")].

Section modes.
Context (shard : Shard) (shard_id : Z) (next_pk : Shared → Z) (token : string).

Definition cleanup (cfg : Cfg) (trigger : RM unit) (keep : bool) : RM unit :=
  if keep then rret tt else cleanup_bench_data cfg trigger ~;; rret tt.

Definition mode_verify (cfg : Cfg) (known : nat) (keep : bool) : RM Z :=
  require_redis ~;;
  if negb (enabled cfg) then rraise (exit_with "resolve_cache is disabled (both TTLs are 0) — nothing to verify.")
  else
    ensure_bench_data cfg (trigger_warm cfg) shard shard_id next_pk (Nat.max 1 known) ~;;
    cs <~ verify_checks cfg (_bench_domain 0) ("nope-" +:+ _bench_domain 0) ;;
    cleanup cfg (trigger_warm cfg) keep ~;;
    rret (exit_code cs).

(** [coldstart], from the known host on. *)
Definition coldstart_checks (cfg : Cfg) (k : string) : RM Checks :=
  raw (DEL HOSTS_KEY) ~;;
  forget_all_now false ~;;
  a1 <~ count_default_queries (resolve cfg k) ;;
  a2 <~ count_default_queries (resolve cfg ("cold-unknown" +:+ BENCH_DOMAIN_SUFFIX)) ;;
  run_locked cfg token ~;;
  a3 <~ count_default_queries (resolve cfg k) ;;
  a4 <~ count_default_queries (resolve cfg ("warm-unknown" +:+ BENCH_DOMAIN_SUFFIX)) ;;
  rret [("cold: known host STILL resolves (fail-open, not 404'd)", a1.1);
        ("cold: unknown host checked via DB (fail-open, not a no-DB hard reject)", negb a2.1 && (1 <=? a2.2));
        ("warm: known host served from cache, ZERO default queries", a3.1 && (a3.2 =? 0));
        ("warm: unknown host HARD-REJECTED with ZERO default queries", negb a4.1 && (a4.2 =? 0))].

(** [known[0]] of an empty list. *)
Definition index_error : exn := simple_exn OtherException "IndexError" "list index out of range".
Definition nth_host (l : list string) (i : nat) : RM string :=
  match l !! i with Some h => rret h | None => rraise index_error end.

Definition mode_coldstart (cfg0 : Cfg) (known : nat) (keep : bool) : RM Z :=
  require_redis ~;;
  let cfg := _enable_warm_gate true cfg0 in
  hosts <~ ensure_bench_data cfg (rret tt) shard shard_id next_pk known ;;
  k <~ nth_host hosts 0 ;;
  cs <~ coldstart_checks cfg k ;;
  cleanup cfg (rret tt) keep ~;;
  rret (exit_code cs).

(** [c.scard(HOSTS_KEY)]. *)
Definition scard : RM nat :=
  rtrip (λ h, (Ok (match r_keys (sh_redis h) !! HOSTS_KEY with Some (RSet x) => size x | _ => 0 end), h)).

(** The status flip, through [Tenant.save(update_fields=["status"])] and its signal. *)
Definition set_status (st : Status) (t : TenantObj) : TenantObj :=
  mkTenantObj (o_pk t) (with_status st (t_previous_status (o_tenant t)) (t_status_changed_at (o_tenant t)) None (o_tenant t)) (o_shard t).
Definition flip_status (cfg : Cfg) (host : string) (st : Status) : RM unit :=
  found <~ db_read (λ h, assoc host (sh_domains h)) ;;
  match found with
  | None => rraise no_domain
  | Some t =>
      let flip x := if (o_pk x =? o_pk t)%Z then set_status st x else x in
      rtrip (λ h, (Ok tt, mkShared (sh_cache h) (sh_redis h) ((λ d, (d.1, flip d.2)) <$> sh_domains h) (flip <$> sh_tenants h))) ~;;
      hosts <~ db_read (hosts_of_ids [o_pk t]) ;;
      tombstone_now cfg (_keys_for hosts (o_schema t)) ~;; rret tt
  end.
Definition snapshot_status (host : string) : RM (option string) :=
  r <~ cached (λ c, (get_snapshot host c, c)) ;;
  l <~ rlift r ;;
  rret (match l with LSnap x => Some (ts_status x) | _ => None end).

Definition mode_rebuild (cfg0 : Cfg) (known : nat) (keep : bool) : RM Z :=
  require_redis ~;;
  let cfg := _enable_warm_gate true cfg0 in
  hosts <~ ensure_bench_data cfg (rret tt) shard shard_id next_pk known ;;
  reach drop_snapshot hosts ~;;
  run_locked cfg token ~;;
  base <~ scard ;;
  newd <~ _add_bench_domain cfg (rret tt) shard shard_id next_pk known ;;
  m1 <~ _is_member newd ;;
  run_locked cfg token ~;;
  k1 <~ classify newd ;;
  gone <~ nth_host hosts 0 ;;
  delete_domains cfg (rret tt) (String.eqb gone) ~;;
  m2 <~ _is_member gone ;;
  run_locked cfg token ~;;
  k2 <~ classify gone ;;
  live <~ nth_host hosts 1 ;;
  flip_status cfg live DEACTIVATED ~;;
  run_locked cfg token ~;;
  got <~ snapshot_status live ;;
  let cs := [("baseline: SET built from DB", base =? length hosts);
             ("add → instant member (incremental SADD via signal)", m1);
             ("add → reconcile writes the positive snapshot", String.eqb k1 "positive");
             ("delete → instant non-member (incremental SREM via signal)", negb m2);
             ("delete → reconcile + orphan-sweep drop the stale positive", negb (String.eqb k2 "positive"));
             ("status change → cached snapshot refreshed by reconcile", bool_decide (got = Some (status_value DEACTIVATED)))] in
  cleanup cfg (rret tt) keep ~;;
  rret (exit_code cs).

(** *** compare and gate: replaying a sequence of requests *)

(** What the generator draws for a request: a miss, with the index or number of
    the fresh name, or a known host. *)
Inductive Draw := DMiss (i : nat) | DKnown (i : nat).

Fixpoint compare_seq (unique : bool) (known pool : list string) (uniq : nat) (draws : list Draw) : RM (list string) :=
  match draws with
  | [] => rret []
  | DMiss i :: ds =>
      h <~ (if unique then rret ("uniq-" +:+ py_nat uniq +:+ BENCH_DOMAIN_SUFFIX) else nth_host pool i) ;;
      rest <~ compare_seq unique known pool (if unique then S uniq else uniq) ds ;;
      rret (h :: rest)
  | DKnown i :: ds => h <~ nth_host known i ;; rest <~ compare_seq unique known pool uniq ds ;; rret (h :: rest)
  end.

(** The loop of [run]: how many resolved. *)
Fixpoint replay (cfg : Cfg) (hosts : list string) : RM nat :=
  match hosts with
  | [] => rret 0
  | h :: hs => b <~ resolve cfg h ;; n <~ replay cfg hs ;; rret (if b : bool then S n else n)
  end.

(** (found, queries). *)
Definition run (cfg : Cfg) (hosts : list string) : RM (nat * nat) :=
  forget_all_now false ~;; count_default_queries (replay cfg hosts).

Record Arms := mkArms { off_found : nat; off_q : nat; on_found : nat; on_q : nat; gate_found : nat; gate_q : nat }.

Definition cfg_off (cfg : Cfg) : Cfg := set_registry false false (set_resolve 0 0 cfg).
Definition cfg_on (cfg : Cfg) : Cfg := set_resolve 3600 60 (cfg_off cfg).
Definition cfg_gate (cfg : Cfg) : Cfg := _enable_warm_gate true (cfg_on cfg).

Definition compare_arms (cfg : Cfg) (hosts : list string) : RM Arms :=
  off <~ run (cfg_off cfg) hosts ;;
  on <~ run (cfg_on cfg) hosts ;;
  run_locked (cfg_gate cfg) token ~;;
  gate <~ run (cfg_gate cfg) hosts ;;
  rret (mkArms off.1 off.2 on.1 on.2 gate.1 gate.2).

Definition verdict (a : Arms) : bool :=
  (off_found a =? on_found a) && (on_found a =? gate_found a) && (gate_q a <=? on_q a) && (on_q a <? off_q a).

(** [off_q / R] in the report. *)
Definition zero_division : exn := simple_exn OtherException "ZeroDivisionError" "division by zero".

Definition mode_compare (cfg : Cfg) (known : nat) (unique keep : bool) (draws : list Draw) : RM Z :=
  require_redis ~;;
  hosts <~ ensure_bench_data cfg (trigger_warm cfg) shard shard_id next_pk known ;;
  seq <~ compare_seq unique hosts (miss_pool known) 0 draws ;;
  a <~ compare_arms cfg seq ;;
  (match draws with [] => rraise zero_division | _ => rret tt end) ~;;
  raw (DEL HOSTS_KEY) ~;;
  cleanup (set_registry false false (cfg_gate cfg)) (rret tt) keep ~;;
  rret (if verdict a then 0 else 1)%Z.

(** (queries of unknown hosts, leaked, queries of known hosts). *)
Fixpoint gate_loop (cfg : Cfg) (known : list string) (i : nat) (draws : list Draw) : RM (nat * nat * nat) :=
  match draws with
  | [] => rret (0, 0, 0)
  | DMiss r :: ds =>
      x <~ count_default_queries (resolve cfg ("uniq-" +:+ py_nat i +:+ "-" +:+ py_nat r +:+ BENCH_DOMAIN_SUFFIX)) ;;
      rest <~ gate_loop cfg known (S i) ds ;;
      rret (x.2 + rest.1.1, (if x.1 : bool then 1 else 0) + rest.1.2, rest.2)
  | DKnown j :: ds =>
      h <~ nth_host known j ;;
      x <~ count_default_queries (resolve cfg h) ;;
      rest <~ gate_loop cfg known (S i) ds ;;
      rret (rest.1.1, rest.1.2, x.2 + rest.2)
  end.

Definition mode_gate (cfg0 : Cfg) (known : nat) (keep : bool) (draws : list Draw) : RM Z :=
  require_redis ~;;
  let cfg := _enable_warm_gate true cfg0 in
  hosts <~ ensure_bench_data cfg (rret tt) shard shard_id next_pk known ;;
  reach drop_snapshot hosts ~;;
  run_locked cfg token ~;;
  x <~ gate_loop cfg hosts 0 draws ;;
  cleanup cfg (rret tt) keep ~;;
  rret (if (x.1.1 =? 0) && (x.1.2 =? 0) then 0%Z else 1%Z).

Definition mode_seed (cfg : Cfg) (known : nat) : RM string :=
  require_redis ~;;
  hosts <~ ensure_bench_data cfg (trigger_warm cfg) shard shard_id next_pk known ;;
  first <~ nth_host hosts 0 ;;
  rret ("bench data ready: " +:+ py_nat (length hosts) +:+ " domain(s), first = " +:+ first).

(** *** load: what a pass finds when its threads start *)

(** [_run_load_pass] up to its threads, with the settings it assigns: no snapshot
    but the known hosts', and behind the gate the set of all hosts. *)
Definition prepare_pass (cfg : Cfg) (gate_on : bool) : RM Cfg :=
  forget_all_now false ~;;
  if gate_on then
    let cfg' := _enable_warm_gate true cfg in
    run_locked cfg' token ~;; rret cfg'
  else
    let cfg' := set_registry false false cfg in
    warm_now cfg' true 500 false ~;; rret cfg'.

(** [mode_load]: [pass] is what the threads of a pass do under its settings. *)
Definition mode_load {A} (cfg : Cfg) (known : nat) (keep : bool) (pass : bool → Cfg → list string → RM A) : RM (A * A) :=
  require_redis ~;;
  if negb (enabled cfg) then rraise (exit_with "resolve_cache is disabled (both TTLs are 0) — load test is meaningless.")
  else
    hosts <~ ensure_bench_data cfg (trigger_warm cfg) shard shard_id next_pk known ;;
    cfg1 <~ prepare_pass cfg false ;;
    off <~ pass false cfg1 hosts ;;
    cfg2 <~ prepare_pass cfg1 true ;;
    gate <~ pass true cfg2 hosts ;;
    raw (DEL HOSTS_KEY) ~;;
    cleanup (set_registry false false cfg2) (rret tt) keep ~;;
    rret (off, gate).

Definition mode_cleanup (cfg : Cfg) : RM (nat * nat * nat) := cleanup_bench_data cfg (trigger_warm cfg).

End modes.
End bench.

(** ** A load pass *)

(** [db_stat], updated under [gauge_lock] when a query starts and when it ends. *)
Record Gauge := mkGauge { gg_queries : Z; gg_inflight : Z; gg_peak : Z }.
Definition no_queries : Gauge := mkGauge 0 0 0.
Inductive GaugeStep := Enter | Leave.
Definition db_gauge (g : Gauge) (st : GaugeStep) : Gauge :=
  match st with
  | Enter => mkGauge (gg_queries g + 1) (gg_inflight g + 1) (Z.max (gg_peak g) (gg_inflight g + 1))
  | Leave => mkGauge (gg_queries g) (gg_inflight g - 1) (gg_peak g)
  end.

(** [take_work] of a run by number, under [lock]. *)
Definition take_work (stopped : bool) (remaining : Z) : bool * Z :=
  if (remaining <=? 0)%Z || stopped then (false, remaining) else (true, (remaining - 1)%Z).

(** What a worker counts of its own requests. *)
Record Tally := mkTally {
  ta_served : nat;
  ta_rejected : nat;
  ta_unexpected : nat;
  ta_exc : nat;
  ta_latencies : list Z;
  ta_exc_types : gmap string nat;
}.
Definition empty_tally : Tally := mkTally 0 0 0 0 [] ∅.

(** One request: the answer expected, what [resolve] did, and the time it took. *)
Definition tally_one (t : Tally) (q : bool * res exn bool * Z) : Tally :=
  let '(expect_found, r, ms) := q in
  match r with
  | Err e =>
      mkTally (ta_served t) (ta_rejected t) (ta_unexpected t) (S (ta_exc t)) (ta_latencies t)
        (<[eo_name (x_obj e) := S (default 0 (ta_exc_types t !! eo_name (x_obj e)))]> (ta_exc_types t))
  | Ok found =>
      let lat := ta_latencies t ++ [ms] in
      if found : bool then mkTally (S (ta_served t)) (ta_rejected t) (ta_unexpected t) (ta_exc t) lat (ta_exc_types t)
      else if negb expect_found then mkTally (ta_served t) (S (ta_rejected t)) (ta_unexpected t) (ta_exc t) lat (ta_exc_types t)
      else mkTally (ta_served t) (ta_rejected t) (S (ta_unexpected t)) (ta_exc t) lat (ta_exc_types t)
  end.
Definition worker (qs : list (bool * res exn bool * Z)) : Tally := foldl tally_one empty_tally qs.

(** The [finally] of a worker, under [lock]. *)
Definition merge_tally (a b : Tally) : Tally :=
  mkTally (ta_served a + ta_served b) (ta_rejected a + ta_rejected b) (ta_unexpected a + ta_unexpected b)
    (ta_exc a + ta_exc b) (ta_latencies a ++ ta_latencies b)
    (map_fold (λ name cnt m, <[name := default 0 (m !! name) + cnt]> m) (ta_exc_types a) (ta_exc_types b)).
Definition load_pass (workers : list (list (bool * res exn bool * Z))) : Tally :=
  foldl merge_tally empty_tally (worker <$> workers).

(** [sum(counts.values())]. *)
Definition tally_total (t : Tally) : nat := ta_served t + ta_rejected t + ta_unexpected t + ta_exc t.

(** [main]: a load run without a limit takes ten seconds (in hundredths). *)
Definition default_duration (load : bool) (duration : option Z) (requests : option nat) : option Z :=
  if load && bool_decide (duration = None ∨ duration = Some 0%Z) && bool_decide (requests = None ∨ requests = Some 0)
  then Some 1000%Z else duration.

