(* ===== verification/BenchFacts.v ===== *)
(** * What the bench measures

    Undisturbed runs of the bench's modes: what a resolve costs in every state of
    the cache and the gate, what the three arms of [compare] count, and when the
    checks pass. *)
From S2P Require Import Prelude PyStr Models PyExc World ResolveCache ResolveCacheFacts Registry RegistryFacts Throttle.
From S2P Require Import ResolveService ResolveServiceFacts CacheCommands CacheCommandFacts ResolverScenario Bench.
From Stdlib Require Import QArith.
Local Open Scope nat_scope.
Open Scope tenants_scope.

Section facts.
Context `{Backend} `{RawRedis}.

(** ** One resolve *)

(** Nobody else acts, this thread leads its own fills, Redis answers. *)
Definition at_rest (s : RS) : Prop := rs_script s = [] ∧ rs_roles s = [] ∧ c_alive (cache s) = true.

(** [s'] is [s] with [n] more lookups and the cache [c]. *)
Definition moved (s s' : RS) (n : nat) (c : C) : Prop :=
  rs_script s' = [] ∧ rs_roles s' = rs_roles s ∧ keys s' = keys s ∧ domains s' = domains s
  ∧ rs_db_calls s' = rs_db_calls s + n ∧ cache s' = c.

Lemma moved_rest s s' n c : at_rest s → moved s s' n c → c_alive c = true → at_rest s'.
Proof. intros (_ & Hr & _) (M1 & M2 & _ & _ & _ & <-) Ha. split; [done|]. split; [congruence|done]. Qed.

Lemma moved_trans s s1 s2 n1 n2 c1 c2 : moved s s1 n1 c1 → moved s1 s2 n2 c2 → moved s s2 (n1 + n2) c2.
Proof. unfold moved. intuition (try congruence). lia. Qed.

Lemma cached_moved {A} (f : C → A * C) s :
  rs_script s = [] → ∃ s', cached f s = (Ok (f (cache s)).1, s') ∧ moved s s' 0 (f (cache s)).2.
Proof.
  intros Hs. destruct (cached_calm f s Hs) as (s' & E & K & C1 & F). exists s'. split; [done|].
  pose proof (no_db_cached f s) as [_ Hr]. rewrite E in Hr. destruct F as (F1 & F2 & _ & _ & F5).
  unfold moved. rewrite Nat.add_0_r. by repeat split.
Qed.

Section service.
Context (cfg : Cfg) (db : nat → res exn TenantSnapshot) (h : string).
Notation svc := (ResolveService.resolve cfg db DoesNotExist h).

Lemma service_off s :
  rs_script s = [] → enabled cfg = false → gate_enabled cfg = false →
  ∃ s', svc s = (db (rs_db_calls s), s') ∧ moved s s' 1 (cache s).
Proof.
  intros Hs He Hg. unfold ResolveService.resolve. rewrite He, Hg. cbn [negb andb]. rewrite db_resolver_calm by done.
  exists (inc_db s). split; [done|]. unfold moved. simpl. rewrite Nat.add_1_r. by repeat split.
Qed.

(** An answer in the cache is the answer. *)
Lemma service_hit s x :
  rs_script s = [] → enabled cfg = true → get_snapshot h (cache s) = Ok x → x ≠ LMiss → x ≠ LHold →
  ∃ s', svc s = (match x with LSnap t => Ok t | _ => Err (not_found_exn DoesNotExist h) end, s') ∧ moved s s' 0 (cache s).
Proof.
  intros Hs Hen Hg Hx1 Hx2. unfold ResolveService.resolve. rewrite Hen. simpl. unfold rcatch, _via_cache.
  destruct (lookup_calm h s Hs) as (s1 & E1 & K1 & C1 & F1 & R1). rewrite Hg in E1. rewrite (rbind_ok _ _ _ _ _ E1).
  exists s1. split; [by destruct x|]. destruct F1 as (F1 & F2 & _ & _ & F5). unfold moved. rewrite Nat.add_0_r. by repeat split.
Qed.

(** A miss that the gate lets through is one lookup, and what it leaves. *)
Definition filled_cache (r : res exn TenantSnapshot) (c : C) : C :=
  match r with Ok x => (put cfg h (ASnap x) c).2 | Err _ => store_miss cfg h c end.

Lemma service_fill s :
  rs_script s = [] → rs_roles s = [] → enabled cfg = true → get_snapshot h (cache s) = Ok LMiss → admitted cfg h s →
  (∀ e, db (rs_db_calls s) = Err e → is_not_found DoesNotExist e = true) →
  ∃ s', svc s = (db (rs_db_calls s), s') ∧ moved s s' 1 (filled_cache (db (rs_db_calls s)) (cache s)).
Proof.
  intros Hs Hr Hen Hg Ha Hnf. unfold ResolveService.resolve. rewrite Hen. simpl. unfold rcatch, _via_cache.
  destruct (lookup_calm h s Hs) as (s1 & E1 & K1 & C1 & F1 & R1). rewrite Hg in E1. rewrite (rbind_ok _ _ _ _ _ E1).
  destruct (gate_admits cfg DoesNotExist h s1) as (s2 & E2 & K2 & C2 & F2 & R2); [apply F1| |].
  { destruct Ha as [Ha|Ha]; [by left|right; by rewrite K1]. }
  rewrite (rbind_ok _ _ _ _ _ E2).
  assert (single_flight (_fill cfg db DoesNotExist h) s2 = _fill cfg db DoesNotExist h s2) as ->.
  { unfold single_flight, rbind, next_role. by rewrite R2, R1, Hr. }
  destruct F1 as (S1 & D1 & _ & _ & N1), F2 as (S2 & D2 & _ & _ & N2).
  assert (moved s (inc_db s2) 1 (cache s)) as M0.
  { unfold moved. change (cache (inc_db s2)) with (cache s2). change (keys (inc_db s2)) with (keys s2).
    change (domains (inc_db s2)) with (domains s2). repeat split; simpl; try congruence; lia. }
  unfold _fill, rcatch. unfold rbind at 1. rewrite db_resolver_calm by done. rewrite N2, N1.
  destruct (db (rs_db_calls s)) as [x|e] eqn:Edb; simpl.
  - destruct (cached_moved (put cfg h (ASnap x)) (inc_db s2)) as (s3 & E3 & M3); [done|].
    rewrite (rbind_ok _ _ _ _ _ E3). exists s3. split; [done|].
    change (cache (inc_db s2)) with (cache s2) in M3. rewrite C2, C1 in M3. exact (moved_trans _ _ _ _ _ _ _ M0 M3).
  - rewrite (Hnf e eq_refl). destruct (cached_moved (λ c, (tt, store_miss cfg h c)) (inc_db s2)) as (s3 & E3 & M3); [done|].
    rewrite (rbind_ok _ _ _ _ _ E3). unfold rraise. rewrite (Hnf e eq_refl), andb_false_r. exists s3. split; [done|].
    change (cache (inc_db s2)) with (cache s2) in M3. rewrite C2, C1 in M3. exact (moved_trans _ _ _ _ _ _ _ M0 M3).
Qed.

(** A miss of a host the gate does not know costs nothing. *)
Lemma service_refuse s hs :
  rs_script s = [] → gate_enabled cfg = true → get_snapshot h (cache s) = Ok LMiss →
  keys s !! HOSTS_KEY = Some (RSet hs) → h ∉ hs →
  ∃ s', svc s = (Err (not_found_exn DoesNotExist h), s') ∧ moved s s' 0 (cache s).
Proof.
  intros Hs Hgate Hg Hk Hn.
  assert (enabled cfg = true) as Hen.
  { unfold gate_enabled in Hgate. bool_props. unfold enabled. match goal with E : warm_enabled _ = true |- _ => by rewrite E end. }
  unfold ResolveService.resolve. rewrite Hen. simpl. unfold rcatch, _via_cache.
  destruct (lookup_calm h s Hs) as (s1 & E1 & K1 & C1 & F1 & R1). rewrite Hg in E1. rewrite (rbind_ok _ _ _ _ _ E1).
  destruct (check_calm h s1) as (s2 & E2 & K2 & C2 & F2 & R2 & _); [apply F1|by rewrite K1, Hk|].
  rewrite K1, Hk in E2. simpl in E2. rewrite bool_decide_false in E2 by done.
  unfold rbind at 1. unfold pass_gate. rewrite Hgate, (rbind_ok _ _ _ _ _ E2). simpl. exists s2. split; [done|].
  destruct F1 as (S1 & D1 & _ & _ & N1), F2 as (S2 & D2 & _ & _ & N2). unfold moved. repeat split; try congruence. lia.
Qed.

End service.

(** ** The bench's resolve *)

Definition listed (rows : list (string * TenantObj)) (h : string) : bool := mem h rows.*1.

Lemma assoc_listed rows h : listed rows h = bool_decide (is_Some (assoc h rows)).
Proof.
  unfold listed. induction rows as [|[k t] rows IH]; simpl; [done|]. destruct (String.eqb_spec h k) as [->|Hne].
  - rewrite bool_decide_true by done. by apply mem_spec; left.
  - rewrite <- IH. apply eq_true_iff_eq. rewrite !mem_spec. set_solver.
Qed.

Lemma table_get_listed rows h :
  match table_get rows h with
  | Ok x => listed rows h = true ∧ ∃ t, assoc h rows = Some t ∧ x = capture (ARow t)
  | Err e => listed rows h = false ∧ is_not_found DoesNotExist e = true
  end.
Proof. rewrite assoc_listed. unfold table_get. destruct (assoc h rows) as [t|]; by eauto. Qed.

(** A resolve through the service, by how the service answers. *)
Lemma resolve_as cfg h s r s' n c :
  ResolveService.resolve cfg (λ _, table_get (domains s) h) DoesNotExist h s = (r, s') → moved s s' n c →
  match r with Ok _ => listed (domains s) h = true | Err e => listed (domains s) h = false ∧ is_not_found DoesNotExist e = true end →
  resolve cfg h s = (Ok (listed (domains s) h), s').
Proof. intros E _ Hr. unfold resolve. fold (domains s). rewrite E. destruct r as [x|e]; [by rewrite Hr|]. by destruct Hr as [-> ->]. Qed.

Lemma table_answer (r : res exn TenantSnapshot) rows h :
  r = table_get rows h →
  match r with Ok _ => listed rows h = true | Err e => listed rows h = false ∧ is_not_found DoesNotExist e = true end.
Proof. intros ->. pose proof (table_get_listed rows h) as Ht. destruct (table_get rows h); [apply Ht|done]. Qed.

Lemma dne_found h : is_not_found DoesNotExist (not_found_exn DoesNotExist h) = true.
Proof. done. Qed.

(** What the cache says of a host: nothing, or what the table says. *)
Definition agrees (rows : list (string * TenantObj)) (h : string) (c : C) : Prop :=
  ∃ x, get_snapshot h c = Ok x ∧ x ≠ LMiss ∧ x ≠ LHold ∧ (listed rows h = true ↔ ∃ t, x = LSnap t).

Lemma bench_hit cfg h s :
  rs_script s = [] → enabled cfg = true → agrees (domains s) h (cache s) →
  ∃ s', resolve cfg h s = (Ok (listed (domains s) h), s') ∧ moved s s' 0 (cache s).
Proof.
  intros Hs Hen (x & Hg & Hx1 & Hx2 & Hl).
  destruct (service_hit cfg (λ _, table_get (domains s) h) h s x Hs Hen Hg Hx1 Hx2) as (s' & E & M).
  exists s'. split; [|done]. apply (resolve_as _ _ _ _ _ _ _ E M). destruct x as [| | |t]; try done.
  - split; [|done]. apply not_true_iff_false. by intros [t ?]%Hl.
  - apply Hl. by exists t.
Qed.

Lemma bench_fill cfg h s :
  at_rest s → enabled cfg = true → get_snapshot h (cache s) = Ok LMiss → admitted cfg h s →
  ∃ s', resolve cfg h s = (Ok (listed (domains s) h), s') ∧ moved s s' 1 (filled_cache cfg h (table_get (domains s) h) (cache s)).
Proof.
  intros (Hs & Hr & _) Hen Hc Ha.
  destruct (service_fill cfg (λ _, table_get (domains s) h) h s) as (s' & E & M); try done.
  - intros e Ee. pose proof (table_get_listed (domains s) h) as Ht. rewrite Ee in Ht. apply Ht.
  - exists s'. split; [|done]. apply (resolve_as _ _ _ _ _ _ _ E M). by apply table_answer.
Qed.

Lemma absent_miss h c : c_get c (_snap_key h) = None → get_snapshot h c = Ok LMiss.
Proof. unfold get_snapshot. by intros ->. Qed.

Lemma bench_refuse cfg h s hs :
  rs_script s = [] → gate_enabled cfg = true → c_get (cache s) (_snap_key h) = None →
  keys s !! HOSTS_KEY = Some (RSet hs) → h ∉ hs → listed (domains s) h = false →
  ∃ s', resolve cfg h s = (Ok (listed (domains s) h), s') ∧ moved s s' 0 (cache s).
Proof.
  intros Hs Hg Hc Hk Hn Hl.
  destruct (service_refuse cfg (λ _, table_get (domains s) h) h s hs) as (s' & E & M); try done.
  { unfold get_snapshot. by rewrite Hc. }
  exists s'. split; [|done]. by apply (resolve_as _ _ _ _ _ _ _ E M).
Qed.

Lemma bench_off cfg h s :
  rs_script s = [] → enabled cfg = false → gate_enabled cfg = false →
  ∃ s', resolve cfg h s = (Ok (listed (domains s) h), s') ∧ moved s s' 1 (cache s).
Proof.
  intros Hs He Hg. destruct (service_off cfg (λ _, table_get (domains s) h) h s Hs He Hg) as (s' & E & M).
  exists s'. split; [|done]. apply (resolve_as _ _ _ _ _ _ _ E M). by apply table_answer.
Qed.

(** ** What a fill leaves *)

(** The lifetimes are usable. *)
Definition ttls_ok (cfg : Cfg) : Prop :=
  positive_off cfg = false ∧ (0 < MISS_CACHE_SECONDS cfg)%Z ∧ ∀ x, ttl_ok (_ttl_for cfg x) = true.

Lemma alive_filled cfg h r c : c_alive (filled_cache cfg h r c) = c_alive c.
Proof.
  unfold filled_cache, put, store_miss. destruct r as [x|e].
  - destruct (positive_off cfg); [done|]. pose proof (alive_set_nx (_snap_key h) (dump (ASnap x)) (_ttl_for cfg (ASnap x)) c) as H1.
    destruct (set_nx _ _ _ c) as [b1 c1]. simpl in H1.
    pose proof (alive_set_nx (_schema_snap_key (c_schema_name (ASnap x))) (dump (ASnap x)) (_ttl_for cfg (ASnap x)) c1) as H2.
    destruct (set_nx _ _ _ c1) as [b2 c2]. simpl in *. congruence.
  - destruct (truthy _); [apply alive_set_nx|done].
Qed.

(** The entry of the host itself, and no other host's. *)
Lemma get_filled cfg h r c k :
  c_alive c = true → ttls_ok cfg → c_get c (_snap_key h) = None →
  c_get (filled_cache cfg h r c) (_snap_key k) =
    if decide (h = k) then Some (match r with Ok x => dump (ASnap x) | Err _ => CStr NEGATIVE end) else c_get c (_snap_key k).
Proof.
  intros Ha (Hoff & Hm & Ht) Hn. unfold filled_cache, put, store_miss. destruct r as [x|e].
  - rewrite Hoff. pose proof (get_set_nx (_snap_key h) (dump (ASnap x)) (_ttl_for cfg (ASnap x)) c) as G1.
    pose proof (alive_set_nx (_snap_key h) (dump (ASnap x)) (_ttl_for cfg (ASnap x)) c) as H1.
    destruct (set_nx _ _ _ c) as [b1 c1]. simpl in *.
    pose proof (get_set_nx (_schema_snap_key (ts_schema_name x)) (dump (ASnap x)) (_ttl_for cfg (ASnap x)) c1) as G2.
    destruct (set_nx _ _ _ c1) as [b2 c2]. simpl in *. rewrite G2, G1 by (done || congruence || apply Ht).
    rewrite (decide_False (P := _schema_snap_key _ = _)) by (intros E; symmetry in E; by apply keys_disjoint in E).
    destruct (decide (h = k)) as [->|Hne]; [by rewrite decide_True, Hn by done|].
    rewrite decide_False; [done|]. by intros E%snap_key_inj.
  - assert (truthy (MISS_CACHE_SECONDS cfg) = true) as ->.
    { unfold truthy. destruct (Z.eqb_spec (MISS_CACHE_SECONDS cfg) 0); [lia|done]. }
    rewrite get_set_nx by (done || by apply Z.ltb_lt).
    destruct (decide (h = k)) as [->|Hne]; [by rewrite decide_True, Hn by done|].
    rewrite decide_False; [done|]. by intros E%snap_key_inj.
Qed.

Lemma filled_agrees cfg rows h c :
  c_alive c = true → ttls_ok cfg → c_get c (_snap_key h) = None →
  agrees rows h (filled_cache cfg h (table_get rows h) c).
Proof.
  intros Ha Ht Hn. pose proof (get_filled cfg h (table_get rows h) c h Ha Ht Hn) as G. rewrite decide_True in G by done.
  pose proof (table_get_listed rows h) as Hl. destruct (table_get rows h) as [x|e].
  - exists (LSnap (no_url (capture (ASnap x)))). split; [by apply get_snapshot_stored|]. split; [done|]. split; [done|].
    split; [by eexists|by intros _; apply Hl].
  - exists LNeg. split; [unfold get_snapshot; by rewrite G|]. split; [done|]. split; [done|].
    destruct Hl as [-> _]. split; [done|by intros [? ?]].
Qed.

Lemma agrees_same rows h c c' : c_get c' (_snap_key h) = c_get c (_snap_key h) → agrees rows h c → agrees rows h c'.
Proof. intros E (x & Hg & Hx). exists x. split; [|done]. unfold get_snapshot in *. by rewrite E. Qed.

(** ** Replaying a sequence *)

Definition found_of (rows : list (string * TenantObj)) (hosts : list string) : nat :=
  length (filter (λ h, listed rows h = true) hosts).

Lemma found_of_cons rows h hosts :
  found_of rows (h :: hosts) = if listed rows h then S (found_of rows hosts) else found_of rows hosts.
Proof. unfold found_of. rewrite filter_cons. by destruct (listed rows h); case_decide. Qed.

Section replay.
Context (cfg : Cfg) (rows : list (string * TenantObj)) (I : gset string → RS → Prop) (costs : string → bool).
(** [S]: the hosts asked for so far; only the first time may cost a lookup. *)
Context (step : ∀ S h s, I S s →
  ∃ s', resolve cfg h s = (Ok (listed rows h), s') ∧ I ({[h]} ∪ S) s'
    ∧ rs_db_calls s' = rs_db_calls s + (if bool_decide (h ∈ S) then 0 else if costs h then 1 else 0)).

Lemma first_time (h : string) (X S : gset string) :
  size (filter (λ x, costs x = true) (({[h]} ∪ X) ∖ S))
  = (if bool_decide (h ∈ S) then 0 else if costs h then 1 else 0) + size (filter (λ x, costs x = true) (X ∖ ({[h]} ∪ S))).
Proof.
  case_bool_decide as Hh; [simpl; f_equal; set_solver|]. destruct (costs h) eqn:Hc.
  - rewrite <- (size_singleton (C := gset string) h), <- size_union by set_solver. f_equal. apply set_eq. intros x.
    rewrite elem_of_union, !elem_of_filter. set_unfold. destruct (decide (x = h)) as [->|]; naive_solver.
  - simpl. f_equal. apply set_eq. intros x. rewrite !elem_of_filter. set_unfold. destruct (decide (x = h)) as [->|]; [|naive_solver].
    rewrite Hc. naive_solver.
Qed.

Lemma replay_counts hosts S s :
  I S s →
  ∃ s', replay cfg hosts s = (Ok (found_of rows hosts), s') ∧ I (list_to_set hosts ∪ S) s'
    ∧ rs_db_calls s' = rs_db_calls s + size (filter (λ h, costs h = true) ((list_to_set hosts : gset string) ∖ S)).
Proof.
  revert S s. induction hosts as [|h hosts IH]; intros S s Hs.
  - exists s. split; [done|]. simpl. replace (∅ ∪ S) with S by set_solver. split; [done|].
    replace (filter _ ((∅ : gset string) ∖ S)) with (∅ : gset string) by set_solver. by rewrite size_empty, Nat.add_0_r.
  - destruct (step S h s Hs) as (s1 & E1 & I1 & N1). destruct (IH _ _ I1) as (s2 & E2 & I2 & N2).
    exists s2. split; [|split].
    + simpl. rewrite (rbind_ok _ _ _ _ _ E1), (rbind_ok _ _ _ _ _ E2). unfold rret. rewrite found_of_cons. by destruct (listed rows h).
    + rewrite list_to_set_cons. by replace ({[h]} ∪ list_to_set hosts ∪ S) with (list_to_set hosts ∪ ({[h]} ∪ S)) by set_solver.
    + rewrite N2, N1, list_to_set_cons, first_time. lia.
Qed.

End replay.

(** Without a cache every request is a lookup. *)
Lemma replay_off cfg hosts s :
  rs_script s = [] → enabled cfg = false → gate_enabled cfg = false →
  ∃ s', replay cfg hosts s = (Ok (found_of (domains s) hosts), s') ∧ moved s s' (length hosts) (cache s).
Proof.
  intros Hs He Hg. revert s Hs. induction hosts as [|h hosts IH]; intros s Hs.
  - exists s. split; [done|]. unfold moved. simpl. rewrite Nat.add_0_r. by repeat split.
  - destruct (bench_off cfg h s Hs He Hg) as (s1 & E1 & M1). pose proof M1 as (S1 & _ & _ & D1 & _ & C1).
    destruct (IH s1 S1) as (s2 & E2 & M2). rewrite D1, C1 in *. exists s2. split; [|exact (moved_trans _ _ _ _ _ _ _ M1 M2)].
    simpl. rewrite (rbind_ok _ _ _ _ _ E1), (rbind_ok _ _ _ _ _ E2). unfold rret. rewrite found_of_cons. by destruct (listed (domains s) h).
Qed.

(** ** The caches of the arms *)

(** Cache on, no gate: the hosts asked for are remembered, found or not. *)
Definition on_inv (rows : list (string * TenantObj)) (S : gset string) (s : RS) : Prop :=
  at_rest s ∧ domains s = rows ∧ (∀ h, h ∈ S → agrees rows h (cache s)) ∧ (∀ h, h ∉ S → c_get (cache s) (_snap_key h) = None).

Lemma fill_remembers cfg rows h c S :
  c_alive c = true → ttls_ok cfg → h ∉ S →
  (∀ k, k ∈ S → agrees rows k c) → (∀ k, k ∉ S → c_get c (_snap_key k) = None) →
  (∀ k, k ∈ {[h]} ∪ S → agrees rows k (filled_cache cfg h (table_get rows h) c))
  ∧ (∀ k, k ∉ ({[h]} ∪ S : gset string) → c_get (filled_cache cfg h (table_get rows h) c) (_snap_key k) = None).
Proof.
  intros Ha Ht Hh I1 I2. split; intros k Hk.
  - destruct (decide (h = k)) as [<-|Hne]; [by apply filled_agrees; auto|]. apply (agrees_same rows k c); [|apply I1; set_solver].
    rewrite get_filled by auto. by rewrite decide_False.
  - rewrite get_filled by auto. rewrite decide_False by set_solver. apply I2. set_solver.
Qed.

Lemma on_step cfg rows S h s :
  gate_enabled cfg = false → ttls_ok cfg → on_inv rows S s →
  ∃ s', resolve cfg h s = (Ok (listed rows h), s') ∧ (on_inv rows ({[h]} ∪ S) s' ∧ keys s' = keys s)
    ∧ rs_db_calls s' = rs_db_calls s + (if bool_decide (h ∈ S) then 0 else 1).
Proof.
  intros Hg Ht (Hr & <- & I1 & I2). pose proof (positive_on_enabled cfg (proj1 Ht)) as Hen. pose proof Hr as (Hs & _ & Ha).
  case_bool_decide as Hh.
  - destruct (bench_hit cfg h s Hs Hen (I1 h Hh)) as (s' & E & M). exists s'. split; [done|].
    pose proof M as (_ & _ & K & D & N & C1). split; [|exact N]. split; [|done]. split; [by eapply moved_rest|]. split; [done|]. rewrite C1.
    replace ({[h]} ∪ S) with S by set_solver. by split.
  - destruct (bench_fill cfg h s Hr Hen (absent_miss _ _ (I2 h Hh))) as (s' & E & M); [by left|]. exists s'. split; [done|].
    pose proof M as (_ & _ & K & D & N & C1). split; [|exact N]. split; [|done].
    split; [eapply moved_rest; [done..|]; by rewrite alive_filled|]. split; [done|]. rewrite C1. by apply fill_remembers.
Qed.

(** Warm and gated: only listed hosts are ever remembered. *)
Definition gate_inv (rows : list (string * TenantObj)) (S : gset string) (s : RS) : Prop :=
  on_inv rows (filter (λ h, listed rows h = true) S) s
  ∧ ∃ hs, keys s !! HOSTS_KEY = Some (RSet hs) ∧ ∀ h, h ∈ hs ↔ listed rows h = true.

Lemma gate_step cfg rows S h s :
  gate_enabled cfg = true → ttls_ok cfg → gate_inv rows S s →
  ∃ s', resolve cfg h s = (Ok (listed rows h), s') ∧ gate_inv rows ({[h]} ∪ S) s'
    ∧ rs_db_calls s' = rs_db_calls s + (if bool_decide (h ∈ S) then 0 else if listed rows h then 1 else 0).
Proof.
  intros Hg Ht ((Hr & <- & I1 & I2) & hs & Hk & Hhs). pose proof (positive_on_enabled cfg (proj1 Ht)) as Hen.
  pose proof Hr as (Hs & _ & Ha). destruct (listed (domains s) h) eqn:Hl.
  - assert (filter (λ x, listed (domains s) x = true) ({[h]} ∪ S) = {[h]} ∪ filter (λ x, listed (domains s) x = true) S) as Hf by set_solver.
    case_bool_decide as Hh.
    + destruct (bench_hit cfg h s Hs Hen) as (s' & E & M); [apply I1; by apply elem_of_filter|]. rewrite Hl in E. exists s'. split; [done|].
      pose proof M as (_ & _ & K & D & N & C1). split; [|exact N]. split; [|exists hs; by rewrite K].
      split; [by eapply moved_rest|]. split; [done|]. rewrite C1. replace ({[h]} ∪ S) with S by set_solver. by split.
    + destruct (bench_fill cfg h s Hr Hen) as (s' & E & M);
        [apply absent_miss, I2; rewrite elem_of_filter; tauto|right; exists hs; split; [done|by apply Hhs]|]. rewrite Hl in E.
      exists s'. split; [done|]. pose proof M as (_ & _ & K & D & N & C1). split; [|exact N]. split; [|exists hs; by rewrite K].
      split; [eapply moved_rest; [done..|]; by rewrite alive_filled|]. split; [done|]. rewrite C1, Hf.
      apply fill_remembers; try done. rewrite elem_of_filter. tauto.
  - assert (h ∉ hs) as Hn by (rewrite Hhs, Hl; done).
    destruct (bench_refuse cfg h s hs Hs Hg) as (s' & E & M); [|done..|].
    { apply I2. rewrite elem_of_filter, Hl. by intros [? _]. }
    rewrite Hl in E. exists s'. split; [done|]. pose proof M as (_ & _ & K & D & N & C1).
    split; [|by case_bool_decide]. split; [|exists hs; by rewrite K].
    assert (filter (λ x, listed (domains s) x = true) ({[h]} ∪ S) = filter (λ x, listed (domains s) x = true) S) as ->.
    { apply set_eq. intros x. rewrite !elem_of_filter. set_unfold. destruct (decide (x = h)) as [->|]; [rewrite Hl|]; naive_solver. }
    split; [by eapply moved_rest|]. split; [done|]. by rewrite C1.
Qed.

(** ** Between the arms *)

Lemma forget_all_moved s :
  at_rest s →
  ∃ n s' c, forget_all_now false s = (Ok n, s') ∧ moved s s' 0 c ∧ c_alive c = true ∧ ∀ h, c_get c (_snap_key h) = None.
Proof.
  intros (Hs & _ & Ha). unfold forget_all_now, ensure_alive. rewrite (rbind_ok _ _ s tt s) by done.
  destruct (cached_moved (delete_prefix SNAP_PREFIX) s Hs) as (s1 & E1 & M1). rewrite (rbind_ok _ _ _ _ _ E1).
  destruct (cached_moved (delete_prefix SCHEMA_PREFIX) s1 (proj1 M1)) as (s2 & E2 & M2). rewrite (rbind_ok _ _ _ _ _ E2).
  assert (cache s1 = (delete_prefix SNAP_PREFIX (cache s)).2) as C1 by apply M1.
  eexists _, s2, _. split; [reflexivity|]. split; [exact (moved_trans _ _ _ _ _ _ _ M1 M2)|]. rewrite C1. split.
  - unfold delete_prefix. cbn [snd]. by rewrite !alive_delete_many.
  - intros h. rewrite !delete_prefix_spec, snap_prefixed. by destruct (py_startswith _ SCHEMA_PREFIX).
Qed.

Lemma no_db_finally {A} (m : RM A) f : no_db m → no_db f → no_db (rfinally m f).
Proof.
  intros Hm Hf s. unfold rfinally. destruct (Hm s) as [E1 E2]. destruct (m s) as [r s1]. destruct (Hf s1) as [E3 E4].
  destruct (f s1) as [[u|e] s2]; simpl in *; split; congruence.
Qed.

#[local] Hint Resolve no_db_ret no_db_raise no_db_bind no_db_catch no_db_rtrip no_db_cached no_db_raw : nodb.

Ltac nodb_step :=
  lazymatch goal with
  | |- no_db (rbind _ _) => apply no_db_bind; [|intros ?]
  | |- no_db (rcatch _ _ _) => apply no_db_catch; [|intros ?]
  | |- no_db (rfinally _ _) => apply no_db_finally
  | |- no_db (match ?x with _ => _ end) => destruct x
  | |- no_db _ => solve [auto with nodb]
  end.
Ltac nodb_solve := repeat nodb_step.

Lemma no_db_rebuild cfg chunk n batch rows : no_db (rebuild_loop cfg chunk n batch rows).
Proof.
  assert (∀ n batch, no_db (flush cfg n batch)) as Hf by (intros m [|]; simpl; auto with nodb).
  revert n batch. induction rows; intros n batch; simpl; [apply Hf|]. case_match; auto with nodb.
Qed.
#[local] Hint Resolve no_db_rebuild : nodb.

Lemma no_db_reconcile cfg : no_db (reconcile cfg).
Proof.
  assert (∀ k last, no_db (reconcile_loop cfg k last)) as Hl.
  { induction k as [|k IH]; intros last; simpl; unfold _rebuild_once, db_read; nodb_solve. }
  unfold reconcile, redis_alive, db_read. nodb_solve.
Qed.
#[local] Hint Resolve no_db_reconcile : nodb.

Lemma no_db_run_locked cfg token : no_db (run_locked cfg token).
Proof. unfold run_locked, redis_alive. nodb_solve. Qed.

(** After a reconcile of a table with rows the gate knows exactly its hosts. *)
Lemma gate_built cfg token s :
  at_rest s → warm_enabled cfg = true → rows_ok cfg (domains s) → domains s ≠ [] → dirty_ok s → keys s !! WARM_LOCK_KEY = None →
  ∃ n s', run_locked cfg token s = (Ok n, s') ∧ at_rest s' ∧ domains s' = domains s ∧ rs_db_calls s' = rs_db_calls s
    ∧ (reconciled (domains s) (cache s') ∧ no_new_hosts (domains s) (cache s) (cache s'))
    ∧ ∃ hs, keys s' !! HOSTS_KEY = Some (RSet hs) ∧ ∀ h, h ∈ hs ↔ listed (domains s) h = true.
Proof.
  intros (Hs & Hr & Ha) Hw Hok Hne Hd Hl.
  destruct (run_locked_calm cfg token s Hs Hw Ha Hok Hd Hl) as (s' & E & Hc & Hrec & _ & F).
  pose proof (no_db_run_locked cfg token s) as [_ Hro]. rewrite E in Hro. simpl in Hro. destruct F as (F1 & F2 & _ & _ & F5).
  eexists _, s'. split; [exact E|]. split.
  - split; [done|]. split; [by rewrite Hro|]. destruct (c_alive (cache s')) eqn:Ea; [done|]. exfalso.
    destruct (domains s) as [|d rows]; [done|]. destruct Hrec as [[Hrec _] _]. specialize (Hrec d ltac:(left)).
    unfold get_snapshot in Hrec. by rewrite c_get_down in Hrec.
  - split; [done|]. split; [done|]. split; [done|].
    assert (∀ h, verdict_of (keys s' !! HOSTS_KEY) h = if listed (domains s) h then MEMBER else NONMEMBER) as Hv.
    { intros h. specialize (Hc h). rewrite check_spec in Hc by (unfold redis_faults; by rewrite F1).
      unfold faulty, seen_keys in Hc. rewrite F1 in Hc. injection Hc as ->. unfold exact_verdict, listed.
      destruct (domains s); [done|]. case_bool_decide as Hh; [by rewrite (proj2 (mem_spec _ _) Hh)|].
      by rewrite (proj2 (mem_false _ _) Hh). }
    destruct (keys s' !! HOSTS_KEY) as [[hs| |]|] eqn:Ek; cycle 1.
    1, 2, 3: specialize (Hv ""); simpl in Hv; by destruct (listed (domains s) "").
    exists hs. split; [done|]. intros h. specialize (Hv h). simpl in Hv.
    case_bool_decide; destruct (listed (domains s) h); done.
Qed.

(** ** compare *)

Lemma counted {A} (m : RM A) s a s' :
  m s = (Ok a, s') → count_default_queries m s = (Ok (a, rs_db_calls s' - rs_db_calls s), s').
Proof. unfold count_default_queries. by intros ->. Qed.

Lemma ttls_on cfg : ttls_ok (cfg_on cfg).
Proof. split; [done|]. by split. Qed.

Lemma default_ttls : map_Forall (λ _ o, ttl_ok o = true) (WARM_TTL_BY_STATUS RESOLVE_DEFAULTS).
Proof. apply (bool_decide_unpack _). by vm_compute. Qed.

Lemma ttls_gate cfg : ttls_ok (cfg_gate cfg).
Proof.
  split; [done|]. split; [done|]. intros x. unfold _ttl_for, ttl_for_status. cbn [warm_enabled WARM_ENABLED cfg_gate _enable_warm_gate set_registry].
  change (WARM_TTL_BY_STATUS (cfg_gate cfg)) with (WARM_TTL_BY_STATUS RESOLVE_DEFAULTS).
  destruct (WARM_TTL_BY_STATUS RESOLVE_DEFAULTS !! c_status x) as [o|] eqn:E; [|done]. by apply (default_ttls _ _ E).
Qed.

(** An arm: nothing is cached when it starts. *)
Lemma run_counts cfg rows (I : gset string → RS → Prop) (costs : string → bool) hosts s :
  at_rest s →
  (∀ S h s, I S s → ∃ s', resolve cfg h s = (Ok (listed rows h), s') ∧ I ({[h]} ∪ S) s'
     ∧ rs_db_calls s' = rs_db_calls s + (if bool_decide (h ∈ S) then 0 else if costs h then 1 else 0)) →
  (∀ s1 c, moved s s1 0 c → at_rest s1 → (∀ h, c_get c (_snap_key h) = None) → I ∅ s1) →
  ∃ s', run cfg hosts s = (Ok (found_of rows hosts, size (filter (λ h, costs h = true) (list_to_set hosts : gset string))), s')
    ∧ I (list_to_set hosts) s'.
Proof.
  intros Hr Hstep Hinit. unfold run. destruct (forget_all_moved s Hr) as (n & s1 & c & E1 & M1 & Ha & Hc).
  rewrite (rbind_ok _ _ _ _ _ E1). destruct (replay_counts cfg rows I costs Hstep hosts ∅ s1) as (s2 & E2 & I2 & N2).
  { apply (Hinit s1 c); try done. by eapply moved_rest. }
  rewrite (counted _ _ _ _ E2), N2. rewrite difference_empty_L, (Nat.add_comm (rs_db_calls s1)), Nat.add_sub.
  exists s2. split; [done|]. by rewrite union_empty_r_L in I2.
Qed.

Lemma set_no_longer (l : list string) : size (list_to_set l : gset string) ≤ length l.
Proof.
  induction l as [|x l IH]; [by rewrite list_to_set_nil, size_empty|].
  rewrite list_to_set_cons, size_union_alt, size_singleton. cbn [length].
  pose proof (subseteq_size ((list_to_set l : gset string) ∖ {[x]}) (list_to_set l) ltac:(set_solver)). lia.
Qed.

Lemma dup_shrinks (l : list string) : size (list_to_set l : gset string) < length l ↔ ¬ NoDup l.
Proof.
  split; [intros Hlt Hn; rewrite (size_list_to_set l Hn) in Hlt; lia|].
  intros Hn. pose proof (set_no_longer l) as Hle.
  destruct (decide (size (list_to_set l : gset string) = length l)) as [E|E]; [|lia]. exfalso. apply Hn. clear Hn Hle.
  induction l as [|x l IH]; [constructor|]. rewrite list_to_set_cons, size_union_alt, size_singleton in E. cbn [length] in E.
  pose proof (subseteq_size ((list_to_set l : gset string) ∖ {[x]}) (list_to_set l) ltac:(set_solver)) as H1.
  pose proof (set_no_longer l) as H2. constructor; [|apply IH; lia]. intros Hx%(elem_of_list_to_set (C := gset string)).
  assert (size ((list_to_set l : gset string) ∖ {[x]}) < size (list_to_set l : gset string)) by (apply subset_size; set_solver). lia.
Qed.

(** C35: The arms of [compare] on an undisturbed registry with domains: without a cache
    every request is a query, with the cache every distinct host, behind the gate
    every distinct host of the table; all three find the same hosts; and the
    verdict is PASS exactly when some host was asked for twice. *)
Theorem compare_counts cfg token hosts s :
  at_rest s → rows_ok (cfg_gate cfg) (domains s) → domains s ≠ [] → dirty_ok s → keys s !! WARM_LOCK_KEY = None →
  ∃ a s', compare_arms token cfg hosts s = (Ok a, s')
    ∧ off_q a = length hosts
    ∧ on_q a = size (list_to_set hosts : gset string)
    ∧ gate_q a = size (filter (λ h, listed (domains s) h = true) (list_to_set hosts : gset string))
    ∧ off_found a = found_of (domains s) hosts ∧ on_found a = found_of (domains s) hosts ∧ gate_found a = found_of (domains s) hosts
    ∧ (verdict a = true ↔ ¬ NoDup hosts).
Proof.
  intros Hr Hok Hne Hd Hl. unfold compare_arms.
  (* OFF *)
  destruct (forget_all_moved s Hr) as (n0 & s1 & c1 & E1 & M1 & Ha1 & _). pose proof M1 as (S1 & _ & K1 & D1 & _ & _).
  destruct (replay_off (cfg_off cfg) hosts s1 S1 eq_refl eq_refl) as (s2 & E2 & M2). pose proof M2 as (_ & _ & K2 & D2 & N2 & C2).
  assert (at_rest s2) as Hr2.
  { apply (moved_rest s1 s2 _ _ (moved_rest s s1 _ _ Hr M1 Ha1) M2). assert (cache s1 = c1) as -> by apply M1. done. }
  assert (run (cfg_off cfg) hosts s = (Ok (found_of (domains s) hosts, length hosts), s2)) as Eoff.
  { unfold run. rewrite (rbind_ok _ _ _ _ _ E1), (counted _ _ _ _ E2), N2, D1. by rewrite (Nat.add_comm (rs_db_calls s1)), Nat.add_sub. }
  rewrite (rbind_ok _ _ _ _ _ Eoff).
  (* ON *)
  destruct (run_counts (cfg_on cfg) (domains s) (λ S x, on_inv (domains s) S x ∧ keys x = keys s) (λ _, true) hosts s2 Hr2)
    as (s3 & Eon & I3 & K3).
  { intros S h x [Hi Hk]. destruct (on_step (cfg_on cfg) (domains s) S h x eq_refl (ttls_on cfg) Hi) as (x' & E & [I' Ek] & N).
    exists x'. split; [done|]. split; [|done]. split; [done|congruence]. }
  { intros x c (_ & _ & Kx & Dx & _ & Cx) Hx Hc. split; [|congruence]. split; [done|]. split; [congruence|].
    split; [set_solver|]. intros h _. by rewrite Cx. }
  rewrite (rbind_ok _ _ _ _ _ Eon).
  (* WARM+GATE *)
  destruct I3 as (Hr3 & D3 & _).
  destruct (gate_built (cfg_gate cfg) token s3) as (n4 & s4 & E4 & Hr4 & D4 & _ & _ & hs & Hhs & Hin);
    [done|done|by rewrite D3|by rewrite D3|unfold dirty_ok; by rewrite K3|by rewrite K3|].
  rewrite (rbind_ok _ _ _ _ _ E4). rewrite D3 in *.
  destruct (run_counts (cfg_gate cfg) (domains s) (gate_inv (domains s)) (listed (domains s)) hosts s4 Hr4) as (s5 & Egate & _).
  { intros S h x Hi. by apply gate_step; [|apply ttls_gate|]. }
  { intros x c (_ & _ & Kx & Dx & _ & Cx) Hx Hc. split; [|exists hs; by rewrite Kx].
    split; [done|]. split; [congruence|]. split; [set_solver|]. intros h _. by rewrite Cx. }
  rewrite (rbind_ok _ _ _ _ _ Egate). eexists _, s5. split; [reflexivity|]. simpl.
  assert (filter (λ h : string, true = true) (list_to_set hosts : gset string) = list_to_set hosts) as -> by set_solver.
  split_and!; try done. unfold verdict. simpl. rewrite !Nat.eqb_refl. simpl.
  rewrite (proj2 (Nat.leb_le _ _)) by (apply subseteq_size; set_solver). simpl. by rewrite Nat.ltb_lt, dup_shrinks.
Qed.

(** ** verify *)

Lemma drop_moved h s :
  rs_script s = [] → ∃ s', drop_snapshot h s = (Ok tt, s') ∧ moved s s' 0 (c_delete (_snap_key h) (cache s)).
Proof. intros Hs. apply (cached_moved (λ c, (tt, c_delete (_snap_key h) c)) s Hs). Qed.

Lemma get_dropped h c k : c_get (c_delete (_snap_key h) c) (_snap_key k) = if decide (h = k) then None else c_get c (_snap_key k).
Proof.
  rewrite c_get_delete. destruct (decide (h = k)) as [->|Hne]; [by rewrite decide_True by done|].
  rewrite decide_False; [done|]. by intros E%snap_key_inj.
Qed.

Lemma classify_moved h s :
  rs_script s = [] → ∃ s', classify h s = (Ok (kind_label (_classify (c_get (cache s) (_snap_key h)))), s') ∧ moved s s' 0 (cache s).
Proof.
  intros Hs. destruct (cached_moved (λ c, (c_get c (_snap_key h), c)) s Hs) as (s' & E & M). exists s'. split; [|done].
  unfold classify. by rewrite (rbind_ok _ _ _ _ _ E).
Qed.

Lemma forget_holds cfg h x s :
  at_rest s → (0 < HOLD_SECONDS cfg)%Z → h ≠ "" → c_get (cache s) (_snap_key h) = Some (dump (ASnap x)) →
  ∃ n s' c, forget_hosts_now cfg (rret [h]) [] false s = (Ok n, s') ∧ moved s s' 0 c ∧ c_alive c = true ∧ held (_snap_key h) c.
Proof.
  intros (Hs & _ & Ha) Hh Hne Hg. unfold forget_hosts_now, ensure_alive. rewrite (rbind_ok _ _ s tt s) by done.
  rewrite (rbind_ok _ _ s [h] s) by done. cbv zeta.
  assert (filter (λ h, h ≠ "") [h] = [h]) as -> by (rewrite filter_cons_True by done; done).
  destruct (cached_moved (λ c, (get_many (_snap_key <$> [h]) c, c)) s Hs) as (s1 & E1 & M1).
  rewrite (rbind_ok _ _ _ _ _ E1). assert (cache s1 = cache s) as C1 by apply M1.
  cbn [fst fmap list_fmap get_many omap list_omap]. unfold get_many. cbn [omap list_omap fmap list_fmap]. rewrite Hg. simpl.
  unfold rlift, rbind at 1. unfold tombstone_now, _tombstone_keys.
  rewrite filter_cons_True by done. set (ks := filter _ _). cbn [length].
  destruct (cached_moved (λ c, (tt, _invalidate cfg (_snap_key h :: ks) c)) s1 (proj1 M1)) as (s2 & E2 & M2).
  rewrite (rbind_ok _ _ _ _ _ E2). eexists _, s2, _. split; [reflexivity|].
  split; [exact (moved_trans _ _ _ _ _ _ _ M1 M2)|]. cbn [snd]. rewrite C1. split.
  - unfold _invalidate. destruct (truthy _); by rewrite ?alive_set_many, ?alive_delete_many.
  - apply invalidate_held; [done|done|left].
Qed.

(** The second resolve of a cold host is free, and what the first stored is read. *)
Lemma cold_then_hit_counts cfg h s :
  at_rest s → ttls_ok cfg → gate_enabled cfg = false →
  let l := listed (domains s) h in
  ∃ s', cold_then_hit cfg h s = (Ok ((l, 1), (l, 0), if l then "positive" else "negative"), s')
    ∧ at_rest s' ∧ domains s' = domains s.
Proof.
  intros Hr Ht Hg l. pose proof (positive_on_enabled cfg (proj1 Ht)) as Hen. unfold cold_then_hit.
  destruct (drop_moved h s (proj1 Hr)) as (s1 & E1 & M1). rewrite (rbind_ok _ _ _ _ _ E1).
  pose proof M1 as (S1 & _ & _ & D1 & _ & C1).
  assert (at_rest s1) as Hr1 by (eapply moved_rest; [done..|]; rewrite c_alive_delete; apply Hr).
  assert (c_get (cache s1) (_snap_key h) = None) as Hn by (by rewrite C1, get_dropped, decide_True by done).
  destruct (bench_fill cfg h s1 Hr1 Hen (absent_miss _ _ Hn) (or_introl Hg)) as (s2 & E2 & M2). rewrite D1 in E2, M2. fold l in E2.
  rewrite (rbind_ok _ _ _ _ _ (counted _ _ _ _ E2)). pose proof M2 as (S2 & _ & _ & D2 & N2 & C2).
  assert (at_rest s2) as Hr2 by (eapply moved_rest; [done..|]; rewrite alive_filled; apply Hr1).
  destruct (bench_hit cfg h s2 S2 Hen) as (s3 & E3 & M3).
  { rewrite C2, D2, D1. apply filled_agrees; [apply Hr1|done|done]. }
  rewrite D2, D1 in E3. fold l in E3. rewrite (rbind_ok _ _ _ _ _ (counted _ _ _ _ E3)). pose proof M3 as (S3 & _ & _ & D3 & N3 & C3).
  destruct (classify_moved h s3 S3) as (s4 & E4 & M4). rewrite (rbind_ok _ _ _ _ _ E4). pose proof M4 as (_ & _ & _ & D4 & _ & C4).
  exists s4. replace (rs_db_calls s2 - rs_db_calls s1) with 1 by lia. replace (rs_db_calls s3 - rs_db_calls s2) with 0 by lia. split; [|split; [|congruence]].
  - unfold rret. do 2 f_equal. rewrite C3, C2, get_filled, decide_True by (done || apply Hr1).
    pose proof (table_get_listed (domains s) h) as Hl. unfold l. destruct (table_get (domains s) h) as [x|e].
    + destruct Hl as [-> _]. by rewrite dump_positive.
    + by destruct Hl as [-> _].
  - apply (moved_rest s3 s4 _ _ (moved_rest s2 s3 _ _ Hr2 M3 (proj2 (proj2 Hr2))) M4). rewrite C3. apply Hr2.
Qed.

(** Filling during a hold leaves the marker. *)
Lemma held_filled cfg h r c k : ttls_ok cfg → held k c → held k (filled_cache cfg h r c).
Proof.
  intros (_ & Hm & Ht) Hk. destruct r as [x|e]; simpl; [by apply held_put|]. unfold store_miss. destruct (truthy _); [|done].
  apply held_set_nx; [by apply Z.ltb_lt|done].
Qed.

(** With the gate off and every lifetime set, [verify] passes every check for a
    host of the table and a host that is not in it. *)
Theorem verify_passes cfg known unknown s :
  at_rest s → ttls_ok cfg → (0 < HOLD_SECONDS cfg)%Z → gate_enabled cfg = false → known ≠ "" →
  listed (domains s) known = true → listed (domains s) unknown = false →
  ∃ cs s', verify_checks cfg known unknown s = (Ok cs, s') ∧ all_pass cs = true ∧ length cs = 9.
Proof.
  intros Hr Ht Hh Hg Hne Hk Hu. pose proof (positive_on_enabled cfg (proj1 Ht)) as Hen. unfold verify_checks.
  destruct (cold_then_hit_counts cfg known s Hr Ht Hg) as (s1 & E1 & Hr1 & D1). rewrite (rbind_ok _ _ _ _ _ E1). rewrite Hk.
  destruct (cold_then_hit_counts cfg unknown s1 Hr1 Ht Hg) as (s2 & E2 & Hr2 & D2). rewrite (rbind_ok _ _ _ _ _ E2). rewrite D1, Hu.
  destruct (drop_moved known s2 (proj1 Hr2)) as (s3 & E3 & M3). rewrite (rbind_ok _ _ _ _ _ E3).
  pose proof M3 as (_ & _ & _ & D3 & _ & C3).
  assert (at_rest s3) as Hr3 by (eapply moved_rest; [done..|]; rewrite c_alive_delete; apply Hr2).
  assert (c_get (cache s3) (_snap_key known) = None) as Hn by (by rewrite C3, get_dropped, decide_True by done).
  destruct (bench_fill cfg known s3 Hr3 Hen (absent_miss _ _ Hn) (or_introl Hg)) as (s4 & E4 & M4).
  rewrite (rbind_ok _ _ _ _ _ E4). pose proof M4 as (_ & _ & _ & D4 & _ & C4).
  assert (at_rest s4) as Hr4 by (eapply moved_rest; [done..|]; rewrite alive_filled; apply Hr3).
  pose proof (table_get_listed (domains s3) known) as Hl. rewrite D3, D2, D1 in *.
  destruct (table_get (domains s) known) as [x|e] eqn:Ex; [|by destruct Hl as [Hl _]; rewrite Hl in Hk].
  destruct (forget_holds cfg known x s4 Hr4 Hh Hne) as (n & s5 & c5 & E5 & M5 & A5 & H5).
  { rewrite C4, get_filled, decide_True by (done || apply Hr3). done. }
  rewrite (rbind_ok _ _ _ _ _ E5). pose proof M5 as (S5 & _ & _ & D5 & _ & C5).
  assert (at_rest s5) as Hr5 by (by eapply moved_rest).
  destruct (classify_moved known s5 S5) as (s6 & E6 & M6). rewrite (rbind_ok _ _ _ _ _ E6). rewrite C5, H5.
  pose proof M6 as (_ & _ & _ & D6 & _ & C6). rewrite C5 in C6.
  assert (at_rest s6) as Hr6 by (eapply moved_rest; [done..|]; by rewrite C5).
  destruct (bench_fill cfg known s6 Hr6 Hen) as (s7 & E7 & M7); [unfold get_snapshot; by rewrite C6, H5|by left|].
  rewrite (rbind_ok _ _ _ _ _ (counted _ _ _ _ E7)). pose proof M7 as (S7 & _ & _ & _ & N7 & C7).
  destruct (classify_moved known s7 S7) as (s8 & E8 & M8). rewrite (rbind_ok _ _ _ _ _ E8).
  assert (held (_snap_key known) (cache s7)) as H7 by (rewrite C7; apply held_filled; [done|by rewrite C6]).
  rewrite H7. rewrite N7, (Nat.add_comm _ 1), Nat.add_sub. by eexists _, s8.
Qed.

(** ** gate *)

(** The state [mode_gate] replays in: every host of the table is cached and known
    to the gate, and no other host has an entry. *)
Definition warm_inv (rows : list (string * TenantObj)) (s : RS) : Prop :=
  at_rest s ∧ domains s = rows
  ∧ (∃ hs, keys s !! HOSTS_KEY = Some (RSet hs) ∧ ∀ h, h ∈ hs ↔ listed rows h = true)
  ∧ (∀ h, listed rows h = true → agrees rows h (cache s))
  ∧ (∀ h, listed rows h = false → c_get (cache s) (_snap_key h) = None).

Lemma warm_step cfg rows h s :
  gate_enabled cfg = true → enabled cfg = true → warm_inv rows s →
  ∃ s', resolve cfg h s = (Ok (listed rows h), s') ∧ rs_db_calls s' = rs_db_calls s ∧ warm_inv rows s'.
Proof.
  intros Hg Hen (Hr & <- & (hs & Hk & Hhs) & I1 & I2). pose proof Hr as (Hs & _ & Ha).
  assert (∃ s', resolve cfg h s = (Ok (listed (domains s) h), s') ∧ moved s s' 0 (cache s)) as (s' & E & M).
  { destruct (listed (domains s) h) eqn:Hl.
    - destruct (bench_hit cfg h s Hs Hen (I1 h Hl)) as (s' & E & M). rewrite Hl in E. eauto.
    - destruct (bench_refuse cfg h s hs Hs Hg (I2 h Hl) Hk) as (s' & E & M); [by rewrite Hhs, Hl|done|]. rewrite Hl in E. eauto. }
  pose proof M as (_ & _ & K & D & N & C1). exists s'. split; [done|]. split; [lia|].
  split; [by eapply moved_rest|]. split; [done|]. rewrite C1, K. eauto.
Qed.

Lemma warm_resolve cfg rows h s :
  gate_enabled cfg = true → enabled cfg = true → warm_inv rows s →
  ∃ s', count_default_queries (resolve cfg h) s = (Ok (listed rows h, 0), s') ∧ warm_inv rows s'.
Proof.
  intros Hg Hen Hi. destruct (warm_step cfg rows h s Hg Hen Hi) as (s' & E & N & I'). exists s'. split; [|done].
  rewrite (counted _ _ _ _ E). by replace (rs_db_calls s' - rs_db_calls s) with 0 by lia.
Qed.

(** Behind a built gate no request of [mode_gate] reaches the database: unknown
    names are refused and do not resolve, and the known hosts, which the reconcile
    has just warmed, are hits from the first request on. *)
Theorem gate_run_free cfg rows known draws i s :
  gate_enabled cfg = true → warm_inv rows s →
  (∀ j, DKnown j ∈ draws → is_Some (known !! j)) →
  (∀ i r, DMiss r ∈ draws → listed rows ("uniq-" +:+ py_nat i +:+ "-" +:+ py_nat r +:+ BENCH_DOMAIN_SUFFIX) = false) →
  ∃ s', gate_loop cfg known i draws s = (Ok (0, 0, 0), s') ∧ warm_inv rows s'.
Proof.
  intros Hg. assert (enabled cfg = true) as Hen.
  { unfold gate_enabled in Hg. bool_props. unfold enabled. match goal with E : warm_enabled _ = true |- _ => by rewrite E end. }
  revert i s. induction draws as [|d draws IH]; intros i s Hi Hk Hm; [by exists s|].
  assert (∀ s, warm_inv rows s → ∃ s', gate_loop cfg known (S i) draws s = (Ok (0, 0, 0), s') ∧ warm_inv rows s') as IH'.
  { intros s0 Hs0. apply IH; [done|intros j Hj; apply Hk; by right|intros i' r Hr; apply Hm; by right]. }
  destruct d as [r|j]; cbn [gate_loop].
  - destruct (warm_resolve cfg rows ("uniq-" +:+ py_nat i +:+ "-" +:+ py_nat r +:+ BENCH_DOMAIN_SUFFIX) s Hg Hen Hi) as (s1 & E1 & I1).
    rewrite (rbind_ok _ _ _ _ _ E1). destruct (IH' s1 I1) as (s2 & E2 & I2). rewrite (rbind_ok _ _ _ _ _ E2).
    exists s2. rewrite Hm by left. done.
  - destruct (Hk j ltac:(left)) as [h Hh]. unfold nth_host. rewrite Hh. rewrite (rbind_ok _ _ s h s) by done.
    destruct (warm_resolve cfg rows h s Hg Hen Hi) as (s1 & E1 & I1). rewrite (rbind_ok _ _ _ _ _ E1).
    destruct (IH' s1 I1) as (s2 & E2 & I2). rewrite (rbind_ok _ _ _ _ _ E2). by exists s2.
Qed.

(** A gated load pass starts in that state. *)
Lemma prepared_gate token cfg s :
  at_rest s → rows_ok (_enable_warm_gate true cfg) (domains s) → domains s ≠ [] → dirty_ok s → keys s !! WARM_LOCK_KEY = None →
  ∃ s', prepare_pass token cfg true s = (Ok (_enable_warm_gate true cfg), s') ∧ warm_inv (domains s) s'.
Proof.
  intros Hr Hok Hne Hd Hl. unfold prepare_pass.
  destruct (forget_all_moved s Hr) as (n & s1 & c1 & E1 & M1 & Ha1 & Hnone). pose proof M1 as (_ & _ & K1 & D1 & _ & C1).
  rewrite (rbind_ok _ _ _ _ _ E1). pose proof (moved_rest _ _ _ _ Hr M1 Ha1) as Hr1.
  destruct (gate_built (_enable_warm_gate true cfg) token s1) as (m & s2 & E2 & Hr2 & D2 & _ & ([Hrec _] & Hnew) & hs & Hk & Hhs);
    [done|done|by rewrite D1|by rewrite D1|unfold dirty_ok; by rewrite K1|by rewrite K1|].
  rewrite (rbind_ok _ _ _ _ _ E2). exists s2. split; [done|]. rewrite D1 in *. split; [done|]. split; [done|]. split; [by exists hs|].
  split.
  - intros h Hh. unfold listed in Hh. apply mem_spec, list_elem_of_fmap in Hh as (d & -> & Hin).
    exists (LSnap (no_url (capture (ARow d.2)))). split; [by apply Hrec|]. split; [done|]. split; [done|].
    unfold listed. rewrite (proj2 (mem_spec _ _)) by (by apply list_elem_of_fmap_2). naive_solver.
  - intros h Hh. apply Hnew; [by apply mem_false|]. rewrite C1. apply Hnone.
Qed.

(** Behind the gate a pass costs the database nothing, however many of its hosts
    are unknown or new: every known host is found, every other refused. *)
Theorem gated_pass_free token cfg hosts s :
  at_rest s → rows_ok (_enable_warm_gate true cfg) (domains s) → domains s ≠ [] → dirty_ok s → keys s !! WARM_LOCK_KEY = None →
  ∃ s' s'', prepare_pass token cfg true s = (Ok (_enable_warm_gate true cfg), s')
    ∧ replay (_enable_warm_gate true cfg) hosts s' = (Ok (found_of (domains s) hosts), s'') ∧ rs_db_calls s'' = rs_db_calls s'.
Proof.
  intros Hr Hok Hne Hd Hl. destruct (prepared_gate token cfg s Hr Hok Hne Hd Hl) as (s1 & E1 & I1). exists s1.
  set (cfg' := _enable_warm_gate true cfg) in *. set (rows := domains s) in *. clear Hr Hok Hne Hd Hl.
  enough (∃ s'', replay cfg' hosts s1 = (Ok (found_of rows hosts), s'') ∧ rs_db_calls s'' = rs_db_calls s1) as (s2 & ? & ?) by eauto.
  clear E1. revert s1 I1. induction hosts as [|h hosts IH]; intros s1 I1; [by exists s1|]. cbn [replay].
  destruct (warm_step cfg' rows h s1) as (s2 & E2 & N2 & I2); [done|done|done|].
  rewrite (rbind_ok _ _ _ _ _ E2). destruct (IH s2 I2) as (s3 & E3 & N3). rewrite (rbind_ok _ _ _ _ _ E3).
  exists s3. rewrite found_of_cons. split; [by destruct (listed rows h)|lia].
Qed.

End facts.

(** ** The counters of a load pass *)

(** The level of the gauge after each prefix of a history, and its maximum. *)
Fixpoint level (hist : list GaugeStep) : Z :=
  match hist with [] => 0 | Enter :: l => level l + 1 | Leave :: l => level l - 1 end.
Definition enters (hist : list GaugeStep) : Z :=
  Z.of_nat (length (filter (λ st, match st with Enter => true | Leave => false end = true) hist)).

(** Whatever the order in which threads start and finish queries: the gauge counts
    the queries, knows how many are in flight, and its peak is a level that was
    reached and that no moment exceeded. *)
Theorem gauge_exact hist :
  let g := foldl db_gauge no_queries hist in
  gg_queries g = enters hist ∧ gg_inflight g = level hist
  ∧ (∀ pre post, hist = pre ++ post → (level pre ≤ gg_peak g)%Z)
  ∧ (∃ pre post, hist = pre ++ post ∧ gg_peak g = level pre).
Proof.
  assert (∀ l st, level (l ++ [st]) = (level l + match st with Enter => 1 | Leave => -1 end)%Z) as Hl.
  { induction l as [|[] l IH]; intros []; simpl; rewrite ?IH; lia. }
  assert (∀ l st, enters (l ++ [st]) = (enters l + match st with Enter => 1 | Leave => 0 end)%Z) as He.
  { intros l []; unfold enters; rewrite filter_app, length_app; simpl; lia. }
  induction hist as [|st hist IH] using rev_ind.
  - simpl. split; [done|]. split; [done|]. split; [|by exists [], []]. intros pre post E. symmetry in E. apply app_eq_nil in E as [-> _]. done.
  - rewrite foldl_app. cbn [foldl]. cbv zeta in *. set (g := foldl db_gauge no_queries hist) in *.
    destruct IH as (Hq & Hi & Hmax & pre & post & Epre & Hp). rewrite Hl, He.
    assert (∀ pre' post', hist ++ [st] = pre' ++ post' → pre' = hist ++ [st] ∨ ∃ p, hist = pre' ++ p) as Hcut.
    { intros pre' post' E. destruct post' as [|x post' _] using rev_ind; [left; by rewrite app_nil_r in E|]. right.
      rewrite app_assoc in E. apply app_inj_tail in E as [E _]. by exists post'. }
    destruct st; simpl; (split; [lia|]); (split; [lia|]); split.
    + intros pre' post' [->|[p Ep]]%Hcut; [rewrite Hl; lia|]. specialize (Hmax _ _ Ep). lia.
    + destruct (Z.max_spec (gg_peak g) (gg_inflight g + 1)) as [[_ ->]|[_ ->]].
      * exists (hist ++ [Enter]), []. rewrite app_nil_r. split; [done|]. rewrite Hl. lia.
      * exists pre, (post ++ [Enter]). split; [by rewrite Epre, app_assoc|done].
    + intros pre' post' [->|[p Ep]]%Hcut; [rewrite Hl; specialize (Hmax hist [] ltac:(by rewrite app_nil_r)); lia|]. by eapply Hmax.
    + exists pre, (post ++ [Leave]). split; [by rewrite Epre, app_assoc|done].
Qed.

(** Workers that share a counter of requests take exactly as many as there are. *)
Fixpoint taken (calls : nat) (remaining : Z) : nat * Z :=
  match calls with
  | O => (0, remaining)
  | S n => let '(ok, r) := take_work false remaining in let '(k, r') := taken n r in ((if ok : bool then S k else k), r')
  end.

Lemma take_work_exact calls remaining :
  (0 ≤ remaining)%Z → Z.of_nat (taken calls remaining).1 = Z.min (Z.of_nat calls) remaining.
Proof.
  revert remaining. induction calls as [|n IH]; intros r Hr; [simpl; lia|]. cbn [taken]. unfold take_work. rewrite orb_false_r.
  destruct (Z.leb_spec r 0).
  - specialize (IH r Hr). destruct (taken n r) as [k r']. simpl in *. lia.
  - specialize (IH (r - 1)%Z ltac:(lia)). destruct (taken n (r - 1)) as [k r']. simpl in *. lia.
Qed.

(** A tally in which every request is one count and every count but the errors a
    latency. *)
Definition exc_sum (m : gmap string nat) : nat := map_fold (λ _ n acc, n + acc) 0 m.
Definition tally_ok (n : nat) (t : Tally) : Prop :=
  tally_total t = n ∧ length (ta_latencies t) + ta_exc t = n ∧ exc_sum (ta_exc_types t) = ta_exc t.

Lemma exc_sum_insert m k v : exc_sum (<[k := default 0 (m !! k) + v]> m) = exc_sum m + v.
Proof.
  unfold exc_sum. destruct (m !! k) as [n|] eqn:E.
  - rewrite <- (insert_delete_id m k n E) at 2. rewrite <- (insert_delete_eq m).
    rewrite !map_fold_insert_L by (intros; (lia || apply lookup_delete_eq)). simpl. lia.
  - rewrite map_fold_insert_L by (intros; (lia || done)). simpl. lia.
Qed.

Lemma tally_one_ok n t q : tally_ok n t → tally_ok (S n) (tally_one t q).
Proof.
  destruct q as [[expect r] ms]. intros (H1 & H2 & H3). unfold tally_ok, tally_total, tally_one in *.
  destruct r as [[]|e]; [|destruct expect|]; simpl; rewrite ?length_app; simpl; try (split; [lia|]; split; [lia|done]).
  split; [lia|]. split; [lia|]. rewrite <- H3. replace (S (default 0 _)) with (default 0 (ta_exc_types t !! eo_name (x_obj e)) + 1) by lia.
  rewrite exc_sum_insert. lia.
Qed.

Lemma worker_ok qs : tally_ok (length qs) (worker qs).
Proof.
  unfold worker. induction qs as [|q qs IH] using rev_ind; [done|]. rewrite foldl_app, length_app. simpl.
  replace (length qs + 1) with (S (length qs)) by lia. by apply tally_one_ok.
Qed.

Lemma merge_ok n m a b : tally_ok n a → tally_ok m b → tally_ok (n + m) (merge_tally a b).
Proof.
  intros (A1 & A2 & A3) (B1 & B2 & B3). unfold tally_ok, tally_total, merge_tally in *. simpl. rewrite length_app.
  split; [lia|]. split; [lia|]. rewrite <- A3, <- B3. clear. generalize (ta_exc_types b) as mb. generalize (ta_exc_types a) as ma.
  intros ma mb. apply (map_fold_weak_ind (λ r m, exc_sum r = exc_sum ma + exc_sum m)).
  - unfold exc_sum at 3. rewrite map_fold_empty. lia.
  - intros k v m' r Hk IH. rewrite exc_sum_insert, IH. unfold exc_sum at 4. rewrite map_fold_insert_L by (intros; (lia || done)).
    unfold exc_sum. lia.
Qed.

(** Over all workers no request is lost or counted twice: the four counts add up
    to the requests, each of them but the errors has a latency, and the errors are
    the ones listed by type. *)
Theorem load_pass_accounts workers : tally_ok (list_sum (length <$> workers)) (load_pass workers).
Proof.
  unfold load_pass. assert (∀ t n, tally_ok n t → tally_ok (n + list_sum (length <$> workers)) (foldl merge_tally t (worker <$> workers))) as Hf.
  { induction workers as [|w ws IH]; intros t n Ht; simpl; [by rewrite Nat.add_0_r|]. rewrite Nat.add_assoc. apply IH, merge_ok; [done|apply worker_ok]. }
  by apply (Hf empty_tally 0).
Qed.

(** ** Percentiles *)

Lemma round_bounds num den :
  (0 < den)%Z → (2 * num - den ≤ 2 * den * round_half_even num den ≤ 2 * num + den)%Z.
Proof.
  intros Hd. unfold round_half_even. pose proof (Z.div_mod num den ltac:(lia)) as E. pose proof (Z.mod_pos_bound num den Hd) as B.
  set (q := (num / den)%Z) in *. set (r := (num mod den)%Z) in *.
  destruct (Z.ltb_spec (2 * r) den), (Z.ltb_spec den (2 * r)); try destruct (Z.even q); nia.
Qed.

Lemma round_mono a b den : (0 < den)%Z → (a ≤ b)%Z → (round_half_even a den ≤ round_half_even b den)%Z.
Proof.
  intros Hd Hab. destruct (decide (a = b)) as [->|Hne]; [done|].
  pose proof (round_bounds a den Hd). pose proof (round_bounds b den Hd). nia.
Qed.

Lemma round_exact k den : (0 < den)%Z → round_half_even (k * den) den = k.
Proof.
  intros Hd. unfold round_half_even. rewrite Z.div_mul, Z.mod_mul by lia. by destruct (Z.ltb_spec (2 * 0) den); [|lia].
Qed.

(** A percentile of a sorted sample is one of its values, grows with the
    percentage, and runs from the smallest value to the largest. *)
Theorem pct_sound (l : list Z) p q :
  (∀ i j x y, l !! i = Some x → l !! j = Some y → i ≤ j → (x ≤ y)%Z) → l ≠ [] → (0 ≤ p ≤ q)%Z → (q ≤ 100)%Z →
  pct l p ∈ l ∧ (pct l p ≤ pct l q)%Z ∧ Some (pct l 0) = head l ∧ Some (pct l 100) = last l.
Proof.
  intros Hs Hne Hp Hq. set (n := length l).
  assert (0 < n) as Hn by (destruct l; [done|simpl in *; lia]).
  assert (∀ p, (0 ≤ p ≤ 100)%Z → Z.to_nat (pct_index n p) < n) as Hi by (intros x _; unfold pct_index; lia).
  assert (∀ p, (0 ≤ p ≤ 100)%Z → l !! Z.to_nat (pct_index n p) = Some (pct l p)) as Hv.
  { intros x Hx. destruct (lookup_lt_is_Some_2 l (Z.to_nat (pct_index n x))) as [v Ev]; [by apply Hi|].
    unfold pct. rewrite Ev. destruct l; [done|]. fold n. by rewrite Ev. }
  split; [eapply list_elem_of_lookup_2, Hv; lia|]. split; [|split].
  - eapply Hs; [apply Hv; lia|apply Hv; lia|]. unfold pct_index.
    pose proof (round_mono (p * (Z.of_nat n - 1)) (q * (Z.of_nat n - 1)) 100 ltac:(lia) ltac:(nia)). lia.
  - rewrite <- Hv by lia. unfold pct_index. replace (round_half_even (0 * (Z.of_nat n - 1)) 100) with 0%Z by (by rewrite Z.mul_0_l). rewrite Z.min_r, Z.max_l by lia. by destruct l.
  - rewrite <- Hv by lia. unfold pct_index. rewrite Z.mul_comm, round_exact by lia. rewrite last_lookup. f_equal. unfold n in *. lia.
Qed.

(** * Runs of the bench *)

Definition bench_shard : Shard := mkShard BENCH_SHARD_ALIAS "bench (load-test, not routable)" false true.
Definition next_key (h : Shared) : Z := (1000 + Z.of_nat (length (sh_tenants h)))%Z.

(** A registry with its usual domains, and an empty one. *)
Definition staging : RS := proc ∅ rows [].
Definition blank : RS := proc ∅ [] [].

(** Every mode passes on a registry of its own. *)
Example modes_pass :
  (mode_verify bench_shard 9 next_key cold_cfg 2 false staging).1 = Ok 0%Z
  ∧ (mode_coldstart bench_shard 9 next_key "tok" cold_cfg 2 false staging).1 = Ok 0%Z
  ∧ (mode_rebuild bench_shard 9 next_key "tok" cold_cfg 2 false blank).1 = Ok 0%Z
  ∧ (mode_gate bench_shard 9 next_key "tok" cold_cfg 2 false [DMiss 7; DKnown 1; DKnown 1; DMiss 3] staging).1 = Ok 0%Z
  ∧ (mode_compare bench_shard 9 next_key "tok" cold_cfg 2 true false [DMiss 7; DKnown 1; DKnown 1] staging).1 = Ok 0%Z.
Proof. by vm_compute. Qed.

(** [compare --unique-misses --miss-ratio 1]: the flood the mode is made for.  Every
    host is asked for once, so the cache saves nothing, and the verdict is FAIL
    although the gate turned every request away without a query. *)
Theorem compare_fails_on_flood :
  (mode_compare bench_shard 9 next_key "tok" cold_cfg 2 true false [DMiss 0; DMiss 0; DMiss 0] staging).1 = Ok 1%Z.
Proof. by vm_compute. Qed.

(** [rebuild] compares the whole SET with its own domains: it fails wherever there
    are others. *)
Theorem rebuild_fails_beside_tenants :
  (mode_rebuild bench_shard 9 next_key "tok" cold_cfg 2 false staging).1 = Ok 1%Z.
Proof. by vm_compute. Qed.

(** The cleanup sweeps the host keys; the schema markers that deleting the tenants
    wrote stay. *)
Theorem cleanup_leaves_schema_markers :
  let '(r, s) := mode_verify bench_shard 9 next_key cold_cfg 1 false staging in
  r = Ok 0%Z ∧ get_schema_snapshot "bench_00000" (cache s) = Ok LHold ∧ find_schema "bench_00000" (rs_shared s) = None.
Proof. by vm_compute. Qed.

(** No requests at all: the report divides by their number. *)
Theorem compare_divides_by_zero :
  (mode_compare bench_shard 9 next_key "tok" cold_cfg 2 true false [] staging).1 = Err zero_division.
Proof. by vm_compute. Qed.

Lemma staging_rows : rows_ok (cfg_gate cold_cfg) rows.
Proof.
  destruct rows_are_ok as (Hn & Hc & _). split; [done|]. split; [done|]. intros d _. apply (ttls_gate cold_cfg).
Qed.

Lemma compare_counts_witness :
  ∃ a s', compare_arms "tok" cold_cfg ["a.example.com"; "nope"; "a.example.com"] staging = (Ok a, s')
    ∧ off_q a = 3 ∧ on_q a = 2 ∧ gate_q a = 1 ∧ verdict a = true.
Proof.
  destruct (compare_counts cold_cfg "tok" ["a.example.com"; "nope"; "a.example.com"] staging)
    as (a & s' & E & H1 & H2 & H3 & _ & _ & _ & Hv); [by repeat split|apply staging_rows|done|by intros x|done|].
  exists a, s'. split; [exact E|]. split; [exact H1|]. split; [rewrite H2; by vm_compute|]. split; [rewrite H3; by vm_compute|].
  apply Hv. apply (bool_decide_unpack _). by vm_compute.
Defined.

Lemma verify_passes_witness :
  ∃ cs s', verify_checks cold_cfg "a.example.com" "nope.example.com" staging = (Ok cs, s') ∧ all_pass cs = true.
Proof.
  destruct (verify_passes cold_cfg "a.example.com" "nope.example.com" staging) as (cs & s' & E & Hp & _);
    [by repeat split|by repeat split|by vm_compute|done|done|by vm_compute|by vm_compute|].
  exists cs, s'. by split.
Defined.
