(* ===== verification/LoadTest.v ===== *)
(** * The load test through the API

    Models src/deploy/loadtest_rds_proxy.py.  A virtual user is a function of the
    answers its requests get: it decides which requests it sends and what it notes
    of each answer.  The shared [Metrics] is the sink of those notes; tasks are
    cooperative, so a run is any interleaving of the users' notes.  httpx, the
    random values of payloads, [json()] of a body and the clock are arguments; the
    printed report is reduced to the numbers it shows. *)
From S2P Require Import Prelude PyStr Bench BenchFacts.
From Stdlib Require Import Ascii.
From stdpp Require Import sorting.
Local Open Scope nat_scope.
Open Scope tenants_scope.

Definition BUCKET_SECS : Z := 5.
Definition FAIL_SAMPLE_CAP : nat := 5.
Definition ENABLED_ENTITIES : list string := ["product"; "car"; "customer"; "driver"; "order"].
Definition INFRA_STATUS : list Z := [502; 503; 504]%Z.
Definition INFRA_EXC : list string :=
  ["ConnectTimeout"; "ReadTimeout"; "PoolTimeout"; "WriteTimeout"; "ConnectError"; "RemoteProtocolError"].
Definition _DB_ERR_MARKERS : list string :=
  ["operationalerror"; "could not connect"; "connection to server"; "borrow timeout"; "too many connections";
   "remaining connection slots"; "server closed the connection"; "connection already closed"; "ssl error";
   "consuming input failed"; "connection timed out"].
Definition _MAX_LOGGED : nat := 30.

(** ** Statistics of one operation *)

Record OpStat := mkOpStat {
  attempts : nat;
  ok : nat;
  verify_fail : nat;
  status : gmap Z nat;
  exc : gmap string nat;
  infra_500 : nat;
  latencies_ms : list Z;
  samples : list (string * string);
}.
Definition no_stat : OpStat := mkOpStat 0 0 0 ∅ ∅ 0 [] [].

(** [counter[k] += n]. *)
Definition bump {K} `{Countable K} (k : K) (n : nat) (m : gmap K nat) : gmap K nat := <[k := default 0 (m !! k) + n]> m.

(** [" ".join(body.split())[:200]]. *)
Definition words (s : string) : list string := filter (λ w, w ≠ "") (py_split " "%char (of_chars ((λ c, if py_space c then " "%char else c) <$> chars s))).
Definition squeeze (s : string) : string := of_chars (take 200 (chars (py_join " " (words s)))).

Definition take_sample (label body : string) (s : OpStat) : list (string * string) :=
  if length (samples s) <? FAIL_SAMPLE_CAP then samples s ++ [(label, squeeze body)] else samples s.

Definition http (code : Z) (good : bool) (latency : Z) (body : string) (s : OpStat) : OpStat :=
  mkOpStat (S (attempts s)) (if good then S (ok s) else ok s) (verify_fail s) (bump code 1 (status s)) (exc s) (infra_500 s)
    (if good then latencies_ms s ++ [latency] else latencies_ms s) (if good then samples s else take_sample (py_int code) body s).

Definition error (name msg : string) (s : OpStat) : OpStat :=
  mkOpStat (S (attempts s)) (ok s) (verify_fail s) (status s) (bump name 1 (exc s)) (infra_500 s) (latencies_ms s) (take_sample name msg s).

Definition inc_verify_fail (s : OpStat) : OpStat :=
  mkOpStat (attempts s) (ok s) (S (verify_fail s)) (status s) (exc s) (infra_500 s) (latencies_ms s) (samples s).
Definition inc_infra_500 (s : OpStat) : OpStat :=
  mkOpStat (attempts s) (ok s) (verify_fail s) (status s) (exc s) (S (infra_500 s)) (latencies_ms s) (samples s).

Definition fail (s : OpStat) : nat := attempts s - ok s.

(** [sum(f(k, v) for k, v in m.items())], and [sum(v for k, v in counter.items() if p(k))]. *)
Definition msum {K V} `{Countable K} (f : K → V → nat) (m : gmap K V) : nat := list_sum ((λ kv, f kv.1 kv.2) <$> map_to_list m).
Definition csum {K} `{Countable K} (p : K → bool) (m : gmap K nat) : nat := msum (λ k n, if p k then n else 0) m.
Definition infra (s : OpStat) : nat :=
  csum (λ c, mem c INFRA_STATUS) (status s) + csum (λ n, mem n INFRA_EXC) (exc s) + infra_500 s.

Definition _is_db_error_body (body : string) : bool :=
  existsb (λ m, existsb (λ i, String.prefix m (String.substring i (String.length body) (py_lower body))) (seq 0 (S (String.length body)))) _DB_ERR_MARKERS.

Inductive MarkKind := MOk | MInfra | MOther.
#[global] Instance MarkKind_eq_dec : EqDecision MarkKind.
Proof. solve_decision. Defined.
#[global] Instance MarkKind_countable : Countable MarkKind.
Proof.
  refine (inj_countable' (λ k, match k with MOk => 0 | MInfra => 1 | MOther => 2 end)
    (λ n, match n with 0 => MOk | 1 => MInfra | _ => MOther end) _). by intros [].
Defined.

Definition classify (code : Z) (good : bool) (body : string) : MarkKind :=
  if good then MOk
  else if mem code INFRA_STATUS then MInfra
  else if (code =? 500)%Z && _is_db_error_body body then MInfra
  else MOther.

(** ** The shared sink *)

Definition Key : Type := string * string * string.   (** tenant, entity, phase *)
Record Metrics := mkMetrics {
  ops : gmap Key OpStat;
  timeline : gmap Z (gmap MarkKind nat);
  logged : nat;                       (** [_logged] *)
  error_log : list string;            (** the entries of ERROR_LOG *)
}.
Definition no_metrics : Metrics := mkMetrics ∅ ∅ 0 [].

Definition op (k : Key) (f : OpStat → OpStat) (m : Metrics) : Metrics :=
  mkMetrics (<[k := f (default no_stat (ops m !! k))]> (ops m)) (timeline m) (logged m) (error_log m).
(** [mark] at [now] hundredths after the start. *)
Definition mark (now : Z) (kind : MarkKind) (m : Metrics) : Metrics :=
  let b := (now / (100 * BUCKET_SECS))%Z in
  mkMetrics (ops m) (<[b := bump kind 1 (default ∅ (timeline m !! b))]> (timeline m)) (logged m) (error_log m).
Definition eol : string := of_chars [ascii_of_nat 10].
Definition _log_failure (k : Key) (what body : string) (m : Metrics) : Metrics :=
  if String.eqb body "" || (_MAX_LOGGED <=? logged m) then m
  else mkMetrics (ops m) (timeline m) (S (logged m))
         (error_log m ++ [py_join eol [""; of_chars (replicate 80 "="%char); "[" +:+ k.1.1 +:+ "] " +:+ k.1.2 +:+ " " +:+ k.2 +:+ " -> " +:+ what;
                                    of_chars (replicate 80 "-"%char); body; ""]]).

(** What a user does with the sink at once: an answer, an [httpx.HTTPError], or an
    error noted without a mark ([login] and [loop]). *)
Inductive Note :=
| Answered (k : Key) (code : Z) (good : bool) (ms : Z) (text : string)
| Broken (k : Key) (name msg : string)
| Unmarked (k : Key) (name msg : string).

Definition note (now : Z) (n : Note) (m : Metrics) : Metrics :=
  match n with
  | Answered k code good ms text =>
      let body := if good then "" else text in
      let kind := classify code good body in
      let m := op k (http code good ms body) m in
      let m := if String.eqb k.2 "read" && (code =? 200)%Z && negb good then op k inc_verify_fail m else m in
      let m := if bool_decide (kind = MInfra) && (code =? 500)%Z then op k inc_infra_500 m else m in
      let m := if negb good && (500 <=? code)%Z then _log_failure k (py_int code) text m else m in
      mark now kind m
  | Broken k name msg => mark now (if mem name INFRA_EXC then MInfra else MOther) (op k (error name msg) m)
  | Unmarked k name msg => op k (error name msg) m
  end.

(** ** A virtual user *)

(** The body of an answer as [json()] gives it: an error, or an object with or
    without ["id"]. *)
Inductive Json := JBad (name msg : string) | JObj (id : option Z).
Inductive Answer :=
| Resp (code : Z) (text : string) (json : Json) (ms : Z)
| HttpError (name msg : string)              (** [httpx.HTTPError] *)
| OtherError (name msg : string).            (** any other [Exception] *)

Inductive Request := Post (path : string) (customer product : option Z) | Get (path : string) (id : Z).

Definition Ctx : Type := list (string * Z).
Definition ctx_get (kind : string) (ctx : Ctx) : option Z := snd <$> find (λ x, String.eqb x.1 kind) (rev ctx).

(** The builders: the path, and of the payload what comes from [ctx]. *)
Definition entity_path (kind : string) : string := "/api/" +:+ kind +:+ "s/".
Definition build (kind : string) (ctx : Ctx) : option Request :=
  if String.eqb kind "order" then
    match ctx_get "product" ctx, ctx_get "customer" ctx with
    | Some p, Some c => Some (Post (entity_path kind) (Some c) (Some p))
    | _, _ => None
    end
  else Some (Post (entity_path kind) None None).

(** What one iteration did: its requests and notes, in order, and the exception
    that ended it. *)
Record Log := mkLog { lg_requests : list Request; lg_notes : list Note; lg_raised : option (string * string) }.

Section user.
Context (tenant : string) (entities : list string).

(** The answers not yet used are handed on; a user whose answers are used up waits. *)
Fixpoint creates (kinds : list string) (ctx created : Ctx) (saw_401 : bool) (answers : list Answer) :
    Log * (Ctx * bool) * list Answer :=
  match kinds with
  | [] => (mkLog [] [] None, (created, saw_401), answers)
  | kind :: kinds' =>
      match build kind ctx with
      | None => creates kinds' ctx created saw_401 answers
      | Some req =>
          let k := (tenant, kind, "create") in
          match answers with
          | [] => (mkLog [req] [] None, (created, saw_401), [])
          | a :: answers' =>
              let go notes ctx created saw :=
                let '(l, r, rest) := creates kinds' ctx created saw answers' in
                (mkLog (req :: lg_requests l) (notes ++ lg_notes l) (lg_raised l), r, rest) in
              let stop notes e := (mkLog [req] notes (Some e), (created, saw_401), answers') in
              match a with
              | HttpError name msg => go [Broken k name msg] ctx created saw_401
              | OtherError name msg => stop [] (name, msg)
              | Resp code text json ms =>
                  let good := (code =? 200)%Z || (code =? 201)%Z in
                  let n := [Answered k code good ms text] in
                  let saw := saw_401 || (code =? 401)%Z in
                  if negb good then go n ctx created saw
                  else match json with
                       | JBad name msg => stop n (name, msg)
                       | JObj None => stop n ("KeyError", "'id'")
                       | JObj (Some oid) => go n (ctx ++ [(kind, oid)]) (created ++ [(kind, oid)]) saw
                       end
              end
          end
      end
  end.

Fixpoint reads (created : Ctx) (answers : list Answer) : Log * list Answer :=
  match created with
  | [] => (mkLog [] [] None, answers)
  | (kind, oid) :: created' =>
      let req := Get (entity_path kind +:+ py_int oid +:+ "/") oid in
      let k := (tenant, kind, "read") in
      match answers with
      | [] => (mkLog [req] [] None, [])
      | a :: answers' =>
          let go notes :=
            let '(l, rest) := reads created' answers' in
            (mkLog (req :: lg_requests l) (notes ++ lg_notes l) (lg_raised l), rest) in
          match a with
          | HttpError name msg => go [Broken k name msg]
          | OtherError name msg => (mkLog [req] [] (Some (name, msg)), answers')
          | Resp code text json ms =>
              match json with
              | JBad name msg =>
                  if (code =? 200)%Z then (mkLog [req] [] (Some (name, msg)), answers')
                  else go [Answered k code false ms text]
              | JObj id => go [Answered k code ((code =? 200)%Z && bool_decide (id = Some oid)) ms text]
              end
          end
      end
  end.

(** [create_and_verify]: the log, whether a 401 was seen, the answers left. *)
Definition create_and_verify (answers : list Answer) : Log * bool * list Answer :=
  let '(l, (created, saw_401), rest) := creates entities [] [] false answers in
  match lg_raised l with
  | Some _ => (l, saw_401, rest)
  | None =>
      let '(l2, rest2) := reads created rest in
      (mkLog (lg_requests l ++ lg_requests l2) (lg_notes l ++ lg_notes l2) (lg_raised l2), saw_401, rest2)
  end.

(** [login]: the error it raises, if any. *)
Definition login (a : Answer) : option (string * string) :=
  match a with
  | HttpError name msg | OtherError name msg => Some (name, msg)
  | Resp code text json ms =>
      if negb ((200 <=? code)%Z && (code <? 300)%Z) then Some ("HTTPStatusError", py_int code)
      else match json with
           | JBad name msg => Some (name, msg)
           | JObj None => Some ("KeyError", "'access'")
           | JObj (Some _) => None
           end
  end.

(** [virtual_user] for [turns] turns of its loop: what it noted. *)
Fixpoint user_loop (turns : nat) (answers : list Answer) : list Note :=
  match turns with
  | O => []
  | S n =>
      let '(l, saw_401, rest) := create_and_verify answers in
      match lg_raised l with
      | Some (name, msg) => lg_notes l ++ [Unmarked (tenant, "-", "loop") name msg] ++ user_loop n rest
      | None =>
          if saw_401 then
            match rest with
            | [] => lg_notes l
            | a :: rest' =>
                lg_notes l ++ (match login a with Some (name, msg) => [Unmarked (tenant, "-", "loop") name msg] | None => [] end)
                  ++ user_loop n rest'
            end
          else lg_notes l ++ user_loop n rest
      end
  end.
Definition virtual_user (turns : nat) (answers : list Answer) : list Note :=
  match answers with
  | [] => []
  | a :: rest =>
      match login a with
      | Some (name, msg) => [Unmarked (tenant, "-", "login") name msg]
      | None => user_loop turns rest
      end
  end.

End user.

(** [_track_inflight]: requests awaited at once, and their peak. *)
Definition _track_inflight (g : Z * Z) (st : GaugeStep) : Z * Z :=
  match st with
  | Enter => ((g.1 + 1)%Z, if (g.2 <? g.1 + 1)%Z then (g.1 + 1)%Z else g.2)
  | Leave => ((g.1 - 1)%Z, g.2)
  end.

(** [run]: the users, turn by turn over the tenants. *)
Definition tasks (vus : nat) (tenants : list string) : list (nat * string) :=
  concat ((λ vu, (λ t, (vu, t)) <$> tenants) <$> seq 0 vus).

(** ** The report *)

Definition _merge (stats : list OpStat) : OpStat :=
  foldl (λ m s, mkOpStat (attempts m + attempts s) (ok m + ok s) (verify_fail m + verify_fail s)
    (map_fold (λ k n acc, bump k n acc) (status m) (status s)) (map_fold (λ k n acc, bump k n acc) (exc m) (exc s))
    (infra_500 m + infra_500 s) (latencies_ms m ++ latencies_ms s) (samples m ++ samples s)) no_stat stats.

(** Section 1: the merged statistics of an entity and an operation. *)
Definition table_row (m : Metrics) (kind phase : string) : OpStat :=
  _merge (snd <$> filter (λ ks : Key * OpStat, ks.1.1.2 = kind ∧ ks.1.2 = phase) (map_to_list (ops m))).

(** Section 2: the reasons listed for an entity, by label. *)
Definition reasons (s : OpStat) : list (string * nat) :=
  ((λ cv, ((if (cv.1 =? 500)%Z && negb (infra_500 s =? 0) then "HTTP 500 (" +:+ py_int (Z.of_nat (infra_500 s)) +:+ " DB/conn)"
            else "HTTP " +:+ py_int cv.1), cv.2)) <$> filter (λ cv, (400 ≤ cv.1)%Z) (map_to_list (status s)))
  ++ map_to_list (exc s).

(** [pct], on values in any order. *)
Definition pct (values : list Z) (q : Z) : Z := Bench.pct (merge_sort Z.le values) q.

(** Section 3: signals and requests of a tenant, and whether it is flagged. *)
Definition of_tenant (t : string) (f : OpStat → nat) (k : Key) (s : OpStat) : nat := if String.eqb k.1.1 t then f s else 0.
Definition tenant_signals (m : Metrics) (t : string) : nat * nat :=
  (msum (of_tenant t infra) (ops m), msum (of_tenant t attempts) (ops m)).
Definition saturated (signals : nat * nat) : bool := negb (signals.2 =? 0) && (signals.2 <=? 100 * signals.1).

(** Section 4: the marks of a kind over all buckets; and the verify failures. *)
Definition marked (m : Metrics) (kind : MarkKind) : nat := msum (λ _ c, default 0 (c !! kind)) (timeline m).
Definition vfail (m : Metrics) : nat := msum (λ _, verify_fail) (ops m).

(** * What the numbers mean *)

Definition cnt {A} (p : A → bool) (l : list A) : nat := length (filter (λ x, p x = true) l).

Lemma cnt_snoc {A} (p : A → bool) l x : cnt p (l ++ [x]) = cnt p l + (if p x then 1 else 0).
Proof.
  unfold cnt. rewrite filter_app, length_app, filter_cons. destruct (p x); case_decide; done.
Qed.

Lemma msum_insert {K V} `{Countable K} (f : K → V → nat) k v (m : gmap K V) :
  msum f (<[k := v]> m) + from_option (f k) 0 (m !! k) = msum f m + f k v.
Proof.
  unfold msum. rewrite <- (insert_delete_eq m). rewrite (map_to_list_insert _ _ _ (lookup_delete_eq m k)).
  destruct (m !! k) as [v0|] eqn:E.
  - rewrite <- (insert_delete_id m k v0 E) at 2. rewrite (map_to_list_insert _ _ _ (lookup_delete_eq m k)). csimpl. lia.
  - rewrite !delete_id by done. csimpl. lia.
Qed.

Lemma csum_bump {K} `{Countable K} (p : K → bool) k n (m : gmap K nat) :
  csum p (bump k n m) = csum p m + (if p k then n else 0).
Proof.
  unfold csum, bump. pose proof (msum_insert (λ k n, if p k then n else 0) k (default 0 (m !! k) + n) m) as Hi.
  destruct (m !! k), (p k); simpl in *; lia.
Qed.

(** ** The shape of notes *)

Definition note_key (n : Note) : Key := match n with Answered k _ _ _ _ | Broken k _ _ | Unmarked k _ _ => k end.
Definition good_note (n : Note) : bool := match n with Answered _ _ good _ _ => good | _ => false end.

(** A good answer has a good status. *)
Definition note_ok (n : Note) : Prop :=
  match n with Answered _ code good _ _ => good = true → code = 200%Z ∨ code = 201%Z | _ => True end.

(** The mark of a note, and whether it is a sign of a saturated pool. *)
Definition mark_of (n : Note) : option MarkKind :=
  match n with
  | Answered _ code good _ text => Some (classify code good (if good then "" else text))
  | Broken _ name _ => Some (if mem name INFRA_EXC then MInfra else MOther)
  | Unmarked _ _ _ => None
  end.
Definition infra_note (n : Note) : bool :=
  match n with Unmarked _ name _ => mem name INFRA_EXC | _ => bool_decide (mark_of n = Some MInfra) end.

(** A read answered 200 without the created id. *)
Definition misread (n : Note) : bool :=
  match n with Answered k code good _ _ => String.eqb k.2 "read" && (code =? 200)%Z && negb good | _ => false end.

Definition at_key (k : Key) (n : Note) : bool := bool_decide (note_key n = k).

(** What the statistics of a key say of the notes made under it. *)
Definition stat_spec (notes : list Note) (k : Key) (s : OpStat) : Prop :=
  attempts s = cnt (at_key k) notes
  ∧ ok s = cnt (λ n, at_key k n && good_note n) notes
  ∧ length (latencies_ms s) = ok s
  ∧ csum (λ _, true) (status s) + csum (λ _, true) (exc s) = attempts s
  ∧ infra s = cnt (λ n, at_key k n && infra_note n) notes
  ∧ length (samples s) = Nat.min FAIL_SAMPLE_CAP (attempts s - ok s)
  ∧ ok s ≤ attempts s
  ∧ verify_fail s = cnt (λ n, at_key k n && misread n) notes.

Lemma infra_code code text : mem code INFRA_STATUS = true → classify code false text = MInfra ∧ (code =? 500)%Z = false.
Proof. intros Hm. unfold classify. rewrite Hm. split; [done|]. apply mem_spec in Hm. unfold INFRA_STATUS in Hm. set_unfold. by destruct Hm as [->|[->|[->|[]]]]. Qed.

Lemma infra_note_broken k name msg : infra_note (Broken k name msg) = mem name INFRA_EXC.
Proof. simpl. by destruct (mem name INFRA_EXC). Qed.

(** The statistics after one note under the key. *)
Definition noted (n : Note) (s : OpStat) : OpStat :=
  match n with
  | Answered k code good ms text =>
      let body := if good then "" else text in
      let s := http code good ms body s in
      let s := if String.eqb k.2 "read" && (code =? 200)%Z && negb good then inc_verify_fail s else s in
      if bool_decide (classify code good body = MInfra) && (code =? 500)%Z then inc_infra_500 s else s
  | Broken _ name msg | Unmarked _ name msg => error name msg s
  end.

Lemma sample_length label body s a o :
  length (samples s) = Nat.min FAIL_SAMPLE_CAP (a - o) → o ≤ a →
  length (take_sample label body s) = Nat.min FAIL_SAMPLE_CAP (S a - o).
Proof.
  intros Hl Ho. unfold take_sample. destruct (Nat.ltb_spec (length (samples s)) FAIL_SAMPLE_CAP).
  - rewrite length_app. cbn [length]. lia.
  - lia.
Qed.

Definition one (b : bool) : nat := if b then 1 else 0.

Lemma infra_answer code good text st :
  (good = true → code = 200%Z ∨ code = 201%Z) →
  let body := if good then "" else text in
  csum (λ c, mem c INFRA_STATUS) (bump code 1 st) + one (bool_decide (classify code good body = MInfra) && (code =? 500)%Z)
  = csum (λ c, mem c INFRA_STATUS) st + one (bool_decide (Some (classify code good body) = Some MInfra)).
Proof.
  intros Hn body. rewrite csum_bump. unfold body. destruct good.
  - destruct (Hn eq_refl) as [-> | ->]; simpl; lia.
  - destruct (mem code INFRA_STATUS) eqn:Em.
    + destruct (infra_code code text Em) as [-> ->]. rewrite andb_false_r, bool_decide_true by done. simpl. lia.
    + unfold classify. rewrite Em. destruct ((code =? 500)%Z && _is_db_error_body text) eqn:E5; [|by rewrite !bool_decide_false].
      bool_props. rewrite !bool_decide_true by done. rewrite (proj2 (Z.eqb_eq _ _)) by done. simpl. lia.
Qed.

(** Each number of a statistic moves by what the note is. *)
Lemma noted_counts n s : note_ok n →
  attempts (noted n s) = S (attempts s)
  ∧ ok (noted n s) = ok s + one (good_note n)
  ∧ verify_fail (noted n s) = verify_fail s + one (misread n)
  ∧ infra (noted n s) = infra s + one (infra_note n).
Proof.
  intros Hn. destruct n as [k code good ms text|k name msg|k name msg].
  2, 3: unfold infra; simpl; rewrite csum_bump; repeat split; try lia; destruct (mem name INFRA_EXC); simpl; lia.
  cbn [noted misread good_note infra_note mark_of]. simpl in Hn. pose proof (infra_answer code good text (status s) Hn) as Hi. cbv zeta in *.
  destruct (bool_decide (classify code good _ = MInfra) && (code =? 500)%Z), (String.eqb k.2 "read" && (code =? 200)%Z && negb good), good;
    unfold infra, one, inc_infra_500, inc_verify_fail, http in *; cbn [attempts ok verify_fail status exc infra_500] in *; repeat split; lia.
Qed.

Lemma noted_lists n s : length (samples s) = Nat.min FAIL_SAMPLE_CAP (attempts s - ok s) → ok s ≤ attempts s →
  length (latencies_ms (noted n s)) = length (latencies_ms s) + one (good_note n)
  ∧ csum (λ _, true) (status (noted n s)) + csum (λ _, true) (exc (noted n s))
    = S (csum (λ _, true) (status s) + csum (λ _, true) (exc s))
  ∧ length (samples (noted n s)) = Nat.min FAIL_SAMPLE_CAP (attempts (noted n s) - ok (noted n s)).
Proof.
  intros Hs Ho. pose proof (λ label body, sample_length label body s _ _ Hs Ho) as Ht.
  destruct n as [k code good ms text|k name msg|k name msg]; cbn [noted good_note].
  2, 3: unfold error; cbn [attempts ok status exc latencies_ms samples one]; rewrite Ht, csum_bump; repeat split; lia.
  destruct (bool_decide _ && _), (String.eqb k.2 "read" && _ && _), good; unfold one, inc_infra_500, inc_verify_fail, http;
    cbn [attempts ok status exc latencies_ms samples]; rewrite ?Ht, csum_bump, ?length_app, ?Hs; cbn [length];
    repeat split; try lia; f_equal; lia.
Qed.

Lemma stat_noted notes k s n :
  note_ok n → note_key n = k → stat_spec notes k s → stat_spec (notes ++ [n]) k (noted n s).
Proof.
  intros Hn Hk (A1 & A2 & A3 & A4 & A5 & A6 & A7 & A8). unfold stat_spec. rewrite !cnt_snoc.
  assert (at_key k n = true) as -> by (by apply bool_decide_true). rewrite !andb_true_l.
  destruct (noted_counts n s Hn) as (B1 & B2 & B3 & B4). destruct (noted_lists n s A6 A7) as (C1 & C2 & C3).
  rewrite C3, C2, C1, B4, B3, B2, B1. unfold one in *. destruct (good_note n); repeat split; lia.
Qed.

Lemma stat_elsewhere notes k s n : note_key n ≠ k → stat_spec notes k s → stat_spec (notes ++ [n]) k s.
Proof.
  intros Hk Hs. unfold stat_spec in *. rewrite !cnt_snoc. assert (at_key k n = false) as -> by (by apply bool_decide_false).
  rewrite !andb_false_l, !Nat.add_0_r. done.
Qed.

Lemma note_ops now n m : ops (note now n m) = <[note_key n := noted n (default no_stat (ops m !! note_key n))]> (ops m).
Proof.
  assert (∀ k w b m, ops (_log_failure k w b m) = ops m) as Hl by (intros; unfold _log_failure; by destruct (_ || _)).
  destruct n as [k code good ms text| |]; [|done..]. cbn [note noted note_key]. cbv zeta. unfold mark. cbn [ops].
  destruct (negb good && _); rewrite ?Hl; destruct (bool_decide _ && _), (String.eqb k.2 "read" && _ && _);
    unfold op; cbn [ops]; rewrite ?lookup_insert_eq; cbn [default from_option]; rewrite ?insert_insert_eq; reflexivity.
Qed.

Lemma note_timeline now n m kind :
  marked (note now n m) kind = marked m kind + one (bool_decide (mark_of n = Some kind)).
Proof.
  assert (∀ k m, marked (mark now k m) kind = marked m kind + one (bool_decide (Some k = Some kind))) as Hm.
  { intros k m'. unfold marked, mark. cbn [timeline]. set (b := (now / _)%Z).
    pose proof (msum_insert (λ _ c, default 0 (c !! kind)) b (bump k 1 (default ∅ (timeline m' !! b))) (timeline m')) as Hi.
    unfold bump at 2 in Hi. destruct (decide (k = kind)) as [->|Hne].
    - rewrite bool_decide_true by done. rewrite lookup_insert_eq in Hi. destruct (timeline m' !! b); simpl in *; rewrite ?lookup_empty in Hi; simpl in *; lia.
    - rewrite bool_decide_false by congruence. rewrite lookup_insert_ne in Hi by done.
      destruct (timeline m' !! b); simpl in *; rewrite ?lookup_empty in Hi; simpl in *; lia. }
  assert (∀ k f m, marked (op k f m) kind = marked m kind) as Ho by done.
  assert (∀ k w b m, marked (_log_failure k w b m) kind = marked m kind) as Hl by (intros; unfold _log_failure; by destruct (_ || _)).
  destruct n as [k code good ms text|k name msg|k name msg]; cbn [note mark_of]; cbv zeta; rewrite ?Hm, ?Ho.
  - f_equal. repeat case_match; rewrite ?Hl, ?Ho; done.
  - done.
  - by rewrite Nat.add_0_r.
Qed.

(** A server error whose body goes to the error log. *)
Definition server_error (n : Note) : bool :=
  match n with Answered _ code good _ text => negb good && (500 <=? code)%Z && negb (String.eqb text "") | _ => false end.

Lemma note_logged now n m : logged m ≤ _MAX_LOGGED →
  logged (note now n m) = Nat.min _MAX_LOGGED (logged m + one (server_error n))
  ∧ length (error_log (note now n m)) + logged m = length (error_log m) + logged (note now n m).
Proof.
  intros Hm. destruct n as [k code good ms text| |]; [|cbn [note server_error op mark logged error_log one]; split; lia..]. cbn [note server_error]. cbv zeta. unfold mark. cbn [logged error_log].
  assert (∀ m1, logged m1 = logged m → error_log m1 = error_log m →
    let m2 := if negb good && (500 <=? code)%Z then _log_failure k (py_int code) text m1 else m1 in
    logged m2 = Nat.min _MAX_LOGGED (logged m + one (negb good && (500 <=? code)%Z && negb (String.eqb text "")))
    ∧ length (error_log m2) + logged m = length (error_log m) + logged m2) as Hl.
  { intros m1 H1 H2. destruct (negb good && _); cbn [one andb]; [|split; [lia|congruence]]. unfold _log_failure.
    destruct (String.eqb text ""); cbn [orb negb one]; [rewrite H1, H2; split; lia|].
    destruct (Nat.leb_spec _MAX_LOGGED (logged m1)); cbn [logged error_log]; rewrite ?length_app, ?H1, ?H2; cbn [length]; split; lia. }
  apply Hl; by repeat case_match.
Qed.

(** ** The sink under any interleaving *)

Definition sink (ns : list (Z * Note)) : Metrics := foldl (λ m tn, note tn.1 tn.2 m) no_metrics ns.

Definition of_user (t : string) (n : Note) : bool := String.eqb (note_key n).1.1 t.

(** What the whole report says of the notes. *)
Definition report_spec (notes : list Note) (m : Metrics) : Prop :=
  (∀ k, stat_spec notes k (default no_stat (ops m !! k)))
  ∧ (∀ t, tenant_signals m t = (cnt (λ n, of_user t n && infra_note n) notes, cnt (of_user t) notes))
  ∧ (∀ kind, marked m kind = cnt (λ n, bool_decide (mark_of n = Some kind)) notes)
  ∧ vfail m = cnt misread notes
  ∧ logged m = Nat.min _MAX_LOGGED (cnt server_error notes)
  ∧ length (error_log m) = logged m.

Lemma msum_ops f d now n m : f (note_key n) no_stat = 0 → (∀ s, f (note_key n) (noted n s) = f (note_key n) s + d) →
  msum f (ops (note now n m)) = msum f (ops m) + d.
Proof.
  intros H0 Hf. rewrite note_ops.
  pose proof (msum_insert f (note_key n) (noted n (default no_stat (ops m !! note_key n))) (ops m)) as Hi. rewrite Hf in Hi.
  destruct (ops m !! note_key n); simpl in *; lia.
Qed.

Lemma report_noted notes now n m : note_ok n → report_spec notes m → report_spec (notes ++ [n]) (note now n m).
Proof.
  intros Hn (A1 & A2 & A3 & A4 & A5 & A6).
  assert (∀ s, _) as Hc by exact (λ s, noted_counts n s Hn).
  repeat apply conj.
  - intros k. rewrite note_ops. destruct (decide (note_key n = k)) as [<-|Hne].
    + rewrite lookup_insert_eq. by apply stat_noted.
    + rewrite lookup_insert_ne by done. by apply stat_elsewhere.
  - intros t. specialize (A2 t). unfold tenant_signals in *. injection A2 as H1 H2. rewrite !cnt_snoc.
    rewrite (msum_ops _ (one (of_user t n && infra_note n))), (msum_ops _ (one (of_user t n))), H1, H2; [done|..];
      unfold of_tenant, of_user; destruct (String.eqb _ t); try done; intros s; destruct (Hc s) as (B1 & _ & _ & B4); simpl; lia.
  - intros kind. rewrite note_timeline, cnt_snoc, A3. done.
  - rewrite cnt_snoc, <- A4. apply msum_ops; [done|]. intros s. apply (Hc s).
  - rewrite cnt_snoc. destruct (note_logged now n m) as [-> _]; [lia|]. unfold one. lia.
  - destruct (note_logged now n m); lia.
Qed.

Lemma cnt_perm {A} (p : A → bool) l l' : l ≡ₚ l' → cnt p l = cnt p l'.
Proof. intros Hp. unfold cnt. by rewrite Hp. Qed.

#[export] Instance report_spec_proper : Proper ((≡ₚ) ==> eq ==> iff) report_spec.
Proof.
  intros l l' Hp m _ <-. unfold report_spec, stat_spec. assert (∀ p, cnt p l = cnt p l') as Hc by (intros; by apply cnt_perm).
  rewrite !Hc. by setoid_rewrite Hc.
Qed.

Lemma sink_report ns : Forall note_ok ns.*2 → report_spec ns.*2 (sink ns).
Proof.
  unfold sink. induction ns as [|[now n] ns IH] using rev_ind; intros Hok.
  - by repeat apply conj.
  - rewrite fmap_app in *. apply Forall_app in Hok as [Hok Hn]. rewrite foldl_app. apply report_noted; [by inversion Hn|auto].
Qed.

(** ** The notes of the users *)

Definition users_note (t : string) (n : Note) : Prop := note_ok n ∧ (note_key n).1.1 = t.
#[local] Hint Unfold users_note : core.

Lemma creates_ok t kinds : ∀ ctx created saw answers,
  Forall (users_note t) (lg_notes (creates t kinds ctx created saw answers).1.1).
Proof.
  induction kinds as [|kind kinds IH]; intros ctx created saw answers; [constructor|]. simpl.
  destruct (build kind ctx) as [req|]; [|apply IH]. destruct answers as [|a answers]; [constructor|].
  assert (∀ n ctx created saw, users_note t n → Forall (users_note t) (lg_notes
    (let '(l, r, rest) := creates t kinds ctx created saw answers in
     (mkLog (req :: lg_requests l) (n :: lg_notes l) (lg_raised l), r, rest)).1.1)) as Hgo.
  { intros n c1 c2 sw Hn. specialize (IH c1 c2 sw answers). destruct (creates _ _ _ _ _ _) as [[l r] rest]. by constructor. }
  destruct a as [code text json ms|name msg|name msg]; [|by apply Hgo|constructor].
  assert (users_note t (Answered (t, kind, "create") code ((code =? 200)%Z || (code =? 201)%Z) ms text)).
  { split; [|done]. simpl. intros Hg. apply orb_true_iff in Hg. rewrite !Z.eqb_eq in Hg. done. }
  destruct (negb _); [by apply Hgo|]. destruct json as [|[oid|]]; [by apply Forall_singleton|by apply Hgo|by apply Forall_singleton].
Qed.

Lemma reads_ok t created : ∀ answers, Forall (users_note t) (lg_notes (reads t created answers).1).
Proof.
  induction created as [|[kind oid] created IH]; intros answers; [constructor|]. simpl.
  destruct answers as [|a answers]; [constructor|]. specialize (IH answers). destruct (reads _ _ _) as [l rest].
  destruct a as [code text json ms|name msg|name msg]; simpl; [|by repeat constructor|constructor].
  destruct json as [|id]; [destruct (code =? 200)%Z; [constructor|]|]; (simpl; constructor; [|done]); (split; [|done]); [done|].
  simpl. intros Hg. bool_props. by left.
Qed.

Lemma iteration_ok t entities answers : Forall (users_note t) (lg_notes (create_and_verify t entities answers).1.1).
Proof.
  unfold create_and_verify. pose proof (creates_ok t entities [] [] false answers) as Hc.
  destruct (creates _ _ _ _ _ _) as [[l [created saw]] rest]. destruct (lg_raised l); [done|].
  pose proof (reads_ok t created rest). destruct (reads _ _ _) as [l2 rest2]. by apply Forall_app.
Qed.

Lemma virtual_user_ok t entities turns answers : Forall (users_note t) (virtual_user t entities turns answers).
Proof.
  destruct answers as [|a answers]; [constructor|]. simpl. destruct (login a) as [[name msg]|]; [by repeat constructor|]. clear a.
  revert answers. induction turns as [|turns IH]; intros answers; [constructor|]. simpl.
  pose proof (iteration_ok t entities answers) as Hi. destruct (create_and_verify _ _ _) as [[l saw] rest].
  destruct (lg_raised l) as [[name msg]|]; [|destruct saw; [destruct rest as [|a rest]; [done|]|]].
  - apply Forall_app; split; [done|]. constructor; [done|apply IH].
  - rewrite !Forall_app. split_and!; [done| |apply IH]. destruct (login a) as [[]|]; by repeat constructor.
  - apply Forall_app; split; [done|apply IH].
Qed.

(** A run: what each user of each tenant notes of the answers it gets. *)
Record User := mkUser { u_tenant : string; u_turns : nat; u_answers : list Answer }.
Definition user_notes (u : User) : list Note := virtual_user (u_tenant u) ENABLED_ENTITIES (u_turns u) (u_answers u).
Definition run_notes (users : list User) : list Note := concat (user_notes <$> users).

(** The numbers of the report are exactly those of what the users saw, whatever the
    order in which their notes reach the shared sink: attempts, successes,
    latencies, reasons, pool signals and capped samples of each tenant, entity and
    phase; signals and requests of each tenant; the marks of the timeline; the
    reads that did not find their row; the server errors logged, up to the cap. *)
Theorem metrics_exact users ns : ns.*2 ≡ₚ run_notes users → report_spec (run_notes users) (sink ns).
Proof.
  intros Hp. rewrite <- Hp. apply sink_report. rewrite Hp. apply Forall_concat, Forall_fmap, Forall_true. intros u.
  eapply Forall_impl; [apply virtual_user_ok|]. by intros n [].
Qed.

(** ** One iteration *)

(** With every create answered 201 and every read with its own row, an iteration
    posts the five entities, the order with the ids of this iteration's customer
    and product, reads each back, and notes ten successes. *)
Theorem iteration_complete t p c u d o ms :
  let posts := (λ i, Resp 201 "" (JObj (Some i)) ms) <$> [p; c; u; d; o] in
  let gets := (λ i, Resp 200 "" (JObj (Some i)) ms) <$> [p; c; u; d; o] in
  let '(l, saw_401, rest) := create_and_verify t ENABLED_ENTITIES (posts ++ gets) in
  lg_requests l = [Post "/api/products/" None None; Post "/api/cars/" None None; Post "/api/customers/" None None;
                   Post "/api/drivers/" None None; Post "/api/orders/" (Some u) (Some p)]
                  ++ zip_with (λ kind i, Get (entity_path kind +:+ py_int i +:+ "/") i) ENABLED_ENTITIES [p; c; u; d; o]
  ∧ length (lg_notes l) = 10 ∧ forallb good_note (lg_notes l) = true
  ∧ lg_raised l = None ∧ saw_401 = false ∧ rest = [].
Proof. cbn. rewrite !bool_decide_true by done. done. Qed.

(** An order is posted only with the ids of a product and of a customer created
    before it in the same iteration: after a failed create it is skipped. *)
Definition order_linked (posted : list Answer) (r : Request) : Prop :=
  match r with
  | Post path cu pr =>
      path = "/api/orders/" → ∃ c p, cu = Some c ∧ pr = Some p
        ∧ (∃ code text ms, Resp code text (JObj (Some c)) ms ∈ posted) ∧ (∃ code text ms, Resp code text (JObj (Some p)) ms ∈ posted)
  | Get _ _ => True
  end.

Lemma ctx_get_snoc kind ctx k v : ctx_get kind (ctx ++ [(k, v)]) = if String.eqb k kind then Some v else ctx_get kind ctx.
Proof. unfold ctx_get. rewrite rev_app_distr. simpl. by destruct (String.eqb k kind). Qed.

Definition ctx_posted (posted : list Answer) (ctx : Ctx) : Prop :=
  ∀ kind i, ctx_get kind ctx = Some i → ∃ code text ms, Resp code text (JObj (Some i)) ms ∈ posted.

Lemma build_linked posted kind ctx req :
  kind ∈ ENABLED_ENTITIES → ctx_posted posted ctx → build kind ctx = Some req → order_linked posted req.
Proof.
  intros Hk Hc Hb. unfold build in Hb. destruct (String.eqb_spec kind "order") as [->|Hne].
  - destruct (ctx_get "product" ctx) as [p|] eqn:Ep; [|done]. destruct (ctx_get "customer" ctx) as [c|] eqn:Ec; [|done].
    injection Hb as <-. intros _. exists c, p. split_and!; [done..|by apply (Hc "customer")|by apply (Hc "product")].
  - injection Hb as <-. intros Hp. exfalso. unfold ENABLED_ENTITIES in Hk. set_unfold.
    destruct Hk as [->|[->|[->|[->|[->|[]]]]]]; done.
Qed.

Lemma creates_linked t posted kinds : ∀ ctx created saw answers,
  Forall (λ k, k ∈ ENABLED_ENTITIES) kinds → ctx_posted posted ctx → answers ⊆ posted →
  Forall (order_linked posted) (lg_requests (creates t kinds ctx created saw answers).1.1).
Proof.
  induction kinds as [|kind kinds IH]; intros ctx created saw answers Hk Hc Ha; [constructor|]. inversion Hk as [|? ? Hk1 Hk2]; subst. simpl.
  destruct (build kind ctx) as [req|] eqn:Eb; [|by apply IH]. pose proof (build_linked _ _ _ _ Hk1 Hc Eb) as Hr.
  destruct answers as [|a answers]; [by apply Forall_singleton|]. assert (answers ⊆ posted) as Hsub by set_solver.
  assert (∀ notes ctx created saw, ctx_posted posted ctx → Forall (order_linked posted) (lg_requests
    (let '(l, r, rest) := creates t kinds ctx created saw answers in
     (mkLog (req :: lg_requests l) (notes l) (lg_raised l), r, rest)).1.1)) as Hgo.
  { intros notes c1 c2 sw Hc1. specialize (IH c1 c2 sw answers Hk2 Hc1 Hsub). destruct (creates _ _ _ _ _ _) as [[l r] rest]. by constructor. }
  destruct a as [code text json ms|name msg|name msg]; [|by apply (Hgo (λ l, _ :: lg_notes l))|by apply Forall_singleton].
  destruct (negb _); [by apply (Hgo (λ l, _ :: lg_notes l))|].
  destruct json as [|[oid|]]; [by apply Forall_singleton| |by apply Forall_singleton].
  apply (Hgo (λ l, _ :: lg_notes l)). intros kind' i. rewrite ctx_get_snoc. destruct (String.eqb kind kind'); [|apply Hc].
  intros [= <-]. exists code, text, ms. set_solver.
Qed.

Lemma reads_are_gets t created : ∀ answers posted, Forall (order_linked posted) (lg_requests (reads t created answers).1).
Proof.
  induction created as [|[kind oid] created IH]; intros answers posted; [constructor|]. simpl.
  destruct answers as [|a answers]; [by repeat constructor|]. specialize (IH answers posted). destruct (reads _ _ _) as [l rest].
  destruct a as [code text [|id] ms|name msg|name msg]; simpl; try destruct (code =? 200)%Z; by repeat constructor.
Qed.

Theorem orders_linked t answers :
  Forall (order_linked answers) (lg_requests (create_and_verify t ENABLED_ENTITIES answers).1.1).
Proof.
  unfold create_and_verify.
  pose proof (creates_linked t answers ENABLED_ENTITIES [] [] false answers) as Hc.
  destruct (creates _ _ _ _ _ _) as [[l [created saw]] rest]. simpl in Hc.
  assert (Forall (order_linked answers) (lg_requests l)) as Hl by (apply Hc; [by apply Forall_forall|done..]).
  destruct (lg_raised l); [done|]. pose proof (reads_are_gets t created rest answers). destruct (reads _ _ _) as [l2 rest2]. by apply Forall_app.
Qed.

(** ** Trimmed entities, refused logins *)

Lemma creates_trimmed t kinds : ∀ ctx created saw answers,
  Forall (λ k, k ∈ ["product"; "car"; "order"]) kinds → ctx_get "customer" ctx = None →
  Forall (λ r, ∀ c p, r ≠ Post "/api/orders/" c p) (lg_requests (creates t kinds ctx created saw answers).1.1).
Proof.
  induction kinds as [|kind kinds IH]; intros ctx created saw answers Hk Hc; [constructor|].
  inversion Hk as [|? ? Hk1 Hk2]; subst. clear Hk. simpl.
  destruct (build kind ctx) as [req|] eqn:Eb; [|by apply IH].
  assert (kind = "product" ∨ kind = "car") as Hkind.
  { set_unfold. destruct Hk1 as [->|[->|[->|[]]]]; [by left|by right|]. unfold build in Eb. cbn [String.eqb Ascii.eqb Bool.eqb] in Eb. rewrite Hc in Eb. by destruct (ctx_get "product" ctx). }
  assert (∀ c p, req ≠ Post "/api/orders/" c p) as Hr.
  { intros c p ->. unfold build in Eb. destruct Hkind as [-> | ->]; injection Eb; intros; congruence. }
  destruct answers as [|a answers]; [by apply Forall_singleton|].
  assert (∀ notes ctx created saw, ctx_get "customer" ctx = None → Forall (λ r, ∀ c p, r ≠ Post "/api/orders/" c p) (lg_requests
    (let '(l, r, rest) := creates t kinds ctx created saw answers in
     (mkLog (req :: lg_requests l) (notes l) (lg_raised l), r, rest)).1.1)) as Hgo.
  { intros notes c1 c2 sw Hc1. specialize (IH c1 c2 sw answers Hk2 Hc1). destruct (creates _ _ _ _ _ _) as [[l r] rest]. by constructor. }
  destruct a as [code text json ms|name msg|name msg]; [|by apply (Hgo (λ l, _ :: lg_notes l))|by apply Forall_singleton].
  destruct (negb _); [by apply (Hgo (λ l, _ :: lg_notes l))|].
  destruct json as [|[oid|]]; [by apply Forall_singleton| |by apply Forall_singleton].
  apply (Hgo (λ l, _ :: lg_notes l)). rewrite ctx_get_snoc. by destruct Hkind as [-> | ->].
Qed.

(** With the entities trimmed to product, car and order, whatever the server
    answers, the test never creates an order. *)
Theorem trimmed_never_orders t answers c p :
  Post "/api/orders/" c p ∉ lg_requests (create_and_verify t ["product"; "car"; "order"] answers).1.1.
Proof.
  unfold create_and_verify.
  assert (Forall (λ r, ∀ c p, r ≠ Post "/api/orders/" c p) (lg_requests (creates t ["product"; "car"; "order"] [] [] false answers).1.1)) as Hf.
  { apply creates_trimmed; [|done]. repeat (constructor; [set_solver|]). constructor. }
  destruct (creates _ _ _ _ _ _) as [[l [created saw]] rest]. simpl in Hf. rewrite Forall_forall in Hf.
  destruct (lg_raised l); [intros Hin; by apply (Hf _ Hin c p)|].
  pose proof (reads_are_gets t created rest []) as Hr. destruct (reads _ _ _) as [l2 rest2]. simpl in *. rewrite Forall_forall in Hr.
  intros [Hin|Hin]%elem_of_app; [by apply (Hf _ Hin c p)|].
  destruct (Hr _ Hin eq_refl) as (? & ? & _ & _ & (? & ? & ? & []%not_elem_of_nil) & _).
Qed.

(** A login refused with 503 counts as a request of its tenant, but as no signal,
    and leaves no mark on the timeline; the same answer to a create is a signal and
    a mark. *)
Theorem refused_login_is_no_signal text ms :
  let busy := Resp 503 text (JObj None) ms in
  let at_login := sink ((0%Z,.) <$> virtual_user "alpha" ENABLED_ENTITIES 1 [busy]) in
  let at_create := sink ((0%Z,.) <$> virtual_user "alpha" ["product"] 1 [Resp 200 "" (JObj (Some 1%Z)) ms; busy]) in
  tenant_signals at_login "alpha" = (0, 1) ∧ marked at_login MInfra = 0 ∧ timeline at_login = ∅
  ∧ tenant_signals at_create "alpha" = (1, 1) ∧ marked at_create MInfra = 1.
Proof.
  cbv zeta. assert (∀ t entities turns answers,
    let ns := (0%Z,.) <$> virtual_user t entities turns answers in report_spec (virtual_user t entities turns answers) (sink ns)) as Hs.
  { intros t entities turns answers ns. replace (virtual_user t entities turns answers) with (ns.*2) by (unfold ns; rewrite <- list_fmap_compose; apply list_fmap_id).
    apply sink_report. unfold ns. rewrite <- list_fmap_compose, list_fmap_id. eapply Forall_impl; [apply virtual_user_ok|]. by intros n []. }
  destruct (Hs "alpha" ENABLED_ENTITIES 1 [Resp 503 text (JObj None) ms]) as (_ & -> & -> & _).
  destruct (Hs "alpha" ["product"] 1 [Resp 200 "" (JObj (Some 1%Z)) ms; Resp 503 text (JObj None) ms]) as (_ & -> & -> & _).
  repeat split.
Qed.

(** ** The gauge and the percentiles *)

(** The generator's gauge is the bench's: its peak is the highest number of
    requests that were awaited at once. *)
Theorem inflight_peak hist : let g := foldl _track_inflight (0, 0)%Z hist in
  g.1 = level hist ∧ (∀ pre post, hist = pre ++ post → (level pre ≤ g.2)%Z) ∧ (∃ pre post, hist = pre ++ post ∧ g.2 = level pre).
Proof.
  assert (∀ g, foldl _track_inflight (gg_inflight g, gg_peak g) hist
    = (gg_inflight (foldl db_gauge g hist), gg_peak (foldl db_gauge g hist))) as Hg.
  { induction hist as [|st hist IH]; intros g; [done|]. simpl. rewrite <- IH. f_equal. destruct st; [|done]. simpl. f_equal.
    destruct (Z.ltb_spec (gg_peak g) (gg_inflight g + 1)); lia. }
  specialize (Hg no_queries). simpl in Hg. cbv zeta. rewrite Hg. destruct (gauge_exact hist) as (_ & H1 & H2 & H3). done.
Qed.

(** Two users of two tenants, their notes interleaved: one customer read back as
    another row, one pool timeout. *)
Definition alpha_user : User := mkUser "alpha" 1
  ([Resp 200 "" (JObj (Some 1)) 5] ++ ((λ i, Resp 201 "" (JObj (Some i)) 10) <$> [11; 12; 13; 14; 15])
   ++ ((λ i, Resp 200 "" (JObj (Some i)) 3) <$> [11; 12; 99; 14; 15]))%Z.
Definition beta_user : User := mkUser "beta" 1
  ([Resp 200 "" (JObj (Some 1)) 5; Resp 500 "OperationalError: borrow timeout" (JBad "JSONDecodeError" "") 30000; HttpError "ReadTimeout" "";
    Resp 403 "forbidden" (JObj None) 2; Resp 201 "" (JObj (Some 7)) 9; HttpError "ReadError" ""])%Z.

Lemma metrics_exact_witness :
  let ns := (3%Z,.) <$> (user_notes beta_user ++ user_notes alpha_user) in
  let m := sink ns in
  tenant_signals m "alpha" = (0, 10) ∧ tenant_signals m "beta" = (2, 5) ∧ vfail m = 1 ∧ marked m MOk = 10 ∧ marked m MInfra = 2 ∧ logged m = 1.
Proof.
  cbv zeta. destruct (metrics_exact [alpha_user; beta_user] ((3%Z,.) <$> (user_notes beta_user ++ user_notes alpha_user))) as (_ & Ht & Hm & Hv & Hl & _).
  - rewrite <- list_fmap_compose, list_fmap_id. unfold run_notes. rewrite !fmap_cons, fmap_nil. cbn [concat]. rewrite app_nil_r. apply Permutation_app_comm.
  - rewrite !Ht, !Hm, Hv, Hl. vm_compute. repeat split.
Defined.
