(* ===== verification/Responses.v ===== *)
(** * What a client is answered

    Models src/tenants/errors.py (content negotiation of error responses), the
    texts src/tenants/middleware.py passes to it, and
    src/tenants/middleware_diagnostics.py (the identity headers of every response).
    Django's template engine, its [escape] and [json.dumps] are arguments. *)
From S2P Require Import Prelude PyStr Models PyExc Logs World ResolveCache Routing Validators ResolveCacheFacts RegistryFacts RoutingFacts.
From Stdlib Require Import Ascii.
Open Scope tenants_scope.

(** ** Responses *)

(** [HttpResponse.headers]: a mapping that ignores the case of names and keeps
    them as they were set last. *)
Definition Headers : Type := list (string * (string * string)).
Definition header (name : string) (h : Headers) : option string := snd <$> assoc (py_lower name) h.
Definition set_header (name value : string) (h : Headers) : Headers := dict_set (py_lower name) (name, value) h.

Inductive Content := Json (fields : list (string * CVal)) | Html (text : string) | Plain (text : string).

Record HttpResponse := mkHttp { hr_status : Z; hr_content : Content; hr_headers : Headers }.

Definition with_header (name value : string) (r : HttpResponse) : HttpResponse :=
  mkHttp (hr_status r) (hr_content r) (set_header name value (hr_headers r)).

Record HttpRequest := mkRequest { rq_path : string; rq_accept : option string }.

(** ** errors.py *)

(** [needle in s]. *)
Fixpoint contains (needle s : string) : bool :=
  String.prefix needle s || match s with "" => false | String _ s' => contains needle s' end.

Definition wants_json (API_PATH_PREFIXES : list string) (request : HttpRequest) : bool :=
  existsb (py_startswith (rq_path request)) API_PATH_PREFIXES
  || contains "application/json" (default "" (rq_accept request)).

Section errors.
Context (API_PATH_PREFIXES : list string).
(** [render_to_string(template, {"detail": ..., "code": ...})] and [escape]. *)
Context (render_to_string : string → string → string → res exn string) (escape : string → string).

Definition fallback_page (status : Z) (detail : string) : string :=
  "<!doctype html><title>" +:+ py_int status +:+ "</title><h1>" +:+ py_int status +:+ "</h1><p>" +:+ escape detail +:+ "</p>".

Definition update (d extra : list (string * CVal)) : list (string * CVal) :=
  foldl (λ d kv, dict_set kv.1 kv.2 d) d extra.

Definition error_response (request : HttpRequest) (status : Z) (code detail template : string)
    (retry_after : option Z) (extra : list (string * CVal)) : res exn HttpResponse :=
  resp <-?
    (if wants_json API_PATH_PREFIXES request then
       Ok (mkHttp status (Json (update [("detail", CStr detail); ("code", CStr code)] extra))
             (set_header "Content-Type" "application/json" []))
     else
       html <-? match render_to_string template detail code with
                | Ok html => Ok html
                | Err e => if is_exception e then Ok (fallback_page status detail) else Err e
                end ;;
       Ok (mkHttp status (Html html) (set_header "Content-Type" "text/html; charset=utf-8" []))) ;;
  let resp := with_header "Cache-Control" "no-store" resp in
  Ok (match retry_after with
      | Some n => with_header "Retry-After" (py_int n) resp
      | None => resp
      end).

(** ** The answers of the middleware *)

(** The text, the template and the extra fields that go with each code. *)
Definition page (code : string) : string * string :=
  if String.eqb code "tenant_not_found" then
    ("No workspace found for this address.", "tenants/errors/not_found.html")
  else if String.eqb code "tenant_resolve_deferred" then
    ("Temporarily unable to resolve this workspace. Please retry.", "tenants/errors/database_error.html")
  else if String.eqb code "database_error" then
    ("A temporary error occurred. Please try again.", "tenants/errors/database_error.html")
  else if String.eqb code "tenant_deactivated" then
    ("This tenant is deactivated.", "tenants/errors/deactivated.html")
  else if String.eqb code "tenant_maintenance" then
    ("This workspace is under maintenance.", "tenants/errors/maintenance.html")
  else ("This tenant is not ready.", "tenants/errors/not_ready.html").

Definition page_extra (code : string) (tenant : option TenantSnapshot) : list (string * CVal) :=
  match tenant with
  | Some t => if String.eqb code "tenant_not_ready" then [("status", CStr (ts_status t))] else []
  | None => []
  end.

Definition refusal (request : HttpRequest) (tenant : option TenantSnapshot) (r : Response) : res exn HttpResponse :=
  error_response request (rp_status r) (rp_code r) (page (rp_code r)).1 (page (rp_code r)).2 (rp_retry_after r)
    (page_extra (rp_code r) tenant).

(** [process_request] with its responses written out; [upstream] is what
    [super().process_request] does. *)
Definition answer (request : HttpRequest) (upstream : res exn (option HttpResponse * option TenantSnapshot)) :
    res exn (option HttpResponse) :=
  if mem (rq_path request) HEALTH_PATHS then
    Ok (Some (mkHttp 200 (Plain "ok") (set_header "Content-Type" "text/plain" [])))
  else
    let gate tenant outcome :=
      r <-? process_request (rq_path request) outcome ;;
      match r with
      | None => Ok None
      | Some r => resp <-? refusal request tenant r ;; Ok (Some resp)
      end in
    match upstream with
    | Ok (Some response, _) => Ok (Some response)
    | Ok (None, tenant) => gate tenant (Ok (None, tenant))
    | Err e => gate None (Err e)
    end.

End errors.

(** ** middleware_diagnostics.py *)

Definition comma : ascii := ","%char.
Definition EXPOSE : string := "Access-Control-Expose-Headers".
Definition _DIAGNOSTIC_HEADERS : list string := ["X-Served-By"; "X-Worker-Pid"; "X-Thread-Id"; "X-DB-Alias"].

(** [h.strip() for h in existing.split(",") if h.strip()]. *)
Definition listed (existing : string) : list string :=
  filter (λ h, h ≠ "") (py_strip <$> py_split comma existing).

Definition merged (existing : string) : list string :=
  merge_sort str_le (elements (list_to_set (listed existing) ∪ list_to_set _DIAGNOSTIC_HEADERS : gset string)).

Section diagnostics.
Context `{TenantBackend}.
Context (_HOSTNAME : string) (getpid get_ident : Z).

Definition _stamp (s : Ctx) (response : HttpResponse) : HttpResponse :=
  let response := with_header "X-Served-By" _HOSTNAME response in
  let response := with_header "X-Worker-Pid" (py_int getpid) response in
  let response := with_header "X-Thread-Id" (py_int get_ident) response in
  let response := with_header "X-DB-Alias" (active_alias s) response in
  let existing := default "" (header EXPOSE (hr_headers response)) in
  with_header EXPOSE (py_join ", " (merged existing)) response.

(** [__call__] of the synchronous stack: the view runs first, in the context the
    outer middleware has bound. *)
Definition diagnostics_call (get_response : Body HttpResponse) : Body HttpResponse := λ s,
  match get_response s with
  | (Ok r, s') => (Ok (_stamp s' r), s')
  | (Err e, s') => (Err e, s')
  end.

End diagnostics.

(** * Properties of the answers to clients *)

(** ** Headers *)

Lemma assoc_dict_set {A} k (v : A) d k' : assoc k' (dict_set k v d) = if String.eqb k' k then Some v else assoc k' d.
Proof.
  induction d as [|[k1 v1] d IH]; simpl; [done|].
  destruct (String.eqb_spec k k1) as [->|Hne]; simpl.
  - by destruct (String.eqb k' k1).
  - destruct (String.eqb_spec k' k1) as [->|Hne']; [|apply IH].
    by destruct (String.eqb_spec k1 k) as [->|_].
Qed.

Lemma header_set name value name' h :
  header name' (set_header name value h) =
    if String.eqb (py_lower name') (py_lower name) then Some value else header name' h.
Proof. unfold header, set_header. rewrite assoc_dict_set. by destruct (String.eqb _ _). Qed.

(** ** Error responses *)

Section answers.
Context (API : list string) (render : string → string → string → res exn string) (escape : string → string).

(** Rendering may fail, with an ordinary exception. *)
Definition renders : Prop := ∀ template detail code e, render template detail code = Err e → is_exception e = true.

(** What the client sees of a refusal. *)
Definition conveys (request : HttpRequest) (r : Response) (h : HttpResponse) : Prop :=
  hr_status h = rp_status r
  ∧ header "Cache-Control" (hr_headers h) = Some "no-store"
  ∧ header "Retry-After" (hr_headers h) = py_int <$> rp_retry_after r
  ∧ match hr_content h with
    | Json fields => wants_json API request = true ∧ assoc "code" fields = Some (CStr (rp_code r))
                     ∧ assoc "detail" fields = Some (CStr (page (rp_code r)).1)
    | Html _ => wants_json API request = false
    | Plain _ => False
    end.

Lemma update_other d extra k : k ∉ extra.*1 → assoc k (update d extra) = assoc k d.
Proof.
  unfold update. revert d. induction extra as [|[k1 v1] extra IH]; intros d Hk; [done|].
  apply not_elem_of_cons in Hk as [Hne Hk]. simpl in *. rewrite IH by done. rewrite assoc_dict_set.
  by destruct (String.eqb_spec k k1).
Qed.

Lemma extra_keys code tenant k : k ∈ (page_extra code tenant).*1 → k = "status".
Proof. unfold page_extra. destruct tenant; [case_match|]; simpl; set_solver. Qed.

Lemma refusal_conveys request tenant r :
  renders → ∃ h, refusal API render escape request tenant r = Ok h ∧ conveys request r h.
Proof.
  intros Hr. unfold refusal, error_response, conveys. destruct (wants_json API request) eqn:Ej; cbn [res_bind].
  - eexists. split; [reflexivity|].
    split; [by destruct (rp_retry_after r)|]. split; [by destruct (rp_retry_after r)|]. split; [by destruct (rp_retry_after r)|].
    assert (∀ k, k ≠ "status" → k ∉ (page_extra (rp_code r) tenant).*1) as Hk by (intros k Hk ?%extra_keys; done).
    destruct (rp_retry_after r); cbn [with_header hr_content]; rewrite !update_other by (by apply Hk); done.
  - set (page_html := match render _ _ _ with Ok _ => _ | Err _ => _ end).
    assert (∃ html, page_html = Ok html) as [html ->].
    { subst page_html. destruct (render _ _ _) as [html|e] eqn:Er; [by eexists|]. rewrite (Hr _ _ _ _ Er). by eexists. }
    cbn [res_bind]. eexists. split; [reflexivity|]. by destruct (rp_retry_after r).
Qed.

(** The error path does not raise: for any request and any outcome of the
    resolution that the middleware refuses, the client gets an uncacheable
    response with the status, the code and the Retry-After of the refusal, as
    JSON exactly when it is an API client or accepts JSON, even when the template
    is missing or broken. *)
Theorem refusals_reach_clients request upstream r :
  renders → rq_path request ∉ HEALTH_PATHS →
  process_request (rq_path request) upstream = Ok (Some r) →
  (∀ resp t, upstream ≠ Ok (Some resp, t)) →
  ∃ h, answer API render escape request
         (match upstream with Ok (_, t) => Ok (None, t) | Err e => Err e end) = Ok (Some h)
    ∧ conveys request r h.
Proof.
  intros Hr Hp Hpr Hu. unfold answer. rewrite (proj2 (mem_false _ _) Hp).
  destruct upstream as [[[resp|] t]|e]; [by destruct (Hu resp t)|..].
  - rewrite Hpr. cbn [res_bind]. destruct (refusal_conveys request t r Hr) as (h & -> & Hc). by exists h.
  - rewrite Hpr. cbn [res_bind]. destruct (refusal_conveys request None r Hr) as (h & -> & Hc). by exists h.
Qed.

End answers.

(** ** The list of exposed headers *)

Lemma strip_trimmed s :
  match drop_while py_space (chars s) with
  | l => chars (py_strip s) = rdrop_while py_space l
  end.
Proof. unfold py_strip. by rewrite chars_of_chars. Qed.

Lemma strip_idem s : py_strip (py_strip s) = py_strip s.
Proof.
  unfold py_strip at 1. rewrite strip_trimmed. set (l := drop_while py_space (chars s)).
  assert (drop_while py_space (rdrop_while py_space l) = rdrop_while py_space l) as ->.
  { apply drop_while_id. destruct (rdrop_while_prefix py_space l) as (k & Hk & _).
    pose proof (drop_while_head py_space (chars s)) as Hh. fold l in Hh.
    destruct (rdrop_while py_space l) as [|x r]; [done|]. rewrite Hk in Hh. exact Hh. }
  rewrite (rdrop_while_id py_space (rdrop_while py_space l)) by apply rdrop_while_last.
  unfold py_strip. fold l. done.
Qed.

Lemma strip_no_char c s : no_char c s → no_char c (py_strip s).
Proof.
  unfold no_char. rewrite strip_trimmed. intros Hc Hin. apply Hc.
  destruct (drop_while_suffix py_space (chars s)) as (k & Hk & _).
  destruct (rdrop_while_prefix py_space (drop_while py_space (chars s))) as (k' & Hk' & _).
  rewrite Hk, Hk', !elem_of_app. auto.
Qed.

Lemma strip_blank s : py_strip (" " +:+ s) = py_strip s.
Proof. done. Qed.

(** A name as [listed] returns it. *)
Definition name_ok (x : string) : Prop := no_char comma x ∧ py_strip x = x ∧ x ≠ "".

Lemma listed_ok existing : Forall name_ok (listed existing).
Proof.
  apply Forall_forall. intros x [Hne (y & -> & Hy)%list_elem_of_fmap]%list_elem_of_filter.
  split; [|split; [apply strip_idem|done]]. apply strip_no_char.
  pose proof (py_split_no_char comma existing) as Hf. rewrite Forall_forall in Hf. by apply Hf.
Qed.

Lemma split_cons x s : no_char comma x → py_split comma (x +:+ String comma s) = x :: py_split comma s.
Proof.
  intros Hx. unfold py_split. rewrite chars_app. simpl chars at 2.
  rewrite split_chars_app by done. by rewrite fmap_cons, of_chars_chars.
Qed.

Lemma listed_blank s : listed (" " +:+ s) = listed s.
Proof.
  unfold listed, py_split. simpl chars. cbn [split_chars]. simpl Ascii.eqb. cbn iota.
  destruct (split_chars comma (chars s)) as [|p ps] eqn:E; [by apply split_chars_ne in E|].
  change ("" +:+ s) with s. rewrite E. reflexivity.
Qed.

(** The names of a joined list are the list. *)
Lemma listed_join l : Forall name_ok l → listed (py_join ", " l) = l.
Proof.
  induction 1 as [|x l (Hc & Hs & Hne) Hl IH]; [done|].
  destruct l as [|y l].
  - simpl. unfold listed, py_split. rewrite split_chars_one by done. simpl. rewrite of_chars_chars, Hs.
    by rewrite filter_cons_True.
  - change (py_join ", " (x :: y :: l)) with (x +:+ String comma (" " +:+ py_join ", " (y :: l))).
    unfold listed. rewrite split_cons by done. rewrite fmap_cons, Hs, filter_cons_True by done.
    f_equal. etrans; [apply listed_blank|]. exact IH.
Qed.

Lemma diagnostic_names : Forall name_ok _DIAGNOSTIC_HEADERS.
Proof.
  unfold _DIAGNOSTIC_HEADERS. repeat (constructor; [split; [|split; [reflexivity|done]]|]); [..|constructor];
    unfold no_char; apply (bool_decide_unpack _); vm_compute; exact I.
Qed.

Lemma merged_elem existing x : x ∈ merged existing ↔ x ∈ listed existing ∨ x ∈ _DIAGNOSTIC_HEADERS.
Proof.
  unfold merged. rewrite merge_sort_Permutation, elem_of_elements, elem_of_union, !elem_of_list_to_set. done.
Qed.

Lemma merged_ok existing : Forall name_ok (merged existing).
Proof.
  apply Forall_forall. intros x [Hx|Hx]%merged_elem.
  - pose proof (listed_ok existing) as Hf. rewrite Forall_forall in Hf. auto.
  - pose proof diagnostic_names as Hf. rewrite Forall_forall in Hf. auto.
Qed.

Lemma merged_twice existing : merged (py_join ", " (merged existing)) = merged existing.
Proof.
  unfold merged at 1. rewrite listed_join by apply merged_ok.
  unfold merged. do 2 f_equal. apply leibniz_equiv. intros x.
  rewrite elem_of_union, !elem_of_list_to_set, (merge_sort_Permutation str_le), elem_of_elements. set_solver.
Qed.

(** ** The identity headers *)

Section stamps.
Context `{TenantBackend} (hostname : string) (pid tid : Z).

Definition exposed (h : HttpResponse) : list string := listed (default "" (header EXPOSE (hr_headers h))).

Lemma stamp_expose s r :
  header EXPOSE (hr_headers (_stamp hostname pid tid s r))
  = Some (py_join ", " (merged (default "" (header EXPOSE (hr_headers r))))).
Proof.
  unfold _stamp, with_header. cbn [hr_headers]. rewrite header_set, String.eqb_refl. by rewrite !header_set.
Qed.

(** Stamping keeps the status, the content and every other header; names the
    alias the request runs on; exposes the names that were exposed and the four
    diagnostic ones, and nothing else; and stamping again changes nothing. *)
Theorem stamp_exact s r :
  let r' := _stamp hostname pid tid s r in
  hr_status r' = hr_status r ∧ hr_content r' = hr_content r
  ∧ header "X-DB-Alias" (hr_headers r') = Some (active_alias s)
  ∧ (∀ name, py_lower name ∉ py_lower <$> EXPOSE :: _DIAGNOSTIC_HEADERS →
       header name (hr_headers r') = header name (hr_headers r))
  ∧ (∀ x, x ∈ exposed r' ↔ x ∈ exposed r ∨ x ∈ _DIAGNOSTIC_HEADERS)
  ∧ (∀ name, header name (hr_headers (_stamp hostname pid tid s r')) = header name (hr_headers r')).
Proof.
  cbn zeta. split; [done|]. split; [done|]. split; [|split; [|split]].
  - unfold _stamp, with_header. cbn [hr_headers]. by rewrite !header_set.
  - intros name Hn. unfold _stamp, with_header. cbn [hr_headers].
    assert (∀ x, x ∈ EXPOSE :: _DIAGNOSTIC_HEADERS → String.eqb (py_lower name) (py_lower x) = false) as Hx.
    { intros x Hin. apply String.eqb_neq. intros E. apply Hn. rewrite E. by apply list_elem_of_fmap_2. }
    unfold _DIAGNOSTIC_HEADERS in Hx. rewrite !header_set. by rewrite !Hx by set_solver.
  - intros x. unfold exposed. rewrite stamp_expose. simpl. rewrite listed_join by apply merged_ok. apply merged_elem.
  - intros name. destruct (String.eqb_spec (py_lower name) (py_lower EXPOSE)) as [E|Hne].
    + unfold header in *. rewrite E. fold (header EXPOSE (hr_headers (_stamp hostname pid tid s (_stamp hostname pid tid s r)))).
      fold (header EXPOSE (hr_headers (_stamp hostname pid tid s r))). rewrite stamp_expose, stamp_expose. simpl.
      by rewrite merged_twice.
    + unfold _stamp at 1, with_header. cbn [hr_headers]. rewrite !header_set.
      rewrite (proj2 (String.eqb_neq _ _) Hne).
      unfold _stamp, with_header. cbn [hr_headers]. rewrite !header_set, (proj2 (String.eqb_neq _ _) Hne).
      repeat case_match; done.
Qed.

(** Inside the routing middleware a view that leaves the bound alias alone is
    reported with the shard of the request's tenant. *)
Theorem stamp_names_shard t (view : Body HttpResponse) s :
  is_Some (cx_conns s !! hs_alias (ts_shard t)) → hs_alias (ts_shard t) ≠ "" →
  (∀ s1 r s2, view s1 = (Ok r, s2) → cx_current s2 = cx_current s1) →
  ∀ r, (routing_call (Some t) (diagnostics_call hostname pid tid view) s).1 = Ok r →
    header "X-DB-Alias" (hr_headers r) = Some (hs_alias (ts_shard t)).
Proof.
  intros [c Hc] Ha Hv r Hr.
  assert (∀ s1 s2 r0, cx_current s1 = Some (hs_alias (ts_shard t)) → view s1 = (Ok r0, s2) →
    header "X-DB-Alias" (hr_headers (_stamp hostname pid tid s2 r0)) = Some (hs_alias (ts_shard t))) as Hk.
  { intros s1 s2 r0 Hb E. destruct (stamp_exact s2 r0) as (_ & _ & -> & _). unfold active_alias.
    rewrite (Hv _ _ _ E), Hb. by destruct (String.eqb_spec (hs_alias (ts_shard t)) ""). }
  unfold routing_call, diagnostics_call, use_alias, tenant_context, _switch in Hr.
  destruct (String.eqb_spec (hs_alias (ts_shard t)) "default") as [Ed|Hd].
  - destruct (view _) as [[r0|e] s2] eqn:E; [|done]. injection Hr as <-. eapply Hk; [|exact E]. simpl. by rewrite Ed.
  - simpl in Hr. rewrite Hc in Hr. simpl in Hr. destruct (view _) as [[r0|e] s2] eqn:E; [|done]. injection Hr as <-.
    by eapply Hk; [|exact E].
Qed.

End stamps.
