(* ===== verification/ShardCommand.v ===== *)
(** * A command on one tenant's shard

    Models src/tenants/management/commands/tenant_command.py: the wrapped command
    runs inside [tenant_context].  The lookup of commands, the wrapped command,
    the choice of the tenant (upstream's, which may ask the operator) and argparse
    are arguments. *)
From S2P Require Import Prelude PyStr Models PyExc World ResolveCache Routing RoutingFacts LeaseCommand.
Open Scope tenants_scope.

Section tenant_command.
Context `{TenantBackend}.
Context {A : Type} (known : string → bool).
Context (get_tenant : option string → res exn TenantSnapshot).
Context (parse_schema : list string → res exn (option string * list string)).
(** [klass.run_from_argv(args)] and [call_command(name, ...)]. *)
Context (run_argv : string → list string → Body A) (call_command : string → list string → Body A).

(** [argv] is [prog; "tenant_command"; name; ...]; [None]: nothing was asked for. *)
Definition run_from_argv (argv : list string) : Body (option A) := λ s,
  match argv with
  | prog :: _ :: name :: rest =>
      if negb (known name) then (Err (command_error ("Unknown command: " +:+ py_repr name)), s)
      else match parse_schema (prog :: name :: rest) with
           | Err e => (Err e, s)
           | Ok (schema, args) =>
               match get_tenant schema with
               | Err e => (Err e, s)
               | Ok t => tenant_context t None (λ s, let '(r, s') := run_argv name args s in (a <-? r ;; Ok (Some a), s')) s
               end
           end
  | _ => (Ok None, s)
  end.

(** [handle(schema_name=..., command_name=[...], command_options=[...])]. *)
Definition tenant_command_handle (schema_name : option string) (command_name command_options : list string) : Body A := λ s,
  match get_tenant schema_name with
  | Err e => (Err e, s)
  | Ok t =>
      match command_name with
      | [] => (Err (simple_exn OtherException "ValueError" "not enough values to unpack (expected at least 1, got 0)"), s)
      | subcommand :: options => tenant_context t None (call_command subcommand (options ++ command_options)) s
      end
  end.

End tenant_command.

(** ** Properties *)

Section facts.
Context `{TenantBackend} (app_in_list : string → list string → bool) (rc : RouterCfg).

(** A wrapped command queries the tenant's own tables: whatever its name and
    options, a tenant-model query it issues goes to the tenant's shard on a
    connection set to the tenant's schema, and the context is put back after it. *)
Theorem wrapped_command_routes known get_tenant parse m schema args argv prog cmd name rest t s :
  argv = prog :: cmd :: name :: rest → known name = true → parse (prog :: name :: rest) = Ok (schema, args) →
  get_tenant schema = Ok t →
  shared_only app_in_list rc (mm_app_label m) = false → is_Some (cx_conns s !! hs_alias (ts_shard t)) →
  ts_schema_name t ≠ PUBLIC → hs_alias (ts_shard t) ≠ "" →
  let '(r, s') := run_from_argv known get_tenant parse (λ _ _, observe app_in_list rc m (hs_alias (ts_shard t))) argv s in
  r = Ok (Some (Ok (hs_alias (ts_shard t)), Some (ts_schema_name t))) ∧ cx_current s' = cx_current s.
Proof.
  intros -> Hk Hp Ht Hsh Hc Hs Ha. unfold run_from_argv. rewrite Hk, Hp, Ht. cbn [negb].
  pose proof (tenant_context_routes app_in_list rc t m s Hsh Hc Hs Ha) as Hr. destruct Hc as [c Hc].
  unfold tenant_context in *. simpl default in *. rewrite (switch_out _ _ _ _ _ Hc) in Hr.
  rewrite (switch_out _ _ _ _ _ Hc). simpl in *. split; [|done]. by injection Hr as -> ->.
Qed.

(** A command that is not there, or a tenant that is not: nothing runs and the
    context is untouched. *)
Theorem unknown_runs_nothing {A} known get_tenant parse (run_argv : string → list string → Body A) prog cmd name rest s :
  known name = false ∨ (∀ x, is_ok (get_tenant x) = false) →
  let '(r, s') := run_from_argv known get_tenant parse run_argv (prog :: cmd :: name :: rest) s in
  is_ok r = false ∧ s' = s.
Proof.
  intros Hn. unfold run_from_argv. destruct (known name); cbn [negb]; [|done].
  destruct Hn as [Hn|Hn]; [done|]. destruct (parse _) as [[x args]|e]; [|done].
  specialize (Hn x). by destruct (get_tenant x).
Qed.

End facts.
