(* ===== verification/LegacyMigrate.v ===== *)
(** * The legacy migrate_schemas

    Models src/tenants/management/commands/migrate_schemas_legacy.py, the manual
    fallback: a tenant is claimed by an update to PENDING, its schema is created
    if it is new, it is migrated, and its status is written back.  No lease is
    taken.  The lines the command prints are kept under [STDOUT] of the files of
    the process.  Options as upstream's [SyncCommon.handle] leaves them, the order
    of the tenants of a shard and the executor are arguments. *)
From S2P Require Import Prelude PyStr Models PyExc Logs World Lease Schema Migrator Scheduler Requests ModelMethods Console LeaseCommand.
From S2P Require Import Validators Trace MigratorSafety Quiet MigratorRun Scenario.
Open Scope tenants_scope.

(** Statuses that may be claimed by a migration run. *)
Definition CLAIMABLE_STATUSES : list Status := [NEW; ACTIVE; DEACTIVATED].

Record LegacyOpts := mkLegacyOpts {
  lo_sync_public : bool;
  lo_sync_tenant : bool;
  lo_schema_name : option string;
  lo_database : option string;
  lo_rest : gmap string PyVal;
}.

(** [if value:] on an optional string. *)
Definition nonempty (o : option string) : option string :=
  match o with Some s => if String.eqb s "" then None else Some s | None => None end.

(** ** Statements *)

(** UPDATE ... SET status = PENDING, previous_status = status WHERE pk AND status IN (...). *)
Definition claim_stmt (pk : Z) (v : Srv) : res exn nat * Srv * list Action :=
  match g_tenants (v_reg v) !! pk with
  | Some t =>
      if mem (t_status t) CLAIMABLE_STATUSES
      then (Ok 1, set_reg (set_tenants (<[pk := with_status PENDING (t_status t) (g_now (v_reg v)) (Some "") t]>)) v,
            [AStatus pk PENDING (t_status t) (v_reg v)])
      else (Ok 0, v, [])
  | None => (Ok 0, v, [])
  end.

(** UPDATE ... SET status, status_changed_at [, last_error] WHERE pk. *)
Definition settle_stmt (pk : Z) (new : Status) (err : option string) (v : Srv) : res exn nat * Srv * list Action :=
  match g_tenants (v_reg v) !! pk with
  | Some t => (Ok 1, set_reg (set_tenants (<[pk := with_status new (t_previous_status t) (g_now (v_reg v)) err t]>)) v,
               [AStatus pk new (t_status t) (v_reg v)])
  | None => (Ok 0, v, [])
  end.

Definition STDOUT : string := "<stdout>".

Section legacy.
Context `{Invalidator} `{Site} `{Upstream}.
(** The order of [get_tenant_migration_order()], or the database's order. *)
Context (order : list TenantObj → list TenantObj).
(** With [has_multi_type_tenants()]: the type of a tenant, and
    [run_multi_type_migrations] of one pair. *)
Context (multi_type : option (TenantObj → string)) (run_typed : gmap string PyVal → string * string → ShardDb → RunOut).

Definition _notice (line : string) : M unit :=
  modify (upd_files (partial_alter (λ o, Some (default [] o ++ [line])) STDOUT)).

(** [executor.run_migrations(tenants=[schema])] with [options["database"] = alias]. *)
Definition execute (alias schema : string) (run : ShardDb → RunOut) : M unit :=
  out <-! query alias (λ v,
            let out := run (db_of alias v) in (Ok out, set_db alias (λ _, ro_db out) v, [ARun alias schema])) ;;
  set_conn alias (with_schema (ro_schema out) (ro_include_public out)) ;;;
  match ro_exc out with Some e => raise e | None => ret tt end.

Definition with_database (alias : string) (rest : gmap string PyVal) : gmap string PyVal := <["database" := VStr alias]> rest.

Definition run_tenant (rest : gmap string PyVal) (t : TenantObj) : M unit :=
  let options := with_database (o_alias t) rest in
  execute (o_alias t) (o_schema t)
    (match multi_type with
     | Some type_of => run_typed options (o_schema t, type_of t)
     | None => up_run options (o_schema t)
     end).

(** [tenant.refresh_from_db()], then [tenant.shard], which it dropped. *)
Definition refresh (pk : Z) : M TenantObj :=
  t <-! query "default" (λ v,
    (match g_tenants (v_reg v) !! pk with Some t => Ok t | None => Err does_not_exist end, v, [])) ;;
  sh <-! query "default" (λ v,
    (match g_shards (v_reg v) !! t_shard_id t with
     | Some sh => Ok sh
     | None => Err (simple_exn DoesNotExist "DoesNotExist" "Shard matching query does not exist.")
     end, v, [])) ;;
  ret (mkTenantObj pk t sh).

Definition missing_schema (t : TenantObj) : string :=
  "Schema " +:+ py_repr (o_schema t) +:+ " missing in shard " +:+ py_repr (o_alias t) +:+ ", but previous_status="
  +:+ py_repr (status_value (t_previous_status (o_tenant t))) +:+ ". Possible data loss - manual recovery required.".

(** Step 2 of [_migrate_one]. *)
Definition ensure_schema (t : TenantObj) : M unit :=
  present <-! select (o_alias t) (λ v, up_schema_exists (db_of (o_alias t) v) (o_schema t)) ;;
  if present : bool then ret tt
  else if bool_decide (t_previous_status (o_tenant t) = NEW) then
    create_schema (o_alias t) (o_schema t) ;;;
    _notice ("  -> Created schema " +:+ py_repr (o_schema t) +:+ " on " +:+ py_repr (o_alias t))
  else
    query "default" (settle_stmt (o_pk t) FAILED (Some (missing_schema t))) ;;;
    forget_tenant t ;;;
    _notice ("FAIL " +:+ o_schema t +:+ " - " +:+ missing_schema t) ;;;
    raise (command_error (missing_schema t)).

Definition error_text (e : exn) : string := py_take 2000 (eo_name (x_obj e) +:+ ": " +:+ eo_str (x_obj e)).

(** Step 3. *)
Definition run_or_fail (rest : gmap string PyVal) (t : TenantObj) : M unit :=
  catch (run_tenant rest t) (λ e,
    query "default" (settle_stmt (o_pk t) FAILED (Some (error_text e))) ;;;
    forget_tenant t ;;;
    _notice ("FAIL " +:+ o_schema t +:+ " - " +:+ eo_str (x_obj e)) ;;;
    raise e).

Definition final_status (t : Tenant) : Status :=
  if bool_decide (t_previous_status t = NEW) then ACTIVE else t_previous_status t.

Definition _migrate_one (rest : gmap string PyVal) (tenant : TenantObj) : M unit :=
  claimed <-! query "default" (claim_stmt (o_pk tenant)) ;;
  if (claimed =? 0)%nat then _notice ("SKIP " +:+ o_schema tenant +:+ " - already claimed by another process.")
  else
    t <-! refresh (o_pk tenant) ;;
    connection (o_alias t) ;;;
    ensure_schema t ;;;
    run_or_fail rest t ;;;
    query "default" (settle_stmt (o_pk t) (final_status (o_tenant t)) None) ;;;
    forget_tenant t ;;;
    _notice ("OK   " +:+ o_schema t +:+ " -> " +:+ status_value (final_status (o_tenant t))).

(** The claimable tenants of a shard. *)
Definition eligible_on (db_alias : string) (g : Registry) : list TenantObj :=
  order (filter (λ t, o_alias t = db_alias ∧ o_schema t ≠ PUBLIC ∧ o_status t ∈ CLAIMABLE_STATUSES) (all_tenants g)).

Definition _migrate_all_on_shard (rest : gmap string PyVal) (db_alias : string) : M unit :=
  if String.eqb db_alias "default" then
    _notice "Skipping tenant migrations on 'default' - this DB hosts only the public schema."
  else
    tenants <-! select "default" (λ v, eligible_on db_alias (v_reg v)) ;;
    match tenants with
    | [] => _notice ("No claimable tenants on shard " +:+ py_repr db_alias +:+ " - skipping.")
    | _ =>
        _notice ("=== Shard '" +:+ db_alias +:+ "': " +:+ py_int (Z.of_nat (length tenants)) +:+ " tenant(s) eligible ===") ;;;
        each (_migrate_one rest) tenants
    end.

(** ** The command *)

(** [--schema_name=...] of a tenant: its row, or the refusal. *)
Definition resolve_one (given_db : option string) (name : string) : M TenantObj :=
  t <-! select "default" (λ v, by_schema_name (v_reg v) name) ;;
  match t with
  | None => raise (command_error ("Tenant " +:+ py_repr name +:+ " not found."))
  | Some t =>
      match nonempty given_db with
      | Some db =>
          if negb (String.eqb db (o_alias t)) then
            raise (command_error ("--database=" +:+ py_repr db +:+ " does not match tenant " +:+ py_repr name
              +:+ " (its shard is " +:+ py_repr (o_alias t) +:+ ")."))
          else ret tt
      | None => ret tt
      end ;;;
      if sh_is_default (o_shard t) then
        raise (command_error ("Tenant " +:+ py_repr name +:+ " has shard='" +:+ o_alias t
          +:+ "' (is_default=True). Tenant migrations on the default database are not allowed. Inspect Tenant.shard - this looks like a clean()-bypass anomaly."))
      else ret t
  end.

Definition run_shared (rest : gmap string PyVal) (given_db : option string) : M unit :=
  match nonempty given_db with
  | Some db => if negb (String.eqb db "default") then _notice ("--database=" +:+ py_repr db +:+ " ignored for --shared mode; using 'default'.") else ret tt
  | None => ret tt
  end ;;;
  _notice "=== SHARED_APPS migrations on default.public ===" ;;;
  execute "default" PUBLIC (up_run (with_database "default" rest) PUBLIC).

Definition business_aliases (g : Registry) : list string :=
  omap (λ ks, if negb (sh_is_default ks.2) && sh_is_active ks.2 then Some (sh_alias ks.2) else None) (map_to_list (g_shards g)).

Definition run_tenants (rest : gmap string PyVal) (requested_db : option string) : M unit :=
  match requested_db with
  | Some "default" => _notice "Database 'default' has no tenant schemas - nothing to do."
  | _ =>
      match nonempty requested_db with
      | Some db => _migrate_all_on_shard rest db
      | None =>
          shards <-! select "default" (λ v, business_aliases (v_reg v)) ;;
          (match shards with [] => _notice "No active non-default shards found." | _ => ret tt end) ;;;
          each (_migrate_all_on_shard rest) shards
      end
  end.

Definition legacy_handle (o : LegacyOpts) : M unit :=
  let public := bool_decide (lo_schema_name o = Some PUBLIC) in
  let schema_name := if public then None else nonempty (lo_schema_name o) in
  let sync_public := public || lo_sync_public o in
  let sync_tenant := negb public && lo_sync_tenant o in
  resolved <-! match schema_name with
               | Some name => t <-! resolve_one (lo_database o) name ;; ret (Some t)
               | None => ret None
               end ;;
  (if sync_public then run_shared (lo_rest o) (match resolved with Some t => Some (o_alias t) | None => lo_database o end)
   else ret tt) ;;;
  (if sync_tenant then
     match resolved with
     | Some t => _migrate_one (lo_rest o) t
     | None => run_tenants (lo_rest o) (lo_database o)
     end
   else ret tt).

End legacy.

(** * Properties of the legacy migrate_schemas *)

(** ** The order of the effects, whatever happens *)

(** Where a run of the command stands: no tenant taken yet, one claimed over the
    status [prev] (with or without the migrations started), one settled. *)
Inductive Stage := Idle | Taken (pk : Z) (prev : Status) (ran : bool) | Settled (pk : Z).

(** The status a successful run gives back. *)
Definition restored (prev : Status) : Status := if bool_decide (prev = NEW) then ACTIVE else prev.

Section stages.
(** [exact]: the other clients leave a claimed row alone. *)
Context (exact : bool).

Definition second_ok (prev new old : Status) (ran : bool) : bool :=
  (bool_decide (new = FAILED) || ran && (negb exact || bool_decide (new = restored prev)))
  && (negb exact || bool_decide (old = PENDING)).

(** The effects a run may have, from each stage. *)
Definition lstep (s : Stage) (a : Action) : option Stage :=
  match a, s with
  | AStatus k new old g, (Idle | Settled _) =>
      if bool_decide (new = PENDING) && mem old CLAIMABLE_STATUSES
         && bool_decide (t_status <$> g_tenants g !! k = Some old)
      then Some (Taken k old false) else None
  | AStatus k new old g, Taken pk prev ran =>
      if bool_decide (k = pk) && second_ok prev new old ran then Some (Settled pk) else None
  | ACreateSchema _ _, Taken pk prev false => if negb exact || bool_decide (prev = NEW) then Some s else None
  | ARun _ _, Taken pk prev _ => Some (Taken pk prev true)
  | ARun alias schema, Idle => if String.eqb alias "default" && String.eqb schema PUBLIC then Some Idle else None
  | AForget k, (Taken pk _ _ | Settled pk) => if bool_decide (k = pk) then Some (Settled pk) else None
  | _, _ => None
  end.

(** The stage after a trace (newest first); [None] for a trace no run may leave. *)
Definition stage_from (s : Stage) (acts : list Action) : option Stage := foldr (λ a o, o ≫= λ s, lstep s a) (Some s) acts.
Definition stage (tr : list Action) : option Stage := stage_from Idle tr.

Lemma stage_app acts tr s : stage tr = Some s → stage (acts ++ tr) = stage_from s acts.
Proof. intros E. unfold stage, stage_from. rewrite foldr_app. unfold stage, stage_from in E. by rewrite E. Qed.

End stages.

(** Another client leaves the status and the previous status of a PENDING row alone. *)
Definition respectful (ev : Event) : Prop := ∀ v k t,
  g_tenants (v_reg v) !! k = Some t → t_status t = PENDING →
  ∃ t', g_tenants (v_reg (ev_env ev v)) !! k = Some t' ∧ t_status t' = PENDING ∧ t_previous_status t' = t_previous_status t.

Section policy.
Context `{Invalidator} `{Site} `{Upstream}.
Context (order : list TenantObj → list TenantObj) (multi_type : option (TenantObj → string)).
Context (run_typed : gmap string PyVal → string * string → ShardDb → RunOut) (exact : bool).

(** The row of a taken tenant is PENDING and remembers what it was. *)
Definition owns (s : Stage) (g : Registry) : Prop :=
  match s with
  | Taken k prev _ => ∃ t, g_tenants g !! k = Some t ∧ t_status t = PENDING ∧ t_previous_status t = prev
  | _ => True
  end.

(** A world at a stage in [S]. *)
Definition At (S : Stage → Prop) (w : World) : Prop :=
  ∃ s, stage exact (w_trace w) = Some s ∧ S s
    ∧ (exact = true → Forall respectful (w_script w) ∧ owns s (v_reg (w_srv w))).

(** From a stage in [S]: an answer [a] at a stage in [Q a], an error at one in [E]. *)
Definition ltrip {A} (S : Stage → Prop) (m : M A) (Q : A → Stage → Prop) (E : Stage → Prop) : Prop :=
  ∀ w, At S w → match m w with (Ok a, w') => At (Q a) w' | (Err _, w') => At E w' end.

Lemma At_impl (S S' : Stage → Prop) w : At S w → (∀ s, S s → S' s) → At S' w.
Proof. intros (s & ? & ? & ?) Hs. exists s. auto. Qed.

Lemma ltrip_conseq {A} (S S' : Stage → Prop) (m : M A) (Q Q' : A → Stage → Prop) (E E' : Stage → Prop) :
  ltrip S' m Q' E' → (∀ s, S s → S' s) → (∀ a s, Q' a s → Q a s) → (∀ s, E' s → E s) → ltrip S m Q E.
Proof.
  intros Hm HS HQ HE w Hw. specialize (Hm w (At_impl _ _ _ Hw HS)). destruct (m w) as [[a|e] w']; by eapply At_impl; eauto.
Qed.

Lemma ltrip_bind {A B} (m : M A) (k : A → M B) (S : Stage → Prop) R Q E :
  ltrip S m R E → (∀ a, ltrip (R a) (k a) Q E) → ltrip S (bind m k) Q E.
Proof. intros Hm Hk w Hw. unfold bind. specialize (Hm w Hw). destruct (m w) as [[a|e] w']; [|done]. by apply Hk. Qed.

Lemma ltrip_ret {A} (a : A) (S : Stage → Prop) Q E : (∀ s, S s → Q a s) → ltrip S (ret a) Q E.
Proof. intros HQ w Hw. by apply (At_impl _ _ _ Hw). Qed.
Lemma ltrip_raise {A} e (S : Stage → Prop) (Q : A → Stage → Prop) E : (∀ s, S s → E s) → ltrip S (raise e) Q E.
Proof. intros HE w Hw. by apply (At_impl _ _ _ Hw). Qed.

(** Operations of the process itself. *)
Lemma ltrip_silent {A} (m : M A) (S E : Stage → Prop) :
  (∀ w, let w' := (m w).2 in w_trace w' = w_trace w ∧ w_srv w' = w_srv w ∧ w_script w' = w_script w) →
  (∀ s, S s → E s) → ltrip S m (λ _, S) E.
Proof.
  intros Hm HE w (s & Hs & HS & Hx). destruct (Hm w) as (Ht & Hv & Hc). destruct (m w) as [[a|e] w']; simpl in *;
    exists s; rewrite Ht, Hv, Hc; auto.
Qed.

Lemma ltrip_event (S : Stage → Prop) E : ltrip S next_event (λ _, S) E.
Proof.
  intros w (s & Hs & HS & Hx). unfold next_event. destruct (w_script w) as [|ev l] eqn:Es.
  - exists s. rewrite Es. auto.
  - exists s. split; [done|]. split; [done|]. intros He. destruct (Hx He) as [Hl Ho].
    apply Forall_cons in Hl as [Hev Hl]. split; [done|]. destruct s as [|k prev ran|k]; [done| |done].
    destruct Ho as (t & Ht & Hst & Hp). destruct (Hev _ _ _ Ht Hst) as (t' & ? & ? & ?). exists t'. split_and!; [done..|congruence].
Qed.

(** What a statement has to do at every stage it may find. *)
Definition fits {A} (S : Stage → Prop) (f : Srv → res exn A * Srv * list Action) (Q : A → Stage → Prop) (E : Stage → Prop) : Prop :=
  ∀ v s, S s → (exact = true → owns s (v_reg v)) →
    ∃ s', stage_from exact s (f v).2 = Some s' ∧ (exact = true → owns s' (v_reg (f v).1.2)) ∧ E s'
      ∧ ∀ a, (f v).1.1 = Ok a → Q a s'.

Lemma ltrip_query {A} alias (f : Srv → res exn A * Srv * list Action) (S : Stage → Prop) Q E :
  (∀ s, S s → E s) → fits S f Q E → ltrip S (query alias f) Q E.
Proof.
  intros HE Hf. apply (ltrip_bind _ _ _ (λ _, S)).
  { apply (ltrip_bind _ _ _ (λ _, S)); [apply ltrip_silent; [intros w; unfold connection; by case_match|done]|]. intros c.
    case_match; [by apply ltrip_ret|]. apply (ltrip_bind _ _ _ (λ _, S)); [apply ltrip_event|]. intros ev.
    case_match; [by apply ltrip_raise|by apply ltrip_silent]. }
  intros _. apply (ltrip_bind _ _ _ (λ _, S)); [apply ltrip_event|]. intros ev w (s & Hs & HS & Hx).
  destruct (Hf (w_srv w) s HS (λ He, proj2 (Hx He))) as (s' & Hst & Ho & HE' & HQ).
  destruct (f (w_srv w)) as [[r v] acts]. cbn [fst snd] in *. pose proof (stage_app exact acts _ _ Hs) as Happ. rewrite Hst in Happ.
  destruct (ev_fault ev); [destruct (ev_applied ev)|destruct r]; cbn;
    (eexists; split; [first [exact Happ|exact Hs]|]); (split; [eauto|]); intros He; split; try (by apply Hx); auto; by apply Hx.
Qed.

Lemma fits_read {A} (S : Stage → Prop) (f : Srv → res exn A) (Q : A → Stage → Prop) (E : Stage → Prop) :
  (∀ s, S s → E s) → (∀ v s a, S s → (exact = true → owns s (v_reg v)) → f v = Ok a → Q a s) →
  fits S (λ v, (f v, v, [])) Q E.
Proof. intros HE HQ v s HS Ho. exists s. split; [done|]. split; [done|]. eauto. Qed.

Lemma ltrip_select {A} alias (f : Srv → A) (S E : Stage → Prop) : (∀ s, S s → E s) → ltrip S (select alias f) (λ _, S) E.
Proof. intros HE. apply ltrip_query; [done|]. by apply (fits_read S (λ v, Ok (f v)) (λ _, S) E). Qed.

Lemma ltrip_each {X} (f : X → M unit) l (S E : Stage → Prop) :
  (∀ x, ltrip S (f x) (λ _, S) E) → ltrip S (each f l) (λ _, S) E.
Proof. intros Hf. induction l; simpl; [by apply ltrip_ret|]. by apply (ltrip_bind _ _ _ (λ _, S)). Qed.

Definition Any (s : Stage) : Prop := True.
(** No tenant is taken. *)
Definition Free (s : Stage) : Prop := match s with Taken _ _ _ => False | _ => True end.

Lemma ltrip_notice line (S E : Stage → Prop) : (∀ s, S s → E s) → ltrip S (_notice line) (λ _, S) E.
Proof. by apply ltrip_silent. Qed.
Lemma ltrip_connection a (S E : Stage → Prop) : (∀ s, S s → E s) → ltrip S (connection a) (λ _, S) E.
Proof. apply ltrip_silent. intros w. unfold connection. by case_match. Qed.

(** ** One tenant *)

Lemma ltrip_claim pk :
  ltrip Free (query "default" (claim_stmt pk))
    (λ n s, if (n =? 0)%nat then Free s else ∃ p, s = Taken pk p false) Any.
Proof.
  apply ltrip_query; [done|]. intros v s HS Ho. unfold claim_stmt.
  destruct (g_tenants (v_reg v) !! pk) as [t|] eqn:E; [|exists s; split_and!; [done..|by intros ? [= <-]]].
  destruct (mem (t_status t) CLAIMABLE_STATUSES) eqn:Em; [|exists s; split_and!; [done..|by intros ? [= <-]]].
  exists (Taken pk (t_status t) false). cbn [snd fst]. split_and!.
  - unfold stage_from. cbn [foldr mbind option_bind lstep]. rewrite E. cbn [fmap option_fmap option_map].
    rewrite Em, !bool_decide_true by done. by destruct s.
  - intros _. eexists. split; [apply lookup_insert_eq|]. done.
  - done.
  - intros a [= <-]. simpl. eauto.
Qed.

Section taken.
Context (pk : Z) (p : Status).

Definition Mine (s : Stage) : Prop := ∃ ran, s = Taken pk p ran.
Definition Unrun (s : Stage) : Prop := s = Taken pk p false.
Definition Ran (s : Stage) : Prop := s = Taken pk p true.
Definition Closing (s : Stage) : Prop := Mine s ∨ s = Settled pk.

Lemma ltrip_settle (S : Stage → Prop) new err :
  (∀ s, S s → ∃ ran, s = Taken pk p ran ∧ (new = FAILED ∨ ran = true ∧ (exact = true → new = restored p))) →
  ltrip S (query "default" (settle_stmt pk new err)) (λ _, Closing) Any.
Proof.
  intros HS. apply ltrip_query; [done|]. intros v s Hs Ho. destruct (HS s Hs) as (ran & -> & Hnew). unfold settle_stmt.
  destruct (g_tenants (v_reg v) !! pk) as [t|] eqn:E; [|exists (Taken pk p ran); split_and!; [done|exact Ho|done|left; by exists ran]].
  exists (Settled pk). split_and!; [|done|done|by right]. unfold stage_from. cbn [snd foldr mbind option_bind lstep].
  rewrite bool_decide_true by done. cbn [andb]. assert (second_ok exact p new (t_status t) ran = true) as ->; [|done].
  unfold second_ok. destruct Hnew as [-> |[-> Hr]].
  - rewrite bool_decide_true by done. cbn [orb andb]. destruct exact; [|done]. destruct (Ho eq_refl) as (t' & Ht' & Hst & _).
    rewrite E in Ht'. simplify_eq. by rewrite Hst.
  - destruct exact; [|by rewrite orb_true_r]. destruct (Ho eq_refl) as (t' & Ht' & Hst & _).
    rewrite E in Ht'. simplify_eq. rewrite Hst, (Hr eq_refl), (bool_decide_true (restored p = restored p)) by done. cbn [negb orb andb]. by rewrite orb_true_r.
Qed.

Lemma ltrip_forget t : o_pk t = pk → ltrip Closing (forget_tenant t) (λ _, λ s, s = Settled pk) Any.
Proof.
  intros Hpk. unfold forget_tenant. apply (ltrip_bind _ _ _ (λ _, Closing)); [by apply ltrip_select|]. intros hosts.
  apply (ltrip_bind _ _ _ (λ _, Closing)); [by apply ltrip_connection|]. intros c.
  apply (ltrip_bind _ _ _ (λ _, Closing)); [case_match; by apply ltrip_silent|]. intros _ w (s & Hs & HS & Hx).
  exists (Settled pk). split; [|split; [done|]].
  - unfold log_action, modify. cbn [snd w_trace upd_trace]. change (AForget (o_pk t) :: w_trace w) with ([AForget (o_pk t)] ++ w_trace w).
    rewrite (stage_app exact _ _ _ Hs). destruct HS as [[ran ->]| ->]; simpl; by rewrite bool_decide_true.
  - intros He. by destruct (Hx He).
Qed.

(** The three ways a run ends: recorded, forgotten, reported. *)
Lemma ltrip_end {A} (S : Stage → Prop) new err t line (k : M A) Q :
  o_pk t = pk →
  (∀ s, S s → ∃ ran, s = Taken pk p ran ∧ (new = FAILED ∨ ran = true ∧ (exact = true → new = restored p))) →
  ltrip Free k Q Any →
  ltrip S (query "default" (settle_stmt pk new err) ;;; forget_tenant t ;;; _notice line ;;; k) Q Any.
Proof.
  intros Hpk HS Hk. apply (ltrip_bind _ _ _ (λ _, Closing)); [by apply ltrip_settle|]. intros _.
  apply (ltrip_bind _ _ _ (λ _ s, s = Settled pk)); [by apply ltrip_forget|]. intros _.
  apply (ltrip_bind _ _ _ (λ _ s, s = Settled pk)); [by apply ltrip_notice|]. intros _.
  eapply ltrip_conseq; [exact Hk|by intros ? ->|done|done].
Qed.

Lemma ltrip_fail {A} (S : Stage → Prop) t err line e (Q : A → Stage → Prop) :
  o_pk t = pk → (∀ s, S s → Mine s) →
  ltrip S (query "default" (settle_stmt pk FAILED err) ;;; forget_tenant t ;;; _notice line ;;; raise e) Q Any.
Proof.
  intros Hpk HS. apply ltrip_end; [done| |by apply ltrip_raise]. intros s Hs. destruct (HS s Hs) as [ran ->]. eauto.
Qed.

Lemma ltrip_create alias schema : (exact = true → p = NEW) → ltrip Unrun (create_schema alias schema) (λ _, Unrun) Any.
Proof.
  intros Hp. unfold create_schema, ensure_connection. apply (ltrip_bind _ _ _ (λ _, Unrun)).
  { apply (ltrip_bind _ _ _ (λ _, Unrun)); [by apply ltrip_connection|]. intros c. case_match; [by apply ltrip_ret|].
    apply (ltrip_bind _ _ _ (λ _, Unrun)); [apply ltrip_event|]. intros ev. case_match; [by apply ltrip_raise|by apply ltrip_silent]. }
  intros _. apply (ltrip_bind _ _ _ (λ _, Unrun)).
  { apply ltrip_silent; [|done]. intros w. unfold quote_schema_m. by case_match. }
  intros _. apply ltrip_query; [done|]. intros v s -> Ho. exists (Taken pk p false). split_and!; [|exact Ho|done|done].
  simpl. destruct exact; [|done]. by rewrite Hp.
Qed.

Lemma ltrip_ensure_schema t :
  o_pk t = pk → (exact = true → t_previous_status (o_tenant t) = p) → ltrip Unrun (ensure_schema t) (λ _, Unrun) Any.
Proof.
  intros Hpk Hp. unfold ensure_schema. apply (ltrip_bind _ _ _ (λ _, Unrun)); [by apply ltrip_select|].
  intros present. destruct present; [by apply ltrip_ret|]. case_bool_decide as Hn.
  - apply (ltrip_bind _ _ _ (λ _, Unrun)); [apply ltrip_create; intros He; by rewrite <- Hp|]. intros _. by apply ltrip_notice.
  - rewrite Hpk. apply ltrip_fail; [done|]. intros s ->. by exists false.
Qed.

Lemma ltrip_execute alias schema run : ltrip Unrun (execute alias schema run) (λ _, Ran) Mine.
Proof.
  assert (∀ s, Ran s → Mine s) as HR by (intros s ->; by exists true).
  unfold execute. apply (ltrip_bind _ _ _ (λ _, Ran)).
  - apply ltrip_query; [intros s ->; by exists false|]. intros v s -> Ho. exists (Taken pk p true). split_and!; [done|exact Ho|by exists true|done].
  - intros out. apply (ltrip_bind _ _ _ (λ _, Ran)); [by apply ltrip_silent|]. intros _.
    case_match; [by apply ltrip_raise|by apply ltrip_ret].
Qed.

Lemma ltrip_run_or_fail rest t : o_pk t = pk → ltrip Unrun (run_or_fail multi_type run_typed rest t) (λ _, Ran) Any.
Proof.
  intros Hpk w Hw. unfold run_or_fail, catch, run_tenant.
  match goal with |- context [execute ?a ?s ?r w] => pose proof (ltrip_execute a s r w Hw) as He; destruct (execute a s r w) as [[u|e] w1] end;
    [done|]. destruct (is_exception e); [|by apply (At_impl _ _ _ He)]. rewrite Hpk.
  match goal with |- context [bind (query ?a ?f) ?k w1] =>
    pose proof (ltrip_fail (A := unit) Mine t (Some (error_text e)) ("FAIL " +:+ o_schema t +:+ " - " +:+ eo_str (x_obj e)) e (λ _, Ran) Hpk
      (λ s Hs, Hs) w1 He) as Hf; destruct (bind (query a f) k w1) as [[v|e2] w2] end; exact Hf.
Qed.

Lemma ltrip_rest rest t :
  o_pk t = pk → (exact = true → t_previous_status (o_tenant t) = p) →
  ltrip Unrun (connection (o_alias t) ;;; ensure_schema t ;;; run_or_fail multi_type run_typed rest t ;;;
    query "default" (settle_stmt (o_pk t) (final_status (o_tenant t)) None) ;;; forget_tenant t ;;;
    _notice ("OK   " +:+ o_schema t +:+ " -> " +:+ status_value (final_status (o_tenant t)))) (λ _, Free) Any.
Proof.
  intros Hpk Hp. apply (ltrip_bind _ _ _ (λ _, Unrun)); [by apply ltrip_connection|]. intros _.
  apply (ltrip_bind _ _ _ (λ _, Unrun)); [by apply ltrip_ensure_schema|]. intros _.
  apply (ltrip_bind _ _ _ (λ _, Ran)); [by apply ltrip_run_or_fail|]. intros _. rewrite Hpk.
  apply (ltrip_bind _ _ _ (λ _, Closing)).
  { apply ltrip_settle. intros s ->. exists true. split; [done|]. right. split; [done|].
    intros He. unfold final_status, restored. by rewrite (Hp He). }
  intros _. apply (ltrip_bind _ _ _ (λ _ s, s = Settled pk)); [by apply ltrip_forget|]. intros _.
  apply (ltrip_conseq _ (λ s, s = Settled pk) _ _ (λ _ s, s = Settled pk) _ Any); [by apply ltrip_notice|done|by intros ?? ->|done].
Qed.

End taken.

Lemma ltrip_refresh pk :
  ltrip (λ s, ∃ p, s = Taken pk p false) (refresh pk)
    (λ t s, ∃ p, s = Taken pk p false ∧ o_pk t = pk ∧ (exact = true → t_previous_status (o_tenant t) = p)) Any.
Proof.
  unfold refresh. apply (ltrip_bind _ _ _ (λ t s, ∃ p, s = Taken pk p false ∧ (exact = true → t_previous_status t = p))).
  { apply ltrip_query; [done|]. apply fits_read; [done|]. intros v s a [p ->] Ho. case_match eqn:E; [|done]. intros [= <-].
    exists p. split; [done|]. intros He. destruct (Ho He) as (t' & Ht' & _ & <-). rewrite E in Ht'. by simplify_eq. }
  intros t. apply (ltrip_bind _ _ _ (λ _ s, ∃ p, s = Taken pk p false ∧ (exact = true → t_previous_status t = p))).
  { apply ltrip_query; [done|]. by apply fits_read. }
  intros sh. apply ltrip_ret. intros s (p & -> & Hp). eauto.
Qed.

Lemma ltrip_migrate_one rest tenant : ltrip Free (_migrate_one multi_type run_typed rest tenant) (λ _, Free) Any.
Proof.
  unfold _migrate_one. eapply ltrip_bind; [apply ltrip_claim|]. intros n. cbn beta. destruct (n =? 0)%nat; [by apply ltrip_notice|].
  eapply ltrip_bind; [apply ltrip_refresh|]. intros t w (s & Hs & (p & -> & Hpk & Hp) & Hx).
  apply (ltrip_rest (o_pk tenant) p rest t Hpk Hp w). by exists (Taken (o_pk tenant) p false).
Qed.

(** ** The command *)

Lemma ltrip_on_shard rest alias : ltrip Free (_migrate_all_on_shard order multi_type run_typed rest alias) (λ _, Free) Any.
Proof.
  unfold _migrate_all_on_shard. case_match; [by apply ltrip_notice|].
  apply (ltrip_bind _ _ _ (λ _, Free)); [by apply ltrip_select|]. intros l. case_match; [by apply ltrip_notice|].
  apply (ltrip_bind _ _ _ (λ _, Free)); [by apply ltrip_notice|]. intros _. apply ltrip_each. intros. apply ltrip_migrate_one.
Qed.

Lemma ltrip_run_tenants rest db : ltrip Free (run_tenants order multi_type run_typed rest db) (λ _, Free) Any.
Proof.
  assert (ltrip Free (match nonempty db with
    | Some d => _migrate_all_on_shard order multi_type run_typed rest d
    | None => shards <-! select "default" (λ v, business_aliases (v_reg v)) ;;
              (match shards with [] => _notice "No active non-default shards found." | _ => ret tt end) ;;;
              each (_migrate_all_on_shard order multi_type run_typed rest) shards end) (λ _, Free) Any) as Hall.
  { destruct (nonempty db) as [d|]; [apply ltrip_on_shard|].
    apply (ltrip_bind _ _ _ (λ _, Free)); [by apply ltrip_select|]. intros l.
    apply (ltrip_bind _ _ _ (λ _, Free)); [case_match; [by apply ltrip_notice|by apply ltrip_ret]|]. intros _.
    apply ltrip_each. intros. apply ltrip_on_shard. }
  unfold run_tenants. repeat case_match; try exact Hall; by apply ltrip_notice.
Qed.

Definition Start (s : Stage) : Prop := s = Idle.

Lemma ltrip_run_shared rest db : ltrip Start (run_shared rest db) (λ _, Start) Any.
Proof.
  unfold run_shared. apply (ltrip_bind _ _ _ (λ _, Start)); [repeat case_match; by apply ltrip_notice || by apply ltrip_ret|]. intros _.
  apply (ltrip_bind _ _ _ (λ _, Start)); [by apply ltrip_notice|]. intros _. unfold execute.
  apply (ltrip_bind _ _ _ (λ _, Start)); [apply ltrip_query; [done|]; intros v s -> _; by exists Idle|]. intros out.
  apply (ltrip_bind _ _ _ (λ _, Start)); [by apply ltrip_silent|]. intros _. case_match; [by apply ltrip_raise|by apply ltrip_ret].
Qed.

Lemma ltrip_resolve_one db name : ltrip Start (resolve_one db name) (λ _, Start) Any.
Proof.
  unfold resolve_one. apply (ltrip_bind _ _ _ (λ _, Start)); [by apply ltrip_select|]. intros [t|]; [|by apply ltrip_raise].
  apply (ltrip_bind _ _ _ (λ _, Start)); [repeat case_match; by apply ltrip_raise || by apply ltrip_ret|]. intros _.
  case_match; [by apply ltrip_raise|by apply ltrip_ret].
Qed.

Lemma ltrip_handle o : ltrip Start (legacy_handle order multi_type run_typed o) (λ _, Free) Any.
Proof.
  assert (∀ s, Start s → Free s) as HF by by intros s ->.
  unfold legacy_handle. cbv zeta. apply (ltrip_bind _ _ _ (λ _, Start)).
  { case_match; [|by apply ltrip_ret]. apply (ltrip_bind _ _ _ (λ _, Start)); [apply ltrip_resolve_one|]. intros. by apply ltrip_ret. }
  intros resolved. apply (ltrip_bind _ _ _ (λ _, Start)); [case_match; [apply ltrip_run_shared|by apply ltrip_ret]|]. intros _.
  case_match; [|by apply ltrip_ret]. apply (ltrip_conseq _ Free _ _ (λ _, Free) _ Any); [|exact HF|done|done].
  destruct resolved; [apply ltrip_migrate_one|apply ltrip_run_tenants].
Qed.

End policy.


(** ** An undisturbed run *)

Section run.
Context `{Invalidator} `{Site} `{Upstream}.
Context (multi_type : option (TenantObj → string)).
Context (run_typed : gmap string PyVal → string * string → ShardDb → RunOut) (alias : string).

Lemma runs_catch_reraise {A} (m : M A) h q e q1 q2 :
  runs alias m q (Err e) q1 → is_exception e = true → runs alias (h e) q1 (Err e) q2 → runs alias (catch m h) q (Err e) q2.
Proof.
  intros Hm He Hh w Hw. destruct (Hm w Hw) as (w1 & E & Hw1). destruct (Hh w1 Hw1) as (w2 & E2 & Hw2).
  exists w2. unfold catch. rewrite E, He, E2. unfold raised_while_handling. by rewrite bool_decide_true.
Qed.

Lemma runs_notice q line : runs alias (_notice line) q (Ok tt) q.
Proof. apply runs_silent. intros w []. by split. Qed.

Definition put_tenant (pk : Z) (t : Tenant) (q : View) : View := q_set_reg (set_tenants (<[pk := t]>)) q.

Lemma runs_claim q pk t :
  g_tenants (q_reg q) !! pk = Some t → t_status t ∈ CLAIMABLE_STATUSES →
  runs alias (query "default" (claim_stmt pk)) q (Ok 1)
    (put_tenant pk (with_status PENDING (t_status t) (g_now (q_reg q)) (Some "") t) q).
Proof.
  intros Ht Hs. pose proof (runs_query alias "default" (claim_stmt pk) q (or_introl eq_refl)) as Hq.
  unfold effect, after, claim_stmt, q_reg in *. rewrite Ht, (proj2 (mem_spec _ _) Hs) in Hq. exact Hq.
Qed.

Lemma runs_settle q pk t new err :
  g_tenants (q_reg q) !! pk = Some t →
  runs alias (query "default" (settle_stmt pk new err)) q (Ok 1)
    (put_tenant pk (with_status new (t_previous_status t) (g_now (q_reg q)) err t) q).
Proof.
  intros Ht. pose proof (runs_query alias "default" (settle_stmt pk new err) q (or_introl eq_refl)) as Hq.
  unfold effect, after, settle_stmt, q_reg in *. rewrite Ht in Hq. exact Hq.
Qed.

Lemma runs_read {A} a (f : Srv → res exn A * Srv * list Action) q x acts :
  known alias a → f (q_srv q) = (x, q_srv q, acts) → runs alias (query a f) q x q.
Proof.
  intros Ha Hf. pose proof (runs_query alias a f q Ha) as Hq. unfold effect, after in Hq. rewrite Hf in Hq.
  by destruct q.
Qed.

Lemma runs_refresh q pk t sh :
  g_tenants (q_reg q) !! pk = Some t → g_shards (q_reg q) !! t_shard_id t = Some sh →
  runs alias (refresh pk) q (Ok (mkTenantObj pk t sh)) q.
Proof.
  intros Ht Hsh. unfold refresh, q_reg in *.
  eapply runs_bind; [apply (runs_read "default" _ q (Ok t) []); [by left|by rewrite Ht]|].
  eapply runs_bind; [apply (runs_read "default" _ q (Ok sh) []); [by left|by rewrite Hsh]|]. apply runs_ret.
Qed.

Lemma runs_execute q schema run :
  runs alias (execute alias schema run) q (run_result (run (db_of alias (q_srv q))))
    (q_set_srv (set_db alias (λ _, ro_db (run (db_of alias (q_srv q)))) (q_srv q)) q).
Proof.
  unfold execute, run_result. eapply runs_bind.
  { eapply (runs_query alias alias (λ v, (Ok (run (db_of alias v)), set_db alias (λ _, ro_db (run (db_of alias v))) v, [ARun alias schema]))).
    by right. }
  simpl. eapply runs_bind; [apply runs_set_schema_raw|]. destruct (ro_exc _); [apply runs_raise|apply runs_ret].
Qed.

(** The tenant is claimable and lives on [alias]. *)
Record Ready (q : View) (tenant : TenantObj) : Prop := mkReady {
  rd_row : g_tenants (q_reg q) !! o_pk tenant = Some (o_tenant tenant);
  rd_shard : g_shards (q_reg q) !! t_shard_id (o_tenant tenant) = Some (o_shard tenant);
  rd_alias : o_alias tenant = alias;
  rd_status : o_status tenant ∈ CLAIMABLE_STATUSES;
}.

(** The row after the claim; the databases the migrations start from and what
    upstream makes of them. *)
Definition claimed_row (tenant : TenantObj) (now : Z) : TenantObj :=
  mkTenantObj (o_pk tenant) (with_status PENDING (o_status tenant) now (Some "") (o_tenant tenant)) (o_shard tenant).

Definition started (present : bool) (tenant : TenantObj) (v : Srv) : Srv :=
  if present then v else created alias (o_schema tenant) v.

Definition the_run (rest : gmap string PyVal) (tenant : TenantObj) : ShardDb → RunOut :=
  let options := with_database alias rest in
  match multi_type with
  | Some type_of => run_typed options (o_schema tenant, type_of tenant)
  | None => up_run options (o_schema tenant)
  end.

(** What a run leaves behind: its result, and the last write to the row. *)
Definition closing (tenant : TenantObj) (out : RunOut) : res exn unit * Status * string :=
  match ro_exc out with
  | None => (Ok tt, if bool_decide (o_status tenant = NEW) then ACTIVE else o_status tenant, "")
  | Some e => (Err e, FAILED, error_text e)
  end.

Lemma runs_ensure_present q t :
  o_alias t = alias → up_schema_exists (db_of alias (q_srv q)) (o_schema t) = true →
  runs alias (ensure_schema t) q (Ok tt) q.
Proof.
  intros Ha Hx. unfold ensure_schema. rewrite Ha.
  eapply runs_bind; [apply (runs_select alias alias); by right|]. cbn beta. rewrite Hx. apply runs_ret.
Qed.

Lemma runs_ensure_created q t sql :
  o_alias t = alias → up_schema_exists (db_of alias (q_srv q)) (o_schema t) = false →
  t_previous_status (o_tenant t) = NEW → quote_schema (o_schema t) = Ok sql →
  runs alias (ensure_schema t) q (Ok tt) (q_set_srv (created alias (o_schema t) (q_srv q)) q).
Proof.
  intros Ha Hx Hn Hq. unfold ensure_schema. rewrite Ha.
  eapply runs_bind; [apply (runs_select alias alias); by right|]. cbn beta. rewrite Hx, bool_decide_true by done.
  eapply runs_bind; [by eapply runs_create_schema|]. apply runs_notice.
Qed.

(** The databases once the tenant is claimed, its schema there and migrated. *)
Definition after_run (present : bool) (tenant : TenantObj) (out : RunOut) (v : Srv) : Srv :=
  set_db alias (λ _, ro_db out) (started present tenant v).

(** The last row of the tenant. *)
Definition settled_row (tenant : TenantObj) (out : RunOut) (now : Z) : Tenant :=
  let '(_, st, err) := closing tenant out in with_status st (o_status tenant) now (Some err) (o_tenant tenant).

(** Both ways of having a schema. *)
Definition provisioned (present : bool) (tenant : TenantObj) : Prop :=
  present = true ∨ (o_status tenant = NEW ∧ ∃ sql, quote_schema (o_schema tenant) = Ok sql).

Lemma runs_ensure_schema q tenant now present :
  o_alias tenant = alias → up_schema_exists (db_of alias (q_srv q)) (o_schema tenant) = present →
  provisioned present tenant →
  runs alias (ensure_schema (claimed_row tenant now)) q (Ok tt) (q_set_srv (started present tenant (q_srv q)) q).
Proof.
  intros Ha Hx [->|[Hn [sql Hq]]]; [destruct q; by apply (runs_ensure_present _ (claimed_row tenant now))|].
  destruct present; [destruct q; by apply (runs_ensure_present _ (claimed_row tenant now))|].
  by apply (runs_ensure_created _ (claimed_row tenant now) sql).
Qed.

(** Settling the claimed row, and forgetting the tenant. *)
Lemma runs_settle_forget {A} q tenant now new err (k : M A) r :
  let t := claimed_row tenant now in
  g_tenants (q_reg q) !! o_pk tenant = Some (o_tenant t) →
  (∀ q', runs alias k q' r q') →
  runs alias (query "default" (settle_stmt (o_pk t) new err) ;;; forget_tenant t ;;; k) q r
    (forgotten t (put_tenant (o_pk tenant) (with_status new (o_status tenant) (g_now (q_reg q)) err (o_tenant t)) q)).
Proof.
  intros t Ht Hk. eapply runs_bind; [by apply runs_settle|]. eapply runs_bind; [apply runs_forget_tenant|]. apply Hk.
Qed.

(** Running the migrations on the claimed tenant, and closing. *)
Lemma runs_settled rest q tenant now :
  let t := claimed_row tenant now in
  let out := the_run rest t (db_of alias (q_srv q)) in
  o_alias tenant = alias → (∀ e, ro_exc out = Some e → is_exception e = true) →
  g_tenants (q_reg q) !! o_pk tenant = Some (o_tenant t) →
  runs alias (run_or_fail multi_type run_typed rest t ;;;
        query "default" (settle_stmt (o_pk t) (final_status (o_tenant t)) None) ;;;
        forget_tenant t ;;; _notice ("OK   " +:+ o_schema t +:+ " -> " +:+ status_value (final_status (o_tenant t))))
    q (closing tenant out).1.1
    (forgotten t (put_tenant (o_pk tenant) (settled_row tenant out (g_now (q_reg q)))
       (q_set_srv (set_db alias (λ _, ro_db out) (q_srv q)) q))).
Proof.
  intros t out Ha Hexc Ht. unfold settled_row, closing. set (q1 := q_set_srv _ q).
  assert (runs alias (run_tenant multi_type run_typed rest t) q (run_result out) q1) as Hrun.
  { unfold run_tenant. change (o_alias t) with (o_alias tenant). rewrite Ha. apply runs_execute. }
  unfold run_result in Hrun. destruct (ro_exc out) as [e|] eqn:Ee.
  - apply runs_bind_err. eapply runs_catch_reraise; [apply Hrun|by apply Hexc|].
    apply (runs_settle_forget q1 tenant now FAILED (Some (error_text e))); [done|].
    intros q'. eapply runs_bind; [apply runs_notice|apply runs_raise].
  - eapply runs_bind; [apply runs_catch_ok, Hrun|].
    apply (runs_settle_forget q1 tenant now _ None); [done|]. intros q'. apply runs_notice.
Qed.

Lemma runs_with_connection {A} q a (k : M A) r q' :
  known alias a → runs alias k q r q' → runs alias (connection a ;;; k) q r q'.
Proof.
  intros Ha Hk w Hw. destruct (runs_connection alias q a Ha w Hw) as (c & E & _). unfold bind. rewrite E. by apply Hk.
Qed.

(** The last write of a row counts. *)
Lemma put_put pk t t' q : put_tenant pk t' (put_tenant pk t q) = put_tenant pk t' q.
Proof. destruct q as [[[] ??] ??]. unfold put_tenant, q_set_reg, set_reg, set_tenants. simpl. by rewrite insert_insert_eq. Qed.

Lemma runs_migrate_one rest q tenant present :
  let t := claimed_row tenant (g_now (q_reg q)) in
  let out := the_run rest t (db_of alias (started present tenant (q_srv q))) in
  Ready q tenant → up_schema_exists (db_of alias (q_srv q)) (o_schema tenant) = present →
  provisioned present tenant → (∀ e, ro_exc out = Some e → is_exception e = true) →
  runs alias (_migrate_one multi_type run_typed rest tenant) q (closing tenant out).1.1
    (forgotten t (put_tenant (o_pk tenant) (settled_row tenant out (g_now (q_reg q)))
       (q_set_srv (after_run present tenant out (q_srv q)) q))).
Proof.
  intros t out [Hrow Hsh Ha Hst] Hx Hp Hexc. unfold _migrate_one.
  eapply runs_bind; [by apply runs_claim|]. cbn [Nat.eqb].
  set (q1 := put_tenant _ _ q). assert (g_tenants (q_reg q1) !! o_pk tenant = Some (o_tenant t)) as Ht by apply lookup_insert_eq.
  eapply runs_bind; [by apply (runs_refresh q1 _ (o_tenant t) (o_shard tenant))|].
  change (o_alias (mkTenantObj _ _ _)) with (o_alias tenant). rewrite Ha. apply runs_with_connection; [by right|].
  eapply runs_bind; [by apply (runs_ensure_schema q1 tenant _ present)|].
  rewrite <- (put_put _ (o_tenant t)). set (q2 := q_set_srv _ q1).
  destruct present; by apply (runs_settled rest q2 tenant (g_now (q_reg q)) Ha).
Qed.

End run.

(** An undisturbed run on a claimable tenant whose schema is there, or can be
    created because the tenant is NEW: the row ends ACTIVE (or with the status it
    had) and no error when the migrations succeed, FAILED with the error's text
    when they raise, which the caller gets too; the shard database is exactly what
    the migrations made of it, no other row changes, and neither the hosts nor the
    schema of the tenant stay cached. *)
Theorem legacy_migrate_exact `{Invalidator} `{Site} `{Upstream} multi_type run_typed rest tenant w :
  let alias := o_alias tenant in
  let v := w_srv w in
  let present := up_schema_exists (db_of alias v) (o_schema tenant) in
  let t := claimed_row tenant (g_now (v_reg v)) in
  let out := the_run multi_type run_typed alias rest t (db_of alias (started alias present tenant v)) in
  Quiet alias w → Ready alias (view_of w) tenant → provisioned present tenant →
  (∀ e, ro_exc out = Some e → is_exception e = true) →
  ∃ w', _migrate_one multi_type run_typed rest tenant w = ((closing tenant out).1.1, w')
    ∧ w_srv w' = set_reg (set_tenants (<[o_pk tenant := settled_row tenant out (g_now (v_reg v))]>))
                   (after_run alias present tenant out v)
    ∧ (∀ h, h ∈ tenant_hosts (v_reg v) (o_pk tenant) → inv_host (w_cache w') h = None)
    ∧ inv_schema (w_cache w') (o_schema tenant) = None.
Proof.
  intros alias v present t out Hw Hr Hp Hexc.
  destruct (runs_migrate_one multi_type run_typed alias rest (view_of w) tenant present Hr eq_refl Hp Hexc w Hw)
    as (w' & E & Hw'). exists w'. split; [exact E|]. destruct Hw' as [_ _ _ _ Hsrv Hc _]. split; [exact Hsrv|]. rewrite Hc. split.
  - intros h Hh. apply inv_forget_host. revert Hh. unfold after_run. destruct present; exact id.
  - apply inv_forget_schema.
Qed.

(** * Runs of the legacy command

    The theorems on the legacy command at the worlds of the scenarios, and a run
    that ends between the claim and the migrations. *)

(** No tenant types. *)
Definition untyped : option (TenantObj → string) := None.
Definition no_types : gmap string PyVal → string * string → ShardDb → RunOut := λ _ _ db, mkRunOut None db "public" true "".

Section fine.
#[local] Instance legacy_upstream : Upstream := toy_upstream None.

Lemma legacy_migrate_exact_witness :
  ∃ w', _migrate_one untyped no_types ∅ (acme NEW) (world NEW ∅ ∅ []) = (Ok tt, w')
    ∧ (t_status <$> g_tenants (v_reg (w_srv w')) !! 1%Z) = Some ACTIVE
    ∧ inv_schema (w_cache w') "acme" = None.
Proof.
  destruct (legacy_migrate_exact untyped no_types ∅ (acme NEW) (world NEW ∅ ∅ [])) as (w' & E & Hs & _ & Hc).
  - apply quiet_world.
  - split; [by vm_compute..|]. by left.
  - right. split; [done|]. eexists. by vm_compute.
  - by intros e [=].
  - exists w'. split; [exact E|]. split; [|exact Hc]. rewrite Hs. by vm_compute.
Defined.


(** A run skips a tenant another run has claimed. *)
Lemma second_run_skips :
  let w := (_migrate_one untyped no_types ∅ (acme PENDING) (world PENDING ∅ half [])).2 in
  w_srv w = w_srv (world PENDING ∅ half []) ∧ w_files w !! STDOUT = Some ["SKIP acme - already claimed by another process."].
Proof. by vm_compute. Qed.

(** The shard cannot be reached once the tenant is claimed: the command raises,
    and the tenant stays PENDING with no error recorded, so later runs skip it. *)
Definition shard_down : list Event := [quiet; quiet; quiet; quiet; fault conn_lost false (Some IDLE)].

Lemma claim_left_pending :
  let '(r, w) := _migrate_one untyped no_types ∅ (acme ACTIVE) (world ACTIVE ∅ half shard_down) in
  r = Err conn_lost
  ∧ ((λ t, (t_status t, t_previous_status t, t_last_error t)) <$> g_tenants (v_reg (w_srv w)) !! 1%Z) = Some (PENDING, ACTIVE, "")
  ∧ w_cache w = w_cache (world ACTIVE ∅ half [])
  ∧ (_migrate_one untyped no_types ∅ (acme ACTIVE) (upd_script [] w)).1 = Ok tt
  ∧ w_srv (_migrate_one untyped no_types ∅ (acme ACTIVE) (upd_script [] w)).2 = w_srv w.
Proof. by vm_compute. Qed.

(** A NEW tenant whose name cannot be quoted is left PENDING as well. *)
Definition misnamed : TenantObj :=
  mkTenantObj 1 (mkTenant ("a" +:+ String dquote "b") "Acme" "" 2 NEW NEW 0 "" None) (mkShard "shard1" "shard1" false true).

Lemma misnamed_left_pending :
  let w0 := upd_srv (set_reg (set_tenants (λ _, {[1%Z := o_tenant misnamed]}))) (world NEW ∅ ∅ []) in
  let '(r, w) := _migrate_one untyped no_types ∅ misnamed w0 in
  (∃ e, r = Err e) ∧ (t_status <$> g_tenants (v_reg (w_srv w)) !! 1%Z) = Some PENDING.
Proof. vm_compute. split; [by eexists|done]. Qed.

End fine.
