(* ===== verification/RegistryPrograms.v ===== *)
(** * Every program keeps the registry well-formed

    The invariant of [RegistryInvariant] through everything that writes to
    [default]: the console, the admin, migrate_schemas and its legacy fallback,
    the provisioning task and the management commands, in any order, each of them
    interleaved with other clients and interrupted at any round trip. *)
From S2P Require Import Prelude PyStr Validators Models PyExc Logs World Lease Schema Trace Migrator Scheduler.
From S2P Require Import Requests ModelMethods Probes Console Admin LifecycleFacts ConsoleFacts RegistryInvariant.
From S2P Require Import LeaseCommand MigrateCommand SchemaCommands Quiet MigratorRun Scenario ConsoleScenario Bootstrap ProvisionTask LegacyMigrate.
Open Scope tenants_scope.

Section programs.
Context `{Invalidator} `{!HostInvalidator} `{Site} `{Upstream} `{DomainMixin} (D P : Z → bool) (X : string → Prop).
Context (one_default : ∀ a b, D a = true → D b = true → a = b).

Notation good := (good D P X).
Notation keeps_good := (keeps_good D P X).
Notation stays m := (steps keeps_good m).

(** ** What does not touch the registry *)

Lemma stays_local {A} (m : M A) :
  (∀ w, w_srv (m w).2 = w_srv w ∧ w_script (m w).2 = w_script w) → stays m.
Proof. intros Hm w. unfold RegistryInvariant.keeps_good, ok_world. by destruct (Hm w) as [-> ->]. Qed.

Lemma stays_gets {A} (f : World → A) : stays (gets f).
Proof. by apply stays_local. Qed.
Lemma stays_monotonic : stays monotonic.
Proof. apply stays_local. intros w. unfold monotonic. by case_match. Qed.
Lemma stays_log_line x : stays (log_line x).
Proof. apply stays_local. intros w. unfold log_line. by repeat case_match. Qed.
Lemma stays_tee x : stays (tee_output x).
Proof. apply stays_local. intros w. unfold tee_output. by repeat case_match. Qed.
Lemma stays_attempt {A} (m : M A) : stays m → stays (attempt m).
Proof. intros Hm w. specialize (Hm w). unfold attempt. by destruct (m w). Qed.
Lemma stays_each {A} (f : A → M unit) l : (∀ x, stays (f x)) → stays (each f l).
Proof. intros Hf. induction l; simpl; steps_solve; auto. Qed.

(** A statement on the schemas of a shard. *)
Lemma stays_ddl {A} a (f : Srv → res exn A * Srv * list Action) :
  (∀ v, v_reg (f v).1.2 = v_reg v) → stays (query a f).
Proof. intros Hf. apply steps_query; [exact _|]. apply allows_good. intros v. by rewrite Hf. Qed.

(** A statement on the leases. *)
Lemma good_leases g f : good g → good (set_leases f g).
Proof. intros Hg. by split; apply Hg. Qed.

#[local] Hint Resolve stays_gets stays_monotonic stays_log_line stays_tee : steps.
#[local] Hint Extern 1 (steps _ (modify _)) => (apply stays_local; by intros) : steps.
#[local] Hint Extern 1 (steps _ (log_action _)) => (apply stays_local; by intros) : steps.
#[local] Hint Extern 1 (steps _ (attempt _)) => (apply stays_attempt; steps_solve) : steps.

(** ** The lease and the fenced status update *)

Lemma reg_stays_upsert key : stays (query "default" (upsert_stmt key)).
Proof.
  apply steps_query; [exact _|]. apply allows_good. intros v Hv. unfold upsert_stmt, lease_upsert.
  destruct (g_leases (v_reg v) !! key) as [l|]; [destruct (_ || _)|]; cbn [fst snd v_reg set_reg]; by try apply good_leases.
Qed.

Lemma reg_stays_free key o : stays (query "default" (free_stmt key o)).
Proof.
  apply steps_query; [exact _|]. apply allows_good. intros v Hv. unfold free_stmt, lease_free.
  destruct (g_leases (v_reg v) !! key) as [l|]; [case_bool_decide|]; cbn [fst snd v_reg set_reg]; by try apply good_leases.
Qed.

(** An update of the status columns of one row. *)
Lemma good_status g pk t new prev now err :
  good g → g_tenants g !! pk = Some t → good (set_tenants (<[pk := with_status new prev now err t]>) g).
Proof. intros Hg Ht. by eapply good_same_place. Qed.

Lemma reg_stays_cas pk expected new prev err : stays (_fenced_cas pk expected new prev err).
Proof.
  unfold _fenced_cas. steps_solve. apply steps_query; [exact _|]. apply allows_good. intros v Hv.
  unfold cas_stmt, fenced_update. destruct (g_tenants (v_reg v) !! pk) as [t|] eqn:E; [|done].
  destruct (_ && _); [|done]. simpl. by apply good_status.
Qed.

#[local] Hint Resolve reg_stays_upsert reg_stays_free reg_stays_cas : steps.

Lemma stays_acquire key alias : stays (lease_acquire key alias).
Proof. unfold lease_acquire. steps_solve. Qed.
Lemma stays_release key : stays (lease_release key).
Proof. unfold lease_release. steps_solve. Qed.
Lemma stays_open_shard a k : stays (_open_shard a k).
Proof. unfold _open_shard. steps_solve. Qed.
Lemma stays_quote s : stays (quote_schema_m s).
Proof. unfold quote_schema_m. steps_solve. Qed.
Lemma stays_forget t : stays (forget_tenant t).
Proof. unfold forget_tenant. steps_solve. Qed.
Lemma stays_create_schema a s : stays (create_schema a s).
Proof. unfold create_schema. steps_solve; [apply stays_quote|by apply stays_ddl]. Qed.
Lemma stays_run_migrations a o s : stays (run_migrations a o s).
Proof. unfold run_migrations. steps_solve. by apply stays_ddl. Qed.
Lemma stays_note e : stays (_note_exc e).
Proof. apply stays_each, stays_log_line. Qed.
Lemma stays_load pk : stays (_load pk).
Proof. unfold _load. steps_solve. Qed.
Lemma stays_invalid a s : stays (invalid_indexes a s).
Proof. unfold invalid_indexes. steps_solve. Qed.
Lemma stays_relations a s : stays (schema_has_relations a s).
Proof. unfold schema_has_relations. steps_solve. Qed.

#[local] Hint Resolve stays_acquire stays_release stays_open_shard stays_forget stays_create_schema stays_run_migrations
  stays_note stays_load stays_invalid stays_relations : steps.

(** ** The migrator *)

Lemma stays_cas_lost t r : stays (_cas_lost t r).
Proof. unfold _cas_lost. steps_solve. Qed.
Lemma stays_failure e a s r : stays (_failure e a s r).
Proof. unfold _failure. steps_solve. Qed.
Lemma stays_open_log o n s a st : stays (_open_log o n s a st).
Proof. unfold _open_log. steps_solve. apply stays_each, stays_log_line. Qed.
Lemma stays_close_log r n : stays (_close_log r n).
Proof. unfold _close_log. cbv zeta. steps_solve. apply stays_each, stays_log_line. Qed.
#[local] Hint Resolve stays_cas_lost stays_failure stays_open_log stays_close_log : steps.

Lemma stays_provision t o r : stays (_provision t o r).
Proof.
  unfold _provision, provision_body, provision_except, provision_finish, _forget, set_side. cbv zeta. steps_solve.
Qed.
Lemma stays_upgrade t o r : stays (_upgrade t o r).
Proof. unfold _upgrade, upgrade_body, upgrade_except, _forget, set_side. cbv zeta. steps_solve. Qed.
#[local] Hint Resolve stays_provision stays_upgrade : steps.

Lemma stays_run_tenant pk o : stays (_migrate_tenant pk o).
Proof.
  unfold _migrate_tenant, load_target, noop_shortcut, take_lease, under_lease, after_lease, _shard_idle. cbv zeta. steps_solve.
Qed.

(** The two lines around a run: the log's footer, and the time it took. *)
Lemma stays_timed (run : M Result) started :
  stays run →
  stays (λ w, match run w with
              | (Ok res, w') =>
                  (t1 <-! monotonic ;; let res := with_secs (t1 - started)%Z res in
                   t2 <-! monotonic ;; _close_log (Some res) (t2 - started)%Z ;;; ret res) w'
              | (Err e, w') => (t2 <-! monotonic ;; _close_log None (t2 - started)%Z ;;; raise e : M Result) w'
              end).
Proof.
  intros Hr w. specialize (Hr w). destruct (run w) as [[res|e] w']; (etransitivity; [exact Hr|]).
  - eapply (_ : stays (t1 <-! monotonic ;; _)). Unshelve. cbv zeta. steps_solve.
  - eapply (_ : stays (t2 <-! monotonic ;; _)). Unshelve. steps_solve.
Qed.

Lemma stays_migrate_tenant pk o : stays (migrate_tenant pk o).
Proof.
  apply (steps_bind keeps_good monotonic); [apply stays_monotonic|]. intros started. apply stays_timed, stays_run_tenant.
Qed.

Lemma stays_migrate_shared o : stays (migrate_shared o).
Proof.
  apply (steps_bind keeps_good monotonic); [apply stays_monotonic|]. intros started.
  apply steps_bind; [exact _|apply stays_open_log|]. intros _. apply stays_timed.
  unfold _migrate_shared, shared_lease, shared_run, shared_finally, _lease_table_exists, _shard_idle. cbv zeta. steps_solve.
Qed.

Lemma stays_snapshot k : stays (snapshot k).
Proof. unfold snapshot, behind. cbv zeta. steps_solve. Qed.
#[local] Hint Resolve stays_migrate_tenant stays_migrate_shared stays_snapshot : steps.

Lemma stays_provision_task pk : stays (provision_tenant pk).
Proof. unfold provision_tenant. steps_solve. Qed.

(** ** migrate_schemas *)

Lemma stays_sequential fuel n drain o st : stays (_run_sequential fuel n drain o st).
Proof. revert n st. induction fuel as [|fuel IH]; intros n st; simpl; cbv zeta; steps_solve. Qed.
Lemma stays_snapshots l es : stays (_snapshots l es).
Proof. revert es. induction l as [|i l IH]; intros es; simpl; steps_solve. Qed.
Lemma stays_recheck_entry e : stays (recheck_entry e).
Proof. unfold recheck_entry, get_by_pk. steps_solve. Qed.
Lemma stays_recheck es : stays (recheck_each es).
Proof. induction es as [|e es IH]; simpl; steps_solve. apply stays_attempt, stays_recheck_entry. Qed.
Lemma stays_close_all : stays close_all.
Proof. intros w. apply (stays_each close (elements (dom (w_conns w)))). intros a. steps_solve. Qed.
#[local] Hint Resolve stays_sequential stays_snapshots stays_recheck stays_close_all : steps.

Lemma stays_validate env sy o : stays (_validate env sy o).
Proof. unfold _validate, check_database, check_target. cbv zeta. steps_solve. Qed.
Lemma stays_tenant_stage ou pl o k base ts : stays (tenant_stage ou pl o k base ts).
Proof. unfold tenant_stage. cbv zeta. steps_solve. Qed.
Lemma stays_conclude h r run : stays (conclude h r run).
Proof. unfold conclude. cbv zeta. steps_solve. Qed.
#[local] Hint Resolve stays_validate stays_tenant_stage stays_conclude : steps.

Lemma stays_handle env ou sy o dir : stays (handle env ou sy o dir).
Proof. unfold handle, _run, select_stage. cbv zeta. steps_solve. Qed.

(** ** The legacy migrate_schemas *)

Lemma stays_notice l : stays (_notice l).
Proof. by apply stays_local. Qed.
Lemma stays_claim pk : stays (query "default" (claim_stmt pk)).
Proof.
  apply steps_query; [exact _|]. apply allows_good. intros v Hv. unfold claim_stmt.
  destruct (g_tenants (v_reg v) !! pk) as [t|] eqn:E; [|done]. destruct (mem _ _); [|done]. by apply good_status.
Qed.
Lemma stays_settle pk new err : stays (query "default" (settle_stmt pk new err)).
Proof.
  apply steps_query; [exact _|]. apply allows_good. intros v Hv. unfold settle_stmt.
  destruct (g_tenants (v_reg v) !! pk) as [t|] eqn:E; [|done]. by apply good_status.
Qed.
Lemma stays_execute a sch run : stays (execute a sch run).
Proof. unfold execute. steps_solve. by apply stays_ddl. Qed.
#[local] Hint Resolve stays_notice stays_claim stays_settle stays_execute : steps.

Lemma stays_migrate_one mt rt rest t : stays (_migrate_one mt rt rest t).
Proof. unfold _migrate_one, refresh, ensure_schema, run_or_fail, run_tenant. cbv zeta. steps_solve. Qed.
#[local] Hint Resolve stays_migrate_one : steps.

Lemma stays_all_on_shard order mt rt rest a : stays (_migrate_all_on_shard order mt rt rest a).
Proof. unfold _migrate_all_on_shard. steps_solve. apply stays_each. intros. steps_solve. Qed.
Lemma stays_run_tenants order mt rt rest db : stays (run_tenants order mt rt rest db).
Proof. unfold run_tenants. repeat case_match; steps_solve; try apply stays_all_on_shard. all: apply stays_each; intros; apply stays_all_on_shard. Qed.

Lemma stays_legacy order mt rt o : stays (legacy_handle order mt rt o).
Proof. unfold legacy_handle, resolve_one, run_shared. cbv zeta. steps_solve. apply stays_run_tenants. Qed.

(** ** The other commands *)

Lemma stays_sessions l key : stays (_session l key).
Proof. induction l; simpl; steps_solve. Qed.
Lemma stays_list_rows ts l : stays (list_rows ts l).
Proof.
  induction l as [|[k h] l IH]; simpl; unfold lease_label, session_column, _all_shards; steps_solve. apply stays_sessions.
Qed.
#[local] Hint Resolve stays_sessions stays_list_rows : steps.

Lemma stays_lease_command l rel force : stays (lease_handle l rel force).
Proof.
  unfold lease_handle, _list, _release, _resolve, release_checks, lease_holders, lease_force_release, _all_shards. steps_solve.
Qed.

Lemma stays_drop dbs a sch ni ans : stays (drop_tenant_schema dbs a sch ni ans).
Proof.
  unfold drop_tenant_schema, confirm_drop. cbv zeta. steps_solve; [apply stays_quote|].
  apply stays_ddl. intros v. unfold drop_stmt. by case_match.
Qed.
Lemma stays_create sch : stays (create_tenant_schema sch).
Proof.
  unfold create_tenant_schema. cbv zeta. steps_solve; [apply stays_quote|].
  apply stays_ddl. intros v. unfold create_stmt. by case_match.
Qed.

(** A second default shard is refused, so the keys handed out are business keys. *)
Lemma stays_shard_insert seq activate a :
  D seq = false → stays (query "default" (shard_insert_stmt seq (new_shard activate a))).
Proof.
  intros Hs. apply steps_query; [exact _|]. apply allows_good. intros v Hv. unfold shard_insert_stmt.
  destruct (_ || _) eqn:Ec; [done|]. apply orb_false_iff in Ec as [_ Ec].
  assert (String.eqb a "default" = false) as Ha.
  { destruct (String.eqb a "default") eqn:Ea; [|done]. exfalso.
    destruct (good_default _ _ _ _ Hv) as (k & x & Hx & HD). unfold shard_clash in Ec. rewrite existsb_false in Ec.
    specialize (Ec (k, x)). rewrite elem_of_map_to_list in Ec. specialize (Ec Hx). simpl in Ec.
    rewrite Ea, (proj1 (good_shard _ _ _ _ Hv k x Hx)), HD in Ec. simpl in Ec. by rewrite orb_true_r in Ec. }
  cbn [fst snd v_reg set_reg]. apply good_set_shard; [done|by unfold new_shard; simpl; rewrite Ha|].
  unfold new_shard. simpl. by rewrite <- (String.eqb_eq a), Ha.
Qed.

Lemma stays_sync_shards dbs activate seq : (∀ n, D (seq n) = false) → stays (sync_shards dbs activate seq).
Proof.
  intros Hs. unfold sync_shards. steps_solve. generalize 0 as n. generalize a as existing.
  induction dbs as [|x dbs IH]; intros existing n; simpl; steps_solve; auto using stays_shard_insert.
Qed.

(** ** The bootstraps *)

(** In a well-formed registry the public tenant is found. *)
Lemma public_found g : good g → is_Some (by_schema_name g PUBLIC).
Proof.
  intros Hg. unfold by_schema_name. destruct (good_public _ _ _ _ Hg) as (p & x & Hx & Hp).
  destruct (list_find _ (map_to_list (g_tenants g))) as [[i [k t]]|] eqn:E.
  - apply list_find_Some in E as (Hi & Hs & _). apply list_elem_of_lookup_2, elem_of_map_to_list in Hi. simpl in *.
    destruct (good_tenant _ _ _ _ Hg k t Hi) as (G1 & G2 & _). unfold get_tenant. rewrite Hi. simpl.
    destruct (good_default _ _ _ _ Hg) as (d & sh & Hsh & Hd).
    rewrite (one_default (t_shard_id t) d), Hsh; [by eexists|by rewrite G2; apply G1|done].
  - exfalso. apply list_find_None in E. rewrite Forall_forall in E. apply (E (p, x)); [by apply elem_of_map_to_list|].
    by apply (good_tenant _ _ _ _ Hg p x Hx).
Qed.

Lemma stays_get_or_create {A} (get : CM (option A)) create :
  csteps keeps_good get → csteps keeps_good create → csteps keeps_good (get_or_create get create).
Proof. intros Hg Hc. unfold get_or_create. csteps_solve. Qed.

(** Where the row is always found, nothing is created. *)
Lemma stays_get {A} (get : CM (option A)) create :
  learns D P X is_Some get → csteps keeps_good (get_or_create get create).
Proof.
  intros Hg. apply (steps_learns D P X (λ _, True)). eapply learns_bind; [exact Hg|]. intros [a|] Ha; [by apply learns_ret|].
  by destruct (is_Some_None Ha).
Qed.

Lemma stays_public seq dseq domain user vt seed :
  csteps keeps_good seed → csteps keeps_good (bootstrap_public vt seq dseq domain user seed).
Proof.
  intros Hs. unfold bootstrap_public. csteps_solve.
  - apply stays_get. apply learns_select. intros v. apply public_found.
  - apply stays_get_or_create; [unfold get_domain; csteps_solve|]. unfold create_domain. csteps_solve.
    apply domain_saved_as_is. simpl. by eapply validate_hostname_canonical.
Qed.

(** The shard a business tenant may be registered on. *)
Lemma learns_bootstrap_shard alias : learns D P X (λ ks, D ks.1 = false) (bootstrap_shard alias).
Proof.
  unfold bootstrap_shard.
  eapply learns_bind with (Q := λ o, ∀ ks, o = Some ks → sh_is_default ks.2 = D ks.1).
  - apply learns_select. intros v Hv ks E. unfold shard_with_alias in E. apply bind_Some in E as ([i [k s]] & Ef & [= <-]).
    apply list_find_Some in Ef as (Hi & _). apply list_elem_of_lookup_2, elem_of_map_to_list in Hi.
    by apply (good_shard _ _ _ _ Hv k s).
  - intros [[k s]|] Hk; [|by apply learns_raise]. specialize (Hk _ eq_refl). simpl in Hk.
    destruct (sh_is_default s); [by apply learns_raise|]. destruct (negb _); [by apply learns_raise|]. by apply learns_ret.
Qed.

(** A canonical host, or one an operator insisted on. *)
Definition accepted (h : string) : Prop := canonical h ∨ X h.

(** What the checks before the rows establish about the host. *)
Lemma learns_reserved rules vt schema domain force :
  (force = true → accepted (normalize_host domain)) →
  learns D P X (λ _, accepted (normalize_host domain)) (_check_reserved rules vt schema domain force).
Proof.
  intros Hf. unfold _check_reserved. eapply learns_bind; [apply learns_steps; csteps_solve|]. intros g _.
  destruct (reserved_problems rules vt g schema domain) as [|x l] eqn:E.
  - apply learns_ret. unfold reserved_problems in E. apply app_eq_nil in E as [_ E].
    destruct (validate_tenant_domain _ _ _ domain) as [h|] eqn:Ed; [|done].
    apply validate_tenant_domain_correct in Ed as (Hv & _). left. rewrite (validated_normal _ _ Hv).
    by eapply validate_hostname_canonical.
  - cbv zeta. destruct force; [by apply learns_ret; auto|by apply learns_raise].
Qed.

Lemma stays_register seq dseq a schema domain :
  P seq = false → is_safe_schema_identifier schema = true → accepted (normalize_host domain) →
  csteps keeps_good (register_rows seq dseq a schema domain).
Proof.
  intros Hp Hs Hd. apply (steps_learns D P X (λ _, True)). unfold register_rows.
  eapply learns_bind; [apply learns_bootstrap_shard|]. intros ks Hk. apply learns_steps. csteps_solve.
  - apply stays_get_or_create; [unfold get_tenant_by_schema; csteps_solve|]. unfold create_tenant. csteps_solve.
    by apply tenant_save_good.
  - apply stays_get_or_create; [unfold get_domain; csteps_solve|]. unfold create_domain. csteps_solve.
    by apply domain_save_good.
Qed.

Lemma stays_bootstrap rules vt seq dseq env ou o seed a :
  P seq = false → (ba_force a = true → accepted (normalize_host (normalize_host (ba_domain a)))) →
  (∀ t, csteps keeps_good (seed t)) → csteps keeps_good (bootstrap_tenant rules vt seq dseq env ou o seed a).
Proof.
  intros Hp Hf Hs. unfold bootstrap_tenant. destruct (validate_schema_name (ba_schema a)) as [schema|e] eqn:E; [|csteps_solve].
  destruct (String.eqb schema PUBLIC); [csteps_solve|]. cbv zeta. apply (steps_learns D P X (λ _, True)).
  eapply learns_bind; [by apply learns_reserved|]. intros warned Hd. apply learns_steps. csteps_solve.
  - apply stays_register; [done| |done]. by eapply schema_name_safe.
  - unfold migrate_one. csteps_solve. apply stays_handle.
Qed.

(** ** The writer of the timezone *)

Lemma stays_timezone schema tz : csteps keeps_good (sync_tenant_timezone schema tz).
Proof.
  unfold sync_tenant_timezone. csteps_solve. apply steps_query; [exact _|]. apply allows_good. intros v Hv. cbn [fst snd].
  set (m := g_tenants (v_reg v)). set (m' := (set_timezone tz <$> filter (λ kt, t_schema_name kt.2 = schema) m) ∪ m).
  assert (∀ k t', m' !! k = Some t' → ∃ t, m !! k = Some t ∧ t_schema_name t' = t_schema_name t ∧ t_shard_id t' = t_shard_id t)
    as Hold.
  { intros k t' [Hk|[_ Hk]]%lookup_union_Some_raw; [|by exists t'].
    apply lookup_fmap_Some in Hk as (t & <- & [Hk _]%map_lookup_filter_Some). by exists t. }
  split; simpl; [apply Hv| |apply Hv| |apply Hv].
  - intros k t' (t & Hk & E1 & E2)%Hold. rewrite E1, E2. by apply (good_tenant _ _ _ _ Hv).
  - destruct (good_public _ _ _ _ Hv) as (p & x & Hx & Hp).
    assert (is_Some (m' !! p)) as [t' Ht']; [|by exists p, t'].
    apply lookup_union_is_Some. right. by exists x.
Qed.

End programs.

(** ** All programs *)

(** What runs against [default]: a request of the console or the admin, the
    domain pages of the admin, the commands and the tasks, and the handler that
    copies a tenant's timezone. *)
Inductive Program `{Invalidator} `{!HostInvalidator} :=
| Serve (r : Request_)
| AdminSaveDomain (seq : Z) (pk : option Z) (p : DomainPost)
| AdminDeleteDomains (pks : list Z)
| SyncTimezone (schema : string) (tz : option string)
| MigrateSchemas (env : Env) (ou : Outside) (sy : Sync) (o : Options) (dir : option (res string string))
| LegacyMigrateSchemas (order : list TenantObj → list TenantObj) (o : LegacyOpts)
| ProvisionTenant (pk : Z)
| MigrationLeaseCommand (list_ : bool) (release : option string) (force : bool)
| SyncShards (databases : list string) (activate : bool) (seq : nat → Z)
| DropTenantSchema (databases : list string) (alias schema : string) (no_input : bool) (answer : res exn string)
| CreateTenantSchema (schema : string)
| BootstrapPublic (seq dseq : Z) (domain username : string) (seed : CM unit)
| BootstrapTenant (seq dseq : Z) (env : Env) (ou : Outside) (o : Options) (seed : TenantObj → CM unit) (a : BootstrapArgs).

Section histories.
Context `{Invalidator} `{!HostInvalidator} `{Site} `{Upstream} `{DomainMixin}.
Context (rules : list ReservedHostRule) (zone_ok : string → bool) (verror_text : verror → string).
(** Tables of the tenants' schemas, messages and settings. *)
Context (dm : ShardDb → string → option (list MigRow)) (us : ShardDb → string → option (list UserRow)).
Context (blocked : Blocked → string) (fmt : Z → string) (vp : string → res (list string) unit).
Context (cu : string → string → string → ShardDb → Z * ShardDb) (ns : ShardDb → list (string * string * option string * option string)).
Context (dbn : string → string) (databases : list string) (refused : DomainInst → Srv → option form_error).

Definition run_program (p : Program) : CM unit :=
  match p with
  | Serve r => serve rules zone_ok dm us blocked fmt vp cu ns dbn databases r
  | AdminSaveDomain seq pk p => ignore (domain_form_save rules refused seq pk p)
  | AdminDeleteDomains pks => delete_domains pks
  | SyncTimezone schema tz => ignore (sync_tenant_timezone schema tz)
  | MigrateSchemas env ou sy o dir => ignore (up (handle env ou sy o dir))
  | LegacyMigrateSchemas order o => up (legacy_handle order None (λ o p, up_run o p.1) o)
  | ProvisionTenant pk => ignore (up (provision_tenant pk))
  | MigrationLeaseCommand l rel force => ignore (up (lease_handle l rel force))
  | SyncShards dbs activate seq => ignore (up (sync_shards dbs activate seq))
  | DropTenantSchema dbs alias schema ni ans => ignore (up (drop_tenant_schema dbs alias schema ni ans))
  | CreateTenantSchema schema => ignore (up (create_tenant_schema schema))
  | BootstrapPublic seq dseq domain user seed => ignore (bootstrap_public verror_text seq dseq domain user seed)
  | BootstrapTenant seq dseq env ou o seed a => ignore (bootstrap_tenant rules verror_text seq dseq env ou o seed a)
  end.

(** One after another; an exception ends its program only. *)
Fixpoint run_history (ps : list Program) (s : CS) : CS :=
  match ps with [] => s | p :: ps' => run_history ps' (run_program p s).2 end.

Context (D P : Z → bool) (X : string → Prop).

(** The keys a program brings along; [X] has the hosts that --force lets pass and
    those the domain form takes for the public tenant, where they are not canonical;
    the seeding of accounts has tables of its own. *)
Definition program_fits (p : Program) : Prop :=
  match p with
  | Serve r => keys_fit D P r
  | AdminSaveDomain _ _ p => host_fits P X p
  | SyncShards _ _ seq => ∀ n, D (seq n) = false
  | BootstrapPublic _ _ _ _ seed => csteps (keeps_good D P X) seed
  | BootstrapTenant seq _ _ _ _ seed a =>
      P seq = false ∧ (ba_force a = true → accepted X (normalize_host (normalize_host (ba_domain a))))
      ∧ ∀ t, csteps (keeps_good D P X) (seed t)
  | _ => True
  end.

Lemma program_good p :
  (∀ a b, D a = true → D b = true → a = b) → program_fits p → csteps (keeps_good D P X) (run_program p).
Proof.
  intros Hone Hp. destruct p; unfold run_program, ignore; try (apply csteps_bind; [exact _| |intros; apply csteps_ret, _]);
    try (apply csteps_up; auto using stays_handle, stays_legacy, stays_provision_task, stays_lease_command,
      stays_sync_shards, stays_drop, stays_create; fail).
  - by apply serve_good.
  - by apply domain_form_good.
  - apply delete_domains_good.
  - apply stays_timezone.
  - by apply stays_public.
  - destruct Hp as (? & ? & ?). by apply stays_bootstrap.
Qed.


End histories.

(** acme is upgraded, beta registered and provisioned, the shards synced and an
    admin adds a tenant, while another client deactivates acme.  On the domain pages
    acme's host is changed, a host with a mistyped dot is given to the public tenant,
    another such host is refused to acme, and a host of the public tenant deleted;
    the form's own checks let everything pass here. *)
#[local] Instance upstream_runs : Upstream := toy_upstream None.

Definition mistyped : string := "admin.example.com" +:+ String (Ascii.ascii_of_nat 9) ".".
Definition stored_as : string := "admin.example.com" +:+ String (Ascii.ascii_of_nat 9) "".

Definition a_day : list Program :=
  [ProvisionTenant 1; BootstrapTenant 5 50 boot_env (mkOutside false (λ _, false) false [] None) plain_opts (λ _, cret tt) (beta_args "beta.example.com");
   SyncShards ["default"; "shard1"; "shard_eu"] false (λ n, Z.of_nat (100 + n)); Serve (AdminAdd 3 "Gamma" (mkTenantPost (Some "NEW") "NEW" false "Gamma Ltd" "" 2 None));
   SyncTimezone "acme" (Some "Europe/Kyiv"); AdminSaveDomain 51 (Some 1%Z) (mkDomainPost " ACME.example.org. " 1 true);
   AdminSaveDomain 52 None (mkDomainPost mistyped 9 true); AdminSaveDomain 53 None (mkDomainPost mistyped 1 true); AdminDeleteDomains [9%Z]].

Definition day_after : CS :=
  run_history [] (λ _, true) (λ _, "invalid") no_rows no_users blocked_text py_int (λ _, Ok tt) (λ _ _ _ db, (1%Z, db)) (λ _, []) id
    ["default"; "shard1"; "shard_eu"] (λ _ _, None) a_day (start (full_world ACTIVE [deactivated_elsewhere])).

(** The programs did their work: two tenants and a shard more, and the hosts. *)
Example a_day_registers :
  (t_schema_name <$> g_tenants (cs_reg day_after) !! 5%Z) = Some "beta"
  ∧ (t_schema_name <$> g_tenants (cs_reg day_after) !! 3%Z) = Some "gamma"
  ∧ (sh_alias <$> g_shards (cs_reg day_after) !! 100%Z) = Some "shard_eu"
  ∧ map_to_list (d_tenant_id <$> g_domains (cs_reg day_after))
    = [("acme.example.org", 1%Z); (stored_as, 9%Z); ("beta.example.com", 5%Z)].
Proof. by vm_compute. Qed.

