(* ===== verification/BizDb.v ===== *)
(** * The business database of a tenant

    The tables of src/{users,customers,drivers,cars,products,orders,routes}/models.py
    in the schema of one tenant, with the constraints Postgres keeps for them
    (unique columns, foreign keys), and the requests of the REST API on it.

    A request reads the state it finds, [snap], and commits its writes later, in
    one transaction, to the state [db] the other requests have left by then.  Run
    alone, the two are the same.  All reads of a request see one state. *)
From S2P Require Import Prelude PyStr Credentials.
From Stdlib Require Import Ascii QArith.
Local Open Scope Z_scope.
Open Scope tenants_scope.

(** ** Tables *)

(** Rows by primary key, and the sequence that numbers them. *)
Record Table (A : Type) := mkTable { rows : gmap Z A; next : Z }.
Arguments mkTable {A} _ _.
Arguments rows {A} _.
Arguments next {A} _.

Section tables.
Context {A : Type}.

(** INSERT with the next number. *)
Definition add_row (a : A) (t : Table A) : Table A := mkTable (<[next t := a]> (rows t)) (next t + 1).

(** [save()] of an object with a primary key: UPDATE, and INSERT when no row was there. *)
Definition put_row (pk : Z) (a : A) (t : Table A) : Table A := mkTable (<[pk := a]> (rows t)) (next t).

Definition set_rows (f : gmap Z A → gmap Z A) (t : Table A) : Table A := mkTable (f (rows t)) (next t).

Definition del_row (pk : Z) : Table A → Table A := set_rows (delete pk).

(** Some row other than [pk]'s has the property. *)
Definition any_other (pk : option Z) (p : A → bool) (t : Table A) : bool :=
  existsb (λ ka, negb (bool_decide (Some ka.1 = pk)) && p ka.2) (map_to_list (rows t)).

Definition has (pk : Z) (t : Table A) : bool := bool_decide (is_Some (rows t !! pk)).

(** The row of a OneToOneField, and its key. *)
Definition find_row (p : A → bool) (t : Table A) : option (Z * A) :=
  List.find (λ ka, p ka.2) (map_to_list (rows t)).

End tables.

(** ** Rows *)

Record Account := mkAccount {
  ac_username : string;
  ac_first_name : string;
  ac_last_name : string;
  ac_email : string;
  ac_password : string;        (** hashed *)
  ac_role : Role;
}.

Record Customer := mkCustomer { cu_user : Z; cu_phone : string; cu_address : string; cu_created_at : Z }.

(** A date: year, month, day. *)
Definition Date : Type := Z * Z * Z.

Record Driver := mkDriver { dr_user : Z; dr_date_of_birth : Date; dr_license_number : string; dr_created_at : Z }.

Record Car := mkCar { ca_brand : string; ca_model : string; ca_year : Z; ca_license_plate : string; ca_created_at : Z }.

(** A price in cents. *)
Record Product := mkProduct { pr_name : string; pr_price : Z }.

Inductive OrderStatus := DRAFT | PLACED | IN_ROUTE | DELIVERED | CANCELLED.
#[global] Instance OrderStatus_eq_dec : EqDecision OrderStatus.
Proof. solve_decision. Defined.

Record Order := mkOrder {
  or_customer : Z;
  or_status : OrderStatus;
  or_created_at : Z;
  or_delivery_address : string;
  or_delivery_point : option (Q * Q);
}.

Record OrderItem := mkItem { it_order : Z; it_product : Z; it_quantity : Z }.

Inductive RouteStatus := R_PLANNED | R_ACTIVE | R_COMPLETED | R_CANCELLED.
#[global] Instance RouteStatus_eq_dec : EqDecision RouteStatus.
Proof. solve_decision. Defined.

Record Route := mkRoute {
  rt_name : string;
  rt_driver : Z;
  rt_car : Z;
  rt_status : RouteStatus;
  rt_created_at : Z;
}.

(** ** The database *)

Record Db := mkDb {
  b_users : Table Account;
  b_customers : Table Customer;
  b_drivers : Table Driver;
  b_cars : Table Car;
  b_products : Table Product;
  b_orders : Table Order;
  b_items : Table OrderItem;
  b_routes : Table Route;
  b_route_orders : gset (Z * Z);       (** the rows (route, order) of [Route.orders] *)
  b_now : Z;
}.

Definition set_users f b := mkDb (f (b_users b)) (b_customers b) (b_drivers b) (b_cars b) (b_products b)
  (b_orders b) (b_items b) (b_routes b) (b_route_orders b) (b_now b).
Definition set_customers f b := mkDb (b_users b) (f (b_customers b)) (b_drivers b) (b_cars b) (b_products b)
  (b_orders b) (b_items b) (b_routes b) (b_route_orders b) (b_now b).
Definition set_drivers f b := mkDb (b_users b) (b_customers b) (f (b_drivers b)) (b_cars b) (b_products b)
  (b_orders b) (b_items b) (b_routes b) (b_route_orders b) (b_now b).
Definition set_cars f b := mkDb (b_users b) (b_customers b) (b_drivers b) (f (b_cars b)) (b_products b)
  (b_orders b) (b_items b) (b_routes b) (b_route_orders b) (b_now b).
Definition set_products f b := mkDb (b_users b) (b_customers b) (b_drivers b) (b_cars b) (f (b_products b))
  (b_orders b) (b_items b) (b_routes b) (b_route_orders b) (b_now b).
Definition set_orders f b := mkDb (b_users b) (b_customers b) (b_drivers b) (b_cars b) (b_products b)
  (f (b_orders b)) (b_items b) (b_routes b) (b_route_orders b) (b_now b).
Definition set_items f b := mkDb (b_users b) (b_customers b) (b_drivers b) (b_cars b) (b_products b)
  (b_orders b) (f (b_items b)) (b_routes b) (b_route_orders b) (b_now b).
Definition set_routes f b := mkDb (b_users b) (b_customers b) (b_drivers b) (b_cars b) (b_products b)
  (b_orders b) (b_items b) (f (b_routes b)) (b_route_orders b) (b_now b).
Definition set_route_orders f b := mkDb (b_users b) (b_customers b) (b_drivers b) (b_cars b) (b_products b)
  (b_orders b) (b_items b) (b_routes b) (f (b_route_orders b)) (b_now b).

(** ** Requests *)

Inductive BErr :=
| NotAuthenticated
| PermissionDenied (msg : string)
| NotFound (msg : string)
| Invalid (errors : list (string * string))     (** the error dict of a serializer: field, message *)
| IntegrityError                                (** a constraint, checked by Postgres *)
| ProtectedError.                               (** [on_delete=PROTECT] *)

Definition H (A : Type) : Type := Db → Db → res BErr A * Db.

Definition hret {A} (a : A) : H A := λ _ db, (Ok a, db).
Definition hraise {A} (e : BErr) : H A := λ _ db, (Err e, db).
Definition hbind {A B} (m : H A) (k : A → H B) : H B := λ snap db,
  match m snap db with (Ok a, db') => k a snap db' | (Err e, db') => (Err e, db') end.

(** A read of the request. *)
Definition hread {A} (f : Db → A) : H A := λ snap db, (Ok (f snap), db).

(** A check on the state read. *)
Definition hcheck {A} (f : Db → res BErr A) : H A := λ snap db, (f snap, db).

(** A transaction: its result and state, or an error and no change. *)
Definition hsave {A} (f : Db → res BErr (A * Db)) : H A := λ _ db,
  match f db with Ok (a, db') => (Ok a, db') | Err e => (Err e, db) end.

Notation "x <-% m ;; k" := (hbind m (λ x, k))
  (at level 60, m at next level, right associativity) : tenants_scope.
Notation "m %;; k" := (hbind m (λ _, k))
  (at level 60, right associativity) : tenants_scope.

(** The permission check of DRF: 401 without a user, else 403. *)
Definition permitted (allowed : option User → bool) (user : option User) : H User :=
  match user with
  | None => hraise NotAuthenticated
  | Some u =>
      if allowed user then hret u
      else hraise (PermissionDenied "You do not have permission to perform this action.")
  end.

Definition not_found : BErr := NotFound "Not found.".

(** ** Fields of a serializer *)

Definition Errors : Type := list (string * string).

(** What was found wrong, if anything, or the value. *)
Definition when_valid {A} (errors : Errors) (k : res BErr A) : res BErr A :=
  match errors with [] => k | _ => Err (Invalid errors) end.

(** A field that must be there unless the update is partial. *)
Definition required {A} (partial : bool) (field : string) (o : option A) : Errors :=
  match o with
  | None => if partial then [] else [(field, "This field is required.")]
  | Some _ => []
  end.

Definition in_quotes (s : string) : string := String (ascii_of_nat 34) (s +:+ String (ascii_of_nat 34) "").

(** [PrimaryKeyRelatedField]: the object must exist. *)
Definition related {A} (field : string) (t : Table A) (o : option Z) : Errors :=
  match o with
  | Some pk => if has pk t then [] else [(field, "Invalid pk " +:+ in_quotes (py_int pk) +:+ " - object does not exist.")]
  | None => []
  end.

(** A constraint checked by Postgres in a transaction. *)
Definition enforce {A} (b : bool) (k : res BErr A) : res BErr A := if b then k else Err IntegrityError.
