(* ===== verification/Orders.v ===== *)
(** * Orders

    Models src/orders/serializers.py and src/orders/views.py. *)
From S2P Require Import Prelude PyStr Credentials BizDb.
Local Open Scope Z_scope.
Open Scope tenants_scope.

(** ** The serializer *)

(** An item of the request: the product's key, the quantity if given. *)
Record ItemAttrs := mkItemAttrs { ia_product : Z; ia_quantity : option Z }.

Record OrderAttrs := mkOrderAttrs {
  oa_customer : option Z;
  oa_status : option OrderStatus;
  oa_items : option (list ItemAttrs);
}.

(** The largest PositiveIntegerField. *)
Definition MAX_INT : Z := 2147483647.

(** [OrderItemSerializer]: the product exists, the quantity passes the validators. *)
Definition item_ok (db : Db) (i : ItemAttrs) : bool :=
  has (ia_product i) (b_products db)
  && match ia_quantity i with Some n => (1 <=? n) && (n <=? MAX_INT) | None => true end.

(** The first product listed a second time. *)
Fixpoint first_repeat (seen : list Z) (items : list ItemAttrs) : option Z :=
  match items with
  | [] => None
  | i :: items' => if mem (ia_product i) seen then Some (ia_product i) else first_repeat (ia_product i :: seen) items'
  end.

Definition validate_items (db : Db) (items : list ItemAttrs) : Errors :=
  match items with
  | [] => [("items", "Order must contain at least one item.")]
  | _ =>
      match first_repeat [] items with
      | Some p =>
          let name := match rows (b_products db) !! p with Some r => pr_name r | None => "" end in
          [("items", "Product '" +:+ name +:+ "' listed more than once — bump quantity instead.")]
      | None => []
      end
  end.

(** [is_valid(raise_exception=True)]. *)
Definition validated (partial : bool) (a : OrderAttrs) (db : Db) : res BErr OrderAttrs :=
  when_valid
    (related "customer" (b_customers db) (oa_customer a)
     ++ required partial "items" (oa_items a)
     ++ match oa_items a with
        | Some items => if forallb (item_ok db) items then validate_items db items else [("items", "Invalid item.")]
        | None => []
        end)
    (Ok a).

(** [bulk_create] of the items of an order; the foreign keys and the constraint
    [unique_product_per_order] are checked by the database. *)
Definition item_free (order : Z) (i : ItemAttrs) (db : Db) : bool :=
  has order (b_orders db) && has (ia_product i) (b_products db)
  && negb (any_other None (λ r, (it_order r =? order) && (it_product r =? ia_product i)) (b_items db)).

Fixpoint bulk_create (order : Z) (items : list ItemAttrs) (db : Db) : res BErr Db :=
  match items with
  | [] => Ok db
  | i :: items' =>
      enforce (item_free order i db)
        (bulk_create order items' (set_items (add_row (mkItem order (ia_product i) (default 1 (ia_quantity i)))) db))
  end.

(** [OrderSerializer.create] with the validated data. *)
Definition create (customer : Z) (a : OrderAttrs) (db : Db) : res BErr (Z * Db) :=
  let pk := next (b_orders db) in
  let row := mkOrder customer (default PLACED (oa_status a)) (b_now db) "" None in
  enforce (has customer (b_customers db))
    (db' <-? bulk_create pk (default [] (oa_items a)) (set_orders (add_row row) db) ;; Ok (pk, db')).

(** [OrderSerializer.update]: the instance as it was read, with the fields set. *)
Definition update (pk : Z) (instance : Order) (customer : option Z) (a : OrderAttrs) (db : Db) : res BErr (Z * Db) :=
  let row := mkOrder (default (or_customer instance) customer) (default (or_status instance) (oa_status a))
               (or_created_at instance) (or_delivery_address instance) (or_delivery_point instance) in
  enforce (has (or_customer row) (b_customers db))
    (let saved := set_orders (put_row pk row) db in
     match oa_items a with
     | None => Ok (pk, saved)
     | Some items =>
         db' <-? bulk_create pk items
                   (set_items (set_rows (filter (λ kr, it_order kr.2 ≠ pk))) saved) ;; Ok (pk, db')
     end).

(** [instance.delete()]: the items and the rows of [Route.orders] go with it. *)
Definition delete_order (pk : Z) (db : Db) : res BErr (unit * Db) :=
  Ok (tt, set_orders (del_row pk)
            (set_items (set_rows (filter (λ kr, it_order kr.2 ≠ pk)))
               (set_route_orders (filter (λ ro, ro.2 ≠ pk)) db))).

(** ** The viewset *)

(** The data of an order: its key and row, and its items. *)
Definition OrderData : Type := Z * Order * list OrderItem.

Definition items_of (db : Db) (pk : Z) : list OrderItem :=
  snd <$> map_to_list (filter (λ kr, it_order kr.2 = pk) (rows (b_items db))).
Definition order_data (db : Db) (pk : Z) : option OrderData :=
  (λ r, (pk, r, items_of db pk)) <$> rows (b_orders db) !! pk.

(** The user id of a customer. *)
Definition user_of_customer (db : Db) (customer : Z) : option Z := cu_user <$> rows (b_customers db) !! customer.

Definition in_queryset (user : User) (db : Db) (r : Order) : bool :=
  if bool_decide (u_role user = CUSTOMER) then bool_decide (user_of_customer db (or_customer r) = Some (u_id user))
  else true.

Definition get_queryset (user : User) (db : Db) : list Z :=
  fst <$> map_to_list (filter (λ kr, in_queryset user db kr.2) (rows (b_orders db))).

Definition get_object (user : User) (pk : Z) (db : Db) : res BErr Order :=
  match rows (b_orders db) !! pk with
  | Some r => if in_queryset user db r then Ok r else Err not_found
  | None => Err not_found
  end.

Definition _customer_for_request (user : User) (db : Db) : res BErr Z :=
  match find_row (λ c, cu_user c =? u_id user) (b_customers db) with
  | Some (pk, _) => Ok pk
  | None => Err (Invalid [("", "Customer profile is not set up for this account; ask the company admin.")])
  end.

Definition perform_create (user : User) (a : OrderAttrs) : H Z :=
  if bool_decide (u_role user = CUSTOMER) then
    customer <-% hcheck (_customer_for_request user) ;; hsave (create customer a)
  else
    match oa_customer a with
    | None => hraise (Invalid [("customer", "This field is required.")])
    | Some customer => hsave (create customer a)
    end.

Definition owns (user : User) (r : Order) (db : Db) : bool :=
  bool_decide (user_of_customer db (or_customer r) = Some (u_id user)).

Definition perform_update (user : User) (pk : Z) (instance : Order) (a : OrderAttrs) : H Z :=
  if bool_decide (u_role user = CUSTOMER) then
    mine <-% hread (owns user instance) ;;
    if negb mine then hraise (PermissionDenied "You can only edit your own orders.")
    else hsave (update pk instance (Some (or_customer instance)) a)
  else hsave (update pk instance (oa_customer a) a).

Definition perform_destroy (user : User) (pk : Z) (instance : Order) : H unit :=
  mine <-% hread (owns user instance) ;;
  if bool_decide (u_role user = CUSTOMER) && negb mine
  then hraise (PermissionDenied "You can only delete your own orders.")
  else hsave (delete_order pk).

Section endpoints.
Context (use_multitenant : bool) (schema_name : option string) (user : option User).

Definition allowed : option User → bool := IsCompanyAdminOrCustomer use_multitenant schema_name.

(** The data of the saved object, read back. *)
Definition respond (pk : Z) : H (option OrderData) := λ _ db, (Ok (order_data db pk), db).

Definition list_orders : H (list OrderData) :=
  u <-% permitted allowed user ;; hread (λ db, omap (order_data db) (get_queryset u db)).

Definition retrieve (pk : Z) : H OrderData :=
  u <-% permitted allowed user ;;
  hcheck (λ db, r <-? get_object u pk db ;; Ok (pk, r, items_of db pk)).

Definition post (a : OrderAttrs) : H (option OrderData) :=
  u <-% permitted allowed user ;;
  a <-% hcheck (validated false a) ;;
  pk <-% perform_create u a ;; respond pk.

(** PUT, and PATCH when [partial]. *)
Definition put (partial : bool) (pk : Z) (a : OrderAttrs) : H (option OrderData) :=
  u <-% permitted allowed user ;;
  instance <-% hcheck (get_object u pk) ;;
  a <-% hcheck (validated partial a) ;;
  pk <-% perform_update u pk instance a ;; respond pk.

Definition destroy (pk : Z) : H unit :=
  u <-% permitted allowed user ;;
  instance <-% hcheck (get_object u pk) ;;
  perform_destroy u pk instance.

End endpoints.
