(* ===== verification/Routes.v ===== *)
(** * Routes

    Models src/routes/serializers.py and src/routes/views.py. *)
From S2P Require Import Prelude PyStr Credentials BizDb.
Local Open Scope Z_scope.
Open Scope tenants_scope.

(** ** The serializer *)

Record RouteAttrs := mkRouteAttrs {
  ra_name : option string;
  ra_driver : option Z;
  ra_car : option Z;
  ra_orders : option (list Z);
  ra_status : option RouteStatus;
}.

(** The statuses of a route that occupies its driver and car. *)
Definition OPEN : list RouteStatus := [R_PLANNED; R_ACTIVE].
Definition open_route (r : Route) : bool := mem (rt_status r) OPEN.

(** The fields, one by one. *)
Definition name_errors (o : option string) : Errors :=
  match o with
  | Some s =>
      if String.eqb s "" then [("name", "This field may not be blank.")]
      else if (120 <? String.length s)%nat then [("name", "Ensure this field has no more than 120 characters.")]
      else []
  | None => []
  end.

Definition field_errors (partial : bool) (a : RouteAttrs) (db : Db) : Errors :=
  required partial "name" (ra_name a) ++ name_errors (ra_name a)
  ++ required partial "driver" (ra_driver a) ++ related "driver" (b_drivers db) (ra_driver a)
  ++ required partial "car" (ra_car a) ++ related "car" (b_cars db) (ra_car a)
  ++ match ra_orders a with
     | Some pks => if forallb (λ pk, has pk (b_orders db)) pks then [] else [("orders", "Invalid pk - object does not exist.")]
     | None => []
     end.

(** [attrs.get(field, getattr(self.instance, field, None))]. *)
Definition or_instance {A} (attr : option A) (field : Route → A) (instance : option (Z * Route)) : option A :=
  match attr with Some a => Some a | None => field ∘ snd <$> instance end.

Definition validate (instance : option (Z * Route)) (a : RouteAttrs) (db : Db) : res BErr RouteAttrs :=
  let status := default R_PLANNED (or_instance (ra_status a) rt_status instance) in
  if mem status OPEN then
    let qs := any_other (fst <$> instance) in
    if match or_instance (ra_driver a) rt_driver instance with
       | Some d => qs (λ r, open_route r && (rt_driver r =? d)) (b_routes db)
       | None => false
       end
    then Err (Invalid [("driver", "Driver already assigned to another active route.")])
    else if match or_instance (ra_car a) rt_car instance with
            | Some c => qs (λ r, open_route r && (rt_car r =? c)) (b_routes db)
            | None => false
            end
    then Err (Invalid [("car", "Car already assigned to another active route.")])
    else Ok a
  else Ok a.

Definition validated (partial : bool) (instance : option (Z * Route)) (a : RouteAttrs) (db : Db) : res BErr RouteAttrs :=
  when_valid (field_errors partial a db) (validate instance a db).

(** The orders of a route. *)
Definition orders_of (db : Db) (route : Z) : gset Z := set_map snd (filter (λ ro, ro.1 = route) (b_route_orders db)).

(** [route.orders.set(orders)]; the database checks the keys. *)
Definition set_route (route : Z) (orders : list Z) (db : Db) : res BErr Db :=
  enforce (forallb (λ pk, has pk (b_orders db)) orders)
    (Ok (set_route_orders (λ rel, filter (λ ro, ro.1 ≠ route) rel ∪ list_to_set (pair route <$> orders)) db)).

(** [route.orders.update(status=...)]. *)
Definition update_orders (route : Z) (status : OrderStatus) (db : Db) : Db :=
  set_orders (set_rows (map_imap (λ pk r, Some (
    if bool_decide ((route, pk) ∈ b_route_orders db)
    then mkOrder (or_customer r) status (or_created_at r) (or_delivery_address r) (or_delivery_point r) else r)))) db.

Definition _sync_order_status (pk : Z) (status : RouteStatus) (db : Db) : Db :=
  match status with
  | R_ACTIVE => update_orders pk IN_ROUTE db
  | R_COMPLETED => update_orders pk DELIVERED db
  | _ => db
  end.

(** A row whose driver and car exist. *)
Definition route_fk (r : Route) (db : Db) : bool := has (rt_driver r) (b_drivers db) && has (rt_car r) (b_cars db).

Definition create (name : string) (driver car : Z) (a : RouteAttrs) (db : Db) : res BErr (Z * Db) :=
  let pk := next (b_routes db) in
  let route := mkRoute name driver car (default R_PLANNED (ra_status a)) (b_now db) in
  enforce (route_fk route db)
    (let db1 := set_routes (add_row route) db in
     match ra_orders a with
     | None | Some [] => Ok (pk, db1)
     | Some orders => db2 <-? set_route pk orders db1 ;; Ok (pk, _sync_order_status pk (rt_status route) db2)
     end).

Definition update (pk : Z) (instance : Route) (a : RouteAttrs) (db : Db) : res BErr (Z * Db) :=
  let route := mkRoute (default (rt_name instance) (ra_name a)) (default (rt_driver instance) (ra_driver a))
                 (default (rt_car instance) (ra_car a)) (default (rt_status instance) (ra_status a)) (rt_created_at instance) in
  enforce (route_fk route db)
    (let db1 := set_routes (put_row pk route) db in
     db2 <-? match ra_orders a with Some orders => set_route pk orders db1 | None => Ok db1 end ;;
     Ok (pk, _sync_order_status pk (rt_status route) db2)).

(** The rows of [Route.orders] go with the route. *)
Definition delete_route (pk : Z) (db : Db) : res BErr (unit * Db) :=
  Ok (tt, set_routes (del_row pk) (set_route_orders (filter (λ ro, ro.1 ≠ pk)) db)).

(** ** The viewset *)

(** A route and the keys of its orders. *)
Definition RouteData : Type := Z * Route * list Z.
Definition route_data (db : Db) (pk : Z) : option RouteData :=
  (λ r, (pk, r, elements (orders_of db pk))) <$> rows (b_routes db) !! pk.

Definition user_of_driver (db : Db) (driver : Z) : option Z := dr_user <$> rows (b_drivers db) !! driver.

(** The customer's user of an order. *)
Definition user_of_order (db : Db) (order : Z) : option Z :=
  r ← rows (b_orders db) !! order; cu_user <$> rows (b_customers db) !! or_customer r.

Definition in_queryset (user : User) (db : Db) (pk : Z) (r : Route) : bool :=
  match u_role user with
  | DRIVER => bool_decide (user_of_driver db (rt_driver r) = Some (u_id user))
  | CUSTOMER => existsb (λ o, bool_decide (user_of_order db o = Some (u_id user))) (elements (orders_of db pk))
  | _ => true
  end.

Definition get_queryset (user : User) (db : Db) : list Z :=
  fst <$> map_to_list (filter (λ kr, in_queryset user db kr.1 kr.2) (rows (b_routes db))).

Definition get_object (user : User) (pk : Z) (db : Db) : res BErr Route :=
  match rows (b_routes db) !! pk with
  | Some r => if in_queryset user db pk r then Ok r else Err not_found
  | None => Err not_found
  end.

Section endpoints.
Context (use_multitenant : bool) (schema_name : option string) (user : option User).

(** [get_permissions]: [IsAuthenticated] for reads, [IsCompanyAdmin] else. *)
Definition read_allowed (u : option User) : bool := bool_decide (is_Some u).
Definition write_allowed : option User → bool := IsCompanyAdmin use_multitenant schema_name.

Definition list_routes : H (list RouteData) :=
  u <-% permitted read_allowed user ;; hread (λ db, omap (route_data db) (get_queryset u db)).

Definition retrieve (pk : Z) : H RouteData :=
  u <-% permitted read_allowed user ;;
  hcheck (λ db, r <-? get_object u pk db ;; Ok (pk, r, elements (orders_of db pk))).

Definition respond (pk : Z) : H (option RouteData) := λ _ db, (Ok (route_data db pk), db).

(** The fields a full validation has made sure of. *)
Definition save_new (a : RouteAttrs) : H Z :=
  match ra_name a, ra_driver a, ra_car a with
  | Some name, Some driver, Some car => hsave (create name driver car a)
  | _, _, _ => hraise (Invalid [])
  end.

Definition post (a : RouteAttrs) : H (option RouteData) :=
  permitted write_allowed user %;;
  a <-% hcheck (validated false None a) ;;
  pk <-% save_new a ;; respond pk.

(** PUT, and PATCH when [partial]. *)
Definition put (partial : bool) (pk : Z) (a : RouteAttrs) : H (option RouteData) :=
  u <-% permitted write_allowed user ;;
  instance <-% hcheck (get_object u pk) ;;
  a <-% hcheck (validated partial (Some (pk, instance)) a) ;;
  pk <-% hsave (update pk instance a) ;; respond pk.

Definition destroy (pk : Z) : H unit :=
  u <-% permitted write_allowed user ;;
  hcheck (get_object u pk) %;;
  hsave (delete_route pk).

End endpoints.
