(* ===== verification/Accounts.v ===== *)
(** * Drivers and customers

    Models src/drivers/{models,serializers,views}.py and
    src/customers/{models,serializers,views}.py: a profile and the account behind
    it are written together.  What Django does with passwords, usernames and
    e-mail addresses ([validate_password], [set_password], the normalisations of
    [create_user]) is an argument. *)
From S2P Require Import Prelude PyStr Credentials BizDb.
From Stdlib Require Import Ascii.
Local Open Scope Z_scope.
Open Scope tenants_scope.

(** ** Strings *)

(** [str.upper] (up to U+00FF; the two letters whose capital lies beyond it stay). *)
Definition py_upper_char (c : ascii) : list ascii :=
  if is_lower c || (in_range 224 254 c && negb (code c =? 247)%N) then [ascii_of_N (code c - 32)]
  else if (code c =? 223)%N then ["S"%char; "S"%char] else [c].
Definition py_upper (s : string) : string := of_chars (chars s ≫= py_upper_char).

Definition is_AZ (c : ascii) : bool := in_range 65 90 c.
Definition char_in (s : string) (c : ascii) : bool := mem c (chars s).

Definition length_in (lo hi : nat) (s : string) : bool := (lo <=? String.length s)%nat && (String.length s <=? hi)%nat.

(** ^[A-Z0-9\-]{4,32}$, on a value without surrounding blanks. *)
Definition license_re (s : string) : bool := length_in 4 32 s && str_forall (λ c, is_AZ c || is_09 c || char_in "-" c) s.

(** ^\+?[0-9 \-()]{6,32}$ *)
Definition phone_rest (s : string) : bool := length_in 6 32 s && str_forall (λ c, is_09 c || char_in " -()" c) s.
Definition phone_re (s : string) : bool :=
  match s with String "+" s' => phone_rest s' | _ => phone_rest s end.

(** ** Accounts *)

Record UserAttrs := mkUserAttrs {
  ua_username : option string;
  ua_first_name : option string;
  ua_last_name : option string;
  ua_email : option string;
}.

(** The nested dict [user] of the validated data. *)
Definition no_user_data (a : UserAttrs) : bool :=
  match a with mkUserAttrs None None None None => true | _ => false end.

Definition validate_username (user_id : option Z) (value : option string) (db : Db) : Errors :=
  match value with
  | Some name => if any_other user_id (λ u, String.eqb (ac_username u) name) (b_users db)
                 then [("username", "This login is already in use.")] else []
  | None => []
  end.

Section django.
Context (validate_password : string → bool) (make_password norm_username norm_email : string → string).

(** The serializers' [validate]. *)
Definition validate (creating : bool) (password : option string) : Errors :=
  match password with
  | Some p => if validate_password p then [] else [("password", "invalid")]
  | None => if creating then [("password", "Password is required.")] else []
  end.

(** Saving an account: its username is unique. *)
Definition username_free (pk : option Z) (a : Account) (db : Db) : bool :=
  negb (any_other pk (λ u, String.eqb (ac_username u) (ac_username a)) (b_users db)).

Definition create_user (a : UserAttrs) (password : string) (role : Role) (db : Db) : res BErr (Z * Db) :=
  let u := mkAccount (norm_username (default "" (ua_username a))) (default "" (ua_first_name a))
             (default "" (ua_last_name a)) (norm_email (default "" (ua_email a))) (make_password password) role in
  enforce (username_free None u db) (Ok (next (b_users db), set_users (add_row u) db)).

(** The account of a profile, updated: the fields given, then the password. *)
Definition set_user (a : UserAttrs) (password : option string) (u : Account) : Account :=
  mkAccount (default (ac_username u) (ua_username a)) (default (ac_first_name u) (ua_first_name a))
    (default (ac_last_name u) (ua_last_name a)) (default (ac_email u) (ua_email a))
    (match password with Some p => if String.eqb p "" then ac_password u else make_password p | None => ac_password u end)
    (ac_role u).

Definition update_user (pk : Z) (u : Account) (a : UserAttrs) (password : option string) (db : Db) : res BErr Db :=
  if no_user_data a && (match password with Some p => String.eqb p "" | None => true end) then Ok db
  else
    let u' := set_user a password u in
    enforce (username_free (Some pk) u' db) (Ok (set_users (put_row pk u') db)).

(** ** Drivers *)

Record DriverAttrs := mkDriverAttrs {
  da_user : UserAttrs;
  da_password : option string;
  da_date_of_birth : option Date;
  da_license_number : option string;
}.

Definition MIN_DRIVER_AGE : Z := 18.

(** Comparison of dates, and of (month, day) pairs. *)
Definition md_lt (a b : Z * Z) : bool := (a.1 <? b.1) || ((a.1 =? b.1) && (a.2 <? b.2)).
Definition date_lt (a b : Date) : bool :=
  (a.1.1 <? b.1.1) || ((a.1.1 =? b.1.1) && md_lt (a.1.2, a.2) (b.1.2, b.2)).

Definition age_on (today value : Date) : Z :=
  today.1.1 - value.1.1 - (if md_lt (today.1.2, today.2) (value.1.2, value.2) then 1 else 0).

Definition validate_date_of_birth (today : Date) (value : option Date) : Errors :=
  match value with
  | Some d =>
      if date_lt today d then [("date_of_birth", "Date of birth cannot be in the future.")]
      else if age_on today d <? MIN_DRIVER_AGE
      then [("date_of_birth", "Driver must be at least " +:+ py_int MIN_DRIVER_AGE +:+ " years old.")] else []
  | None => []
  end.

(** The license number: the validators of the model field, then [validate_license_number]. *)
Definition license_errors (pk : option Z) (value : option string) (db : Db) : Errors :=
  match value with
  | Some s =>
      (if license_re s then [] else [("license_number", "License number must be 4-32 chars: A-Z, 0-9, dash.")])
      ++ (if any_other pk (λ d, String.eqb (dr_license_number d) s) (b_drivers db)
          then [("license_number", "driver with this license number already exists.")] else [])
  | None => []
  end.
Definition validate_license_number (value : string) : string := py_strip (py_upper value).

Definition driver_validated (today : Date) (partial : bool) (instance : option (Z * Driver)) (a : DriverAttrs) (db : Db)
    : res BErr DriverAttrs :=
  when_valid
    (required partial "username" (ua_username (da_user a)) ++ required partial "first_name" (ua_first_name (da_user a))
     ++ required partial "last_name" (ua_last_name (da_user a)) ++ required partial "date_of_birth" (da_date_of_birth a)
     ++ required partial "license_number" (da_license_number a)
     ++ validate_username (dr_user ∘ snd <$> instance) (ua_username (da_user a)) db
     ++ validate_date_of_birth today (da_date_of_birth a)
     ++ license_errors (fst <$> instance) (da_license_number a) db)
    (when_valid (validate (bool_decide (instance = None)) (da_password a))
       (Ok (mkDriverAttrs (da_user a) (da_password a) (da_date_of_birth a) (validate_license_number <$> da_license_number a)))).

(** [Driver.save]: the number normalised; unique, like the user. *)
Definition save_license (s : string) : string := if String.eqb s "" then s else py_strip (py_upper s).
Definition driver_free (pk : option Z) (d : Driver) (db : Db) : bool :=
  has (dr_user d) (b_users db)
  && negb (any_other pk (λ r, (dr_user r =? dr_user d) || String.eqb (dr_license_number r) (dr_license_number d)) (b_drivers db)).

Definition driver_create (a : DriverAttrs) (password : string) (dob : Date) (license : string) (db : Db) : res BErr (Z * Db) :=
  ud <-? create_user (mkUserAttrs (ua_username (da_user a)) (ua_first_name (da_user a)) (ua_last_name (da_user a)) None)
           password DRIVER db ;;
  let d := mkDriver ud.1 dob (save_license license) (b_now db) in
  enforce (driver_free None d ud.2) (Ok (next (b_drivers db), set_drivers (add_row d) ud.2)).

Definition driver_update (pk : Z) (instance : Driver) (user : Account) (a : DriverAttrs) (db : Db) : res BErr (Z * Db) :=
  db1 <-? update_user (dr_user instance) user (da_user a) (da_password a) db ;;
  let d := mkDriver (dr_user instance) (default (dr_date_of_birth instance) (da_date_of_birth a))
             (save_license (default (dr_license_number instance) (da_license_number a))) (dr_created_at instance) in
  enforce (driver_free (Some pk) d db1) (Ok (pk, set_drivers (put_row pk d) db1)).

(** A driver with routes is protected; the account stays. *)
Definition driver_delete (pk : Z) (db : Db) : res BErr (unit * Db) :=
  if any_other None (λ r, rt_driver r =? pk) (b_routes db) then Err ProtectedError
  else Ok (tt, set_drivers (del_row pk) db).

(** ** Customers *)

Record CustomerAttrs := mkCustomerAttrs {
  ca_user : UserAttrs;
  ca_password : option string;
  ca_phone : option string;
  ca_address : option string;
}.

Definition phone_errors (value : option string) : Errors :=
  match value with
  | Some s => if String.eqb s "" || phone_re s then [] else [("phone", "Phone must be 6-32 chars, digits and +-() space.")]
  | None => []
  end.
Definition address_errors (value : option string) : Errors :=
  match value with
  | Some s => if (255 <? String.length s)%nat then [("address", "Ensure this field has no more than 255 characters.")] else []
  | None => []
  end.

Definition customer_validated (partial : bool) (instance : option (Z * Customer)) (a : CustomerAttrs) (db : Db)
    : res BErr CustomerAttrs :=
  when_valid
    (required partial "username" (ua_username (ca_user a))
     ++ validate_username (cu_user ∘ snd <$> instance) (ua_username (ca_user a)) db
     ++ phone_errors (ca_phone a) ++ address_errors (ca_address a))
    (when_valid (validate (bool_decide (instance = None)) (ca_password a)) (Ok a)).

Definition customer_free (pk : option Z) (c : Customer) (db : Db) : bool :=
  has (cu_user c) (b_users db) && negb (any_other pk (λ r, cu_user r =? cu_user c) (b_customers db)).

Definition customer_create (a : CustomerAttrs) (password : string) (db : Db) : res BErr (Z * Db) :=
  ud <-? create_user (ca_user a) password CUSTOMER db ;;
  let c := mkCustomer ud.1 (default "" (ca_phone a)) (default "" (ca_address a)) (b_now db) in
  enforce (customer_free None c ud.2) (Ok (next (b_customers db), set_customers (add_row c) ud.2)).

Definition customer_update (pk : Z) (instance : Customer) (user : Account) (a : CustomerAttrs) (db : Db) : res BErr (Z * Db) :=
  db1 <-? update_user (cu_user instance) user (ca_user a) (ca_password a) db ;;
  let c := mkCustomer (cu_user instance) (default (cu_phone instance) (ca_phone a))
             (default (cu_address instance) (ca_address a)) (cu_created_at instance) in
  enforce (customer_free (Some pk) c db1) (Ok (pk, set_customers (put_row pk c) db1)).

Definition customer_delete (pk : Z) (db : Db) : res BErr (unit * Db) :=
  if any_other None (λ r, or_customer r =? pk) (b_orders db) then Err ProtectedError
  else Ok (tt, set_customers (del_row pk) db).

(** ** The viewsets *)

Section endpoints.
Context (use_multitenant : bool) (schema_name : option string) (today : Date) (user : option User).

(** A row of a table, or 404. *)
Definition row_or_404 {A} (table : Db → Table A) (pk : Z) (db : Db) : res BErr A :=
  match rows (table db) !! pk with Some r => Ok r | None => Err not_found end.

Definition company_admin : H User := permitted (IsCompanyAdmin use_multitenant schema_name) user.

Definition driver_post (a : DriverAttrs) : H Z :=
  company_admin %;;
  a <-% hcheck (driver_validated today false None a) ;;
  match da_password a, da_date_of_birth a, da_license_number a with
  | Some p, Some dob, Some lic => hsave (driver_create a p dob lic)
  | _, _, _ => hraise (Invalid [])
  end.

Definition driver_put (partial : bool) (pk : Z) (a : DriverAttrs) : H Z :=
  company_admin %;;
  d <-% hcheck (row_or_404 b_drivers pk) ;;
  a <-% hcheck (driver_validated today partial (Some (pk, d)) a) ;;
  u <-% hcheck (row_or_404 b_users (dr_user d)) ;;
  hsave (driver_update pk d u a).

Definition driver_destroy (pk : Z) : H unit :=
  company_admin %;; hcheck (row_or_404 b_drivers pk) %;; hsave (driver_delete pk).

Definition customer_post (a : CustomerAttrs) : H Z :=
  company_admin %;;
  a <-% hcheck (customer_validated false None a) ;;
  match ca_password a with Some p => hsave (customer_create a p) | None => hraise (Invalid []) end.

(** Saving a customer already fetched. *)
Definition customer_save (partial : bool) (pk : Z) (c : Customer) (a : CustomerAttrs) : H Z :=
  a <-% hcheck (customer_validated partial (Some (pk, c)) a) ;;
  u <-% hcheck (row_or_404 b_users (cu_user c)) ;;
  hsave (customer_update pk c u a).

Definition customer_put (partial : bool) (pk : Z) (a : CustomerAttrs) : H Z :=
  company_admin %;;
  c <-% hcheck (row_or_404 b_customers pk) ;;
  customer_save partial pk c a.

Definition customer_destroy (pk : Z) : H unit :=
  company_admin %;; hcheck (row_or_404 b_customers pk) %;; hsave (customer_delete pk).

(** [me]: the caller's own profile, read, or patched when [data] is given. *)
Definition me (data : option CustomerAttrs) : H (Z * Customer) :=
  u <-% permitted (IsCompanyAdminOrCustomer use_multitenant schema_name) user ;;
  if negb (bool_decide (u_role u = CUSTOMER)) then hraise (NotFound "Only customers have a customer profile.")
  else
    c <-% hcheck (λ db, match find_row (λ c, cu_user c =? u_id u) (b_customers db) with
                        | Some c => Ok c
                        | None => Err (NotFound "Customer profile is not set up for this account.")
                        end) ;;
    match data with
    | None => hret c
    | Some a =>
        pk <-% customer_save true c.1 c.2 a ;;
        λ _ db, (Ok (pk, default c.2 (rows (b_customers db) !! pk)), db)
    end.

End endpoints.
End django.
