(* ===== verification/Catalog.v ===== *)
(** * Cars and products

    Models src/cars/{models,serializers,views}.py and
    src/products/{models,serializers,views}.py. *)
From S2P Require Import Prelude PyStr Credentials BizDb Accounts.
From Stdlib Require Import Ascii.
Local Open Scope Z_scope.
Open Scope tenants_scope.

(** ** Cars *)

Record CarAttrs := mkCarAttrs {
  cr_brand : option string;
  cr_model : option string;
  cr_year : option Z;
  cr_license_plate : option string;
}.

(** ^[A-Z0-9\- ]{4,16}$, on a value without surrounding blanks. *)
Definition plate_re (s : string) : bool := length_in 4 16 s && str_forall (λ c, is_AZ c || is_09 c || char_in "- " c) s.

Definition _max_year (today_year : Z) : Z := today_year + 1.

(** A CharField of the model: not blank, at most [n] characters. *)
Definition char_errors (field : string) (n : nat) (value : option string) : Errors :=
  match value with
  | Some s =>
      if String.eqb s "" then [(field, "This field may not be blank.")]
      else if (n <? String.length s)%nat then [(field, "Ensure this field has no more than " +:+ py_int (Z.of_nat n) +:+ " characters.")]
      else []
  | None => []
  end.

Definition year_errors (max_year : Z) (value : option Z) : Errors :=
  match value with
  | Some y => if (1900 <=? y) && (y <=? max_year) then [] else [("year", "out of range")]
  | None => []
  end.

Definition plate_errors (pk : option Z) (value : option string) (db : Db) : Errors :=
  match value with
  | Some s =>
      (if plate_re s then [] else [("license_plate", "License plate must be 4-16 chars: A-Z, 0-9, dash or space.")])
      ++ (if any_other pk (λ c, String.eqb (ca_license_plate c) s) (b_cars db)
          then [("license_plate", "car with this license plate already exists.")] else [])
  | None => []
  end.

Definition validate_license_plate (value : string) : string := py_strip (py_upper value).

(** [loaded] is the year the process started in: the bound is computed once. *)
Definition car_validated (loaded : Z) (partial : bool) (pk : option Z) (a : CarAttrs) (db : Db) : res BErr CarAttrs :=
  when_valid
    (required partial "brand" (cr_brand a) ++ char_errors "brand" 80 (cr_brand a)
     ++ required partial "model" (cr_model a) ++ char_errors "model" 80 (cr_model a)
     ++ required partial "year" (cr_year a) ++ year_errors (_max_year loaded) (cr_year a)
     ++ required partial "license_plate" (cr_license_plate a) ++ plate_errors pk (cr_license_plate a) db)
    (Ok (mkCarAttrs (cr_brand a) (cr_model a) (cr_year a) (validate_license_plate <$> cr_license_plate a))).

(** [Car.save]. *)
Definition save_plate (s : string) : string := if String.eqb s "" then s else py_strip (py_upper s).
Definition plate_free (pk : option Z) (plate : string) (db : Db) : bool :=
  negb (any_other pk (λ c, String.eqb (ca_license_plate c) plate) (b_cars db)).

Definition car_create (brand model : string) (year : Z) (plate : string) (db : Db) : res BErr (Z * Db) :=
  let c := mkCar brand model year (save_plate plate) (b_now db) in
  enforce (plate_free None (ca_license_plate c) db) (Ok (next (b_cars db), set_cars (add_row c) db)).

Definition car_update (pk : Z) (i : Car) (a : CarAttrs) (db : Db) : res BErr (Z * Db) :=
  let c := mkCar (default (ca_brand i) (cr_brand a)) (default (ca_model i) (cr_model a)) (default (ca_year i) (cr_year a))
             (save_plate (default (ca_license_plate i) (cr_license_plate a))) (ca_created_at i) in
  enforce (plate_free (Some pk) (ca_license_plate c) db) (Ok (pk, set_cars (put_row pk c) db)).

Definition car_delete (pk : Z) (db : Db) : res BErr (unit * Db) :=
  if any_other None (λ r, rt_car r =? pk) (b_routes db) then Err ProtectedError
  else Ok (tt, set_cars (del_row pk) db).

(** ** Products *)

Record ProductAttrs := mkProductAttrs { pa_name : option string; pa_price : option Z }.

(** ten digits, two of them decimals *)
Definition MAX_PRICE : Z := 9999999999.

Definition product_errors (pk : option Z) (a : ProductAttrs) (db : Db) : Errors :=
  char_errors "name" 120 (pa_name a)
  ++ match pa_name a with
     | Some s => if any_other pk (λ p, String.eqb (pr_name p) s) (b_products db)
                 then [("name", "product with this name already exists.")] else []
     | None => []
     end
  ++ match pa_price a with
     | Some p => if (0 <=? p) && (p <=? MAX_PRICE) then [] else [("price", "out of range")]
     | None => []
     end.

Definition product_validated (partial : bool) (pk : option Z) (a : ProductAttrs) (db : Db) : res BErr ProductAttrs :=
  when_valid (required partial "name" (pa_name a) ++ required partial "price" (pa_price a) ++ product_errors pk a db) (Ok a).

Definition name_free (pk : option Z) (name : string) (db : Db) : bool :=
  negb (any_other pk (λ p, String.eqb (pr_name p) name) (b_products db)).

Definition product_create (name : string) (price : Z) (db : Db) : res BErr (Z * Db) :=
  enforce (name_free None name db) (Ok (next (b_products db), set_products (add_row (mkProduct name price)) db)).

Definition product_update (pk : Z) (i : Product) (a : ProductAttrs) (db : Db) : res BErr (Z * Db) :=
  let p := mkProduct (default (pr_name i) (pa_name a)) (default (pr_price i) (pa_price a)) in
  enforce (name_free (Some pk) (pr_name p) db) (Ok (pk, set_products (put_row pk p) db)).

Definition product_delete (pk : Z) (db : Db) : res BErr (unit * Db) :=
  if any_other None (λ i, it_product i =? pk) (b_items db) then Err ProtectedError
  else Ok (tt, set_products (del_row pk) db).

(** ** The viewsets *)

Section endpoints.
Context (use_multitenant : bool) (schema_name : option string) (loaded : Z) (user : option User).

Definition car_admin : H User := permitted (IsCompanyAdmin use_multitenant schema_name) user.

Definition car_post (a : CarAttrs) : H Z :=
  car_admin %;;
  a <-% hcheck (car_validated loaded false None a) ;;
  match cr_brand a, cr_model a, cr_year a, cr_license_plate a with
  | Some brand, Some model, Some year, Some plate => hsave (car_create brand model year plate)
  | _, _, _, _ => hraise (Invalid [])
  end.

Definition car_put (partial : bool) (pk : Z) (a : CarAttrs) : H Z :=
  car_admin %;;
  c <-% hcheck (row_or_404 b_cars pk) ;;
  a <-% hcheck (car_validated loaded partial (Some pk) a) ;;
  hsave (car_update pk c a).

Definition car_destroy (pk : Z) : H unit :=
  car_admin %;; hcheck (row_or_404 b_cars pk) %;; hsave (car_delete pk).

Definition product_permitted (method : string) : H User :=
  permitted (IsCompanyAdminOrReadOnly use_multitenant schema_name method) user.

Definition product_post (a : ProductAttrs) : H Z :=
  product_permitted "POST" %;;
  a <-% hcheck (product_validated false None a) ;;
  match pa_name a, pa_price a with
  | Some name, Some price => hsave (product_create name price)
  | _, _ => hraise (Invalid [])
  end.

Definition product_put (partial : bool) (pk : Z) (a : ProductAttrs) : H Z :=
  product_permitted (if partial then "PATCH" else "PUT") %;;
  p <-% hcheck (row_or_404 b_products pk) ;;
  a <-% hcheck (product_validated partial (Some pk) a) ;;
  hsave (product_update pk p a).

Definition product_destroy (pk : Z) : H unit :=
  product_permitted "DELETE" %;; hcheck (row_or_404 b_products pk) %;; hsave (product_delete pk).

(** [generate]: queue the task, or 503 when the broker does not take it. *)
Definition generate (delay : option string) : H (Z * list (string * string)) :=
  product_permitted "POST" %;;
  hret match delay with
       | Some task_id => (202, [("detail", "Generation queued."); ("task_id", task_id); ("count", "2")])
       | None => (503, [("detail", "Task queue is unavailable. Try again later.")])
       end.

End endpoints.
