(* ===== verification/TenantApi.v ===== *)
(** * The invariant of the business database

    Keys, unique columns and foreign keys, kept by every request of the API even
    when the requests interleave: a request may have read any earlier state. *)
From S2P Require Import Prelude PyStr Credentials BizDb Orders Routes Accounts Catalog.
Local Open Scope Z_scope.
Open Scope tenants_scope.

(** ** Tables *)

Section tables.
Context {A : Type}.
Implicit Types t : Table A.

(** The sequence is ahead of the keys. *)
Definition ahead t : Prop := ∀ k, is_Some (rows t !! k) → k < next t.

(** A unique column. *)
Definition uniq {B} (f : A → B) t : Prop :=
  ∀ k1 k2 a1 a2, rows t !! k1 = Some a1 → rows t !! k2 = Some a2 → f a1 = f a2 → k1 = k2.

(** A foreign key into [u]. *)
Definition refers {B} (f : A → Z) t (u : Table B) : Prop := ∀ k a, rows t !! k = Some a → is_Some (rows u !! f a).

(** A check on every row. *)
Definition every (P : A → Prop) t : Prop := ∀ k a, rows t !! k = Some a → P a.

(** Fewer rows, same sequence; and no row lost. *)
Definition shrunk t t' : Prop := rows t' ⊆ rows t ∧ next t' = next t.
Definition grown t t' : Prop := ∀ k, is_Some (rows t !! k) → is_Some (rows t' !! k).

Lemma any_other_false pk p t :
  any_other pk p t = false ↔ ∀ k a, rows t !! k = Some a → Some k ≠ pk → p a = false.
Proof.
  unfold any_other. rewrite existsb_false. split.
  - intros Hx k a Hk Hne. specialize (Hx (k, a)). rewrite elem_of_map_to_list in Hx. specialize (Hx Hk).
    simpl in Hx. by rewrite bool_decide_false in Hx.
  - intros Hx [k a] Hin. apply elem_of_map_to_list in Hin. simpl. case_bool_decide; [done|]. simpl. eauto.
Qed.

Lemma has_true pk t : has pk t = true ↔ is_Some (rows t !! pk).
Proof. unfold has. by rewrite bool_decide_eq_true. Qed.

Lemma lookup_put pk a t k b :
  rows (put_row pk a t) !! k = Some b → (k = pk ∧ b = a) ∨ (k ≠ pk ∧ rows t !! k = Some b).
Proof. simpl. intros Hk. apply lookup_insert_Some in Hk as [[-> ->]|[? ?]]; auto. Qed.

Lemma lookup_add a t k b :
  rows (add_row a t) !! k = Some b → (k = next t ∧ b = a) ∨ (k ≠ next t ∧ rows t !! k = Some b).
Proof. apply lookup_put. Qed.

Lemma ahead_add a t : ahead t → ahead (add_row a t).
Proof. intros Ha k [b Hk]. apply lookup_add in Hk as [[-> _]|[_ Hk]]; simpl; [lia|]. specialize (Ha k (mk_is_Some _ _ Hk)). lia. Qed.
Lemma ahead_put pk a t : ahead t → pk < next t → ahead (put_row pk a t).
Proof. intros Ha Hpk k [b Hk]. apply lookup_put in Hk as [[-> _]|[_ Hk]]; simpl; [done|]. eauto. Qed.
Lemma ahead_shrunk t t' : shrunk t t' → ahead t → ahead t'.
Proof. intros [Hs Hn] Ha k [b Hk]. rewrite Hn. apply Ha. exists b. by eapply lookup_weaken. Qed.

Lemma uniq_put {B} (f : A → B) pk a t p :
  uniq f t → any_other (Some pk) p t = false → (∀ r, f r = f a → p r = true) → uniq f (put_row pk a t).
Proof.
  intros Hu Hp Hf. assert (∀ k b, k ≠ pk → rows t !! k = Some b → f b ≠ f a) as Hne.
  { intros k b Hk Hb E. pose proof (proj1 (any_other_false _ _ _) Hp k b Hb) as Hx. rewrite (Hf b E) in Hx. naive_solver. }
  intros k1 k2 a1 a2 H1 H2 E. apply lookup_put in H1 as [[-> ->]|[? H1]], H2 as [[-> ->]|[? H2]]; [done|..].
  - by destruct (Hne k2 a2).
  - by destruct (Hne k1 a1).
  - by eapply Hu.
Qed.
Lemma uniq_add {B} (f : A → B) a t p :
  ahead t → uniq f t → any_other None p t = false → (∀ r, f r = f a → p r = true) → uniq f (add_row a t).
Proof.
  intros Ha Hu Hp Hf. eapply (uniq_put f (next t) a t p); [done| |done].
  apply any_other_false. intros k b Hk _. by eapply any_other_false.
Qed.
Lemma uniq_shrunk {B} (f : A → B) t t' : shrunk t t' → uniq f t → uniq f t'.
Proof. intros [Hs _] Hu k1 k2 a1 a2 H1 H2. eapply Hu; by eapply lookup_weaken. Qed.

Lemma every_put P pk a t : every P t → P a → every P (put_row pk a t).
Proof. intros He Ha k b Hk. apply lookup_put in Hk as [[-> ->]|[_ Hk]]; [done|]. by eapply He. Qed.
Lemma every_add P a t : every P t → P a → every P (add_row a t).
Proof. apply every_put. Qed.
Lemma every_shrunk P t t' : shrunk t t' → every P t → every P t'.
Proof. intros [Hs _] He k a Hk. eapply He. by eapply lookup_weaken. Qed.

Lemma grown_put pk a t : grown t (put_row pk a t).
Proof. intros k Hk. simpl. destruct (decide (k = pk)) as [->|]; [by rewrite lookup_insert_eq|by rewrite lookup_insert_ne]. Qed.
Lemma grown_add a t : grown t (add_row a t).
Proof. apply grown_put. Qed.
Lemma grown_refl t : grown t t.
Proof. by intros k. Qed.

Lemma shrunk_filter P `{!∀ kr : Z * A, Decision (P kr)} t : shrunk t (set_rows (filter P) t).
Proof. split; [|done]. apply map_filter_subseteq. Qed.
Lemma shrunk_del pk t : shrunk t (del_row pk t).
Proof. split; [|done]. apply delete_subseteq. Qed.
End tables.

Lemma refers_put {A B} (f : A → Z) pk a (t : Table A) (u : Table B) :
  refers f t u → has (f a) u = true → refers f (put_row pk a t) u.
Proof. intros Hr Ha k b Hk. apply lookup_put in Hk as [[-> ->]|[_ Hk]]; [by apply has_true|]. by eapply Hr. Qed.
Lemma refers_add {A B} (f : A → Z) a (t : Table A) (u : Table B) :
  refers f t u → has (f a) u = true → refers f (add_row a t) u.
Proof. apply refers_put. Qed.
Lemma refers_grown {A B} (f : A → Z) (t : Table A) (u u' : Table B) : grown u u' → refers f t u → refers f t u'.
Proof. intros Hg Hr k a Hk. by eapply Hg, Hr. Qed.
Lemma refers_shrunk {A B} (f : A → Z) (t t' : Table A) (u : Table B) : shrunk t t' → refers f t u → refers f t' u.
Proof. intros [Hs _] Hr k a Hk. eapply Hr. by eapply lookup_weaken. Qed.

(** Deleting what nothing refers to. *)
Lemma refers_del {A B} (f : A → Z) (t : Table A) (u : Table B) pk :
  (∀ k a, rows t !! k = Some a → f a ≠ pk) → refers f t u → refers f t (del_row pk u).
Proof. intros Hne Hr k a Hk. simpl. rewrite lookup_delete_ne by (intros ->; by eapply Hne). by eapply Hr. Qed.
Lemma refers_protected {A B} (f : A → Z) (t : Table A) (u : Table B) pk :
  any_other None (λ r, f r =? pk) t = false → refers f t u → refers f t (del_row pk u).
Proof.
  intros Hp. apply refers_del. intros k a Hk E. pose proof (proj1 (any_other_false _ _ _) Hp k a Hk) as Hx.
  simpl in Hx. rewrite E, Z.eqb_refl in Hx. naive_solver.
Qed.

Create HintDb biz.
#[export] Hint Resolve ahead_add ahead_put uniq_shrunk every_put every_add every_shrunk ahead_shrunk : biz.
#[export] Hint Resolve grown_put grown_add grown_refl shrunk_filter shrunk_del : biz.
#[export] Hint Resolve refers_put refers_add refers_grown refers_shrunk refers_protected : biz.

(** ** The invariant *)

Record DbOk (db : Db) : Prop := mkDbOk {
  ok_users : ahead (b_users db) ∧ uniq ac_username (b_users db);
  ok_customers : ahead (b_customers db) ∧ uniq cu_user (b_customers db) ∧ refers cu_user (b_customers db) (b_users db);
  ok_drivers : ahead (b_drivers db) ∧ uniq dr_user (b_drivers db) ∧ uniq dr_license_number (b_drivers db)
               ∧ refers dr_user (b_drivers db) (b_users db);
  ok_cars : ahead (b_cars db) ∧ uniq ca_license_plate (b_cars db);
  ok_products : ahead (b_products db) ∧ uniq pr_name (b_products db);
  ok_orders : ahead (b_orders db) ∧ refers or_customer (b_orders db) (b_customers db);
  ok_items : ahead (b_items db) ∧ uniq (λ i, (it_order i, it_product i)) (b_items db)
             ∧ refers it_order (b_items db) (b_orders db) ∧ refers it_product (b_items db) (b_products db);
  ok_quantities : every (λ i, 1 ≤ it_quantity i ≤ MAX_INT) (b_items db);
  ok_routes : ahead (b_routes db) ∧ refers rt_driver (b_routes db) (b_drivers db)
              ∧ refers rt_car (b_routes db) (b_cars db);
  ok_route_orders : ∀ r o, (r, o) ∈ b_route_orders db →
                      is_Some (rows (b_routes db) !! r) ∧ is_Some (rows (b_orders db) !! o);
}.

(** The sequences only move forward. *)
Record older (a b : Db) : Prop := mkOlder {
  old_users : next (b_users a) ≤ next (b_users b);
  old_customers : next (b_customers a) ≤ next (b_customers b);
  old_drivers : next (b_drivers a) ≤ next (b_drivers b);
  old_cars : next (b_cars a) ≤ next (b_cars b);
  old_products : next (b_products a) ≤ next (b_products b);
  old_orders : next (b_orders a) ≤ next (b_orders b);
  old_routes : next (b_routes a) ≤ next (b_routes b);
}.

Lemma older_refl a : older a a.
Proof. by split. Qed.
Lemma older_trans a b c : older a b → older b c → older a c.
Proof. intros [] []; split; lia. Qed.

(** What a transaction keeps. *)
Definition kept {A} (db : Db) (r : res BErr (A * Db)) : Prop :=
  match r with Ok (_, db') => DbOk db' ∧ older db db' | Err _ => True end.
Definition kept_db (db : Db) (r : res BErr Db) : Prop :=
  match r with Ok db' => DbOk db' ∧ older db db' | Err _ => True end.

Lemma kept_enforce {A} db b (r : res BErr (A * Db)) : (b = true → kept db r) → kept db (enforce b r).
Proof. destruct b; [auto|done]. Qed.
Lemma kept_db_enforce db b (r : res BErr Db) : (b = true → kept_db db r) → kept_db db (enforce b r).
Proof. destruct b; [auto|done]. Qed.
Lemma kept_bind {A} db (r : res BErr Db) (k : Db → res BErr (A * Db)) :
  kept_db db r → (∀ db', DbOk db' → older db db' → kept db (k db')) → kept db (x <-? r ;; k x).
Proof. destruct r as [db'|e]; [|done]. intros [? ?] Hk. by apply Hk. Qed.

Lemma kept_db_older a b r : older a b → kept_db b r → kept_db a r.
Proof. intros Hab. destruct r as [db'|e]; [|done]. intros [? ?]. split; [done|]. by eapply older_trans. Qed.

(** ** Transactions *)

Ltac biz_open Hdb := destruct Hdb; destruct_and!.

Definition quantity_ok (i : ItemAttrs) : Prop := 1 ≤ default 1 (ia_quantity i) ≤ MAX_INT.

Lemma kept_item db order i :
  DbOk db → item_free order i db = true → quantity_ok i →
  DbOk (set_items (add_row (mkItem order (ia_product i) (default 1 (ia_quantity i)))) db).
Proof.
  intros Hdb Hf Hq. biz_open Hdb. apply andb_true_iff in Hf as [Hf Hn]. apply andb_true_iff in Hf as [Ho Hp].
  apply negb_true_iff in Hn. split; simpl; split_and?; eauto with biz.
  eapply uniq_add; [done|done|apply Hn|]. intros r E. simpl in E |- *. injection E as -> ->. by rewrite !Z.eqb_refl.
Qed.

Lemma kept_bulk order items db :
  DbOk db → Forall quantity_ok items → kept_db db (bulk_create order items db).
Proof.
  intros Hdb Hq. assert (∀ db0, older db0 db → kept_db db0 (bulk_create order items db)) as Hk; [|apply Hk, older_refl].
  revert db Hdb. induction Hq as [|i items Hi _ IH]; intros db Hdb db0 Hold; simpl; [done|].
  apply kept_db_enforce. intros Hf. apply IH; [by apply kept_item|]. eapply older_trans; [exact Hold|by split].
Qed.

Definition quantities_ok (a : OrderAttrs) : Prop := Forall quantity_ok (default [] (oa_items a)).

(** Saving an order row whose customer exists. *)
Lemma ok_put_order db pk row :
  DbOk db → pk < next (b_orders db) → has (or_customer row) (b_customers db) = true →
  DbOk (set_orders (put_row pk row) db).
Proof.
  intros Hdb Hpk Hc. biz_open Hdb. split; simpl; split_and?; eauto with biz.
  intros r o Hro. destruct (ok_route_orders0 r o Hro). split; [done|]. by apply grown_put.
Qed.

Lemma ok_add_order db row :
  DbOk db → has (or_customer row) (b_customers db) = true → DbOk (set_orders (add_row row) db).
Proof.
  intros Hdb Hc. biz_open Hdb. split; simpl; split_and?; eauto with biz.
  intros r o Hro. destruct (ok_route_orders0 r o Hro). split; [done|]. by apply grown_put.
Qed.

Lemma ok_drop_items db pk : DbOk db → DbOk (set_items (set_rows (filter (λ kr, it_order kr.2 ≠ pk))) db).
Proof. intros Hdb. biz_open Hdb. split; simpl; split_and?; eauto with biz. Qed.

Lemma kept_order_create customer a db :
  DbOk db → quantities_ok a → kept db (Orders.create customer a db).
Proof.
  intros Hdb Hq. apply kept_enforce. intros Hc. set (db1 := set_orders _ db).
  assert (DbOk db1) as H1 by by apply ok_add_order. assert (older db db1) as Ho by (split; simpl; lia).
  eapply kept_bind; [eapply kept_db_older; [exact Ho|by apply kept_bulk]|by split].
Qed.

Lemma kept_order_update pk i customer a db :
  DbOk db → pk < next (b_orders db) → quantities_ok a → kept db (Orders.update pk i customer a db).
Proof.
  intros Hdb Hpk Hq. apply kept_enforce. intros Hc. set (db1 := set_orders _ db).
  assert (DbOk db1) as H1 by by apply ok_put_order. assert (older db db1) as Ho by by split.
  unfold quantities_ok in Hq. destruct (oa_items a) as [items|]; [|done].
  eapply kept_bind; [|by split]. eapply kept_db_older; [|apply kept_bulk; [by apply ok_drop_items|done]]. by split.
Qed.

(** Once the items and routes let go of an order, it can be deleted. *)
Lemma kept_order_delete pk db : DbOk db → kept db (Orders.delete_order pk db).
Proof.
  intros Hdb. split; [|by split]. biz_open Hdb. split; simpl; split_and?; eauto with biz.
  - eapply refers_del; [|eauto with biz]. intros k a Hk. apply map_lookup_filter_Some in Hk as [_ Hk]. exact Hk.
  - intros r o Hro. apply elem_of_filter in Hro as [Hne Hro]. simpl in Hne. destruct (ok_route_orders0 r o Hro). split; [done|].
    by rewrite lookup_delete_ne.
Qed.

(** Routes. *)
Lemma ok_put_route db pk row :
  DbOk db → pk < next (b_routes db) → route_fk row db = true → DbOk (set_routes (put_row pk row) db).
Proof.
  intros Hdb Hpk Hf. apply andb_true_iff in Hf as [Hd Hc]. biz_open Hdb. split; simpl; split_and?; eauto with biz.
  intros r o Hro. destruct (ok_route_orders0 r o Hro). split; [|done]. by apply grown_put.
Qed.

Lemma ok_add_route db row : DbOk db → route_fk row db = true → DbOk (set_routes (add_row row) db).
Proof.
  intros Hdb Hf. apply andb_true_iff in Hf as [Hd Hc]. biz_open Hdb. split; simpl; split_and?; eauto with biz.
  intros r o Hro. destruct (ok_route_orders0 r o Hro). split; [|done]. by apply grown_put.
Qed.

Lemma kept_set_route db route orders :
  DbOk db → is_Some (rows (b_routes db) !! route) → kept_db db (set_route route orders db).
Proof.
  intros Hdb Hr. apply kept_db_enforce. intros Ho. split; [|by split]. biz_open Hdb. split; simpl; split_and?; try done.
  intros r o Hro. apply elem_of_union in Hro as [Hro|Hro].
  - apply elem_of_filter in Hro as [_ Hro]. by apply ok_route_orders0.
  - apply elem_of_list_to_set, list_elem_of_fmap in Hro as (o' & [= -> ->] & Ho').
    split; [done|]. apply has_true. rewrite forallb_forall in Ho. apply Ho. by apply list_elem_of_In.
Qed.

Lemma lookup_update_orders route status db k r :
  rows (b_orders (update_orders route status db)) !! k = Some r →
  ∃ r0, rows (b_orders db) !! k = Some r0 ∧ or_customer r = or_customer r0.
Proof.
  simpl. rewrite map_lookup_imap. intros Hk. destruct (rows (b_orders db) !! k) as [r0|]; [|done].
  simpl in Hk. injection Hk as <-. exists r0. split; [done|]. by case_bool_decide.
Qed.

Lemma grown_update_orders route status db : grown (b_orders db) (b_orders (update_orders route status db)).
Proof. intros k [r Hk]. simpl. rewrite map_lookup_imap, Hk. simpl. eauto. Qed.

Lemma ok_update_orders route status db : DbOk db → DbOk (update_orders route status db).
Proof.
  intros Hdb. pose proof (grown_update_orders route status db) as Hg. biz_open Hdb.
  split; split_and?; try done.
  - intros k [r Hk]. apply lookup_update_orders in Hk as (r0 & Hk & _). simpl. eauto.
  - intros k r Hk. apply lookup_update_orders in Hk as (r0 & Hk & ->). simpl. eauto.
  - eapply refers_grown; [exact Hg|done].
  - intros r o Hro. destruct (ok_route_orders0 r o Hro) as [? ?]. split; [done|]. by apply Hg.
Qed.

Lemma ok_sync pk status db : DbOk db → DbOk (_sync_order_status pk status db).
Proof. destruct status; try done; apply ok_update_orders. Qed.

Lemma older_sync pk status db db' : older db db' → older db (_sync_order_status pk status db').
Proof. intros []. destruct status; by split. Qed.

Lemma kept_route_create name driver car a db : DbOk db → kept db (Routes.create name driver car a db).
Proof.
  intros Hdb. apply kept_enforce. intros Hf. cbv zeta. set (db1 := set_routes _ db).
  assert (DbOk db1) as H1 by by apply ok_add_route. assert (older db db1) as Ho by (split; simpl; lia).
  destruct (ra_orders a) as [[|o os]|]; [done| |done]. eapply kept_bind.
  - eapply kept_db_older; [exact Ho|]. apply kept_set_route; [done|]. simpl. rewrite lookup_insert_eq. eauto.
  - intros db2 H2 Ho2. split; [by apply ok_sync|by apply older_sync].
Qed.

Lemma kept_route_update pk i a db : DbOk db → pk < next (b_routes db) → kept db (Routes.update pk i a db).
Proof.
  intros Hdb Hpk. apply kept_enforce. intros Hf. cbv zeta. set (db1 := set_routes _ db).
  assert (DbOk db1) as H1 by by apply ok_put_route. assert (older db db1) as Ho by by split.
  eapply kept_bind.
  - destruct (ra_orders a) as [os|]; [|done]. eapply kept_db_older; [exact Ho|]. apply kept_set_route; [done|].
    simpl. rewrite lookup_insert_eq. eauto.
  - intros db2 H2 Ho2. split; [by apply ok_sync|by apply older_sync].
Qed.

Lemma kept_route_delete pk db : DbOk db → kept db (Routes.delete_route pk db).
Proof.
  intros Hdb. split; [|by split]. biz_open Hdb. split; simpl; split_and?; eauto with biz.
  intros r o Hro. apply elem_of_filter in Hro as [Hne Hro]. simpl in Hne. destruct (ok_route_orders0 r o Hro). split; [|done].
  by rewrite lookup_delete_ne.
Qed.

(** Accounts. *)
Lemma ok_add_user db u : DbOk db → username_free None u db = true → DbOk (set_users (add_row u) db).
Proof.
  intros Hdb Hf. apply negb_true_iff in Hf. biz_open Hdb. split; simpl; split_and?; eauto with biz.
  eapply uniq_add; [done|done|apply Hf|]. intros r E. simpl. by apply String.eqb_eq.
Qed.

Lemma kept_update_user mp pk u a password db :
  DbOk db → pk < next (b_users db) → kept_db db (update_user mp pk u a password db).
Proof.
  intros Hdb Hpk. unfold update_user. destruct (_ && _); [by split|]. apply kept_db_enforce. intros Hf.
  apply negb_true_iff in Hf. split; [|by split]. biz_open Hdb. split; simpl; split_and?; eauto with biz.
  eapply uniq_put; [done|apply Hf|]. intros r E. simpl. by apply String.eqb_eq.
Qed.

Lemma ok_add_driver db d : DbOk db → driver_free None d db = true → DbOk (set_drivers (add_row d) db).
Proof.
  intros Hdb Hf. apply andb_true_iff in Hf as [Hu Hf]. apply negb_true_iff in Hf. biz_open Hdb.
  split; simpl; split_and?; eauto with biz; (eapply uniq_add; [done|done|apply Hf|]); intros r E; simpl; rewrite E.
  - by rewrite Z.eqb_refl.
  - by rewrite String.eqb_refl, orb_true_r.
Qed.

Lemma ok_put_driver db pk d :
  DbOk db → pk < next (b_drivers db) → driver_free (Some pk) d db = true → DbOk (set_drivers (put_row pk d) db).
Proof.
  intros Hdb Hpk Hf. apply andb_true_iff in Hf as [Hu Hf]. apply negb_true_iff in Hf. biz_open Hdb.
  split; simpl; split_and?; eauto with biz; (eapply uniq_put; [done|apply Hf|]); intros r E; simpl; rewrite E.
  - by rewrite Z.eqb_refl.
  - by rewrite String.eqb_refl, orb_true_r.
Qed.

Lemma kept_driver_create mp nu ne a password dob lic db :
  DbOk db → kept db (driver_create mp nu ne a password dob lic db).
Proof.
  intros Hdb. unfold driver_create, create_user. destruct (username_free _ _ _) eqn:Hf; [|done]. simpl.
  apply kept_enforce. intros Hd. split; [apply ok_add_driver; [by apply ok_add_user|done]|]. split; simpl; lia.
Qed.

Lemma kept_driver_update mp pk i u a db :
  DbOk db → pk < next (b_drivers db) → dr_user i < next (b_users db) → kept db (driver_update mp pk i u a db).
Proof.
  intros Hdb Hpk Hu. eapply kept_bind; [by apply kept_update_user|]. intros db1 H1 Ho.
  apply kept_enforce. intros Hf. split.
  - apply ok_put_driver; [done| |done]. destruct Ho. lia.
  - destruct Ho. by split.
Qed.

Lemma ok_add_customer db c : DbOk db → customer_free None c db = true → DbOk (set_customers (add_row c) db).
Proof.
  intros Hdb Hf. apply andb_true_iff in Hf as [Hu Hf]. apply negb_true_iff in Hf. biz_open Hdb.
  split; simpl; split_and?; eauto with biz. eapply uniq_add; [done|done|apply Hf|]. intros r E. simpl. by apply Z.eqb_eq.
Qed.

Lemma ok_put_customer db pk c :
  DbOk db → pk < next (b_customers db) → customer_free (Some pk) c db = true → DbOk (set_customers (put_row pk c) db).
Proof.
  intros Hdb Hpk Hf. apply andb_true_iff in Hf as [Hu Hf]. apply negb_true_iff in Hf. biz_open Hdb.
  split; simpl; split_and?; eauto with biz. eapply uniq_put; [done|apply Hf|]. intros r E. simpl. by apply Z.eqb_eq.
Qed.

Lemma kept_customer_create mp nu ne a password db : DbOk db → kept db (customer_create mp nu ne a password db).
Proof.
  intros Hdb. unfold customer_create, create_user. destruct (username_free _ _ _) eqn:Hf; [|done]. simpl.
  apply kept_enforce. intros Hd. split; [apply ok_add_customer; [by apply ok_add_user|done]|]. split; simpl; lia.
Qed.

Lemma kept_customer_update mp pk i u a db :
  DbOk db → pk < next (b_customers db) → cu_user i < next (b_users db) → kept db (customer_update mp pk i u a db).
Proof.
  intros Hdb Hpk Hu. eapply kept_bind; [by apply kept_update_user|]. intros db1 H1 Ho.
  apply kept_enforce. intros Hf. split.
  - apply ok_put_customer; [done| |done]. destruct Ho. lia.
  - destruct Ho. by split.
Qed.

(** Deleting what [PROTECT] lets go. *)
Lemma kept_protected db (b : bool) db' :
  (b = false → DbOk db' ∧ older db db') → kept db (if b then Err ProtectedError else Ok (tt, db')).
Proof. destruct b; [done|]. simpl. auto. Qed.

Ltac protected_delete := intros Hdb; apply kept_protected; intros Hp; split; [|by split]; biz_open Hdb;
  split; simpl; split_and?; eauto with biz.

Lemma kept_driver_delete pk db : DbOk db → kept db (driver_delete pk db).
Proof. protected_delete. Qed.
Lemma kept_customer_delete pk db : DbOk db → kept db (customer_delete pk db).
Proof. protected_delete. Qed.
Lemma kept_car_delete pk db : DbOk db → kept db (car_delete pk db).
Proof. protected_delete. Qed.
Lemma kept_product_delete pk db : DbOk db → kept db (product_delete pk db).
Proof. protected_delete. Qed.

(** Cars and products. *)
Lemma kept_car_create brand model year plate db : DbOk db → kept db (car_create brand model year plate db).
Proof.
  intros Hdb. apply kept_enforce. intros Hf. apply negb_true_iff in Hf. split; [|split; simpl; lia]. biz_open Hdb.
  split; simpl; split_and?; eauto with biz. eapply uniq_add; [done|done|apply Hf|]. intros r E. simpl. by apply String.eqb_eq.
Qed.
Lemma kept_car_update pk i a db : DbOk db → pk < next (b_cars db) → kept db (car_update pk i a db).
Proof.
  intros Hdb Hpk. apply kept_enforce. intros Hf. apply negb_true_iff in Hf. split; [|by split]. biz_open Hdb.
  split; simpl; split_and?; eauto with biz. eapply uniq_put; [done|apply Hf|]. intros r E. simpl. by apply String.eqb_eq.
Qed.
Lemma kept_product_create name price db : DbOk db → kept db (product_create name price db).
Proof.
  intros Hdb. apply kept_enforce. intros Hf. apply negb_true_iff in Hf. split; [|split; simpl; lia]. biz_open Hdb.
  split; simpl; split_and?; eauto with biz. eapply uniq_add; [done|done|apply Hf|]. intros r E. simpl. by apply String.eqb_eq.
Qed.
Lemma kept_product_update pk i a db : DbOk db → pk < next (b_products db) → kept db (product_update pk i a db).
Proof.
  intros Hdb Hpk. apply kept_enforce. intros Hf. apply negb_true_iff in Hf. split; [|by split]. biz_open Hdb.
  split; simpl; split_and?; eauto with biz. eapply uniq_put; [done|apply Hf|]. intros r E. simpl. by apply String.eqb_eq.
Qed.

(** * The API of a tenant

    The viewsets of src/tenants_back/urls_tenant.py as one dispatch, the histories
    it can produce, and the invariant of the business database on all of them. *)

(** What the process and Django bring. *)
Record ApiEnv := mkApiEnv {
  e_use_multitenant : bool;
  e_schema_name : option string;
  e_today : Date;
  e_loaded : Z;
  e_validate_password : string → bool;
  e_make_password : string → string;
  e_norm_username : string → string;
  e_norm_email : string → string;
}.

(** The routes of the [DefaultRouter] that reach a handler modelled here. *)
Inductive Req :=
| OrderList | OrderGet (pk : Z) | OrderPost (a : OrderAttrs) | OrderPut (partial : bool) (pk : Z) (a : OrderAttrs)
| OrderDelete (pk : Z)
| RouteList | RouteGet (pk : Z) | RoutePost (a : RouteAttrs) | RoutePut (partial : bool) (pk : Z) (a : RouteAttrs)
| RouteDelete (pk : Z)
| DriverPost (a : DriverAttrs) | DriverPut (partial : bool) (pk : Z) (a : DriverAttrs) | DriverDelete (pk : Z)
| CustomerPost (a : CustomerAttrs) | CustomerPut (partial : bool) (pk : Z) (a : CustomerAttrs) | CustomerDelete (pk : Z)
| CustomerMe (data : option CustomerAttrs)
| CarPost (a : CarAttrs) | CarPut (partial : bool) (pk : Z) (a : CarAttrs) | CarDelete (pk : Z)
| ProductPost (a : ProductAttrs) | ProductPut (partial : bool) (pk : Z) (a : ProductAttrs) | ProductDelete (pk : Z)
| ProductGenerate (delay : option string).

Definition answered {A} (m : H A) : H unit := m %;; hret tt.

Definition dispatch (e : ApiEnv) (user : option User) (q : Req) : H unit :=
  let mt := e_use_multitenant e in
  let sn := e_schema_name e in
  let vp := e_validate_password e in
  let mp := e_make_password e in
  match q with
  | OrderList => answered (Orders.list_orders mt sn user)
  | OrderGet pk => answered (Orders.retrieve mt sn user pk)
  | OrderPost a => answered (Orders.post mt sn user a)
  | OrderPut partial pk a => answered (Orders.put mt sn user partial pk a)
  | OrderDelete pk => Orders.destroy mt sn user pk
  | RouteList => answered (Routes.list_routes user)
  | RouteGet pk => answered (Routes.retrieve user pk)
  | RoutePost a => answered (Routes.post mt sn user a)
  | RoutePut partial pk a => answered (Routes.put mt sn user partial pk a)
  | RouteDelete pk => Routes.destroy mt sn user pk
  | DriverPost a => answered (driver_post vp mp (e_norm_username e) (e_norm_email e) mt sn (e_today e) user a)
  | DriverPut partial pk a => answered (driver_put vp mp mt sn (e_today e) user partial pk a)
  | DriverDelete pk => driver_destroy mt sn user pk
  | CustomerPost a => answered (customer_post vp mp (e_norm_username e) (e_norm_email e) mt sn user a)
  | CustomerPut partial pk a => answered (customer_put vp mp mt sn user partial pk a)
  | CustomerDelete pk => customer_destroy mt sn user pk
  | CustomerMe data => answered (me vp mp mt sn user data)
  | CarPost a => answered (car_post mt sn (e_loaded e) user a)
  | CarPut partial pk a => answered (car_put mt sn (e_loaded e) user partial pk a)
  | CarDelete pk => car_destroy mt sn user pk
  | ProductPost a => answered (product_post mt sn user a)
  | ProductPut partial pk a => answered (product_put mt sn user partial pk a)
  | ProductDelete pk => product_destroy mt sn user pk
  | ProductGenerate delay => answered (generate mt sn user delay)
  end.

(** ** Histories *)

(** The states the database went through, newest first: each request reads some
    state of the history and commits to the newest. *)
Inductive history (e : ApiEnv) (db0 : Db) : list Db → Prop :=
| hist_start : history e db0 [db0]
| hist_request db h snap user q :
    history e db0 (db :: h) → snap ∈ db :: h →
    history e db0 ((dispatch e user q snap db).2 :: db :: h).

(** ** What a handler keeps *)

Section keeps.
Implicit Types P : Db → Prop.

Definition hkeeps {A} P (m : H A) (Q : A → Db → Prop) : Prop :=
  ∀ snap db, DbOk snap → DbOk db → older snap db → P snap →
    let '(r, db') := m snap db in DbOk db' ∧ older db db' ∧ (∀ a, r = Ok a → Q a snap).

Lemma hkeeps_ret {A} P (a : A) Q : (∀ snap, P snap → Q a snap) → hkeeps P (hret a) Q.
Proof. intros HQ snap db Hs Hdb Ho HP. simpl. split_and!; [done|apply older_refl|]. intros a' [= <-]. auto. Qed.

Lemma hkeeps_raise {A} P e (Q : A → Db → Prop) : hkeeps P (hraise e) Q.
Proof. intros snap db Hs Hdb Ho HP. simpl. split_and!; [done|apply older_refl|done]. Qed.

Lemma hkeeps_bind {A B} P (m : H A) (k : A → H B) Q R :
  hkeeps P m Q → (∀ a, hkeeps (λ s, P s ∧ Q a s) (k a) R) → hkeeps P (hbind m k) R.
Proof.
  intros Hm Hk snap db Hs Hdb Ho HP. specialize (Hm snap db Hs Hdb Ho HP). unfold hbind.
  destruct (m snap db) as [[a|e] db1]; destruct Hm as (H1 & Ho1 & HQ); [|by split_and!].
  specialize (Hk a snap db1 Hs H1 (older_trans _ _ _ Ho Ho1) (conj HP (HQ a eq_refl))).
  destruct (k a snap db1) as [r db2]. destruct Hk as (? & ? & ?). split_and!; [done|by eapply older_trans|done].
Qed.

Lemma hkeeps_check {A} P (f : Db → res BErr A) (Q : A → Db → Prop) :
  (∀ snap a, DbOk snap → P snap → f snap = Ok a → Q a snap) → hkeeps P (hcheck f) Q.
Proof. intros HQ snap db Hs Hdb Ho HP. simpl. split_and!; [done|apply older_refl|]. intros a Ha. by apply HQ. Qed.

Lemma hkeeps_read {A} P (f : Db → A) : hkeeps P (hread f) (λ a s, True).
Proof. intros snap db Hs Hdb Ho HP. simpl. split_and!; [done|apply older_refl|done]. Qed.

Lemma hkeeps_now {A} P (f : Db → A) : hkeeps P (λ _ db, (Ok (f db), db)) (λ a s, True).
Proof. intros snap db Hs Hdb Ho HP. split_and!; [done|apply older_refl|done]. Qed.

Lemma hkeeps_save {A} P (f : Db → res BErr (A * Db)) :
  (∀ snap db, DbOk snap → DbOk db → older snap db → P snap → kept db (f db)) → hkeeps P (hsave f) (λ a s, True).
Proof.
  intros Hf snap db Hs Hdb Ho HP. specialize (Hf snap db Hs Hdb Ho HP). unfold hsave.
  destruct (f db) as [[a db']|e]; [destruct Hf|]; split_and!; done || apply older_refl.
Qed.

Lemma hkeeps_permitted P allowed user : hkeeps P (permitted allowed user) (λ a s, True).
Proof.
  unfold permitted. destruct user as [u|]; [|apply hkeeps_raise]. destruct (allowed _); [by apply hkeeps_ret|apply hkeeps_raise].
Qed.

Lemma hkeeps_answered {A} P (m : H A) : hkeeps P m (λ _ _, True) → hkeeps P (answered m) (λ _ _, True).
Proof. intros Hm. eapply hkeeps_bind; [exact Hm|]. intros a. by apply hkeeps_ret. Qed.

(** A handler whose steps change nothing by themselves. *)
Lemma hkeeps_then {A B} P (m : H A) (k : A → H B) R :
  hkeeps P m (λ _ _, True) → (∀ a, hkeeps P (k a) R) → hkeeps P (hbind m k) R.
Proof.
  intros Hm Hk. eapply hkeeps_bind; [exact Hm|]. intros a snap db Hs Hdb Ho [HP _]. by apply Hk.
Qed.

Lemma hkeeps_if {A} P (b : bool) (m1 m2 : H A) Q : hkeeps P m1 Q → hkeeps P m2 Q → hkeeps P (if b then m1 else m2) Q.
Proof. by destruct b. Qed.

End keeps.

#[export] Hint Resolve hkeeps_raise hkeeps_read hkeeps_now hkeeps_permitted hkeeps_if hkeeps_answered : biz.

(** ** The handlers *)

Lemma when_valid_ok {A} errors (k : res BErr A) a : when_valid errors k = Ok a → errors = [] ∧ k = Ok a.
Proof. by destruct errors. Qed.

Lemma order_validated_ok partial a db a' :
  Orders.validated partial a db = Ok a' → a' = a ∧ quantities_ok a'.
Proof.
  intros Hv. apply when_valid_ok in Hv as [He [= <-]]. split; [done|]. apply app_eq_nil in He as [_ He].
  apply app_eq_nil in He as [_ He]. unfold quantities_ok. destruct (oa_items a) as [items|]; [|constructor].
  destruct (forallb _ _) eqn:Ef; [|done]. rewrite forallb_Forall in Ef. eapply Forall_impl; [exact Ef|].
  intros i Hi. apply andb_true_iff in Hi as [_ Hi]. unfold quantity_ok. destruct (ia_quantity i); simpl; [lia|].
  unfold MAX_INT. lia.
Qed.

(** The objects a handler fetched had a key of the sequence. *)
Lemma fetched {A} (t : Db → Table A) snap db pk r :
  ahead (t snap) → next (t snap) ≤ next (t db) → rows (t snap) !! pk = Some r → pk < next (t db).
Proof. intros Ha Hn Hr. specialize (Ha pk (mk_is_Some _ _ Hr)). lia. Qed.

Lemma order_object_ok u pk db r : Orders.get_object u pk db = Ok r → rows (b_orders db) !! pk = Some r.
Proof. unfold Orders.get_object. destruct (_ !! pk) as [r'|]; [|done]. case_match; congruence. Qed.
Lemma route_object_ok u pk db r : Routes.get_object u pk db = Ok r → rows (b_routes db) !! pk = Some r.
Proof. unfold Routes.get_object. destruct (_ !! pk) as [r'|]; [|done]. case_match; congruence. Qed.
Lemma row_or_404_ok {A} (t : Db → Table A) pk db r : row_or_404 t pk db = Ok r → rows (t db) !! pk = Some r.
Proof. unfold row_or_404. by destruct (_ !! pk) as [r'|]; [intros [= ->]|]. Qed.

Lemma keeps_order_create u a P :
  (∀ s, P s → quantities_ok a) → hkeeps P (Orders.perform_create u a) (λ _ _, True).
Proof.
  intros Hq. unfold Orders.perform_create. apply hkeeps_if.
  - eapply (hkeeps_then _ _ _ _ (hkeeps_check _ _ _ (λ _ _ _ _ _, I))). intros c.
    apply hkeeps_save. intros. apply kept_order_create; eauto.
  - destruct (oa_customer a); [|apply hkeeps_raise]. apply hkeeps_save. intros. apply kept_order_create; eauto.
Qed.

Lemma keeps_order_update u pk i a P :
  (∀ s, P s → quantities_ok a ∧ rows (b_orders s) !! pk = Some i) →
  hkeeps P (Orders.perform_update u pk i a) (λ _ _, True).
Proof.
  intros Hq. assert (∀ c, hkeeps P (hsave (Orders.update pk i c a)) (λ _ _, True)) as Hs.
  { intros c. apply hkeeps_save. intros snap db Hs Hdb Ho HP. destruct (Hq snap HP).
    apply kept_order_update; [done| |done]. eapply (fetched b_orders); [apply Hs|apply Ho|done]. }
  unfold Orders.perform_update. apply hkeeps_if; [|apply Hs].
  apply hkeeps_then; [apply hkeeps_read|]. intros mine. apply hkeeps_if; [apply hkeeps_raise|apply Hs].
Qed.

Lemma keeps_order_destroy u pk i P : hkeeps P (Orders.perform_destroy u pk i) (λ _ _, True).
Proof.
  apply hkeeps_then; [apply hkeeps_read|]. intros mine. apply hkeeps_if; [apply hkeeps_raise|].
  apply hkeeps_save. intros. by apply kept_order_delete.
Qed.

Section handlers.
Context (mt : bool) (sn : option string) (today : Date) (loaded : Z).
Context (vp : string → bool) (mp nu ne : string → string) (user : option User).

Ltac enter := eapply hkeeps_then; [apply hkeeps_permitted|intros u].

Lemma keeps_order_post a : hkeeps (λ _, True) (Orders.post mt sn user a) (λ _ _, True).
Proof.
  enter. eapply hkeeps_bind; [apply (hkeeps_check _ _ (λ a' _, quantities_ok a')); intros; by eapply order_validated_ok|].
  intros a'. eapply hkeeps_then; [apply keeps_order_create; by intros s [_ ?]|]. intros pk. apply hkeeps_now.
Qed.

Lemma keeps_order_put partial pk a : hkeeps (λ _, True) (Orders.put mt sn user partial pk a) (λ _ _, True).
Proof.
  enter. eapply hkeeps_bind; [apply (hkeeps_check _ _ (λ i s, rows (b_orders s) !! pk = Some i)); intros; by eapply order_object_ok|].
  intros i. eapply hkeeps_bind; [apply (hkeeps_check _ _ (λ a' _, quantities_ok a')); intros; by eapply order_validated_ok|].
  intros a'. eapply hkeeps_then; [apply keeps_order_update; by intros s [[_ ?] ?]|]. intros pk'. apply hkeeps_now.
Qed.

Lemma keeps_order_delete pk : hkeeps (λ _, True) (Orders.destroy mt sn user pk) (λ _ _, True).
Proof. enter. eapply hkeeps_then; [by apply hkeeps_check|]. intros i. apply keeps_order_destroy. Qed.

Lemma keeps_route_post a : hkeeps (λ _, True) (Routes.post mt sn user a) (λ _ _, True).
Proof.
  enter. eapply hkeeps_then; [by apply hkeeps_check|]. intros a'. eapply hkeeps_then; [|intros; apply hkeeps_now].
  unfold save_new. repeat case_match; try apply hkeeps_raise. apply hkeeps_save. intros. by apply kept_route_create.
Qed.

Lemma keeps_route_put partial pk a : hkeeps (λ _, True) (Routes.put mt sn user partial pk a) (λ _ _, True).
Proof.
  enter. eapply hkeeps_bind; [apply (hkeeps_check _ _ (λ i s, rows (b_routes s) !! pk = Some i)); intros; by eapply route_object_ok|].
  intros i. eapply hkeeps_then; [by apply hkeeps_check|]. intros a'. eapply hkeeps_then; [|intros; apply hkeeps_now].
  apply hkeeps_save. intros snap db Hs Hdb Ho [_ Hi]. apply kept_route_update; [done|].
  eapply (fetched b_routes); [apply Hs|apply Ho|done].
Qed.

Lemma keeps_route_delete pk : hkeeps (λ _, True) (Routes.destroy mt sn user pk) (λ _ _, True).
Proof.
  enter. eapply hkeeps_then; [by apply hkeeps_check|]. intros i. apply hkeeps_save. intros. by apply kept_route_delete.
Qed.

Lemma keeps_driver_post a : hkeeps (λ _, True) (driver_post vp mp nu ne mt sn today user a) (λ _ _, True).
Proof.
  enter. eapply hkeeps_then; [by apply hkeeps_check|]. intros a'. repeat case_match; try apply hkeeps_raise.
  apply hkeeps_save. intros. by apply kept_driver_create.
Qed.

Lemma keeps_driver_put partial pk a : hkeeps (λ _, True) (driver_put vp mp mt sn today user partial pk a) (λ _ _, True).
Proof.
  enter. eapply hkeeps_bind; [apply (hkeeps_check _ _ (λ i s, rows (b_drivers s) !! pk = Some i)); intros; by eapply (row_or_404_ok b_drivers)|].
  intros d. eapply hkeeps_then; [by apply hkeeps_check|]. intros a'. eapply hkeeps_bind;
    [apply (hkeeps_check _ _ (λ i s, rows (b_users s) !! dr_user d = Some i)); intros; by eapply (row_or_404_ok b_users)|].
  intros ac. apply hkeeps_save. intros snap db Hs Hdb Ho [[_ Hi] Hac].
  apply kept_driver_update; [done|eapply (fetched b_drivers)|eapply (fetched b_users)]; try apply Hs; try apply Ho; done.
Qed.

Lemma keeps_customer_save partial pk c a P :
  (∀ s, P s → rows (b_customers s) !! pk = Some c) →
  hkeeps P (customer_save vp mp partial pk c a) (λ _ _, True).
Proof.
  intros HP. eapply hkeeps_then; [by apply hkeeps_check|]. intros a'. eapply hkeeps_bind;
    [apply (hkeeps_check _ _ (λ i s, rows (b_users s) !! cu_user c = Some i)); intros; by eapply (row_or_404_ok b_users)|].
  intros ac. apply hkeeps_save. intros snap db Hs Hdb Ho [Hc Hac]. specialize (HP snap Hc).
  apply kept_customer_update; [done|eapply (fetched b_customers)|eapply (fetched b_users)]; try apply Hs; try apply Ho; done.
Qed.

Lemma keeps_customer_post a : hkeeps (λ _, True) (customer_post vp mp nu ne mt sn user a) (λ _ _, True).
Proof.
  enter. eapply hkeeps_then; [by apply hkeeps_check|]. intros a'. case_match; [|apply hkeeps_raise].
  apply hkeeps_save. intros. by apply kept_customer_create.
Qed.

Lemma keeps_customer_put partial pk a : hkeeps (λ _, True) (customer_put vp mp mt sn user partial pk a) (λ _ _, True).
Proof.
  enter. eapply hkeeps_bind; [apply (hkeeps_check _ _ (λ i s, rows (b_customers s) !! pk = Some i)); intros; by eapply (row_or_404_ok b_customers)|].
  intros c. apply keeps_customer_save. by intros s [_ ?].
Qed.

Lemma find_row_ok {A} p (t : Table A) k r : find_row p t = Some (k, r) → rows t !! k = Some r ∧ p r = true.
Proof. intros Hf. apply List.find_some in Hf as [Hin Hp]. split; [|done]. by apply elem_of_map_to_list, list_elem_of_In. Qed.

Lemma keeps_me data : hkeeps (λ _, True) (me vp mp mt sn user data) (λ _ _, True).
Proof.
  enter. apply hkeeps_if; [apply hkeeps_raise|].
  eapply hkeeps_bind; [apply (hkeeps_check _ _ (λ c s, rows (b_customers s) !! c.1 = Some c.2))|].
  - intros snap [k c] _ _. destruct (find_row _ _) as [[k' c']|] eqn:E; [|done]. intros [= -> ->].
    by apply find_row_ok in E as [? _].
  - intros c. destruct data as [a|]; [|by apply hkeeps_ret]. eapply hkeeps_then; [|intros pk; apply hkeeps_now].
    apply keeps_customer_save. by intros s [_ ?].
Qed.

Lemma keeps_car_post a : hkeeps (λ _, True) (car_post mt sn loaded user a) (λ _ _, True).
Proof.
  enter. eapply hkeeps_then; [by apply hkeeps_check|]. intros a'. repeat case_match; try apply hkeeps_raise.
  apply hkeeps_save. intros. by apply kept_car_create.
Qed.

Lemma keeps_car_put partial pk a : hkeeps (λ _, True) (car_put mt sn loaded user partial pk a) (λ _ _, True).
Proof.
  enter. eapply hkeeps_bind; [apply (hkeeps_check _ _ (λ i s, rows (b_cars s) !! pk = Some i)); intros; by eapply (row_or_404_ok b_cars)|].
  intros c. eapply hkeeps_then; [by apply hkeeps_check|]. intros a'. apply hkeeps_save. intros snap db Hs Hdb Ho [_ Hi].
  apply kept_car_update; [done|]. eapply (fetched b_cars); [apply Hs|apply Ho|done].
Qed.

Lemma keeps_product_post a : hkeeps (λ _, True) (product_post mt sn user a) (λ _ _, True).
Proof.
  enter. eapply hkeeps_then; [by apply hkeeps_check|]. intros a'. repeat case_match; try apply hkeeps_raise.
  apply hkeeps_save. intros. by apply kept_product_create.
Qed.

Lemma keeps_product_put partial pk a : hkeeps (λ _, True) (product_put mt sn user partial pk a) (λ _ _, True).
Proof.
  enter. eapply hkeeps_bind; [apply (hkeeps_check _ _ (λ i s, rows (b_products s) !! pk = Some i)); intros; by eapply (row_or_404_ok b_products)|].
  intros c. eapply hkeeps_then; [by apply hkeeps_check|]. intros a'. apply hkeeps_save. intros snap db Hs Hdb Ho [_ Hi].
  apply kept_product_update; [done|]. eapply (fetched b_products); [apply Hs|apply Ho|done].
Qed.

(** Deleting a row that was found. *)
Lemma keeps_destroy {A} (perm : H User) (t : Db → Table A) (f : Db → res BErr (unit * Db)) pk :
  hkeeps (λ _, True) perm (λ _ _, True) → (∀ db, DbOk db → kept db (f db)) →
  hkeeps (λ _, True) (perm %;; hcheck (row_or_404 t pk) %;; hsave f) (λ _ _, True).
Proof.
  intros Hp Hf. eapply hkeeps_then; [exact Hp|]. intros u. eapply hkeeps_then; [by apply hkeeps_check|]. intros r.
  apply hkeeps_save. auto.
Qed.

End handlers.

#[export] Hint Resolve keeps_order_post keeps_order_put keeps_order_delete keeps_route_post keeps_route_put : biz.
#[export] Hint Resolve keeps_route_delete keeps_driver_post keeps_driver_put keeps_customer_post keeps_customer_put : biz.
#[export] Hint Resolve keeps_me keeps_car_post keeps_car_put keeps_product_post keeps_product_put : biz.

Lemma keeps_dispatch e user q : hkeeps (λ _, True) (dispatch e user q) (λ _ _, True).
Proof.
  destruct q; simpl; auto with biz;
    try (apply hkeeps_answered; eapply hkeeps_then; [apply hkeeps_permitted|intros u];
         first [apply hkeeps_read|by apply hkeeps_check|by apply hkeeps_ret]);
    (apply keeps_destroy; [apply hkeeps_permitted|]; intros db Hdb;
     first [by apply kept_driver_delete|by apply kept_customer_delete|by apply kept_car_delete|by apply kept_product_delete]).
Qed.

(** The states of a history are sound, and every one older than the newest. *)
Lemma history_sound e db0 h :
  DbOk db0 → history e db0 h → Forall DbOk h ∧ ∀ db h', h = db :: h' → Forall (λ s, older s db) h.
Proof.
  intros H0. induction 1 as [|db h snap user q Hh [IHok IHold] Hin].
  - split; [by constructor|]. intros db h' [= -> <-]. constructor; [apply older_refl|constructor].
  - pose proof (IHold db h eq_refl) as Hold. rewrite Forall_forall in IHok, Hold.
    pose proof (keeps_dispatch e user q snap db (IHok snap Hin) (IHok db (list_elem_of_here _ _)) (Hold snap Hin) I) as Hk.
    destruct (dispatch e user q snap db) as [r db'] eqn:E. destruct Hk as (Hok & Ho & _). simpl. split.
    + constructor; [done|]. by apply Forall_forall.
    + intros db'' h'' [= <- <-]. constructor; [apply older_refl|]. apply Forall_forall. intros s Hs.
      eapply older_trans; [by apply Hold|done].
Qed.

(** C32: However the requests of a tenant's users interleave, the business database
    stays sound: logins, license numbers, plates and product names are unique, a
    product is listed at most once per order with a quantity of at least one, and
    no row refers to a row that is gone. *)
Theorem business_invariant e db0 h : DbOk db0 → history e db0 h → Forall DbOk h.
Proof. intros H0 Hh. by apply (history_sound e db0 h). Qed.
