(* ===== verification/ApiFacts.v ===== *)
(** * Properties of orders, routes and profiles *)
From S2P Require Import Prelude PyStr Credentials BizDb Orders Routes Accounts Catalog TenantApi Validators.
From Stdlib Require Import Ascii.
Local Open Scope Z_scope.
Open Scope tenants_scope.

(** ** Customers and their orders *)

(** The requests of the orders endpoints. *)
Definition order_request (q : Req) : bool :=
  match q with OrderList | OrderGet _ | OrderPost _ | OrderPut _ _ _ | OrderDelete _ => true | _ => false end.

(** The order [pk] as [db] has it: its row, its items, the routes it is on. *)
Definition order_state (db : Db) (pk : Z) : option Order * gmap Z OrderItem * gset (Z * Z) :=
  (rows (b_orders db) !! pk, filter (λ kr, it_order kr.2 = pk) (rows (b_items db)),
   filter (λ ro, ro.2 = pk) (b_route_orders db)).

(** The order belongs to the user. *)
Definition owned (u : User) (db : Db) (pk : Z) : Prop :=
  ∃ r, rows (b_orders db) !! pk = Some r ∧ user_of_customer db (or_customer r) = Some (u_id u).

(** The other tables. *)
Definition rest_of (db : Db) :=
  (b_users db, b_customers db, b_drivers db, b_cars db, b_products db, b_routes db).

Lemma object_owned u pk db r :
  u_role u = CUSTOMER → Orders.get_object u pk db = Ok r → owned u db pk ∧ rows (b_orders db) !! pk = Some r.
Proof.
  intros Hu Hg. pose proof (order_object_ok _ _ _ _ Hg) as Hr. split; [|done]. exists r. split; [done|].
  unfold Orders.get_object in Hg. rewrite Hr in Hg. unfold Orders.in_queryset in Hg. rewrite bool_decide_true in Hg by done.
  by case_bool_decide.
Qed.

(** Nothing but the order [pk] differs. *)
Definition only (pk : Z) (db db' : Db) : Prop :=
  rest_of db' = rest_of db ∧ ∀ k, k ≠ pk → order_state db' k = order_state db k.

Lemma only_refl pk db : only pk db db.
Proof. by split. Qed.
Lemma only_trans pk a b c : only pk a b → only pk b c → only pk a c.
Proof. intros [E1 H1] [E2 H2]. split; [congruence|]. intros k Hk. rewrite H2, H1; done. Qed.

Lemma only_orders pk db f :
  (∀ k, k ≠ pk → rows (f (b_orders db)) !! k = rows (b_orders db) !! k) → only pk db (set_orders f db).
Proof. intros Hf. split; [done|]. intros k Hk. unfold order_state. simpl. by rewrite Hf. Qed.

Lemma only_items pk db f :
  (∀ k, k ≠ pk → filter (λ kr, it_order kr.2 = k) (rows (f (b_items db))) = filter (λ kr, it_order kr.2 = k) (rows (b_items db))) →
  only pk db (set_items f db).
Proof. intros Hf. split; [done|]. intros k Hk. unfold order_state. simpl. by rewrite Hf. Qed.

Lemma only_drop_items pk db : only pk db (set_items (set_rows (filter (λ kr, it_order kr.2 ≠ pk))) db).
Proof.
  apply only_items. intros k Hk. simpl. apply map_eq. intros i. apply option_eq. intros x.
  rewrite !map_lookup_filter_Some. simpl. naive_solver.
Qed.

Lemma only_add_item pk db i :
  it_order i = pk → rows (b_items db) !! next (b_items db) = None → only pk db (set_items (add_row i) db).
Proof.
  intros Hi Hn. apply only_items. intros k Hk. simpl. rewrite map_filter_insert_False by (simpl; congruence).
  by rewrite delete_id.
Qed.

(** The next number is free. *)
Lemma next_free {A} (t : Table A) : ahead t → rows t !! next t = None.
Proof. intros Ha. destruct (rows t !! next t) eqn:E; [|done]. specialize (Ha _ (mk_is_Some _ _ E)). lia. Qed.

Lemma only_bulk pk items db db' :
  ahead (b_items db) → bulk_create pk items db = Ok db' → only pk db db'.
Proof.
  revert db. induction items as [|i items IH]; intros db Ha; simpl; [intros [= <-]; apply only_refl|].
  unfold enforce. destruct (item_free _ _ _); [|done]. intros Hb. eapply only_trans; [|eapply IH; [|exact Hb]; by apply ahead_add].
  apply only_add_item; [done|]. by apply next_free.
Qed.

Lemma only_order_create customer a db pk db' :
  DbOk db → Orders.create customer a db = Ok (pk, db') → pk = next (b_orders db) ∧ only pk db db'.
Proof.
  intros Hdb. unfold Orders.create, enforce. destruct (has _ _); [|done]. intros Hc.
  apply res_bind_ok in Hc as (db1 & Hb & [= <- <-]). split; [done|]. eapply only_trans; [|eapply only_bulk; [|exact Hb]].
  - apply only_orders. intros k Hk. simpl. by rewrite lookup_insert_ne.
  - apply Hdb.
Qed.

Lemma only_order_update pk i customer a db db' pk' :
  DbOk db → Orders.update pk i customer a db = Ok (pk', db') → pk' = pk ∧ only pk db db'.
Proof.
  intros Hdb. unfold Orders.update, enforce. destruct (has _ _); [|done]. cbv zeta. set (saved := set_orders _ db).
  assert (only pk db saved) as Hs by (apply only_orders; intros k Hk; simpl; by rewrite lookup_insert_ne).
  destruct (oa_items a) as [items|]; [|by intros [= <- <-]]. intros Hc.
  apply res_bind_ok in Hc as (db1 & Hb & [= <- <-]). split; [done|]. eapply only_trans; [exact Hs|].
  eapply only_trans; [apply only_drop_items|]. eapply only_bulk; [|exact Hb].
  eapply ahead_shrunk; [apply shrunk_filter|]. apply Hdb.
Qed.

Lemma only_order_delete pk db db' :
  Orders.delete_order pk db = Ok (tt, db') → only pk db db'.
Proof.
  intros [= <-]. eapply only_trans; [|apply only_orders; intros k Hk; simpl; by rewrite lookup_delete_ne].
  eapply only_trans; [|apply only_drop_items]. split; [done|]. intros k Hk. unfold order_state. simpl. f_equal.
  set_solver.
Qed.

(** A request by [u] touched at most one order: one of its own, or a new one. *)
Definition touched (u : User) (snap db db' : Db) : Prop :=
  ∃ pk, only pk db db' ∧ (owned u snap pk ∨ rows (b_orders db) !! pk = None).

Lemma touched_refl u snap db : DbOk db → touched u snap db db.
Proof. intros Hdb. exists (next (b_orders db)). split; [apply only_refl|]. right. apply next_free, Hdb. Qed.

Section customer.
Context (mt : bool) (sn : option string) (u : User) (snap db : Db).
Hypothesis Hrole : u_role u = CUSTOMER.
Hypothesis Hdb : DbOk db.

Definition safe {A} (m : H A) : Prop := touched u snap db (m snap db).2.

Lemma safe_bind {A B} (m : H A) (k : A → H B) :
  (m snap db).2 = db → (∀ a, (m snap db).1 = Ok a → safe (k a)) → safe (hbind m k).
Proof.
  unfold safe, hbind. destruct (m snap db) as [[a|e] db'] eqn:E; simpl; intros -> Hk; [by apply Hk|by apply touched_refl].
Qed.

(** The answer is read afterwards. *)
Lemma safe_then {A B} (m : H A) (k : A → H B) :
  safe m → (∀ a s d, (k a s d).2 = d) → safe (hbind m k).
Proof.
  unfold safe, hbind. destruct (m snap db) as [[a|e] db'] eqn:E; simpl; [|done]. intros Ht Hk. by rewrite Hk.
Qed.

Lemma safe_ret {A} (a : A) : safe (hret a).
Proof. by apply touched_refl. Qed.
Lemma safe_raise {A} e : safe (hraise e : H A).
Proof. by apply touched_refl. Qed.

Lemma permitted_same allowed user s d : (permitted allowed user s d).2 = d.
Proof. unfold permitted. destruct user; [|done]. by destruct (allowed _). Qed.
Lemma permitted_user allowed user s d v : (permitted allowed user s d).1 = Ok v → user = Some v.
Proof. unfold permitted. destruct user; [|done]. destruct (allowed _); [|done]. by intros [= ->]. Qed.

Lemma safe_create a : safe (Orders.perform_create u a).
Proof.
  unfold Orders.perform_create. rewrite bool_decide_true by done. apply safe_bind; [done|]. intros c _.
  unfold safe, hsave. destruct (Orders.create c a db) as [[pk db']|e] eqn:E; [|by apply touched_refl].
  apply only_order_create in E as [-> Ho]; [|done]. exists (next (b_orders db)). split; [done|]. right. apply next_free, Hdb.
Qed.

Lemma safe_update pk i a : owned u snap pk → safe (Orders.perform_update u pk i a).
Proof.
  intros Hown. unfold Orders.perform_update. rewrite bool_decide_true by done. apply safe_bind; [done|]. intros mine _.
  destruct mine; [|by apply touched_refl]. unfold safe, hsave. simpl.
  destruct (Orders.update _ _ _ _ _) as [[pk' db']|e] eqn:E; [|by apply touched_refl].
  apply only_order_update in E as [-> Ho]; [|done]. exists pk. auto.
Qed.

Lemma safe_destroy pk i : owned u snap pk → safe (Orders.perform_destroy u pk i).
Proof.
  intros Hown. unfold Orders.perform_destroy. apply safe_bind; [done|]. intros mine _.
  destruct (_ && _); [by apply touched_refl|]. unfold safe, hsave.
  exists pk. split; [|by left]. by apply only_order_delete.
Qed.

Lemma safe_orders e q : order_request q = true → safe (dispatch e (Some u) q).
Proof.
  intros Hq. destruct q; try done; simpl; clear Hq;
    try (apply safe_then; [|done]); (apply safe_bind; [apply permitted_same|]; intros v Hv;
    apply permitted_user in Hv as [= <-]).
  - by apply touched_refl.
  - by apply touched_refl.
  - apply safe_bind; [done|]. intros a' _. apply safe_then; [apply safe_create|done].
  - apply safe_bind; [done|]. intros i Hi. apply object_owned in Hi as [Hown _]; [|done].
    apply safe_bind; [done|]. intros a' _. apply safe_then; [by apply safe_update|done].
  - apply safe_bind; [done|]. intros i Hi. apply object_owned in Hi as [Hown _]; [|done]. by apply safe_destroy.
Qed.

End customer.

(** A successful answer comes from the handler, run for the user. *)
Lemma answered_by {A} allowed u (k : User → H A) snap db a :
  (hbind (permitted allowed (Some u)) k snap db).1 = Ok a → (k u snap db).1 = Ok a.
Proof. unfold hbind, permitted. by destruct (allowed (Some u)). Qed.

(** C33: a customer's request on the orders endpoints leaves every order that was not
    his when the request read the database as it was - its row, its items and the
    routes it is on - whatever the other requests did between the request's reads and
    its writes; so an order that is someone else's when he writes is safe unless it was
    taken from him in between ([BizScenario.reassigned_order_taken_back] is that race).
    No other table changes. *)
Theorem customer_isolation e u q snap db :
  DbOk db → u_role u = CUSTOMER → order_request q = true →
  let db' := (dispatch e (Some u) q snap db).2 in
  rest_of db' = rest_of db
  ∧ (∀ pk, is_Some (rows (b_orders db) !! pk) → ~ owned u snap pk → order_state db' pk = order_state db pk)
  ∧ (∀ pk, is_Some (rows (b_orders db) !! pk) → (owned u snap pk → owned u db pk) → ~ owned u db pk →
       order_state db' pk = order_state db pk).
Proof.
  intros Hdb Hu Hq db'. destruct (safe_orders u snap db Hu Hdb e q Hq) as (pk0 & [Hrest Hsame] & Hpk0).
  assert (∀ pk, is_Some (rows (b_orders db) !! pk) → ~ owned u snap pk → order_state db' pk = order_state db pk) as Hkeep.
  { intros pk [r Hr] Hnot. apply Hsame. intros ->. destruct Hpk0; [done|congruence]. }
  split; [exact Hrest|]. split; [exact Hkeep|]. intros pk Hr Hkept Hnot. apply Hkeep; auto.
Qed.

(** A customer sees and creates only orders of the own profile. *)
Theorem customer_sees_own mt sn u snap db :
  u_role u = CUSTOMER →
  (∀ l, (Orders.list_orders mt sn (Some u) snap db).1 = Ok l → ∀ d, d ∈ l → owned u snap d.1.1)
  ∧ (∀ pk d, (Orders.retrieve mt sn (Some u) pk snap db).1 = Ok d → d.1.1 = pk ∧ owned u snap pk)
  ∧ (∀ a c, Orders._customer_for_request u snap = Ok c → user_of_customer snap c = Some (u_id u)
      ∧ Orders.perform_create u a snap db = hsave (Orders.create c a) snap db).
Proof.
  intros Hu. split_and!.
  - intros l Hl d Hd. apply answered_by in Hl. simpl in Hl. injection Hl as <-. apply list_elem_of_omap in Hd as (pk & Hpk & Hd).
    apply list_elem_of_fmap in Hpk as ([k r] & -> & Hin). apply elem_of_map_to_list, map_lookup_filter_Some in Hin as [Hr Hq].
    unfold order_data in Hd. simpl in Hd. rewrite Hr in Hd. injection Hd as <-. simpl. exists r. split; [done|].
    simpl in Hq. unfold Orders.in_queryset in Hq. rewrite bool_decide_true in Hq by done. by apply bool_decide_unpack in Hq.
  - intros pk d Hd. apply answered_by in Hd. simpl in Hd. apply res_bind_ok in Hd as (r & Hg & [= <-]). split; [done|]. by eapply object_owned.
  - intros a c Hc. unfold Orders.perform_create. rewrite bool_decide_true by done. unfold hbind, hcheck.
    split; [|by rewrite Hc]. unfold Orders._customer_for_request in Hc.
    destruct (find_row _ _) as [[k row]|] eqn:E; [|done]. injection Hc as <-. apply find_row_ok in E as [Hk Hp].
    unfold user_of_customer. rewrite Hk. simpl. f_equal. by apply Z.eqb_eq.
Qed.

(** * Properties of routes, profiles and plates *)

(** ** Drivers and cars of open routes *)

(** No driver and no car is on two open routes. *)
Definition exclusive (db : Db) : Prop :=
  ∀ k1 k2 r1 r2, rows (b_routes db) !! k1 = Some r1 → rows (b_routes db) !! k2 = Some r2 →
    open_route r1 = true → open_route r2 = true → k1 ≠ k2 → rt_driver r1 ≠ rt_driver r2 ∧ rt_car r1 ≠ rt_car r2.

(** Handlers that leave the routes alone. *)
Definition same_routes {A} (m : H A) : Prop := ∀ snap db, b_routes (m snap db).2 = b_routes db.

Lemma same_bind {A B} (m : H A) (k : A → H B) :
  same_routes m → (∀ a, same_routes (k a)) → same_routes (hbind m k).
Proof.
  intros Hm Hk snap db. specialize (Hm snap db). unfold hbind. destruct (m snap db) as [[a|e] db']; [|done].
  simpl in Hm. rewrite <- Hm. apply Hk.
Qed.
Lemma same_save {A} (f : Db → res BErr (A * Db)) :
  (∀ db a db', f db = Ok (a, db') → b_routes db' = b_routes db) → same_routes (hsave f).
Proof. intros Hf snap db. unfold hsave. destruct (f db) as [[a db']|e] eqn:E; [|done]. by eapply Hf. Qed.
Lemma same_permitted allowed user : same_routes (permitted allowed user).
Proof. intros snap db. unfold permitted. destruct user; [|done]. by destruct (allowed _). Qed.

Lemma bulk_routes pk items db db' : bulk_create pk items db = Ok db' → b_routes db' = b_routes db.
Proof.
  revert db. induction items as [|i items IH]; intros db; simpl; [by intros [= <-]|].
  unfold enforce. destruct (item_free _ _ _); [|done]. intros Hb. by apply IH in Hb.
Qed.

Ltac same := repeat first
  [ apply same_permitted | done | apply same_bind; [|intros] | progress case_match ].

Lemma same_order_create c a : same_routes (hsave (Orders.create c a)).
Proof.
  apply same_save. intros db x db' Hf. unfold Orders.create, enforce in Hf. destruct (has _ _); [|done].
  apply res_bind_ok in Hf as (db1 & Hb & [= _ <-]). by apply bulk_routes in Hb.
Qed.
Lemma same_order_update pk i c a : same_routes (hsave (Orders.update pk i c a)).
Proof.
  apply same_save. intros db x db' Hf. unfold Orders.update, enforce in Hf. destruct (has _ _); [|done].
  destruct (oa_items a); [|by injection Hf as _ <-]. apply res_bind_ok in Hf as (db1 & Hb & [= _ <-]). by apply bulk_routes in Hb.
Qed.

Lemma same_update_user mp pk u a p db db' : update_user mp pk u a p db = Ok db' → b_routes db' = b_routes db.
Proof. unfold update_user, enforce. destruct (_ && _); [by intros [= <-]|]. destruct (username_free _ _ _); [|done]. by intros [= <-]. Qed.

(** A request that is not about routes. *)
Definition route_request (q : Req) : bool := match q with RoutePost _ | RoutePut _ _ _ | RouteDelete _ => true | _ => false end.

(** A transaction that may refuse, and does not write routes. *)
Lemma same_enforce {A} (c : Db → bool) (f : Db → A * Db) :
  (∀ db, b_routes (f db).2 = b_routes db) → same_routes (hsave (λ db, enforce (c db) (Ok (f db)))).
Proof.
  intros Hf. apply same_save. intros db a db' E. unfold enforce in E. destruct (c db); [|done]. injection E as E.
  by rewrite <- (Hf db), E.
Qed.
Lemma same_protected {A} (c : Db → bool) (f : Db → A * Db) :
  (∀ db, b_routes (f db).2 = b_routes db) →
  same_routes (hsave (λ db, if c db then Err ProtectedError else Ok (f db))).
Proof.
  intros Hf. apply same_save. intros db a db' E. destruct (c db); [done|]. injection E as E. by rewrite <- (Hf db), E.
Qed.
Lemma same_profile mp pk u a p (c : Db → bool) (f : Db → Z * Db) :
  (∀ db, b_routes (f db).2 = b_routes db) →
  same_routes (hsave (λ db, db1 <-? update_user mp pk u a p db ;; enforce (c db1) (Ok (f db1)))).
Proof.
  intros Hf. apply same_save. intros db x db' E. apply res_bind_ok in E as (db1 & Hu & E). unfold enforce in E.
  destruct (c db1); [|done]. injection E as E. rewrite <- (same_update_user _ _ _ _ _ _ _ Hu), <- (Hf db1). by rewrite E.
Qed.
Lemma same_new_profile mp nu ne a p role (c : Z * Db → Db → bool) (f : Z * Db → Db → Z * Db) :
  (∀ ud db, b_routes (f ud db).2 = b_routes ud.2) →
  same_routes (hsave (λ db, ud <-? create_user mp nu ne a p role db ;; enforce (c ud db) (Ok (f ud db)))).
Proof.
  intros Hf. apply same_save. intros db x db' E. apply res_bind_ok in E as (ud & Hu & E). unfold enforce in E.
  destruct (c ud db); [|done]. injection E as E. assert (b_routes ud.2 = b_routes db) as <-.
  { unfold create_user, enforce in Hu. destruct (username_free _ _ _); [|done]. by injection Hu as <-. }
  rewrite <- (Hf ud db). by rewrite E.
Qed.

Lemma same_dispatch e user q : route_request q = false → same_routes (dispatch e user q).
Proof.
  intros Hq. destruct q; try done; simpl; clear Hq; same.
  - unfold perform_create. same; apply same_order_create.
  - unfold perform_update. same; apply same_order_update.
  - by apply (same_new_profile _ _ _ _ _ _ (λ ud db, driver_free None _ ud.2) (λ ud db, (_, set_drivers (add_row _) ud.2))).
  - by apply (same_profile _ _ _ _ _ (λ db, driver_free _ _ db) (λ db, (_, set_drivers _ db))).
  - by apply (same_protected (λ db, any_other _ _ _) (λ db, (tt, set_drivers _ db))).
  - by apply (same_new_profile _ _ _ _ _ _ (λ ud db, customer_free None _ ud.2) (λ ud db, (_, set_customers (add_row _) ud.2))).
  - by apply (same_profile _ _ _ _ _ (λ db, customer_free _ _ db) (λ db, (_, set_customers _ db))).
  - by apply (same_protected (λ db, any_other _ _ _) (λ db, (tt, set_customers _ db))).
  - by apply (same_profile _ _ _ _ _ (λ db, customer_free _ _ db) (λ db, (_, set_customers _ db))).
  - by apply (same_enforce (λ db, plate_free None _ db) (λ db, (_, set_cars _ db))).
  - by apply (same_enforce (λ db, plate_free _ _ db) (λ db, (_, set_cars _ db))).
  - by apply (same_protected (λ db, any_other _ _ _) (λ db, (tt, set_cars _ db))).
  - by apply (same_enforce (λ db, name_free None _ db) (λ db, (_, set_products _ db))).
  - by apply (same_enforce (λ db, name_free _ _ db) (λ db, (_, set_products _ db))).
  - by apply (same_protected (λ db, any_other _ _ _) (λ db, (tt, set_products _ db))).
Qed.

(** The route is alone on its driver and car among the open routes. *)
Definition unshared (pk : option Z) (r : Route) (t : Table Route) : Prop :=
  any_other pk (λ x, open_route x && (rt_driver x =? rt_driver r)) t = false
  ∧ any_other pk (λ x, open_route x && (rt_car x =? rt_car r)) t = false.

Lemma unshared_ne pk r t k x :
  unshared pk r t → rows t !! k = Some x → Some k ≠ pk → open_route x = true →
  rt_driver x ≠ rt_driver r ∧ rt_car x ≠ rt_car r.
Proof.
  intros [Hd Hc] Hk Hne Hx. rewrite any_other_false in Hd, Hc. specialize (Hd k x Hk Hne). specialize (Hc k x Hk Hne).
  simpl in Hd, Hc. rewrite Hx in Hd, Hc. simpl in Hd, Hc. lia.
Qed.

Lemma exclusive_routes db db' : b_routes db' = b_routes db → exclusive db → exclusive db'.
Proof. unfold exclusive. by intros ->. Qed.

Lemma exclusive_put pk o r db db' :
  exclusive db → rows (b_routes db') = <[pk := r]> (rows (b_routes db)) →
  (o = Some pk ∨ o = None) → (open_route r = true → unshared o r (b_routes db)) → exclusive db'.
Proof.
  intros Hx E Ho Hu k1 k2 r1 r2 H1 H2 O1 O2 Hne. rewrite E in H1, H2.
  apply lookup_insert_Some in H1 as [[<- <-]|[N1 H1]], H2 as [[<- <-]|[N2 H2]]; [done|..].
  - destruct (unshared_ne o r (b_routes db) k2 r2); [auto|done|destruct Ho; congruence|done|split; congruence].
  - eapply unshared_ne; [by apply Hu|exact H1|destruct Ho; congruence|done].
  - by eapply Hx.
Qed.

Lemma route_checked instance a db a' :
  Routes.validate instance a db = Ok a' →
  a' = a ∧ ∀ r, open_route r = true →
    rt_status r = default R_PLANNED (or_instance (ra_status a) rt_status instance) →
    or_instance (ra_driver a) rt_driver instance = Some (rt_driver r) →
    or_instance (ra_car a) rt_car instance = Some (rt_car r) → unshared (fst <$> instance) r (b_routes db).
Proof.
  unfold Routes.validate. destruct (mem _ OPEN) eqn:Em.
  - intros Hv. split; [break_all; congruence|]. intros r _ _ Hd Hc. rewrite Hd, Hc in Hv. split; by break_all.
  - intros [= ->]. split; [done|]. intros r Hr Hs. unfold open_route in Hr. rewrite Hs, Em in Hr. done.
Qed.

Lemma routes_set_route pk os db db' : set_route pk os db = Ok db' → b_routes db' = b_routes db.
Proof. unfold set_route, enforce. destruct (forallb _ _); [|done]. by intros [= <-]. Qed.
Lemma routes_sync pk st db : b_routes (_sync_order_status pk st db) = b_routes db.
Proof. by destruct st. Qed.

Lemma route_created name driver car a db pk db' :
  Routes.create name driver car a db = Ok (pk, db') →
  b_routes db' = add_row (mkRoute name driver car (default R_PLANNED (ra_status a)) (b_now db)) (b_routes db).
Proof.
  unfold Routes.create, enforce. destruct (route_fk _ _); [|done]. cbv zeta.
  destruct (ra_orders a) as [[|o os]|]; [by intros [= _ <-]| |by intros [= _ <-]].
  intros E. apply res_bind_ok in E as (db2 & Hs & [= _ <-]). rewrite routes_sync. by apply routes_set_route in Hs.
Qed.

Definition merged_route (i : Route) (a : RouteAttrs) : Route :=
  mkRoute (default (rt_name i) (ra_name a)) (default (rt_driver i) (ra_driver a))
    (default (rt_car i) (ra_car a)) (default (rt_status i) (ra_status a)) (rt_created_at i).

Lemma route_updated pk i a db pk' db' :
  Routes.update pk i a db = Ok (pk', db') → b_routes db' = put_row pk (merged_route i a) (b_routes db).
Proof.
  unfold Routes.update, enforce. destruct (route_fk _ _); [|done]. cbv zeta. intros E.
  apply res_bind_ok in E as (db2 & Hs & [= _ <-]). rewrite routes_sync.
  destruct (ra_orders a); [by apply routes_set_route in Hs|by injection Hs as <-].
Qed.

(** A handler run alone. *)
Lemma alone_bind {A B} P (m : H A) (k : A → H B) db :
  (∀ s d, (m s d).2 = d) → P db → (∀ a, (m db db).1 = Ok a → P (k a db db).2) → P (hbind m k db db).2.
Proof.
  intros Hm HP Hk. unfold hbind. specialize (Hm db db). destruct (m db db) as [[a|e] db'] eqn:E; simpl in *; subst; auto.
Qed.
Lemma alone_then {A B} (P : Db → Prop) (m : H A) (k : A → H B) db :
  P (m db db).2 → (∀ a s d, (k a s d).2 = d) → P (hbind m k db db).2.
Proof. intros HP Hk. unfold hbind. destruct (m db db) as [[a|e] db']; [|done]. simpl. by rewrite Hk. Qed.

Lemma permitted_keeps allowed user s d : (permitted allowed user s d).2 = d.
Proof. unfold permitted. destruct user; [|done]. by destruct (allowed _). Qed.

Lemma exclusive_post mt sn user a db : exclusive db → exclusive (Routes.post mt sn user a db db).2.
Proof.
  intros Hx. apply (alone_bind exclusive); [apply permitted_keeps|done|]. intros u _. apply (alone_bind exclusive); [done..|]. intros a' Ha.
  simpl in Ha. apply when_valid_ok in Ha as [_ Ha]. apply route_checked in Ha as [-> Hu]. apply (alone_then exclusive); [|done].
  unfold save_new. destruct (ra_name a) as [name|], (ra_driver a) as [d|] eqn:Ed, (ra_car a) as [c|] eqn:Ec; try done.
  unfold hsave. destruct (Routes.create _ _ _ _ _) as [[pk db']|e] eqn:E; [|done]. apply route_created in E. simpl.
  eapply (exclusive_put (next (b_routes db)) None); [done|by rewrite E|by right|]. intros Ho. apply Hu; try done.
  simpl. by destruct (ra_status a).
Qed.

Lemma exclusive_update mt sn user partial pk a db :
  exclusive db → exclusive (Routes.put mt sn user partial pk a db db).2.
Proof.
  intros Hx. apply (alone_bind exclusive); [apply permitted_keeps|done|]. intros u _. apply (alone_bind exclusive); [done..|]. intros i _.
  apply (alone_bind exclusive); [done..|]. intros a' Ha. simpl in Ha. apply when_valid_ok in Ha as [_ Ha].
  apply route_checked in Ha as [-> Hu]. apply (alone_then exclusive); [|done].
  unfold hsave. destruct (Routes.update _ _ _ _) as [[pk' db']|e] eqn:E; [|done]. apply route_updated in E. simpl.
  eapply (exclusive_put pk (Some pk) (merged_route i a)); [done|by rewrite E|by left|]. intros Ho. apply (Hu _ Ho).
  - simpl. by destruct (ra_status a).
  - simpl. by destruct (ra_driver a).
  - simpl. by destruct (ra_car a).
Qed.

Lemma exclusive_delete mt sn user pk db : exclusive db → exclusive (Routes.destroy mt sn user pk db db).2.
Proof.
  intros Hx. apply (alone_bind exclusive); [apply permitted_keeps|done|]. intros u _. apply (alone_bind exclusive); [done..|]. intros i _.
  intros k1 k2 r1 r2 H1 H2. simpl in H1, H2. apply lookup_delete_Some in H1 as [_ H1], H2 as [_ H2]. by eapply Hx.
Qed.

(** Requests that run one after the other never put a driver or a car on two open
    routes. *)
Theorem routes_exclusive e user q db : exclusive db → exclusive (dispatch e user q db db).2.
Proof.
  intros Hx. destruct (route_request q) eqn:Hq.
  - destruct q; try done; simpl; [apply (alone_then exclusive); [by apply exclusive_post|done]|apply (alone_then exclusive); [by apply exclusive_update|done]|].
    by apply exclusive_delete.
  - eapply exclusive_routes; [|exact Hx]. by apply same_dispatch.
Qed.

(** ** The orders of a route follow its status *)

(** What the status of a route says about its orders. *)
Definition synced (st : RouteStatus) : option OrderStatus :=
  match st with R_ACTIVE => Some IN_ROUTE | R_COMPLETED => Some DELIVERED | _ => None end.

Lemma sync_orders pk st db o row s :
  synced st = Some s → (pk, o) ∈ b_route_orders db → rows (b_orders (_sync_order_status pk st db)) !! o = Some row →
  or_status row = s.
Proof.
  intros Hs Hin Hrow. assert (rows (b_orders (update_orders pk s db)) !! o = Some row) as Hr by (destruct st; naive_solver).
  simpl in Hr. rewrite map_lookup_imap in Hr. destruct (rows (b_orders db) !! o) as [r|]; [|done]. simpl in Hr.
  rewrite bool_decide_true in Hr by done. by simplify_eq/=.
Qed.

Lemma sync_relation pk st db : b_route_orders (_sync_order_status pk st db) = b_route_orders db.
Proof. by destruct st. Qed.

Lemma set_route_orders_exact pk os db db' o :
  set_route pk os db = Ok db' → ((pk, o) ∈ b_route_orders db' ↔ o ∈ os).
Proof.
  unfold set_route, enforce. destruct (forallb _ _); [|done]. intros [= <-]. simpl.
  rewrite elem_of_union, elem_of_filter, elem_of_list_to_set, list_elem_of_fmap. simpl. naive_solver.
Qed.

(** A successful update of a route writes the row it says, sets its orders to the
    ones given, and every order then on an active route is in route, on a completed
    one delivered, whatever other requests did meanwhile. *)
Theorem route_put_syncs mt sn user partial pk a snap db d db' :
  Routes.put mt sn user partial pk a snap db = (Ok d, db') →
  ∃ i, rows (b_routes snap) !! pk = Some i ∧ rows (b_routes db') !! pk = Some (merged_route i a)
    ∧ (∀ os o, ra_orders a = Some os → ((pk, o) ∈ b_route_orders db' ↔ o ∈ os))
    ∧ (∀ s o row, synced (rt_status (merged_route i a)) = Some s → (pk, o) ∈ b_route_orders db' →
         rows (b_orders db') !! o = Some row → or_status row = s).
Proof.
  unfold Routes.put, hbind. destruct (permitted _ _ _ _) as [[u|e] db1] eqn:Ep; [|done].
  pose proof (permitted_keeps (write_allowed mt sn) user snap db) as Hp. rewrite Ep in Hp. simpl in Hp. subst db1.
  unfold hcheck. destruct (Routes.get_object u pk snap) as [i|e] eqn:Eg; [|done]. apply route_object_ok in Eg.
  destruct (validated _ _ _ _) as [a'|e] eqn:Ev; [|done]. apply when_valid_ok in Ev as [_ Ev]. apply route_checked in Ev as [-> _].
  unfold hsave. destruct (Routes.update pk i a db) as [[pk' db2]|e] eqn:E; [|done]. unfold respond. intros [= _ <-].
  pose proof (route_updated _ _ _ _ _ _ E) as Hr. exists i. split; [done|]. split; [rewrite Hr; apply lookup_insert_eq|].
  unfold Routes.update, enforce in E. destruct (route_fk _ _); [|done]. cbv zeta in E.
  apply res_bind_ok in E as (db3 & Hs & [= _ <-]). rewrite sync_relation. split.
  - intros os o Ho. rewrite Ho in Hs. by eapply set_route_orders_exact.
  - intros s o row Hst Hin Hrow. by eapply sync_orders.
Qed.

(** ** Dates of birth *)

(** The date on which someone born on [d] turns [n]. *)
Definition birthday (n : Z) (d : Date) : Date := (d.1.1 + n, d.1.2, d.2).

(** A date of birth is accepted exactly from the eighteenth birthday on. *)
Theorem driver_of_age today d :
  validate_date_of_birth today (Some d) = [] ↔ date_lt today (birthday MIN_DRIVER_AGE d) = false.
Proof.
  destruct today as [[y m] a], d as [[y' m'] a'].
  unfold validate_date_of_birth, date_lt, md_lt, birthday, age_on, md_lt, MIN_DRIVER_AGE. simpl.
  destruct (m <? m') eqn:?, (m =? m') eqn:?, (a <? a') eqn:?; simpl; rewrite ?andb_false_r, ?andb_true_r, ?orb_false_r;
    (destruct ((y <? y') || _) eqn:? || destruct (y <? y') eqn:?); repeat case_match; split; intros; try done; bool_props; try lia.
Qed.

(** ** Normalisation of license numbers and plates *)

Definition plate_char (c : ascii) : bool := is_AZ c || is_09 c || char_in "- " c.

Lemma plate_char_upper c : plate_char c = true → py_upper_char c = [c].
Proof. by ascii_cases c. Qed.
Lemma license_char_plain c :
  is_AZ c || is_09 c || char_in "-" c = true → plate_char c = true ∧ py_space c = false.
Proof. by ascii_cases c. Qed.

Lemma upper_id s : Forall (λ c, plate_char c = true) (chars s) → py_upper s = s.
Proof.
  intros Hs. unfold py_upper. rewrite <- (of_chars_chars s) at 2. f_equal. induction Hs as [|c l Hc _ IH]; [done|].
  change (py_upper_char c ++ (l ≫= py_upper_char) = c :: l). by rewrite plate_char_upper, IH.
Qed.

(** The validators run first, and what passes them is already normal: for the API,
    [upper()] and [strip()] change nothing. *)
Theorem normalisation_is_identity :
  (∀ s, license_re s = true → validate_license_number s = s ∧ save_license s = s)
  ∧ (∀ s, plate_re s = true → py_strip s = s → validate_license_plate s = s ∧ save_plate s = s).
Proof.
  assert (∀ s, py_upper s = s → py_strip s = s → validate_license_number s = s ∧ save_license s = s) as Hid.
  { intros s Hu Hs. unfold validate_license_number, save_license. rewrite Hu, Hs. by case_match. }
  split; intros s Hre.
  - apply andb_true_iff in Hre as [_ Hre]. unfold str_forall in Hre. rewrite forallb_Forall in Hre.
    apply Hid; [apply upper_id|apply py_strip_id]; (eapply Forall_impl; [exact Hre|]); intros c Hc; by apply license_char_plain.
  - apply andb_true_iff in Hre as [_ Hre]. unfold str_forall in Hre. rewrite forallb_Forall in Hre. intros Hs.
    apply Hid; [by apply upper_id|done].
Qed.
