(* ===== verification/ProductTasks.v ===== *)
(** * Generating and seeding products

    Models src/products/tasks.py and
    src/products/management/commands/seed_products.py.  [random] is an argument:
    the indices drawn by the [k]-th name, the [k]-th price, and [random.sample]. *)
From S2P Require Import Prelude PyStr BizDb Catalog Credentials Orders Routes Accounts TenantApi.
From Stdlib Require Import Ascii.
Open Scope tenants_scope.

(** ** Names *)

Definition _ADJECTIVES : list string :=
  ["Premium"; "Classic"; "Organic"; "Deluxe"; "Compact"; "Eco-Friendly";
   "Smart"; "Vintage"; "Portable"; "Handcrafted"; "Lightweight"; "Professional"].
Definition _MATERIALS : list string :=
  ["Stainless Steel"; "Bamboo"; "Ceramic"; "Leather"; "Cotton"; "Glass";
   "Wooden"; "Aluminium"; "Recycled"; "Silicone"].
Definition _ITEMS : list string :=
  ["Water Bottle"; "Coffee Mug"; "Backpack"; "Notebook"; "Desk Lamp";
   "Headphones"; "Phone Stand"; "Travel Mug"; "Tote Bag"; "Wall Clock";
   "Cutting Board"; "Storage Box"].

(** [random.choice(pool)], with the index drawn. *)
Definition choice (pool : list string) (i : nat) : string := nth (i mod length pool) pool "".

Section generate.
Context (draw : nat → nat * nat * nat) (draw_price : nat → Z).

(** The name made by call [k]. *)
Definition _make_name (k : nat) : string :=
  let '(i, j, l) := draw k in choice _ADJECTIVES i +:+ " " +:+ choice _MATERIALS j +:+ " " +:+ choice _ITEMS l.

Context (count : nat) (taken : list string).

Definition acceptable (name : string) (names : list string) : bool := negb (mem name taken) && negb (mem name names).

(** [for _ in range(count * 50)], from call [k] on. *)
Fixpoint sample_names (rounds k : nat) (names : list string) : nat * list string :=
  match rounds with
  | 0 => (k, names)
  | S rounds' =>
      if count <=? length names then (k, names)
      else
        let name := _make_name k in
        sample_names rounds' (S k) (if acceptable name names then names ++ [name] else names)
  end.

Definition candidate (k suffix : nat) : string := _make_name k +:+ " #" +:+ py_int (Z.of_nat suffix).

(** [while len(names) < count]; [None] when the fuel runs out. *)
Fixpoint suffixed_names (fuel k suffix : nat) (names : list string) : option (list string) :=
  if count <=? length names then Some names
  else match fuel with
       | 0 => None
       | S fuel' =>
           let name := candidate k suffix in
           suffixed_names fuel' (S k) (S suffix) (if acceptable name names then names ++ [name] else names)
       end.

Definition _pick_distinct_names (fuel : nat) : option (list string) :=
  let '(k, names) := sample_names (count * 50) 0 [] in suffixed_names fuel k 1 names.

End generate.

(** ** The task *)

(** A price in cents: [randrange(199, 9999)]. *)
Definition price_of (draw_price : nat → Z) (k : nat) : Z := (199 + draw_price k `mod` 9800)%Z.

(** One product per name; [others] is what other clients did before the [k]-th. *)
Fixpoint create_all (draw_price : nat → Z) (others : nat → Db → Db) (k : nat) (names : list string) (db : Db)
    : list (Z * string * Z) * Db :=
  match names with
  | [] => ([], db)
  | name :: names' =>
      let db := others k db in
      match product_create name (price_of draw_price k) db with
      | Ok (pk, db') =>
          let '(created, db'') := create_all draw_price others (S k) names' db' in
          ((pk, name, price_of draw_price k) :: created, db'')
      | Err _ => create_all draw_price others (S k) names' db
      end
  end.

Definition product_names (db : Db) : list string := (λ kp, pr_name kp.2) <$> map_to_list (rows (b_products db)).

Definition generate_products draw draw_price others (count fuel : nat) (db : Db) : option (list (Z * string * Z) * Db) :=
  names ← _pick_distinct_names draw count (product_names db) fuel;
  Some (create_all draw_price others 0 names db).

(** ** seed_products *)

Definition SAMPLE_PRODUCTS : list (string * Z) :=
  [("Болт M12 × 80", 450%Z); ("Гайка M12", 210%Z); ("Шайба плоска 12 мм", 85%Z); ("Шуруп 6 × 60", 320%Z);
   ("Дюбель 8 × 40", 110%Z); ("Анкер 10 × 100", 1230%Z); ("Саморіз гіпсокартонний", 45%Z); ("Цвях 100 мм", 30%Z);
   ("Шплінт 4 × 32", 70%Z); ("Хомут затяжний 5 × 150", 185%Z); ("Кабельна стяжка 200 мм", 20%Z);
   ("Ізолента ПВХ синя", 1850%Z); ("Скоч пакувальний 50 мм", 3200%Z); ("Маркер перманентний", 2840%Z);
   ("Викрутка хрестова PH2", 8900%Z)].

Section seed.
Context (sample : list (string * Z) → nat → list (string * Z)).

(** The [i]-th repetition. *)
Definition extra (i : nat) : string * Z :=
  let '(base_name, base_price) := nth (i mod length SAMPLE_PRODUCTS) SAMPLE_PRODUCTS ("", 0%Z) in
  let suffix := i / length SAMPLE_PRODUCTS + 2 in
  (base_name +:+ " (#" +:+ py_int (Z.of_nat suffix) +:+ ")", base_price).

(** [while extras_needed > 0], from [i] on. *)
Fixpoint extras (extras_needed i : nat) : list (string * Z) :=
  match extras_needed with 0 => [] | S n => extra i :: extras n (S i) end.

Definition _pick (count : nat) : list (string * Z) :=
  if count <=? length SAMPLE_PRODUCTS then sample SAMPLE_PRODUCTS count
  else SAMPLE_PRODUCTS ++ extras (count - length SAMPLE_PRODUCTS) 0.

(** [get_or_create] of each; how many were new. *)
Fixpoint get_or_create_all (chosen : list (string * Z)) (db : Db) : nat * Db :=
  match chosen with
  | [] => (0, db)
  | (name, price) :: chosen' =>
      match product_create name price db with
      | Ok (_, db') => let '(n, db'') := get_or_create_all chosen' db' in (S n, db'')
      | Err _ => get_or_create_all chosen' db
      end
  end.

(** [Product.objects.all().delete()]: nothing, when a product is in an order. *)
Definition delete_all (db : Db) : res BErr Db :=
  if any_other None (λ i, has (it_product i) (b_products db)) (b_items db) then Err ProtectedError
  else Ok (set_products (set_rows (λ _, ∅)) db).

Inductive SeedErr := SeedCommandError (msg : string) | SeedDb (e : BErr).

Definition seed_handle (use_multitenant : bool) (schema_name : option string) (count : Z) (reset : bool) (db : Db)
    : res SeedErr (nat * Z) * Db :=
  let schema := default "default" schema_name in
  if use_multitenant && String.eqb schema "public" then
    (Err (SeedCommandError ("Цю команду треба запускати через `python manage.py tenant_command seed_products` "
       +:+ "(інакше товари впадуть у public-схему, де немає products_product).")), db)
  else if (count <? 1)%Z then (Err (SeedCommandError "--count має бути >= 1."), db)
  else
    match (if reset then delete_all db else Ok db) with
    | Err e => (Err (SeedDb e), db)
    | Ok db1 =>
        let '(created, db2) := get_or_create_all (_pick (Z.to_nat count)) db1 in
        (Ok (created, (count - Z.of_nat created)%Z), db2)
    end.

End seed.

(** * Properties of the product tasks *)

(** ** Names with a suffix *)

Definition hash : ascii := "#"%char.

(** A name, the suffix's number. *)
Lemma suffix_inj a b n m :
  no_char hash a → no_char hash b → a +:+ " #" +:+ py_int n = b +:+ " #" +:+ py_int m → a = b ∧ n = m.
Proof.
  intros Ha Hb E. apply (f_equal chars) in E. rewrite !chars_app in E. simpl in E.
  change (chars a ++ " "%char :: hash :: chars (py_int n) = chars b ++ " "%char :: hash :: chars (py_int m)) in E.
  rewrite !(cons_middle " "%char), !app_assoc in E.
  apply cut_inj in E as [E1 E2]; [| |]; try (rewrite not_elem_of_app; split; [done|by vm_compute; set_solver]).
  apply app_inj_2 in E1 as [E1 _]; [|done]. split; [|apply py_int_inj].
  - by rewrite <- (of_chars_chars a), <- (of_chars_chars b), E1.
  - by rewrite <- (of_chars_chars (py_int n)), <- (of_chars_chars (py_int m)), E2.
Qed.

Lemma choice_no_hash pool i :
  forallb (λ s, negb (mem hash (chars s))) ("" :: pool) = true → no_char hash (choice pool i).
Proof.
  intros Hp. rewrite forallb_forall in Hp. unfold no_char. apply mem_false, negb_true_iff, Hp.
  unfold choice. destruct (nth_in_or_default (i mod length pool) pool "") as [Hin| ->]; [by right|by left].
Qed.

Section names.
Context (draw : nat → nat * nat * nat).

Lemma make_name_no_hash k : no_char hash (_make_name draw k).
Proof.
  unfold _make_name. destruct (draw k) as [[i j] l]. unfold no_char. rewrite !chars_app, !not_elem_of_app. split_and!;
    [by apply choice_no_hash|by vm_compute; set_solver|by apply choice_no_hash|by vm_compute; set_solver|by apply choice_no_hash].
Qed.

Lemma candidate_inj k suffix k' suffix' :
  candidate draw k suffix = candidate draw k' suffix' → suffix = suffix'.
Proof. intros E. apply suffix_inj in E as [_ E]; [lia|apply make_name_no_hash..]. Qed.

Lemma candidate_hash k suffix : ~ no_char hash (candidate draw k suffix).
Proof. intros Hc. apply Hc. unfold candidate. rewrite !chars_app. set_solver. Qed.

Context (count : nat) (taken : list string).

(** Names to use: distinct, not taken, not too many. *)
Record usable (names : list string) : Prop := mkUsable {
  us_distinct : NoDup names;
  us_free : ∀ x, x ∈ names → x ∉ taken;
  us_length : length names ≤ count;
}.

Lemma usable_snoc name names :
  usable names → length names < count → acceptable taken name names = true → usable (names ++ [name]).
Proof.
  intros [Hd Hf Hl] Hlt Ha. apply andb_true_iff in Ha as [Ht Hn]. rewrite !negb_true_iff, !mem_false in Ht, Hn. split.
  - apply NoDup_app. split; [done|]. split; [set_solver|]. apply NoDup_singleton.
  - intros x Hx. apply elem_of_app in Hx as [Hx|Hx%list_elem_of_singleton]; [auto|by subst].
  - rewrite length_app. simpl. lia.
Qed.

Lemma sample_usable rounds k names :
  usable names → Forall (no_char hash) names →
  usable (sample_names draw count taken rounds k names).2
  ∧ Forall (no_char hash) (sample_names draw count taken rounds k names).2.
Proof.
  revert k names. induction rounds as [|rounds IH]; intros k names Hu Hh; simpl; [done|].
  destruct (count <=? length names) eqn:El; [done|]. apply Nat.leb_gt in El.
  destruct (acceptable _ _ _) eqn:Ea; [|by apply IH]. apply IH; [by apply usable_snoc|].
  apply Forall_app. split; [done|]. apply Forall_singleton, make_name_no_hash.
Qed.

(** [rem] holds every candidate still to come that is in the way: each rejection
    uses one up. *)
Lemma suffixed_total fuel k s names rem :
  (∀ k' s', s ≤ s' → candidate draw k' s' ∈ taken ∨ candidate draw k' s' ∈ names → candidate draw k' s' ∈ rem) →
  usable names → count - length names + length rem ≤ fuel →
  ∃ res, suffixed_names draw count taken fuel k s names = Some res ∧ usable res ∧ length res = count.
Proof.
  revert k s names rem. induction fuel as [|fuel IH]; intros k s names rem Hrem Hu Hfuel; simpl.
  - exists names. rewrite (proj2 (Nat.leb_le _ _)) by lia. split_and!; [done..|]. destruct Hu. lia.
  - destruct (count <=? length names) eqn:El.
    { exists names. apply Nat.leb_le in El. split_and!; [done..|]. destruct Hu. lia. }
    apply Nat.leb_gt in El. destruct (acceptable _ _ _) eqn:Ea.
    + apply (IH _ _ _ rem); [|by apply usable_snoc|rewrite length_app; simpl; lia].
      intros k' s' Hs' Hin. apply Hrem; [lia|]. rewrite elem_of_app, list_elem_of_singleton in Hin.
      destruct Hin as [Hin|[Hin|Hin]]; [by left|by right|]. apply candidate_inj in Hin. lia.
    + apply (IH _ _ _ (filter (λ x, x ≠ candidate draw k s) rem)); [|done|].
      * intros k' s' Hs' Hin. apply list_elem_of_filter. split; [|apply Hrem; [lia|done]].
        intros E. apply candidate_inj in E. lia.
      * assert (candidate draw k s ∈ rem) as Hin.
        { apply Hrem; [done|]. unfold acceptable in Ea. rewrite <- negb_orb, negb_false_iff, orb_true_iff in Ea.
          by rewrite !mem_spec in Ea. }
        pose proof (length_filter_lt (λ x, x ≠ candidate draw k s) rem _ Hin ltac:(auto)). lia.
Qed.

End names.

(** C36: [_pick_distinct_names] returns, whatever the random draws and however full the
    table: [count] names, distinct from each other and from the taken ones.  The
    loop that appends suffixes makes at most [count + len(taken)] rounds. *)
Theorem pick_distinct_total draw count taken fuel :
  count + length taken ≤ fuel →
  ∃ names, _pick_distinct_names draw count taken fuel = Some names
    ∧ length names = count ∧ NoDup names ∧ (∀ x, x ∈ names → x ∉ taken).
Proof.
  intros Hfuel. unfold _pick_distinct_names.
  pose proof (sample_usable draw count taken (count * 50) 0 []) as Hs.
  destruct (sample_names _ _ _ _ _ _) as [k names]. destruct Hs as [Hu Hh]; [split; simpl; [constructor|set_solver|lia]|done|].
  simpl in Hu, Hh.
  destruct (suffixed_total draw count taken fuel k 1 names taken) as (res & E & [] & Hl); [|done|lia|by exists res].
  intros k' s' _ [Hin|Hin]; [done|]. rewrite Forall_forall in Hh. by destruct (candidate_hash draw k' s'); apply Hh.
Qed.

(** ** The rows created *)

Lemma name_free_spec name db :
  name_free None name db = true ↔ ∀ k p, rows (b_products db) !! k = Some p → pr_name p ≠ name.
Proof.
  unfold name_free. rewrite negb_true_iff, any_other_false. split; intros Hf k p Hk.
  - specialize (Hf k p Hk). intros E. rewrite (proj2 (String.eqb_eq _ _) E) in Hf. naive_solver.
  - intros _. by apply String.eqb_neq, (Hf k).
Qed.

Lemma names_free db name : name ∉ product_names db ↔ name_free None name db = true.
Proof.
  rewrite name_free_spec. unfold product_names. rewrite list_elem_of_fmap. split.
  - intros Hn k p Hk <-. apply Hn. exists (k, p). split; [done|]. by apply elem_of_map_to_list.
  - intros Hn ([k p] & -> & Hin). apply elem_of_map_to_list in Hin. by apply (Hn k p).
Qed.

(** A product created under a free name. *)
Lemma create_free name price db :
  DbOk db → name_free None name db = true →
  ∃ db', product_create name price db = Ok (next (b_products db), db') ∧ DbOk db'
    ∧ rows (b_products db') = <[next (b_products db) := mkProduct name price]> (rows (b_products db))
    ∧ rows (b_products db) ⊆ rows (b_products db')
    ∧ (∀ x, x ≠ name → name_free None x db = true → name_free None x db' = true).
Proof.
  intros Hdb Hf. pose proof (kept_product_create name price db Hdb) as Hk. unfold product_create, enforce in *.
  rewrite Hf in *. eexists. split; [done|]. destruct Hk as [Hok _]. split; [done|]. split; [done|]. split.
  - simpl. apply insert_subseteq. destruct (_ !! _) eqn:E; [|done].
    pose proof (proj1 (ok_products _ Hdb) _ (mk_is_Some _ _ E)). lia.
  - intros x Hx. rewrite !name_free_spec. intros Hn k p Hk. simpl in Hk. apply lookup_insert_Some in Hk as [[_ <-]|[_ Hk]]; [done|].
    by eapply Hn.
Qed.

(** Every name free and distinct: one row each. *)
Lemma create_all_free draw_price k names db :
  DbOk db → NoDup names → (∀ x, x ∈ names → name_free None x db = true) →
  let '(created, db') := create_all draw_price (λ _, id) k names db in
  (λ c, c.1.2) <$> created = names ∧ DbOk db' ∧ rows (b_products db) ⊆ rows (b_products db')
  ∧ ∀ pk name price, (pk, name, price) ∈ created →
      rows (b_products db') !! pk = Some (mkProduct name price) ∧ (199 ≤ price ≤ 9998)%Z.
Proof.
  revert k db. induction names as [|name names IH]; intros k db Hdb Hnd Hfree; simpl; [split_and!; try done; set_solver|].
  apply NoDup_cons in Hnd as [Hni Hnd].
  destruct (create_free name (price_of draw_price k) db Hdb) as (db1 & E & Hdb1 & Hrows & Hsub & Hothers);
    [apply Hfree; by left|]. change (id db) with db. rewrite E. specialize (IH (S k) db1 Hdb1 Hnd).
  destruct (create_all draw_price (λ _, id) (S k) names db1) as [created db2].
  destruct IH as (Hn & Hdb2 & Hsub2 & Hc).
  { intros x Hx. apply Hothers; [by intros ->|]. apply Hfree. by right. }
  split_and!; [by rewrite fmap_cons, Hn|done|by etrans|]. intros pk n p Hin. apply elem_of_cons in Hin as [[= -> -> ->]|Hin]; [|by apply Hc].
  split; [eapply lookup_weaken; [|exact Hsub2]; rewrite Hrows; apply lookup_insert_eq|].
  unfold price_of. pose proof (Z.mod_pos_bound (draw_price k) 9800). lia.
Qed.

(** An undisturbed run of the task creates exactly [count] products: new distinct
    names, prices from 1.99 to 99.98, every row that was there untouched. *)
Theorem generate_products_exact draw draw_price count fuel db :
  DbOk db → count + length (product_names db) ≤ fuel →
  ∃ created db', generate_products draw draw_price (λ _, id) count fuel db = Some (created, db')
    ∧ length created = count ∧ NoDup ((λ c, c.1.2) <$> created)
    ∧ (∀ pk name price, (pk, name, price) ∈ created →
         rows (b_products db') !! pk = Some (mkProduct name price) ∧ (199 ≤ price ≤ 9998)%Z ∧ name ∉ product_names db)
    ∧ rows (b_products db) ⊆ rows (b_products db') ∧ DbOk db'.
Proof.
  intros Hdb Hfuel. destruct (pick_distinct_total draw count (product_names db) fuel Hfuel) as (names & E & Hl & Hnd & Hfree).
  unfold generate_products. rewrite E. simpl.
  pose proof (create_all_free draw_price 0 names db Hdb Hnd) as Hc. destruct (create_all _ _ _ _ _) as [created db'].
  destruct Hc as (Hn & Hdb' & Hsub & Hc); [intros x Hx; by apply names_free, Hfree|].
  exists created, db'. split_and!; try done.
  - by rewrite <- Hl, <- Hn, length_fmap.
  - by rewrite Hn.
  - intros pk name price Hin. destruct (Hc pk name price Hin). split_and!; try done; try lia. apply Hfree. rewrite <- Hn.
    apply list_elem_of_fmap. by exists (pk, name, price).
Qed.

(** ** Seeding *)

Definition paren : ascii := "("%char.

(** The parts of an extra name. *)
Definition base_of (i : nat) : string * Z := nth (i mod length SAMPLE_PRODUCTS) SAMPLE_PRODUCTS ("", 0%Z).

Lemma extra_name i : (extra i).1 = (base_of i).1 +:+ " (#" +:+ py_int (Z.of_nat (i / length SAMPLE_PRODUCTS + 2)) +:+ ")".
Proof. unfold extra, base_of. by destruct (nth _ _ _). Qed.

Lemma sample_plain : Forall (λ p, no_char paren p.1) SAMPLE_PRODUCTS.
Proof. apply (bool_decide_unpack _). by vm_compute. Qed.

Lemma sample_distinct : NoDup SAMPLE_PRODUCTS.*1.
Proof. apply (bool_decide_unpack _). by vm_compute. Qed.

Lemma base_in i : base_of i ∈ SAMPLE_PRODUCTS.
Proof. apply list_elem_of_In, nth_In, Nat.mod_upper_bound. done. Qed.

Lemma base_lookup i : SAMPLE_PRODUCTS !! (i mod length SAMPLE_PRODUCTS) = Some (base_of i).
Proof.
  unfold base_of. destruct (nth_lookup_or_length SAMPLE_PRODUCTS (i mod length SAMPLE_PRODUCTS) ("", 0%Z)) as [E|E]; [done|].
  pose proof (Nat.mod_upper_bound i (length SAMPLE_PRODUCTS) ltac:(done)). lia.
Qed.

Lemma base_inj i j : (base_of i).1 = (base_of j).1 → i mod length SAMPLE_PRODUCTS = j mod length SAMPLE_PRODUCTS.
Proof.
  intros E. eapply (NoDup_lookup SAMPLE_PRODUCTS.*1); [apply sample_distinct|..]; rewrite list_lookup_fmap, base_lookup; [done|].
  simpl. by rewrite E.
Qed.

Lemma base_plain i : no_char paren (base_of i).1.
Proof.
  pose proof sample_plain as Hp. rewrite Forall_forall in Hp. apply Hp. apply (list_elem_of_lookup_2 _ _ _ (base_lookup i)).
Qed.

(** The name of an extra, cut at its parenthesis. *)
Lemma extra_chars i :
  chars (extra i).1 = (chars (base_of i).1 ++ [" "%char])
    ++ paren :: hash :: chars (py_int (Z.of_nat (i / length SAMPLE_PRODUCTS + 2)) +:+ ")").
Proof. rewrite extra_name, !chars_app, <- app_assoc. done. Qed.

Lemma base_cut i : paren ∉ chars (base_of i).1 ++ [" "%char].
Proof. rewrite not_elem_of_app. split; [apply base_plain|]. by vm_compute; set_solver. Qed.

Lemma extra_inj i j : (extra i).1 = (extra j).1 → i = j.
Proof.
  intros E. apply (f_equal chars) in E. rewrite !extra_chars in E.
  apply cut_inj in E as [E1 E2]; [|apply base_cut..]. apply app_inj_2 in E1 as [E1 _]; [|done].
  apply (f_equal of_chars) in E1. rewrite !of_chars_chars in E1. apply base_inj in E1.
  injection E2 as E2. rewrite !chars_app in E2. apply app_inj_2 in E2 as [E2 _]; [|done].
  apply (f_equal of_chars) in E2. rewrite !of_chars_chars in E2. apply py_int_inj in E2.
  pose proof (Nat.div_mod_eq i (length SAMPLE_PRODUCTS)) as Hi. rewrite E1 in Hi.
  assert (i / length SAMPLE_PRODUCTS = j / length SAMPLE_PRODUCTS) as Hd
    by by apply Nat2Z.inj, Nat.add_cancel_r in E2. rewrite Hd, <- Nat.div_mod_eq in Hi. done.
Qed.

Lemma extras_elem n i x : x ∈ (extras n i).*1 → ∃ j, i ≤ j ∧ x = (extra j).1.
Proof.
  revert i. induction n as [|n IH]; intros i; simpl; [set_solver|]. rewrite elem_of_cons.
  intros [->|Hin]; [by exists i|]. destruct (IH _ Hin) as (j & ? & ->). exists j. split; [lia|done].
Qed.

Lemma extras_distinct n i : NoDup (extras n i).*1.
Proof.
  revert i. induction n as [|n IH]; intros i; simpl; [constructor|]. constructor; [|apply IH].
  intros Hin. apply extras_elem in Hin as (j & Hj & E). apply extra_inj in E. lia.
Qed.

Lemma length_extras n i : length (extras n i) = n.
Proof. revert i. induction n; intros i; simpl; auto. Qed.

(** [random.sample(population, k)]: [k] elements at distinct positions. *)
Definition is_sample (sample : list (string * Z) → nat → list (string * Z)) : Prop :=
  ∀ l n, n ≤ length l → length (sample l n) = n ∧ ∃ rest, l ≡ₚ sample l n ++ rest.

Lemma pick_names sample count :
  is_sample sample → length (_pick sample count) = count ∧ NoDup (_pick sample count).*1.
Proof.
  intros Hs. unfold _pick. destruct (count <=? length SAMPLE_PRODUCTS) eqn:E.
  - apply Nat.leb_le in E. destruct (Hs SAMPLE_PRODUCTS count E) as [Hl [rest Hp]]. split; [done|].
    pose proof sample_distinct as Hnd. rewrite Hp, fmap_app in Hnd. by apply NoDup_app in Hnd as [? _].
  - apply Nat.leb_gt in E. split; [rewrite length_app, length_extras; lia|]. rewrite fmap_app. apply NoDup_app.
    split; [apply sample_distinct|]. split; [|apply extras_distinct]. intros x Hx Hin.
    apply extras_elem in Hin as (j & _ & ->). apply list_elem_of_fmap in Hx as (p & E' & Hp).
    pose proof sample_plain as Hpl. rewrite Forall_forall in Hpl. apply (Hpl p Hp). rewrite <- E', extra_chars. set_solver.
Qed.

Lemma get_or_create_free chosen db :
  DbOk db → NoDup chosen.*1 → (∀ x, x ∈ chosen.*1 → name_free None x db = true) →
  let '(n, db') := get_or_create_all chosen db in
  n = length chosen ∧ DbOk db' ∧ size (rows (b_products db')) = size (rows (b_products db)) + length chosen.
Proof.
  revert db. induction chosen as [|[name price] chosen IH]; intros db Hdb Hnd Hfree; simpl; [split_and!; [done..|lia]|].
  apply NoDup_cons in Hnd as [Hni Hnd].
  destruct (create_free name price db Hdb) as (db1 & E & Hdb1 & Hrows & _ & Hothers); [apply Hfree; by left|].
  rewrite E. specialize (IH db1 Hdb1 Hnd). destruct (get_or_create_all chosen db1) as [n db2].
  destruct IH as (-> & Hdb2 & Hsz).
  { intros x Hx. apply Hothers; [by intros ->|]. apply Hfree. by right. }
  split_and!; [done..|]. rewrite Hsz, Hrows, map_size_insert_None; [lia|].
  destruct (_ !! _) eqn:El; [|done]. pose proof (proj1 (ok_products _ Hdb) _ (mk_is_Some _ _ El)). lia.
Qed.

(** Without products in orders, [seed_products --reset --count=n] leaves exactly [n]
    products, all new, for every [n] from one on. *)
Theorem seed_reset_exact sample use_multitenant schema_name count db :
  is_sample sample → (use_multitenant = true → default "default" schema_name ≠ "public") → (1 ≤ count)%Z →
  DbOk db → rows (b_items db) = ∅ →
  let '(r, db') := seed_handle sample use_multitenant schema_name count true db in
  r = Ok (Z.to_nat count, 0%Z) ∧ DbOk db' ∧ size (rows (b_products db')) = Z.to_nat count.
Proof.
  intros Hs Hsch Hc Hdb Hno. unfold seed_handle.
  replace (use_multitenant && _) with false by (destruct use_multitenant; [symmetry; by apply String.eqb_neq, Hsch|done]).
  rewrite (proj2 (Z.ltb_ge _ _)) by done. unfold delete_all.
  rewrite (proj2 (any_other_false _ _ _)) by (rewrite Hno; by intros).
  set (db1 := set_products _ db). assert (DbOk db1) as Hdb1.
  { biz_open Hdb. split; simpl; split_and?; try done; try (intros ?; by intros [? ?]); try (intros k a; rewrite Hno; done). }
  destruct (pick_names sample (Z.to_nat count) Hs) as [Hl Hnd].
  pose proof (get_or_create_free (_pick sample (Z.to_nat count)) db1 Hdb1 Hnd) as Hg.
  destruct (get_or_create_all _ db1) as [n db2]. destruct Hg as (-> & Hdb2 & Hsz).
  { intros x _. apply name_free_spec. by intros. }
  split_and!; [f_equal; f_equal; [done|rewrite Hl; lia]|done|]. rewrite Hsz, Hl. done.
Qed.
