(* ===== verification/Coordinates.v ===== *)
(** * Offline coordinates in S3

    Models src/routes/services/service_offline_coordinates_s3_uploader.py and the
    commands list_offline_coordinates_s3 and loadtest_offline_coordinates_s3 (its
    choice of a tenant).  boto3's client is a class: a bucket with [put_object] and
    the paginator of [list_objects_v2].  gzip, the formatting of containers in an
    f-string and the random draws are arguments. *)
From S2P Require Import Prelude PyStr Models PyExc World Lease Schema Migrator ResolveCache Requests ModelMethods Probes Console LeaseCommand.
From S2P Require Import Responses Trace MigratorSafety Quiet MigratorRun Scenario.
From Stdlib Require Import Ascii.
Open Scope tenants_scope.

(** ** JSON *)

(** The values of a payload.  A float is its [repr]; [JOther] is what
    [default=str] makes of any other object. *)
Inductive J :=
| JNull
| JBool (b : bool)
| JInt (n : Z)
| JFloat (repr : string)
| JStr (s : string)
| JList (l : list J)
| JDict (d : list (string * J))
| JOther (str : string).

Definition backslash : ascii := ascii_of_nat 92.
Definition quote_char : ascii := ascii_of_nat 34.

(** [\uXXXX]. *)
Definition u_escape (c : ascii) : list ascii :=
  backslash :: chars "u00" ++ [hex_digit (code c / 16); hex_digit (code c mod 16)].

(** One character of a string, with [ensure_ascii]. *)
Definition json_char (c : ascii) : list ascii :=
  if Ascii.eqb c quote_char || Ascii.eqb c backslash then [backslash; c]
  else if (code c =? 10)%N then [backslash; "n"%char]
  else if (code c =? 13)%N then [backslash; "r"%char]
  else if (code c =? 9)%N then [backslash; "t"%char]
  else if (code c =? 12)%N then [backslash; "f"%char]
  else if (code c =? 8)%N then [backslash; "b"%char]
  else if in_range 32 126 c then [c] else u_escape c.

Definition json_str (s : string) : string :=
  String quote_char (of_chars (chars s ≫= json_char) +:+ String quote_char "").

(** [json.dumps(value, default=str)]. *)
Fixpoint dumps (v : J) : string :=
  match v with
  | JNull => "null"
  | JBool true => "true"
  | JBool false => "false"
  | JInt n => py_int n
  | JFloat r => r
  | JStr s | JOther s => json_str s
  | JList l => "[" +:+ py_join ", " (dumps <$> l) +:+ "]"
  | JDict d => "{" +:+ py_join ", " ((λ kv, json_str kv.1 +:+ ": " +:+ dumps kv.2) <$> d) +:+ "}"
  end.

(** ** Times *)

(** A moment: date, time of day, microseconds. *)
Record Moment := mkMoment { mo_date : Z * Z * Z; mo_time : Z * Z * Z; mo_micro : Z }.

(** A number with leading zeros. *)
Definition pad (w : nat) (n : Z) : string :=
  let s := py_int n in of_chars (replicate (w - String.length s) "0"%char) +:+ s.

(** [now:%Y-%m-%d] and [now:%H%M%S%f]. *)
Definition fmt_date (t : Moment) : string :=
  let '(y, m, d) := mo_date t in pad 4 y +:+ "-" +:+ pad 2 m +:+ "-" +:+ pad 2 d.
Definition fmt_clock (t : Moment) : string :=
  let '(h, m, s) := mo_time t in pad 2 h +:+ pad 2 m +:+ pad 2 s +:+ pad 6 (mo_micro t).

(** ** Objects *)

Definition COORDINATES_PREFIX : string := "offline-coordinates/".
Definition _tenant_prefix (tenant_id : Z) : string := COORDINATES_PREFIX +:+ "tenant=" +:+ py_int tenant_id +:+ "/".

Record S3Obj := mkS3Obj { ob_key : string; ob_body : string; ob_content_type : string; ob_raw_size : nat }.

Section objects.
Context (gzip : string → string) (repr_container : J → string).

(** [f"{value}"]. *)
Definition py_format (v : J) : string :=
  match v with
  | JNull => "None"
  | JBool true => "True"
  | JBool false => "False"
  | JInt n => py_int n
  | JFloat r => r
  | JStr s | JOther s => s
  | JList _ | JDict _ => repr_container v
  end.

(** [{**data, "tenant_id": tenant_id}]. *)
Definition payload (data : list (string * J)) (tenant_id : Z) : list (string * J) := dict_set "tenant_id" (JInt tenant_id) data.

Definition build_offline_coordinates_object (data : list (string * J)) (tenant_id : Z) (use_gzip : bool) (now : Moment) : S3Obj :=
  let raw_body := dumps (JDict (payload data tenant_id)) in
  let route_id := default (JStr "unknown") (assoc "route_id" data) in
  let extension := if use_gzip then "json.gz" else "json" in
  mkS3Obj
    (_tenant_prefix tenant_id +:+ "dt=" +:+ fmt_date now +:+ "/" +:+ py_format route_id +:+ "_" +:+ fmt_clock now +:+ "." +:+ extension)
    (if use_gzip then gzip raw_body else raw_body)
    (if use_gzip then "application/gzip" else "application/json")
    (String.length raw_body).

End objects.

(** ** The bucket *)

(** An object of a listing. *)
Record Listed := mkListed { ls_key : string; ls_size : nat; ls_last_modified : Z }.

(** S3, as the code relies on it: [put_object] stores the body under the key; when
    it raises, the object may have been stored all the same, the answer lost; and the
    pages of a listing hold, together, the keys with the prefix, each once. *)
Class S3 := {
  bucket : Type;
  s3_objects : bucket → gmap string string;          (** bodies by key *)
  s3_put : S3Obj → bucket → option exn * bucket;     (** with the exception raised *)
  s3_pages : bucket → string → list (option (list Listed));
  s3_put_stored o b b' : s3_put o b = (None, b') → s3_objects b' = <[ob_key o := ob_body o]> (s3_objects b);
  s3_put_failed o b e b' : s3_put o b = (Some e, b') →
    s3_objects b' = s3_objects b ∨ s3_objects b' = <[ob_key o := ob_body o]> (s3_objects b);
  s3_pages_keys b prefix k :
    k ∈ ls_key <$> concat (default [] <$> s3_pages b prefix) ↔ is_Some (s3_objects b !! k) ∧ py_startswith k prefix = true;
  s3_pages_once b prefix : NoDup (ls_key <$> concat (default [] <$> s3_pages b prefix));
}.

Definition not_configured : exn := simple_exn OtherException "ValueError"
  "AWS_S3_COORDINATES_BUCKET is not configured (set it in the mode's local settings file).".

Section s3.
Context `{S3} (bucket_name : string) (gzip : string → string) (repr_container : J → string).

Definition put_offline_coordinates_object (o : S3Obj) (b : bucket) : res exn string * bucket :=
  if String.eqb bucket_name "" then (Err not_configured, b)
  else match s3_put o b with
       | (None, b') => (Ok (ob_key o), b')
       | (Some e, b') => (Err e, b')
       end.

Definition upload_offline_coordinates_to_s3 (data : list (string * J)) (tenant_id : Z) (use_gzip : bool) (now : Moment)
    (b : bucket) : res exn string * bucket :=
  put_offline_coordinates_object (build_offline_coordinates_object gzip repr_container data tenant_id use_gzip now) b.

(** The generator's loop over the objects of the pages: [yielded] so far. *)
Fixpoint yield_objects (limit : option Z) (yielded : Z) (objs : list Listed) : list Listed :=
  match objs with
  | [] => []
  | o :: objs' =>
      let yielded := (yielded + 1)%Z in
      o :: (if match limit with Some n => (n <=? yielded)%Z | None => false end then []
            else yield_objects limit yielded objs')
  end.

Definition list_offline_coordinates_objects (tenant_id : option Z) (prefix : option string) (limit : option Z) (b : bucket)
    : res exn (list Listed) :=
  if String.eqb bucket_name "" then Err not_configured
  else
    let prefix := match prefix with
                  | Some p => p
                  | None => match tenant_id with Some t => _tenant_prefix t | None => COORDINATES_PREFIX end
                  end in
    Ok (yield_objects limit 0 (concat (default [] <$> s3_pages b prefix))).

(** ** The commands *)

(** Both commands' [_resolve_tenant]: by key when the text is a number. *)
Definition resolve_raw (raw : string) (g : Registry) : res exn TenantObj :=
  let raw := py_strip raw in
  let get (p : TenantObj → bool) :=
    match filter (λ t, o_schema t ≠ PUBLIC ∧ p t = true) (all_tenants g) with
    | t :: _ => Ok t
    | [] => Err (command_error ("Tenant " +:+ py_repr raw +:+ " not found (or is the public tenant)."))
    end in
  if py_isdigit raw then
    match py_parse_int raw with
    | Some pk => get (λ t, (o_pk t =? pk)%Z)
    | None => Err (simple_exn OtherException "ValueError" ("Field 'id' expected a number but got " +:+ py_repr raw +:+ "."))
    end
  else get (λ t, String.eqb (o_schema t) raw).

(** [_human]. *)
Definition _UNITS : list string := ["B"; "KB"; "MB"; "GB"; "TB"].

(** 100 * size / scale, rounded half to even. *)
Definition hundredths (size scale : Z) : Z :=
  let q := (100 * size / scale)%Z in
  let r := (2 * ((100 * size) mod scale))%Z in
  if (r <? scale)%Z then q else if (scale <? r)%Z then (q + 1)%Z else if Z.even q then q else (q + 1)%Z.

Fixpoint human_from (units : list string) (size scale : Z) : string :=
  match units with
  | [] => ""
  | u :: units' =>
      if (size <? 1024 * scale)%Z || match units' with [] => true | _ => false end then
        if String.eqb u "B" then py_int size +:+ " B"
        else let h := hundredths size scale in py_int (h / 100) +:+ "." +:+ pad 2 (h mod 100) +:+ " " +:+ u
      else human_from units' size (1024 * scale)
  end.
Definition _human (size : Z) : string := human_from _UNITS size 1.

(** [handle] of the listing: the rows it prints, and their number and total. *)
Definition list_handle (tenant : option string) (prefix : option string) (limit : option Z) (g : Registry) (b : bucket)
    : res exn (list (string * string) * nat * string) :=
  if match limit with Some n => (n <? 1)%Z | None => false end
  then Err (command_error "--limit must be >= 1.")
  else
    tenant_id <-? match prefix, tenant with
                  | None, Some raw => if String.eqb raw "" then Ok None else t <-? resolve_raw raw g ;; Ok (Some (o_pk t))
                  | _, _ => Ok None
                  end ;;
    objs <-? list_offline_coordinates_objects tenant_id prefix limit b ;;
    Ok ((λ o, (_human (Z.of_nat (ls_size o)), ls_key o)) <$> objs, length objs,
        _human (Z.of_nat (sum_list_with ls_size objs))).

End s3.

(** The loadtest's choice without [--tenant]: the list it prints reads [t.name],
    which a Tenant does not have. *)
Definition choose_tenant (raw : option string) (g : Registry) : res exn TenantObj :=
  match raw with
  | Some (String _ _ as r) => resolve_raw r g
  | _ =>
      match filter (λ t, o_schema t ≠ PUBLIC) (all_tenants g) with
      | [] => Err (command_error "No non-public tenants exist. Provision one first.")
      | _ => Err (simple_exn OtherException "AttributeError" "'Tenant' object has no attribute 'name'")
      end
  end.

(** ** Fake data *)

Section fake.
(** The random draws: ints of the three ids, and the values of a row. *)
Context (ids : Z * Z * Z) (lat lng : nat → string) (gps_on : nat → bool).

Definition generate_offline_coordinates_data (rows_count base_timestamp : Z) : res exn (list (string * J)) :=
  if (rows_count <? 0)%Z then Err (simple_exn OtherException "ValueError" "rows_count must be non-negative")
  else
    let '(route_id, vehicle_id, vehicle) := ids in
    Ok [("vehicle_id", JInt vehicle_id);
        ("vehicle_name", JStr ("Vehicle " +:+ py_int vehicle));
        ("route_id", JInt route_id);
        ("coordinates_list", JList ((λ i, JDict
           [("timestamp", JInt (base_timestamp + Z.of_nat i)); ("lat", JFloat (lat i)); ("lng", JFloat (lng i));
            ("gps_on", JBool (gps_on i))]) <$> seq 0 (Z.to_nat rows_count)))].

End fake.

(** ** The load test *)

(** [_ask] for a number: a line typed at the prompt, or [None] at end of input. *)
Definition _ask (prompt : string) (dflt : Z) (inputs : list (option string)) : res exn Z * list (option string) :=
  match inputs with
  | [] | None :: _ =>
      (Err (command_error ("No value for " +:+ py_repr prompt +:+ " and no TTY to prompt. Pass it as a command-line option instead.")), [])
  | Some line :: rest =>
      let raw := py_strip line in
      (if String.eqb raw "" then Ok dflt
       else match py_parse_int raw with
            | Some n => Ok n
            | None => Err (command_error ("Invalid value for " +:+ py_repr prompt +:+ ": " +:+ py_repr raw))
            end, rest)
  end.
Definition ask_unless (opt : option Z) (prompt : string) (dflt : Z) (inputs : list (option string)) : res exn Z * list (option string) :=
  match opt with Some n => (Ok n, inputs) | None => _ask prompt dflt inputs end.

(** The draws and the clock of one iteration, and what is reported of it. *)
Record Step := mkStep { st_ids : Z * Z * Z; st_lat : nat → string; st_lng : nat → string; st_gps_on : nat → bool; st_base : Z; st_now : Moment }.
Record Iter := mkIter { it_n : nat; it_raw_size : nat; it_size : nat; it_key : string }.
Record LoadOpts := mkLoadOpts { lo_tenant : option string; lo_rows : option Z; lo_iterations : option Z; lo_gzip : bool }.

Section loadtest.
Context `{S3} (bucket_name : string) (gzip : string → string) (repr_container : J → string) (steps : nat → Step).

(** The loop from iteration [n] on, [todo] of them: what it reported, and the
    exception that ended it. *)
Fixpoint upload_iterations (tenant_id rows : Z) (use_gzip : bool) (n todo : nat) (b : bucket) : list Iter * option exn * bucket :=
  match todo with
  | O => ([], None, b)
  | S todo' =>
      let st := steps n in
      match generate_offline_coordinates_data (st_ids st) (st_lat st) (st_lng st) (st_gps_on st) rows (st_base st) with
      | Err e => ([], Some e, b)
      | Ok data =>
          let o := build_offline_coordinates_object gzip repr_container data tenant_id use_gzip (st_now st) in
          match put_offline_coordinates_object bucket_name o b with
          | (Err e, b') => ([], Some e, b')
          | (Ok key, b') =>
              let '(its, e, b'') := upload_iterations tenant_id rows use_gzip (S n) todo' b' in
              (mkIter n (ob_raw_size o) (String.length (ob_body o)) key :: its, e, b'')
          end
      end
  end.

Definition loadtest_handle (o : LoadOpts) (inputs : list (option string)) (g : Registry) (b : bucket) : res exn unit * list Iter * bucket :=
  match choose_tenant (lo_tenant o) g with
  | Err e => (Err e, [], b)
  | Ok tenant =>
      let '(rows, inputs) := ask_unless (lo_rows o) "Rows per iteration" 1000 inputs in
      match rows with
      | Err e => (Err e, [], b)
      | Ok rows =>
          let '(iterations, _) := ask_unless (lo_iterations o) "Number of iterations" 1 inputs in
          match iterations with
          | Err e => (Err e, [], b)
          | Ok iterations =>
              if (rows <? 0)%Z then (Err (command_error "--rows must be non-negative."), [], b)
              else if (iterations <? 1)%Z then (Err (command_error "--iterations must be >= 1."), [], b)
              else
                let '(its, e, b') := upload_iterations (o_pk tenant) rows (lo_gzip o) 1 (Z.to_nat iterations) b in
                (match e with Some e => Err e | None => Ok tt end, its, b')
          end
      end
  end.

End loadtest.

(** * Properties of the coordinates in S3 *)

(** ** Keys *)

Definition slash : ascii := "/"%char.

(** The prefix of a tenant selects the keys of that tenant. *)
Lemma tenant_prefix_exact t t' rest :
  py_startswith (_tenant_prefix t +:+ rest) (_tenant_prefix t') = true ↔ t = t'.
Proof.
  rewrite prefix_chars. unfold _tenant_prefix. split; [|intros ->; rewrite chars_app; by eexists].
  intros [r E]. rewrite !chars_app in E. rewrite <- !app_assoc in E. apply app_inv_head, app_inv_head in E.
  change (chars "/") with [slash] in E. simpl in E.
  apply cut_inj in E as [E _]; [|by apply py_int_no_char..].
  apply (f_equal of_chars) in E. rewrite !of_chars_chars in E. by apply py_int_inj in E.
Qed.

(** ** Limits *)

(** The loop checks the limit after each object. *)
Lemma yield_exact limit yielded objs :
  yield_objects limit yielded objs
  = match limit with
    | None => objs
    | Some n => take (Z.to_nat (Z.max 1 (n - yielded))) objs
    end.
Proof.
  revert yielded. induction objs as [|o objs IH]; intros yielded; simpl.
  { destruct limit; [|done]. by rewrite take_nil. }
  destruct limit as [n|]; [|by rewrite IH]. rewrite IH.
  destruct (Z.leb_spec n (yielded + 1)).
  - replace (Z.max 1 (n - yielded))%Z with 1%Z by lia. by destruct objs.
  - replace (Z.to_nat (Z.max 1 (n - yielded))) with (S (Z.to_nat (Z.max 1 (n - (yielded + 1))))) by lia. done.
Qed.

(** ** Uploads *)

Section uploads.
Context `{S3} (bucket_name : string) (gzip : string → string) (repr_container : J → string).

(** An upload, as the callers make it. *)
Record Upload := mkUpload { up_data : list (string * J); up_tenant : Z; up_gzip : bool; up_now : Moment }.

Definition object_of (u : Upload) : S3Obj :=
  build_offline_coordinates_object gzip repr_container (up_data u) (up_tenant u) (up_gzip u) (up_now u).

(** The uploads one after the other, and their results. *)
Fixpoint upload_all (us : list Upload) (b : bucket) : list (res exn string) * bucket :=
  match us with
  | [] => ([], b)
  | u :: us' =>
      let '(r, b') := upload_offline_coordinates_to_s3 bucket_name gzip repr_container
                        (up_data u) (up_tenant u) (up_gzip u) (up_now u) b in
      let '(rs, b'') := upload_all us' b' in (r :: rs, b'')
  end.

(** What an upload does to the bucket: it stores its object, or, when it fails, may
    have stored it. *)
Definition stores (u : Upload) (b b' : bucket) : Prop :=
  s3_objects b' = <[ob_key (object_of u) := ob_body (object_of u)]> (s3_objects b).

Lemma upload_result u b r b' :
  upload_offline_coordinates_to_s3 bucket_name gzip repr_container (up_data u) (up_tenant u) (up_gzip u) (up_now u) b = (r, b') →
  match r with
  | Ok k => k = ob_key (object_of u) ∧ stores u b b'
  | Err _ => s3_objects b' = s3_objects b ∨ stores u b b'
  end.
Proof.
  unfold upload_offline_coordinates_to_s3, put_offline_coordinates_object.
  destruct (String.eqb bucket_name ""); [intros [= <- <-]; by left|].
  destruct (s3_put _ b) as [[e|] b1] eqn:E; intros [= <- <-]; [by apply s3_put_failed in E|]. split; [done|]. by apply s3_put_stored in E.
Qed.

(** What is in the bucket was there before or is the object of one of the uploads. *)
Lemma upload_all_objects us b k body :
  s3_objects (upload_all us b).2 !! k = Some body →
  s3_objects b !! k = Some body ∨ ∃ u, u ∈ us ∧ k = ob_key (object_of u) ∧ body = ob_body (object_of u).
Proof.
  revert b. induction us as [|u us IH]; intros b; simpl; [by left|].
  destruct (upload_offline_coordinates_to_s3 _ _ _ _ _ _ _ _) as [r b1] eqn:E. apply upload_result in E.
  specialize (IH b1). destruct (upload_all us b1) as [rs b2]. simpl in *. intros Hk.
  destruct (IH Hk) as [Hb|(u' & ? & ? & ?)]; [|right; exists u'; split_and!; [by right|done..]].
  assert (s3_objects b1 = s3_objects b ∨ stores u b b1) as [Eb|Es] by (destruct r; tauto); [left; by rewrite <- Eb|].
  rewrite Es in Hb. apply lookup_insert_Some in Hb as [[<- <-]|[_ Hb]]; [right; exists u; split_and!; [by left|done..]|by left].
Qed.

(** Keys never leave the bucket, and the returned ones are in it. *)
Lemma upload_all_grows us b k :
  is_Some (s3_objects b !! k) → is_Some (s3_objects (upload_all us b).2 !! k).
Proof.
  revert b. induction us as [|u us IH]; intros b Hk; simpl; [done|].
  destruct (upload_offline_coordinates_to_s3 _ _ _ _ _ _ _ _) as [r b1] eqn:E. apply upload_result in E.
  assert (is_Some (s3_objects b1 !! k)) as Hk1.
  { assert (s3_objects b1 = s3_objects b ∨ stores u b b1) as [->| ->] by (destruct r; tauto); [done|]. by apply lookup_insert_is_Some; tauto || (destruct (decide (ob_key (object_of u) = k)); [left|right]). }
  specialize (IH b1 Hk1). by destruct (upload_all us b1).
Qed.

Lemma upload_all_returned us b u k :
  (u, Ok k) ∈ zip us (upload_all us b).1 →
  k = ob_key (object_of u) ∧ is_Some (s3_objects (upload_all us b).2 !! k).
Proof.
  revert b. induction us as [|v us IH]; intros b; simpl; [set_solver|].
  destruct (upload_offline_coordinates_to_s3 _ _ _ _ _ _ _ _) as [r b1] eqn:E. apply upload_result in E.
  specialize (IH b1). pose proof (upload_all_grows us b1 k) as Hg. destruct (upload_all us b1) as [rs b2]. simpl in *.
  intros [[= -> <-]|Hin]%elem_of_cons; [|by apply IH]. destruct E as [-> Es]. split; [done|]. apply Hg. rewrite Es, lookup_insert_eq. done.
Qed.

Lemma own_prefix u t : py_startswith (ob_key (object_of u)) (_tenant_prefix t) = true ↔ up_tenant u = t.
Proof. apply tenant_prefix_exact. Qed.

(** The fields of a document. *)
Lemma payload_fields data t name : assoc name (payload data t) = if String.eqb name "tenant_id" then Some (JInt t) else assoc name data.
Proof. unfold payload. by rewrite assoc_dict_set. Qed.

End uploads.

(** C39: in a bucket that starts empty and is filled by uploads only, whichever of them
    fail and whether or not a failed one was stored all the same: the listing of a
    tenant has no key twice, it has every key an upload of that tenant returned, and
    every key in it is that of an upload of that tenant, so a tenant never finds
    another's objects, also when its number is a prefix of the other's.  And the body
    stored under a listed key is the JSON text, compressed if so asked, of a document
    with the fields of one of that tenant's uploads and with the tenant's own number,
    whatever number the payload claims. *)
Theorem tenant_objects_isolated `{S3} bucket_name gzip repr_container us b t objs :
  s3_objects b = ∅ →
  let '(results, b') := upload_all bucket_name gzip repr_container us b in
  list_offline_coordinates_objects bucket_name (Some t) None None b' = Ok objs →
  NoDup (ls_key <$> objs)
  ∧ (∀ u k, (u, Ok k) ∈ zip us results → up_tenant u = t → k ∈ ls_key <$> objs)
  ∧ (∀ k, k ∈ ls_key <$> objs →
       ∃ u d, u ∈ us ∧ up_tenant u = t ∧ k = ob_key (object_of gzip repr_container u)
         ∧ s3_objects b' !! k = Some ((if up_gzip u then gzip else id) (dumps (JDict d)))
         ∧ assoc "tenant_id" d = Some (JInt t)
         ∧ ∀ name, name ≠ "tenant_id" → assoc name d = assoc name (up_data u)).
Proof.
  intros Hb. pose proof (upload_all_objects bucket_name gzip repr_container us b) as Hin.
  pose proof (upload_all_returned bucket_name gzip repr_container us b) as Hret.
  destruct (upload_all _ _ _ us b) as [results b']. cbn [fst snd] in *.
  unfold list_offline_coordinates_objects. destruct (String.eqb bucket_name ""); [done|]. intros [= <-].
  rewrite yield_exact. split_and!.
  - apply s3_pages_once.
  - intros u k Hk Ht. destruct (Hret u k Hk) as [-> Hs]. apply s3_pages_keys. split; [done|]. by apply own_prefix.
  - intros k [[body Hk] Hp]%s3_pages_keys. destruct (Hin k body Hk) as [He|(u & Hu & -> & ->)]; [by rewrite Hb in He|].
    apply own_prefix in Hp. exists u, (payload (up_data u) t). split_and!; [done..| | |].
    + rewrite Hk. unfold object_of, build_offline_coordinates_object. cbn [ob_body]. rewrite Hp. by destruct (up_gzip u).
    + by rewrite payload_fields, String.eqb_refl.
    + intros name Hn. rewrite payload_fields. by apply String.eqb_neq in Hn as ->.
Qed.

(** * Uploads and listings

    An instance of the bucket, the theorem on it, and runs that show a lost upload
    and a limit that is not kept. *)

(** Bodies by key; one page, and an empty one without contents.  A file of route 13
    is stored and its answer lost. *)
Definition lost_answer : exn := simple_exn OtherException "ReadTimeoutError" "Read timeout on endpoint URL".
Definition toy_put (o : S3Obj) (b : gmap string string) : option exn * gmap string string :=
  (if existsb (String.eqb "13_120005000042.json") (py_split slash (ob_key o)) then Some lost_answer else None,
   <[ob_key o := ob_body o]> b).

#[refine] Instance toy_s3 : S3 := {
  bucket := gmap string string;
  s3_objects b := b;
  s3_put := toy_put;
  s3_pages b prefix :=
    [Some ((λ kv, mkListed kv.1 (String.length kv.2) 0) <$> map_to_list (filter (λ kv, py_startswith kv.1 prefix = true) b)); None];
}.
Proof.
  - intros o b b'. unfold toy_put. by intros [= _ <-].
  - intros o b e b'. unfold toy_put. intros [= _ <-]. by right.
  - intros b prefix k. simpl. rewrite !app_nil_r, <- list_fmap_compose, list_elem_of_fmap. split.
    + intros ([k' n] & -> & Hin). apply elem_of_map_to_list, map_lookup_filter_Some in Hin as [Hk Hp]. simpl in *.
      split; [|done]. by eexists.
    + intros [[n Hk] Hp]. exists (k, n). split; [done|].
      by apply elem_of_map_to_list, map_lookup_filter_Some.
  - intros b prefix. simpl. rewrite !app_nil_r, <- list_fmap_compose. apply (NoDup_fst_map_to_list (filter _ b)).
Defined.

Definition noon : Moment := mkMoment (2026, 7, 13)%Z (12, 0, 5)%Z 42.
Definition batch (route : Z) (user : string) : list (string * J) := [("route_id", JInt route); ("tenant_id", JInt 7); ("user_id", JStr user)].
Definition no_gzip (s : string) : string := s.
Definition no_repr (v : J) : string := "".

(** Tenant 1 and tenant 12 upload; the answer to the third upload is lost. *)
Definition ups : list Upload :=
  [mkUpload (batch 3 "u") 1 false noon; mkUpload (batch 3 "u") 12 true noon; mkUpload (batch 13 "u") 1 false noon].

Lemma tenant_objects_isolated_witness :
  ∃ objs, list_offline_coordinates_objects "lake" (Some 1%Z) None None (upload_all "lake" no_gzip no_repr ups (∅ : gmap string string)).2 = Ok objs
    ∧ NoDup (ls_key <$> objs) ∧ length objs = 2 ∧ (upload_all "lake" no_gzip no_repr ups (∅ : gmap string string)).1 !! 2 = Some (Err lost_answer)
    ∧ "offline-coordinates/tenant=1/dt=2026-07-13/3_120005000042.json" ∈ ls_key <$> objs.
Proof.
  eexists. split; [by vm_compute|].
  edestruct (@tenant_objects_isolated toy_s3 "lake" no_gzip no_repr ups (∅ : gmap string string) 1) as (Hn & Hk & _);
    [reflexivity|by vm_compute|].
  split; [exact Hn|]. split; [by vm_compute|]. split; [by vm_compute|].
  apply (Hk (mkUpload (batch 3 "u") 1 false noon)); [|done]. vm_compute. left.
Defined.

(** Two batches of one route in the same microsecond: the second replaces the first. *)
Lemma same_instant_collides :
  let u := mkUpload (batch 3 "first") 1 false noon in
  let v := mkUpload (batch 3 "second") 1 false noon in
  ob_key (object_of no_gzip no_repr u) = ob_key (object_of no_gzip no_repr v)
  ∧ ob_body (object_of no_gzip no_repr u) ≠ ob_body (object_of no_gzip no_repr v).
Proof. by vm_compute. Qed.

(** A limit of zero yields an object. *)
Lemma limit_zero_yields (b : gmap string string) o os :
  concat (default [] <$> s3_pages b COORDINATES_PREFIX) = o :: os →
  list_offline_coordinates_objects "lake" None None (Some 0%Z) b = Ok [o].
Proof. intros E. unfold list_offline_coordinates_objects. simpl String.eqb. rewrite E. done. Qed.

(** ** The load test *)

Section loadtest_facts.
Context `{S3} (bucket_name : string) (gzip : string → string) (repr_container : J → string) (steps : nat → Step).

(** The bucket after a run: what it reports is in it, and what is new in it is
    reported or, after an error, is the object of the upload that failed. *)
Definition gained (tenant_id : Z) (its : list Iter) (failed : bool) (b b' : bucket) : Prop :=
  (∀ k, is_Some (s3_objects b !! k) ∨ k ∈ it_key <$> its → is_Some (s3_objects b' !! k))
  ∧ ∀ k, is_Some (s3_objects b' !! k) → is_Some (s3_objects b !! k) ∨ k ∈ it_key <$> its
       ∨ failed = true ∧ py_startswith k (_tenant_prefix tenant_id) = true.

Lemma gained_none t failed b : gained t [] failed b b.
Proof. split; [intros k [?|Hk]; [done|by apply not_elem_of_nil in Hk]|auto]. Qed.

Lemma stores_keys (u : Upload) b b' k : stores gzip repr_container u b b' →
  is_Some (s3_objects b' !! k) ↔ k = ob_key (object_of gzip repr_container u) ∨ is_Some (s3_objects b !! k).
Proof. intros ->. rewrite lookup_insert_is_Some. destruct (decide (ob_key (object_of gzip repr_container u) = k)); naive_solver. Qed.

Lemma iterations_upload tenant_id rows use_gzip todo : ∀ n b, (0 ≤ rows)%Z →
  let '(its, e, b') := upload_iterations bucket_name gzip repr_container steps tenant_id rows use_gzip n todo b in
  gained tenant_id its (match e with Some _ => true | None => false end) b b'
  ∧ Forall (λ i, py_startswith (it_key i) (_tenant_prefix tenant_id) = true) its
  ∧ it_n <$> its = seq n (length its)
  ∧ match e with None => length its = todo | Some _ => length its < todo end.
Proof.
  induction todo as [|todo IH]; intros n b Hr; simpl; [split_and!; [apply gained_none|constructor|done|done]|].
  unfold generate_offline_coordinates_data. rewrite (proj2 (Z.ltb_ge rows 0)) by done. destruct (st_ids (steps n)) as [[route vid] veh].
  set (data := [_; _; _; _]). destruct (put_offline_coordinates_object _ _ b) as [[key|e] b1] eqn:E.
  all: apply (upload_result bucket_name gzip repr_container (mkUpload data tenant_id use_gzip (st_now (steps n)))) in E.
  - destruct E as [Hk Hb]. specialize (IH (S n) b1 Hr). destruct (upload_iterations _ _ _ _ _ _ _ _ _ _) as [[its e] b2].
    destruct IH as ([I0 I1] & I2 & I3 & I4). csimpl. split_and!.
    + pose proof (λ k, stores_keys _ _ _ k Hb) as Hs. rewrite <- Hk in Hs.
      split; intros k; rewrite fmap_cons, elem_of_cons.
      * intros [?|[->|?]]; apply I0; rewrite ?Hs; tauto.
      * intros [Hx%Hs|[?|?]]%I1; tauto.
    + constructor; [|done]. simpl. rewrite Hk. by apply own_prefix.
    + by rewrite I3.
    + destruct e; lia.
  - split_and!; [|constructor|done|simpl; lia]. destruct E as [E|E].
    + unfold gained. rewrite E. apply gained_none.
    + pose proof (λ k, stores_keys _ _ _ k E) as Hs. split; intros k; rewrite Hs; [intros [?|Hx]; [tauto|by apply not_elem_of_nil in Hx]|].
      intros [->|?]; [right; right; split; [done|]; by apply own_prefix|tauto].
Qed.

(** Whatever is typed and whichever upload fails: a refused run uploads nothing; the
    keys the run reports are in the bucket, all of the chosen tenant and numbered from
    one; beside them it gains at most the object of the upload that failed; and a run
    that ends without an error made every iteration asked for, at least one, so its
    averages are defined. *)
Theorem loadtest_exact o inputs g b :
  let '(r, its, b') := loadtest_handle bucket_name gzip repr_container steps o inputs g b in
  it_n <$> its = seq 1 (length its)
  ∧ match choose_tenant (lo_tenant o) g with
    | Ok t => gained (o_pk t) its (negb (is_ok r)) b b' ∧ Forall (λ i, py_startswith (it_key i) (_tenant_prefix (o_pk t)) = true) its
    | Err _ => its = [] ∧ b' = b
    end
  ∧ (r = Ok tt → 1 ≤ length its ∧ (∀ n, lo_iterations o = Some n → length its = Z.to_nat n)).
Proof.
  unfold loadtest_handle. destruct (choose_tenant (lo_tenant o) g) as [tenant|e] eqn:Et; [|done].
  assert (∀ (e : exn), it_n <$> [] = seq 1 (length (@nil Iter))
    ∧ (gained (o_pk tenant) [] true b b ∧ Forall (λ i, py_startswith (it_key i) (_tenant_prefix (o_pk tenant)) = true) [])
    ∧ (Err e = Ok tt → 1 ≤ length (@nil Iter) ∧ (∀ n, lo_iterations o = Some n → length (@nil Iter) = Z.to_nat n))) as Hno.
  { intros e. split_and!; [done|apply gained_none|constructor|done]. }
  destruct (ask_unless (lo_rows o) _ _ inputs) as [[rows|e] inputs1]; [|apply Hno].
  destruct (ask_unless (lo_iterations o) _ _ inputs1) as [[iterations|e] inputs2] eqn:Ei; [|apply Hno].
  destruct (Z.ltb_spec rows 0); [apply Hno|]. destruct (Z.ltb_spec iterations 1); [apply Hno|].
  pose proof (iterations_upload (o_pk tenant) rows (lo_gzip o) (Z.to_nat iterations) 1 b ltac:(lia)) as Hu.
  destruct (upload_iterations _ _ _ _ _ _ _ _ _ _) as [[its e] b']. destruct Hu as (U1 & U2 & U3 & U4). split; [done|].
  destruct e; [done|]. split; [done|]. intros _. split; [lia|]. intros n En. unfold ask_unless in Ei. rewrite En in Ei. injection Ei as -> _. done.
Qed.

End loadtest_facts.

(** Without [--tenant] the loadtest fails before it asks. *)
Lemma loadtest_prompt_fails :
  choose_tenant None (registry ACTIVE ∅)
  = Err (simple_exn OtherException "AttributeError" "'Tenant' object has no attribute 'name'").
Proof. by vm_compute. Qed.

(** The document names the uploader, not the tenant the payload claims. *)
Lemma document_text :
  ob_body (object_of no_gzip no_repr (mkUpload (batch 3 "u") 1 false noon))
  = dumps (JDict [("route_id", JInt 3); ("tenant_id", JInt 1); ("user_id", JStr "u")]).
Proof. by vm_compute. Qed.

(** Sizes for people. *)
Lemma human_sizes :
  _human 1023 = "1023 B" ∧ _human 1024 = "1.00 KB" ∧ _human 1536 = "1.50 KB" ∧ _human 1048575 = "1024.00 KB"
  ∧ _human (1024 * 1024 * 5) = "5.00 MB".
Proof. by vm_compute. Qed.
