(* ===== verification/BizScenario.v ===== *)
(** * A tenant's database at work

    A company admin, two customers, a driver and a car; the theorems on the API
    apply to it, and runs that show where checks and comments part. *)
From S2P Require Import Prelude PyStr Validators Credentials BizDb Orders Routes Accounts Catalog TenantApi ApiFacts ProductTasks.
Local Open Scope Z_scope.
Open Scope tenants_scope.

Definition account (name : string) (role : Role) : Account := mkAccount name name "" "" "pbkdf2$" role.

Definition db_one : Db := mkDb
  (mkTable {[1 := account "boss" COMPANY_ADMIN; 2 := account "ann" CUSTOMER; 3 := account "bob" CUSTOMER; 4 := account "dan" DRIVER]} 5)
  (mkTable {[1 := mkCustomer 2 "" "" 0; 2 := mkCustomer 3 "" "" 0]} 3)
  (mkTable {[1 := mkDriver 4 (1990, 5, 1) "AB-1234" 0]} 2)
  (mkTable {[1 := mkCar "Ford" "Transit" 2020 "AA1234BB" 0]} 2)
  (mkTable {[1 := mkProduct "Bolt" 120; 2 := mkProduct "Nut" 80]} 3)
  (mkTable {[1 := mkOrder 2 PLACED 5 "" None]} 2)
  (mkTable {[1 := mkItem 1 1 3]} 2)
  (mkTable ∅ 1) ∅ 100.

Definition env : ApiEnv := mkApiEnv true (Some "acme") (2026, 10, 10) 2026 (λ _, true) (λ _, "pbkdf2$") id id.

Definition boss : User := mkUser 1 "boss" COMPANY_ADMIN true.
Definition ann : User := mkUser 2 "ann" CUSTOMER true.
Definition bob : User := mkUser 3 "bob" CUSTOMER true.

(** The invariant of a concrete database, by evaluation. *)
Lemma ahead_by {A} (t : Table A) : bool_decide (map_Forall (λ k _, k < next t) (rows t)) = true → ahead t.
Proof. intros Hb k [a Hk]. apply bool_decide_eq_true in Hb. by apply (Hb k a). Qed.
Lemma uniq_by {A B} `{EqDecision B} (f : A → B) (t : Table A) :
  bool_decide (map_Forall (λ k1 a1, map_Forall (λ k2 a2, f a1 = f a2 → k1 = k2) (rows t)) (rows t)) = true → uniq f t.
Proof. intros Hb k1 k2 a1 a2 H1 H2. apply bool_decide_eq_true in Hb. by apply (Hb k1 a1 H1 k2 a2). Qed.
Lemma refers_by {A B} (f : A → Z) (t : Table A) (u : Table B) :
  bool_decide (map_Forall (λ _ a, is_Some (rows u !! f a)) (rows t)) = true → refers f t u.
Proof. intros Hb k a Hk. apply bool_decide_eq_true in Hb. by apply (Hb k a). Qed.
Lemma every_by {A} (P : A → Prop) `{!∀ a, Decision (P a)} (t : Table A) :
  bool_decide (map_Forall (λ _ a, P a) (rows t)) = true → every P t.
Proof. intros Hb k a Hk. apply bool_decide_eq_true in Hb. by apply (Hb k a). Qed.

Lemma db_one_ok : DbOk db_one.
Proof.
  split; split_and?; try (first [apply ahead_by|apply uniq_by|apply refers_by]; by vm_compute).
  - apply (every_by (λ i, 1 ≤ it_quantity i ≤ MAX_INT)). by vm_compute.
  - intros r o Hro. simpl in Hro. set_solver.
Qed.

(** ** The theorems apply *)

(** Ann orders two nuts while the boss, who read the same state, renames a product. *)
Definition nuts : Req := OrderPost (mkOrderAttrs None None (Some [mkItemAttrs 2 (Some 2)])).
Definition rename : Req := ProductPut true 1 (mkProductAttrs (Some "Bolt M8") None).
Definition db_two : Db := (dispatch env (Some boss) rename db_one db_one).2.
Definition db_three : Db := (dispatch env (Some ann) nuts db_one db_two).2.

Lemma business_invariant_witness : history env db_one [db_three; db_two; db_one] ∧ DbOk db_three.
Proof.
  assert (history env db_one [db_three; db_two; db_one]) as Hh.
  { apply (hist_request env db_one db_two [db_one] db_one (Some ann) nuts); [|set_solver].
    apply (hist_request env db_one db_one [] db_one (Some boss) rename); [constructor|set_solver]. }
  split; [exact Hh|]. pose proof (business_invariant env db_one _ db_one_ok Hh) as Hf. by inversion Hf.
Defined.

(** Ann tries to delete Bob's order, then places one of her own. *)
Lemma customer_isolation_witness :
  (dispatch env (Some ann) (OrderDelete 1) db_one db_one).1 = Err not_found
  ∧ order_state (dispatch env (Some ann) nuts db_one db_two).2 1 = order_state db_two 1.
Proof.
  split; [by vm_compute|]. destruct (customer_isolation env ann nuts db_one db_two) as (_ & Hkeep & _).
  - destruct business_invariant_witness as [Hh _]. pose proof (business_invariant env db_one _ db_one_ok Hh) as Hf.
    rewrite Forall_forall in Hf. apply Hf. set_solver.
  - done.
  - done.
  - apply Hkeep; [by eexists|]. intros (r & Hr & Hc). vm_compute in Hr. injection Hr as <-. by vm_compute in Hc.
Defined.

(** The boss moves Bob's order to Ann after Bob's requests have read it: Bob's change
    of the status takes it back, and his deletion removes Ann's order. *)
Definition to_ann : Req := OrderPut true 1 (mkOrderAttrs (Some 1) None None).
Definition db_moved : Db := (dispatch env (Some boss) to_ann db_one db_one).2.
Definition touch : Req := OrderPut true 1 (mkOrderAttrs None (Some PLACED) None).

Theorem reassigned_order_taken_back :
  let owner db := rows (b_orders db) !! 1 ≫= λ r, user_of_customer db (or_customer r) in
  owner db_one = Some (u_id bob) ∧ owner db_moved = Some (u_id ann)
  ∧ owner (dispatch env (Some bob) touch db_one db_moved).2 = Some (u_id bob)
  ∧ owner (dispatch env (Some bob) (OrderDelete 1) db_one db_moved).2 = None
  ∧ (dispatch env (Some bob) (OrderDelete 1) db_moved db_moved).1 = Err not_found.
Proof. by vm_compute. Qed.

Lemma customer_sees_own_witness : ∀ d, (Orders.retrieve true (Some "acme") (Some ann) 1 db_one db_one).1 ≠ Ok d.
Proof.
  intros d Hd. destruct (customer_sees_own true (Some "acme") ann db_one db_one eq_refl) as (_ & Hr & _).
  destruct (Hr 1 d Hd) as (_ & r & Hrow & Hc). vm_compute in Hrow. injection Hrow as <-. by vm_compute in Hc.
Defined.

(** A route of Dan in the one car. *)
Definition tour (status : RouteStatus) : RouteAttrs := mkRouteAttrs (Some "north") (Some 1) (Some 1) (Some [1]) (Some status).
Definition db_tour : Db := (dispatch env (Some boss) (RoutePost (tour R_PLANNED)) db_one db_one).2.

Lemma routes_exclusive_witness :
  exclusive db_tour
  ∧ (dispatch env (Some boss) (RoutePost (tour R_ACTIVE)) db_tour db_tour).1
    = Err (Invalid [("driver", "Driver already assigned to another active route.")]).
Proof.
  split; [|by vm_compute]. apply (routes_exclusive env (Some boss) (RoutePost (tour R_PLANNED)) db_one).
  intros k1 k2 r1 r2 H1. by vm_compute in H1.
Defined.

Lemma route_put_syncs_witness :
  ∃ d db', Routes.put true (Some "acme") (Some boss) true 1 (mkRouteAttrs None None None None (Some R_ACTIVE)) db_tour db_tour
      = (Ok d, db') ∧ ∀ row, rows (b_orders db') !! 1 = Some row → or_status row = IN_ROUTE.
Proof.
  destruct (Routes.put true (Some "acme") (Some boss) true 1 (mkRouteAttrs None None None None (Some R_ACTIVE)) db_tour db_tour)
    as [[d|e] db'] eqn:E; [|by vm_compute in E].
  exists d, db'. split; [done|]. destruct (route_put_syncs _ _ _ _ _ _ _ _ _ _ E) as (i & Hi & _ & _ & Hs).
  vm_compute in Hi. injection Hi as <-. intros row. apply (Hs IN_ROUTE 1); [done|].
  vm_compute in E. injection E as _ <-. by vm_compute.
Defined.

Lemma normalisation_is_identity_witness : validate_license_plate "AA 1234 BB" = "AA 1234 BB".
Proof. exact (proj1 (proj2 normalisation_is_identity "AA 1234 BB" eq_refl eq_refl)). Defined.

(** ** Runs worth knowing *)

(** Two requests that read the same state both pass the check on routes. *)
Lemma soft_check_races :
  let db1 := (dispatch env (Some boss) (RoutePost (tour R_ACTIVE)) db_one db_one).2 in
  let db2 := (dispatch env (Some boss) (RoutePost (tour R_ACTIVE)) db_one db1).2 in
  (dispatch env (Some boss) (RoutePost (tour R_ACTIVE)) db_one db1).1 = Ok tt
  ∧ (rt_driver <$> rows (b_routes db2) !! 1) = Some 1 ∧ (rt_driver <$> rows (b_routes db2) !! 2) = Some 1.
Proof. by vm_compute. Qed.

(** The same plate with and without blanks: two cars.  In lower case: refused, not
    normalised. *)
Lemma plates_differ_by_blanks :
  let car plate := CarPost (mkCarAttrs (Some "Ford") (Some "Transit") (Some 2021) (Some plate)) in
  (dispatch env (Some boss) (car "AA 1234 BB") db_one db_one).1 = Ok tt
  ∧ (ca_license_plate <$> rows (b_cars (dispatch env (Some boss) (car "AA 1234 BB") db_one db_one).2) !! 1) = Some "AA1234BB"
  ∧ (ca_license_plate <$> rows (b_cars (dispatch env (Some boss) (car "AA 1234 BB") db_one db_one).2) !! 2) = Some "AA 1234 BB"
  ∧ ∃ errors, (dispatch env (Some boss) (car "aa1234cc") db_one db_one).1 = Err (Invalid errors).
Proof. vm_compute. split_and!; [done..|]. by eexists. Qed.

(** Deleting a driver leaves the account, which still logs in as a driver. *)
Lemma account_outlives_driver :
  let db' := (dispatch env (Some boss) (DriverDelete 1) db_one db_one).2 in
  rows (b_drivers db') = ∅ ∧ (ac_role <$> rows (b_users db') !! 4) = Some DRIVER.
Proof. by vm_compute. Qed.

(** * Product tasks at work *)

Local Open Scope nat_scope.

(** A generator stuck on one name. *)
Definition stuck : nat → nat * nat * nat := λ _, (0, 0, 0).
Definition cheap : nat → Z := λ _, 0%Z.

Lemma pick_distinct_total_witness :
  ∃ names, _pick_distinct_names stuck 2 ["Premium Stainless Steel Water Bottle #1"] 3 = Some names
    ∧ length names = 2 ∧ NoDup names.
Proof.
  destruct (pick_distinct_total stuck 2 ["Premium Stainless Steel Water Bottle #1"] 3) as (names & E & Hl & Hn & _); [done|].
  exists names. split; [exact E|split; [exact Hl|exact Hn]].
Defined.

(** The suffix loop at work. *)
Lemma stuck_names :
  _pick_distinct_names stuck 2 ["Premium Stainless Steel Water Bottle #1"] 3
  = Some ["Premium Stainless Steel Water Bottle"; "Premium Stainless Steel Water Bottle #2"].
Proof. by vm_compute. Qed.

Lemma generate_products_exact_witness :
  ∃ created db', generate_products stuck cheap (λ _, id) 2 4 db_one = Some (created, db') ∧ length created = 2 ∧ DbOk db'.
Proof.
  destruct (generate_products_exact stuck cheap 2 4 db_one db_one_ok) as (created & db' & E & Hl & _ & _ & _ & Hok).
  { vm_compute. lia. }
  exists created, db'. split; [exact E|split; [exact Hl|exact Hok]].
Defined.

(** [random.sample] that takes the first ones. *)
Definition firsts (l : list (string * Z)) (n : nat) : list (string * Z) := take n l.
Lemma firsts_sample : is_sample firsts.
Proof. intros l n Hn. split; [by apply length_take_le|]. exists (drop n l). unfold firsts. by rewrite take_drop. Qed.

Definition db_new : Db := set_items (set_rows (λ _, ∅)) db_one.
Lemma db_new_ok : DbOk db_new.
Proof. pose proof db_one_ok as Hdb. biz_open Hdb. split; simpl; split_and?; try done; try (by intros k [? ?]); by intros. Qed.

Lemma seed_reset_exact_witness :
  (seed_handle firsts true (Some "acme") 40 true db_new).1 = Ok (40, 0%Z).
Proof.
  pose proof (seed_reset_exact firsts true (Some "acme") 40 db_new firsts_sample) as Hs.
  destruct (seed_handle firsts true (Some "acme") 40 true db_new) as [r db']. apply Hs; [done|lia|apply db_new_ok|done].
Defined.
