(* ===== verification/CiGuard.v ===== *)
(** * The static guards

    Models src/scripts/ci_guard_ast.py.  A module is its syntax tree, of which the
    guards look at imports, names, attributes, subscripts, calls, string constants
    and function definitions; every other construct is [Other] with its children.
    [ast.parse] is an argument: a source is given as the tree, or as the error.
    A node's [id()] is the path that leads to it. *)
From S2P Require Import Prelude PyStr.
From Stdlib Require Import Ascii.
Open Scope tenants_scope.

(** ** Syntax trees *)

(** [name as asname]. *)
Record alias := mkAlias { al_name : string; al_asname : option string }.

Inductive node :=
| Import (names : list alias)
| ImportFrom (module : option string) (names : list alias) (level : nat)
| Attribute (value : node) (attr : string)
| Name (id : string)
| Subscript (value slice : node)
| Call (func : node) (args keywords : list node)
| Constant (value : option string)        (** a string, or some other constant *)
| FunctionDef (children : list node)      (** [def] and [async def] *)
| Other (children : list node).

(** [ast.iter_child_nodes]. *)
Definition children (n : node) : list node :=
  match n with
  | Import _ | ImportFrom _ _ _ | Name _ | Constant _ => []
  | Attribute v _ => [v]
  | Subscript v s => [v; s]
  | Call f args kws => f :: args ++ kws
  | FunctionDef cs | Other cs => cs
  end.

(** The number of nodes. *)
Fixpoint size (n : node) : nat :=
  S match n with
    | Import _ | ImportFrom _ _ _ | Name _ | Constant _ => 0
    | Attribute v _ => size v
    | Subscript v s => size v + size s
    | Call f args kws => size f + (sum_list_with size args + sum_list_with size kws)
    | FunctionDef cs | Other cs => sum_list_with size cs
    end.

Definition Path : Type := list nat.

(** [ast.walk]: breadth first, with a queue. *)
Definition numbered (p : Path) (cs : list node) : list (Path * node) := imap (λ i c, (p ++ [i], c)) cs.

Fixpoint walk_queue (fuel : nat) (todo : list (Path * node)) : list (Path * node) :=
  match fuel, todo with
  | S fuel', (p, n) :: todo' => (p, n) :: walk_queue fuel' (todo' ++ numbered p (children n))
  | _, _ => []
  end.

Definition walk_from (p : Path) (n : node) : list (Path * node) := walk_queue (size n) [(p, n)].
Definition walk (tree : node) : list node := snd <$> walk_from [] tree.

(** ** Rule: schema *)

(** [a.asname or a.name]. *)
Definition bound_name (a : alias) : string :=
  match al_asname a with Some s => if String.eqb s "" then al_name a else s | None => al_name a end.

Definition is_module (module : option string) (m : string) : bool := bool_decide (module = Some m).

Definition _connection_aliases (tree : node) : list string :=
  walk tree ≫= λ n,
    match n with
    | ImportFrom m names _ =>
        if is_module m "django.db"
        then omap (λ a, if mem (al_name a) ["connection"; "connections"] then Some (bound_name a) else None) names
        else []
    | _ => []
    end.

Definition _db_module_paths (tree : node) : list string :=
  walk tree ≫= λ n,
    match n with
    | Import names => omap (λ a, if String.eqb (al_name a) "django.db" then Some (bound_name a) else None) names
    | ImportFrom m names _ =>
        if is_module m "django" then omap (λ a, if String.eqb (al_name a) "db" then Some (bound_name a) else None) names
        else []
    | _ => []
    end.

(** The dotted path of a chain of names, the attributes collected so far behind it. *)
Fixpoint dotted_parts (n : node) (parts : list string) : option (list string) :=
  match n with
  | Attribute v a => dotted_parts v (a :: parts)
  | Name x => Some (x :: parts)
  | _ => None
  end.
Definition _dotted (n : node) : option string := py_join "." <$> dotted_parts n [].

Section schema.
Context (aliases db_paths : list string).

Definition is_alias (n : node) : bool := match n with Name x => mem x aliases | _ => false end.
Definition in_paths (o : option string) : bool := match o with Some s => mem s db_paths | None => false end.

Fixpoint is_conn (n : node) : bool :=
  match n with
  | Name x => mem x aliases
  | Attribute v a => if mem a ["connection"; "connections"] then in_paths (_dotted v) else false
  | Subscript v _ => is_alias v || is_conn v
  | _ => false
  end.

Definition schema_hit (n : node) : option string :=
  match n with
  | Attribute v a => if String.eqb a "schema_name" && is_conn v then Some "<connection>.schema_name" else None
  | Call (Name f) (a0 :: Constant c :: _) _ =>
      if String.eqb f "getattr" && is_conn a0 && bool_decide (c = Some "schema_name")
      then Some ("getattr(<connection>, " +:+ String (ascii_of_nat 34) ("schema_name" +:+ String (ascii_of_nat 34) ")")) else None
  | _ => None
  end.
End schema.

Definition schema_offenders (tree : node) : list string :=
  let aliases := _connection_aliases tree in
  let db_paths := _db_module_paths tree in
  match aliases, db_paths with
  | [], [] => []
  | _, _ => omap (schema_hit aliases db_paths) (walk tree)
  end.

(** ** Rule: redis *)

Definition REDIS_HARMLESS_SUBMODULES : list string := ["redis.exceptions"; "redis.typing"].
Definition REDIS_CLIENT_NAMES : list string :=
  ["Redis"; "StrictRedis"; "ConnectionPool"; "BlockingConnectionPool"; "from_url"; "get_redis_connection"].
Definition REDIS_WRAPPER_FACTORIES : list string := ["get_redis_connection"].

(** The package, or a module in it. *)
Definition under (package m : string) : bool := String.eqb m package || py_startswith m (package +:+ ".").

(** [', '.join(sorted(...))] of a set. *)
Definition str_le (a b : string) : Prop := String.leb a b = true.
#[local] Instance str_le_dec : RelDecision str_le.
Proof. unfold str_le. solve_decision. Defined.
Definition listing (names : list string) : string := py_join ", " (merge_sort str_le (remove_dups names)).

Definition redis_hits (n : node) : list string :=
  match n with
  | Import names =>
      omap (λ a, if under "redis" (al_name a) && negb (mem (al_name a) REDIS_HARMLESS_SUBMODULES)
                 then Some ("import " +:+ al_name a) else None) names
  | ImportFrom m names _ =>
      let modname := default "" m in
      let bound := al_name <$> names in
      let factories := filter (λ x, x ∈ REDIS_WRAPPER_FACTORIES) bound in
      (if under "django_redis" modname && negb (bool_decide (factories = []))
       then ["from " +:+ modname +:+ " import " +:+ listing factories] else [])
      ++ (if under "redis" modname && negb (mem modname REDIS_HARMLESS_SUBMODULES)
             && (existsb (λ x, mem x REDIS_CLIENT_NAMES) bound || negb (String.eqb modname "redis"))
          then ["from " +:+ modname +:+ " import " +:+ listing bound] else [])
  | Attribute v a =>
      if mem a ["get_client"; "master_client"] then
        match v with
        | Attribute _ a' => if String.eqb a' "client" then [".client." +:+ a] else []
        | _ => []
        end
      else if mem a REDIS_CLIENT_NAMES then ["." +:+ a] else []
  | Name x => if String.eqb x "get_redis_connection" then ["get_redis_connection"] else []
  | _ => []
  end.

Definition redis_offenders (tree : node) : list string := walk tree ≫= redis_hits.

(** ** Rules: commons and settings_load *)

Definition django_tenants_hits (n : node) : list string :=
  match n with
  | Import names =>
      omap (λ a, if under "django_tenants" (al_name a) then Some ("import " +:+ al_name a) else None) names
  | ImportFrom m _ _ =>
      let modname := default "" m in
      if under "django_tenants" modname then ["from " +:+ modname +:+ " import ..."] else []
  | _ => []
  end.

Definition commons_django_tenants (tree : node) : list string := walk tree ≫= django_tenants_hits.

Definition is_function (n : node) : bool := match n with FunctionDef _ => true | _ => false end.

(** The nodes inside a [def]. *)
Definition _function_bodies (tree : node) : list Path :=
  walk_from [] tree ≫= λ pn, if is_function pn.2 then fst <$> walk_from pn.1 pn.2 else [].

Definition settings_load_django_tenants (tree : node) : list string :=
  let deferred := _function_bodies tree in
  walk_from [] tree ≫= λ pn, if mem pn.1 deferred then [] else django_tenants_hits pn.2.

(** ** Rules and runs *)

Record Rule := mkRule {
  ru_find : node → list string;
  ru_allow : list string;
  ru_skip_roots : list string;
  ru_only_prefixes : option (list string);
}.

Definition SCHEMA_ALLOW : list string :=
  ["users/serializers.py"; "users/signals.py"; "users/permissions.py"; "products/management/commands/seed_products.py"].
Definition SCHEMA_SKIP_ROOTS : list string := ["tenants"].
Definition REDIS_ALLOW : list string := ["tenants/resolver/cache.py"; "commons/platform/redis_client.py"].
Definition SETTINGS_LOAD_PATH : list string :=
  ["tenants/__init__.py"; "tenants/context.py"; "tenants/celery/"; "tenants_back/__init__.py"; "tenants_back/celery.py"].
Definition SKIP_DIRS : list string := ["p_env"; "__pycache__"; "migrations"; ".git"; "node_modules"].

Definition RULES : list (string * Rule) :=
  [("schema", mkRule schema_offenders SCHEMA_ALLOW SCHEMA_SKIP_ROOTS None);
   ("commons", mkRule commons_django_tenants [] [] (Some ["commons/"]));
   ("settings_load", mkRule settings_load_django_tenants [] [] (Some SETTINGS_LOAD_PATH));
   ("redis", mkRule redis_offenders REDIS_ALLOW [] None)].

(** A source: the parts of its path, and what [ast.parse] makes of it. *)
Record Source := mkSource { so_parts : list string; so_tree : option node }.
Definition rel (s : Source) : string := py_join "/" (so_parts s).

Definition iter_sources (files : list Source) : list Source :=
  filter (λ s, existsb (λ d, mem d SKIP_DIRS) (so_parts s) = false) files.

(** The file is looked at by the rule. *)
Definition in_scope (r : Rule) (s : Source) : bool :=
  negb (mem (default "" (head (so_parts s))) (ru_skip_roots r))
  && match ru_only_prefixes r with Some ps => existsb (py_startswith (rel s)) ps | None => true end.

(** The loop: the offenders reported and the files with a match, or the file that
    does not parse. *)
Fixpoint scan (r : Rule) (files : list Source) (checked : nat) (bad : list (string * list string))
    : res string (nat * list (string * list string)) :=
  match files with
  | [] => Ok (checked, bad)
  | s :: files' =>
      if negb (in_scope r s) then scan r files' checked bad
      else match so_tree s with
           | None => Err (rel s)
           | Some tree =>
               match ru_find r tree with
               | [] => scan r files' checked bad
               | hits =>
                   if mem (rel s) (ru_allow r) then scan r files' (S checked) bad
                   else scan r files' (S checked) (bad ++ [(rel s, hits)])
               end
           end
  end.

Definition run (r : Rule) (files : list Source) : nat :=
  match scan r (iter_sources files) 0 [] with
  | Ok (_, []) => 0
  | Ok (_, _) | Err _ => 1
  end.

(** [__main__]: the exit code, or the unknown rules. *)
Definition rule_of (name : string) : option Rule := snd <$> List.find (λ nr, String.eqb nr.1 name) RULES.

Definition main (argv : list string) (files : list Source) : res (list string) nat :=
  let names := match argv with [] => ["all"] | _ => argv end in
  let names := if bool_decide (names = ["all"]) then fst <$> RULES else names in
  match filter (λ n, ~ is_Some (rule_of n)) names with
  | [] => Ok (foldr Nat.max 0 (omap (λ n, (λ r, run r files) <$> rule_of n) names))
  | unknown => Err unknown
  end.

(** * Properties of the static guards

    What each rule finds, stated on the tree itself: a node is [within] the tree
    when some path leads to it, and runs at import time when no function lies on
    the way. *)

(** ** The walk reaches every node *)

(** The node at the end of a path. *)
Fixpoint at_path (p : Path) (n : node) : option node :=
  match p with
  | [] => Some n
  | i :: p' => c ← children n !! i; at_path p' c
  end.

Definition within (n tree : node) : Prop := ∃ p, at_path p tree = Some n.

Lemma size_children n : size n = S (sum_list_with size (children n)).
Proof. destruct n as [| |v a|x|v s|f args kws|c|cs|cs]; simpl; try lia. rewrite sum_list_with_app. lia. Qed.

Lemma numbered_elem p cs q c : (q, c) ∈ numbered p cs ↔ ∃ i, q = p ++ [i] ∧ cs !! i = Some c.
Proof.
  unfold numbered. rewrite list_elem_of_lookup. setoid_rewrite list_lookup_imap. split.
  - intros (i & Hi). destruct (cs !! i) as [c'|] eqn:E; [|done]. simpl in Hi. injection Hi as <- <-. by exists i.
  - intros (i & -> & Hi). exists i. by rewrite Hi.
Qed.

Lemma size_numbered p cs : sum_list_with (size ∘ snd) (numbered p cs) = sum_list_with size cs.
Proof.
  unfold numbered. assert (∀ (g : nat → Path), sum_list_with (size ∘ snd) (imap (λ i c, (g i, c)) cs) = sum_list_with size cs) as Hg.
  { induction cs as [|c cs IH]; intros g; simpl; [done|]. f_equal. apply (IH (λ i, g (S i))). }
  apply (Hg (λ i, p ++ [i])).
Qed.

Lemma walk_queue_elem fuel todo q m :
  sum_list_with (size ∘ snd) todo ≤ fuel →
  (q, m) ∈ walk_queue fuel todo ↔ ∃ p n r, (p, n) ∈ todo ∧ q = p ++ r ∧ at_path r n = Some m.
Proof.
  revert todo. induction fuel as [|fuel IH]; intros [|[p n] todo] Hf; simpl in *; try set_solver.
  { rewrite size_children in Hf. lia. }
  rewrite elem_of_cons, IH; last first.
  { rewrite sum_list_with_app, size_numbered. rewrite size_children in Hf. lia. }
  split.
  - intros [[= -> ->]|(p' & n' & r & Hin & -> & Hr)]; [exists p, n, []; rewrite app_nil_r; set_solver|].
    apply elem_of_app in Hin as [Hin|Hin]; [exists p', n', r; set_solver|].
    apply numbered_elem in Hin as (i & -> & Hi). exists p, n, (i :: r). rewrite <- app_assoc. simpl. rewrite Hi. set_solver.
  - intros (p' & n' & r & Hin & -> & Hr). apply elem_of_cons in Hin as [[= -> ->]|Hin].
    + destruct r as [|i r]; simpl in Hr; [left; injection Hr as ->; by rewrite app_nil_r|].
      destruct (children n !! i) as [c|] eqn:Ei; [|done]. right. exists (p ++ [i]), c, r.
      rewrite <- app_assoc. split; [|done]. apply elem_of_app. right. apply numbered_elem. by exists i.
    + right. exists p', n', r. set_solver.
Qed.

Lemma walk_from_elem p n q m : (q, m) ∈ walk_from p n ↔ ∃ r, q = p ++ r ∧ at_path r n = Some m.
Proof. unfold walk_from. rewrite walk_queue_elem by (simpl; lia). set_solver. Qed.

Lemma walk_elem tree m : m ∈ walk tree ↔ within m tree.
Proof.
  unfold walk, within. rewrite list_elem_of_fmap. split.
  - intros ([q n] & -> & Hin). apply walk_from_elem in Hin as (r & -> & Hr). by exists r.
  - intros [r Hr]. exists (r, m). split; [done|]. apply walk_from_elem. by exists r.
Qed.

Lemma at_path_app p r t : at_path (p ++ r) t = at_path p t ≫= at_path r.
Proof. revert t. induction p as [|i p IH]; intros t; simpl; [done|]. destruct (children t !! i); [apply IH|done]. Qed.

Lemma within_child n c tree : within n tree → c ∈ children n → within c tree.
Proof.
  intros [p Hp] [i Hi]%list_elem_of_lookup. exists (p ++ [i]). rewrite at_path_app, Hp. cbn [mbind option_bind at_path]. by rewrite Hi.
Qed.

(** Collecting over the walk. *)
Lemma bind_ne {A B} (f : A → list B) l : l ≫= f ≠ [] ↔ ∃ x, x ∈ l ∧ f x ≠ [].
Proof.
  split.
  - intros Hne. destruct (l ≫= f) as [|y ys] eqn:E; [done|]. assert (y ∈ l ≫= f) as Hy by (rewrite E; by left).
    apply list_elem_of_bind in Hy as (x & Hy & Hx). exists x. split; [done|]. intros Hn. rewrite Hn in Hy. set_solver.
  - intros (x & Hx & Hne) E. destruct (f x) as [|y ys] eqn:Ef; [done|].
    assert (y ∈ l ≫= f) as Hy by (apply list_elem_of_bind; exists x; rewrite Ef; split; [by left|done]). rewrite E in Hy. set_solver.
Qed.

Lemma omap_ne {A B} (f : A → option B) l : omap f l ≠ [] ↔ ∃ x, x ∈ l ∧ f x ≠ None.
Proof.
  split.
  - intros Hne. destruct (omap f l) as [|y ys] eqn:E; [done|]. assert (y ∈ omap f l) as Hy by (rewrite E; by left).
    apply list_elem_of_omap in Hy as (x & Hx & Hy). exists x. split; [done|congruence].
  - intros (x & Hx & Hne) E. destruct (f x) as [y|] eqn:Ef; [|done].
    assert (y ∈ omap f l) as Hy by (apply list_elem_of_omap; by exists x). rewrite E in Hy. set_solver.
Qed.

(** ** The schema rule

    What a name of the module stands for, by the import statements of Python, and not
    by what the rule looks for: an import may bind a module or, from [django.db], the
    connection.  The import is looked for anywhere in the module, as the rule does,
    and whether something else hides the name is not asked. *)

Definition dot : ascii := "."%char.

(** What an imported name stands for. *)
Inductive Obj := Mod (path : string) | Conn.

(** The attribute [a] of the module [m]. *)
Definition member (m a : string) : Obj :=
  if String.eqb m "django.db" && mem a ["connection"; "connections"] then Conn else Mod (m +:+ "." +:+ a).

(** The first part of a dotted name. *)
Definition top (m : string) : string := default "" (head (py_split dot m)).

(** The ways to an object: an import that names [django.db] or something by name; an
    import of another module, [django] itself or one of its other submodules; a star. *)
Inductive Way := Named | Package | Star.

Definition import_way (m : string) : Way := if String.eqb m "django.db" then Named else Package.

Section spec.
Context (tree : node).

Inductive binds : Way → string → Obj → Prop :=
| b_import names a :                                (* import m: binds the first part of m *)
    within (Import names) tree → a ∈ names → al_asname a = None →
    binds (import_way (al_name a)) (top (al_name a)) (Mod (top (al_name a)))
| b_import_as names a x :                           (* import m as x *)
    within (Import names) tree → a ∈ names → al_asname a = Some x →
    binds (import_way (al_name a)) x (Mod (al_name a))
| b_from m names a :                                (* from m import n, n as x *)
    within (ImportFrom (Some m) names 0) tree → a ∈ names → al_name a ≠ "*" →
    binds Named (default (al_name a) (al_asname a)) (member m (al_name a))
| b_star m names a x :                              (* from m import * *)
    within (ImportFrom (Some m) names 0) tree → a ∈ names → al_name a = "*" → binds Star x (member m x).

(** What an expression stands for: a name, an attribute of a module, an element of
    [connections]. *)
Inductive denotes (w : Way) : node → Obj → Prop :=
| d_name x o : binds w x o → denotes w (Name x) o
| d_attribute v a m : denotes w v (Mod m) → denotes w (Attribute v a) (member m a)
| d_subscript v i : denotes w v Conn → denotes w (Subscript v i) Conn.

(** [n] reads the [schema_name] of [e]. *)
Inductive reads_schema : node → node → Prop :=
| rs_attribute e : reads_schema (Attribute e "schema_name") e
| rs_getattr e rest kws : reads_schema (Call (Name "getattr") (e :: Constant (Some "schema_name") :: rest) kws) e.

(** The names of a tree the parser made are identifiers. *)
Definition ident (x : string) : Prop := x ≠ "" ∧ no_char dot x.

Definition parsed : Prop := ∀ n, within n tree →
  match n with
  | Name x | Attribute _ x => ident x
  | Import names => ∀ a x, a ∈ names → al_asname a = Some x → ident x
  | ImportFrom m names _ => ∀ a, a ∈ names → ident (al_name a) ∧ ∀ x, al_asname a = Some x → ident x
  | _ => True
  end.

(** No relative import is spelled like one of Django's modules. *)
Definition absolute : Prop := ∀ m names level,
  within (ImportFrom (Some m) names level) tree → m ∈ ["django"; "django.db"] → level = 0.

End spec.

(** *** Dotted names *)

Lemma split_join_dot parts : parts ≠ [] → Forall (no_char dot) parts → py_split dot (py_join "." parts) = parts.
Proof.
  intros Hne Hf. unfold py_split. induction Hf as [|x l Hx Hf IH]; [done|]. destruct l as [|y l].
  - simpl. rewrite split_chars_one by done. simpl. by rewrite of_chars_chars.
  - assert (chars (py_join "." (x :: y :: l)) = chars x ++ dot :: chars (py_join "." (y :: l))) as ->.
    { change (py_join "." (x :: y :: l)) with (x +:+ ("." +:+ py_join "." (y :: l))). by rewrite !chars_app. }
    rewrite split_chars_app by done. rewrite fmap_cons, IH by done. by rewrite of_chars_chars.
Qed.

Lemma last_dot_inj m m' a a' :
  no_char dot a → no_char dot a' → m +:+ "." +:+ a = m' +:+ "." +:+ a' → m = m' ∧ a = a'.
Proof.
  intros Ha Ha' E. apply (f_equal (reverse ∘ chars)) in E. cbn [compose] in E. rewrite !chars_app, !reverse_app in E.
  change (reverse (chars ".")) with [dot] in E. rewrite <- !app_assoc in E. apply cut_inj in E as [E1 E2]; [|by rewrite elem_of_reverse..].
  apply (inj reverse), (f_equal of_chars) in E1. apply (inj reverse), (f_equal of_chars) in E2.
  by rewrite !of_chars_chars in E1, E2.
Qed.

Lemma dotted_more n parts : dotted_parts n parts = (λ l, l ++ parts) <$> dotted_parts n [].
Proof.
  revert parts. induction n as [| |v IH a|x| | | | |]; intros parts; try done. cbn [dotted_parts].
  rewrite (IH (a :: parts)), (IH [a]). destruct (dotted_parts v []); [|done]. cbn. by rewrite <- app_assoc.
Qed.

Lemma dotted_ne n l : dotted_parts n [] = Some l → l ≠ [].
Proof.
  destruct n; try done; cbn [dotted_parts]; [|by intros [= <-]]. rewrite dotted_more. destruct (dotted_parts n []); [|done].
  intros [= <-]. by destruct l0.
Qed.

Lemma dotted_one n x : dotted_parts n [] = Some [x] → n = Name x.
Proof.
  destruct n; try done; cbn [dotted_parts]; [|by intros [= ->]]. rewrite dotted_more.
  destruct (dotted_parts n []) as [l|] eqn:E; [|done]. apply dotted_ne in E. intros [= Hl].
  by destruct l as [|? [|]]; simplify_eq/=.
Qed.

Lemma dotted_two n x y : dotted_parts n [] = Some [x; y] → n = Attribute (Name x) y.
Proof.
  destruct n; try done; cbn [dotted_parts]. rewrite dotted_more.
  destruct (dotted_parts n []) as [l|] eqn:E; [|done]. intros [= Hl]. destruct l as [|z [|z' l]]; simplify_eq/=.
  - by apply dotted_one in E as ->.
  - destruct l; discriminate.
Qed.

Section rule.
Context (tree : node) (Hparsed : parsed tree) (Habs : absolute tree).

Notation aliases := (_connection_aliases tree).
Notation paths := (_db_module_paths tree).

Lemma dotted_idents n l : within n tree → dotted_parts n [] = Some l → Forall (no_char dot) l.
Proof.
  revert l. induction n as [| |v IH a|x| | | | |]; intros l Hn; try done; cbn [dotted_parts].
  - rewrite dotted_more. destruct (dotted_parts v []) as [lv|]; [|done]. intros [= <-]. apply Forall_app_2.
    + apply IH; [|done]. eapply within_child; [exact Hn|]. by left.
    + constructor; [|done]. by apply (Hparsed _ Hn).
  - intros [= <-]. constructor; [|done]. by apply (Hparsed _ Hn).
Qed.

(** The parts of a dotted expression, from its text. *)
Lemma dotted_text n text : within n tree → _dotted n = Some text → dotted_parts n [] = Some (py_split dot text).
Proof.
  intros Hn. unfold _dotted. destruct (dotted_parts n []) as [l|] eqn:E; [|done]. intros [= <-].
  rewrite split_join_dot; [done|by eapply dotted_ne|by eapply dotted_idents].
Qed.

Lemma bound_name_as a x : al_asname a = Some x → ident x → bound_name a = x.
Proof. intros Ha [Hx _]. unfold bound_name. rewrite Ha. by apply String.eqb_neq in Hx as ->. Qed.
Lemma bound_name_plain a : al_asname a = None → bound_name a = al_name a.
Proof. intros Ha. unfold bound_name. by rewrite Ha. Qed.
Lemma bound_name_from a : (∀ x, al_asname a = Some x → ident x) → bound_name a = default (al_name a) (al_asname a).
Proof. intros Hx. destruct (al_asname a) as [x|] eqn:E; [by apply bound_name_as, Hx|by apply bound_name_plain]. Qed.

Lemma aliases_spec x : x ∈ aliases ↔ binds tree Named x Conn.
Proof.
  unfold _connection_aliases. rewrite list_elem_of_bind. split.
  - intros (n & Hx & Hn). apply walk_elem in Hn. destruct n as [|m names level| | | | | | |]; try set_solver.
    unfold is_module in Hx. case_bool_decide; [|set_solver]. subst m. apply list_elem_of_omap in Hx as (a & Ha & Hx).
    destruct (mem _ _) eqn:Em; [|done]. injection Hx as <-. destruct (Hparsed _ Hn a Ha) as [_ Has].
    rewrite (bound_name_from a Has). rewrite (Habs _ _ _ Hn) in Hn by set_solver.
    replace Conn with (member "django.db" (al_name a)) by (unfold member; by rewrite Em).
    eapply b_from; [done|done|]. intros E. by rewrite E in Em.
  - intros Hb. remember Named as w eqn:Ew. remember Conn as o eqn:Eo. destruct Hb as [| |m names a Hn Ha Hs|]; [done..| |done].
    unfold member in Eo. destruct (String.eqb_spec m "django.db") as [->|]; [|done]. destruct (mem (al_name a) _) eqn:Em; [|done].
    destruct (Hparsed _ Hn a Ha) as [_ Has]. exists (ImportFrom (Some "django.db") names 0).
    split; [|by apply walk_elem]. unfold is_module. rewrite bool_decide_true by done. apply list_elem_of_omap.
    exists a. split; [done|]. by rewrite Em, bound_name_from.
Qed.

Lemma paths_elem x :
  x ∈ paths ↔ (∃ names a, within (Import names) tree ∧ a ∈ names ∧ al_name a = "django.db" ∧ x = bound_name a)
    ∨ (∃ names a, within (ImportFrom (Some "django") names 0) tree ∧ a ∈ names ∧ al_name a = "db" ∧ x = bound_name a).
Proof.
  unfold _db_module_paths. rewrite list_elem_of_bind. split.
  - intros (n & Hx & Hn). apply walk_elem in Hn. destruct n as [names|m names level| | | | | | |]; try set_solver.
    + apply list_elem_of_omap in Hx as (a & Ha & Hx). destruct (String.eqb_spec (al_name a) "django.db"); [|done].
      injection Hx as <-. left. by exists names, a.
    + unfold is_module in Hx. case_bool_decide; [|set_solver]. subst m. apply list_elem_of_omap in Hx as (a & Ha & Hx).
      destruct (String.eqb_spec (al_name a) "db"); [|done]. injection Hx as <-. right.
      rewrite (Habs _ _ _ Hn) in Hn by set_solver. by exists names, a.
  - intros [(names & a & Hn & Ha & Hm & ->)|(names & a & Hn & Ha & Hm & ->)].
    + exists (Import names). split; [|by apply walk_elem]. apply list_elem_of_omap. exists a. split; [done|]. by rewrite Hm.
    + exists (ImportFrom (Some "django") names 0). split; [|by apply walk_elem]. unfold is_module.
      rewrite bool_decide_true by done. apply list_elem_of_omap. exists a. split; [done|]. by rewrite Hm.
Qed.

(** The attributes that are modules. *)
Lemma member_mod m a path : member m a = Mod path → path = m +:+ "." +:+ a.
Proof. unfold member. destruct (_ && _); [done|]. by intros [= <-]. Qed.

Lemma no_dot_join m a x : no_char dot x → m +:+ "." +:+ a ≠ x.
Proof. intros Hx <-. apply Hx. rewrite !chars_app, !elem_of_app. right. left. by left. Qed.

(** What the named imports bind. *)
Lemma named_binds x o : binds tree Named x o →
  (x = "django" ∧ o = Mod "django" ∧ "django.db" ∈ paths)
  ∨ (o = Mod "django.db" ∧ x ∈ paths)
  ∨ ∃ m names a, within (ImportFrom (Some m) names 0) tree ∧ a ∈ names ∧ x = default (al_name a) (al_asname a)
      ∧ o = member m (al_name a).
Proof.
  intros Hb. remember Named as w eqn:Ew. destruct Hb as [names a Hn Ha Hno|names a x Hn Ha Has|m names a Hn Ha Hs|]; [| | |done].
  - unfold import_way in Ew. destruct (String.eqb_spec (al_name a) "django.db") as [E|]; [|done]. left. rewrite E. split_and!; [done..|].
    apply paths_elem. left. exists names, a. split_and!; [done..|]. by rewrite bound_name_plain.
  - unfold import_way in Ew. destruct (String.eqb_spec (al_name a) "django.db") as [E|]; [|done]. right. left. rewrite E. split; [done|].
    apply paths_elem. left. exists names, a. split_and!; [done..|]. symmetry. apply bound_name_as; [done|]. by apply (Hparsed _ Hn a).
  - right. right. by exists m, names, a.
Qed.

Lemma denotes_django v : denotes tree Named v (Mod "django") → v = Name "django" ∧ "django.db" ∈ paths.
Proof.
  assert (no_char dot "django") as Hdj by (vm_compute; set_solver). intros Hd. remember (Mod "django") as o eqn:Eo.
  destruct Hd as [x o Hb|w a m Hw|]; [| |done].
  - apply named_binds in Hb as [(-> & _ & Hp)|[(-> & _)|(m & names & a & _ & _ & _ & ->)]]; [done|done|].
    apply member_mod in Eo. by destruct (no_dot_join m (al_name a) _ Hdj).
  - apply member_mod in Eo. by destruct (no_dot_join m a _ Hdj).
Qed.

Lemma denotes_db v : within v tree → denotes tree Named v (Mod "django.db") ↔ in_paths paths (_dotted v) = true.
Proof.
  intros Hv. assert (no_char dot "db") as Hdb by (vm_compute; set_solver). split.
  - intros Hd. remember (Mod "django.db") as o eqn:Eo. destruct Hd as [x o Hb|w a m Hw|]; [| |done].
    + unfold in_paths, _dotted. cbn [dotted_parts fmap option_fmap option_map py_join]. apply mem_spec.
      apply named_binds in Hb as [(_ & -> & _)|[(_ & Hp)|(m & names & a & Hn & Ha & -> & ->)]]; [done|done|].
      apply member_mod in Eo. destruct (Hparsed _ Hn a Ha) as [[_ Hna] Has].
      apply (last_dot_inj "django" m "db" (al_name a) Hdb Hna) in Eo as [<- E].
      apply paths_elem. right. exists names, a. split_and!; [done..|]. by rewrite bound_name_from.
    + apply member_mod in Eo. apply (last_dot_inj "django" m "db" a Hdb) in Eo as [<- <-]; [|by apply (Hparsed _ Hv)].
      apply denotes_django in Hw as [-> Hp]. unfold in_paths, _dotted. cbn. by apply mem_spec.
  - unfold in_paths. destruct (_dotted v) as [path|] eqn:Ed; [|done]. apply (dotted_text v _ Hv) in Ed. intros Hp%mem_spec%paths_elem.
    destruct Hp as [(names & a & Hn & Ha & Hm & ->)|(names & a & Hn & Ha & Hm & ->)].
    + destruct (al_asname a) as [x|] eqn:Ea.
      * pose proof (Hparsed _ Hn a x Ha Ea) as Hx. rewrite (bound_name_as a x Ea Hx) in Ed.
        unfold py_split in Ed. rewrite split_chars_one in Ed by apply Hx. simpl in Ed. rewrite of_chars_chars in Ed.
        apply dotted_one in Ed as ->. apply d_name. rewrite <- Hm. replace Named with (import_way (al_name a)) by by rewrite Hm.
        by eapply b_import_as.
      * rewrite (bound_name_plain a Ea), Hm in Ed. change (py_split dot "django.db") with ["django"; "db"] in Ed.
        apply dotted_two in Ed as ->. change (Mod "django.db") with (member "django" "db"). apply d_attribute, d_name.
        change "django" with (top "django.db"). rewrite <- Hm. replace Named with (import_way (al_name a)) by by rewrite Hm.
        by eapply b_import.
    + destruct (Hparsed _ Hn a Ha) as [Hid Has]. rewrite (bound_name_from a Has), Hm in Ed.
      assert (no_char dot (default "db" (al_asname a))) as Hx by (destruct (al_asname a); [by apply Has|done]).
      unfold py_split in Ed. rewrite split_chars_one in Ed by apply Hx. simpl in Ed. rewrite of_chars_chars in Ed.
      apply dotted_one in Ed as ->. change (Mod "django.db") with (member "django" "db"). rewrite <- Hm. apply d_name.
      eapply b_from; [done|done|]. by rewrite Hm.
Qed.

Lemma is_conn_spec n : within n tree → is_conn aliases paths n = true ↔ denotes tree Named n Conn.
Proof.
  induction n as [| |v IHv a|x|v IHv i IHi| | | |]; intros Hn; simpl; try (split; [done|by inversion 1]).
  - assert (within v tree) as Hv by (eapply within_child; [exact Hn|by left]). split.
    + destruct (mem a _) eqn:Em; [|done]. intros Hd%denotes_db; [|done].
      replace Conn with (member "django.db" a) by (unfold member; by rewrite Em). by constructor.
    + inversion 1 as [|w b m Hw Hm|]; subst. unfold member in *. destruct (String.eqb_spec m "django.db") as [->|]; [|discriminate].
      cbn [andb] in *. destruct (mem a _) eqn:Em; [|discriminate]. by apply denotes_db.
  - rewrite mem_spec, aliases_spec. split; [by constructor|by inversion 1].
  - assert (within v tree) as Hv by (eapply within_child; [exact Hn|by left]). specialize (IHv Hv). rewrite orb_true_iff. split.
    + intros [Ha|Hc]; constructor; apply IHv; [|done]. by destruct v.
    + inversion 1; subst. right. by apply IHv.
Qed.

Lemma schema_hit_spec n : within n tree →
  schema_hit aliases paths n ≠ None ↔ ∃ e, reads_schema n e ∧ denotes tree Named e Conn.
Proof.
  intros Hn. split.
  - destruct n as [| |v a| | |f args kws| | |]; try done.
    + simpl. destruct (String.eqb_spec a "schema_name") as [->|]; [|done]. destruct (is_conn _ _ v) eqn:E; [|done].
      intros _. exists v. split; [constructor|]. apply is_conn_spec; [|done]. eapply within_child; [exact Hn|by left].
    + destruct f as [| | |f| | | | |]; try done. destruct args as [|a0 [|a1 rest]]; try done. destruct a1 as [| | | | | |c| |]; try done.
      simpl. destruct (String.eqb_spec f "getattr") as [->|]; [|done]. destruct (is_conn _ _ a0) eqn:E; [|done]. simpl.
      case_bool_decide; [|done]. subst c. intros _. exists a0. split; [constructor|]. apply is_conn_spec; [|done].
      eapply within_child; [exact Hn|]. right. by left.
  - intros (e & Hr & He). destruct Hr as [e|e rest kws]; apply is_conn_spec in He; simpl; try (by rewrite He).
    + eapply within_child; [exact Hn|by left].
    + eapply within_child; [exact Hn|right; by left].
Qed.

Lemma schema_rule_named :
  schema_offenders tree ≠ [] ↔ ∃ n e, within n tree ∧ reads_schema n e ∧ denotes tree Named e Conn.
Proof.
  transitivity (omap (schema_hit aliases paths) (walk tree) ≠ []).
  - unfold schema_offenders. destruct aliases as [|x xs] eqn:Ea; [|done]. destruct paths as [|y ys] eqn:Ed; [|done].
    split; [done|]. intros (n & Hn & Hs)%omap_ne. exfalso. apply walk_elem in Hn.
    assert (∀ e, is_conn [] [] e = false) as Hno.
    { induction e as [| |v IHv a| |v IHv i IHi| | | |]; simpl; try done.
      - destruct (_dotted v); by repeat case_match.
      - rewrite IHv. by destruct v. }
    apply Hs. destruct n as [| |v a| | |f args kws| | |]; try done; simpl.
    + by rewrite Hno, andb_false_r.
    + repeat case_match; try done. by rewrite Hno, andb_false_r in *.
  - rewrite omap_ne. split.
    + intros (n & Hn%walk_elem & Hs). apply schema_hit_spec in Hs as (e & ? & ?); [|done]. by exists n, e.
    + intros (n & e & Hn & Hr & He). exists n. split; [by apply walk_elem|]. apply schema_hit_spec; [done|]. by exists e.
Qed.

End rule.

(** ** The import rules *)

(** The package or a module in it. *)
Definition in_package (package m : string) : Prop := m = package ∨ ∃ rest, m = package +:+ "." +:+ rest.

Lemma under_spec package m : under package m = true ↔ in_package package m.
Proof.
  unfold under, in_package. rewrite orb_true_iff, String.eqb_eq, prefix_chars. apply or_iff_compat_l. split.
  - intros [r E]. exists (of_chars r). rewrite <- (of_chars_chars m), E, !chars_app, <- app_assoc.
    rewrite <- (of_chars_chars (package +:+ "." +:+ of_chars r)), !chars_app, chars_of_chars. done.
  - intros [rest ->]. exists (chars rest). by rewrite !chars_app, <- app_assoc.
Qed.

(** An import of the package, of either form. *)
Inductive imports (package : string) : node → Prop :=
| im_import names a : a ∈ names → in_package package (al_name a) → imports package (Import names)
| im_from m names level : in_package package m → imports package (ImportFrom (Some m) names level).

Lemma django_tenants_spec n : django_tenants_hits n ≠ [] ↔ imports "django_tenants" n.
Proof.
  split.
  - destruct n as [names|m names level| | | | | | |]; try done; simpl.
    + rewrite omap_ne. intros (a & Ha & Hne). destruct (under _ _) eqn:E; [|done]. econstructor; [exact Ha|]. by apply under_spec.
    + destruct (under _ _) eqn:E; [|done]. intros _. destruct m as [m|]; [|by vm_compute in E]. constructor. by apply under_spec.
  - intros [names a Ha Hp|m names level Hp]; apply under_spec in Hp; simpl.
    + rewrite omap_ne. exists a. by rewrite Hp.
    + by rewrite Hp.
Qed.

(** Executed when the module is imported: no function on the way. *)
Inductive at_import (n : node) : node → Prop :=
| ai_here : at_import n n
| ai_child t c : is_function t = false → c ∈ children t → at_import n c → at_import n t.

(** The same, on paths. *)
Definition open_path (q : Path) (t : node) : Prop :=
  ∀ p r f, q = p ++ r → r ≠ [] → at_path p t = Some f → is_function f = false.

Lemma at_import_path n t : at_import n t ↔ ∃ q, at_path q t = Some n ∧ open_path q t.
Proof.
  split.
  - induction 1 as [|t c Ht Hc _ (q & Hq & Ho)].
    + exists []. split; [done|]. intros [|] r f E Hr; [by destruct r|done].
    + apply list_elem_of_lookup in Hc as [i Hi]. exists (i :: q). simpl. rewrite Hi. split; [done|].
      intros [|j p] r f E Hr Hf; [by injection Hf as <-|]. injection E as <- E. simpl in Hf. rewrite Hi in Hf.
      by apply (Ho p r f).
  - intros (q & Hq & Ho). revert t Hq Ho. induction q as [|i q IH]; intros t Hq Ho; simpl in Hq.
    { injection Hq as ->. constructor. }
    destruct (children t !! i) as [c|] eqn:Ei; [|done]. apply (ai_child n t c).
    + apply (Ho [] (i :: q) t); done.
    + by eapply list_elem_of_lookup_2.
    + apply (IH c Hq). intros p r f -> Hr Hf. apply (Ho (i :: p) r f); [done..|]. simpl. by rewrite Ei.
Qed.

Lemma deferred_spec tree q n :
  at_path q tree = Some n → is_function n = false → (q ∉ _function_bodies tree ↔ open_path q tree).
Proof.
  intros Hq Hn. assert (q ∈ _function_bodies tree ↔ ∃ p r f, q = p ++ r ∧ at_path p tree = Some f ∧ is_function f = true) as Hd.
  { unfold _function_bodies. rewrite list_elem_of_bind. split.
    - intros ([p f] & Hin & Hw). apply walk_from_elem in Hw as (p' & -> & Hp). simpl in Hin, Hp.
      destruct (is_function f) eqn:Ef; [|set_solver]. apply list_elem_of_fmap in Hin as ([q' m] & -> & Hin).
      apply walk_from_elem in Hin as (r & -> & Hr). by exists p', r, f.
    - intros (p & r & f & -> & Hp & Hf). exists (p, f). split; [|apply walk_from_elem; by exists p]. simpl. rewrite Hf.
      apply list_elem_of_fmap. exists (p ++ r, n). split; [done|]. apply walk_from_elem. exists r. split; [done|].
      rewrite at_path_app, Hp in Hq. done. }
  rewrite Hd. split.
  - intros Hno p r f -> Hr Hf. destruct (is_function f) eqn:Ef; [|done]. destruct Hno. by exists p, r, f.
  - intros Ho (p & r & f & -> & Hp & Hf). destruct r as [|i r].
    + rewrite app_nil_r in Hq. congruence.
    + rewrite (Ho p (i :: r) f) in Hf; done.
Qed.

Lemma imports_not_function package n : imports package n → is_function n = false.
Proof. by destruct 1. Qed.

(** The settings-load rule flags a module exactly when an import of django_tenants
    runs as the module is imported; the rule for commons, when there is one
    anywhere, in a function too. *)
Theorem import_rules_exact tree :
  (settings_load_django_tenants tree ≠ [] ↔ ∃ n, at_import n tree ∧ imports "django_tenants" n)
  ∧ (commons_django_tenants tree ≠ [] ↔ ∃ n, within n tree ∧ imports "django_tenants" n).
Proof.
  split.
  - unfold settings_load_django_tenants. rewrite bind_ne. split.
    + intros ([q n] & Hw & Hne). apply walk_from_elem in Hw as (q' & -> & Hq). simpl in *.
      match type of Hne with context [if ?b then _ else _] => destruct b eqn:Em end; [done|]. apply mem_false in Em. apply django_tenants_spec in Hne. exists n. split; [|done].
      apply at_import_path. exists q'. split; [done|]. eapply deferred_spec; [done|by eapply imports_not_function|done].
    + intros (n & Hi & Hp). apply at_import_path in Hi as (q & Hq & Ho). exists (q, n).
      split; [apply walk_from_elem; by exists q|]. simpl. rewrite (proj2 (mem_false _ _)); [by apply django_tenants_spec|].
      eapply deferred_spec; [done|by eapply imports_not_function|done].
  - unfold commons_django_tenants. rewrite bind_ne. split; intros (n & Hn & Hp); exists n; apply walk_elem in Hn; split; try done;
      by apply django_tenants_spec.
Qed.

(** ** Runs *)

(** The file passes the rule. *)
Definition passes (r : Rule) (s : Source) : Prop :=
  in_scope r s = true → ∃ tree, so_tree s = Some tree ∧ (ru_find r tree = [] ∨ rel s ∈ ru_allow r).

(** The result of a scan that found [bad] before: nothing to report. *)
Definition clean (r : Rule) (files : list Source) (bad : list (string * list string))
    (x : res string (nat * list (string * list string))) : Prop :=
  match x with
  | Ok (_, bad') => bad' = [] ↔ bad = [] ∧ Forall (passes r) files
  | Err _ => ~ Forall (passes r) files
  end.

Lemma clean_skip r s files bad x : passes r s → clean r files bad x → clean r (s :: files) bad x.
Proof. intros Hp. destruct x as [[c bad']|e]; unfold clean; rewrite Forall_cons; tauto. Qed.

Lemma scan_clean r files c bad : clean r files bad (scan r files c bad).
Proof.
  revert c bad. induction files as [|s files IH]; intros c bad; simpl; [rewrite Forall_nil; tauto|].
  destruct (in_scope r s) eqn:Es; simpl; [|apply clean_skip; [by unfold passes; rewrite Es|apply IH]].
  destruct (so_tree s) as [tree|] eqn:Et; [|intros [Hp _]%Forall_cons; destruct (Hp Es) as (? & ? & _); congruence].
  destruct (ru_find r tree) as [|h hs] eqn:Ef; [apply clean_skip; [intros _; exists tree; auto|apply IH]|].
  destruct (mem (rel s) (ru_allow r)) eqn:Em.
  - apply clean_skip; [|apply IH]. intros _. exists tree. split; [done|]. right. by apply mem_spec.
  - apply mem_false in Em. assert (~ passes r s) as Hno.
    { intros Hp. destruct (Hp Es) as (t & Ht & [Hf|Ha]); [|done]. congruence. }
    specialize (IH (S c) (bad ++ [(rel s, h :: hs)])). destruct (scan _ _ _ _) as [[c' bad']|e]; unfold clean in *; rewrite Forall_cons; [|tauto].
    rewrite IH. split; [intros [E _]; by destruct bad|tauto].
Qed.

(** A rule exits with 0 exactly when every file it looks at parses and is clean or
    on the rule's allow list. *)
Theorem run_exact r files : run r files = 0 ↔ ∀ s, s ∈ iter_sources files → passes r s.
Proof.
  rewrite <- Forall_forall. unfold run. pose proof (scan_clean r (iter_sources files) 0 []) as Hs. unfold clean in Hs.
  destruct (scan _ _ _ _) as [[c [|b bad]]|e]; split; try done; [intros _; by apply Hs|].
  intros Hf. exfalso. destruct Hs as [_ Hs]. by discriminate Hs.
Qed.

(** ** Modules that slip through *)

Definition module (body : list node) : node := Other body.

(** A module of one import and one read of [schema_name]. *)
Definition reading (import e : node) : node := module [import; Other [Attribute e "schema_name"]].
Definition django_db_connection : node := Attribute (Attribute (Name "django") "db") "connection".

(** [import django], [import django.db.models] and [from django.db import *] bind what
    leads to the connection; the rule sees none of them. *)
Lemma import_django_escapes :
  schema_offenders (reading (Import [mkAlias "django" None]) django_db_connection) = []
  ∧ schema_offenders (reading (Import [mkAlias "django.db.models" None]) django_db_connection) = []
  ∧ schema_offenders (reading (ImportFrom (Some "django.db") [mkAlias "*" None] 0) (Name "connection")) = []
  ∧ schema_offenders (reading (Import [mkAlias "django.db" None]) django_db_connection) = ["<connection>.schema_name"].
Proof. by vm_compute. Qed.

Lemma parsed_by tree P : (∀ n, P n → match n with
    | Name x | Attribute _ x => ident x
    | Import names => ∀ a x, a ∈ names → al_asname a = Some x → ident x
    | ImportFrom m names _ => ∀ a, a ∈ names → ident (al_name a) ∧ ∀ x, al_asname a = Some x → ident x
    | _ => True
    end) → Forall P (walk tree) → parsed tree.
Proof. intros HP Hf n Hn%walk_elem. rewrite Forall_forall in Hf. by apply HP, Hf. Qed.

(** The names of a node that are no identifiers. *)
Definition ident_ok (x : string) : bool := negb (String.eqb x "") && negb (existsb (Ascii.eqb dot) (chars x)).
Definition names_ok (n : node) : bool :=
  match n with
  | Name x | Attribute _ x => ident_ok x
  | Import names => forallb (λ a, match al_asname a with Some x => ident_ok x | None => true end) names
  | ImportFrom _ names _ => forallb (λ a, ident_ok (al_name a) && match al_asname a with Some x => ident_ok x | None => true end) names
  | _ => true
  end.

Lemma ident_ok_spec x : ident_ok x = true → ident x.
Proof.
  unfold ident_ok. intros [Hx Hd]%andb_true_iff. apply negb_true_iff in Hx, Hd. split; [by apply String.eqb_neq|]. intros Hin.
  enough (existsb (Ascii.eqb dot) (chars x) = true) by congruence. apply existsb_exists. exists dot.
  split; [by apply list_elem_of_In|apply Ascii.eqb_refl].
Qed.

Lemma parsed_check tree : forallb names_ok (walk tree) = true → parsed tree.
Proof.
  intros Hw. rewrite forallb_forall in Hw. apply (parsed_by tree (λ n, names_ok n = true)).
  - intros n Hn. destruct n as [names|m names level| | | | | | |]; simpl in Hn; try done; try by apply ident_ok_spec.
    + intros a x Ha Hx. rewrite forallb_forall in Hn. specialize (Hn a (proj1 (list_elem_of_In _ _) Ha)). rewrite Hx in Hn. by apply ident_ok_spec.
    + intros a Ha. rewrite forallb_forall in Hn. specialize (Hn a (proj1 (list_elem_of_In _ _) Ha)). apply andb_true_iff in Hn as [Hn Hx].
      split; [by apply ident_ok_spec|]. intros x Ea. rewrite Ea in Hx. by apply ident_ok_spec.
  - apply Forall_forall. intros n Hn. by apply Hw, list_elem_of_In.
Qed.

Lemma absolute_check tree :
  forallb (λ n, match n with ImportFrom (Some m) _ level => negb (mem m ["django"; "django.db"]) || (level =? 0)%nat | _ => true end)
    (walk tree) = true → absolute tree.
Proof.
  intros Hw m names level Hn%walk_elem Hm. rewrite forallb_forall in Hw. specialize (Hw _ (proj1 (list_elem_of_In _ _) Hn)). simpl in Hw.
  rewrite (proj2 (mem_spec _ _) Hm) in Hw. by apply Nat.eqb_eq.
Qed.


(** [from redis import *] and then [Redis(...)], or [Sentinel] by name: a client the
    rule does not see. *)
Lemma star_import_escapes :
  redis_offenders (module [ImportFrom (Some "redis") [mkAlias "*" None] 0; Call (Name "Redis") [] []]) = []
  ∧ redis_offenders (module [ImportFrom (Some "redis") [mkAlias "Sentinel" None] 0;
                             Call (Attribute (Name "s") "master_for") [] []]) = []
  ∧ redis_offenders (module [ImportFrom (Some "redis") [mkAlias "Redis" None] 0]) = ["from redis import Redis"].
Proof. by vm_compute. Qed.

(** ** Witnesses *)


Lemma import_rules_exact_witness :
  settings_load_django_tenants (module [FunctionDef [Import [mkAlias "django_tenants.utils" None]]]) = []
  ∧ commons_django_tenants (module [FunctionDef [Import [mkAlias "django_tenants.utils" None]]]) ≠ [].
Proof.
  split; [by vm_compute|]. apply import_rules_exact. exists (Import [mkAlias "django_tenants.utils" None]). split.
  - by exists [0; 0].
  - econstructor; [by left|]. right. by exists "utils".
Defined.
