(* ===== verification/Settings.v ===== *)
(** * Settings: the layers, and what the multi-tenant layer assembles

    Models src/tenants_back/settings.py (the choice of the layers and the narrow
    except clauses), the parts of settings_base.py and settings_multitenant.py that
    compute a value (the applications, the middleware with its inserts, the models
    allowed on the public schema, the values read from the environment, the options
    of a database, the cache aliases), and the choice of the Celery application in celery.py.  A module
    is the map of the names it binds, without those of the interpreter; the modules
    declare no [__all__]. *)
From S2P Require Import Prelude PyStr Models PyExc Logs World Schema ResolveCache Routing RoutingFacts ResolverScenario Beat ModelMethods SettingsChecks.
From Stdlib Require Import Ascii QArith.
Local Open Scope tenants_scope.

(** ** settings.py *)

Section layers.
Context {V : Type}.
Notation Ns := (gmap string V).

(** What executing a module raises: [ModuleNotFoundError] with its [name], or
    anything else. *)
Inductive LoadError := ModuleNotFound (name : string) | Raised (e : exn).

(** [from m import *]. *)
Definition star (m : Ns) : Ns := filter (λ kv, py_startswith kv.1 "_" = false) m.

Definition import_error (n : string) : LoadError :=
  Raised (simple_exn OtherException "ImportError" ("cannot import name " +:+ py_repr n)).

(** [from m import (names)] into a namespace. *)
Fixpoint import_names (names : list string) (m ns : Ns) : res LoadError Ns :=
  match names with
  | [] => Ok ns
  | n :: names' => match m !! n with
                   | None => Err (import_error n)
                   | Some v => import_names names' m (<[n := v]> ns)
                   end
  end.

(** settings_multitenant.py: [own] is what its statements bind, given what it
    imported. *)
Definition settings_multitenant (base : Ns) (own : Ns → res LoadError Ns) : res LoadError Ns :=
  ns <-? import_names ["_BUSINESS_APPS"; "_DJANGO_APPS"; "_THIRD_PARTY_APPS"] base (star base) ;;
  o <-? own ns ;;
  Ok (o ∪ ns).

Definition __package__ : string := "tenants_back".

(** [try: from .<name> import * except ModuleNotFoundError as exc: ...]; the local
    file may read what the module has bound so far.  The second component is what is
    printed. *)
Definition with_local (name : string) (local : Ns → res LoadError Ns) (ns : Ns) : res LoadError (Ns * list string) :=
  match local ns with
  | Ok m => Ok (star m ∪ ns, [])
  | Err (ModuleNotFound n) =>
      if negb (String.eqb n (__package__ +:+ "." +:+ name)) then Err (ModuleNotFound n)
      else Ok (ns, ["Can't load local settings (" +:+ name +:+ ".py)!"])
  | Err e => Err e
  end.

Definition local_name (multitenant : bool) : string :=
  if multitenant then "settings_local_multitenant" else "settings_local".

(** The private names re-exported for a deployed local file. *)
Definition helpers : list string := ["_MT_DB_DEFAULTS"; "_aurora_db_options"; "_proxy_db_options"].

Definition settings (mt : res exn bool) (base : res LoadError Ns) (own local_mt local : Ns → res LoadError Ns) :
    res LoadError (Ns * list string) :=
  match mt with
  | Err e => Err (Raised e)
  | Ok true =>
      b <-? base ;;
      o <-? settings_multitenant b own ;;
      ns <-? import_names helpers o (star o) ;;
      with_local (local_name true) local_mt ns
  | Ok false =>
      b <-? base ;;
      with_local (local_name false) local (star b)
  end.

End layers.
Arguments LoadError : clear implicits.

(** ** The parts of settings_base.py and settings_multitenant.py that compute *)

Definition _DJANGO_APPS : list string :=
  ["django.contrib.contenttypes"; "django.contrib.auth"; "django.contrib.gis"; "django.contrib.sessions";
   "django.contrib.messages"; "django.contrib.staticfiles"; "django.contrib.admin"].
Definition _THIRD_PARTY_APPS : list string := ["rest_framework"; "rest_framework_simplejwt"; "corsheaders"].
Definition _BUSINESS_APPS : list string := ["users"; "customers"; "drivers"; "cars"; "products"; "orders"; "routes"].

Definition standalone_apps : list string := _DJANGO_APPS ++ _THIRD_PARTY_APPS ++ _BUSINESS_APPS.

Definition shared_apps (django third business : list string) : list string :=
  "tenants" :: "django_tenants" :: django ++ third ++ business.
Definition tenant_apps (business : list string) : list string :=
  ["django.contrib.contenttypes"; "django.contrib.auth"; "django.contrib.admin"; "django.contrib.gis"] ++ business.
Definition installed_apps (shared tenant : list string) : list string :=
  shared ++ filter (λ a, mem a shared = false) tenant.

(** [s.rsplit(".", 1)]. *)
Definition dot : ascii := "."%char.
Definition py_rsplit1 (c : ascii) (s : string) : list string :=
  rev ((λ p, of_chars (rev p)) <$> splitn_chars 1 c (rev (chars s))).

Definition public_model_allowlist (auth_user_model : string) : res exn (list string) :=
  match py_rsplit1 dot (py_lower auth_user_model) with
  | [app; name] =>
      let label := app +:+ "." +:+ name in
      Ok [label; label +:+ "_groups"; label +:+ "_user_permissions"]
  | _ => Err (simple_exn OtherException "ValueError" "not enough values to unpack (expected 2, got 1)")
  end.

Definition base_middleware : list string :=
  ["corsheaders.middleware.CorsMiddleware"; "django.middleware.security.SecurityMiddleware";
   "django.contrib.sessions.middleware.SessionMiddleware"; "django.middleware.common.CommonMiddleware";
   "django.middleware.csrf.CsrfViewMiddleware"; "django.contrib.auth.middleware.AuthenticationMiddleware";
   "django.contrib.messages.middleware.MessageMiddleware"; "django.middleware.clickjacking.XFrameOptionsMiddleware"].

Definition CORS : string := "corsheaders.middleware.CorsMiddleware".
Definition AUTH : string := "django.contrib.auth.middleware.AuthenticationMiddleware".
Definition RESOLVE : string := "tenants.middleware.ShardAwareTenantMiddleware".
Definition ROUTE : string := "tenants.middleware.TenantShardRoutingMiddleware".
Definition GUARD : string := "tenants.auth.session.SchemaBoundSessionMiddleware".

Definition _MT_INSERTS : gmap string (list string) := {[ CORS := [RESOLVE; ROUTE]; AUTH := [GUARD] ]}.

Definition mt_middleware (base : list string) : list string :=
  base ≫= λ base_mw, base_mw :: default [] (_MT_INSERTS !! base_mw).

(** [x.strip() for x in os.environ.get(name, default).split(",") if x.strip()]. *)
Definition env_list (env : gmap string string) (name dflt : string) : list string :=
  py_strip <$> filter (λ h, py_strip h ≠ "") (py_split ","%char (default dflt (env !! name))).

(** [os.environ.get(name, "1") == "1"]. *)
Definition env_flag (env : gmap string string) (name : string) : bool := String.eqb (default "1" (env !! name)) "1".

Definition broker_default : string := "rediss://master.test-multitenants.qmp0of.use2.cache.amazonaws.com:6379/0".
Definition celery_broker_url (env : gmap string string) : string := default broker_default (env !! "CELERY_BROKER_URL").
Definition celery_redbeat_redis_url (env : gmap string string) : string :=
  default (celery_broker_url env) (env !! "REDBEAT_REDIS_URL").

(** [AWS_S3_REGION or None]. *)
Definition aws_s3_region (env : gmap string string) : option string :=
  match default "" (env !! "AWS_S3_REGION") with EmptyString => None | s => Some s end.

(** The options of a production connection; [base_dir] is not the root folder. *)
Inductive Opt := OInt (n : Z) | OText (s : string).

Definition _TCP_KEEPALIVES : list (string * Opt) :=
  [("keepalives", OInt 1); ("keepalives_idle", OInt 30); ("keepalives_interval", OInt 10); ("keepalives_count", OInt 3)].

Definition db_options (connect_timeout : Z) (ca : string) : list (string * Opt) :=
  [("connect_timeout", OInt connect_timeout); ("sslmode", OText "verify-full"); ("sslrootcert", OText ca)] ++ _TCP_KEEPALIVES.

Definition _aurora_db_options (env : gmap string string) (base_dir : string) (connect_timeout : Z) : list (string * Opt) :=
  db_options connect_timeout
    (default (base_dir +:+ "/deploy/certs/aws-rds-global-bundle.pem") (env !! "AWS_RDS_CA")).
Definition _proxy_db_options (env : gmap string string) (connect_timeout : Z) : list (string * Opt) :=
  db_options connect_timeout (default "/etc/ssl/certs/ca-certificates.crt" (env !! "PROXY_CA_BUNDLE")).

(** The origins the API may be called from. *)
Definition cors_allowed_origins (env : gmap string string) : list string := env_list env "DJANGO_CORS_ALLOWED_ORIGINS" "".
Definition cors_allowed_origin_regexes (env : gmap string string) : list string := env_list env "DJANGO_CORS_ALLOWED_ORIGIN_REGEXES" "".

(** An alias of [CACHES], with the options that decide where its keys go and what
    an outage does; a missing KEY_FUNCTION is Django's own. *)
Record CacheAlias := mkCacheAlias {
  ca_location : string;
  ca_key_prefix : string;
  ca_key_function : option string;
  ca_reverse_key_function : option string;
  ca_ignore_exceptions : bool;
  ca_socket_connect_timeout : Z;
  ca_socket_timeout : Z;
}.
Definition MAKE_KEY : string := "commons.platform.cache_keys.make_key".
Definition base_caches : list (string * CacheAlias) :=
  [("default", mkCacheAlias "redis://127.0.0.1:6379/1" "app" None None true 1 1)].
Definition mt_caches (env : gmap string string) : list (string * CacheAlias) :=
  [("default", mkCacheAlias "redis://127.0.0.1:6379/1" "app" (Some MAKE_KEY) (Some "commons.platform.cache_keys.reverse_key") false 1 1);
   ("sessions", mkCacheAlias "redis://127.0.0.1:6379/1" "sess" None None true 1 1);
   ("tenant_resolve", mkCacheAlias "redis://127.0.0.1:6379/2" "tres" None None true 1 1);
   ("beat_lock", mkCacheAlias (celery_broker_url env) "beatlock" None None false 1 1)].
Definition CELERY_REDBEAT_KEY_PREFIX : string := "redbeat:".
Definition SESSION_CACHE_ALIAS : string := "sessions".

(** The physical key of an alias: [default_key_func] of Django, or [make_key]. *)
Definition physical_key `{TenantBackend} (a : CacheAlias) (key : string) (version : Z) (s : Ctx) : res exn string :=
  match ca_key_function a with
  | None => Ok (ca_key_prefix a +:+ ":" +:+ py_int version +:+ ":" +:+ key)
  | Some _ => make_key key (ca_key_prefix a) version s
  end.

(** [REST_FRAMEWORK], and the multi-tenant layer's replacement of one entry. *)
Definition base_rest_framework : list (string * list string) :=
  [("DEFAULT_AUTHENTICATION_CLASSES", ["rest_framework_simplejwt.authentication.JWTAuthentication"]);
   ("DEFAULT_PERMISSION_CLASSES", ["rest_framework.permissions.IsAuthenticated"])].
Fixpoint override {A} (name : string) (v : A) (l : list (string * A)) : list (string * A) :=
  match l with
  | [] => [(name, v)]
  | (n, v') :: l' => if String.eqb n name then (n, v) :: l' else (n, v') :: override name v l'
  end.
Definition mt_rest_framework (base : list (string * list string)) : list (string * list string) :=
  override "DEFAULT_AUTHENTICATION_CLASSES" ["tenants.auth.jwt.SchemaBoundJWTAuthentication"] base.

(** The schedule: the host's entries and the daily reconcile. *)
Definition reconcile_entry : Entry :=
  mkEntry (Some "tenants.tasks.reconcile_host_registry_task") (Some (SCrontab (mkCrontab "0" "4" "*" "*" "*"))) None None None.

Definition RECONCILE : string := "resolve-gate-reconcile".

(** [{**base, RECONCILE: entry}]. *)
Fixpoint schedule_set (name : string) (e : SchedEntry) (l : list (string * SchedEntry)) : list (string * SchedEntry) :=
  match l with
  | [] => [(name, e)]
  | (n, e') :: l' => if String.eqb n name then (n, e) :: l' else (n, e') :: schedule_set name e l'
  end.

Definition celery_beat_schedule (mt : res exn bool) (period_default : Q) (base : list (string * SchedEntry)) : res exn (list (string * SchedEntry)) :=
  e <-? scoped_schedule mt period_default reconcile_entry "public" None None ;;
  Ok (schedule_set RECONCILE e base).

(** ** Cache aliases *)

Ltac no_colon := unfold no_char; apply (bool_decide_unpack _); by vm_compute.

(** The text of a key up to its first colon. *)
Definition namespace (k : string) : string := default "" (head (py_split colon k)).

Lemma namespace_cut a x : no_char colon a → namespace (a +:+ ":" +:+ x) = a.
Proof.
  intros Ha. unfold namespace, py_split. rewrite !chars_app. change (chars ":") with [colon].
  cbn [app]. rewrite split_chars_app by done. cbn. apply of_chars_chars.
Qed.

(** The namespace of an alias: its own prefix, or the one of tenant keys. *)
Definition alias_namespace (a : CacheAlias) : string :=
  match ca_key_function a with None => ca_key_prefix a | Some _ => TENANT_NAMESPACE end.

Lemma physical_namespace `{TenantBackend} a key version s k :
  no_char colon (ca_key_prefix a) → physical_key a key version s = Ok k → namespace k = alias_namespace a.
Proof.
  unfold physical_key, alias_namespace. intros Hp. destruct (ca_key_function a).
  - unfold make_key. destruct (current_schema_name s) as [schema|]; [|done]. intros [= <-]. apply namespace_cut. no_colon.
  - intros [= <-]. by apply namespace_cut.
Qed.

(** On the settings of the repository no two aliases ever write the same key,
    whatever their keys, versions and tenants, so they may share one Redis; and none
    writes into the namespace of the scheduler, which shares the broker's. *)
Theorem cache_aliases_apart `{TenantBackend} env n1 n2 a1 a2 key1 key2 v1 v2 s1 s2 k1 k2 :
  (n1, a1) ∈ mt_caches env → (n2, a2) ∈ mt_caches env →
  physical_key a1 key1 v1 s1 = Ok k1 → physical_key a2 key2 v2 s2 = Ok k2 →
  (n1 ≠ n2 → k1 ≠ k2) ∧ py_startswith k1 CELERY_REDBEAT_KEY_PREFIX = false.
Proof.
  intros H1 H2 E1 E2.
  assert (∀ n a, (n, a) ∈ mt_caches env → no_char colon (ca_key_prefix a)
    ∧ (n, alias_namespace a) ∈ [("default", "tenant"); ("sessions", "sess"); ("tenant_resolve", "tres"); ("beat_lock", "beatlock")]) as Hall.
  { intros n a Hin. unfold mt_caches in Hin. set_unfold. destruct_or! Hin; simplify_eq/=; (split; [no_colon|]); set_solver. }
  destruct (Hall _ _ H1) as [P1 N1], (Hall _ _ H2) as [P2 N2]. apply (physical_namespace _ _ _ _ _ P1) in E1. apply (physical_namespace _ _ _ _ _ P2) in E2.
  split.
  - intros Hne ->. rewrite E1 in E2. rewrite E2 in N1. set_unfold. naive_solver.
  - apply not_true_iff_false. intros (rest & ->)%py_startswith_spec. change CELERY_REDBEAT_KEY_PREFIX with ("redbeat" +:+ ":") in E1.
    rewrite <- str_app_assoc, namespace_cut in E1 by no_colon. rewrite <- E1 in N1. set_unfold. naive_solver.
Qed.

(** Under multi-tenancy a request is authenticated by the schema-bound class only,
    and every other entry of the base stays. *)
Theorem rest_framework_bound base :
  assoc "DEFAULT_AUTHENTICATION_CLASSES" (mt_rest_framework base) = Some ["tenants.auth.jwt.SchemaBoundJWTAuthentication"]
  ∧ ∀ n, n ≠ "DEFAULT_AUTHENTICATION_CLASSES" → assoc n (mt_rest_framework base) = assoc n base.
Proof.
  unfold mt_rest_framework. induction base as [|[m v] base [IH1 IH2]].
  - split; [done|]. intros n Hn. simpl. by destruct (String.eqb_spec n "DEFAULT_AUTHENTICATION_CLASSES").
  - cbn [override]. destruct (String.eqb_spec m "DEFAULT_AUTHENTICATION_CLASSES") as [->|Hm].
    + split; [done|]. intros n Hn. simpl. by destruct (String.eqb_spec n "DEFAULT_AUTHENTICATION_CLASSES").
    + split; cbn [assoc]; [destruct (String.eqb_spec "DEFAULT_AUTHENTICATION_CLASSES" m); [congruence|done]|].
      intros n Hn. destruct (String.eqb n m); [done|]. by apply IH2.
Qed.

(** ** The layers *)

Section layers_facts.
Context {V : Type}.
Notation Ns := (gmap string V).
Implicit Types (m ns b o : Ns).

Lemma star_lookup m n : py_startswith n "_" = false → star m !! n = m !! n.
Proof.
  intros Hn. unfold star. destruct (m !! n) as [v|] eqn:E.
  - by apply map_lookup_filter_Some.
  - apply map_lookup_filter_None. by left.
Qed.

Lemma star_hidden m n : py_startswith n "_" = true → star m !! n = None.
Proof. intros Hn. apply map_lookup_filter_None. right. intros v _ [=Hf]. simpl in Hf. congruence. Qed.

Lemma import_names_ok names m ns ns' :
  import_names names m ns = Ok ns' → (∀ n, n ∉ names → ns' !! n = ns !! n) ∧ (∀ n, n ∈ names → ns' !! n = m !! n).
Proof.
  revert ns. induction names as [|x names IH]; intros ns; simpl; [intros [= <-]; set_solver|].
  destruct (m !! x) as [v|] eqn:E; [|done]. intros [H1 H2]%IH. split; intros n Hn.
  - rewrite H1 by set_solver. apply lookup_insert_ne. set_solver.
  - destruct (decide (n ∈ names)) as [|Hni]; [by apply H2|]. assert (n = x) as -> by set_solver.
    by rewrite (H1 x Hni), lookup_insert_eq.
Qed.

(** The value of a name in a stack of layers, the last one first. *)
Fixpoint layered (l : list Ns) (n : string) : option V :=
  match l with [] => None | m :: l' => match m !! n with Some v => Some v | None => layered l' n end end.

Lemma union_layered m ns n l : ns !! n = layered l n → (m ∪ ns) !! n = layered (m :: l) n.
Proof.
  intros H. simpl. rewrite lookup_union, H. by destruct (m !! n), (layered l n).
Qed.

(** The local layer: the file's names, or none and a line that says so. *)
Definition local_layer (name : string) (r : res LoadError Ns) : option (list Ns * list string) :=
  match r with
  | Ok m => Some ([m], [])
  | Err (ModuleNotFound n) =>
      if String.eqb n (__package__ +:+ "." +:+ name) then Some ([], ["Can't load local settings (" +:+ name +:+ ".py)!"]) else None
  | Err (Raised _) => None
  end.

Lemma with_local_ok name local ns ns' printed :
  with_local name local ns = Ok (ns', printed) →
  ∃ l, local_layer name (local ns) = Some (l, printed)
    ∧ (∀ n below, py_startswith n "_" = false → ns !! n = layered below n → ns' !! n = layered (l ++ below) n)
    ∧ (∀ n, py_startswith n "_" = true → ns' !! n = ns !! n).
Proof.
  unfold with_local, local_layer.
  destruct (local ns) as [m|[n|e]]; [|destruct (String.eqb n _)|]; simpl; intros H; simplify_eq/=; eexists; (split; [done|]).
  - split.
    + intros x below Hx Hb. simpl. rewrite lookup_union, star_lookup, Hb by done. by destruct (m !! x), (layered below x).
    + intros x Hx. rewrite lookup_union, star_hidden by done. by destruct (ns !! x).
  - done.
Qed.

Lemma public_not_in n names :
  py_startswith n "_" = false → Forall (λ x, py_startswith x "_" = true) names → n ∉ names.
Proof. intros Hn Hf Hin. rewrite Forall_forall in Hf. specialize (Hf n Hin). simpl in Hf. congruence. Qed.

Lemma overlay_layers b own o' : settings_multitenant b own = Ok o' →
  ∃ o seen, own seen = Ok o
    ∧ (∀ n, py_startswith n "_" = false → o' !! n = layered [o; b] n)
    ∧ (∀ n, n ∈ helpers → o' !! n = o !! n).
Proof.
  unfold settings_multitenant. rewrite res_bind_ok. intros (nso & Hb & Ho).
  revert Ho. rewrite res_bind_ok. intros (o & Ho & [= <-]). apply import_names_ok in Hb as [Hb _].
  exists o, nso. split; [done|]. split.
  - intros n Hn. apply union_layered. rewrite Hb, star_lookup by (done || by apply (public_not_in n _ Hn); repeat constructor).
    cbn. by destruct (b !! n).
  - intros n Hn. rewrite lookup_union, Hb, star_hidden; [by destruct (o !! n)| |];
      unfold helpers in Hn; repeat (apply elem_of_cons in Hn as [->|Hn]; [first [done|set_solver]|]); by apply not_elem_of_nil in Hn.
Qed.

(** A load that succeeds gives every public name the value of the last of its
    layers that binds it: the mode's own local file, then the overlay (multi-tenant
    only), then the base; the line about a missing local file is printed exactly when
    that file does not exist.  The three helpers a deployed local file imports have
    the overlay's values, and no other private name is visible. *)
Theorem settings_layers_exact (multitenant : bool) (base : res LoadError Ns) own local_mt local ns printed :
  settings (Ok multitenant) base own local_mt local = Ok (ns, printed) →
  ∃ b seen l,
    base = Ok b
    ∧ local_layer (local_name multitenant) ((if multitenant then local_mt else local) seen) = Some (l, printed)
    ∧ if multitenant
      then ∃ o seen_o, own seen_o = Ok o
             ∧ (∀ n, py_startswith n "_" = false → ns !! n = layered (l ++ [o; b]) n ∧ seen !! n = layered [o; b] n)
             ∧ (∀ n, py_startswith n "_" = true → ns !! n = if mem n helpers then o !! n else None)
      else (∀ n, py_startswith n "_" = false → ns !! n = layered (l ++ [b]) n ∧ seen !! n = b !! n)
           ∧ (∀ n, py_startswith n "_" = true → ns !! n = None).
Proof.
  unfold settings. destruct multitenant; rewrite res_bind_ok; intros (b & -> & Hs).
  - revert Hs. rewrite res_bind_ok. intros (o' & Ho & Hs). revert Hs. rewrite res_bind_ok. intros (ns0 & Hns & Hl).
    apply overlay_layers in Ho as (o & seen & Ho & Hpub & Hpriv).
    apply import_names_ok in Hns as [Hns Hh]. apply with_local_ok in Hl as (l & Hl & Hv & Hv').
    assert (∀ n, py_startswith n "_" = false → ns0 !! n = layered [o; b] n) as Hseen.
    { intros n Hn. rewrite Hns, star_lookup by (done || by apply (public_not_in n _ Hn); repeat constructor). by apply Hpub. }
    exists b, ns0, l. split; [done|]. split; [done|]. exists o, seen. split; [done|]. split.
    + intros n Hn. split; [|by apply Hseen]. apply Hv; [done|by apply Hseen].
    + intros n Hn. rewrite Hv' by done. destruct (mem n helpers) eqn:E.
      * apply mem_spec in E. rewrite Hh by done. by apply Hpriv.
      * apply mem_false in E. rewrite Hns by done. by apply star_hidden.
  - apply with_local_ok in Hs as (l & Hl & Hv & Hv'). exists b, (star b), l. split; [done|]. split; [done|]. split.
    + intros n Hn. split; [|by apply star_lookup]. apply Hv; [done|]. rewrite star_lookup by done. simpl. by destruct (b !! n).
    + intros n Hn. rewrite Hv' by done. by apply star_hidden.
Qed.

(** Nothing a local file raises is swallowed, except that this very file does not
    exist: an import that fails inside it ends the load with that error. *)
Theorem local_errors_propagate (multitenant : bool) base own (local : Ns → res LoadError Ns) other e :
  (∀ ns, local ns = Err e) → e ≠ ModuleNotFound (__package__ +:+ "." +:+ local_name multitenant) →
  ∀ r, settings (Ok multitenant) base own (if multitenant then local else other) (if multitenant then other else local) = r →
  (∃ e', r = Err e') ∧
  ∀ r0, settings (Ok multitenant) base own (λ _, Ok ∅) (λ _, Ok ∅) = Ok r0 → r = Err e.
Proof.
  intros Hl He r <-.
  assert (∀ ns : Ns, with_local (local_name multitenant) local ns = Err e) as Hw.
  { intros ns. unfold with_local. rewrite Hl. destruct e as [n|]; [|done].
    destruct (String.eqb_spec n (__package__ +:+ "." +:+ local_name multitenant)) as [->|]; done. }
  unfold settings. destruct multitenant; simpl in Hw.
  - destruct base as [b|]; cbn [res_bind]; [|split; [eexists; reflexivity|done]].
    destruct (settings_multitenant b own) as [o|]; cbn [res_bind]; [|split; [eexists; reflexivity|done]].
    destruct (import_names helpers o (star o)) as [ns|]; cbn [res_bind]; [|split; [eexists; reflexivity|done]]. rewrite Hw. split; [eexists; reflexivity|done].
  - destruct base as [b|]; simpl; [|split; [eexists; reflexivity|done]]. rewrite Hw. split; [eexists; reflexivity|done].
Qed.

End layers_facts.

(** ** Middleware *)

Definition tenant_middlewares : list string := [RESOLVE; ROUTE; GUARD].

Lemma inserts_tenant x y : y ∈ default [] (_MT_INSERTS !! x) → y ∈ tenant_middlewares ∧ (x = CORS ∨ x = AUTH).
Proof.
  unfold _MT_INSERTS. destruct (decide (x = CORS)) as [->|Hc]; [rewrite lookup_insert_eq; simpl; set_solver|].
  rewrite lookup_insert_ne by done. destruct (decide (x = AUTH)) as [->|Ha]; [rewrite lookup_singleton_eq; simpl; set_solver|].
  rewrite lookup_singleton_ne by done. simpl. set_solver.
Qed.

Lemma spliced_elem base y : y ∈ mt_middleware base →
  y ∈ base ∨ (y ∈ tenant_middlewares ∧ ∃ x, x ∈ base ∧ y ∈ default [] (_MT_INSERTS !! x)).
Proof.
  unfold mt_middleware. rewrite list_elem_of_bind. intros (x & [->|Hy]%elem_of_cons & Hx); [by left|right].
  split; [by eapply inserts_tenant|by eauto].
Qed.

Lemma spliced_anchor base x : x ∈ base → (x :: default [] (_MT_INSERTS !! x)) `sublist_of` mt_middleware base.
Proof.
  intros (l1 & l2 & ->)%list_elem_of_split. unfold mt_middleware. rewrite bind_app, bind_cons.
  apply sublist_inserts_l, sublist_inserts_r. done.
Qed.

Lemma spliced_nodup base : NoDup base → Forall (λ m, m ∉ tenant_middlewares) base → NoDup (mt_middleware base).
Proof.
  intros Hnd Hf. rewrite Forall_forall in Hf. apply NoDup_bind; [| |done].
  - intros x1 x2 y Hx1 Hx2 [->|Hy1]%elem_of_cons [->|Hy2]%elem_of_cons; try done.
    + apply inserts_tenant in Hy2 as [Hy2 _]. by apply Hf in Hx1.
    + apply inserts_tenant in Hy1 as [Hy1 _]. by apply Hf in Hx2.
    + assert (y ≠ GUARD → x1 = CORS ∧ x2 = CORS) as Hg; [|assert (y = GUARD → x1 = AUTH ∧ x2 = AUTH) as Hg'].
      * intros Hne. destruct (inserts_tenant _ _ Hy1) as [_ [->| ->]], (inserts_tenant _ _ Hy2) as [_ [->| ->]]; try done;
          exfalso; apply Hne; vm_compute in Hy1, Hy2 |- *; set_solver.
      * intros ->. destruct (inserts_tenant _ _ Hy1) as [_ [->| ->]], (inserts_tenant _ _ Hy2) as [_ [->| ->]]; try done;
          exfalso; vm_compute in Hy1, Hy2; set_solver.
      * destruct (decide (y = GUARD)); naive_solver.
  - intros x Hx. constructor; [intros [Hi _]%inserts_tenant; by apply Hf in Hx|].
    unfold _MT_INSERTS. destruct (decide (x = CORS)) as [->|]; [|destruct (decide (x = AUTH)) as [->|]].
    + apply (bool_decide_unpack _). by vm_compute.
    + apply (bool_decide_unpack _). by vm_compute.
    + rewrite lookup_insert_ne, lookup_singleton_ne by done. constructor.
Qed.

(** For every base list without duplicates and without tenant middlewares, the
    list the multi-tenant layer builds keeps the base as it is, in its order, and
    the deploy check E004 accepts it exactly when both anchors are in the base: an
    anchor that disappears loses its inserts, and the check reports it. *)
Theorem spliced_middleware_exact base :
  NoDup base → Forall (λ m, m ∉ tenant_middlewares) base →
  filter (λ m, m ∉ tenant_middlewares) (mt_middleware base) = base
  ∧ (mt_middleware_order (mt_middleware base) = [] ↔ CORS ∈ base ∧ AUTH ∈ base).
Proof.
  intros Hnd Hf. split.
  - clear Hnd. induction base as [|x base IH]; [done|]. inversion_clear Hf as [|?? Hx Hf']. unfold mt_middleware.
    rewrite bind_cons, filter_app, filter_cons_True by done. fold (mt_middleware base). rewrite IH by done.
    replace (filter (λ m, m ∉ tenant_middlewares) (default [] (_MT_INSERTS !! x))) with (@nil string); [done|].
    symmetry. apply elem_of_nil_inv. intros y [Hn [Hy _]%inserts_tenant]%list_elem_of_filter. done.
  - rewrite middleware_order_exact by by apply spliced_nodup. split.
    + intros Hc. assert (∀ y chain, chain ∈ chains → y ∈ chain → y ∉ tenant_middlewares → y ∈ base) as Hin.
      { intros y chain Hch Hy Ht. apply Hc in Hch. eapply sublist_subseteq in Hy; [|done].
        apply spliced_elem in Hy as [|[? _]]; done. }
      split; [eapply Hin; [by left|by left|]|eapply Hin; [by right; left|by left|]]; vm_compute; set_solver.
    + intros [Hcors Hauth] chain. unfold chains. intros [->|[->|[]%not_elem_of_nil]%elem_of_cons]%elem_of_cons.
      * by apply (spliced_anchor base CORS).
      * by apply (spliced_anchor base AUTH).
Qed.

Lemma spliced_middleware_exact_witness :
  filter (λ m, m ∉ tenant_middlewares) (mt_middleware base_middleware) = base_middleware
  ∧ (mt_middleware_order (mt_middleware base_middleware) = [] ↔ CORS ∈ base_middleware ∧ AUTH ∈ base_middleware).
Proof.
  apply (spliced_middleware_exact base_middleware).
  - apply (bool_decide_unpack _). by vm_compute.
  - apply (bool_decide_unpack _). by vm_compute.
Defined.

(** ** Applications *)

(** INSTALLED_APPS is the union of both lists without duplicates; what the shared
    list holds keeps its order in front, so that the commands of [tenants] override
    those of [django_tenants], and every business app is in both lists, which is
    what makes its tables shadow those of the public schema. *)
Theorem installed_apps_union django third business :
  let shared := shared_apps django third business in
  let tenant := tenant_apps business in
  NoDup shared → NoDup tenant →
  NoDup (installed_apps shared tenant)
  ∧ (∀ a, a ∈ installed_apps shared tenant ↔ a ∈ shared ∨ a ∈ tenant)
  ∧ shared `prefix_of` installed_apps shared tenant
  ∧ ["tenants"; "django_tenants"] `prefix_of` installed_apps shared tenant
  ∧ (∀ a, a ∈ business → a ∈ shared ∧ a ∈ tenant).
Proof.
  intros shared tenant Hs Ht. unfold installed_apps. split_and!.
  - apply NoDup_app. split; [done|]. split; [|by apply NoDup_filter].
    intros a Ha [Hn _]%list_elem_of_filter. by apply mem_false in Hn.
  - intros a. rewrite elem_of_app, list_elem_of_filter, mem_false. destruct (decide (a ∈ shared)); tauto.
  - by eexists.
  - by eexists.
  - unfold shared, tenant, shared_apps, tenant_apps. set_solver.
Qed.

Lemma installed_apps_union_witness :
  let shared := shared_apps _DJANGO_APPS _THIRD_PARTY_APPS _BUSINESS_APPS in
  let tenant := tenant_apps _BUSINESS_APPS in
  NoDup (installed_apps shared tenant) ∧ ∀ a, a ∈ installed_apps shared tenant ↔ a ∈ shared ∨ a ∈ tenant.
Proof.
  intros shared tenant.
  destruct (installed_apps_union _DJANGO_APPS _THIRD_PARTY_APPS _BUSINESS_APPS) as (H1 & H2 & _); [..|by split];
    apply (bool_decide_unpack _); by vm_compute.
Defined.

(** ** The models allowed on the public schema *)

Lemma splitn1 (c : ascii) l : c ∈ l → ∃ p k, splitn_chars 1 c l = [p; k] ∧ l = p ++ c :: k.
Proof.
  intros (p & k & -> & Hp)%list_elem_of_split_l. exists p, k. split; [|done]. by rewrite splitn_chars_app.
Qed.

Lemma rsplit1_join (c : ascii) s : c ∈ chars s → ∃ a b, py_rsplit1 c s = [a; b] ∧ a +:+ String c "" +:+ b = s.
Proof.
  intros Hc. destruct (splitn1 c (rev (chars s))) as (p & k & Hs & Hr).
  { rewrite list_elem_of_In, <- in_rev, <- list_elem_of_In. done. }
  exists (of_chars (rev k)), (of_chars (rev p)). unfold py_rsplit1. rewrite Hs. split; [done|].
  apply (inj String.list_ascii_of_string). rewrite !chars_app, !chars_of_chars.
  rewrite <- (rev_involutive (chars s)), Hr, rev_app_distr. simpl. by rewrite <- app_assoc.
Qed.

(** The list is the setting in lower case with its two through tables, wherever the
    text is split: with a package path in front of the app label, the entries are
    not the labels Django compares with. *)
Theorem allowlist_is_lowered m :
  dot ∈ chars (py_lower m) →
  public_model_allowlist m = Ok [py_lower m; py_lower m +:+ "_groups"; py_lower m +:+ "_user_permissions"].
Proof.
  intros Hd. unfold public_model_allowlist. destruct (rsplit1_join dot (py_lower m) Hd) as (a & b & -> & Hj).
  change (String dot "") with "." in Hj. cbv zeta. by rewrite Hj.
Qed.

Example allowlist_of_package_path :
  public_model_allowlist "host.accounts.User"
  = Ok ["host.accounts.user"; "host.accounts.user_groups"; "host.accounts.user_user_permissions"]
  ∧ public_model_allowlist "accounts.User" = Ok ["accounts.user"; "accounts.user_groups"; "accounts.user_user_permissions"].
Proof. by vm_compute. Qed.

(** ** Values from the environment *)

(** No blank host, and no host with white space around it, whatever the
    variable holds. *)
Theorem env_list_clean env name dflt h :
  h ∈ env_list env name dflt → h ≠ "" ∧ ∃ raw, raw ∈ py_split ","%char (default dflt (env !! name)) ∧ h = py_strip raw.
Proof. unfold env_list. rewrite list_elem_of_fmap. intros (raw & -> & [Hne Hr]%list_elem_of_filter). by eauto. Qed.

(** Beat coordinates on the instance of the fan-out lock, the broker, unless its
    own variable says otherwise. *)
Lemma redbeat_default env : env !! "REDBEAT_REDIS_URL" = None → celery_redbeat_redis_url env = celery_broker_url env.
Proof. unfold celery_redbeat_redis_url. by intros ->. Qed.

(** ** The router on these settings *)

Definition shipped_shared : list string := shared_apps _DJANGO_APPS _THIRD_PARTY_APPS _BUSINESS_APPS.
Definition shipped_tenant : list string := tenant_apps _BUSINESS_APPS.
Definition shipped_apps : list string := installed_apps shipped_shared shipped_tenant.

(** Django's default label of an app: the last component of its name. *)
Definition app_label (name : string) : string := default name (last (py_split dot name)).

(** AUTH_USER_MODEL is "users.User". *)
Definition shipped_allowlist : list string := ["users.user"; "users.user_groups"; "users.user_user_permissions"].

Example shipped_allowlist_computed : public_model_allowlist "users.User" = Ok shipped_allowlist.
Proof. by vm_compute. Qed.

Definition on_public `{TenantBackend} (alias : string) (s : Ctx) : Prop :=
  ∃ c, cx_conns s !! (if String.eqb alias "" then "default" else alias) = Some c ∧ tc_schema c = Routing.PUBLIC.

(** The router on a model that is not only shared, when the guard is "raise". *)
Lemma read_policy `{TenantBackend} app_in_list rc m s labels :
  shared_only app_in_list rc (mm_app_label m) = false → strict_route_labels rc = Ok labels → PUBLIC_MODEL_GUARD rc = "raise" →
  if mem (mm_app_label m) labels
  then ∀ alias, db_for_read app_in_list rc m s = Ok alias ↔
         bound_alias s = Some alias ∧ (mm_label_lower m ∈ PUBLIC_MODEL_ALLOWLIST rc ∨ ¬ on_public alias s)
  else db_for_read app_in_list rc m s = Ok (default "default" (bound_alias s)).
Proof.
  intros Hs Hl Hg. unfold db_for_read, _guard_public, on_public. rewrite Hs, Hg, Hl. simpl.
  destruct (mem (mm_app_label m) labels); simpl; [|by destruct (bound_alias s); simpl; repeat case_match].
  intros alias. destruct (bound_alias s) as [b|]; [|repeat (case_match; simpl); (split; [done|by intros [? _]])].
  destruct (cx_conns s !! (if String.eqb b "" then "default" else b)) as [c|] eqn:Ec; [destruct (String.eqb_spec (tc_schema c) Routing.PUBLIC) as [Hp|Hp]|]; simpl.
  - destruct (mem (mm_label_lower m) (PUBLIC_MODEL_ALLOWLIST rc)) eqn:Hal; simpl; [apply mem_spec in Hal|apply mem_false in Hal].
    + split; [intros Hb|intros [Hb _]]; simplify_eq; auto.
    + split; [done|]. intros [Hb [|Hn]]; simplify_eq; [done|]. exfalso. apply Hn. by exists c.
  - split; [intros Hb|intros [Hb _]]; simplify_eq; [|done]. split; [done|right]. intros (c' & Hc' & ?). congruence.
  - split; [intros Hb|intros [Hb _]]; simplify_eq; [|done]. split; [done|right]. intros (c' & Hc' & ?). congruence.
Qed.

Section shipped_router.

(** [cls]: the dotted path of the AppConfig class of an app, which is neither the
    name nor the label of an app; [app_in_list]: upstream's test, by name or class. *)
Context `{TenantBackend} (cls : string → string) (app_in_list : string → list string → bool).

Definition shipped_configs : list AppConfig := (λ n, mkAppConfig n (app_label n) (cls n)) <$> shipped_apps.

Definition shipped_router : RouterCfg :=
  mkRouterCfg shipped_shared shipped_tenant shipped_configs _BUSINESS_APPS "raise" shipped_allowlist None.

Definition classes_apart : Prop := ∀ n a, a ∈ shipped_apps → cls n ≠ a ∧ cls n ≠ app_label a.
Definition upstream_app_in_list : Prop :=
  ∀ ac apps, ac ∈ shipped_configs → app_in_list (ac_label ac) apps = mem (ac_name ac) apps || mem (ac_class ac) apps.

Lemma by_entry_without_classes l (m : gmap string string) e : (∀ c, c ∈ l → ac_class c ≠ e) →
  foldl (λ m c, <[ac_class c := ac_label c]> (<[ac_label c := ac_label c]> (<[ac_name c := ac_label c]> m))) m l !! e
  = foldl (λ m c, <[ac_label c := ac_label c]> (<[ac_name c := ac_label c]> m)) m l !! e.
Proof.
  assert (∀ m' : gmap string string, m !! e = m' !! e → (∀ c, c ∈ l → ac_class c ≠ e) →
    foldl (λ (m : gmap string string) c, <[ac_class c := ac_label c]> (<[ac_label c := ac_label c]> (<[ac_name c := ac_label c]> m))) m l !! e
    = foldl (λ (m : gmap string string) c, <[ac_label c := ac_label c]> (<[ac_name c := ac_label c]> m)) m' l !! e) as Hgen; [|by apply Hgen].
  revert m. induction l as [|c l IH]; intros m m' Hm Hc; simpl; [done|].
  apply IH; [|set_solver]. rewrite lookup_insert_ne by (apply Hc; left).
  destruct (decide (ac_label c = e)) as [->|]; [by rewrite !lookup_insert_eq|]. rewrite !(lookup_insert_ne _ (ac_label c)) by done.
  destruct (decide (ac_name c = e)) as [->|]; [by rewrite !lookup_insert_eq|]. by rewrite !lookup_insert_ne.
Qed.

Lemma shipped_entry a : classes_apart → a ∈ _BUSINESS_APPS → by_entry shipped_router !! a = Some a.
Proof.
  intros Hcls Ha. unfold by_entry. rewrite by_entry_without_classes.
  - unfold _BUSINESS_APPS in Ha. repeat (apply elem_of_cons in Ha as [->|Ha]; [by vm_compute|]). by apply not_elem_of_nil in Ha.
  - intros c (n & -> & _)%list_elem_of_fmap. simpl. apply Hcls.
    revert a Ha. apply Forall_forall, (bool_decide_unpack _). by vm_compute.
Qed.

Lemma shipped_strict : classes_apart → strict_route_labels shipped_router = Ok _BUSINESS_APPS.
Proof.
  intros Hcls. unfold strict_route_labels. change (TENANT_STRICT_ROUTE_APPS shipped_router) with _BUSINESS_APPS.
  assert (∀ l, (∀ a, a ∈ l → by_entry shipped_router !! a = Some a) → resolve_entries shipped_router l = Ok l) as Hl.
  { induction l as [|x l IH]; intros Hx; [done|]. cbn [resolve_entries]. rewrite (Hx x) by left.
    rewrite IH; [done|]. intros a Ha. apply Hx. by right. }
  apply Hl. intros a Ha. by apply shipped_entry.
Qed.

Lemma shipped_shared_only a : classes_apart → upstream_app_in_list → a ∈ shipped_apps →
  shared_only app_in_list shipped_router (app_label a) = negb (mem a shipped_tenant).
Proof.
  intros Hcls Hlist Ha. unfold shared_only. cbn [SHARED_APPS TENANT_APPS shipped_router].
  assert (mkAppConfig a (app_label a) (cls a) ∈ shipped_configs) as Hin by (apply list_elem_of_fmap; by eauto).
  pose proof (Hlist _ shipped_shared Hin) as H1. pose proof (Hlist _ shipped_tenant Hin) as H2.
  cbn [ac_label ac_name ac_class] in H1, H2. rewrite H1, H2.
  assert (∀ l, l ⊆ shipped_apps → mem (cls a) l = false) as Hc.
  { intros l Hl. apply mem_false. intros Hi. apply Hl in Hi. by destruct (Hcls a _ Hi). }
  rewrite !Hc, !orb_false_r.
  - assert (Forall (λ a, mem a shipped_shared && negb (mem a shipped_tenant) = negb (mem a shipped_tenant)) shipped_apps) as Hf
      by (apply (bool_decide_unpack _); by vm_compute). rewrite Forall_forall in Hf. exact (Hf a Ha).
  - assert (Forall (λ a, a ∈ shipped_apps) shipped_tenant) as Hf by (apply (bool_decide_unpack _); by vm_compute).
    rewrite Forall_forall in Hf. exact Hf.
  - assert (Forall (λ a, a ∈ shipped_apps) shipped_shared) as Hf by (apply (bool_decide_unpack _); by vm_compute).
    rewrite Forall_forall in Hf. exact Hf.
Qed.

(** C38: Every model of every installed app, on the settings of the repository: an app
    that is only shared is read on [default] whatever is bound; one of Django's four
    that tenants share follows the bound alias and is never refused; a model of a
    business app is read exactly where a routing context is bound, and on a
    connection at the public schema exactly when it is the identity model or one of
    its two through tables. *)
Theorem shipped_router_exact a m s :
  classes_apart → upstream_app_in_list → a ∈ shipped_apps → mm_app_label m = app_label a →
  let read := db_for_read app_in_list shipped_router m s in
  if negb (mem a shipped_tenant) then read = Ok "default"
  else if negb (mem a _BUSINESS_APPS) then read = Ok (default "default" (bound_alias s))
  else ∀ alias, read = Ok alias ↔
         bound_alias s = Some alias ∧ (mm_label_lower m ∈ shipped_allowlist ∨ ¬ on_public alias s).
Proof.
  intros Hcls Hlist Ha Hm. cbv zeta. pose proof (shipped_shared_only a Hcls Hlist Ha) as Hs. rewrite <- Hm in Hs.
  destruct (mem a shipped_tenant) eqn:Ht; cbn [negb] in Hs |- *; [|unfold db_for_read; by rewrite Hs].
  assert (mem (app_label a) _BUSINESS_APPS = mem a _BUSINESS_APPS) as Hb.
  { assert (Forall (λ a, mem (app_label a) _BUSINESS_APPS = mem a _BUSINESS_APPS) shipped_apps) as Hf
      by (apply (bool_decide_unpack _); by vm_compute). rewrite Forall_forall in Hf. exact (Hf a Ha). }
  pose proof (read_policy app_in_list shipped_router m s _ Hs (shipped_strict Hcls) eq_refl) as Hr. rewrite Hm, Hb in Hr.
  destruct (mem a _BUSINESS_APPS); exact Hr.
Qed.

End shipped_router.

(** ** The router on these settings, for one naming of the AppConfig classes *)

Definition config_class (name : string) : string := name +:+ ".apps.Config".
Definition by_name_or_class (label : string) (apps : list string) : bool :=
  existsb (λ ac, String.eqb (ac_label ac) label && (mem (ac_name ac) apps || mem (ac_class ac) apps)) (shipped_configs config_class).

Lemma config_class_apart : classes_apart config_class.
Proof.
  assert (∀ n a, last (chars a) ≠ Some "g"%char → config_class n ≠ a) as Hl.
  { intros n a Ha <-. apply Ha. unfold config_class. by rewrite chars_app, last_app. }
  assert (Forall (λ a, last (chars a) ≠ Some "g"%char ∧ last (chars (app_label a)) ≠ Some "g"%char) shipped_apps) as Hf
    by (apply (bool_decide_unpack _); by vm_compute).
  rewrite Forall_forall in Hf. intros n a Ha. destruct (Hf a Ha). split; by apply Hl.
Qed.

Lemma shipped_labels_distinct a b : a ∈ shipped_apps → b ∈ shipped_apps → app_label a = app_label b → a = b.
Proof.
  assert (Forall (λ a, Forall (λ b, app_label a = app_label b → a = b) shipped_apps) shipped_apps) as Hf
    by (apply (bool_decide_unpack _); by vm_compute).
  rewrite Forall_forall in Hf. intros Ha Hb. specialize (Hf a Ha). rewrite Forall_forall in Hf. by apply Hf.
Qed.

Lemma by_name_or_class_upstream : upstream_app_in_list config_class by_name_or_class.
Proof.
  intros ac apps (n & -> & Hn)%list_elem_of_fmap. cbn [ac_label ac_name ac_class]. unfold by_name_or_class.
  apply eq_true_iff_eq. rewrite existsb_Exists. split.
  - intros (c & (n' & -> & Hn')%list_elem_of_fmap & [Hl Hc]%andb_true_iff). cbn [ac_label ac_name ac_class] in Hl, Hc.
    apply String.eqb_eq in Hl. by rewrite <- (shipped_labels_distinct n' n Hn' Hn Hl).
  - intros Hc. eexists. split; [apply list_elem_of_fmap; by exists n|]. cbn [ac_label ac_name ac_class]. by rewrite String.eqb_refl.
Qed.

(** An order read with nothing bound, inside a tenant, and on the public schema; a
    session and a content type inside a tenant. *)
Definition meta (app name : string) : ModelMeta := mkModelMeta app (app +:+ "." +:+ name) (app +:+ "." +:+ py_lower name).
Definition two_conns : gmap string TC := {[ "default" := (None, Routing.PUBLIC); "shard_a" := (Some (FakeTenant "acme"), "acme") ]}.

Lemma shipped_router_exact_witness :
  let read m s := db_for_read by_name_or_class (shipped_router config_class) m s in
  read (meta "orders" "Order") (mkCtx (Some "shard_a") two_conns) = Ok "shard_a"
  ∧ read (meta "orders" "Order") (mkCtx (Some "default") two_conns) ≠ Ok "default"
  ∧ read (meta "users" "User") (mkCtx (Some "default") two_conns) = Ok "default"
  ∧ read (meta "sessions" "Session") (mkCtx (Some "shard_a") two_conns) = Ok "default"
  ∧ read (meta "contenttypes" "ContentType") (mkCtx (Some "shard_a") two_conns) = Ok "shard_a".
Proof.
  intros read.
  assert (∀ a m s, mem a shipped_apps = true → mm_app_label m = app_label a → _) as Hr
    by (intros a m s Ha; exact (shipped_router_exact config_class by_name_or_class a m s config_class_apart by_name_or_class_upstream (proj1 (mem_spec _ _) Ha))).
  split_and!.
  - apply (Hr "orders" (meta "orders" "Order")); [by vm_compute|done|]. split; [done|right]. intros (c & Hc & Hp).
    vm_compute in Hc. injection Hc as <-. by vm_compute in Hp.
  - intros Ho. apply (Hr "orders" (meta "orders" "Order") _) in Ho as [_ [Hin|Hp]]; [| |by vm_compute|done].
    + apply mem_spec in Hin. by vm_compute in Hin.
    + apply Hp. by eexists.
  - apply (Hr "users" (meta "users" "User")); [by vm_compute|done|]. split; [done|left]. apply mem_spec. by vm_compute.
  - apply (Hr "django.contrib.sessions" (meta "sessions" "Session")); by vm_compute.
  - apply (Hr "django.contrib.contenttypes" (meta "contenttypes" "ContentType")); by vm_compute.
Defined.

(** ** The deploy checks on these settings *)

Lemma schedule_set_fresh name e l : name ∉ l.*1 → schedule_set name e l = l ++ [(name, e)].
Proof.
  induction l as [|[n x] l IH]; intros Hn; simpl; [done|]. apply not_elem_of_cons in Hn as [Hne Hn]. simpl in Hne.
  destruct (String.eqb_spec n name); [congruence|]. by rewrite IH.
Qed.

(** A host schedule that passes the four checks of the beat still passes them with
    the platform's own entry, which is kept as it is and runs once. *)
Theorem augmented_schedule_passes digest tb period host :
  RECONCILE ∉ host.*1 →
  beat_grace_ge_fanout_period tb host = Ok [] → beat_entries_wrapped host = [] →
  fanout_options_do_not_collide host = [] → fanout_entries_are_unique digest host = [] →
  ∃ sched, celery_beat_schedule (Ok true) period host = Ok sched
    ∧ host `prefix_of` sched ∧ (RECONCILE, mkSchedEntry (Some "public") (Plain reconcile_entry)) ∈ sched
    ∧ beat_grace_ge_fanout_period tb sched = Ok [] ∧ beat_entries_wrapped sched = []
    ∧ fanout_options_do_not_collide sched = [] ∧ fanout_entries_are_unique digest sched = [].
Proof.
  intros Hf H2 H3 H9 H6. set (e := mkSchedEntry (Some "public") (Plain reconcile_entry)).
  exists (host ++ [(RECONCILE, e)]). split_and!.
  - unfold celery_beat_schedule. simpl. by rewrite schedule_set_fresh.
  - by eexists.
  - apply elem_of_app. right. by left.
  - revert H2. unfold beat_grace_ge_fanout_period. rewrite !res_bind_ok. intros (g & Hg & [= Ho]). exists g. split; [done|].
    by rewrite omap_app, Ho.
  - unfold beat_entries_wrapped. rewrite omap_app. unfold beat_entries_wrapped in H3. by rewrite H3.
  - unfold fanout_options_do_not_collide. rewrite omap_app. unfold fanout_options_do_not_collide in H9. by rewrite H9.
  - unfold fanout_entries_are_unique, groups in *. by rewrite foldl_app.
Qed.

Lemma augmented_schedule_passes_witness :
  ∃ sched, celery_beat_schedule (Ok true) 60 [] = Ok sched ∧ beat_entries_wrapped sched = [].
Proof.
  destruct (augmented_schedule_passes (λ _, "") ∅ 60 []) as (sched & Hs & _ & _ & _ & Hw & _); [set_solver|by vm_compute..|].
  by exists sched.
Defined.

(** TENANT_MIGRATE_JOBS and JOBS_PER_SHARD are 1, the lock timeout is "5s", and the
    logs go below the project. *)
Definition shipped_migrator (names : list string) (executor : option string) (base_dir : string) : MigratorSettings :=
  let log_dir := base_dir +:+ "/logs/migrations" in
  mkMigratorSettings names executor (VInt 1) (VInt 1) (VStr "5s") (VStr log_dir) (Some log_dir).

(** The settings of the repository pass every check on the middleware, the gate and
    the migrator, wherever the project lies, as long as no setting of upstream's
    executor is added; a variable EXECUTOR is a warning only. *)
Theorem shipped_settings_accepted names executor base_dir :
  Forall (λ n, py_startswith n "TENANT_MULTIPROCESSING_" = false) names →
  mt_middleware_order (mt_middleware base_middleware) = []
  ∧ gate_requires_warm ∅ = []
  ∧ errors_of (migrator_settings (shipped_migrator names executor base_dir)) = []
  ∧ (migrator_settings (shipped_migrator names executor base_dir) = [] ↔ executor = None ∨ executor = Some "").
Proof.
  intros Hn. split; [by vm_compute|]. split; [by vm_compute|].
  assert (filter (λ n, py_startswith n "TENANT_MULTIPROCESSING_" = true) names = []) as Hf.
  { apply elem_of_nil_inv. intros x [Hx Hin]%list_elem_of_filter. rewrite Forall_forall in Hn. specialize (Hn x Hin). simpl in Hn. congruence. }
  assert (MigrateCommand.given_str (Some (base_dir +:+ "/logs/migrations")) = true) as Hg by by destruct base_dir.
  unfold migrator_settings, shipped_migrator. cbv zeta. cbn [ms_names ms_executor ms_jobs ms_jobs_per_shard ms_lock_timeout ms_log_dir ms_log_path].
  rewrite Hf, Hg. change (merge_sort str_le []) with (@nil string).
  replace (jobs_messages (VInt 1) (VInt 1)) with (@nil CheckMessage) by by vm_compute.
  replace (lock_timeout_messages (VStr "5s")) with (@nil CheckMessage) by by vm_compute.
  destruct executor as [[|c x]|]; simpl; split; try done; split; auto; naive_solver.
Qed.

Lemma shipped_settings_accepted_witness :
  errors_of (migrator_settings (shipped_migrator ["DEBUG"; "TENANT_MIGRATE_JOBS"] (Some "parallel") "/srv/app")) = [].
Proof.
  apply (shipped_settings_accepted ["DEBUG"; "TENANT_MIGRATE_JOBS"] (Some "parallel") "/srv/app"). by repeat constructor.
Defined.

(** *** The layers on a small example *)

Definition toy_base : gmap string Z := {[ "DEBUG" := 1%Z; "TIME_ZONE" := 1%Z; "_BUSINESS_APPS" := 7%Z; "_DJANGO_APPS" := 7%Z; "_THIRD_PARTY_APPS" := 3%Z ]}.
Definition toy_own (_ : gmap string Z) : res LoadError (gmap string Z) :=
  Ok {[ "TIME_ZONE" := 2%Z; "_MT_DB_DEFAULTS" := 1%Z; "_aurora_db_options" := 1%Z; "_proxy_db_options" := 1%Z; "_MT_INSERTS" := 1%Z ]}.
Definition no_local (multitenant : bool) (_ : gmap string Z) : res LoadError (gmap string Z) :=
  Err (ModuleNotFound (__package__ +:+ "." +:+ local_name multitenant)).
Definition toy_local (_ : gmap string Z) : res LoadError (gmap string Z) := Ok {[ "DEBUG" := 0%Z ]}.

Lemma settings_layers_exact_witness :
  ∃ ns, settings (Ok true) (Ok toy_base) toy_own toy_local (no_local false) = Ok (ns, [])
    ∧ ∃ l o b, ns !! "DEBUG" = layered (l ++ [o; b]) "DEBUG".
Proof.
  eexists. split; [reflexivity|].
  destruct (settings_layers_exact true (Ok toy_base) toy_own toy_local (no_local false) _ _ eq_refl)
    as (b & seen & l & _ & _ & o & _ & _ & Hl & _).
  exists l, o, b. by apply (Hl "DEBUG").
Defined.

Lemma local_errors_propagate_witness :
  settings (Ok false) (Ok toy_base) toy_own (no_local true) (λ _, Err (ModuleNotFound "boto3")) = Err (ModuleNotFound "boto3").
Proof.
  destruct (local_errors_propagate false (Ok toy_base) toy_own (λ _, Err (ModuleNotFound "boto3")) (no_local true) (ModuleNotFound "boto3"))
    with (r := settings (Ok false) (Ok toy_base) toy_own (no_local true) (λ _, Err (ModuleNotFound "boto3"))) as [_ He]; [done..|].
  by eapply He.
Defined.

Example local_values_win :
  (λ r, match r with Ok (ns, p) => Some (ns !! "DEBUG", ns !! "TIME_ZONE", ns !! "_MT_INSERTS", p) | Err _ => None end)
    <$> [settings (Ok true) (Ok toy_base) toy_own toy_local (no_local false);
         settings (Ok true) (Ok toy_base) toy_own (no_local true) toy_local;
         settings (Ok false) (Ok toy_base) toy_own toy_local (no_local false)]
  = [Some (Some 0%Z, Some 2%Z, None, []);
     Some (Some 1%Z, Some 2%Z, None, ["Can't load local settings (settings_local_multitenant.py)!"]);
     Some (Some 1%Z, Some 1%Z, None, ["Can't load local settings (settings_local.py)!"])].
Proof. by vm_compute. Qed.
