(* ===== verification/Platform.v ===== *)
(** * The platform layer: both modes behind one set of names

    Models the standalone branches of src/commons/platform/tenancy.py and
    cache_keys.py, redis_client.py, admin.py, migration_ops.py and [bootstrap_float]
    of mode.py; of the Celery integration [TenantTask.apply], the registry of
    src/tenants/celery/registry.py, the check tenants.E005 of
    src/tenants/checks/beat.py and the choice of the application in
    src/tenants_back/celery.py. *)
From Stdlib Require Import QArith.
From S2P Require Import Prelude PyStr Models PyExc World ResolveCache Routing RoutingFacts ResolverScenario Beat TenantTask Settings.
Local Open Scope tenants_scope.

(** ** tenancy.py, standalone *)

Module Standalone.

(** The three context managers run their body as it is, whatever their arguments. *)
Definition schema_context {S A} (body : S → res exn A * S) : S → res exn A * S := body.
Definition tenant_context {S A} (body : S → res exn A * S) : S → res exn A * S := body.
Definition use_alias {S A} (body : S → res exn A * S) : S → res exn A * S := body.

Definition get_public_schema_name : string := "public".
Definition current_schema_name : string := get_public_schema_name.
Definition active_alias : string := "default".
Definition bound_alias : option string := Some "default".
Definition active_target_schemas : list string := [].
Definition active_tenants_with_tz : list (string * string) := [].

(** cache_keys.py, standalone. *)
Definition tenant_token : string := "".
Definition tenant_key (parts : list string) : string := py_join ":" parts.

End Standalone.

(** ** redis_client.py *)

(** What [caches[alias]] gives: a backend by its class, with what its [client]
    attribute offers. *)
Inductive CacheClient := NoClient | ClientWithout | ClientWith.
Record CacheBackend := mkCacheBackend { cb_class : string; cb_client : CacheClient }.

(** The client is the alias it belongs to and whether it may write. *)
Definition django_redis_raw_client (caches : gmap string CacheBackend) (alias : string) (write : bool) : res exn (string * bool) :=
  match caches !! alias with
  | None => Err (simple_exn OtherException "InvalidCacheBackendError" ("The connection '" +:+ alias +:+ "' doesn't exist."))
  | Some cache =>
      match cb_client cache with
      | ClientWith => Ok (alias, write)
      | NoClient | ClientWithout =>
          Err (Beat.improperly ("CACHES[" +:+ py_repr alias +:+ "] is " +:+ cb_class cache +:+ ", which exposes no redis-py client. "
            +:+ "django_redis_raw_client() needs a django_redis backend; use the Django cache API, or "
            +:+ "point this alias at django_redis.cache.RedisCache."))
      end
  end.

(** ** admin.py *)

Definition management_site {Site} (multitenant : bool) (public_admin_site : Site) : option Site :=
  if multitenant then Some public_admin_site else None.

(** The registration its docstring prescribes: the default site, and the management
    site when there is one. *)
Definition register_model {M Site} (multitenant : bool) (default_site public_admin_site : Site) (m : M) : list (Site * M) :=
  (default_site, m) :: match management_site multitenant public_admin_site with Some s => [(s, m)] | None => [] end.

(** ** mode.py: bootstrap_float *)

(** [float_of]: Python's [float] on text.  A name of settings_mode.py holds text or
    a number; [file] is [None] when there is no such file. *)
Inductive Knob := KText (s : string) | KNumber (q : Q).

Definition value_error (s : string) : exn :=
  simple_exn OtherException "ValueError" ("could not convert string to float: " +:+ py_repr s).

Section mode.
Context (float_of : string → option Q).

Definition py_float (k : Knob) : res exn Q :=
  match k with
  | KNumber q => Ok q
  | KText s => match float_of s with Some q => Ok q | None => Err (value_error s) end
  end.

Definition bootstrap_float (env : gmap string string) (file : option (gmap string Knob)) (name : string) (dflt : Q) : res exn Q :=
  match env !! name with
  | Some raw => py_float (KText raw)
  | None => match file with
            | None => Ok dflt
            | Some mode => py_float (default (KNumber dflt) (mode !! name))
            end
  end.

Definition FANOUT_PERIOD_DEFAULT (env : gmap string string) (file : option (gmap string Knob)) : res exn Q :=
  bootstrap_float env file "FANOUT_PERIOD_SECONDS" 60.

End mode.

(** ** migration_ops.py *)

(** The operations of a migration: those of this module, and the others by their
    effect on the session, which may raise. *)
Inductive Operation :=
| LockTimeoutOff | LockTimeoutRestore
| Sql (run : Raw → res exn Raw).

Definition _restore (v : option string) (r : Raw) : Raw := raw_settings v (raw_app r) r.

Definition run_operation (ddl_lock_timeout : option string) (op : Operation) (r : Raw) : res exn Raw :=
  match op with
  | LockTimeoutOff => Ok (raw_settings (Some "0") (raw_app r) r)
  | LockTimeoutRestore => Ok (_restore ddl_lock_timeout r)
  | Sql run => run r
  end.

(** A migration with [atomic = False]: an operation that raises ends it, and what
    ran before stays. *)
Fixpoint run_operations (lt : option string) (ops : list Operation) (r : Raw) : option exn * Raw :=
  match ops with
  | [] => (None, r)
  | op :: ops' => match run_operation lt op r with
                  | Ok r' => run_operations lt ops' r'
                  | Err e => (Some e, r)
                  end
  end.

(** ** celery: apply, registration, the check E005, the application *)

(** [TenantTask.apply]: the options it hands to [super().apply]; [headers] is a dict
    or absent. *)
Record ApplyOptions := mkApplyOptions { ap_headers : option Dict; ap_rest : Dict }.

Definition apply `{TenantBackend} (kw : ApplyOptions) (s : Ctx) : res exn ApplyOptions :=
  h <-? headers_with_schema (Some (default [] (ap_headers kw))) s ;;
  Ok (mkApplyOptions (Some h) (ap_rest kw)).

(** What is registered: a task object, or a class with its name and its bases. *)
Inductive Registered := TaskObject (name : string) | TaskClass (name : string) (bases : list string).

Definition TENANT_TASK : string := "TenantTask".

(** [issubclass]: the class itself or one of its ancestors. *)
Definition is_tenant_task (t : Registered) : bool :=
  match t with TaskClass _ bases => mem TENANT_TASK bases | TaskObject _ => false end.

(** [TenantTaskRegistry.register]: what reaches [super().register]. *)
Definition register (t : Registered) : Registered :=
  match t with
  | TaskClass name bases => if negb (is_tenant_task t) then TaskClass name (bases ++ [TENANT_TASK]) else t
  | TaskObject _ => t
  end.

(** tenants.E005: [registry] is [current_app.tasks] after importing tenants.tasks. *)
Definition fanout_task_registered (registry : list string) : list string :=
  if negb (mem FANOUT_TASK_NAME registry) then [FANOUT_TASK_NAME] else [].

Inductive CeleryClass := PlainCelery | ShardAware.

(** The application, and [app.conf.redbeat_redis_url] as celery.py assigns it. *)
Record CeleryApp := mkCeleryApp { ca_class : CeleryClass; ca_redbeat : option string }.

Definition celery_app (mt : res exn bool) (env : gmap string string) : res exn CeleryApp :=
  multitenant <-? mt ;;
  Ok (if multitenant : bool
      then mkCeleryApp ShardAware (Some (default "" (env !! "CELERY_BROKER_URL")))
      else mkCeleryApp PlainCelery None).

(** A value loaded under the CELERY_ namespace shadows the assigned one. *)
Definition effective_redbeat (namespace : option string) (app : CeleryApp) : option string :=
  match namespace with Some v => Some v | None => ca_redbeat app end.

(** ** The facade *)

Section facade.
Context `{TenantBackend}.

(** Code that compares the current schema with the public one gets the same answer
    in standalone as in multi-tenant code that has bound nothing, and the same alias. *)
Theorem facade_agrees_unbound s : cx_current s = None →
  current_schema_name s = Ok Standalone.current_schema_name
  ∧ active_alias s = Standalone.active_alias
  ∧ Standalone.current_schema_name = Standalone.get_public_schema_name.
Proof. intros Hs. unfold current_schema_name, bound_alias, active_alias. by rewrite Hs. Qed.

(** A manual key inside a tenant is the standalone key of the same parts under the
    tenant's prefix, in both directions: the suffix business code builds does not
    depend on the mode. *)
Theorem tenant_key_extends_standalone parts s k : parts ≠ [] →
  tenant_key parts s = Ok k ↔
  ∃ schema, current_schema_name s = Ok schema ∧ schema ≠ Routing.PUBLIC
    ∧ k = TENANT_NAMESPACE +:+ ":" +:+ schema +:+ ":" +:+ Standalone.tenant_key parts.
Proof.
  intros Hp. unfold tenant_key, tenant_token. destruct (current_schema_name s) as [n|e]; simpl; [|naive_solver].
  destruct (String.eqb_spec n Routing.PUBLIC) as [->|Hn]; simpl; [naive_solver|].
  unfold Standalone.tenant_key. destruct parts as [|p parts]; [done|]. split.
  - intros [= <-]. by exists n.
  - by intros (? & [= <-] & _ & ->).
Qed.

End facade.

(** ** The raw client *)

(** The client is of the alias asked for and exists exactly when the alias is
    configured with a backend that has one; otherwise the error names the alias. *)
Theorem raw_client_exact caches alias write :
  match django_redis_raw_client caches alias write with
  | Ok c => c = (alias, write) ∧ ∃ b, caches !! alias = Some b ∧ cb_client b = ClientWith
  | Err e => (∀ b, caches !! alias = Some b → cb_client b ≠ ClientWith)
             ∧ ∃ pre post, eo_str (x_obj e) = pre +:+ alias +:+ post ∨ eo_str (x_obj e) = pre +:+ py_repr alias +:+ post
  end.
Proof.
  unfold django_redis_raw_client. destruct (caches !! alias) as [b|] eqn:Eb; simpl.
  - destruct (cb_client b) eqn:Ec; [| |split; [done|by eauto]];
      (split; [intros b' [= <-]; by rewrite Ec|]); exists "CACHES["; eexists; right; unfold x_obj; simpl; reflexivity.
  - split; [done|]. exists "The connection '", "' doesn't exist.". left. by unfold x_obj.
Qed.

(** ** The load-time knob *)

(** A value that is not a number ends the load, wherever it comes from, and the
    environment wins over the file. *)
Theorem bootstrap_float_exact float_of env file name dflt q :
  bootstrap_float float_of env file name dflt = Ok q ↔
  match env !! name with
  | Some raw => float_of raw = Some q
  | None => match file ≫= lookup name with
            | Some (KText s) => float_of s = Some q
            | Some (KNumber x) => q = x
            | None => q = dflt
            end
  end.
Proof.
  unfold bootstrap_float, py_float. destruct (env !! name) as [raw|]; [destruct (float_of raw); naive_solver|].
  destruct file as [m|]; simpl; [|naive_solver]. destruct (m !! name) as [[s|x]|]; simpl; [destruct (float_of s)| |]; naive_solver.
Qed.

(** An empty variable counts as absent for the mode flag, and ends the load for a
    number, although both document one way of resolving. *)
Theorem empty_variable_differs float_of file name dflt flag :
  float_of "" = None →
  use_multitenant (Some "") flag = use_multitenant None flag
  ∧ bootstrap_float float_of {[ name := "" ]} file name dflt = Err (value_error "")
  ∧ bootstrap_float float_of ∅ None name dflt = Ok dflt.
Proof.
  intros Hf. split; [done|]. unfold bootstrap_float, py_float. rewrite lookup_singleton_eq, Hf. done.
Qed.

Lemma empty_variable_differs_witness :
  bootstrap_float (λ _, None) {[ "FANOUT_PERIOD_SECONDS" := "" ]} None "FANOUT_PERIOD_SECONDS" 60 = Err (value_error "").
Proof. apply (empty_variable_differs (λ _, None) None "FANOUT_PERIOD_SECONDS" 60 None). done. Defined.

(** ** Non-transactional migrations *)

(** The recipe of the module's docstring. *)
Definition recipe (body : list Operation) : list Operation := LockTimeoutOff :: body ++ [LockTimeoutRestore].

(** The statement leaves the lock timeout alone. *)
Definition keeps_timeout (op : Operation) : Prop :=
  match op with Sql run => ∀ r r', run r = Ok r' → raw_lock_timeout r' = raw_lock_timeout r | _ => False end.

Lemma body_timeout lt body r tail : Forall keeps_timeout body →
  (∃ r', run_operations lt (body ++ tail) r = run_operations lt tail r' ∧ raw_lock_timeout r' = raw_lock_timeout r)
  ∨ (∃ e r', run_operations lt (body ++ tail) r = (Some e, r') ∧ raw_lock_timeout r' = raw_lock_timeout r).
Proof.
  revert r. induction body as [|op body IH]; intros r Hf; simpl; [left; by eauto|].
  inversion_clear Hf as [|?? Ho Hb]. destruct op as [| |run]; [done..|]. simpl in *.
  destruct (run r) as [r'|e] eqn:E; [|right; by eauto]. rewrite <- (Ho r r' E). by apply IH.
Qed.

(** A migration that follows the recipe runs its body without a lock timeout and
    leaves the session with the migrator's own value (the server default in
    standalone), so that the next migration is bounded again; when a statement of the
    body raises, the timeout is still off, until the session is reset. *)
Theorem recipe_restores lt body r : Forall keeps_timeout body →
  let '(e, r') := run_operations lt (recipe body) r in
  raw_lock_timeout r' = match e with None => lt | Some _ => Some "0" end
  ∧ ∀ k, k ≤ length body →
      (run_operations lt (take (S k) (recipe body)) r).1 = None →
      raw_lock_timeout (run_operations lt (take (S k) (recipe body)) r).2 = Some "0".
Proof.
  intros Hf. set (r0 := raw_settings (Some "0") (raw_app r) r).
  assert (raw_lock_timeout r0 = Some "0") as H0 by done.
  destruct (run_operations lt (recipe body) r) as [e r'] eqn:E. split.
  - unfold recipe in E. cbn [run_operations run_operation] in E. fold r0 in E.
    destruct (body_timeout lt body r0 [LockTimeoutRestore] Hf) as [(r1 & H1 & H2)|(e1 & r1 & H1 & H2)]; rewrite H1 in E.
    + simpl in E. by simplify_eq.
    + simplify_eq. congruence.
  - intros k Hk. unfold recipe. cbn [take run_operations run_operation]. fold r0. rewrite take_app_le by done.
    destruct (body_timeout lt (take k body) r0 [] (Forall_take _ k _ Hf)) as [(r1 & H1 & H2)|(e1 & r1 & H1 & H2)];
      rewrite app_nil_r in H1; rewrite H1; simpl; congruence.
Qed.

Lemma recipe_restores_witness :
  let cic := Sql (λ r, Ok r) in
  let '(e, r') := run_operations (Some "5s") (recipe [cic; cic]) (raw_settings (Some "5s") (Some "tm:7") (fresh_raw false)) in
  raw_lock_timeout r' = match e with None => Some "5s" | Some _ => Some "0" end.
Proof.
  intros cic. exact (proj1 (recipe_restores (Some "5s") [cic; cic] (raw_settings (Some "5s") (Some "tm:7") (fresh_raw false))
    ltac:(repeat constructor; simpl; congruence))).
Defined.

(** ** Celery *)

(** An eager call carries the caller's own schema unless its headers name one, and
    nothing else of the call changes. *)
Theorem eager_apply_stamps `{TenantBackend} kw s kw' : apply kw s = Ok kw' →
  ap_rest kw' = ap_rest kw
  ∧ ∃ h, ap_headers kw' = Some h ∧
    match dget SCHEMA_HEADER (default [] (ap_headers kw)) with
    | Some v => h = default [] (ap_headers kw)
    | None => ∃ n, current_schema_name s = Ok n ∧ dget SCHEMA_HEADER h = Some (JStr n)
              ∧ ∀ k, k ≠ SCHEMA_HEADER → dget k h = dget k (default [] (ap_headers kw))
    end.
Proof.
  unfold apply. rewrite res_bind_ok. intros (h & Hh & [= <-]). split; [done|]. exists h. split; [done|].
  by apply stamped_header in Hh.
Qed.

Lemma eager_apply_stamps_witness :
  ∃ kw', apply (mkApplyOptions None [("countdown", JInt 5)]) (mkCtx (Some "shard_a") two_conns) = Ok kw'
    ∧ ap_rest kw' = [("countdown", JInt 5)].
Proof.
  eexists. split; [reflexivity|].
  exact (proj1 (eager_apply_stamps (mkApplyOptions None [("countdown", JInt 5)]) (mkCtx (Some "shard_a") two_conns) _ eq_refl)).
Defined.

(** Every class that reaches the registry inherits from TenantTask and keeps its
    name and its own bases first; objects are left alone, and registering twice
    changes nothing. *)
Theorem registered_is_tenant_task t :
  register (register t) = register t
  ∧ match t, register t with
    | TaskClass n bases, TaskClass n' bases' => n' = n ∧ bases `prefix_of` bases' ∧ TENANT_TASK ∈ bases'
    | TaskObject n, t' => t' = TaskObject n
    | _, _ => False
    end.
Proof.
  destruct t as [n|n bases]; simpl; [done|]. destruct (mem TENANT_TASK bases) eqn:E; simpl.
  - rewrite E. apply mem_spec in E. by split_and!.
  - assert (TENANT_TASK ∈ bases ++ [TENANT_TASK]) as Hin by (apply elem_of_app; right; by left).
    rewrite (proj2 (mem_spec _ _) Hin). split; [done|]. split; [done|]. split; [by eexists|done].
Qed.

(** The shard-aware application runs exactly in multi-tenant mode, and there the
    scheduler has a Redis of its own or the broker's: with the settings of the
    repository, which always define the value, the assigned one is never used. *)
Theorem celery_app_exact mt env app : celery_app mt env = Ok app →
  (ca_class app = ShardAware ↔ mt = Ok true)
  ∧ effective_redbeat (Some (celery_redbeat_redis_url env)) app
    = Some (default (default broker_default (env !! "CELERY_BROKER_URL")) (env !! "REDBEAT_REDIS_URL"))
  ∧ (mt = Ok true → effective_redbeat None app = Some (default "" (env !! "CELERY_BROKER_URL"))).
Proof.
  unfold celery_app. rewrite res_bind_ok. intros ([] & -> & [= <-]); simpl; by split_and!.
Qed.

Lemma celery_app_exact_witness :
  let env : gmap string string := {[ "CELERY_BROKER_URL" := "rediss://broker:6379/0" ]} in
  ∃ app, celery_app (Ok true) env = Ok app ∧ effective_redbeat None app = Some (default "" (env !! "CELERY_BROKER_URL")).
Proof.
  intros env. eexists. split; [reflexivity|].
  exact (proj2 (proj2 (celery_app_exact (Ok true) env _ eq_refl)) eq_refl).
Defined.

(** tenants.E005 is silent exactly when the name the schedule emits is registered. *)
Lemma fanout_task_registered_silent registry : fanout_task_registered registry = [] ↔ FANOUT_TASK_NAME ∈ registry.
Proof.
  unfold fanout_task_registered. destruct (mem FANOUT_TASK_NAME registry) eqn:E; [apply mem_spec in E|apply mem_false in E]; by split.
Qed.
